(* ===== verification/_CoqProject ===== *)
-Q . S2P
Prelude.v
GoStrings.v
GoNumbers.v
AsciiText.v
PackageId.v
Json.v
VersionCompare.v
VersionRanges.v
Collections.v
JsonEncode.v
Base64.v
Domain.v
JsonMaps.v
Lockfiles.v
GoModules.v
NpmLock.v
ScanCollect.v
JsonRender.v
GoTime.v
Urls.v
AdminReturn.v
NetAddr.v
ClientAddr.v
Float64.v
Cvss.v
Advisories.v
Lifecycle.v
SyncCursor.v
SyncRows.v
Dates.v
TimeParse.v
SyncPages.v
SyncContract.v
AuditLog.v
RefreshStatus.v
DevStore.v
RefreshQueue.v
DevFeeds.v
DevFindings.v
DevScans.v
LocalStore.v
LocalBatch.v
LocalSync.v
SyncRuns.v
FeedHealth.v
SyncServer.v
FullSync.v
CheckCache.v
CheckRequest.v
CheckHandler.v
CheckService.v
CheckRaces.v
CheckWire.v
FeedRules.v
OsvFeed.v
PgAdvisories.v
GhsaFeed.v
FeedDetection.v
Correlation.v
Scanner.v
ScanGate.v
RemoteScan.v
LocalScan.v
StoreMachine.v
Session.v
LastUsed.v
KeyForm.v
LoginLimits.v
AdminLogin.v
ApiAuth.v
Supervisor.v
