(* ===== verification/Prelude.v ===== *)
(** * Packmon: a verification library

    Packmon scans the dependencies of software projects for vulnerable,
    malicious and end-of-life packages.  A server collects advisories from
    feeds into a store, a client or the server's API matches packages against
    them, a command-line client keeps a local copy of the server's findings,
    and administrators manage feeds, API keys and the queue of packages to
    re-check.  This library models the parts that carry the program's own logic
    and proves what makes them correct.

    ** The parts and their files

    The language and its library:
    - [Prelude]: Go's 64-bit integers, the interface [GoOrder] of comparison
      functions (total preorders), lexicographic comparison, tactics, and the
      hint database [packmon].
    - [GoStrings], [GoNumbers], [AsciiText], [GoTime], [Dates], [TimeParse],
      [Collections], [Json], [JsonMaps], [JsonEncode], [JsonRender], [Base64],
      [Urls], [NetAddr], [Float64]: the library of Go as the code uses it.
      Strings are byte sequences; JSON is parsed and written exactly as
      encoding/json does; a float64 is a rational with the rounding written out;
      URLs, query strings and IP addresses are read as net/url and net/netip read
      them; a map whose iteration order Go leaves open
      is a [gmap], visited in the order of the interface [MapOrder].

    Versions, findings and policy:
    - [VersionCompare] (internal/version/compare.go): the SemVer, NuGet,
      PEP 440 and Maven comparators and their dispatch.
    - [VersionRanges] (the rest of compare.go, range_shape.go,
      fixed_for_version.go): decoding of advisory ranges, the matcher
      [VersionAffected], the fix advice, and the shape check of stored ranges.
      It relies on [VersionCompare] only through [GoOrder].
    - [PackageId] (internal/packageid): canonical package names.
    - [Domain] (internal/domain): severities, ecosystems, packages and their
      merging, findings, the scan gate and the scan summary.
    - [Lifecycle] (internal/lifecycle): release cycles and their findings,
      which are findings of [Domain].
    - [Advisories] (internal/db): the rows of the database and their helpers.
    - [FeedHealth] (internal/feed/health.go): the status of feeds.

    Feeds:
    - [Cvss] (internal/feed/cvss.go): CVSS scores in floating point.
    - [FeedRules] (ecosystem.go, malicious_risk.go, lastknown.go): the rules the
      importers share.
    - [OsvFeed] (osv/syncer.go), [GhsaFeed] (ghsa/syncer.go): the importers of the
      OSV archive and of the GitHub advisory database.
    - [PgAdvisories] (internal/db/postgres/vulnerabilities.go): the advisory
      tables of PostgreSQL, a statement as a function on tables.
    - [FeedDetection]: importer and tables together.

    The in-memory store (internal/devstore), one record [Store]; every method
    runs under the store's mutex, so it is one function from store to store:
    - [AuditLog] (internal/db/audit_integrity.go): the digest chain of the admin
      audit log; [RefreshStatus] (refresh_status.go): job statuses.
    - [DevStore] (noop.go, noop_admin.go): audit log, API keys, credentials.
    - [RefreshQueue] (noop_refresh_queue.go): refresh queue, check statuses.
    - [DevFeeds], [DevFindings], [DevScans] (noop_feeds.go, noop_findings.go,
      noop_manual_advisories.go, noop_sync.go, noop_scan_logs.go): feeds and
      settings, findings and advisories, scan logs and search.
    - [StoreMachine]: the same store as a state machine ([op], [exec],
      [reachable]) and the abstract queue [queue_step] it refines.

    Synchronisation of the local database:
    - [SyncCursor], [SyncRows], [SyncPages], [SyncContract] (internal/db/sync.go,
      internal/db/postgres/sync.go, sync_page_budget.go,
      internal/synccontract/contract.go): cursors, the size of rows on the wire,
      the builders that cut a query result into pages, and the response.
    - [SyncServer] (internal/api/v1/sync.go and the exporters of
      internal/db/postgres): the sync endpoint.
    - [LocalStore], [LocalBatch] (internal/db/sqlite/store.go, lifecycle.go,
      schema.go): the tables of the local database and the lookups in them.
    - [LocalSync], [SyncRuns] (internal/db/sqlite/sync.go): applying a page, and
      the sequence of requests.
    - [FullSync]: client and server together.

    The server's services:
    - [CheckCache], [CheckRequest], [CheckHandler]
      (internal/api/v1/check_response_cache.go, handler.go): the check endpoint
      over the interface [CheckStore]; [CheckService]: what it answers, with
      [DevStore] as the store; [CheckRaces]: its requests interleaved.
    - [Session] (internal/auth/session.go, csrf.go): the session manager, with
      a heap for the CSRF states that copies of a session share.
    - [AdminReturn] (internal/auth/admin_return.go): where the admin pages
      redirect to.
    - [LoginLimits] (internal/api/admin/handler.go): the lockout table; [KeyForm]
      (pages.go): the form of an API key; [AdminLogin] (handler.go, pages.go,
      feed_forms.go): login, logout, password change and API keys, each request
      cut into phases at its accesses to sessions, lockout table and store, and
      all requests interleaved ([AdminLogin.run]).
    - [ClientAddr] (internal/netutil/trustedproxies.go, middleware/clientip.go):
      the address of a client behind proxies.
    - [ApiAuth], [LastUsed] (internal/server/middleware/auth.go): the
      authentication of API requests, and the updater of the last use of keys
      with its channel, worker and timers as steps.
    - [Supervisor] (internal/feed/queue.go): the queue processor, its worker
      goroutines and their channel as a step relation, over the store
      interface [QueueMaintenanceStore] whose laws [DevStore] discharges.

    The scanner:
    - [Lockfiles] (internal/parser/parser.go, helpers.go, scanner.go): the
      registry of parsers and what they share; [GoModules] (gomod.go): go.mod and
      go.sum; [NpmLock] (npm.go): package-lock.json.
    - [ScanCollect] (internal/scanner/walker.go, package_collector.go): the walk
      over a directory tree and the collection of packages.
    - [Scanner] (scanner.go, parse_diagnostics.go): the pipeline from the project
      to the exit code; the network is a step of a world.  [ScanGate]: what the
      exit code means.
    - [CheckWire] (internal/domain): requests and results of the check endpoint
      as JSON, read by the other side; [Correlation] (internal/correlation):
      correlation identifiers.
    - [RemoteScan]: the scanner against the check endpoint; [LocalScan]
      (db_adapter.go): the scanner against the local database after a sync.

    Definitions keep the names of the Go functions they translate; a loop is a
    function of its own named after it.  Errors are [option] or sum types.  Clock
    readings, random identifiers and the request's cookie are arguments.

    ** What is proved

    - Versions: every comparator is a total preorder; it is numeric on numeric
      versions; pre-releases have their precedence.
    - Ranges: the matcher decides membership in the intervals the ranges denote,
      in both JSON formats; it fails safe; the advised fix leaves the interval
      the installed version is in; stored ranges that pass the check match.
    - Policy: the scan gate, the escalation of life-cycle findings over time,
      canonical merging, the scan summary.
    - Store: every reachable store is well formed; the audit chain; the
      refinement of the abstract queue; claiming, completion under a claim,
      audited removals; revoked keys; no update of a feed lost; detection of a
      stored advisory end to end; manual advisories read back.
    - Sync: the round trip of a cursor, the byte budget of a response, paging
      that delivers every row once and keeps advisories whole; a flagged page
      replaces its advisories; freshness is stored with the last page only; the
      resync marker; batch lookups equal single lookups; a full sync mirrors the
      server within its bound, and never finishes beyond it.
    - Check endpoint: a check reports everything the store has or fails; a
      stored advisory fails the build; the response cache; under concurrent
      retries one idempotency key stands for one request and one scan.
    - Scanner: parsers read back what a module file says; the place of a package
      in the graph of a lock file; walk and collection find what they should; a
      green exit code means a complete scan without blocking findings; remote
      requests cover the packages; client and server decode what the other
      encoded; an affected project fails a remote scan, and malware known at the
      last sync fails a local one.
    - Feeds: the score of a vector against the CVSS standard; an imported GitHub
      advisory is found for every version it covers.
    - Sessions: lifetimes, rights, CSRF tokens.
    - Admin pages: redirects stay on the server; in every interleaving, password
      guesses are bounded per lockout period, and admin sessions and API keys come
      from requests with the password that are in the audit log.
    - API: a request is let through exactly with a live key or when it is open;
      a client cannot choose its address; no accepted use of a key is lost.
    - Queue processor: conservation of results, termination of the shutdown,
      recovery of stuck jobs.

    Other theorems record surprising behaviour: for instance
    [VersionCompare.maven_hyphen_number_loses_word],
    [StoreMachine.retry_duplicates_active_job],
    [AdminLogin.old_password_survives_change] and
    [ClientAddr.second_line_ignored].

    ** Bounds and fuel

    The JSON parser recurses on fuel, twice the length of the text and two,
    which [Json.parse_json_complete] shows to be enough.  Decimal printing and
    the JSON encoder take the length of what they print or read.  The loop over
    sync pages takes the number of requests as fuel: one more than the number of
    rows is enough ([FullSync.run_finishes]).  The work list of the npm parser has the number
    of packages times the number of root dependencies as fuel, which is enough
    ([NpmLock.via_exact]); chunks of a request list take its length.  The queue processor and the
    stores are relations and total functions without fuel; the termination of
    the processor's shutdown is a theorem with the explicit measure
    [Supervisor.work_left].

    ** Parameters

    [GoStrings.UnicodeCase]: the Unicode case tables, consulted only beyond
    ASCII.  [AuditLog.AuditCrypto]: SHA-256 and HMAC
    ([CheckRaces.HexDigests]: their digests are visible text).  [RefreshQueue.Logsafe]:
    the redaction of diagnostics.  [CheckRequest.MediaTypes]: the parser of media
    types.  [Collections.MapOrder]: the order in which a map is visited.
    [LocalStore.LinkPolicy]: the choice of links for a finding.
    [Collections.SliceSort]: sort.Slice, which is not stable.  [Scanner.RemoteText]:
    URL parsing and texts that are only shown.  The parser of SBOM files, the
    exchange of HTTP messages and the loading of a CA bundle are arguments.
    [SyncServer.Collation], [SyncServer.sync_database]: the order of keys in the
    database and the rows its queries select.  [PgAdvisories.Jsonb]: the text
    PostgreSQL keeps of a JSON column.  [PgAdvisories.ReferencePolicy]: the choice
    of links to store.  [AdminLogin.Passwords]: bcrypt.  The theorems hold for every
    choice that satisfies the laws stated with the class.  The process's HMAC key
    is a fixed argument.

    ** What is not modelled

    The downloads, delta runs and statuses of the feed importers, and the other
    feed clients and workers (network); feed imports through the API, package
    details and the remaining HTTP handlers and admin forms; logging, recovery and
    header middleware; web pages and the command line; SQL text (what a query
    returns is an argument or a filter over the table); the other lockfile parsers
    and SBOM files; reports; configuration, telemetry and redaction.  Rate limiters
    keep fractions of tokens in floating point and are left out.  The interleaved
    admin requests and the updater of last uses are not shut down. *)
From stdpp Require Import base list option strings gmap.
From Stdlib Require Import ZArith Lia.

Declare Scope packmon_scope.
Delimit Scope packmon_scope with packmon.
Open Scope packmon_scope.
Open Scope Z_scope.

(** ** Go integers

    [int] is 64 bits wide on every platform packmon is built for; arithmetic
    wraps around. *)

Definition int64_min : Z := - 2 ^ 63.
Definition int64_max : Z := 2 ^ 63 - 1.

Definition wrap64 (z : Z) : Z := (z + 2 ^ 63) mod 2 ^ 64 - 2 ^ 63.

Lemma wrap64_range z : int64_min <= wrap64 z <= int64_max.
Proof.
  unfold wrap64, int64_min, int64_max.
  pose proof (Z.mod_pos_bound (z + 2 ^ 63) (2 ^ 64) ltac:(lia)). lia.
Qed.

Lemma wrap64_id z : int64_min <= z <= int64_max -> wrap64 z = z.
Proof. unfold wrap64, int64_min, int64_max. intros. rewrite Z.mod_small; lia. Qed.

Lemma wrap64_wrap_l a b : wrap64 (wrap64 a + b) = wrap64 (a + b).
Proof.
  unfold wrap64. f_equal.
  replace ((a + 2 ^ 63) mod 2 ^ 64 - 2 ^ 63 + b + 2 ^ 63)
    with ((a + 2 ^ 63) mod 2 ^ 64 + b) by lia.
  rewrite Zplus_mod_idemp_l. f_equal. lia.
Qed.

Lemma wrap64_mul_wrap a b c : wrap64 (wrap64 a * b + c) = wrap64 (a * b + c).
Proof.
  unfold wrap64. f_equal.
  replace (((a + 2 ^ 63) mod 2 ^ 64 - 2 ^ 63) * b + c + 2 ^ 63)
    with (((a + 2 ^ 63) mod 2 ^ 64) * b + (c + 2 ^ 63 - 2 ^ 63 * b)) by ring.
  rewrite <- Zplus_mod_idemp_l, Zmult_mod_idemp_l, Zplus_mod_idemp_l. f_equal. ring.
Qed.

(** ** Three-way comparison functions

    A Go comparison function returns a negative, zero or positive [int].
    [GoOrder] is the interface such a function promises to its clients: it is
    the comparison of a total preorder. *)

Class GoOrder {A : Type} (f : A -> A -> Z) : Prop := {
  go_range : forall x y, f x y = -1 \/ f x y = 0 \/ f x y = 1;
  go_anti : forall x y, f y x = - f x y;
  go_trans : forall x y z, f x y <= 0 -> f y z <= 0 -> f x z <= 0
}.

(** [if a < b { return -1 }; if a > b { return 1 }; return 0] *)
Definition zcmp (a b : Z) : Z := if a <? b then -1 else if b <? a then 1 else 0.

(** [if cmp := c; cmp != 0 { return cmp }; return d] *)
Definition cmp_then (c d : Z) : Z := if c =? 0 then d else c.

Notation "c <?> d" := (cmp_then c d) (at level 60, right associativity) : packmon_scope.

(** Case analysis on every Boolean integer test of the goal and hypotheses. *)
Ltac zbool :=
  repeat match goal with
  | H : context [?a =? ?b] |- _ => destruct (Z.eqb_spec a b)
  | |- context [?a =? ?b] => destruct (Z.eqb_spec a b)
  | H : context [?a <? ?b] |- _ => destruct (Z.ltb_spec a b)
  | |- context [?a <? ?b] => destruct (Z.ltb_spec a b)
  | H : context [?a <=? ?b] |- _ => destruct (Z.leb_spec a b)
  | |- context [?a <=? ?b] => destruct (Z.leb_spec a b)
  end.

(** Closed decidable propositions by evaluation. *)
Ltac decided := refine (bool_decide_eq_true_1 _ _); vm_compute; reflexivity.

Section go_order.
Context {A : Type} (f : A -> A -> Z) {Hf : GoOrder f}.

Lemma go_refl x : f x x = 0.
Proof. pose proof (go_anti (f := f) x x). lia. Qed.

Lemma go_ge_trans x y z : 0 <= f x y -> 0 <= f y z -> 0 <= f x z.
Proof.
  intros H1 H2. pose proof (go_anti (f := f) x y). pose proof (go_anti (f := f) y z).
  pose proof (go_anti (f := f) x z). pose proof (go_trans (f := f) z y x). lia.
Qed.

Lemma go_eq_trans x y z : f x y = 0 -> f y z = 0 -> f x z = 0.
Proof.
  intros H1 H2. pose proof (go_trans (f := f) x y z). pose proof (go_ge_trans x y z). lia.
Qed.

(** Comparing equal is a congruence for the comparison itself. *)
Lemma go_eq_l x y z : f x y = 0 -> f x z = f y z.
Proof.
  intros H. pose proof (go_anti (f := f) x y).
  pose proof (go_trans (f := f) x y z). pose proof (go_trans (f := f) y x z).
  pose proof (go_ge_trans x y z). pose proof (go_ge_trans y x z).
  destruct (go_range (f := f) x z) as [|[|]]; destruct (go_range (f := f) y z) as [|[|]]; lia.
Qed.

Lemma go_eq_r x y z : f x y = 0 -> f z x = f z y.
Proof.
  intros H. rewrite (go_anti (f := f) x z), (go_anti (f := f) y z). f_equal. by apply go_eq_l.
Qed.

Lemma go_lt_le_trans x y z : f x y < 0 -> f y z <= 0 -> f x z < 0.
Proof.
  intros H1 H2. pose proof (go_trans (f := f) x y z).
  destruct (decide (f x z = 0)) as [E|]; [|lia].
  rewrite (go_eq_l x z y E) in H1. pose proof (go_anti (f := f) y z). lia.
Qed.

Lemma go_le_lt_trans x y z : f x y <= 0 -> f y z < 0 -> f x z < 0.
Proof.
  intros H1 H2. pose proof (go_trans (f := f) x y z).
  destruct (decide (f x z = 0)) as [E|]; [|lia].
  pose proof (go_anti (f := f) x z). assert (f z x = 0) as E' by lia.
  rewrite (go_eq_r z x y E') in H2. pose proof (go_anti (f := f) y x). lia.
Qed.
End go_order.

(** Versions that compare equal: the equivalence of a comparison. *)
Definition go_equiv {A} (f : A -> A -> Z) (x y : A) : Prop := f x y = 0.

#[export] Instance go_equiv_equivalence {A} (f : A -> A -> Z) `{!GoOrder f} :
  Equivalence (go_equiv f).
Proof.
  split.
  - intros x. apply go_refl, _.
  - intros x y H. unfold go_equiv in *. rewrite (go_anti x y). lia.
  - intros x y z. apply go_eq_trans, _.
Qed.

#[export] Instance go_equiv_proper {A} (f : A -> A -> Z) `{!GoOrder f} :
  Proper (go_equiv f ==> go_equiv f ==> eq) f.
Proof.
  intros x y Hxy z w Hzw. rewrite (go_eq_l f x y z Hxy). by apply go_eq_r.
Qed.

(** ** Building comparison functions *)

Create HintDb packmon.

#[export] Instance zcmp_order : GoOrder zcmp.
Proof. split; unfold zcmp; intros; zbool; lia. Qed.

Lemma zcmp_lt a b : zcmp a b < 0 <-> a < b.
Proof. unfold zcmp. zbool; lia. Qed.
Lemma zcmp_eq a b : zcmp a b = 0 <-> a = b.
Proof. unfold zcmp. zbool; lia. Qed.
#[export] Hint Rewrite zcmp_lt zcmp_eq : packmon.

Lemma cmp_then_0 d : 0 <?> d = d.
Proof. done. Qed.
Lemma cmp_then_r c : c <?> 0 = c.
Proof. unfold cmp_then. zbool; lia. Qed.
Lemma cmp_then_ne c d : c <> 0 -> c <?> d = c.
Proof. unfold cmp_then. zbool; lia. Qed.
#[export] Hint Rewrite @cmp_then_0 @cmp_then_r : packmon.

Lemma const0_order {A} : GoOrder (fun _ _ : A => 0).
Proof. split; intros; lia. Qed.

(** Comparison through a key. *)
Lemma key_order {A B} (key : A -> B) (f : B -> B -> Z) :
  GoOrder f -> GoOrder (fun x y => f (key x) (key y)).
Proof. intros H. split; intros; [apply go_range | apply go_anti | eapply go_trans; eauto]. Qed.

Lemma order_ext {A} (f g : A -> A -> Z) :
  (forall x y, g x y = f x y) -> GoOrder f -> GoOrder g.
Proof.
  intros E H. split; intros *; rewrite ?E; [apply go_range | apply go_anti | apply go_trans].
Qed.

(** First one comparison, then another. *)
Lemma then_order {A} (f g : A -> A -> Z) :
  GoOrder f -> GoOrder g -> GoOrder (fun x y => f x y <?> g x y).
Proof.
  intros Hf Hg. split; intros x y; unfold cmp_then.
  - zbool; apply go_range.
  - rewrite (go_anti (f := f) x y), (go_anti (f := g) x y). zbool; lia.
  - intros z. destruct (Z.eqb_spec (f x y) 0) as [Exy|]; intros H1.
    + rewrite (go_eq_l f x y z Exy). destruct (Z.eqb_spec (f y z) 0) as [Eyz|]; [|done].
      intros H2. by apply (go_trans x y z).
    + assert (f x y < 0) as Hlt by lia.
      destruct (Z.eqb_spec (f y z) 0) as [Eyz|]; intros H2.
      * pose proof (go_lt_le_trans f x y z). zbool; lia.
      * pose proof (go_lt_le_trans f x y z). zbool; lia.
Qed.

(** [for i := 0; i < maxLen; i++] over two slices, with [d] read past the end
    of the shorter one: the loop of [compareRelease] and [compareIntSlices]. *)
Section padded.
Context {A : Type} (d : A) (f : A -> A -> Z).

Fixpoint cmp_padded_loop (n : nat) (a b : list A) : Z :=
  match n with
  | O => 0
  | S n' => f (default d (head a)) (default d (head b)) <?>
            cmp_padded_loop n' (tail a) (tail b)
  end.

Definition cmp_padded (a b : list A) : Z :=
  cmp_padded_loop (Nat.max (length a) (length b)) a b.

Context {Hf : GoOrder f}.

Lemma cmp_padded_loop_order n : GoOrder (cmp_padded_loop n).
Proof.
  induction n as [|n IH]; [apply const0_order|].
  simpl. apply (then_order (fun a b => f (default d (head a)) (default d (head b)))
    (fun a b => cmp_padded_loop n (tail a) (tail b))).
  - by apply (key_order (fun a : list A => default d (head a))).
  - by apply (key_order (fun a : list A => tail a)).
Qed.

Lemma cmp_padded_loop_nil n : cmp_padded_loop n [] [] = 0.
Proof. induction n as [|n IH]; simpl; [done|]. by rewrite go_refl, IH by done. Qed.

(** Running the loop longer than both slices changes nothing. *)
Lemma cmp_padded_loop_enough n a b :
  (length a <= n)%nat -> (length b <= n)%nat -> cmp_padded_loop n a b = cmp_padded a b.
Proof.
  unfold cmp_padded. revert n b.
  induction a as [|x a IH]; intros n b Ha Hb.
  - simpl. revert n Hb Ha. induction b as [|y b IHb]; intros n Hb Ha; simpl in *.
    + apply cmp_padded_loop_nil.
    + destruct n as [|n]; [lia|]. simpl. f_equal. apply (IHb n); lia.
  - destruct n as [|n]; simpl in *; [lia|]. destruct b as [|y b]; simpl in *; f_equal.
    + rewrite (IH n []) by (simpl; lia). f_equal. simpl. lia.
    + apply IH; lia.
Qed.

#[export] Instance cmp_padded_order : GoOrder cmp_padded.
Proof.
  split.
  - intros x y. unfold cmp_padded. apply cmp_padded_loop_order.
  - intros x y. unfold cmp_padded. rewrite Nat.max_comm. apply cmp_padded_loop_order.
  - intros x y z.
    set (n := Nat.max (length x) (Nat.max (length y) (length z))).
    rewrite <- (cmp_padded_loop_enough n x y), <- (cmp_padded_loop_enough n y z),
      <- (cmp_padded_loop_enough n x z) by lia.
    apply cmp_padded_loop_order.
Qed.
End padded.

(** Lexicographic comparison where a proper prefix is lower. *)
Section lexicographic.
Context {A : Type} (f : A -> A -> Z).

Fixpoint cmp_lex (a b : list A) : Z :=
  match a, b with
  | [], [] => 0
  | [], _ :: _ => -1
  | _ :: _, [] => 1
  | x :: a', y :: b' => f x y <?> cmp_lex a' b'
  end.

Context {Hf : GoOrder f}.

#[export] Instance cmp_lex_order : GoOrder cmp_lex.
Proof.
  split.
  - induction x as [|a x IH]; intros [|b y]; simpl; auto.
    unfold cmp_then. zbool; [apply IH | apply go_range].
  - induction x as [|a x IH]; intros [|b y]; simpl; auto.
    unfold cmp_then. rewrite (go_anti a b), (IH y). zbool; lia.
  - induction x as [|a x IH]; intros [|b y] [|c z]; simpl; try lia.
    unfold cmp_then. destruct (Z.eqb_spec (f a b) 0) as [Eab|]; intros H1.
    + rewrite (go_eq_l f a b c Eab). destruct (f b c =? 0); [by apply IH | done].
    + assert (f a b < 0) as Hlt by lia. intros H2.
      assert (f b c <= 0) as Hbc by (zbool; lia).
      pose proof (go_lt_le_trans f a b c Hlt Hbc). zbool; lia.
Qed.
End lexicographic.
