(* ===== verification/GoStrings.v ===== *)
(** The part of Go's [strings], [unicode/utf8] and [strconv] packages the
    modelled code uses, on Go strings: sequences of bytes, here [string]
    (a list of 8-bit [ascii]).

    White space trimming and splitting are exact, the multi-byte UTF-8
    encodings of Unicode white space included.  Case mapping and case folding
    are exact on strings whose bytes are all below 128; on other strings the
    library consults the Unicode tables, which are the class [UnicodeCase]
    here, so that every theorem holds for any such tables. *)
From stdpp Require Import base list option strings.
From Stdlib Require Import Ascii ZArith Lia.
From S2P Require Import Prelude.

(** ** Bytes *)

Definition code (c : ascii) : Z := Z.of_N (Ascii.N_of_ascii c).

Definition byte (z : Z) : ascii := Ascii.ascii_of_N (Z.to_N z).

(** A string given by its byte values. *)
Definition str_of_codes (l : list Z) : string := String.string_of_list_ascii (byte <$> l).

Definition isDigit (c : ascii) : bool := (48 <=? code c) && (code c <=? 57).

Definition bytes (s : string) : list ascii := String.list_ascii_of_string s.

Definition is_ascii (s : string) : bool := forallb (fun c => code c <? 128) (bytes s).

Fixpoint str_map (f : ascii -> ascii) (s : string) : string :=
  match s with
  | EmptyString => EmptyString
  | String c s' => String (f c) (str_map f s')
  end.

(** ** Slicing and searching *)

(** [s[:n]] *)
Fixpoint str_take (n : nat) (s : string) : string :=
  match n, s with
  | S n', String c s' => String c (str_take n' s')
  | _, _ => EmptyString
  end.

(** [s[n:]] *)
Fixpoint str_drop (n : nat) (s : string) : string :=
  match n, s with
  | S n', String c s' => str_drop n' s'
  | S n', EmptyString => EmptyString
  | O, _ => s
  end.

Fixpoint HasPrefix (s p : string) : bool :=
  match p, s with
  | EmptyString, _ => true
  | String a p', String b s' => bool_decide (a = b) && HasPrefix s' p'
  | String _ _, EmptyString => false
  end.

Definition TrimPrefix (s p : string) : string :=
  if HasPrefix s p then str_drop (String.length p) s else s.

Definition HasSuffix (s p : string) : bool := HasPrefix (String.rev s) (String.rev p).

Definition TrimSuffix (s p : string) : string :=
  if HasSuffix s p then str_take (String.length s - String.length p) s else s.

Fixpoint IndexByte (s : string) (c : ascii) : option nat :=
  match s with
  | EmptyString => None
  | String b s' => if bool_decide (b = c) then Some 0%nat else S <$> IndexByte s' c
  end.

Fixpoint LastIndexByte (s : string) (c : ascii) : option nat :=
  match s with
  | EmptyString => None
  | String b s' =>
      match LastIndexByte s' c with
      | Some i => Some (S i)
      | None => if bool_decide (b = c) then Some 0%nat else None
      end
  end.

Fixpoint Index (s sub : string) : option nat :=
  if HasPrefix s sub then Some 0%nat
  else match s with
       | EmptyString => None
       | String _ s' => S <$> Index s' sub
       end.

Fixpoint LastIndex (s sub : string) : option nat :=
  match s with
  | EmptyString => if HasPrefix s sub then Some 0%nat else None
  | String _ s' =>
      match LastIndex s' sub with
      | Some i => Some (S i)
      | None => if HasPrefix s sub then Some 0%nat else None
      end
  end.

Definition Contains (s sub : string) : bool := bool_decide (is_Some (Index s sub)).

(** The first byte of [s] that occurs in [chars] (all below 128). *)
Fixpoint IndexAny (s chars : string) : option nat :=
  match s with
  | EmptyString => None
  | String b s' => if bool_decide (b ∈ bytes chars) then Some 0%nat else S <$> IndexAny s' chars
  end.

Definition ContainsAny (s chars : string) : bool := bool_decide (is_Some (IndexAny s chars)).

(** [strings.Split] at a one-byte separator: never empty. *)
Fixpoint Split (s : string) (sep : ascii) : list string :=
  match s with
  | EmptyString => [""]
  | String c s' =>
      if bool_decide (c = sep) then "" :: Split s' sep
      else match Split s' sep with
           | [] => [String c ""]
           | x :: xs => String c x :: xs
           end
  end.

(** [strings.SplitN] with two parts: the second is there when the separator is. *)
Definition cut (s : string) (sep : ascii) : string * option string :=
  match IndexByte s sep with
  | Some i => (str_take i s, Some (str_drop (S i) s))
  | None => (s, None)
  end.

Fixpoint Join (l : list string) (sep : string) : string :=
  match l with
  | [] => ""
  | [x] => x
  | x :: xs => x +:+ sep +:+ Join xs sep
  end.

(** [strings.TrimLeft] with a cut set below 128. *)
Fixpoint TrimLeft (s cutset : string) : string :=
  match s with
  | EmptyString => EmptyString
  | String c s' => if bool_decide (c ∈ bytes cutset) then TrimLeft s' cutset else s
  end.

(** The digits [s] starts with, and the rest. *)
Fixpoint span_digits (s : string) : string * string :=
  match s with
  | String c s' =>
      if isDigit c then let '(d, r) := span_digits s' in (String c d, r) else ("", s)
  | EmptyString => ("", s)
  end.

(** ** White space *)

Definition ascii_space (c : ascii) : bool :=
  let z := code c in (z =? 32) || ((9 <=? z) && (z <=? 13)).

(** U+0085 and U+00A0. *)
Definition space2 (c1 c2 : ascii) : bool :=
  (code c1 =? 194) && ((code c2 =? 133) || (code c2 =? 160)).

(** U+1680, U+2000..U+200A, U+2028, U+2029, U+202F, U+205F, U+3000. *)
Definition space3 (c1 c2 c3 : ascii) : bool :=
  let z1 := code c1 in let z2 := code c2 in let z3 := code c3 in
  ((z1 =? 225) && (z2 =? 154) && (z3 =? 128)) ||
  ((z1 =? 226) && (z2 =? 128) &&
     (((128 <=? z3) && (z3 <=? 138)) || (z3 =? 168) || (z3 =? 169) || (z3 =? 175))) ||
  ((z1 =? 226) && (z2 =? 129) && (z3 =? 159)) ||
  ((z1 =? 227) && (z2 =? 128) && (z3 =? 128)).

(** Drop the encodings of white space [s] starts with. *)
Fixpoint trim_with (sp2 : ascii -> ascii -> bool) (sp3 : ascii -> ascii -> ascii -> bool)
    (s : string) : string :=
  match s with
  | EmptyString => s
  | String c s1 =>
      if ascii_space c then trim_with sp2 sp3 s1
      else match s1 with
           | EmptyString => s
           | String c2 s2 =>
               if sp2 c c2 then trim_with sp2 sp3 s2
               else match s2 with
                    | EmptyString => s
                    | String c3 s3 => if sp3 c c2 c3 then trim_with sp2 sp3 s3 else s
                    end
           end
  end.

Definition TrimLeftSpace (s : string) : string := trim_with space2 space3 s.

Definition TrimRightSpace (s : string) : string :=
  String.rev (trim_with (fun a b => space2 b a) (fun a b c => space3 c b a) (String.rev s)).

Definition TrimSpace (s : string) : string := TrimRightSpace (TrimLeftSpace s).

(** [strings.Fields]: the maximal runs of non-space bytes, in order. [cur] is
    the run being read, in reverse. *)
Definition flush (cur : string) : list string :=
  if bool_decide (cur = "") then [] else [String.rev cur].

Fixpoint fields_from (cur s : string) : list string :=
  match s with
  | EmptyString => flush cur
  | String c s1 =>
      if ascii_space c then flush cur ++ fields_from "" s1
      else match s1 with
           | EmptyString => flush (String c cur)
           | String c2 s2 =>
               if space2 c c2 then flush cur ++ fields_from "" s2
               else match s2 with
                    | EmptyString => fields_from (String c cur) s1
                    | String c3 s3 =>
                        if space3 c c2 c3 then flush cur ++ fields_from "" s3
                        else fields_from (String c cur) s1
                    end
           end
  end.

Definition Fields (s : string) : list string := fields_from "" s.

(** ** Case *)

Class UnicodeCase := {
  to_lower_wide : string -> string;
  to_upper_wide : string -> string;
  equal_fold_wide : string -> string -> bool
}.

(** Tables that change nothing beyond the 128 first code points; used to
    evaluate the model on concrete inputs. *)
Definition plain_case : UnicodeCase := {|
  to_lower_wide := fun s => s;
  to_upper_wide := fun s => s;
  equal_fold_wide := fun s t => bool_decide (s = t)
|}.

Definition lower_byte (c : ascii) : ascii :=
  if (65 <=? code c) && (code c <=? 90) then byte (code c + 32) else c.

Definition upper_byte (c : ascii) : ascii :=
  if (97 <=? code c) && (code c <=? 122) then byte (code c - 32) else c.

Section case_mapping.
Context {U : UnicodeCase}.

Definition ToLower (s : string) : string :=
  if is_ascii s then str_map lower_byte s else to_lower_wide s.

Definition ToUpper (s : string) : string :=
  if is_ascii s then str_map upper_byte s else to_upper_wide s.

Definition EqualFold (s t : string) : bool :=
  if is_ascii s && is_ascii t
  then bool_decide (str_map lower_byte s = str_map lower_byte t)
  else equal_fold_wide s t.
End case_mapping.

(** ** Order: Go compares strings byte by byte. *)

Definition byte_cmp (a b : ascii) : Z := zcmp (code a) (code b).

(** [-1], [0] or [1] as [a < b], [a == b] or [a > b]. *)
Definition str_cmp (a b : string) : Z := cmp_lex byte_cmp (bytes a) (bytes b).

Definition str_ltb (a b : string) : bool := str_cmp a b <? 0.

(** ** Numbers: [strconv.Itoa]. *)

Definition digit (n : Z) : ascii := byte (48 + n).

(** The decimal digits of [n >= 0], most significant first, before [acc]. *)
Fixpoint itoa_fuel (fuel : nat) (n : Z) (acc : string) : string :=
  match fuel with
  | O => acc
  | S fuel' =>
      let acc' := String (digit (n mod 10)) acc in
      if n <? 10 then acc' else itoa_fuel fuel' (n / 10) acc'
  end.

Definition itoa_nonneg (n : Z) : string := itoa_fuel (S (Z.to_nat (Z.log2 n))) n "".

Definition Itoa (n : Z) : string :=
  if n <? 0 then "-" +:+ itoa_nonneg (- n) else itoa_nonneg n.

(** ** Lemmas *)

Lemma code_range c : 0 <= code c < 256.
Proof.
  unfold code. pose proof (Ascii.N_ascii_bounded c). lia.
Qed.

Lemma byte_code c : byte (code c) = c.
Proof. unfold byte, code. by rewrite N2Z.id, Ascii.ascii_N_embedding. Qed.

Lemma code_byte z : 0 <= z < 256 -> code (byte z) = z.
Proof.
  intros. unfold byte, code. rewrite Ascii.N_ascii_embedding by lia. lia.
Qed.

Lemma code_inj a b : code a = code b -> a = b.
Proof. intros H. rewrite <- (byte_code a), <- (byte_code b). by rewrite H. Qed.

#[export] Instance byte_cmp_order : GoOrder byte_cmp.
Proof. apply (key_order code zcmp), _. Qed.

#[export] Instance str_cmp_order : GoOrder str_cmp.
Proof. apply (key_order bytes (cmp_lex byte_cmp)), _. Qed.

Lemma cmp_lex_byte_eq a b : cmp_lex byte_cmp a b = 0 -> a = b.
Proof.
  revert b. induction a as [|x a IH]; intros [|y b]; simpl; try done.
  unfold cmp_then. destruct (Z.eqb_spec (byte_cmp x y) 0) as [E|]; intros H; [|lia].
  unfold byte_cmp in E. apply zcmp_eq, code_inj in E. subst. f_equal. by apply IH.
Qed.

(** Strings that compare equal are equal. *)
Lemma str_cmp_eq a b : str_cmp a b = 0 <-> a = b.
Proof.
  split; [|intros ->; apply go_refl, _].
  intros H. unfold str_cmp, bytes in H. apply cmp_lex_byte_eq in H.
  rewrite <- (String.string_of_list_ascii_of_string a), H.
  apply String.string_of_list_ascii_of_string.
Qed.

Lemma Split_ne s sep : Split s sep <> [].
Proof. destruct s as [|c s]; simpl; [done|]. case_bool_decide; [done|]. by destruct (Split s sep). Qed.

(** Splitting loses nothing: joining the parts gives the string back. *)
Lemma Join_Split s sep : Join (Split s sep) (String sep "") = s.
Proof.
  induction s as [|c s IH]; simpl; [done|].
  pose proof (Split_ne s sep). case_bool_decide as E.
  - subst c. destruct (Split s sep) as [|x xs] eqn:Es; [done|].
    rewrite <- IH. done.
  - destruct (Split s sep) as [|x xs] eqn:Es; [done|].
    rewrite <- IH. by destruct xs.
Qed.

Lemma HasPrefix_app p s : HasPrefix (p +:+ s) p = true.
Proof. induction p as [|c p IH]; simpl; [by destruct s|]. by rewrite bool_decide_true. Qed.

Lemma HasPrefix_spec s p : HasPrefix s p = true <-> exists t, s = p +:+ t.
Proof.
  split; [|intros [t ->]; apply HasPrefix_app].
  revert s. induction p as [|a p IH]; intros s H; [by exists s|].
  destruct s as [|b s]; simpl in H; [done|]. apply andb_true_iff in H as [E H].
  apply bool_decide_eq_true in E as <-. destruct (IH _ H) as [t ->]. by exists t.
Qed.

(** ** Strings of a restricted alphabet *)

Definition all_bytes (P : ascii -> bool) (s : string) : bool := forallb P (bytes s).

(** Printable and not a space. *)
Definition visible (c : ascii) : bool := (33 <=? code c) && (code c <=? 126).

Definition not_byte (b : ascii) (c : ascii) : bool := negb (bool_decide (c = b)).

Lemma all_bytes_cons P c s : all_bytes P (String c s) = P c && all_bytes P s.
Proof. done. Qed.

Lemma all_bytes_app P s t : all_bytes P (s +:+ t) = all_bytes P s && all_bytes P t.
Proof.
  induction s as [|c s IH]; [done|].
  change (String c s +:+ t) with (String c (s +:+ t)). by rewrite !all_bytes_cons, IH, andb_assoc.
Qed.

Lemma all_bytes_impl (P Q : ascii -> bool) s :
  (forall c, P c = true -> Q c = true) -> all_bytes P s = true -> all_bytes Q s = true.
Proof.
  intros H. induction s as [|c s IH]; [done|]. rewrite !all_bytes_cons, !andb_true_iff.
  intros [??]. split; auto.
Qed.

Lemma all_bytes_drop P n s : all_bytes P s = true -> all_bytes P (str_drop n s) = true.
Proof.
  revert s. induction n as [|n IH]; intros [|c s] H; try done.
  rewrite all_bytes_cons, andb_true_iff in H. simpl. apply IH, H.
Qed.

Lemma bytes_app s t : bytes (s +:+ t) = bytes s ++ bytes t.
Proof. induction s as [|c s IH]; [done|]. unfold bytes in *. simpl. by rewrite IH. Qed.

Lemma bytes_inj s t : bytes s = bytes t -> s = t.
Proof.
  unfold bytes. intros H. rewrite <- (String.string_of_list_ascii_of_string s), H.
  apply String.string_of_list_ascii_of_string.
Qed.

Lemma bytes_rev s : bytes (String.rev s) = reverse (bytes s).
Proof.
  assert (forall s t, bytes (String.rev_app s t) = reverse (bytes s) ++ bytes t) as H.
  { clear s. induction s as [|c s IH]; intros t; [done|]. simpl. rewrite IH. unfold bytes. simpl.
    by rewrite reverse_cons, <- app_assoc. }
  unfold String.rev. by rewrite H, app_nil_r.
Qed.

Lemma rev_involutive s : String.rev (String.rev s) = s.
Proof. apply bytes_inj. by rewrite !bytes_rev, reverse_involutive. Qed.

Lemma all_bytes_rev P s : all_bytes P (String.rev s) = all_bytes P s.
Proof.
  unfold all_bytes. rewrite bytes_rev. induction (bytes s) as [|c l IH]; [done|].
  rewrite reverse_cons, forallb_app, IH. simpl. rewrite andb_true_r. apply andb_comm.
Qed.

Lemma visible_code c : visible c = true -> 33 <= code c <= 126.
Proof. unfold visible. zbool; simpl; done. Qed.

Lemma space2_visible a b : visible a = true \/ visible b = true -> space2 a b = false.
Proof.
  unfold space2. intros [H%visible_code|H%visible_code].
  - by rewrite (proj2 (Z.eqb_neq (code a) 194)) by lia.
  - rewrite (proj2 (Z.eqb_neq (code b) 133)), (proj2 (Z.eqb_neq (code b) 160)) by lia.
    apply andb_false_r.
Qed.

Lemma space3_visible a b c : visible a = true \/ visible c = true -> space3 a b c = false.
Proof.
  unfold space3. intros [H%visible_code|H%visible_code].
  - by rewrite (proj2 (Z.eqb_neq (code a) 225)), (proj2 (Z.eqb_neq (code a) 226)),
      (proj2 (Z.eqb_neq (code a) 227)) by lia.
  - rewrite (proj2 (Z.leb_gt 128 (code c))), !(proj2 (Z.eqb_neq (code c) _)) by lia.
    by rewrite !andb_false_r.
Qed.

Lemma trim_with_visible sp2 sp3 s :
  (forall a b, visible a = true -> sp2 a b = false) ->
  (forall a b c, visible a = true -> sp3 a b c = false) ->
  all_bytes visible s = true -> trim_with sp2 sp3 s = s.
Proof.
  intros H2 H3 H. destruct s as [|c s]; [done|]. simpl.
  rewrite all_bytes_cons, andb_true_iff in H. destruct H as [Hc _].
  assert (ascii_space c = false) as ->.
  { unfold ascii_space, visible in *. zbool; simpl in *; try done; lia. }
  destruct s as [|b s]; [done|]. rewrite H2 by done. destruct s as [|d s]; [done|]. by rewrite H3.
Qed.

(** Case analysis on the code tests of a goal about single bytes. *)
Ltac byte_cases := intros; zbool; simpl in *; try done; lia.

(** Trimming does nothing to a string without white space. *)
Lemma TrimSpace_visible s : all_bytes visible s = true -> TrimSpace s = s.
Proof.
  intros H. unfold TrimSpace, TrimLeftSpace, TrimRightSpace.
  rewrite (trim_with_visible space2 space3) by auto using space2_visible, space3_visible.
  rewrite trim_with_visible; [apply rev_involutive| | |by rewrite all_bytes_rev];
    auto using space2_visible, space3_visible.
Qed.

Lemma IndexByte_none s c : all_bytes (not_byte c) s = true -> IndexByte s c = None.
Proof.
  induction s as [|b s IH]; [done|]. rewrite all_bytes_cons, andb_true_iff. simpl. intros [Hb Hs].
  unfold not_byte in Hb. case_bool_decide; [done|]. by rewrite IH.
Qed.

Lemma LastIndexByte_app s c t :
  all_bytes (not_byte c) t = true -> LastIndexByte (s +:+ String c t) c = Some (String.length s).
Proof.
  intros Ht. assert (LastIndexByte t c = None) as HN.
  { induction t as [|b t IH]; [done|]. rewrite all_bytes_cons, andb_true_iff in Ht.
    destruct Ht as [Hb Ht]. simpl. rewrite IH by done. unfold not_byte in Hb. by case_bool_decide. }
  induction s as [|b s IH].
  - change ("" +:+ String c t) with (String c t). simpl. rewrite HN. by rewrite bool_decide_true.
  - change (String b s +:+ String c t) with (String b (s +:+ String c t)). simpl. by rewrite IH.
Qed.

Lemma IndexByte_app s c t :
  all_bytes (not_byte c) s = true -> IndexByte (s +:+ String c t) c = Some (String.length s).
Proof.
  induction s as [|b s IH]; intros H.
  - change ("" +:+ String c t) with (String c t). simpl. by rewrite bool_decide_true.
  - rewrite all_bytes_cons, andb_true_iff in H. destruct H as [Hb Hs].
    change (String b s +:+ String c t) with (String b (s +:+ String c t)). simpl.
    unfold not_byte in Hb. case_bool_decide; [done|]. by rewrite IH.
Qed.

Lemma str_take_app s t : str_take (String.length s) (s +:+ t) = s.
Proof.
  induction s as [|c s IH]; [by destruct t|].
  change (String c s +:+ t) with (String c (s +:+ t)). simpl. by rewrite IH.
Qed.

Lemma str_drop_app s t n : str_drop (n + String.length s) (s +:+ t) = str_drop n t.
Proof.
  induction s as [|c s IH].
  - by rewrite Nat.add_0_r.
  - change (String c s +:+ t) with (String c (s +:+ t)). simpl. by rewrite Nat.add_succ_r.
Qed.

(** A string that lacks a byte of [sub] does not contain [sub]. *)
Lemma HasPrefix_byte s sub P :
  all_bytes P s = true -> HasPrefix s sub = true -> all_bytes P sub = true.
Proof.
  intros Hs Hp. apply HasPrefix_spec in Hp as [t ->].
  rewrite all_bytes_app, andb_true_iff in Hs. tauto.
Qed.

Lemma Index_none s sub P :
  all_bytes P s = true -> all_bytes P sub = false -> Index s sub = None.
Proof.
  intros Hs Hsub. induction s as [|c s IH]; cbn [Index].
  - destruct (HasPrefix "" sub) eqn:E; [|done].
    apply (HasPrefix_byte _ _ P) in E; [congruence | done].
  - destruct (HasPrefix (String c s) sub) eqn:E.
    { apply (HasPrefix_byte _ _ P) in E; [congruence | done]. }
    rewrite all_bytes_cons, andb_true_iff in Hs. destruct Hs. by rewrite IH.
Qed.

Lemma LastIndex_none s sub P :
  all_bytes P s = true -> all_bytes P sub = false -> LastIndex s sub = None.
Proof.
  intros Hs Hsub. induction s as [|c s IH]; cbn [LastIndex].
  - destruct (HasPrefix "" sub) eqn:E; [|done].
    apply (HasPrefix_byte _ _ P) in E; [congruence | done].
  - rewrite all_bytes_cons, andb_true_iff in Hs. destruct Hs as [Hc Hs]. rewrite IH by done.
    destruct (HasPrefix (String c s) sub) eqn:E; [|done].
    apply (HasPrefix_byte _ _ P) in E; [congruence|]. by rewrite all_bytes_cons, Hc, Hs.
Qed.

Lemma Split_none s sep : all_bytes (not_byte sep) s = true -> Split s sep = [s].
Proof.
  induction s as [|c s IH]; [done|]. rewrite all_bytes_cons, andb_true_iff. intros [Hc Hs]. simpl.
  unfold not_byte in Hc. case_bool_decide; [done|]. by rewrite IH.
Qed.

Lemma Split_app s sep t :
  all_bytes (not_byte sep) s = true -> Split (s +:+ String sep t) sep = s :: Split t sep.
Proof.
  induction s as [|c s IH]; intros H.
  - change ("" +:+ String sep t) with (String sep t). simpl. by rewrite bool_decide_true.
  - rewrite all_bytes_cons, andb_true_iff in H. destruct H as [Hc Hs].
    change (String c s +:+ String sep t) with (String c (s +:+ String sep t)). simpl.
    unfold not_byte in Hc. case_bool_decide; [done|]. by rewrite IH.
Qed.

(** Joining parts that lack the separator and splitting gives them back. *)
Lemma Split_Join l sep :
  l <> [] -> Forall (fun s => all_bytes (not_byte sep) s = true) l ->
  Split (Join l (String sep "")) sep = l.
Proof.
  intros Hne H. induction H as [|x l Hx Hl IH]; [done|]. destruct l as [|y l]; [by apply Split_none|].
  change (Join (x :: y :: l) (String sep "")) with (x +:+ String sep (Join (y :: l) (String sep ""))).
  rewrite Split_app by done. by rewrite IH.
Qed.

Lemma all_bytes_Join P l sep :
  Forall (fun s => all_bytes P s = true) l -> all_bytes P sep = true ->
  all_bytes P (Join l sep) = true.
Proof.
  intros H Hsep. induction H as [|x l Hx Hl IH]; [done|]. destruct l as [|y l]; [done|].
  change (Join (x :: y :: l) sep) with (x +:+ (sep +:+ Join (y :: l) sep)).
  by rewrite !all_bytes_app, Hx, Hsep, IH.
Qed.

Lemma is_ascii_visible s : all_bytes visible s = true -> is_ascii s = true.
Proof.
  apply all_bytes_impl. unfold visible. byte_cases.
Qed.

Lemma str_map_id f s : (forall c, c ∈ bytes s -> f c = c) -> str_map f s = s.
Proof.
  induction s as [|c s IH]; intros H; [done|]. simpl. rewrite H by (simpl; left). f_equal.
  apply IH. intros. apply H. by right.
Qed.

Lemma all_bytes_elem P s c : all_bytes P s = true -> c ∈ bytes s -> P c = true.
Proof.
  unfold all_bytes. rewrite forallb_forall. intros H Hc. apply H. by apply list_elem_of_In.
Qed.

(** ** Decimal numerals *)

(** The number a string of digits denotes, after the digits of [n]. *)
Fixpoint dec_value (n : Z) (s : string) : Z :=
  match s with
  | EmptyString => n
  | String c s' => dec_value (n * 10 + (code c - 48)) s'
  end.

Lemma isDigit_digit n : 0 <= n < 10 -> isDigit (digit n) = true.
Proof. intros. unfold isDigit, digit. rewrite code_byte by lia. byte_cases. Qed.

Lemma itoa_fuel_digits fuel n acc :
  all_bytes isDigit acc = true -> 0 <= n -> all_bytes isDigit (itoa_fuel fuel n acc) = true.
Proof.
  revert n acc. induction fuel as [|fuel IH]; intros n acc Hacc Hn; [done|]. simpl.
  assert (all_bytes isDigit (String (digit (n mod 10)) acc) = true).
  { rewrite all_bytes_cons, isDigit_digit; [done|]. apply Z.mod_pos_bound. lia. }
  destruct (n <? 10); [done|]. apply IH; [done|]. apply Z.div_pos; lia.
Qed.

Lemma itoa_fuel_value fuel n acc :
  0 <= n < 2 ^ Z.of_nat fuel -> dec_value 0 (itoa_fuel fuel n acc) = dec_value n acc.
Proof.
  revert n acc. induction fuel as [|fuel IH]; intros n acc Hn; [simpl in *; f_equal; lia|].
  simpl. assert (forall m, code (digit (m mod 10)) = 48 + m mod 10) as Hd.
  { intros m. unfold digit. apply code_byte. pose proof (Z.mod_pos_bound m 10 ltac:(lia)). lia. }
  destruct (Z.ltb_spec n 10).
  - simpl. rewrite Hd, Z.mod_small by lia. f_equal. lia.
  - rewrite IH.
    + simpl. rewrite Hd. f_equal. pose proof (Z.div_mod n 10 ltac:(lia)). lia.
    + split; [apply Z.div_pos; lia|]. rewrite Nat2Z.inj_succ, Z.pow_succ_r in Hn by lia.
      apply Z.div_lt_upper_bound; lia.
Qed.

Lemma itoa_nonneg_digits n : 0 <= n -> all_bytes isDigit (itoa_nonneg n) = true.
Proof. intros. by apply itoa_fuel_digits. Qed.

Lemma itoa_nonneg_value n : 0 <= n -> dec_value 0 (itoa_nonneg n) = n.
Proof.
  intros Hn. unfold itoa_nonneg. rewrite itoa_fuel_value; [done|].
  split; [done|]. rewrite Nat2Z.inj_succ, Z2Nat.id by apply Z.log2_nonneg.
  destruct (decide (n = 0)) as [->|]; [done|]. apply Z.log2_spec. lia.
Qed.

Lemma itoa_fuel_ne fuel n acc : acc <> "" -> itoa_fuel fuel n acc <> "".
Proof.
  revert n acc. induction fuel as [|fuel IH]; intros n acc H; [done|]. simpl.
  destruct (n <? 10); [done|]. by apply IH.
Qed.

Lemma itoa_nonneg_ne n : itoa_nonneg n <> "".
Proof. unfold itoa_nonneg. simpl. destruct (n <? 10); [done|]. by apply itoa_fuel_ne. Qed.

Lemma isDigit_visible c : isDigit c = true -> visible c = true.
Proof. unfold isDigit, visible. byte_cases. Qed.

Lemma str_len_app s t : String.length (s +:+ t) = (String.length s + String.length t)%nat.
Proof. induction s as [|c s IH]; [done|]. simpl. by rewrite <- IH. Qed.

Lemma str_app_assoc s t u : (s +:+ t) +:+ u = s +:+ (t +:+ u).
Proof. apply bytes_inj. by rewrite !bytes_app, app_assoc. Qed.

Lemma str_app_nil s : s +:+ "" = s.
Proof. apply bytes_inj. by rewrite bytes_app, app_nil_r. Qed.

(** The last occurrence of a substring whose first byte does not come again. *)
Lemma LastIndex_app u c w t :
  all_bytes (not_byte c) (w +:+ t) = true ->
  LastIndex (u +:+ String c (w +:+ t)) (String c w) = Some (String.length u).
Proof.
  intros H. induction u as [|a u IH].
  - change ("" +:+ String c (w +:+ t)) with (String c (w +:+ t)). cbn [LastIndex].
    rewrite (LastIndex_none (w +:+ t) (String c w) (not_byte c)); [|done|].
    + change (String c (w +:+ t)) with (String c w +:+ t). by rewrite HasPrefix_app.
    + rewrite all_bytes_cons. unfold not_byte. by rewrite bool_decide_true.
  - change (String a u +:+ String c (w +:+ t)) with (String a (u +:+ String c (w +:+ t))).
    cbn [LastIndex]. by rewrite IH.
Qed.

Lemma span_digits_app d t :
  all_bytes isDigit d = true ->
  (match t with String c _ => isDigit c = false | EmptyString => True end) ->
  span_digits (d +:+ t) = (d, t).
Proof.
  intros Hd Ht. induction d as [|c d IH].
  - change ("" +:+ t) with t. destruct t as [|c t]; [done|]. simpl. by rewrite Ht.
  - rewrite all_bytes_cons, andb_true_iff in Hd. destruct Hd as [Hc Hd].
    change (String c d +:+ t) with (String c (d +:+ t)). simpl. by rewrite Hc, IH.
Qed.

Lemma rev_app s t : String.rev (s +:+ t) = String.rev t +:+ String.rev s.
Proof. apply bytes_inj. by rewrite bytes_app, !bytes_rev, bytes_app, reverse_app. Qed.

Lemma str_map_app f s t : str_map f (s +:+ t) = str_map f s +:+ str_map f t.
Proof.
  induction s as [|c s IH]; [done|].
  change (String c s +:+ t) with (String c (s +:+ t)). simpl. by rewrite IH.
Qed.

Lemma ToLower_app {U : UnicodeCase} s t :
  is_ascii s = true -> is_ascii t = true -> ToLower (s +:+ t) = ToLower s +:+ ToLower t.
Proof.
  intros Hs Ht. unfold ToLower. unfold is_ascii in *. rewrite bytes_app, forallb_app, Hs, Ht. simpl.
  apply str_map_app.
Qed.

(** Induction on the length. *)
Lemma str_len_ind (P : string -> Prop) :
  (forall s, (forall t, (String.length t < String.length s)%nat -> P t) -> P s) -> forall s, P s.
Proof. intros H s. induction s using (induction_ltof1 _ String.length). by apply H. Qed.

Section trim.
Context (sp2 : ascii -> ascii -> bool) (sp3 : ascii -> ascii -> ascii -> bool).

(** One white space encoding at the front, removed. *)
Definition trim_step (s : string) : option string :=
  match s with
  | EmptyString => None
  | String a s1 =>
      if ascii_space a then Some s1
      else match s1 with
           | EmptyString => None
           | String b s2 =>
               if sp2 a b then Some s2
               else match s2 with
                    | EmptyString => None
                    | String c s3 => if sp3 a b c then Some s3 else None
                    end
           end
  end.

Lemma trim_with_step s :
  trim_with sp2 sp3 s = match trim_step s with Some t => trim_with sp2 sp3 t | None => s end.
Proof.
  destruct s as [|a [|b [|c s]]]; cbn [trim_with trim_step]; [done|..];
    (destruct (ascii_space a); [done|]); [done|..]; (destruct (sp2 a b); [done|]); [done|].
  by destruct (sp3 a b c).
Qed.

Lemma trim_step_Some s t :
  trim_step s = Some t -> exists p, s = p +:+ t /\ (String.length t < String.length s)%nat.
Proof.
  destruct s as [|a [|b [|c s]]]; cbn [trim_step]; [done|..];
    (destruct (ascii_space a); [intros [= <-]; exists (String a ""); simpl; auto|]); [done|..];
    (destruct (sp2 a b); [intros [= <-]; exists (String a (String b "")); simpl; auto|]); [done|].
  destruct (sp3 a b c); [|done]. intros [= <-]. exists (String a (String b (String c ""))).
  simpl. auto.
Qed.

Lemma trim_step_prefix r u : trim_step (r +:+ u) = None -> trim_step r = None.
Proof.
  destruct r as [|a [|b [|c r]]]; [done|..]; simpl; destruct (ascii_space a); try done;
    destruct (sp2 a b); try done; by destruct (sp3 a b c).
Qed.

(** Trimming removes a prefix and stops where no step applies. *)
Lemma trim_with_spec s :
  (exists p, s = p +:+ trim_with sp2 sp3 s) /\ trim_step (trim_with sp2 sp3 s) = None.
Proof.
  induction s as [s IH] using str_len_ind. rewrite trim_with_step.
  destruct (trim_step s) as [t|] eqn:E; [|by split; [exists ""|]].
  apply trim_step_Some in E as (p & -> & Hlt). destruct (IH t Hlt) as [[q Hq] Hn].
  split; [|done]. exists (p +:+ q). by rewrite str_app_assoc, <- Hq.
Qed.

Lemma trim_step_None s : trim_step s = None -> trim_with sp2 sp3 s = s.
Proof. intros E. by rewrite trim_with_step, E. Qed.
End trim.

Lemma TrimSpace_idem s : TrimSpace (TrimSpace s) = TrimSpace s.
Proof.
  unfold TrimSpace at 1. set (t := TrimLeftSpace s).
  set (sp2 := fun a b : ascii => space2 b a). set (sp3 := fun a b c : ascii => space3 c b a).
  assert (exists u, t = TrimSpace s +:+ u) as [u Hu].
  { unfold TrimSpace, TrimRightSpace. fold t sp2 sp3.
    destruct (trim_with_spec sp2 sp3 (String.rev t)) as [[p Hp] _]. exists (String.rev p).
    by rewrite <- rev_app, <- Hp, rev_involutive. }
  assert (TrimLeftSpace (TrimSpace s) = TrimSpace s) as ->.
  { apply trim_step_None, (trim_step_prefix space2 space3 _ u). rewrite <- Hu.
    apply trim_with_spec. }
  unfold TrimSpace, TrimRightSpace. fold t sp2 sp3. rewrite rev_involutive.
  by rewrite (trim_step_None sp2 sp3) by apply trim_with_spec.
Qed.
#[export] Hint Rewrite TrimSpace_idem : packmon.
