(* ===== verification/GoNumbers.v ===== *)
(** Go's strconv.Atoi, ParseUint and ParseBool, on decimal texts. *)
From stdpp Require Import base list option strings.
From Stdlib Require Import Ascii ZArith Lia.
From S2P Require Import Prelude GoStrings.

(** The value of a non-empty string of digits. *)
Definition parse_digits (s : string) : option Z :=
  if bool_decide (s = "") || negb (all_bytes isDigit s) then None else Some (dec_value 0 s).

(** [strconv.Atoi], with a 64-bit int. *)
Definition Atoi (s : string) : option Z :=
  let '(negative, digits) := match s with
                             | String c rest => if bool_decide (c = "-"%char) then (true, rest)
                                                else if bool_decide (c = "+"%char) then (false, rest) else (false, s)
                             | EmptyString => (false, s)
                             end in
  n ← parse_digits digits;
  let v := if (negative : bool) then - n else n in
  if (int64_min <=? v) && (v <=? int64_max) then Some v else None.

Definition uint64_max : Z := 2 ^ 64 - 1.

(** [strconv.ParseUint(s, 10, 64)] *)
Definition ParseUint (s : string) : option Z :=
  n ← parse_digits s; if n <=? uint64_max then Some n else None.

Definition ParseBool (s : string) : option bool :=
  if bool_decide (s ∈ ["1"; "t"; "T"; "true"; "TRUE"; "True"]) then Some true
  else if bool_decide (s ∈ ["0"; "f"; "F"; "false"; "FALSE"; "False"]) then Some false
  else None.

(** ** Lemmas *)

Lemma parse_digits_Itoa n : 0 <= n -> parse_digits (Itoa n) = Some n.
Proof.
  intros Hn. unfold parse_digits, Itoa. rewrite (proj2 (Z.ltb_ge _ _)) by lia.
  rewrite bool_decide_false by apply itoa_nonneg_ne. rewrite itoa_nonneg_digits by done. cbn [negb orb].
  by rewrite itoa_nonneg_value.
Qed.

Lemma Atoi_digits s : all_bytes isDigit s = true ->
  Atoi s = n ← parse_digits s; if (int64_min <=? n) && (n <=? int64_max) then Some n else None.
Proof.
  destruct s as [|c s]; [done|]. rewrite all_bytes_cons. intros [Hc _]%andb_true_iff. unfold Atoi.
  rewrite !bool_decide_false; [done|intros ->; discriminate Hc..].
Qed.

Lemma Atoi_Itoa n : 0 <= n <= int64_max -> Atoi (Itoa n) = Some n.
Proof.
  intros Hn. rewrite Atoi_digits; [|unfold Itoa; rewrite (proj2 (Z.ltb_ge _ _)) by lia; apply itoa_nonneg_digits; lia].
  rewrite parse_digits_Itoa by lia. cbn [mbind option_bind]. unfold int64_min, int64_max in *.
  by rewrite (proj2 (Z.leb_le _ _)), (proj2 (Z.leb_le _ _)) by lia.
Qed.

Lemma ParseUint_Itoa n : 0 <= n <= uint64_max -> ParseUint (Itoa n) = Some n.
Proof.
  intros Hn. unfold ParseUint. rewrite parse_digits_Itoa by lia. cbn [mbind option_bind].
  by rewrite (proj2 (Z.leb_le _ _)) by lia.
Qed.

Lemma digits_visible s : all_bytes isDigit s = true -> all_bytes visible s = true.
Proof. apply all_bytes_impl. intros c. unfold isDigit, visible. byte_cases. Qed.

Lemma Itoa_trim n : 0 <= n -> TrimSpace (Itoa n) = Itoa n.
Proof.
  intros Hn. apply TrimSpace_visible, digits_visible. unfold Itoa. rewrite (proj2 (Z.ltb_ge _ _)) by lia.
  by apply itoa_nonneg_digits.
Qed.

Lemma Itoa_ne n : 0 <= n -> Itoa n <> "".
Proof. intros Hn. unfold Itoa. rewrite (proj2 (Z.ltb_ge _ _)) by lia. apply itoa_nonneg_ne. Qed.
