(* ===== verification/AsciiText.v ===== *)
(** The string functions of Go on ASCII text.

    Names, keywords and identifiers are ASCII, where the white space and case
    functions of [GoStrings] have a simple form: one byte is one character,
    and white space is a property of the byte. *)
From stdpp Require Import base list option strings.
From Stdlib Require Import Ascii ZArith Lia.
From S2P Require Import Prelude GoStrings.

(** ** White space *)

Fixpoint skip_spaces (s : string) : string :=
  match s with
  | EmptyString => ""
  | String c r => if ascii_space c then skip_spaces r else s
  end.

Lemma is_ascii_cons c s : is_ascii (String c s) = (code c <? 128) && is_ascii s.
Proof. done. Qed.

Lemma is_ascii_app s t : is_ascii (s +:+ t) = is_ascii s && is_ascii t.
Proof. apply (all_bytes_app (fun c => code c <? 128)). Qed.

Lemma is_ascii_rev s : is_ascii (String.rev s) = is_ascii s.
Proof. apply (all_bytes_rev (fun c => code c <? 128)). Qed.

Lemma trim_with_ascii sp2 sp3 s :
  (forall a b, code a <? 128 = true -> code b <? 128 = true -> sp2 a b = false) ->
  (forall a b c, code a <? 128 = true -> code b <? 128 = true -> code c <? 128 = true -> sp3 a b c = false) ->
  is_ascii s = true -> trim_with sp2 sp3 s = skip_spaces s.
Proof.
  intros H2 H3. induction s as [s IH] using str_len_ind. intros Hs.
  destruct s as [|a s]; [done|]. rewrite is_ascii_cons, andb_true_iff in Hs. destruct Hs as [Ha Hs].
  cbn [trim_with skip_spaces]. destruct (ascii_space a); [apply IH; [simpl; lia|done]|].
  destruct s as [|b s]; [done|]. rewrite is_ascii_cons, andb_true_iff in Hs. destruct Hs as [Hb Hs].
  rewrite H2 by done. destruct s as [|c s]; [done|].
  rewrite is_ascii_cons, andb_true_iff in Hs. destruct Hs as [Hc Hs]. by rewrite H3.
Qed.

Lemma space2_ascii a b : code a <? 128 = true -> space2 a b = false.
Proof. intros H%Z.ltb_lt. unfold space2. apply andb_false_iff. left. apply Z.eqb_neq. lia. Qed.

Lemma space3_ascii a b c : code a <? 128 = true -> space3 a b c = false.
Proof.
  intros H%Z.ltb_lt. unfold space3.
  assert (code a =? 225 = false) as -> by (apply Z.eqb_neq; lia).
  assert (code a =? 226 = false) as -> by (apply Z.eqb_neq; lia).
  by assert (code a =? 227 = false) as -> by (apply Z.eqb_neq; lia).
Qed.

Lemma is_ascii_skip s : is_ascii s = true -> is_ascii (skip_spaces s) = true.
Proof.
  induction s as [|c s IH]; [done|]. intros H. cbn [skip_spaces]. destruct (ascii_space c); [|done].
  apply IH. rewrite is_ascii_cons, andb_true_iff in H. tauto.
Qed.

(** On ASCII text [TrimSpace] drops the white space bytes of both ends. *)
Lemma TrimSpace_ascii s :
  is_ascii s = true -> TrimSpace s = String.rev (skip_spaces (String.rev (skip_spaces s))).
Proof.
  intros H. unfold TrimSpace, TrimLeftSpace, TrimRightSpace.
  rewrite (trim_with_ascii _ _ s); auto using space2_ascii, space3_ascii.
  rewrite trim_with_ascii; auto using space2_ascii, space3_ascii.
  rewrite is_ascii_rev. by apply is_ascii_skip.
Qed.

(** The white space at neither end. *)
Definition starts_solid (s : string) : bool :=
  match s with EmptyString => true | String c _ => negb (ascii_space c) end.

Definition solid_ends (s : string) : bool := starts_solid s && starts_solid (String.rev s).

Lemma skip_spaces_id s : starts_solid s = true -> skip_spaces s = s.
Proof. destruct s as [|c s]; [done|]. simpl. by destruct (ascii_space c). Qed.

Lemma skip_spaces_starts s : starts_solid (skip_spaces s) = true.
Proof. induction s as [|c s IH]; [done|]. cbn [skip_spaces]. destruct (ascii_space c) eqn:E; [done|]. simpl. by rewrite E. Qed.

Lemma skip_spaces_suffix s : exists p, s = p +:+ skip_spaces s.
Proof.
  induction s as [|c s [p Hp]]; [by exists ""|]. cbn [skip_spaces].
  destruct (ascii_space c); [exists (String c p); change (String c s = String c (p +:+ skip_spaces s)); congruence|].
  by exists "".
Qed.

Lemma starts_solid_app s t : starts_solid (s +:+ t) = true -> starts_solid s = true.
Proof. by destruct s. Qed.

Lemma TrimSpace_solid s : is_ascii s = true -> solid_ends s = true <-> TrimSpace s = s.
Proof.
  intros H. unfold solid_ends. rewrite (TrimSpace_ascii s H), andb_true_iff. split.
  - intros [H1 H2]. by rewrite (skip_spaces_id s), skip_spaces_id, rev_involutive.
  - intros E. split.
    + destruct (skip_spaces_suffix (String.rev (skip_spaces s))) as [p Hp].
      rewrite <- E. apply (starts_solid_app _ (String.rev p)).
      rewrite <- rev_app, <- Hp, rev_involutive. apply skip_spaces_starts.
    + rewrite <- E, rev_involutive. apply skip_spaces_starts.
Qed.

Lemma TrimSpace_is_ascii s : is_ascii s = true -> is_ascii (TrimSpace s) = true.
Proof. intros H. rewrite (TrimSpace_ascii s H), is_ascii_rev. apply is_ascii_skip. rewrite is_ascii_rev. by apply is_ascii_skip. Qed.

Lemma TrimSpace_solid_ends s : is_ascii s = true -> solid_ends (TrimSpace s) = true.
Proof. intros H. apply TrimSpace_solid; [by apply TrimSpace_is_ascii|]. apply TrimSpace_idem. Qed.

(** ** Case *)

Lemma lower_byte_idem c : lower_byte (lower_byte c) = lower_byte c.
Proof. destruct c as [[] [] [] [] [] [] [] []]; reflexivity. Qed.

Lemma lower_byte_ascii c : code c <? 128 = true -> code (lower_byte c) <? 128 = true.
Proof. destruct c as [[] [] [] [] [] [] [] []]; vm_compute; congruence. Qed.

Lemma lower_byte_space c : ascii_space (lower_byte c) = ascii_space c.
Proof. destruct c as [[] [] [] [] [] [] [] []]; reflexivity. Qed.

Lemma str_map_map f g s : str_map f (str_map g s) = str_map (fun c => f (g c)) s.
Proof. induction s as [|c s IH]; [done|]. simpl. by rewrite IH. Qed.

Lemma str_map_ext f g s : (forall c, f c = g c) -> str_map f s = str_map g s.
Proof. intros H. induction s as [|c s IH]; [done|]. simpl. by rewrite H, IH. Qed.

Lemma bytes_str_map f s : bytes (str_map f s) = f <$> bytes s.
Proof. induction s as [|c s IH]; [done|]. simpl. by rewrite IH. Qed.

Lemma str_map_rev f s : str_map f (String.rev s) = String.rev (str_map f s).
Proof. apply bytes_inj. by rewrite bytes_rev, !bytes_str_map, bytes_rev, fmap_reverse. Qed.

Lemma is_ascii_lower s : is_ascii s = true -> is_ascii (str_map lower_byte s) = true.
Proof.
  induction s as [|c s IH]; [done|]. cbn [str_map]. rewrite !is_ascii_cons, !andb_true_iff.
  intros [Hc Hs]. split; [by apply lower_byte_ascii|auto].
Qed.

Lemma starts_solid_lower s : starts_solid (str_map lower_byte s) = starts_solid s.
Proof. destruct s as [|c s]; [done|]. simpl. by rewrite lower_byte_space. Qed.

Lemma solid_ends_lower s : solid_ends (str_map lower_byte s) = solid_ends s.
Proof. unfold solid_ends. by rewrite <- str_map_rev, !starts_solid_lower. Qed.

Section ascii_case.
Context {U : UnicodeCase}.

Lemma ToLower_ascii s : is_ascii s = true -> ToLower s = str_map lower_byte s.
Proof. intros H. unfold ToLower. by rewrite H. Qed.

Lemma ToLower_is_ascii s : is_ascii s = true -> is_ascii (ToLower s) = true.
Proof. intros H. rewrite ToLower_ascii by done. by apply is_ascii_lower. Qed.

Lemma ToLower_idem s : is_ascii s = true -> ToLower (ToLower s) = ToLower s.
Proof.
  intros H. rewrite (ToLower_ascii s H), ToLower_ascii by (by apply is_ascii_lower).
  rewrite str_map_map. apply str_map_ext, lower_byte_idem.
Qed.

Lemma TrimSpace_ToLower s : is_ascii s = true -> TrimSpace (ToLower (TrimSpace s)) = ToLower (TrimSpace s).
Proof.
  intros H. pose proof (TrimSpace_is_ascii s H). apply TrimSpace_solid; [by apply ToLower_is_ascii|].
  rewrite ToLower_ascii, solid_ends_lower by done. by apply TrimSpace_solid_ends.
Qed.
End ascii_case.
