(* ===== verification/PackageId.v ===== *)
(** Package identities: internal/packageid/names.go.

    Names are canonical: the ecosystems whose registries ignore case have lower
    case names, and a run of PyPI separators is one dash.  The canonical form
    of an ASCII name is a fixed point of the normalisation, so that a name
    normalised on the way into a store is found again under every spelling. *)
From stdpp Require Import base list option strings.
From Stdlib Require Import Ascii ZArith Lia.
From S2P Require Import Prelude GoStrings AsciiText.

(** The class of the separator expression: dash, underscore, dot. *)
Definition pypi_separator (c : ascii) : bool :=
  bool_decide (c = "-"%char) || bool_decide (c = "_"%char) || bool_decide (c = "."%char).

(** [ReplaceAllString] over the runs of separators; [inrun] tells that the
    byte before was one. *)
Fixpoint replace_runs (inrun : bool) (s : string) : string :=
  match s with
  | EmptyString => ""
  | String c s =>
      if pypi_separator c
      then if inrun then replace_runs true s else String "-" (replace_runs true s)
      else String c (replace_runs false s)
  end.

Definition pypiSeparatorRun (s : string) : string := replace_runs false s.

Section package_id.
Context {U : UnicodeCase}.

Definition NormalizeName (ecosystem name : string) : string :=
  let name := TrimSpace name in
  let e := ToLower (TrimSpace ecosystem) in
  if bool_decide (e = "actions") || bool_decide (e = "github actions") then ToLower name
  else if bool_decide (e = "nuget") then ToLower name
  else if bool_decide (e = "pypi") then pypiSeparatorRun (ToLower name)
  else name.

(** ** Separator runs *)

Lemma replace_runs_idem b s : replace_runs b (replace_runs b s) = replace_runs b s.
Proof.
  revert b. induction s as [|c s IH]; intros b; [done|]. cbn [replace_runs].
  destruct (pypi_separator c) eqn:E; [|by cbn [replace_runs]; rewrite E, IH].
  destruct b; [apply IH|]. cbn [replace_runs]. by rewrite IH.
Qed.

Lemma replace_runs_ascii b s : is_ascii s = true -> is_ascii (replace_runs b s) = true.
Proof.
  revert b. induction s as [|c s IH]; intros b H; [done|].
  rewrite is_ascii_cons, andb_true_iff in H. destruct H as [Hc Hs]. cbn [replace_runs].
  destruct (pypi_separator c); [destruct b; [auto|]|]; rewrite is_ascii_cons, IH by done; [done|].
  by rewrite Hc.
Qed.

Lemma separator_cases c : pypi_separator c = true -> c = "-"%char \/ c = "_"%char \/ c = "."%char.
Proof.
  unfold pypi_separator. rewrite !orb_true_iff, !bool_decide_eq_true. tauto.
Qed.

(** No byte of the result is a capital letter when none was. *)
Lemma replace_runs_lower b s :
  str_map lower_byte s = s -> str_map lower_byte (replace_runs b s) = replace_runs b s.
Proof.
  revert b. induction s as [|c s IH]; intros b H; [done|]. cbn [str_map] in H.
  injection H as Hc Hs. cbn [replace_runs].
  destruct (pypi_separator c); [destruct b; [auto|]|]; cbn [str_map]; rewrite IH by done; [done|].
  by rewrite Hc.
Qed.

Lemma replace_runs_starts s : starts_solid s = true -> starts_solid (replace_runs false s) = true.
Proof. destruct s as [|c s]; [done|]. simpl. by destruct (pypi_separator c). Qed.

(** The last byte of a text, by the bytes. *)
Lemma starts_solid_rev s :
  starts_solid (String.rev s) = match last (bytes s) with Some c => negb (ascii_space c) | None => true end.
Proof.
  destruct (bytes (String.rev s)) as [|c r] eqn:E; rewrite bytes_rev in E.
  - assert (bytes s = []) as -> by (rewrite <- (reverse_involutive (bytes s)), E; done).
    assert (String.rev s = "") as ->; [|done]. apply bytes_inj. rewrite bytes_rev, E. done.
  - assert (String.rev s = String c (String.string_of_list_ascii r)) as ->.
    { apply bytes_inj. rewrite bytes_rev, E. unfold bytes. simpl. by rewrite String.list_ascii_of_string_of_list_ascii. }
    assert (bytes s = reverse r ++ [c]) as ->.
    { rewrite <- (reverse_involutive (bytes s)), E, reverse_cons. done. }
    by rewrite last_snoc.
Qed.

Lemma last_bytes_None s : last (bytes s) = None -> s = "".
Proof.
  destruct s as [|c s]; [done|]. unfold bytes. cbn [String.list_ascii_of_string]. rewrite last_cons.
  by destruct (last _).
Qed.

Lemma replace_runs_last b s :
  last (bytes s) = None \/
  (b = true /\ last (bytes (replace_runs b s)) = None) \/
  (exists c, last (bytes s) = Some c /\
     last (bytes (replace_runs b s)) = Some (if pypi_separator c then "-"%char else c)).
Proof.
  revert b. induction s as [|c s IH]; intros b; [by left|right].
  assert (forall x y (t : string), last (bytes (String x t)) = Some y <->
    (last (bytes t) = Some y \/ (last (bytes t) = None /\ x = y))) as Hl.
  { intros x y t. unfold bytes. cbn [String.list_ascii_of_string]. rewrite last_cons.
    destruct (last (String.list_ascii_of_string t)); split; intros; destruct_or?; destruct_and?; simplify_eq; auto. }
  destruct (last (bytes s)) as [d|] eqn:Ed.
  2:{ apply last_bytes_None in Ed as ->.
      cbn [replace_runs]. destruct (pypi_separator c) eqn:E; [destruct b; [by left|]|];
        right; exists c; rewrite E; done. }
  cbn [replace_runs]. rewrite <- Ed in IH. destruct (pypi_separator c) eqn:E; [destruct b|].
  - destruct (IH true) as [?|[[_ ?]|(e & He & Hr)]]; [congruence|by left|].
    right. exists e. rewrite Hl. auto.
  - right. destruct (IH true) as [?|[[_ Hn]|(e & He & Hr)]]; [congruence| |exists e; rewrite !Hl; auto].
    exists d. rewrite !Hl. split; [auto|]. right. split; [done|].
    enough (pypi_separator d = true) as ->; [done|].
    clear -Ed Hn. revert Ed Hn. induction s as [|x s IH]; [done|]. unfold bytes in *.
    cbn [String.list_ascii_of_string replace_runs]. rewrite last_cons.
    destruct (pypi_separator x) eqn:E; cbn [String.list_ascii_of_string].
    + destruct (last (String.list_ascii_of_string s)) eqn:L; [|by intros [= <-]]. auto.
    + rewrite last_cons. by destruct (last (String.list_ascii_of_string (replace_runs false s))).
  - right. destruct (IH false) as [?|[[? _]|(e & He & Hr)]]; [congruence|done|]. exists e. rewrite !Hl. auto.
Qed.

Lemma replace_runs_solid s : solid_ends s = true -> solid_ends (replace_runs false s) = true.
Proof.
  unfold solid_ends. rewrite !andb_true_iff, !starts_solid_rev. intros [H1 H2].
  split; [by apply replace_runs_starts|].
  destruct (replace_runs_last false s) as [E|[[? _]|(c & E & ->)]]; [|done|].
  - by apply last_bytes_None in E as ->.
  - rewrite E in H2. by destruct (pypi_separator c).
Qed.

(** ** Canonical names *)

Lemma NormalizeName_ascii eco name : is_ascii name = true -> is_ascii (NormalizeName eco name) = true.
Proof.
  intros H. pose proof (TrimSpace_is_ascii name H). unfold NormalizeName. repeat case_match;
    auto using ToLower_is_ascii. apply replace_runs_ascii. by apply ToLower_is_ascii.
Qed.

(** Normalising a canonical name changes nothing, whatever the spelling of
    the ecosystem. *)
Lemma NormalizeName_idem eco name :
  is_ascii name = true -> NormalizeName eco (NormalizeName eco name) = NormalizeName eco name.
Proof.
  intros H. pose proof (TrimSpace_is_ascii name H) as Ht. unfold NormalizeName.
  set (e := ToLower (TrimSpace eco)).
  destruct (bool_decide (e = "actions") || bool_decide (e = "github actions"));
    [|destruct (bool_decide (e = "nuget"));[|destruct (bool_decide (e = "pypi"))]].
  1,2: by rewrite TrimSpace_ToLower, ToLower_idem.
  - set (t := ToLower (TrimSpace name)).
    assert (is_ascii t = true) as Hta by (by apply ToLower_is_ascii).
    assert (is_ascii (pypiSeparatorRun t) = true) by (by apply replace_runs_ascii).
    rewrite (proj1 (TrimSpace_solid (pypiSeparatorRun t) ltac:(done))).
    + rewrite ToLower_ascii by done. unfold pypiSeparatorRun.
      rewrite replace_runs_lower; [apply replace_runs_idem|].
      unfold t. rewrite ToLower_ascii, str_map_map by done. apply str_map_ext, lower_byte_idem.
    + apply replace_runs_solid. unfold t. rewrite ToLower_ascii, solid_ends_lower by done.
      by apply TrimSpace_solid_ends.
  - apply TrimSpace_idem.
Qed.
End package_id.

(** The cases of the table in names_test.go. *)
Section examples.
#[local] Instance id_case : UnicodeCase := plain_case.

Lemma NormalizeName_table :
  (fun p => NormalizeName p.1 p.2) <$>
    [("NuGet", "NuGet.Mixed_Case"); ("PyPI", "a..B__c---d"); ("GitHub Actions", "GitHub/CodeQL-Action");
     ("npm", "@Scope/Name")] =
  ["nuget.mixed_case"; "a-b-c-d"; "github/codeql-action"; "@Scope/Name"].
Proof. vm_compute. reflexivity. Qed.
End examples.
