(* ===== verification/Json.v ===== *)
(** Go's [encoding/json], as far as the modelled code uses it: the syntax
    accepted by [json.Unmarshal], and decoding into structs, slices of structs
    and slices of strings.

    The parser follows the package's scanner: RFC 8259 syntax, at most 10000
    nested containers, invalid UTF-8 and unpaired surrogates in strings
    replaced by U+FFFD.  Decoding keeps the package's merge behaviour: a JSON
    null leaves a string unchanged, a repeated key decodes into what the
    earlier occurrence left, and a slice element decodes into the element the
    backing array already holds. *)
From stdpp Require Import base list option strings.
From Stdlib Require Import Ascii ZArith Lia.
From S2P Require Import Prelude GoStrings.

Inductive json : Type :=
| JNull
| JBool (b : bool)
| JNumber (literal : string)
| JString (s : string)
| JArray (l : list json)
| JObject (members : list (string * json)).

(** ** UTF-8 *)

Definition in_range (lo hi : Z) (c : ascii) : bool := (lo <=? code c) && (code c <=? hi).

Definition continuation (c : ascii) : bool := in_range 128 191 c.

(** The length of the valid multi-byte encoding at the start of the string,
    or [None] when its first byte is not the start of one. *)
Definition utf8_multibyte (s : string) : option nat :=
  match s with
  | String a (String b r) =>
      let z := code a in
      if (194 <=? z) && (z <=? 223) then (if continuation b then Some 2%nat else None)
      else
        match r with
        | String c r' =>
            let second3 :=
              if z =? 224 then in_range 160 191 b
              else if z =? 237 then in_range 128 159 b
              else (225 <=? z) && (z <=? 239) && continuation b in
            if second3 then (if continuation c then Some 3%nat else None)
            else
              match r' with
              | String d _ =>
                  let second4 :=
                    if z =? 240 then in_range 144 191 b
                    else if z =? 244 then in_range 128 143 b
                    else (241 <=? z) && (z <=? 243) && continuation b in
                  if second4 && continuation c && continuation d then Some 4%nat else None
              | EmptyString => None
              end
        | EmptyString => None
        end
  | _ => None
  end.

(** [utf8.EncodeRune] *)
Definition encode_rune (z : Z) : string :=
  if z <? 128 then str_of_codes [z]
  else if z <? 2048 then str_of_codes [192 + z / 64; 128 + z mod 64]
  else if z <? 65536 then
    str_of_codes [224 + z / 4096; 128 + (z / 64) mod 64; 128 + z mod 64]
  else
    str_of_codes [240 + z / 262144; 128 + (z / 4096) mod 64; 128 + (z / 64) mod 64; 128 + z mod 64].

Definition replacement : string := encode_rune 65533.

(** ** Tokens *)

Definition json_space (c : ascii) : bool :=
  let z := code c in (z =? 32) || (z =? 9) || (z =? 10) || (z =? 13).

Fixpoint skip_space (s : string) : string :=
  match s with
  | EmptyString => s
  | String c s' => if json_space c then skip_space s' else s
  end.

Definition hex_value (c : ascii) : option Z :=
  let z := code c in
  if (48 <=? z) && (z <=? 57) then Some (z - 48)
  else if (97 <=? z) && (z <=? 102) then Some (z - 87)
  else if (65 <=? z) && (z <=? 70) then Some (z - 55)
  else None.

(** The value of four hexadecimal digits and the rest. *)
Definition hex4 (s : string) : option (Z * string) :=
  match s with
  | String a (String b (String c (String d r))) =>
      match hex_value a, hex_value b, hex_value c, hex_value d with
      | Some x, Some y, Some z, Some w => Some (((x * 16 + y) * 16 + z) * 16 + w, r)
      | _, _, _, _ => None
      end
  | _ => None
  end.

Definition is_surrogate (z : Z) : bool := (55296 <=? z) && (z <=? 57343).

(** The rune of a backslash-u escape whose first code unit is [z], with [r]
    the text after it; a valid low surrogate escape in [r] is consumed. *)
Definition unescape_unit (z : Z) (r : string) : string * string :=
  if negb (is_surrogate z) then (encode_rune z, r)
  else
    match r with
    | String a (String b r1) =>
        if (code a =? 92) && (code b =? 117) then
          match hex4 r1 with
          | Some (z2, r2) =>
              if (z <=? 56319) && (56320 <=? z2) && (z2 <=? 57343)
              then (encode_rune (65536 + (z - 55296) * 1024 + (z2 - 56320)), r2)
              else (replacement, r)
          | None => (replacement, r)
          end
        else (replacement, r)
    | _ => (replacement, r)
    end.

(** The one-byte escapes: quote, backslash, slash and b f n r t. *)
Definition simple_escape (c : ascii) : option Z :=
  let z := code c in
  if (z =? 34) || (z =? 92) || (z =? 47) then Some z
  else if z =? 98 then Some 8
  else if z =? 102 then Some 12
  else if z =? 110 then Some 10
  else if z =? 114 then Some 13
  else if z =? 116 then Some 9
  else None.

(** The rest of a string literal after its opening quote: its value and what
    follows its closing quote. *)
Fixpoint string_body (fuel : nat) (s : string) : option (string * string) :=
  match fuel with
  | O => None
  | S fuel' =>
      match s with
      | EmptyString => None
      | String c s1 =>
          let z := code c in
          if z =? 34 then Some ("", s1)
          else if z <? 32 then None
          else if z =? 92 then
            match s1 with
            | EmptyString => None
            | String e s2 =>
                if code e =? 117 then
                  '(u, s3) ← hex4 s2;
                  let '(t, s4) := unescape_unit u s3 in
                  '(v, r) ← string_body fuel' s4;
                  Some (t +:+ v, r)
                else
                  z' ← simple_escape e;
                  '(v, r) ← string_body fuel' s2;
                  Some (String (byte z') v, r)
            end
          else if z <? 128 then
            '(v, r) ← string_body fuel' s1;
            Some (String c v, r)
          else
            match utf8_multibyte s with
            | Some n =>
                '(v, r) ← string_body fuel' (str_drop n s);
                Some (str_take n s +:+ v, r)
            | None =>
                '(v, r) ← string_body fuel' s1;
                Some (replacement +:+ v, r)
            end
      end
  end.

Definition number_fraction (s : string) : option (string * string) :=
  match s with
  | String c s1 =>
      if code c =? 46 then
        let '(d, r) := span_digits s1 in
        if bool_decide (d = "") then None else Some (String c d, r)
      else Some ("", s)
  | EmptyString => Some ("", s)
  end.

Definition number_exponent (s : string) : option (string * string) :=
  match s with
  | String c s1 =>
      if (code c =? 101) || (code c =? 69) then
        let '(sign, s2) :=
          match s1 with
          | String g s' => if (code g =? 43) || (code g =? 45) then (String g "", s') else ("", s1)
          | EmptyString => ("", s1)
          end in
        let '(d, r) := span_digits s2 in
        if bool_decide (d = "") then None else Some (String c (sign +:+ d), r)
      else Some ("", s)
  | EmptyString => Some ("", s)
  end.

Definition parse_number (s : string) : option (string * string) :=
  let '(sign, s1) :=
    match s with
    | String c s' => if code c =? 45 then (String c "", s') else ("", s)
    | EmptyString => ("", s)
    end in
  '(int, s2) ← match s1 with
    | String c s' =>
        if code c =? 48 then Some (String c "", s')
        else if isDigit c then Some (span_digits s1) else None
    | EmptyString => None
    end;
  '(frac, s3) ← number_fraction s2;
  '(exp, s4) ← number_exponent s3;
  Some (sign +:+ int +:+ frac +:+ exp, s4).

(** ** Values *)

Definition max_nesting_depth : Z := 10000.

(** [depth] is the number of containers the value is inside of. *)
Fixpoint parse_value (fuel : nat) (depth : Z) (s0 : string) : option (json * string) :=
  match fuel with
  | O => None
  | S fuel' =>
      match skip_space s0 with
      | EmptyString => None
      | String c s1 as s =>
          let z := code c in
          if z =? 123 then
            if max_nesting_depth <=? depth then None
            else match skip_space s1 with
                 | String e r =>
                     if code e =? 125 then Some (JObject [], r)
                     else '(m, r) ← parse_members fuel' (depth + 1) s1; Some (JObject m, r)
                 | EmptyString => None
                 end
          else if z =? 91 then
            if max_nesting_depth <=? depth then None
            else match skip_space s1 with
                 | String e r =>
                     if code e =? 93 then Some (JArray [], r)
                     else '(l, r) ← parse_elements fuel' (depth + 1) s1; Some (JArray l, r)
                 | EmptyString => None
                 end
          else if z =? 34 then
            '(v, r) ← string_body (String.length s) s1; Some (JString v, r)
          else if HasPrefix s "true" then Some (JBool true, str_drop 4 s)
          else if HasPrefix s "false" then Some (JBool false, str_drop 5 s)
          else if HasPrefix s "null" then Some (JNull, str_drop 4 s)
          else '(n, r) ← parse_number s; Some (JNumber n, r)
      end
  end
with parse_elements (fuel : nat) (depth : Z) (s : string) : option (list json * string) :=
  match fuel with
  | O => None
  | S fuel' =>
      '(v, r) ← parse_value fuel' depth s;
      match skip_space r with
      | String c r' =>
          if code c =? 44 then '(l, r'') ← parse_elements fuel' depth r'; Some (v :: l, r'')
          else if code c =? 93 then Some ([v], r')
          else None
      | EmptyString => None
      end
  end
with parse_members (fuel : nat) (depth : Z) (s : string) : option (list (string * json) * string) :=
  match fuel with
  | O => None
  | S fuel' =>
      match skip_space s with
      | String q s1 =>
          if code q =? 34 then
            '(k, s2) ← string_body (S (String.length s1)) s1;
            match skip_space s2 with
            | String colon s3 =>
                if code colon =? 58 then
                  '(v, r) ← parse_value fuel' depth s3;
                  match skip_space r with
                  | String c r' =>
                      if code c =? 44 then
                        '(l, r'') ← parse_members fuel' depth r'; Some ((k, v) :: l, r'')
                      else if code c =? 125 then Some ([(k, v)], r')
                      else None
                  | EmptyString => None
                  end
                else None
            | EmptyString => None
            end
          else None
      | EmptyString => None
      end
  end.

(** A whole document.  Every call of the parser either consumes a byte or is
    the first one on its container's body, so twice the length suffices. *)
Definition parse_json (s : string) : option json :=
  '(v, r) ← parse_value (2 * String.length s + 2) 0 s;
  if bool_decide (skip_space r = "") then Some v else None.

(** ** Decoding into Go values

    A decoder takes the JSON value and what the variable holds, and returns
    what it holds afterwards, or [None] when [json.Unmarshal] reports an
    error. *)

Definition decoder (A : Type) := json -> A -> option A.

Definition dec_string : decoder string := fun v cur =>
  match v with
  | JString s => Some s
  | JNull => Some cur
  | _ => None
  end.

(** A slice: what its backing array holds and its length. *)
Record slice (A : Type) := mk_slice { backing : list A; used : nat }.
Arguments mk_slice {A} _ _.
Arguments backing {A} _.
Arguments used {A} _.

Definition nil_slice {A} : slice A := mk_slice [] 0%nat.

Definition elems {A} (s : slice A) : list A := take (used s) (backing s).

(** A slice element decodes into what the backing array holds at its index. *)
Fixpoint dec_elems {A} (zero : A) (dec : decoder A) (arr : list json) (bk : list A)
    : option (list A) :=
  match arr with
  | [] => Some []
  | v :: arr' =>
      x ← dec v (default zero (head bk));
      xs ← dec_elems zero dec arr' (tail bk);
      Some (x :: xs)
  end.

Definition dec_slice {A} (zero : A) (dec : decoder A) : decoder (slice A) := fun v cur =>
  match v with
  | JNull | JArray [] => Some nil_slice
  | JArray arr =>
      l ← dec_elems zero dec arr (backing cur);
      Some (mk_slice (l ++ drop (length arr) (backing cur)) (length arr))
  | _ => None
  end.

(** [map[string]json.RawMessage]: the last occurrence of a key wins. *)
Fixpoint raw_member (members : list (string * json)) (key : string) : option json :=
  match members with
  | [] => None
  | (k, v) :: rest =>
      match raw_member rest key with
      | Some w => Some w
      | None => if bool_decide (k = key) then Some v else None
      end
  end.

Section structs.
Context {U : UnicodeCase}.

(** The struct field a key selects: the field of exactly that name, else the
    first one equal to it under case folding. *)
Definition struct_field (names : list string) (key : string) : option string :=
  if bool_decide (key ∈ names) then Some key else List.find (fun n => EqualFold n key) names.

Fixpoint dec_members {A} (names : list string) (set : string -> decoder A)
    (members : list (string * json)) (cur : A) : option A :=
  match members with
  | [] => Some cur
  | (k, v) :: rest =>
      match struct_field names k with
      | Some n => cur' ← set n v cur; dec_members names set rest cur'
      | None => dec_members names set rest cur
      end
  end.

Definition dec_struct {A} (names : list string) (set : string -> decoder A) : decoder A :=
  fun v cur =>
    match v with
    | JObject members => dec_members names set members cur
    | JNull => Some cur
    | _ => None
    end.
End structs.

(** JSON text written with single quotes, for concrete inputs. *)
Definition json_text (s : string) : string :=
  str_map (fun c => if code c =? 39 then byte 34 else c) s.

(** [json.Unmarshal(data, &x)] *)
Definition unmarshal {A} (dec : decoder A) (data : string) (cur : A) : option A :=
  v ← parse_json data; dec v cur.

(** [json.Unmarshal] into a new []string. *)
Definition unmarshal_strings (data : string) : option (list string) :=
  ss ← unmarshal (dec_slice "" dec_string) data nil_slice; Some (elems ss).

(** ** The parser's fuel is enough *)

Notation len := String.length (only parsing).

Lemma skip_space_len s : (len (skip_space s) <= len s)%nat.
Proof. induction s as [|c s IH]; simpl; [lia|]. destruct (json_space c); simpl; lia. Qed.

Lemma str_drop_len n s : len (str_drop n s) = (len s - n)%nat.
Proof. revert s. induction n as [|n IH]; intros [|c s]; simpl; auto with lia. Qed.

Lemma span_digits_len s : (len (span_digits s).2 <= len s)%nat.
Proof.
  induction s as [|c s IH]; simpl; [lia|]. destruct (isDigit c); [|simpl; lia].
  destruct (span_digits s); simpl in *; lia.
Qed.

Lemma hex4_len s z r : hex4 s = Some (z, r) -> (len r < len s)%nat.
Proof.
  destruct s as [|a [|b [|c [|d s]]]]; simpl; try done.
  repeat case_match; intros; simplify_eq; simpl; lia.
Qed.

Lemma unescape_unit_len z r : (len (unescape_unit z r).2 <= len r)%nat.
Proof.
  unfold unescape_unit. destruct (negb _); [done|].
  destruct r as [|a [|b r]]; try done. destruct (_ && _); [|done].
  destruct (hex4 r) as [[z2 r2]|] eqn:E; [|done]. apply hex4_len in E.
  destruct (_ && _); simpl; lia.
Qed.

Lemma utf8_multibyte_pos s n : utf8_multibyte s = Some n -> (0 < n)%nat.
Proof.
  destruct s as [|a [|b s]]; simpl; try done. intros H.
  repeat case_match; simplify_eq; lia.
Qed.

(** Step through the option binds of a hypothesis [H : _ = Some _]. *)
Ltac bind_step H :=
  match type of H with
  | (?o ≫= _) = Some _ =>
      let x := fresh "x" in let E := fresh "E" in
      destruct o as [x|] eqn:E; [|discriminate H]; cbn [mbind option_bind] in H
  end.

Lemma string_body_sound f s v r :
  string_body f s = Some (v, r) ->
  (len r < len s)%nat /\ forall f', (len s <= f')%nat -> string_body f' s = Some (v, r).
Proof.
  revert s v r. induction f as [|f IH]; intros s v r H; [done|].
  destruct s as [|c s1]; [done|]. cbn [string_body] in H.
  destruct (code c =? 34) eqn:E1.
  { simplify_eq. split; [simpl; lia|]. intros [|f'] Hf; simpl in Hf; [lia|]. simpl. by rewrite E1. }
  destruct (code c <? 32) eqn:E2; [done|].
  destruct (code c =? 92) eqn:E3.
  - destruct s1 as [|e s2]; [done|]. destruct (code e =? 117) eqn:E4.
    + bind_step H. destruct x as [u s3]. destruct (unescape_unit u s3) as [t s4] eqn:Eu.
      bind_step H. destruct x as [w r']. simplify_eq.
      pose proof (hex4_len _ _ _ E). pose proof (unescape_unit_len u s3) as Hl. rewrite Eu in Hl.
      destruct (IH _ _ _ E0) as [Hr Hs]. simpl in *. split; [lia|].
      intros [|f'] Hf; [lia|]. simpl. rewrite E1, E2, E3, E4, E. simpl. rewrite Eu, Hs by lia. done.
    + bind_step H. bind_step H. destruct x0 as [w r']. simplify_eq.
      destruct (IH _ _ _ E0) as [Hr Hs]. simpl in *. split; [lia|].
      intros [|f'] Hf; [lia|]. simpl. rewrite E1, E2, E3, E4, E. simpl. rewrite Hs by lia. done.
  - destruct (code c <? 128) eqn:E5.
    + bind_step H. destruct x as [w r']. simplify_eq.
      destruct (IH _ _ _ E) as [Hr Hs]. simpl in *. split; [lia|].
      intros [|f'] Hf; [lia|]. simpl. rewrite E1, E2, E3, E5, Hs by lia. done.
    + destruct (utf8_multibyte (String c s1)) as [n|] eqn:Em.
      * bind_step H. destruct x as [w r']. simplify_eq.
        destruct (IH _ _ _ E) as [Hr Hs]. pose proof (utf8_multibyte_pos _ _ Em).
        rewrite str_drop_len in Hr, Hs. split; [lia|].
        intros [|f'] Hf; [simpl in Hf; lia|]. cbn [string_body].
        rewrite E1, E2, E3, E5, Em, Hs by (simpl in *; lia). done.
      * bind_step H. destruct x as [w r']. simplify_eq.
        destruct (IH _ _ _ E) as [Hr Hs]. simpl in Hr |- *. split; [lia|].
        intros [|f'] Hf; [lia|]. cbn [string_body]. rewrite E1, E2, E3, E5, Em, Hs by lia. done.
Qed.

Lemma number_fraction_len s d r : number_fraction s = Some (d, r) -> (len r <= len s)%nat.
Proof.
  destruct s as [|c s]; simpl; [by intros; simplify_eq|].
  destruct (code c =? 46); [|intros; simplify_eq; simpl; lia].
  pose proof (span_digits_len s). destruct (span_digits s). case_bool_decide; [done|].
  intros; simplify_eq; simpl in *; lia.
Qed.

Lemma number_exponent_len s d r : number_exponent s = Some (d, r) -> (len r <= len s)%nat.
Proof.
  destruct s as [|c s]; simpl; [by intros; simplify_eq|].
  destruct (_ || _); [|intros; simplify_eq; simpl; lia].
  set (p := match s with String g s' => if (code g =? 43) || (code g =? 45) then (String g "", s')
                                        else ("", s) | EmptyString => ("", s) end).
  assert (len p.2 <= len s)%nat as Hp
    by (subst p; destruct s as [|g s']; [done|]; destruct (_ || _); simpl; lia).
  destruct p as [sign s2]. simpl in Hp. pose proof (span_digits_len s2).
  destruct (span_digits s2). case_bool_decide; [done|]. intros; simplify_eq; simpl in *; lia.
Qed.

Lemma parse_number_len s n r : parse_number s = Some (n, r) -> (len r < len s)%nat.
Proof.
  unfold parse_number. intros H.
  set (p := match s with String c s' => if code c =? 45 then (String c "", s') else ("", s)
                       | EmptyString => ("", s) end) in H.
  assert (len p.2 <= len s)%nat as Hp
    by (subst p; destruct s as [|c s']; [done|]; destruct (code c =? 45); simpl; lia).
  destruct p as [sign s1]. simpl in Hp. bind_step H. destruct x as [i s2].
  assert (len s2 < len s1)%nat.
  { destruct s1 as [|c s']; [done|]. destruct (code c =? 48); [simplify_eq; simpl; lia|].
    pose proof (span_digits_len s'). simpl in E. destruct (isDigit c); [|done].
    destruct (span_digits s'). simplify_eq. simpl in *. lia. }
  bind_step H. destruct x as [fr s3]. bind_step H. destruct x as [ex s4]. simplify_eq.
  apply number_fraction_len in E0. apply number_exponent_len in E1. lia.
Qed.

(** What a successful run of the parser with [f] fuel shows: the rest is
    shorter, and [bound] fuel gives the same result. *)
Definition sound {A} (run : nat -> string -> option (A * string)) (bound : nat -> nat)
    (f : nat) : Prop :=
  forall s v r, run f s = Some (v, r) ->
    (len r < len s)%nat /\
    forall f', (bound (len s) <= f')%nat -> run f' s = Some (v, r).

Definition value_bound (n : nat) : nat := (2 * n + 1)%nat.
Definition elements_bound (n : nat) : nat := (2 * n + 2)%nat.

Section parser_fuel.
Context (f : nat).
Hypothesis IHv : forall d, sound (fun f s => parse_value f d s) value_bound f.
Hypothesis IHe : forall d, sound (fun f s => parse_elements f d s) elements_bound f.
Hypothesis IHm : forall d, sound (fun f s => parse_members f d s) value_bound f.

Lemma parse_elements_step d : sound (fun f s => parse_elements f d s) elements_bound (S f).
Proof using IHv IHe.
  intros s v r H. cbn [parse_elements] in H. bind_step H. destruct x as [w r1].
  destruct (IHv _ _ _ _ E) as [Hr1 Hv]. pose proof (skip_space_len r1).
  destruct (skip_space r1) as [|c r2] eqn:Es; [done|]. cbn [String.length] in *.
  unfold elements_bound, value_bound in *.
  destruct (code c =? 44) eqn:Ec.
  - bind_step H. destruct x as [l r3]. simplify_eq. destruct (IHe _ _ _ _ E0) as [Hr3 He].
    split; [lia|]. intros [|f'] Hf; [lia|]. cbn [parse_elements]. rewrite Hv by lia. simpl.
    rewrite Es, Ec, He by lia. done.
  - destruct (code c =? 93) eqn:Ec'; [|done]. simplify_eq. split; [lia|].
    intros [|f'] Hf; [lia|]. cbn [parse_elements]. rewrite Hv by lia. simpl. by rewrite Es, Ec, Ec'.
Qed.

Lemma parse_members_step d : sound (fun f s => parse_members f d s) value_bound (S f).
Proof using IHv IHm.
  intros s v r H. cbn [parse_members] in H. pose proof (skip_space_len s).
  destruct (skip_space s) as [|q s1] eqn:Es0; [done|].
  destruct (code q =? 34) eqn:Eq; [|done]. bind_step H. destruct x as [k s2].
  apply string_body_sound in E as HE. destruct HE as [Hs2 _]. pose proof (skip_space_len s2).
  destruct (skip_space s2) as [|cl s3] eqn:Es2; [done|].
  destruct (code cl =? 58) eqn:Ecl; [|done]. bind_step H. destruct x as [w r1].
  destruct (IHv _ _ _ _ E0) as [Hr1 Hv]. pose proof (skip_space_len r1).
  destruct (skip_space r1) as [|c r2] eqn:Es; [done|]. cbn [String.length] in *.
  unfold value_bound in *.
  destruct (code c =? 44) eqn:Ec.
  - bind_step H. destruct x as [l r3]. simplify_eq. destruct (IHm _ _ _ _ E1) as [Hr3 Hm].
    split; [lia|]. intros [|f'] Hf; [lia|]. cbn [parse_members].
    rewrite Es0, Eq, E. cbn [mbind option_bind]. rewrite Es2, Ecl, Hv by lia. cbn [mbind option_bind]. rewrite Es, Ec, Hm by lia. done.
  - destruct (code c =? 125) eqn:Ec'; [|done]. simplify_eq. split; [lia|].
    intros [|f'] Hf; [lia|]. cbn [parse_members].
    rewrite Es0, Eq, E. cbn [mbind option_bind]. rewrite Es2, Ecl, Hv by lia. cbn [mbind option_bind]. by rewrite Es, Ec, Ec'.
Qed.

Lemma parse_value_step d : sound (fun f s => parse_value f d s) value_bound (S f).
Proof using IHe IHm.
  intros s v r H. cbn [parse_value] in H. pose proof (skip_space_len s).
  destruct (skip_space s) as [|c s1] eqn:Es0; [done|]. cbn zeta in H.
  assert (forall f', (value_bound (len s) <= f')%nat -> exists f'', f' = S f'' /\
    (2 * len s <= f'')%nat) as Hb by (intros [|f'] ?; unfold value_bound in *; [lia|eauto with lia]).
  unfold elements_bound, value_bound in *.
  destruct (code c =? 123) eqn:E1; [|destruct (code c =? 91) eqn:E2; [|destruct (code c =? 34) eqn:E3]].
  - destruct (max_nesting_depth <=? d) eqn:Ed; [done|]. pose proof (skip_space_len s1).
    destruct (skip_space s1) as [|e r1] eqn:Es1; [done|]. cbn [String.length] in *.
    destruct (code e =? 125) eqn:Ee.
    + simplify_eq. split; [lia|]. intros f' Hf. destruct (Hb _ Hf) as (f'' & -> & Hf'').
      cbn [parse_value]. by rewrite Es0, E1, Ed, Es1, Ee.
    + bind_step H. destruct x as [m r2]. simplify_eq. destruct (IHm _ _ _ _ E) as [Hr Hm].
      split; [lia|]. intros f' Hf. destruct (Hb _ Hf) as (f'' & -> & Hf'').
      cbn [parse_value]. rewrite Es0, E1, Ed, Es1, Ee, Hm by lia. done.
  - destruct (max_nesting_depth <=? d) eqn:Ed; [done|]. pose proof (skip_space_len s1).
    destruct (skip_space s1) as [|e r1] eqn:Es1; [done|]. cbn [String.length] in *.
    destruct (code e =? 93) eqn:Ee.
    + simplify_eq. split; [lia|]. intros f' Hf. destruct (Hb _ Hf) as (f'' & -> & Hf'').
      cbn [parse_value]. by rewrite Es0, E1, E2, Ed, Es1, Ee.
    + bind_step H. destruct x as [l r2]. simplify_eq. destruct (IHe _ _ _ _ E) as [Hr He].
      split; [lia|]. intros f' Hf. destruct (Hb _ Hf) as (f'' & -> & Hf'').
      cbn [parse_value]. rewrite Es0, E1, E2, Ed, Es1, Ee, He by lia. done.
  - bind_step H. destruct x as [w r1]. simplify_eq. apply string_body_sound in E as [Hr Hs].
    split; [simpl in *; lia|]. intros f' Hf. destruct (Hb _ Hf) as (f'' & -> & Hf'').
    cbn [parse_value]. rewrite Es0, E1, E2, E3, Hs by (simpl; lia). done.
  - assert ((len r < len (String c s1))%nat) as Hl.
    { repeat (match type of H with context [HasPrefix ?a ?b] => destruct (HasPrefix a b) end;
        [simplify_eq; rewrite str_drop_len; simpl; lia|]).
      bind_step H. destruct x as [w r1]. simplify_eq. by apply parse_number_len in E. }
    split; [simpl in *; lia|]. intros f' Hf. destruct (Hb _ Hf) as (f'' & -> & Hf'').
    cbn [parse_value]. rewrite Es0. cbn zeta. by rewrite E1, E2, E3.
Qed.
End parser_fuel.

Lemma parser_sound f :
  (forall d, sound (fun f s => parse_value f d s) value_bound f) /\
  (forall d, sound (fun f s => parse_elements f d s) elements_bound f) /\
  (forall d, sound (fun f s => parse_members f d s) value_bound f).
Proof.
  induction f as [|f (IHv & IHe & IHm)]; [by split_and!|].
  split_and!; intros; auto using parse_value_step, parse_elements_step, parse_members_step.
Qed.

(** [parse_json] is the parser with unlimited fuel: whatever some amount of
    fuel parses, it parses. *)
Lemma parse_json_complete s v :
  parse_json s = Some v <->
  exists f r, parse_value f 0 s = Some (v, r) /\ skip_space r = "".
Proof.
  unfold parse_json. split.
  - intros H. bind_step H. destruct x as [w r]. case_bool_decide; [|done]. simplify_eq. eauto.
  - intros (f & r & H & Hr). destruct (parser_sound f) as [Hv _].
    destruct (Hv _ _ _ _ H) as [_ Hf]. rewrite Hf by (unfold value_bound; lia). simpl.
    by rewrite bool_decide_true.
Qed.
