(* ===== verification/VersionCompare.v ===== *)
(** Version comparison: internal/version/compare.go, from [Compare] down.

    Four comparators (SemVer, NuGet, PEP 440, Maven) behind the dispatch on
    range type and ecosystem.  Every comparator is a key function followed by
    lexicographic comparison of the key's components; the theorems show that
    each is the comparison of a total preorder ([GoOrder]), which is what the
    range matcher of [VersionRanges] relies on. *)
From stdpp Require Import base list option strings.
From Stdlib Require Import Ascii ZArith Lia.
From S2P Require Import Prelude GoStrings.

(** ** Integers in version strings *)

Definition digit_value (c : ascii) : Z := code c - 48.

(** [n = n*10 + int(c-'0')] *)
Definition push_digit (n : Z) (c : ascii) : Z := wrap64 (n * 10 + digit_value c).

Fixpoint parseLeadingInt_from (n : Z) (s : string) : Z :=
  match s with
  | EmptyString => n
  | String c s' => if isDigit c then parseLeadingInt_from (push_digit n c) s' else n
  end.

Definition parseLeadingInt (s : string) : Z := parseLeadingInt_from 0 s.

Fixpoint parseInt_from (n : Z) (s : string) : Z :=
  match s with
  | EmptyString => n
  | String c s' => parseInt_from (if isDigit c then push_digit n c else n) s'
  end.

Definition parseInt (s : string) : Z := parseInt_from 0 s.

Fixpoint isNumeric_from (n : Z) (s : string) : option Z :=
  match s with
  | EmptyString => Some n
  | String c s' => if isDigit c then isNumeric_from (push_digit n c) s' else None
  end.

(** [Some n] for [(true, n)], [None] for [(false, 0)]. *)
Definition isNumeric (s : string) : option Z :=
  if bool_decide (s = "") then None else isNumeric_from 0 s.

(** ** SemVer *)

Definition stripBuildMeta (v : string) : string :=
  match IndexByte v "+"%char with
  | Some idx => str_take idx v
  | None => v
  end.

Definition normalizeSemverInput (v0 : string) : string :=
  let v := TrimSpace v0 in
  let v := match v with
           | String a (String b _) =>
               if (bool_decide (a = "v"%char) || bool_decide (a = "V"%char)) && isDigit b
               then str_drop 1 v else v
           | _ => v
           end in
  stripBuildMeta v.

Definition splitPrerelease (version : string) : string * string :=
  match IndexByte version "-"%char with
  | Some (S _ as idx) => (str_take idx version, str_drop (S idx) version)
  | _ => (version, "")
  end.

Definition segment_cmp (segA segB : string) : Z :=
  zcmp (parseLeadingInt segA) (parseLeadingInt segB).

Definition compareRelease (a b : string) : Z :=
  cmp_padded "" segment_cmp (Split a "."%char) (Split b "."%char).

(** One iteration of [comparePrereleaseIdentifiers]. *)
Definition identifier_cmp (sa sb : string) : Z :=
  match isNumeric sa, isNumeric sb with
  | Some numA, Some numB => zcmp numA numB
  | Some _, None => -1
  | None, Some _ => 1
  | None, None => str_cmp sa sb
  end.

Definition comparePrereleaseIdentifiers (a b : string) : Z :=
  cmp_lex identifier_cmp (Split a "."%char) (Split b "."%char).

Definition comparePrereleaseStrings (preA preB : string) : Z :=
  if bool_decide (preA = "") && bool_decide (preB = "") then 0
  else if bool_decide (preA = "") then 1
  else if bool_decide (preB = "") then -1
  else comparePrereleaseIdentifiers preA preB.

Definition compareSemver (a b : string) : Z :=
  let '(releaseA, preA) := splitPrerelease (normalizeSemverInput a) in
  let '(releaseB, preB) := splitPrerelease (normalizeSemverInput b) in
  compareRelease releaseA releaseB <?> comparePrereleaseStrings preA preB.

(** ** PEP 440 *)

Record pep440Version := {
  epoch : Z;
  release : list Z;
  phase : Z;
  phaseNum : Z;
  devNum : Z
}.

Definition pep440DotSuffixes : list (string * Z) :=
  [(".alpha", -4); (".beta", -3); (".post", 1); (".dev", -5); (".rev", 1);
   (".rc", -2); (".a", -4); (".b", -3); (".c", -2); (".r", 1)].

Definition inlineSuffixes : list (string * Z) :=
  [("alpha", -4); ("beta", -3); ("dev", -5); ("post", 1); ("rev", 1);
   ("rc", -2); ("a", -4); ("b", -3); ("c", -2); ("r", 1)].

(** [num := 0; if rest != "" { num = parseInt(rest) }] *)
Definition suffix_number (rest : string) : Z :=
  if bool_decide (rest = "") then 0 else parseInt rest.

(** The byte before position [idx] is a digit, or [idx] is 0. *)
Definition preceded_by_digit (s : string) (idx : nat) : bool :=
  match idx with
  | O => true
  | S i => match bytes s !! i with Some c => isDigit c | None => false end
  end.

Section pep440.
Context {U : UnicodeCase}.

Fixpoint inline_loop (suffixes : list (string * Z)) (seg lower : string) : string * Z * Z :=
  match suffixes with
  | [] => (seg, 0, 0)
  | (name, ph) :: rest =>
      match Index lower name with
      | None => inline_loop rest seg lower
      | Some idx =>
          if negb (preceded_by_digit lower idx) then inline_loop rest seg lower
          else
            let relPart := str_take idx seg in
            let numPart := str_drop (idx + String.length name) seg in
            ((if bool_decide (relPart = "") then "0" else relPart), ph, suffix_number numPart)
      end
  end.

Definition splitInlineSuffix (seg : string) : string * Z * Z :=
  inline_loop inlineSuffixes seg (ToLower seg).

Fixpoint dot_suffix_loop (suffixes : list (string * Z)) (v : string) : option (string * Z * Z) :=
  match suffixes with
  | [] => None
  | (suffix, ph) :: rest =>
      match LastIndex v suffix with
      | Some idx =>
          Some (str_take idx v, ph, suffix_number (str_drop (idx + String.length suffix) v))
      | None => dot_suffix_loop rest v
      end
  end.

Definition splitPEP440Suffix (v : string) : string * Z * Z :=
  match dot_suffix_loop pep440DotSuffixes v with
  | Some r => r
  | None =>
      let '(prefix, lastSeg) :=
        match LastIndexByte v "."%char with
        | Some lastDot => (str_take lastDot v, str_drop (S lastDot) v)
        | None => ("", v)
        end in
      let '(rel, p, num) := splitInlineSuffix lastSeg in
      if negb (p =? 0) || negb (bool_decide (rel = lastSeg)) then
        if negb (bool_decide (prefix = "")) then (prefix +:+ "." +:+ rel, p, num)
        else (rel, p, num)
      else (v, 0, 0)
  end.

Definition parsePEP440 (v0 : string) : pep440Version :=
  let v := TrimPrefix (ToLower (TrimSpace v0)) "v" in
  let '(ep, v) :=
    match IndexByte v "!"%char with
    | Some idx => (parseInt (str_take idx v), str_drop (S idx) v)
    | None => (0, v)
    end in
  let '(relStr, ph, num) := splitPEP440Suffix v in
  {| epoch := ep;
     release := parseLeadingInt <$>
                List.filter (fun seg => negb (bool_decide (seg = ""))) (Split relStr "."%char);
     phase := ph;
     phaseNum := num;
     devNum := -1 |}.
End pep440.

Definition compareIntSlices (a b : list Z) : Z := cmp_padded 0 zcmp a b.

Definition pep440_cmp (pa pb : pep440Version) : Z :=
  zcmp (epoch pa) (epoch pb) <?>
  (compareIntSlices (release pa) (release pb) <?>
  (zcmp (phase pa) (phase pb) <?>
  (zcmp (phaseNum pa) (phaseNum pb) <?>
   zcmp (devNum pa) (devNum pb)))).

Definition comparePEP440 {U : UnicodeCase} (a b : string) : Z :=
  pep440_cmp (parsePEP440 a) (parsePEP440 b).

(** ** Maven *)

Definition mavenQualifierOrder : list (string * Z) :=
  [("alpha", -5); ("a", -5); ("beta", -4); ("b", -4); ("milestone", -3); ("m", -3);
   ("rc", -2); ("cr", -2); ("snapshot", -1); ("sp", 1); ("ga", 0); ("", 0)].

Fixpoint assoc {A} (l : list (string * A)) (k : string) : option A :=
  match l with
  | [] => None
  | (k', v) :: rest => if bool_decide (k' = k) then Some v else assoc rest k
  end.

(** [q] without its trailing digits, and those digits. *)
Definition split_trailing_digits (q : string) : string * string :=
  let '(digits, text) := span_digits (String.rev q) in (String.rev text, String.rev digits).

Section maven.
Context {U : UnicodeCase}.

Definition parseMavenQualifier (q : string) : Z * Z :=
  if bool_decide (q = "") then (0, 0)
  else
    let '(text0, numStr) := split_trailing_digits q in
    let text := TrimLeft (ToLower text0) "-." in
    let ph := default (-1) (assoc mavenQualifierOrder text) in
    (ph, if bool_decide (numStr = "") then 0 else parseInt numStr).

Definition splitMavenQualifier (v : string) : string * string :=
  match IndexByte v "-"%char with
  | Some (S _ as idx) => (str_take idx v, ToLower (str_drop (S idx) v))
  | _ => (v, "")
  end.

Definition compareMavenQualifiers (a b : string) : Z :=
  let '(phaseA, numA) := parseMavenQualifier a in
  let '(phaseB, numB) := parseMavenQualifier b in
  zcmp phaseA phaseB <?> zcmp numA numB.

Definition compareMaven (a0 b0 : string) : Z :=
  let '(relA, qualA) := splitMavenQualifier (TrimSpace a0) in
  let '(relB, qualB) := splitMavenQualifier (TrimSpace b0) in
  compareRelease relA relB <?> compareMavenQualifiers qualA qualB.

(** ** NuGet and the dispatch *)

Definition normalizeNuGetVersionInput (v0 : string) : string :=
  let '(rel, pre) := splitPrerelease (normalizeSemverInput v0) in
  if bool_decide (pre = "") then rel else rel +:+ "-" +:+ ToLower pre.

Definition compareNuGet (a b : string) : Z :=
  compareSemver (normalizeNuGetVersionInput a) (normalizeNuGetVersionInput b).

Definition compareEcosystem (a b ecosystem : string) : Z :=
  if bool_decide (ecosystem = "pypi") || bool_decide (ecosystem = "pip") then comparePEP440 a b
  else if bool_decide (ecosystem = "maven") then compareMaven a b
  else if bool_decide (ecosystem = "nuget") || bool_decide (ecosystem = "chocolatey")
  then compareNuGet a b
  else compareSemver a b.

Definition Compare (a b rangeType ecosystem : string) : Z :=
  let t := ToUpper rangeType in
  if bool_decide (t = "GIT") then 0
  else if bool_decide (t = "ECOSYSTEM") then compareEcosystem a b (ToLower ecosystem)
  else compareSemver a b.

Definition versionsEqual (a b ecosystem : string) : bool :=
  if EqualFold ecosystem "nuget" || EqualFold ecosystem "chocolatey"
  then compareNuGet a b =? 0
  else bool_decide (a = b).
End maven.

(** ** Every comparator is a total preorder *)

#[export] Instance segment_cmp_order : GoOrder segment_cmp.
Proof. apply (key_order parseLeadingInt zcmp), _. Qed.

#[export] Instance compareRelease_order : GoOrder compareRelease.
Proof. apply (key_order (fun a => Split a "."%char) (cmp_padded "" segment_cmp)), _. Qed.

(** A numeric identifier is its number, any other one is its text, and numeric
    ones come first. *)
Definition identifier_key (s : string) : Z * Z * string :=
  match isNumeric s with
  | Some n => (0, n, "")
  | None => (1, 0, s)
  end.

Lemma identifier_cmp_key sa sb :
  identifier_cmp sa sb =
  zcmp (identifier_key sa).1.1 (identifier_key sb).1.1 <?>
  (zcmp (identifier_key sa).1.2 (identifier_key sb).1.2 <?>
   str_cmp (identifier_key sa).2 (identifier_key sb).2).
Proof.
  unfold identifier_cmp, identifier_key. destruct (isNumeric sa), (isNumeric sb); simpl; try done.
  unfold cmp_then. simpl. by destruct (Z.eqb_spec (zcmp z z0) 0).
Qed.

#[export] Instance identifier_cmp_order : GoOrder identifier_cmp.
Proof.
  eapply order_ext; [apply identifier_cmp_key|].
  apply then_order; [apply (key_order (fun s => (identifier_key s).1.1) zcmp), _|].
  apply then_order; [apply (key_order (fun s => (identifier_key s).1.2) zcmp), _|].
  apply (key_order (fun s => (identifier_key s).2) str_cmp), _.
Qed.

#[export] Instance comparePrereleaseIdentifiers_order : GoOrder comparePrereleaseIdentifiers.
Proof. apply (key_order (fun a => Split a "."%char) (cmp_lex identifier_cmp)), _. Qed.

(** No pre-release is above every pre-release. *)
Definition is_final (pre : string) : Z := if bool_decide (pre = "") then 1 else 0.

#[export] Instance comparePrereleaseStrings_order : GoOrder comparePrereleaseStrings.
Proof.
  apply (order_ext (fun a b => zcmp (is_final a) (is_final b) <?> comparePrereleaseIdentifiers a b)).
  - intros a b. unfold comparePrereleaseStrings, is_final. repeat case_bool_decide; simplify_eq/=; done.
  - apply then_order; [apply (key_order is_final zcmp)|]; apply _.
Qed.

(** Two keys compared in turn. *)
Lemma pair_order {A B C} (key : A -> B * C) (f : B -> B -> Z) (g : C -> C -> Z) (h : A -> A -> Z) :
  GoOrder f -> GoOrder g ->
  (forall a b, h a b = let '(x, y) := key a in let '(x', y') := key b in f x x' <?> g y y') ->
  GoOrder h.
Proof.
  intros Hf Hg E. apply (order_ext (fun a b => f (key a).1 (key b).1 <?> g (key a).2 (key b).2)).
  - intros a b. rewrite E. by destruct (key a), (key b).
  - apply then_order; [apply (key_order (fun a => (key a).1) f) | apply (key_order (fun a => (key a).2) g)];
      done.
Qed.

#[export] Instance compareSemver_order : GoOrder compareSemver.
Proof.
  by apply (pair_order (fun v => splitPrerelease (normalizeSemverInput v))
    compareRelease comparePrereleaseStrings); try apply _.
Qed.

#[export] Instance pep440_cmp_order : GoOrder pep440_cmp.
Proof.
  unfold pep440_cmp.
  apply (then_order (fun a b => zcmp (epoch a) (epoch b))); [apply (key_order epoch zcmp), _|].
  apply (then_order (fun a b => compareIntSlices (release a) (release b)));
    [apply (key_order release compareIntSlices), _|].
  apply (then_order (fun a b => zcmp (phase a) (phase b))); [apply (key_order phase zcmp), _|].
  apply (then_order (fun a b => zcmp (phaseNum a) (phaseNum b))); [apply (key_order phaseNum zcmp), _|].
  apply (key_order devNum zcmp), _.
Qed.

Section order.
Context {U : UnicodeCase}.

#[export] Instance comparePEP440_order : GoOrder comparePEP440.
Proof. apply (key_order parsePEP440 pep440_cmp), _. Qed.

#[export] Instance compareMavenQualifiers_order : GoOrder compareMavenQualifiers.
Proof. by apply (pair_order parseMavenQualifier zcmp zcmp); try apply _. Qed.

#[export] Instance compareMaven_order : GoOrder compareMaven.
Proof.
  by apply (pair_order (fun v => splitMavenQualifier (TrimSpace v)) compareRelease compareMavenQualifiers);
    try apply _.
Qed.

#[export] Instance compareNuGet_order : GoOrder compareNuGet.
Proof. apply (key_order normalizeNuGetVersionInput compareSemver), _. Qed.

Lemma compareEcosystem_order ecosystem : GoOrder (fun a b => compareEcosystem a b ecosystem).
Proof. unfold compareEcosystem. repeat case_match; apply _. Qed.

#[export] Instance Compare_order rangeType ecosystem :
  GoOrder (fun a b => Compare a b rangeType ecosystem).
Proof.
  unfold Compare. repeat case_match; [apply const0_order | apply compareEcosystem_order | apply _].
Qed.
End order.

(** ** Numeric versions *)

(** The text of a version with the given numeric segments. *)
Definition dotted (x : list Z) : string := Join (itoa_nonneg <$> x) ".".

Definition segments_ok (x : list Z) : Prop := x <> [] /\ Forall (fun n => 0 <= n <= int64_max) x.

Definition numeric_byte (c : ascii) : bool := isDigit c || bool_decide (c = "."%char).

Lemma parseLeadingInt_from_digits n s :
  all_bytes isDigit s = true -> parseLeadingInt_from (wrap64 n) s = wrap64 (dec_value n s).
Proof.
  revert n. induction s as [|c s IH]; intros n H; [done|].
  rewrite all_bytes_cons, andb_true_iff in H. destruct H as [Hc Hs]. simpl. rewrite Hc.
  rewrite <- IH by done. unfold push_digit, digit_value. by rewrite wrap64_mul_wrap.
Qed.

(** A segment that is a numeral is read modulo 2^64, into the range of [int]. *)
Lemma parseLeadingInt_digits s :
  all_bytes isDigit s = true -> parseLeadingInt s = wrap64 (dec_value 0 s).
Proof. apply (parseLeadingInt_from_digits 0). Qed.

Lemma parseLeadingInt_itoa n : 0 <= n <= int64_max -> parseLeadingInt (itoa_nonneg n) = n.
Proof.
  intros Hn. rewrite parseLeadingInt_digits, itoa_nonneg_value by (try apply itoa_nonneg_digits; lia).
  apply wrap64_id. unfold int64_min, int64_max in *. lia.
Qed.

Lemma parse_segments x :
  Forall (fun n => 0 <= n <= int64_max) x -> parseLeadingInt <$> (itoa_nonneg <$> x) = x.
Proof. induction 1; simpl; [done|]. f_equal; [by apply parseLeadingInt_itoa | done]. Qed.

Lemma parse_nonempty_segments x :
  Forall (fun n => 0 <= n <= int64_max) x ->
  parseLeadingInt <$>
    List.filter (fun seg => negb (bool_decide (seg = ""))) (itoa_nonneg <$> x) = x.
Proof.
  intros H. rewrite <- (parse_segments x) at 2 by done. f_equal. clear H.
  induction x as [|n l IH]; [done|]. simpl.
  rewrite bool_decide_eq_false_2 by apply itoa_nonneg_ne. simpl. f_equal. apply IH.
Qed.

Lemma cmp_padded_segments a b :
  cmp_padded "" segment_cmp a b = compareIntSlices (parseLeadingInt <$> a) (parseLeadingInt <$> b).
Proof.
  unfold compareIntSlices, cmp_padded. rewrite !length_fmap.
  generalize (Nat.max (length a) (length b)) as n. intros n. revert a b.
  induction n as [|n IH]; intros a b; [done|]. simpl. f_equal.
  - unfold segment_cmp. by destruct a, b.
  - rewrite IH. by destruct a, b.
Qed.

Section dotted.
Context {U : UnicodeCase} (x : list Z) (Hx : segments_ok x).

Lemma segments_digits : Forall (fun s => all_bytes isDigit s = true) (itoa_nonneg <$> x).
Proof using Hx.
  destruct Hx as [_ H]. apply Forall_fmap. eapply Forall_impl; [apply H|]. intros n [Hn _].
  by apply itoa_nonneg_digits.
Qed.

Lemma dotted_bytes : all_bytes numeric_byte (dotted x) = true.
Proof using Hx.
  apply all_bytes_Join; [|done]. eapply Forall_impl; [apply segments_digits|]. intros s.
  apply all_bytes_impl. intros c. unfold numeric_byte. by intros ->.
Qed.

Lemma dotted_all P : (forall c, numeric_byte c = true -> P c = true) -> all_bytes P (dotted x) = true.
Proof using Hx. intros H. eapply all_bytes_impl; [apply H | apply dotted_bytes]. Qed.

Lemma numeric_visible c : numeric_byte c = true -> visible c = true.
Proof.
  unfold numeric_byte. intros [H|H]%orb_true_iff; [by apply isDigit_visible|].
  by apply bool_decide_eq_true in H as ->.
Qed.

Lemma numeric_not b : numeric_byte b = false -> forall c, numeric_byte c = true -> not_byte b c = true.
Proof. intros Hb c Hc. unfold not_byte. case_bool_decide; [congruence | done]. Qed.

Lemma numeric_lower c : numeric_byte c = true -> lower_byte c = c.
Proof.
  unfold numeric_byte, lower_byte. intros [H|H]%orb_true_iff.
  - unfold isDigit in H. zbool; simpl in *; try done; lia.
  - by apply bool_decide_eq_true in H as ->.
Qed.

Lemma ToLower_numeric s : all_bytes numeric_byte s = true -> ToLower s = s.
Proof using U.
  intros H. unfold ToLower.
  rewrite is_ascii_visible by (eapply all_bytes_impl; [apply numeric_visible | done]).
  apply str_map_id. intros c Hc. apply numeric_lower. by eapply all_bytes_elem.
Qed.

Lemma TrimSpace_dotted : TrimSpace (dotted x) = dotted x.
Proof using Hx. apply TrimSpace_visible, dotted_all, numeric_visible. Qed.

Lemma IndexByte_dotted c : numeric_byte c = false -> IndexByte (dotted x) c = None.
Proof using Hx. intros. apply IndexByte_none, dotted_all. by apply numeric_not. Qed.

Lemma normalizeSemverInput_dotted : normalizeSemverInput (dotted x) = dotted x.
Proof using Hx.
  unfold normalizeSemverInput. rewrite TrimSpace_dotted. cbn zeta.
  pose proof dotted_bytes as H. pose proof (IndexByte_dotted "+"%char eq_refl) as Hplus.
  destruct (dotted x) as [|a [|b s]]; [done|unfold stripBuildMeta; by rewrite Hplus|].
  rewrite all_bytes_cons, andb_true_iff in H. destruct H as [Ha _].
  rewrite !bool_decide_eq_false_2 by (intros ->; done). simpl.
  unfold stripBuildMeta. by rewrite Hplus.
Qed.

Lemma splitPrerelease_dotted : splitPrerelease (dotted x) = (dotted x, "").
Proof using Hx. unfold splitPrerelease. by rewrite IndexByte_dotted. Qed.

Lemma Split_dotted : Split (dotted x) "."%char = itoa_nonneg <$> x.
Proof using Hx.
  apply Split_Join.
  - destruct Hx as [H _]. by destruct x.
  - eapply Forall_impl; [apply segments_digits|]. intros s. apply all_bytes_impl. intros c Hc.
    unfold not_byte. case_bool_decide; [by subst | done].
Qed.

Lemma splitMavenQualifier_dotted : splitMavenQualifier (TrimSpace (dotted x)) = (dotted x, "").
Proof using Hx. rewrite TrimSpace_dotted. unfold splitMavenQualifier. by rewrite IndexByte_dotted. Qed.

Lemma normalizeNuGet_dotted : normalizeNuGetVersionInput (dotted x) = dotted x.
Proof using Hx.
  unfold normalizeNuGetVersionInput. by rewrite normalizeSemverInput_dotted, splitPrerelease_dotted.
Qed.

Lemma inline_loop_numeric l s :
  all_bytes numeric_byte s = true -> Forall (fun e => all_bytes numeric_byte e.1 = false) l ->
  inline_loop l s s = (s, 0, 0).
Proof.
  intros Hs. induction 1 as [|[name ph] l Hn Hl IH]; [done|]. simpl.
  by rewrite (Index_none s name numeric_byte).
Qed.

Lemma dot_suffix_loop_numeric l s :
  all_bytes numeric_byte s = true -> Forall (fun e => all_bytes numeric_byte e.1 = false) l ->
  dot_suffix_loop l s = None.
Proof.
  intros Hs. induction 1 as [|[name ph] l Hn Hl IH]; [done|]. simpl.
  by rewrite (LastIndex_none s name numeric_byte).
Qed.

Lemma splitPEP440Suffix_numeric s : all_bytes numeric_byte s = true -> splitPEP440Suffix s = (s, 0, 0).
Proof.
  intros Hs. unfold splitPEP440Suffix.
  rewrite dot_suffix_loop_numeric by (done || by repeat constructor).
  set (p := match LastIndexByte s "."%char with Some n => _ | None => _ end).
  assert (all_bytes numeric_byte p.2 = true) as Hp.
  { subst p. destruct (LastIndexByte s _) as [n|]; [|done]. by apply (all_bytes_drop _ (S n)). }
  destruct p as [prefix lastSeg]. simpl in Hp. unfold splitInlineSuffix. rewrite ToLower_numeric by done.
  rewrite inline_loop_numeric by (done || by repeat constructor).
  by rewrite bool_decide_eq_true_2.
Qed.

Lemma parsePEP440_dotted :
  parsePEP440 (dotted x) = {| epoch := 0; release := x; phase := 0; phaseNum := 0; devNum := -1 |}.
Proof using Hx.
  unfold parsePEP440. rewrite TrimSpace_dotted, ToLower_numeric by apply dotted_bytes.
  assert (TrimPrefix (dotted x) "v" = dotted x) as ->.
  { unfold TrimPrefix. destruct (HasPrefix (dotted x) "v") eqn:E; [|done].
    by apply (HasPrefix_byte _ _ numeric_byte) in E; [|apply dotted_bytes]. }
  rewrite IndexByte_dotted by done. rewrite splitPEP440Suffix_numeric by apply dotted_bytes.
  f_equal. rewrite Split_dotted. destruct Hx as [_ HF]. by apply parse_nonempty_segments.
Qed.
End dotted.

Lemma compareRelease_dotted x y :
  segments_ok x -> segments_ok y -> compareRelease (dotted x) (dotted y) = compareIntSlices x y.
Proof.
  intros Hx Hy. unfold compareRelease. rewrite !Split_dotted, cmp_padded_segments by done.
  destruct Hx, Hy. by rewrite !parse_segments.
Qed.

Lemma compareSemver_dotted x y :
  segments_ok x -> segments_ok y -> compareSemver (dotted x) (dotted y) = compareIntSlices x y.
Proof.
  intros Hx Hy. unfold compareSemver.
  rewrite !normalizeSemverInput_dotted, !splitPrerelease_dotted, compareRelease_dotted by done.
  unfold cmp_then. simpl. by destruct (Z.eqb_spec (compareIntSlices x y) 0).
Qed.

Lemma compareEcosystem_dotted {U : UnicodeCase} x y eco :
  segments_ok x -> segments_ok y -> compareEcosystem (dotted x) (dotted y) eco = compareIntSlices x y.
Proof.
  intros Hx Hy. unfold compareEcosystem. repeat case_match.
  - unfold comparePEP440. rewrite !parsePEP440_dotted by done. unfold pep440_cmp, cmp_then. simpl.
    by destruct (Z.eqb_spec (compareIntSlices x y) 0).
  - unfold compareMaven. rewrite !splitMavenQualifier_dotted, compareRelease_dotted by done.
    unfold cmp_then. simpl. by destruct (Z.eqb_spec (compareIntSlices x y) 0).
  - unfold compareNuGet. rewrite !normalizeNuGet_dotted by done. by apply compareSemver_dotted.
  - by apply compareSemver_dotted.
Qed.

(** ** Pre-releases, qualifiers and suffixes *)

(** A part of a version after the release: not empty, visible bytes, no [+]. *)
Definition suffix_ok (s : string) : Prop :=
  s <> "" /\ all_bytes (fun c => visible c && not_byte "+"%char c) s = true.

Lemma all_bytes_and P Q s :
  all_bytes (fun c => P c && Q c) s = true -> all_bytes P s = true /\ all_bytes Q s = true.
Proof.
  intros H. split; eapply all_bytes_impl; [|exact H| |exact H]; simpl;
    intros c [??]%andb_true_iff; done.
Qed.

Section suffixes.
Context (x : list Z) (Hx : segments_ok x) (s : string) (Hs : suffix_ok s).

Lemma suffixed_visible sep :
  visible sep = true -> all_bytes visible (dotted x +:+ String sep s) = true.
Proof using Hx Hs.
  intros Hsep. destruct Hs as [_ [Hv _]%all_bytes_and].
  rewrite all_bytes_app, all_bytes_cons, Hsep, Hv. by rewrite (dotted_all x Hx visible numeric_visible).
Qed.

Lemma dotted_cons : exists c t, dotted x = String c t /\ numeric_byte c = true.
Proof using Hx.
  pose proof (dotted_bytes x Hx) as H. pose proof (Split_dotted x Hx) as Hsp.
  destruct (dotted x) as [|c t].
  - destruct Hx as [Hne _]. destruct x as [|n [|m l]]; [done| |done].
    simpl in Hsp. injection Hsp as Hsp. symmetry in Hsp. by apply itoa_nonneg_ne in Hsp.
  - rewrite all_bytes_cons, andb_true_iff in H. exists c, t. tauto.
Qed.

(** A version that starts with a numeric release keeps its first byte. *)
Lemma strip_v t :
  (match dotted x +:+ t with
   | String a (String b _) =>
       if (bool_decide (a = "v"%char) || bool_decide (a = "V"%char)) && isDigit b
       then str_drop 1 (dotted x +:+ t) else dotted x +:+ t
   | _ => dotted x +:+ t
   end) = dotted x +:+ t.
Proof using Hx.
  destruct dotted_cons as (c & d & -> & Hc).
  change (String c d +:+ t) with (String c (d +:+ t)). destruct (d +:+ t); [done|].
  by rewrite !bool_decide_eq_false_2 by (intros ->; done).
Qed.

Lemma normalizeSemverInput_suffixed :
  normalizeSemverInput (dotted x +:+ String "-" s) = dotted x +:+ String "-" s.
Proof using Hx Hs.
  unfold normalizeSemverInput. rewrite TrimSpace_visible by by apply suffixed_visible.
  cbn zeta. rewrite strip_v. unfold stripBuildMeta. rewrite IndexByte_none; [done|].
  destruct Hs as [_ [_ Hp]%all_bytes_and]. rewrite all_bytes_app, all_bytes_cons, Hp.
  by rewrite (dotted_all x Hx _ (numeric_not "+"%char eq_refl)).
Qed.

Lemma splitPrerelease_suffixed : splitPrerelease (dotted x +:+ String "-" s) = (dotted x, s).
Proof using Hx.
  unfold splitPrerelease.
  rewrite IndexByte_app by apply (dotted_all x Hx _ (numeric_not "-"%char eq_refl)).
  destruct (String.length (dotted x)) as [|k] eqn:E.
  - destruct dotted_cons as (c & d & Ed & _). by rewrite Ed in E.
  - rewrite <- E. f_equal; [apply str_take_app | apply (str_drop_app (dotted x) (String "-" s) 1)].
Qed.

(** Build metadata is dropped. *)
Lemma normalizeSemverInput_meta m :
  all_bytes visible m = true ->
  normalizeSemverInput ((dotted x +:+ String "-" s) +:+ String "+" m) = dotted x +:+ String "-" s.
Proof using Hx Hs.
  intros Hm. unfold normalizeSemverInput. rewrite TrimSpace_visible
    by by rewrite all_bytes_app, suffixed_visible, all_bytes_cons, Hm.
  cbn zeta. rewrite str_app_assoc, strip_v, <- str_app_assoc. unfold stripBuildMeta.
  rewrite IndexByte_app; [apply str_take_app|].
  destruct Hs as [_ [_ Hp]%all_bytes_and]. rewrite all_bytes_app, all_bytes_cons, Hp.
  by rewrite (dotted_all x Hx _ (numeric_not "+"%char eq_refl)).
Qed.
End suffixes.

Lemma parseInt_digits s : all_bytes isDigit s = true -> parseInt s = parseLeadingInt s.
Proof.
  unfold parseInt, parseLeadingInt. generalize 0 as n.
  induction s as [|c s IH]; intros n H; [done|].
  rewrite all_bytes_cons, andb_true_iff in H. destruct H as [Hc Hs]. simpl. rewrite Hc. by apply IH.
Qed.

Lemma parseInt_itoa n : 0 <= n <= int64_max -> parseInt (itoa_nonneg n) = n.
Proof. intros. rewrite parseInt_digits by (apply itoa_nonneg_digits; lia). by apply parseLeadingInt_itoa. Qed.

(** A word of lower-case letters, possibly followed or led by a separator. *)
Definition word_byte (c : ascii) : bool :=
  ((97 <=? code c) && (code c <=? 122)) || (code c =? 45) || (code c =? 46).

Definition is_word (w : string) : Prop :=
  all_bytes word_byte w = true /\ w <> "".

Lemma word_byte_not_digit c : word_byte c = true -> isDigit c = false.
Proof. unfold word_byte, isDigit. byte_cases. Qed.

Lemma word_suffix_ok w n : is_word w -> 0 <= n -> suffix_ok (w +:+ itoa_nonneg n).
Proof.
  intros [Hw Hne] Hn. split; [by destruct w|]. rewrite all_bytes_app, andb_true_iff. split.
  - eapply all_bytes_impl; [|exact Hw]. intros c. unfold word_byte, visible, not_byte.
    case_bool_decide; [subst c; done|]. byte_cases.
  - eapply all_bytes_impl; [|by apply itoa_nonneg_digits]. intros c Hc.
    rewrite isDigit_visible by done. unfold not_byte. case_bool_decide; [by subst | done].
Qed.

Lemma split_trailing_digits_word w n :
  is_word w -> 0 <= n -> split_trailing_digits (w +:+ itoa_nonneg n) = (w, itoa_nonneg n).
Proof.
  intros [Hw Hne] Hn. unfold split_trailing_digits. rewrite rev_app, span_digits_app.
  - by rewrite !rev_involutive.
  - rewrite all_bytes_rev. by apply itoa_nonneg_digits.
  - rewrite <- all_bytes_rev in Hw. destruct (String.rev w) as [|c r]; [done|].
    rewrite all_bytes_cons, andb_true_iff in Hw. apply word_byte_not_digit, Hw.
Qed.

Section words.
Context {U : UnicodeCase}.

Lemma word_ascii w : all_bytes word_byte w = true -> is_ascii w = true.
Proof. apply all_bytes_impl. unfold word_byte. byte_cases. Qed.

Lemma ToLower_word w : all_bytes word_byte w = true -> ToLower w = w.
Proof.
  intros Hw. unfold ToLower. rewrite word_ascii by done.
  apply str_map_id. intros c Hc. apply (all_bytes_elem _ _ _ Hw) in Hc. revert Hc.
  unfold word_byte, lower_byte. byte_cases.
Qed.

Lemma itoa_numeric n : 0 <= n -> all_bytes numeric_byte (itoa_nonneg n) = true.
Proof.
  intros. eapply all_bytes_impl; [|by apply itoa_nonneg_digits]. intros c. unfold numeric_byte. by intros ->.
Qed.

Lemma ToLower_word_number w n :
  all_bytes word_byte w = true -> 0 <= n -> ToLower (w +:+ itoa_nonneg n) = w +:+ itoa_nonneg n.
Proof.
  intros Hw Hn. rewrite ToLower_app, ToLower_word, ToLower_numeric; auto using itoa_numeric, word_ascii.
  eapply is_ascii_visible, all_bytes_impl; [apply numeric_visible | by apply itoa_numeric].
Qed.

(** A qualifier made of a word and a number. *)
Lemma parseMavenQualifier_word w n :
  is_word w -> 0 <= n <= int64_max ->
  parseMavenQualifier (w +:+ itoa_nonneg n) =
  (default (-1) (assoc mavenQualifierOrder (TrimLeft w "-.")), n).
Proof.
  intros Hw Hn. unfold parseMavenQualifier.
  rewrite bool_decide_eq_false_2 by (destruct Hw, w; done).
  rewrite split_trailing_digits_word by (done || lia). destruct Hw as [Hw _].
  rewrite ToLower_word by done. rewrite bool_decide_eq_false_2 by apply itoa_nonneg_ne.
  by rewrite parseInt_itoa.
Qed.

Lemma splitMavenQualifier_suffixed x s :
  segments_ok x -> suffix_ok s ->
  splitMavenQualifier (TrimSpace (dotted x +:+ String "-" s)) = (dotted x, ToLower s).
Proof.
  intros Hx Hs. rewrite TrimSpace_visible by by apply suffixed_visible.
  unfold splitMavenQualifier. rewrite IndexByte_app by apply (dotted_all x Hx _ (numeric_not "-"%char eq_refl)).
  destruct (String.length (dotted x)) as [|k] eqn:E.
  - destruct (dotted_cons x Hx) as (c & d & Ed & _). by rewrite Ed in E.
  - rewrite <- E. f_equal; [apply str_take_app|].
    f_equal. apply (str_drop_app (dotted x) (String "-" s) 1).
Qed.

(** Versions with one release and Maven qualifiers: the word decides, then the
    number. *)
Lemma compareMaven_words x w1 w2 n1 n2 :
  segments_ok x -> is_word w1 -> is_word w2 -> 0 <= n1 <= int64_max -> 0 <= n2 <= int64_max ->
  compareMaven (dotted x +:+ String "-" (w1 +:+ itoa_nonneg n1))
               (dotted x +:+ String "-" (w2 +:+ itoa_nonneg n2)) =
  zcmp (default (-1) (assoc mavenQualifierOrder (TrimLeft w1 "-.")))
       (default (-1) (assoc mavenQualifierOrder (TrimLeft w2 "-."))) <?> zcmp n1 n2.
Proof.
  intros Hx Hw1 Hw2 Hn1 Hn2. unfold compareMaven.
  rewrite !splitMavenQualifier_suffixed by (try apply word_suffix_ok; done || lia).
  rewrite go_refl, cmp_then_0 by apply _. destruct Hw1 as [? ?], Hw2 as [? ?].
  rewrite !ToLower_word_number by (done || lia). unfold compareMavenQualifiers.
  by rewrite !parseMavenQualifier_word.
Qed.

(** The words of [mavenQualifierOrder]. *)
Definition maven_words : list string := List.filter (fun w => negb (bool_decide (w = ""))) mavenQualifierOrder.*1.

Lemma maven_word w : w ∈ maven_words -> is_word w /\ TrimLeft w "-." = w.
Proof.
  unfold maven_words. simpl. rewrite !elem_of_cons, elem_of_nil. unfold is_word.
  intros H. by repeat destruct H as [->|H].
Qed.

(** Such a word, then a hyphen and a number: an unknown qualifier. *)
Lemma maven_word_hyphen w :
  w ∈ maven_words -> is_word (w +:+ "-") /\ assoc mavenQualifierOrder (TrimLeft (w +:+ "-") "-.") = None.
Proof.
  unfold maven_words. simpl. rewrite !elem_of_cons, elem_of_nil. unfold is_word.
  intros H. by repeat destruct H as [->|H].
Qed.

(** PEP 440: a release, a dot suffix and its number. *)
Definition suffix_byte (w : string) (c : ascii) : bool := numeric_byte c || bool_decide (c ∈ bytes w).

Section dot_suffix.
Context (x : list Z) (Hx : segments_ok x) (n : Z) (Hn : 0 <= n <= int64_max).

Lemma dot_suffixed_bytes w :
  all_bytes (suffix_byte w) (dotted x +:+ (w +:+ itoa_nonneg n)) = true.
Proof using Hx Hn.
  rewrite !all_bytes_app, !andb_true_iff. split_and!.
  - apply dotted_all; [done|]. unfold suffix_byte. by intros c ->.
  - unfold all_bytes. apply forallb_forall. intros c Hc%list_elem_of_In. unfold suffix_byte.
    by rewrite (bool_decide_true _ Hc), orb_true_r.
  - eapply all_bytes_impl; [|apply itoa_numeric; lia]. unfold suffix_byte. by intros c ->.
Qed.

Lemma dot_suffix_hit w :
  all_bytes (not_byte "."%char) w = true ->
  LastIndex (dotted x +:+ (String "." w +:+ itoa_nonneg n)) (String "." w) =
  Some (String.length (dotted x)).
Proof using Hn.
  intros Hw. change (String "." w +:+ itoa_nonneg n) with (String "." (w +:+ itoa_nonneg n)).
  apply LastIndex_app. rewrite all_bytes_app, Hw. eapply all_bytes_impl; [|apply itoa_nonneg_digits; lia].
  intros c Hc. unfold not_byte. case_bool_decide; [by subst | done].
Qed.

Lemma dot_suffix_number w :
  suffix_number (str_drop (String.length (dotted x) + String.length w)
                          (dotted x +:+ (w +:+ itoa_nonneg n))) = n.
Proof using Hn.
  rewrite Nat.add_comm, str_drop_app.
  replace (str_drop (String.length w) (w +:+ itoa_nonneg n)) with (itoa_nonneg n)
    by (symmetry; apply (str_drop_app w (itoa_nonneg n) 0)).
  unfold suffix_number. rewrite bool_decide_eq_false_2 by apply itoa_nonneg_ne. by apply parseInt_itoa.
Qed.

Lemma dot_suffix_loop_hit w p :
  (w, p) ∈ pep440DotSuffixes ->
  dot_suffix_loop pep440DotSuffixes (dotted x +:+ (w +:+ itoa_nonneg n)) = Some (dotted x, p, n).
Proof using Hx Hn.
  intros Hw. pose proof (dot_suffixed_bytes w) as Hb. pose proof (dot_suffix_number w) as Hp.
  unfold pep440DotSuffixes in *. rewrite !elem_of_cons, elem_of_nil in Hw.
  repeat destruct Hw as [[= -> ->]|Hw]; [..|done]; cbn [dot_suffix_loop];
    repeat (rewrite (LastIndex_none _ _ _ Hb) by reflexivity);
    (rewrite dot_suffix_hit by done); by rewrite Hp, str_take_app.
Qed.

Lemma parsePEP440_suffixed w p :
  (w, p) ∈ pep440DotSuffixes ->
  parsePEP440 (dotted x +:+ (w +:+ itoa_nonneg n)) =
  {| epoch := 0; release := x; phase := p; phaseNum := n; devNum := -1 |}.
Proof using Hx Hn.
  intros Hw. assert (all_bytes word_byte w = true) as Hl.
  { unfold pep440DotSuffixes in Hw. rewrite !elem_of_cons, elem_of_nil in Hw.
    by repeat destruct Hw as [[= -> ->]|Hw]. }
  pose proof (dotted_bytes x Hx) as Hd.
  assert (all_bytes (fun c => numeric_byte c || word_byte c) (dotted x +:+ (w +:+ itoa_nonneg n)) = true) as Hb.
  { rewrite !all_bytes_app, !andb_true_iff. split_and!.
    - eapply all_bytes_impl; [|exact Hd]. by intros c ->.
    - eapply all_bytes_impl; [|exact Hl]. intros c ->. apply orb_true_r.
    - eapply all_bytes_impl; [|apply itoa_numeric; lia]. by intros c ->. }
  unfold parsePEP440. rewrite TrimSpace_visible.
  2: { eapply all_bytes_impl; [|exact Hb]. intros c [Hc|Hc]%orb_true_iff; [by apply numeric_visible|].
       revert Hc. unfold word_byte, visible. byte_cases. }
  rewrite ToLower_app, ToLower_word_number, ToLower_numeric; auto with lia;
    [|eapply is_ascii_visible, all_bytes_impl; [apply numeric_visible|done]
     |unfold is_ascii; rewrite bytes_app, forallb_app; apply andb_true_iff; split;
        [by apply word_ascii | eapply is_ascii_visible, all_bytes_impl;
           [apply numeric_visible | apply itoa_numeric; lia]]].
  assert (TrimPrefix (dotted x +:+ (w +:+ itoa_nonneg n)) "v" = dotted x +:+ (w +:+ itoa_nonneg n)) as ->.
  { unfold TrimPrefix. destruct (dotted_cons x Hx) as (c & t & -> & Hc).
    change (String c t +:+ (w +:+ itoa_nonneg n)) with (String c (t +:+ (w +:+ itoa_nonneg n))). simpl.
    by rewrite bool_decide_eq_false_2 by (intros <-; done). }
  rewrite IndexByte_none.
  2: { eapply all_bytes_impl; [|exact Hb]. intros c Hc. unfold not_byte.
       case_bool_decide; [subst c; done | done]. }
  unfold splitPEP440Suffix. rewrite (dot_suffix_loop_hit w p Hw).
  pose proof (parsePEP440_dotted x Hx) as H. unfold parsePEP440 in H.
  rewrite TrimSpace_dotted, ToLower_numeric in H by done.
  f_equal. rewrite Split_dotted by done. destruct Hx as [_ HF]. by apply parse_nonempty_segments.
Qed.
End dot_suffix.
End words.

(** ** Theorems *)

Section theorems.
Context {U : UnicodeCase}.

(** C3: whatever the range type and the ecosystem, [Compare] is the comparison
    of a total preorder.  It returns -1, 0 or 1; swapping its arguments negates
    the result; it is transitive; and versions that compare equal are
    interchangeable in every comparison. *)
Theorem Compare_total_preorder rangeType ecosystem :
  let cmp a b := Compare a b rangeType ecosystem in
  (forall a b, cmp a b = -1 \/ cmp a b = 0 \/ cmp a b = 1) /\
  (forall a b, cmp b a = - cmp a b) /\
  (forall a b c, cmp a b <= 0 -> cmp b c <= 0 -> cmp a c <= 0) /\
  (forall a b c, cmp a b = 0 -> cmp a c = cmp b c).
Proof.
  intros cmp. pose proof (Compare_order rangeType ecosystem) as H. split_and!.
  - apply H.
  - apply H.
  - apply H.
  - intros a b c. apply (go_eq_l cmp).
Qed.

(** On numeric versions ("1.10.0") every comparator of every ecosystem is
    numeric comparison segment by segment, missing segments counting as zero;
    in particular 1.10 is above 1.9 and 1.2 equals 1.2.0. *)
Theorem Compare_numeric_versions x y rangeType ecosystem :
  segments_ok x -> segments_ok y -> ToUpper rangeType <> "GIT" ->
  Compare (dotted x) (dotted y) rangeType ecosystem = compareIntSlices x y.
Proof.
  intros Hx Hy Hgit. unfold Compare. rewrite bool_decide_eq_false_2 by done.
  case_bool_decide; [by apply compareEcosystem_dotted | by apply compareSemver_dotted].
Qed.

(** SemVer precedence of pre-releases.  A pre-release is below its release,
    two pre-releases of one release compare by their identifiers, a difference
    in the release decides first, and build metadata is ignored. *)
Theorem semver_prerelease_precedence x y p q meta :
  segments_ok x -> segments_ok y -> suffix_ok p -> suffix_ok q -> all_bytes visible meta = true ->
  compareSemver (dotted x +:+ String "-" p) (dotted x) = -1 /\
  compareSemver (dotted x +:+ String "-" p) (dotted y +:+ String "-" q) =
    compareIntSlices x y <?> comparePrereleaseIdentifiers p q /\
  compareSemver ((dotted x +:+ String "-" p) +:+ String "+" meta) (dotted x +:+ String "-" p) = 0.
Proof.
  intros Hx Hy Hp Hq Hm. unfold compareSemver.
  rewrite !normalizeSemverInput_meta, !normalizeSemverInput_suffixed, !normalizeSemverInput_dotted,
    !splitPrerelease_suffixed, !splitPrerelease_dotted by done.
  destruct Hp as [Hp _], Hq as [Hq _]. split_and!.
  - rewrite (go_refl compareRelease), cmp_then_0. unfold comparePrereleaseStrings.
    by rewrite (bool_decide_eq_false_2 (p = "")).
  - rewrite compareRelease_dotted by done. f_equal. unfold comparePrereleaseStrings.
    by rewrite !bool_decide_eq_false_2.
  - by rewrite (go_refl compareRelease), (go_refl comparePrereleaseStrings).
Qed.

(** Maven qualifiers.  Versions with the same release and a known qualifier
    word with a number compare by the word's rank (alpha, beta, milestone,
    rc = cr, snapshot, ga, sp) and then by the number. *)
Theorem maven_qualifier_order x w1 w2 r1 r2 n1 n2 :
  segments_ok x -> w1 ∈ maven_words -> w2 ∈ maven_words ->
  assoc mavenQualifierOrder w1 = Some r1 -> assoc mavenQualifierOrder w2 = Some r2 ->
  0 <= n1 <= int64_max -> 0 <= n2 <= int64_max ->
  compareMaven (dotted x +:+ String "-" (w1 +:+ itoa_nonneg n1))
               (dotted x +:+ String "-" (w2 +:+ itoa_nonneg n2)) = zcmp r1 r2 <?> zcmp n1 n2.
Proof.
  intros Hx Hw1 Hw2 Hr1 Hr2 Hn1 Hn2.
  destruct (maven_word _ Hw1) as [Hw1' Ht1], (maven_word _ Hw2) as [Hw2' Ht2].
  rewrite compareMaven_words by done. by rewrite Ht1, Ht2, Hr1, Hr2.
Qed.

(** PEP 440 suffixes.  Versions with a dot-separated suffix ("1.0.rc2")
    compare by release, then by phase (dev, alpha, beta, rc, post around the
    plain release's 0), then by the suffix number. *)
Theorem pep440_suffix_order x y w1 w2 p1 p2 n1 n2 :
  segments_ok x -> segments_ok y ->
  (w1, p1) ∈ pep440DotSuffixes -> (w2, p2) ∈ pep440DotSuffixes ->
  0 <= n1 <= int64_max -> 0 <= n2 <= int64_max ->
  comparePEP440 (dotted x +:+ (w1 +:+ itoa_nonneg n1)) (dotted y +:+ (w2 +:+ itoa_nonneg n2)) =
    compareIntSlices x y <?> (zcmp p1 p2 <?> zcmp n1 n2) /\
  comparePEP440 (dotted x +:+ (w1 +:+ itoa_nonneg n1)) (dotted y) =
    compareIntSlices x y <?> zcmp p1 0.
Proof.
  intros Hx Hy Hw1 Hw2 Hn1 Hn2. unfold comparePEP440.
  rewrite (parsePEP440_suffixed x Hx n1 Hn1 w1 p1 Hw1), (parsePEP440_suffixed y Hy n2 Hn2 w2 p2 Hw2),
    (parsePEP440_dotted y Hy).
  assert (p1 <> 0) as Hp1.
  { clear -Hw1. unfold pep440DotSuffixes in Hw1. rewrite !elem_of_cons, elem_of_nil in Hw1.
    by repeat destruct Hw1 as [[= -> ->]|Hw1]. }
  unfold pep440_cmp. simpl. rewrite !(go_refl zcmp), !cmp_then_0, !cmp_then_r. split; [done|].
  f_equal. by rewrite cmp_then_ne by by rewrite zcmp_eq.
Qed.

(** Version numbers at 64 bits.  A segment made of digits is read modulo
    2^64 into the range of [int]; it is the number it denotes exactly when that
    number fits. *)
Theorem segment_overflow s :
  all_bytes isDigit s = true ->
  parseLeadingInt s = wrap64 (dec_value 0 s) /\
  int64_min <= parseLeadingInt s <= int64_max /\
  (parseLeadingInt s = dec_value 0 s <-> int64_min <= dec_value 0 s <= int64_max).
Proof.
  intros H. rewrite parseLeadingInt_digits by done. pose proof (wrap64_range (dec_value 0 s)) as Hr.
  split_and!; [done | lia | lia |]. split; [intros <-; lia | apply wrap64_id].
Qed.

(** A segment past 2^63 - 1 is read as a negative number and sorts below 0. *)
Example huge_segment_sorts_below_zero :
  compareSemver "9223372036854775808.0.0" "0.0.0" = -1.
Proof. reflexivity. Qed.

(** The word of a Maven qualifier is not recognised when a hyphen separates it
    from its number: alpha-1 and beta-1 compare equal. *)
Lemma maven_hyphen_number_loses_word x w1 w2 n1 n2 :
  segments_ok x -> w1 ∈ maven_words -> w2 ∈ maven_words ->
  0 <= n1 <= int64_max -> 0 <= n2 <= int64_max ->
  compareMaven (dotted x +:+ String "-" ((w1 +:+ "-") +:+ itoa_nonneg n1))
               (dotted x +:+ String "-" ((w2 +:+ "-") +:+ itoa_nonneg n2)) = zcmp n1 n2.
Proof.
  intros Hx Hw1 Hw2 Hn1 Hn2.
  destruct (maven_word_hyphen _ Hw1) as [Hw1' Ht1], (maven_word_hyphen _ Hw2) as [Hw2' Ht2].
  rewrite compareMaven_words by done. by rewrite Ht1, Ht2.
Qed.

(** The digits of a development release run into those of the post release it
    belongs to: post1.dev2 is read as post12, above post2. *)
Example post_dev_digits_run_together :
  phaseNum (parsePEP440 "1.0.post1.dev2") = 12 /\
  devNum (parsePEP440 "1.0.post1.dev2") = -1 /\
  comparePEP440 "1.0.post1.dev2" "1.0.post2" = 1.
Proof. split_and!; reflexivity. Qed.
End theorems.

(** ** Witnesses *)

#[local] Instance witness_case : UnicodeCase := plain_case.

Lemma segments_ok_intro x :
  x <> [] -> forallb (fun n => (0 <=? n) && (n <=? int64_max)) x = true -> segments_ok x.
Proof.
  intros Hne H. split; [done|]. apply Forall_forall. intros n Hn. rewrite forallb_forall in H.
  apply list_elem_of_In, H in Hn. lia.
Qed.

Lemma Compare_numeric_versions_witness :
  dotted [1; 10; 0] = "1.10.0" /\ dotted [1; 9] = "1.9" /\
  Compare (dotted [1; 10; 0]) (dotted [1; 9]) "ECOSYSTEM" "PyPI" = 1.
Proof.
  split_and!; [reflexivity..|].
  rewrite (Compare_numeric_versions [1; 10; 0] [1; 9] "ECOSYSTEM" "PyPI");
    [reflexivity | by apply segments_ok_intro | by apply segments_ok_intro | done].
Defined.

Lemma semver_prerelease_precedence_witness :
  compareSemver (dotted [1; 2; 3] +:+ String "-" "rc.1") (dotted [1; 2; 3]) = -1.
Proof.
  apply (semver_prerelease_precedence [1; 2; 3] [1; 2; 4] "rc.1" "rc.2" "build5");
    [by apply segments_ok_intro | by apply segments_ok_intro | done | done | done].
Defined.

Lemma maven_qualifier_order_witness :
  compareMaven (dotted [2; 0] +:+ String "-" ("rc" +:+ itoa_nonneg 2))
               (dotted [2; 0] +:+ String "-" ("snapshot" +:+ itoa_nonneg 1)) = -1.
Proof.
  rewrite (maven_qualifier_order [2; 0] "rc" "snapshot" (-2) (-1) 2 1);
    [reflexivity | by apply segments_ok_intro | decided | decided
    | reflexivity | reflexivity | by unfold int64_max | by unfold int64_max].
Defined.

Lemma pep440_suffix_order_witness :
  comparePEP440 (dotted [1; 0] +:+ (".rc" +:+ itoa_nonneg 2))
                (dotted [1; 0] +:+ (".post" +:+ itoa_nonneg 1)) = -1.
Proof.
  rewrite (proj1 (pep440_suffix_order [1; 0] [1; 0] ".rc" ".post" (-2) 1 2 1
    ltac:(by apply segments_ok_intro) ltac:(by apply segments_ok_intro)
    ltac:(decided) ltac:(decided)
    ltac:(by unfold int64_max) ltac:(by unfold int64_max))).
  reflexivity.
Defined.

Lemma segment_overflow_witness :
  all_bytes isDigit "18446744073709551617" = true /\ parseLeadingInt "18446744073709551617" = 1.
Proof.
  split; [reflexivity|].
  rewrite (proj1 (segment_overflow "18446744073709551617" ltac:(reflexivity))). reflexivity.
Defined.
