(* ===== verification/VersionRanges.v ===== *)
(** Range matching: the rest of internal/version/compare.go, and
    internal/version/range_shape.go and fixed_for_version.go.

    Advisory ranges come as JSON text in two formats (nested OSV events, or
    the flat form of the local sync).  [parseRanges] decodes both;
    [matchRanges] and [VersionAffected] decide whether a version is affected;
    [ExtractFixedVersionFor] picks the fix to advise; [CheckRangesShape] is
    the rule for stored ranges.  The specification is a list of intervals per
    range, and the matcher is proved to decide membership in it. *)
From stdpp Require Import base list option strings.
From Stdlib Require Import Ascii ZArith Lia.
From S2P Require Import Prelude GoStrings Json VersionCompare.

(** ** Data *)

Record osvRangeEvent := mk_event {
  Introduced : string;
  Fixed : string;
  LastAffected : string;
  Limit : string
}.

Record osvRange := mk_range {
  Type_ : string;
  Events : list osvRangeEvent
}.

Record flatRange := mk_flat {
  flatIntroduced : string;
  flatFixed : string;
  flatLastAffected : string
}.

#[export] Instance event_eq_dec : EqDecision osvRangeEvent.
Proof. solve_decision. Defined.
#[export] Instance range_eq_dec : EqDecision osvRange.
Proof. solve_decision. Defined.
#[export] Instance flat_eq_dec : EqDecision flatRange.
Proof. solve_decision. Defined.

Definition empty_event : osvRangeEvent := mk_event "" "" "" "".
Definition empty_flat : flatRange := mk_flat "" "" "".

(** ** Decoding *)

Section decoding.
Context {U : UnicodeCase}.

Definition set_event_field (name : string) : decoder osvRangeEvent := fun v e =>
  if bool_decide (name = "introduced")
  then s ← dec_string v (Introduced e); Some (mk_event s (Fixed e) (LastAffected e) (Limit e))
  else if bool_decide (name = "fixed")
  then s ← dec_string v (Fixed e); Some (mk_event (Introduced e) s (LastAffected e) (Limit e))
  else if bool_decide (name = "last_affected")
  then s ← dec_string v (LastAffected e); Some (mk_event (Introduced e) (Fixed e) s (Limit e))
  else s ← dec_string v (Limit e); Some (mk_event (Introduced e) (Fixed e) (LastAffected e) s).

Definition event_names : list string := ["introduced"; "fixed"; "last_affected"; "limit"].

Definition dec_event : decoder osvRangeEvent := dec_struct event_names set_event_field.

(** A range while it is decoded: its events are a slice. *)
Definition range_var : Type := string * slice osvRangeEvent.

Definition empty_range_var : range_var := ("", nil_slice).

Definition set_range_field (name : string) : decoder range_var := fun v r =>
  if bool_decide (name = "type")
  then s ← dec_string v r.1; Some (s, r.2)
  else es ← dec_slice empty_event dec_event v r.2; Some (r.1, es).

Definition range_names : list string := ["type"; "events"].

Definition dec_range : decoder range_var := dec_struct range_names set_range_field.

Definition range_of_var (r : range_var) : osvRange := mk_range r.1 (elems r.2).

Definition set_flat_field (name : string) : decoder flatRange := fun v f =>
  if bool_decide (name = "introduced")
  then s ← dec_string v (flatIntroduced f); Some (mk_flat s (flatFixed f) (flatLastAffected f))
  else if bool_decide (name = "fixed")
  then s ← dec_string v (flatFixed f); Some (mk_flat (flatIntroduced f) s (flatLastAffected f))
  else s ← dec_string v (flatLastAffected f); Some (mk_flat (flatIntroduced f) (flatFixed f) s).

Definition flat_names : list string := ["introduced"; "fixed"; "last_affected"].

Definition dec_flat : decoder flatRange := dec_struct flat_names set_flat_field.

(** [json.Unmarshal] into [[]osvRange], [[]flatRange] and [[]string]. *)
Definition unmarshal_ranges (data : string) : option (list osvRange) :=
  rs ← unmarshal (dec_slice empty_range_var dec_range) data nil_slice;
  Some (range_of_var <$> elems rs).

Definition unmarshal_flat (data : string) : option (list flatRange) :=
  fs ← unmarshal (dec_slice empty_flat dec_flat) data nil_slice; Some (elems fs).

Definition isFlatFormat (ranges : list osvRange) (raw : string) : bool :=
  match ranges with
  | [] => false
  | _ =>
      if existsb (fun r => negb (bool_decide (Events r = []))) ranges then false
      else Contains raw (json_text "'introduced'")
  end.

(** The events of one flat range. *)
Definition flat_events (f : flatRange) : list osvRangeEvent :=
  (if bool_decide (flatIntroduced f = "") then [] else [mk_event (flatIntroduced f) "" "" ""]) ++
  (if bool_decide (flatFixed f = "") then [] else [mk_event "" (flatFixed f) "" ""]) ++
  (if bool_decide (flatLastAffected f = "") then [] else [mk_event "" "" (flatLastAffected f) ""]).

Fixpoint flatToFull (flat : list flatRange) : list osvRange :=
  match flat with
  | [] => []
  | f :: rest =>
      match flat_events f with
      | [] => flatToFull rest
      | events => mk_range "SEMVER" events :: flatToFull rest
      end
  end.

(** [None] is a decoding error. *)
Definition parseRanges (rangesJSON : string) : option (list osvRange) :=
  full ← unmarshal_ranges rangesJSON;
  if isFlatFormat full rangesJSON
  then match unmarshal_flat rangesJSON with
       | Some flat => Some (flatToFull flat)
       | None => Some full
       end
  else Some full.

(** ** Matching *)

Definition isFullGitCommitSHA (value0 : string) : bool :=
  let value := TrimSpace value0 in
  let n := String.length value in
  if negb (Nat.eqb n 40) && negb (Nat.eqb n 64) then false
  else all_bytes (fun c => in_range 48 57 c || in_range 97 102 c || in_range 65 70 c) value.

Definition IsGitCommitSHA (value : string) : bool := isFullGitCommitSHA value.

Definition skipRangeComparisonForVersion (version rangeType ecosystem : string) : bool :=
  if negb (EqualFold ecosystem "actions") then false
  else if EqualFold rangeType "GIT" then false
  else isFullGitCommitSHA version.

Definition normalizeIntroduced (introduced : string) : string :=
  if bool_decide (introduced = "0") then "" else introduced.

Definition versionInRange (version introduced fixed lastAffected : string)
    (cmp : string -> string -> Z) : bool :=
  if negb (bool_decide (introduced = "")) && (cmp version introduced <? 0) then false
  else if negb (bool_decide (fixed = "")) && (0 <=? cmp version fixed) then false
  else if negb (bool_decide (lastAffected = "")) && (0 <? cmp version lastAffected) then false
  else true.

(** [event.Fixed == "" && event.LastAffected == "" && event.Limit == ""] *)
Definition opens_only (e : osvRangeEvent) : bool :=
  bool_decide (Fixed e = "") && bool_decide (LastAffected e = "") && bool_decide (Limit e = "").

(** The loop over the events of one range, with [introduced] and
    [hadIntroduced] of the iteration, and the open-ended check after it. *)
Fixpoint match_events (cmp : string -> string -> Z) (version introduced : string)
    (hadIntroduced : bool) (events : list osvRangeEvent) : bool :=
  match events with
  | [] => hadIntroduced && (bool_decide (introduced = "") || (0 <=? cmp version introduced))
  | event :: rest =>
      let '(introduced, hadIntroduced) :=
        if bool_decide (Introduced event = "") then (introduced, hadIntroduced)
        else (normalizeIntroduced (Introduced event), true) in
      if opens_only event then match_events cmp version introduced hadIntroduced rest
      else if versionInRange version introduced (Fixed event) (LastAffected event) cmp then true
      else match_events cmp version "" false rest
  end.

(** The loop over the ranges: affected, and how many ranges were evaluated. *)
Fixpoint match_ranges_loop (version ecosystem : string) (ranges : list osvRange) (evaluated : Z)
    : bool * Z :=
  match ranges with
  | [] => (false, evaluated)
  | item :: rest =>
      let rangeType := Type_ item in
      if EqualFold rangeType "GIT" then match_ranges_loop version ecosystem rest evaluated
      else
        let evaluated := evaluated + 1 in
        if skipRangeComparisonForVersion version rangeType ecosystem
        then match_ranges_loop version ecosystem rest evaluated
        else
          let cmp a b := Compare a b rangeType ecosystem in
          if match_events cmp version "" false (Events item) then (true, evaluated)
          else match_ranges_loop version ecosystem rest evaluated
  end.

(** [None] when the ranges do not parse (Go returns [true, 0, err]). *)
Definition matchRanges (version rangesJSON ecosystem : string) : option (bool * Z) :=
  ranges ← parseRanges rangesJSON;
  Some (match_ranges_loop version ecosystem ranges 0).

(** [s != "" && s != "null"] *)
Definition present (s : string) : bool := negb (bool_decide (s = "") || bool_decide (s = "null")).

(** The two results of [VersionAffected]: affected, and whether the error is
    non-nil. *)
Definition VersionAffected (version versionRangesJSON versionsJSON ecosystem : string) : bool * bool :=
  let rangesJSON := TrimSpace versionRangesJSON in
  let versJSON := TrimSpace versionsJSON in
  let ranges_result :=
    if present rangesJSON then matchRanges version rangesJSON ecosystem else Some (false, 0) in
  match ranges_result with
  | None => (true, true)
  | Some (true, _) => (true, false)
  | Some (false, count) =>
      let hasRanges := 0 <? count in
      let versions_result := if present versJSON then unmarshal_strings versJSON else Some [] in
      match versions_result with
      | None => (true, true)
      | Some versions =>
          if existsb (fun candidate => versionsEqual version candidate ecosystem) versions
          then (true, false)
          else
            let hasVersions := negb (bool_decide (versions = [])) in
            if hasRanges || hasVersions then (false, false) else (true, false)
      end
  end.

(** ** Fix advice *)

Fixpoint lowest_fixed (best : string) (events : list osvRangeEvent) : string :=
  match events with
  | [] => best
  | event :: rest =>
      if bool_decide (Fixed event = "") then lowest_fixed best rest
      else if bool_decide (best = "") || (compareSemver (Fixed event) best <? 0)
      then lowest_fixed (Fixed event) rest
      else lowest_fixed best rest
  end.

Definition ExtractFixedVersion (versionRangesJSON : string) : string :=
  let rangesJSON := TrimSpace versionRangesJSON in
  if negb (present rangesJSON) then ""
  else match parseRanges rangesJSON with
       | None => ""
       | Some ranges => fold_left (fun best r => lowest_fixed best (Events r)) ranges ""
       end.

(** The loop over the events of one range in [ExtractFixedVersionFor]. *)
Fixpoint fix_in_events (cmp : string -> string -> Z) (installed introduced : string)
    (events : list osvRangeEvent) : option string :=
  match events with
  | [] => None
  | event :: rest =>
      let introduced :=
        if bool_decide (Introduced event = "") then introduced
        else normalizeIntroduced (Introduced event) in
      if opens_only event then fix_in_events cmp installed introduced rest
      else if versionInRange installed introduced (Fixed event) (LastAffected event) cmp
              && negb (bool_decide (Fixed event = ""))
      then Some (Fixed event)
      else fix_in_events cmp installed "" rest
  end.

(** The ranges both loops over ranges compare against. *)
Definition comparable (version ecosystem : string) (item : osvRange) : bool :=
  negb (EqualFold (Type_ item) "GIT") &&
  negb (skipRangeComparisonForVersion version (Type_ item) ecosystem).

Fixpoint fix_in_ranges (installed ecosystem : string) (ranges : list osvRange) : option string :=
  match ranges with
  | [] => None
  | item :: rest =>
      if EqualFold (Type_ item) "GIT" then fix_in_ranges installed ecosystem rest
      else if skipRangeComparisonForVersion installed (Type_ item) ecosystem
      then fix_in_ranges installed ecosystem rest
      else
        let cmp a b := Compare a b (Type_ item) ecosystem in
        match fix_in_events cmp installed "" (Events item) with
        | Some f => Some f
        | None => fix_in_ranges installed ecosystem rest
        end
  end.

Definition ExtractFixedVersionFor (installed0 versionRangesJSON ecosystem : string) : string :=
  let fallback := ExtractFixedVersion versionRangesJSON in
  let installed := TrimSpace installed0 in
  if bool_decide (installed = "") then fallback
  else
    let rangesJSON := TrimSpace versionRangesJSON in
    if negb (present rangesJSON) then fallback
    else match parseRanges rangesJSON with
         | None => fallback
         | Some ranges => default fallback (fix_in_ranges installed ecosystem ranges)
         end.

Definition ExtractFixedVersionConstraintFor (installed versionRangesJSON ecosystem : string) : string :=
  let fixed := ExtractFixedVersionFor installed versionRangesJSON ecosystem in
  if bool_decide (fixed = "") then "" else ">= " +:+ fixed.
End decoding.

(** ** The stored-range rule *)

Record RangeShapeError := mk_shape_error { Path : string; Reason : string }.

Definition RangeShapeError_Error (e : RangeShapeError) : string :=
  if bool_decide (Path e = "") then Reason e else Path e +:+ " " +:+ Reason e.

Definition rangeBoundaryKeys : list string := ["introduced"; "fixed"; "last_affected"; "limit"].

(** [json.Unmarshal] into a [*string]: [Some None] is nil. *)
Definition dec_string_ptr (v : json) : option (option string) :=
  match v with
  | JString s => Some (Some s)
  | JNull => Some None
  | _ => None
  end.

(** The loop over the boundary keys: an error, or whether one holds a
    nonblank string. *)
Fixpoint boundary_loop (event : list (string * json)) (eventPath : string) (keys : list string)
    (hasBoundary : bool) : RangeShapeError + bool :=
  match keys with
  | [] => inr hasBoundary
  | key :: rest =>
      match raw_member event key with
      | None => boundary_loop event eventPath rest hasBoundary
      | Some rawValue =>
          match dec_string_ptr rawValue with
          | None => inl (mk_shape_error (eventPath +:+ "." +:+ key) "must be a string")
          | Some value =>
              let nonblank := match value with
                              | Some s => negb (bool_decide (TrimSpace s = ""))
                              | None => false
                              end in
              boundary_loop event eventPath rest (hasBoundary || nonblank)
          end
      end
  end.

Definition checkRangeEventShape (raw : json) (eventPath : string) : option RangeShapeError :=
  match raw with
  | JObject event =>
      match boundary_loop event eventPath rangeBoundaryKeys false with
      | inl e => Some e
      | inr true => None
      | inr false =>
          Some (mk_shape_error eventPath "must set introduced, fixed, last_affected, or limit")
      end
  | _ => Some (mk_shape_error eventPath "must be an event object")
  end.

Fixpoint check_events (rangePath : string) (j : Z) (events : list json) : option RangeShapeError :=
  match events with
  | [] => None
  | rawEvent :: rest =>
      match checkRangeEventShape rawEvent (rangePath +:+ ".events[" +:+ Itoa j +:+ "]") with
      | Some e => Some e
      | None => check_events rangePath (j + 1) rest
      end
  end.

Definition check_range (i : Z) (rawRange : json) : option RangeShapeError :=
  let rangePath := "[" +:+ Itoa i +:+ "]" in
  match rawRange with
  | JObject versionRange =>
      match raw_member versionRange "type" ≫= fun t => Some (dec_string_ptr t) with
      | Some None => Some (mk_shape_error (rangePath +:+ ".type") "must be a string")
      | _ =>
          match raw_member versionRange "events" with
          | None | Some JNull | Some (JArray []) =>
              Some (mk_shape_error (rangePath +:+ ".events") "must not be empty")
          | Some (JArray events) => check_events rangePath 0 events
          | Some _ =>
              Some (mk_shape_error (rangePath +:+ ".events") "must be an array of event objects")
          end
      end
  | _ => Some (mk_shape_error rangePath "must be a range object")
  end.

Fixpoint check_ranges (i : Z) (ranges : list json) : option RangeShapeError :=
  match ranges with
  | [] => None
  | rawRange :: rest =>
      match check_range i rawRange with
      | Some e => Some e
      | None => check_ranges (i + 1) rest
      end
  end.

(** [None] is the nil error: the ranges are well shaped. *)
Definition CheckRangesShape (raw : string) : option RangeShapeError :=
  match parse_json raw with
  | Some (JArray ranges) => check_ranges 0 ranges
  | Some JNull => None
  | _ => Some (mk_shape_error "" "must be an array of range objects")
  end.

(** ** Specification: the intervals a range denotes *)

(** From [from] on, below [below], up to and including [upto]; the empty
    string is no bound. *)
Record interval := mk_interval { from : string; below : string; upto : string }.

#[export] Instance interval_eq_dec : EqDecision interval.
Proof. solve_decision. Defined.

Fixpoint intervals (introduced : string) (hadIntroduced : bool) (events : list osvRangeEvent)
    : list interval :=
  match events with
  | [] => if hadIntroduced then [mk_interval introduced "" ""] else []
  | event :: rest =>
      let '(introduced, hadIntroduced) :=
        if bool_decide (Introduced event = "") then (introduced, hadIntroduced)
        else (normalizeIntroduced (Introduced event), true) in
      if opens_only event then intervals introduced hadIntroduced rest
      else mk_interval introduced (Fixed event) (LastAffected event) :: intervals "" false rest
  end.

Definition range_intervals (r : osvRange) : list interval := intervals "" false (Events r).

Definition within (cmp : string -> string -> Z) (v : string) (i : interval) : Prop :=
  (from i = "" \/ 0 <= cmp v (from i)) /\
  (below i = "" \/ cmp v (below i) < 0) /\
  (upto i = "" \/ cmp v (upto i) <= 0).

Section specification.
Context {U : UnicodeCase}.

(** [v] is in an interval of a range the matcher can compare it with. *)
Definition in_ranges (v ecosystem : string) (ranges : list osvRange) : Prop :=
  exists r i, r ∈ ranges /\ comparable v ecosystem r = true /\ i ∈ range_intervals r /\
    within (fun a b => Compare a b (Type_ r) ecosystem) v i.

(** The ranges and versions of an advisory row; [None] if they do not decode. *)
Definition advisory_ranges (json : string) : option (list osvRange) :=
  if present (TrimSpace json) then parseRanges (TrimSpace json) else Some [].

Definition advisory_versions (json : string) : option (list string) :=
  if present (TrimSpace json) then unmarshal_strings (TrimSpace json) else Some [].

Definition listed (v ecosystem : string) (versions : list string) : Prop :=
  exists c, c ∈ versions /\ versionsEqual v c ecosystem = true.

(** Nothing to decide on: no range but GIT ranges, and no version. *)
Definition no_data (ranges : list osvRange) (versions : list string) : Prop :=
  Forall (fun r => EqualFold (Type_ r) "GIT" = true) ranges /\ versions = [].

Lemma versionInRange_within cmp v i f l :
  versionInRange v i f l cmp = true <-> within cmp v (mk_interval i f l).
Proof.
  unfold versionInRange, within. simpl.
  destruct (bool_decide_reflect (i = "")), (bool_decide_reflect (f = "")),
    (bool_decide_reflect (l = "")); simpl; zbool; split; intros; try discriminate;
    repeat split; auto; destruct_and?; destruct_or?; try tauto; lia.
Qed.

Lemma match_events_spec cmp v introduced had events :
  match_events cmp v introduced had events = true <->
  exists i, i ∈ intervals introduced had events /\ within cmp v i.
Proof.
  revert introduced had. induction events as [|e events IH]; intros introduced had.
  - simpl. destruct had; simpl.
    + setoid_rewrite list_elem_of_singleton. rewrite orb_true_iff, bool_decide_eq_true, Z.leb_le.
      unfold within. naive_solver.
    + setoid_rewrite elem_of_nil. naive_solver.
  - cbn [match_events intervals].
    destruct (if bool_decide (Introduced e = "") then _ else _) as [intro' had'].
    destruct (opens_only e); [apply IH|]. setoid_rewrite elem_of_cons.
    destruct (versionInRange v intro' (Fixed e) (LastAffected e) cmp) eqn:E.
    + apply versionInRange_within in E. naive_solver.
    + rewrite IH. assert (~ within cmp v (mk_interval intro' (Fixed e) (LastAffected e))).
      { rewrite <- versionInRange_within. congruence. }
      naive_solver.
Qed.

Lemma in_ranges_cons v eco r rs :
  in_ranges v eco (r :: rs) <->
  (comparable v eco r = true /\
     match_events (fun a b => Compare a b (Type_ r) eco) v "" false (Events r) = true)
  \/ in_ranges v eco rs.
Proof.
  unfold in_ranges. setoid_rewrite elem_of_cons. rewrite match_events_spec. unfold range_intervals.
  naive_solver.
Qed.

(** The matcher decides membership, and counts the ranges that are not GIT. *)
Lemma match_ranges_loop_spec v eco ranges n :
  match match_ranges_loop v eco ranges n with
  | (true, _) => in_ranges v eco ranges
  | (false, m) =>
      ~ in_ranges v eco ranges /\ n <= m /\
      (m = n <-> Forall (fun r => EqualFold (Type_ r) "GIT" = true) ranges)
  end.
Proof.
  revert n. induction ranges as [|r rs IH]; intros n.
  - simpl. split_and!; [|lia|by split]. unfold in_ranges. setoid_rewrite elem_of_nil. naive_solver.
  - pose proof (in_ranges_cons v eco r rs) as Hin. cbn [match_ranges_loop].
    pose proof (Forall_cons (fun r => EqualFold (Type_ r) "GIT" = true) r rs) as Hall.
    unfold comparable in Hin. destruct (EqualFold (Type_ r) "GIT") eqn:Eg; simpl in *.
    { specialize (IH n). destruct (match_ranges_loop v eco rs n) as [[] m]; intuition congruence. }
    specialize (IH (n + 1)).
    destruct (skipRangeComparisonForVersion v (Type_ r) eco) eqn:Es; simpl in *.
    { destruct (match_ranges_loop v eco rs (n + 1)) as [[] m]; intuition (congruence || lia). }
    destruct (match_events _ v "" false (Events r)) eqn:Em; [tauto|].
    destruct (match_ranges_loop v eco rs (n + 1)) as [[] m]; intuition (congruence || lia).
Qed.

Lemma ranges_result v rj eco :
  (if present (TrimSpace rj) then matchRanges v (TrimSpace rj) eco else Some (false, 0)) =
  (ranges ← advisory_ranges rj; Some (match_ranges_loop v eco ranges 0)).
Proof. unfold advisory_ranges, matchRanges. by destruct (present _). Qed.

Lemma existsb_listed v eco versions :
  existsb (fun c => versionsEqual v c eco) versions = true <-> listed v eco versions.
Proof.
  rewrite existsb_exists. unfold listed. setoid_rewrite list_elem_of_In. naive_solver.
Qed.

(** [VersionAffected] in terms of the decoded advisory. *)
Lemma VersionAffected_cases v rj vj eco :
  VersionAffected v rj vj eco =
  match advisory_ranges rj with
  | None => (true, true)
  | Some ranges =>
      let '(hit, count) := match_ranges_loop v eco ranges 0 in
      if hit then (true, false)
      else match advisory_versions vj with
           | None => (true, true)
           | Some versions =>
               if existsb (fun c => versionsEqual v c eco) versions then (true, false)
               else if (0 <? count) || negb (bool_decide (versions = [])) then (false, false)
               else (true, false)
           end
  end.
Proof.
  unfold VersionAffected. cbv zeta. rewrite ranges_result.
  destruct (advisory_ranges rj) as [ranges|]; [|done]. simpl.
  by destruct (match_ranges_loop v eco ranges 0) as [[] count].
Qed.

(** The decision on decoded data. *)
Lemma VersionAffected_decoded v rj vj eco ranges versions :
  advisory_ranges rj = Some ranges -> advisory_versions vj = Some versions ->
  (VersionAffected v rj vj eco).2 = false /\
  ((VersionAffected v rj vj eco).1 = true <->
   in_ranges v eco ranges \/ listed v eco versions \/ no_data ranges versions).
Proof.
  intros Hr Hv. rewrite VersionAffected_cases, Hr, Hv.
  pose proof (match_ranges_loop_spec v eco ranges 0) as Hm.
  pose proof (existsb_listed v eco versions) as Hl. unfold no_data.
  destruct (match_ranges_loop v eco ranges 0) as [[] m]; simpl; [naive_solver|].
  destruct (existsb _ versions); simpl; [naive_solver|].
  destruct Hm as (Hin & Hpos & Hgit). split; [by destruct ((0 <? m) || _)|].
  destruct (Z.ltb_spec 0 m) as [Hm|Hm]; simpl.
  - split; [done|]. intros [?|[?|[Hg _]]]; [tauto | naive_solver |].
    apply Hgit in Hg. lia.
  - assert (m = 0) as E by lia. apply Hgit in E.
    destruct (bool_decide_reflect (versions = [])); naive_solver.
Qed.

(** ** Order properties of matching *)

Section order.
Context (cmp : string -> string -> Z) {Hcmp : GoOrder cmp}.

#[export] Instance within_proper : Proper (go_equiv cmp ==> eq ==> iff) (within cmp).
Proof. intros u v E i ? <-. unfold within. by rewrite !(go_eq_l cmp u v _ E). Qed.

Lemma within_convex u v w i :
  cmp u v <= 0 -> cmp v w <= 0 -> within cmp u i -> within cmp w i -> within cmp v i.
Proof.
  intros Huv Hvw [Hu1 _] (_ & Hw2 & Hw3). unfold within.
  pose proof (go_anti (f := cmp) u v). pose proof (go_anti (f := cmp) v (from i)).
  split_and!.
  - destruct Hu1; [by left|right]. apply (go_ge_trans cmp v u); lia.
  - destruct Hw2; [by left|right]. apply (go_le_lt_trans cmp v w); lia.
  - destruct Hw3; [by left|right]. apply (go_trans v w); lia.
Qed.
End order.
End specification.

(** ** Fix advice against the intervals *)

Section fixes.
Context {U : UnicodeCase}.

(** [f] ends an interval of a comparable range that [installed] is in. *)
Definition fixes (installed ecosystem : string) (ranges : list osvRange) (f : string) : Prop :=
  exists r i, r ∈ ranges /\ comparable installed ecosystem r = true /\ i ∈ range_intervals r /\
    within (fun a b => Compare a b (Type_ r) ecosystem) installed i /\ below i = f /\ f <> "".

Lemma fix_in_events_spec cmp v introduced had events :
  match fix_in_events cmp v introduced events with
  | Some f => exists i, i ∈ intervals introduced had events /\ within cmp v i /\ below i = f /\ f <> ""
  | None => forall i, i ∈ intervals introduced had events -> within cmp v i -> below i = ""
  end.
Proof.
  revert introduced had. induction events as [|e events IH]; intros introduced had.
  - simpl. destruct had; [|by intros i ?%elem_of_nil].
    by intros i ->%list_elem_of_singleton.
  - cbn [fix_in_events intervals].
    destruct (bool_decide_reflect (Introduced e = "")) as [_|_];
      (destruct (opens_only e); [apply IH|]);
      (match goal with |- context [versionInRange v ?i ?f ?l cmp] =>
         pose proof (versionInRange_within cmp v i f l) as Hw;
         destruct (versionInRange v i f l cmp) end);
      (destruct (bool_decide_reflect (Fixed e = "")) as [Ef|Ef]; simpl);
      specialize (IH "" false);
      try (destruct (fix_in_events cmp v "" events)); setoid_rewrite elem_of_cons;
      first [ eexists; split_and!; [by left | by apply Hw | done | done] | naive_solver ].
Qed.

Lemma fix_in_ranges_spec v eco ranges :
  match fix_in_ranges v eco ranges with
  | Some f => fixes v eco ranges f
  | None => forall f, ~ fixes v eco ranges f
  end.
Proof.
  induction ranges as [|r rs IH]; simpl.
  - intros f (r & i & ?%elem_of_nil & _). done.
  - assert (forall f, fixes v eco (r :: rs) f <-> fixes v eco [r] f \/ fixes v eco rs f) as Hsplit.
    { intros f. unfold fixes. setoid_rewrite elem_of_cons. setoid_rewrite elem_of_nil. naive_solver. }
    assert (forall f, comparable v eco r = false -> ~ fixes v eco [r] f) as Hskip.
    { intros f Hc (? & ? & ->%list_elem_of_singleton & ? & _). congruence. }
    unfold comparable in Hskip.
    destruct (EqualFold (Type_ r) "GIT") eqn:Eg; simpl in Hskip.
    { destruct (fix_in_ranges v eco rs); naive_solver. }
    destruct (skipRangeComparisonForVersion v (Type_ r) eco) eqn:Es; simpl in Hskip.
    { destruct (fix_in_ranges v eco rs); naive_solver. }
    pose proof (fix_in_events_spec (fun a b => Compare a b (Type_ r) eco) v "" false (Events r)) as He.
    destruct (fix_in_events _ v "" (Events r)) as [f|].
    + destruct He as (i & ? & ? & ? & ?). apply Hsplit. left. exists r, i.
      rewrite list_elem_of_singleton. unfold comparable. rewrite Eg, Es. naive_solver.
    + assert (forall f, ~ fixes v eco [r] f) as Hno.
      { intros f (? & i & ->%list_elem_of_singleton & _ & Hi & Hw & Hf & Hne).
        apply Hne. rewrite <- Hf. by apply He. }
      destruct (fix_in_ranges v eco rs); naive_solver.
Qed.

(** Every fixed version the ranges name. *)
Definition fixed_versions (ranges : list osvRange) : list string :=
  filter (.≠ "") (Fixed <$> (ranges ≫= Events)).

(** [best] is the lowest of [l] under [compareSemver], or empty if [l] is. *)
Definition lowest (best : string) (l : list string) : Prop :=
  (best = "" <-> l = []) /\
  (l <> [] -> best ∈ l /\ forall f, f ∈ l -> compareSemver best f <= 0).

Lemma lowest_snoc best l f :
  f <> "" -> lowest best l ->
  lowest (if bool_decide (best = "") || (compareSemver f best <? 0) then f else best) (l ++ [f]).
Proof.
  intros Hf [Hnil Hmin]. split.
  { split; intros E; [|by destruct l]. destruct (_ || _) eqn:Eb in E; [done|].
    apply orb_false_iff in Eb as [Eb%bool_decide_eq_false _]. done. }
  intros _. setoid_rewrite elem_of_app. setoid_rewrite list_elem_of_singleton.
  destruct (bool_decide_reflect (best = "")) as [->|Hb]; simpl.
  { split; [by right|]. rewrite (proj1 Hnil eq_refl). intros g [?%elem_of_nil| ->]; [done|].
    by rewrite (go_refl compareSemver). }
  destruct Hmin as [Hin Hle]; [naive_solver|].
  destruct (Z.ltb_spec (compareSemver f best) 0).
  - split; [by right|]. intros g [Hg| ->]; [|by rewrite (go_refl compareSemver)].
    apply (go_trans f best g); [lia|auto].
  - split; [by left|]. intros g [Hg| ->]; [auto|].
    pose proof (go_anti (f := compareSemver) f best). lia.
Qed.

Lemma lowest_fixed_spec events best l :
  lowest best l -> lowest (lowest_fixed best events) (l ++ filter (.≠ "") (Fixed <$> events)).
Proof.
  revert best l. induction events as [|e events IH]; intros best l H; simpl.
  { by rewrite app_nil_r. }
  destruct (bool_decide_reflect (Fixed e = "")) as [E|E].
  - rewrite filter_cons_False by naive_solver. auto.
  - rewrite filter_cons_True by done. pose proof (lowest_snoc best l (Fixed e) E H) as H'.
    rewrite cons_middle, app_assoc. destruct (_ || _); by apply IH.
Qed.

Lemma lowest_fixed_ranges ranges best l :
  lowest best l ->
  lowest (fold_left (fun best r => lowest_fixed best (Events r)) ranges best)
         (l ++ fixed_versions ranges).
Proof.
  revert best l. unfold fixed_versions.
  induction ranges as [|r rs IH]; intros best l H; simpl; [by rewrite app_nil_r|].
  rewrite fmap_app, filter_app, app_assoc. apply IH. by apply lowest_fixed_spec.
Qed.

(** The fallback advice on decoded ranges. *)
Lemma ExtractFixedVersion_ranges rj ranges :
  advisory_ranges rj = Some ranges -> lowest (ExtractFixedVersion rj) (fixed_versions ranges).
Proof.
  unfold advisory_ranges, ExtractFixedVersion. destruct (present (TrimSpace rj)); simpl.
  - intros ->. apply (lowest_fixed_ranges ranges "" []). split; [done|]. by intros [].
  - intros [= <-]. split; [done|]. by intros [].
Qed.
End fixes.

(** ** Flat ranges *)

Section flat.
Context {U : UnicodeCase}.

(** A flat range states one upper bound at most. *)
Definition flat_ok (f : flatRange) : Prop := flatFixed f = "" \/ flatLastAffected f = "".

Definition flat_nonempty (f : flatRange) : Prop := f <> empty_flat.

Definition flat_interval (f : flatRange) : interval :=
  mk_interval (normalizeIntroduced (flatIntroduced f)) (flatFixed f) (flatLastAffected f).

Lemma flat_events_intervals f :
  flat_ok f -> flat_nonempty f ->
  flat_events f <> [] /\ intervals "" false (flat_events f) = [flat_interval f].
Proof.
  destruct f as [i x l]. unfold flat_ok, flat_nonempty, flat_events, flat_interval, empty_flat. simpl.
  intros Hok Hne.
  destruct (bool_decide_reflect (i = "")) as [->|Hi], (bool_decide_reflect (x = "")) as [->|Hx],
    (bool_decide_reflect (l = "")) as [->|Hl]; try (naive_solver; fail); simpl;
    unfold opens_only; simpl; rewrite ?bool_decide_true by done;
    rewrite ?(bool_decide_false _ Hi), ?(bool_decide_false _ Hx), ?(bool_decide_false _ Hl);
    simpl; rewrite ?bool_decide_true by done; done.
Qed.

Lemma flatToFull_in_ranges v eco fs :
  Forall flat_ok fs ->
  in_ranges v eco (flatToFull fs) <->
  skipRangeComparisonForVersion v "SEMVER" eco = false /\
  exists f, f ∈ fs /\ flat_nonempty f /\
    within (fun a b => Compare a b "SEMVER" eco) v (flat_interval f).
Proof.
  induction 1 as [|f fs Hok _ IH].
  { split; [intros (? & ? & ?%elem_of_nil & _) | intros (_ & ? & ?%elem_of_nil & _)]; done. }
  assert (comparable v eco (mk_range "SEMVER" (flat_events f)) =
          negb (skipRangeComparisonForVersion v "SEMVER" eco)) as Hc by reflexivity.
  setoid_rewrite elem_of_cons. simpl. destruct (decide (f = empty_flat)) as [->|Hne].
  - simpl. rewrite IH. unfold flat_nonempty. naive_solver.
  - destruct (flat_events_intervals f Hok Hne) as [Hev Hint].
    destruct (flat_events f) as [|e es] eqn:E; [done|].
    rewrite in_ranges_cons, Hc, match_events_spec. simpl Events. simpl Type_. rewrite Hint.
    setoid_rewrite list_elem_of_singleton. rewrite IH.
    destruct (skipRangeComparisonForVersion v "SEMVER" eco); naive_solver.
Qed.

Lemma flatToFull_all_git fs :
  Forall flat_ok fs ->
  Forall (fun r => EqualFold (Type_ r) "GIT" = true) (flatToFull fs) <-> Forall (.= empty_flat) fs.
Proof.
  induction 1 as [|f fs Hok _ IH]; [done|]. simpl. rewrite Forall_cons, <- IH.
  destruct (decide (f = empty_flat)) as [->|Hne]; [simpl; tauto|].
  destruct (flat_events_intervals f Hok Hne) as [Hev _].
  destruct (flat_events f) as [|e es]; [done|]. rewrite Forall_cons. simpl.
  split; [|tauto]. intros [H _]. exfalso. revert H. by vm_compute.
Qed.
End flat.

(** ** Stored ranges decode *)

Section shape.
Context {U : UnicodeCase}.

(** Every key occurs once, and none matches a field only by case folding. *)
Definition plain_keys (names : list string) (members : list (string * json)) : Prop :=
  NoDup members.*1 /\
  Forall (fun k => k ∉ names -> struct_field names k = None) members.*1.

Definition plain_object (names : list string) (v : json) : Prop :=
  match v with JObject members => plain_keys names members | _ => True end.

Definition plain_range (v : json) : Prop :=
  match v with
  | JObject members =>
      plain_keys range_names members /\
      match raw_member members "events" with
      | Some (JArray events) => Forall (plain_object event_names) events
      | _ => True
      end
  | _ => True
  end.

Definition plain_ranges (v : json) : Prop :=
  match v with JArray ranges => Forall plain_range ranges | _ => True end.

Lemma raw_member_Some members k v : raw_member members k = Some v -> (k, v) ∈ members.
Proof.
  induction members as [|[k' v'] members IH]; simpl; [done|]. rewrite elem_of_cons.
  destruct (raw_member members k); [naive_solver|]. case_bool_decide; naive_solver.
Qed.

Lemma raw_member_elem members k v :
  NoDup members.*1 -> (k, v) ∈ members -> raw_member members k = Some v.
Proof.
  induction members as [|[k' v'] members IH]; simpl; intros Hnd Hin; [by apply elem_of_nil in Hin|].
  apply NoDup_cons in Hnd as [Hnot Hnd]. apply elem_of_cons in Hin as [[= -> ->]|Hin].
  - destruct (raw_member members k') as [w|] eqn:E; [|by rewrite bool_decide_true].
    destruct Hnot. apply list_elem_of_fmap. exists (k', w). by apply raw_member_Some in E.
  - by rewrite (IH Hnd Hin).
Qed.

Lemma struct_field_in names k : k ∈ names -> struct_field names k = Some k.
Proof. intros H. unfold struct_field. by rewrite bool_decide_true. Qed.

(** What a struct decodes to, when each key of a field is decodable; [P] is
    what the members decoded so far establish. *)
Lemma dec_members_ind {A} names (set : string -> decoder A) (P : list (string * json) -> A -> Prop)
    members done cur :
  plain_keys names (done ++ members) -> P done cur ->
  (forall done k v cur, (k, v) ∈ members -> k ∉ done.*1 -> k ∈ names -> P done cur ->
     exists cur', set k v cur = Some cur' /\ P (done ++ [(k, v)]) cur') ->
  (forall done k v cur, k ∉ names -> P done cur -> P (done ++ [(k, v)]) cur) ->
  exists cur', dec_members names set members cur = Some cur' /\ P (done ++ members) cur'.
Proof.
  revert done cur. induction members as [|[k v] members IH]; intros done cur Hp HP Hset Hskip.
  { exists cur. by rewrite app_nil_r. }
  simpl. rewrite cons_middle, app_assoc in *. 
  assert (k ∉ done.*1 /\ (k ∉ names -> struct_field names k = None)) as [Hk Hf].
  { destruct Hp as [Hnd Hall]. rewrite !fmap_app in *. simpl in *. split.
    - apply NoDup_app in Hnd as [Hnd _]. apply NoDup_app in Hnd as (_ & Hdisj & _).
      intros Hin. apply (Hdisj k Hin). by left.
    - rewrite Forall_forall in Hall. apply Hall. rewrite !elem_of_app. left. right. by left. }
  assert (forall done k v cur, (k, v) ∈ members -> k ∉ done.*1 -> k ∈ names -> P done cur ->
     exists cur', set k v cur = Some cur' /\ P (done ++ [(k, v)]) cur') as Hset'.
  { intros ? ? ? ? ?. apply Hset. by right. }
  destruct (decide (k ∈ names)) as [Hin|Hout].
  - rewrite (struct_field_in names k Hin).
    destruct (Hset done k v cur) as (cur' & -> & HP'); [by left|done..|]. simpl. by apply IH.
  - rewrite (Hf Hout). apply IH; auto.
Qed.
(** A decodable boundary or type value. *)
Definition string_or_null (v : json) : Prop := is_Some (dec_string_ptr v).

Lemma dec_string_ok v cur : string_or_null v -> exists s, dec_string v cur = Some s.
Proof. intros [? H]. destruct v; simpl in *; naive_solver. Qed.

Definition event_field (name : string) (e : osvRangeEvent) : string :=
  if bool_decide (name = "introduced") then Introduced e
  else if bool_decide (name = "fixed") then Fixed e
  else if bool_decide (name = "last_affected") then LastAffected e
  else Limit e.

Lemma set_event_field_spec name v e s :
  name ∈ event_names -> dec_string v (event_field name e) = Some s ->
  exists e', set_event_field name v e = Some e' /\
    forall n, n ∈ event_names -> event_field n e' = if bool_decide (n = name) then s else event_field n e.
Proof.
  intros Hn Hs. unfold event_names in *. rewrite !elem_of_cons, elem_of_nil in Hn.
  destruct_or? Hn; try done; subst name; unfold set_event_field, event_field in *; simpl in *;
    rewrite Hs; simpl; eexists; (split; [done|]); intros n Hn;
    rewrite !elem_of_cons, elem_of_nil in Hn; destruct_or? Hn; try done; subst n; done.
Qed.

(** The boundary loop fails on a value that is neither a string nor null, and
    otherwise looks for a nonblank string. *)
Lemma boundary_loop_inr event path keys had b :
  boundary_loop event path keys had = inr b ->
  (forall k v, k ∈ keys -> raw_member event k = Some v -> string_or_null v) /\
  (b = true -> had = true \/ exists k s, k ∈ keys /\ raw_member event k = Some (JString s) /\ TrimSpace s <> "").
Proof.
  revert had. induction keys as [|k keys IH]; intros had; simpl.
  { intros [= ->]. split; [by intros ? ? ?%elem_of_nil | auto]. }
  setoid_rewrite elem_of_cons.
  destruct (raw_member event k) as [w|] eqn:E.
  - destruct (dec_string_ptr w) as [o|] eqn:Ew; [|done]. intros H. apply IH in H as [H1 H2]. split.
    + intros k' v [->|?] ?; [|eauto]. assert (v = w) as -> by congruence. by exists o.
    + intros ->. destruct H2 as [H2|(k' & s & ? & ?)]; [done| |naive_solver].
      apply orb_true_iff in H2 as [H2|H2]; [auto|]. destruct o as [s|]; [|done].
      destruct w; simplify_eq/=. right. exists k, s. apply negb_true_iff, bool_decide_eq_false in H2.
      auto.
  - intros H. apply IH in H as [H1 H2]. split; naive_solver.
Qed.

Definition has_boundary (e : osvRangeEvent) : Prop :=
  exists n, n ∈ event_names /\ TrimSpace (event_field n e) <> "".

(** An event that passes the check decodes, with a nonblank boundary. *)
Lemma event_shape_decodes v path :
  plain_object event_names v -> checkRangeEventShape v path = None ->
  exists e, dec_event v empty_event = Some e /\ has_boundary e.
Proof.
  destruct v as [| | | | |members]; try done. intros Hp Hc. unfold checkRangeEventShape in Hc.
  destruct (boundary_loop members path rangeBoundaryKeys false) as [|[]] eqn:E; try discriminate.
  apply boundary_loop_inr in E as [Hdec Hhas].
  destruct (Hhas eq_refl) as [?|(k & s & Hk & Hraw & Hs)]; [done|].
  destruct (dec_members_ind event_names set_event_field
    (fun seen e => (k, JString s) ∈ seen -> event_field k e = s) members [] empty_event)
    as (e & He & HP).
  - done.
  - by intros ?%elem_of_nil.
  - intros seen k' v e Hin Hnew Hk' HP.
    destruct (dec_string_ok v (event_field k' e)) as [s' Hs'].
    { apply (Hdec k' v); [done|]. apply raw_member_elem; [apply Hp | done]. }
    destruct (set_event_field_spec k' v e s' Hk' Hs') as (e' & He' & Hf).
    exists e'. split; [done|]. rewrite Hf by done. intros [H|[= -> <-]%list_elem_of_singleton]%elem_of_app.
    + rewrite bool_decide_false; [auto|]. intros ->. apply Hnew, list_elem_of_fmap.
      by exists (k', JString s).
    + rewrite bool_decide_true by done. naive_solver.
  - intros seen k' v e Hk' HP [H|[= -> <-]%list_elem_of_singleton]%elem_of_app; [auto|done].
  - exists e. split; [done|]. exists k. split; [done|]. by rewrite HP by (by apply raw_member_Some).
Qed.
(** Decoding an array into a nil slice, element by element. *)
Lemma dec_elems_forall {A} (zero : A) (dec : decoder A) (P : A -> Prop) arr :
  Forall (fun v => exists x, dec v zero = Some x /\ P x) arr ->
  exists xs, dec_elems zero dec arr [] = Some xs /\ length xs = length arr /\ Forall P xs.
Proof.
  induction 1 as [|v arr (x & Hx & HP) _ (xs & Hxs & Hlen & Hall)]; simpl; [by exists []|].
  rewrite Hx, Hxs. exists (x :: xs). simpl. auto.
Qed.

Lemma dec_slice_forall {A} (zero : A) (dec : decoder A) (P : A -> Prop) arr :
  Forall (fun v => exists x, dec v zero = Some x /\ P x) arr ->
  exists sl, dec_slice zero dec (JArray arr) nil_slice = Some sl /\
    length (elems sl) = length arr /\ Forall P (elems sl).
Proof.
  intros H. destruct arr as [|v arr]; [by exists nil_slice|].
  destruct (dec_elems_forall zero dec P (v :: arr) H) as (xs & Hxs & Hlen & Hall).
  unfold dec_slice. simpl backing. rewrite Hxs. simpl. eexists. split; [done|].
  simpl in Hlen. unfold elems. cbn [used backing]. rewrite take_app_le, take_ge by lia. auto.
Qed.

Lemma check_events_forall path j events :
  check_events path j events = None ->
  Forall (fun v => exists p, checkRangeEventShape v p = None) events.
Proof.
  revert j. induction events as [|v events IH]; intros j; cbn [check_events]; [done|].
  destruct (checkRangeEventShape v _) eqn:E; [done|]. constructor; eauto.
Qed.

Definition stored_range (r : osvRange) : Prop := Events r <> [] /\ Forall has_boundary (Events r).

(** A range that passes the check has a decodable type and events. *)
Lemma check_range_inv i v :
  check_range i v = None ->
  exists members events, v = JObject members /\
    (forall t, raw_member members "type" = Some t -> string_or_null t) /\
    raw_member members "events" = Some (JArray events) /\ events <> [] /\
    Forall (fun v => exists p, checkRangeEventShape v p = None) events.
Proof.
  destruct v as [| | | | |members]; try done. unfold check_range. intros H.
  assert (forall t, raw_member members "type" = Some t -> string_or_null t) as Ht.
  { intros t Et. rewrite Et in H. unfold string_or_null. simpl in H.
    destruct (dec_string_ptr t); [by eexists | done]. }
  destruct (raw_member members "type" ≫= _) as [[|]|]; try done;
    (destruct (raw_member members "events") as [[| | | |[|e events]|]|] eqn:Ee; try done);
    apply check_events_forall in H; exists members, (e :: events); naive_solver.
Qed.

Lemma range_shape_decodes i v :
  plain_range v -> check_range i v = None ->
  exists r, dec_range v empty_range_var = Some r /\ stored_range (range_of_var r).
Proof.
  intros Hp (members & events & -> & Ht & He & Hne & Hev)%check_range_inv.
  destruct Hp as [Hp Hevents]. rewrite He in Hevents.
  assert (Forall (fun v => exists e, dec_event v empty_event = Some e /\ has_boundary e) events) as Hdec.
  { rewrite !Forall_forall in *. intros w Hw. destruct (Hev w Hw) as [p Hc].
    by apply (event_shape_decodes w p); [apply Hevents|]. }
  destruct (dec_slice_forall empty_event dec_event has_boundary events Hdec) as (sl & Hsl & Hlen & Hall).
  destruct (dec_members_ind range_names set_range_field
    (fun seen r => (("events" ∉ seen.*1) -> r.2 = nil_slice) /\ ("events" ∈ seen.*1 -> r.2 = sl))
    members [] empty_range_var) as (r & Hr & _ & Hsl').
  - done.
  - split; [done|]. by intros ?%elem_of_nil.
  - intros seen k v r Hin Hnew Hk [Hnil Hdone]. rewrite fmap_app. simpl.
    setoid_rewrite elem_of_app. setoid_rewrite list_elem_of_singleton.
    apply (raw_member_elem _ _ _ (proj1 Hp)) in Hin.
    unfold range_names in Hk. rewrite !elem_of_cons, elem_of_nil in Hk.
    destruct Hk as [->|[->|[]]]; unfold set_range_field; simpl.
    + destruct (dec_string_ok v r.1 (Ht v Hin)) as [s ->]. simpl. eexists. split; [done|]. simpl.
      split; naive_solver.
    + assert (v = JArray events) as -> by congruence. rewrite (Hnil Hnew), Hsl. simpl.
      eexists. split; [done|]. simpl. naive_solver.
  - intros seen k v r Hk HP. rewrite fmap_app. simpl.
    setoid_rewrite elem_of_app. setoid_rewrite list_elem_of_singleton.
    assert ("events" <> k) by (intros <-; apply Hk; decided). naive_solver.
  - exists r. split; [done|]. unfold stored_range, range_of_var. simpl. rewrite Hsl'.
    + split; [|done]. intros E. rewrite E in Hlen. by destruct events.
    + apply list_elem_of_fmap. exists ("events", JArray events). split; [done|].
      by apply raw_member_Some.
Qed.

Lemma check_ranges_forall i ranges :
  check_ranges i ranges = None -> Forall (fun v => exists j, check_range j v = None) ranges.
Proof.
  revert i. induction ranges as [|v ranges IH]; intros i; cbn [check_ranges]; [done|].
  destruct (check_range i v) eqn:E; [done|]. constructor; eauto.
Qed.

Lemma stored_not_flat ranges raw : Forall stored_range ranges -> isFlatFormat ranges raw = false.
Proof.
  destruct 1 as [|r rs [Hne _] _]; [done|]. simpl. by rewrite bool_decide_false.
Qed.

Lemma CheckRangesShape_decodes raw v :
  CheckRangesShape raw = None -> parse_json raw = Some v -> plain_ranges v ->
  exists ranges, parseRanges raw = Some ranges /\ Forall stored_range ranges.
Proof.
  unfold CheckRangesShape, parseRanges, unmarshal_ranges, unmarshal. intros Hc Hv Hp. rewrite Hv in *.
  destruct v as [| | | |arr|]; try done.
  { exists []. auto. }
  assert (Forall (fun v => exists r, dec_range v empty_range_var = Some r /\
            stored_range (range_of_var r)) arr) as Hdec.
  { apply check_ranges_forall in Hc. simpl in Hp. rewrite !Forall_forall in *. intros w Hw.
    destruct (Hc w Hw) as [j Hj]. by apply (range_shape_decodes j w); [apply Hp|]. }
  destruct (dec_slice_forall empty_range_var dec_range _ arr Hdec) as (sl & Hsl & _ & Hall).
  cbn [mbind option_bind]. rewrite Hsl. cbn [mbind option_bind].
  assert (Forall stored_range (range_of_var <$> elems sl)) as H by (by apply Forall_fmap).
  rewrite (stored_not_flat _ _ H). eauto.
Qed.
End shape.

(** ** Theorems *)

Section theorems.
Context {U : UnicodeCase}.

(** What it takes for [VersionAffected] to say no. *)
Definition ruled_out (v eco rangesJSON versionsJSON : string) : Prop :=
  exists ranges versions,
    advisory_ranges rangesJSON = Some ranges /\ advisory_versions versionsJSON = Some versions /\
    ~ in_ranges v eco ranges /\ ~ listed v eco versions /\ ~ no_data ranges versions.

Lemma VersionAffected_ruled_out v rangesJSON versionsJSON eco :
  ((VersionAffected v rangesJSON versionsJSON eco).1 = false <-> ruled_out v eco rangesJSON versionsJSON) /\
  ((VersionAffected v rangesJSON versionsJSON eco).2 = true ->
   (VersionAffected v rangesJSON versionsJSON eco).1 = true).
Proof.
  assert ((VersionAffected v rangesJSON versionsJSON eco).1 = false ->
    (VersionAffected v rangesJSON versionsJSON eco).2 = false /\
    exists ranges versions, advisory_ranges rangesJSON = Some ranges /\
      advisory_versions versionsJSON = Some versions) as Hfalse.
  { rewrite VersionAffected_cases. destruct (advisory_ranges rangesJSON); [|done].
    destruct (match_ranges_loop v eco l 0) as [[] m]; [done|].
    destruct (advisory_versions versionsJSON); [|done].
    destruct (existsb _ _); [done|]. destruct (_ || _); naive_solver. }
  split; [split|].
  - intros H. destruct (Hfalse H) as (_ & ranges & versions & Hr & Hv). exists ranges, versions.
    pose proof (VersionAffected_decoded v rangesJSON versionsJSON eco ranges versions Hr Hv) as [_ Hd].
    rewrite H in Hd. naive_solver.
  - intros (ranges & versions & Hr & Hv & Hno).
    destruct (VersionAffected_decoded v rangesJSON versionsJSON eco ranges versions Hr Hv) as [_ Hd].
    apply not_true_is_false. naive_solver.
  - intros He. apply not_false_is_true. intros H. apply Hfalse in H as [H _]. congruence.
Qed.

(** C1: when the ranges and versions of an advisory decode, [VersionAffected]
    reports no error, and reports the version affected exactly when it lies in
    an interval of a range it can be compared with, or is one of the listed
    versions, or the advisory states nothing to decide on (only GIT ranges and
    no version). *)
Theorem VersionAffected_decides v rangesJSON versionsJSON eco ranges versions :
  advisory_ranges rangesJSON = Some ranges -> advisory_versions versionsJSON = Some versions ->
  (VersionAffected v rangesJSON versionsJSON eco).2 = false /\
  ((VersionAffected v rangesJSON versionsJSON eco).1 = true <->
   in_ranges v eco ranges \/ listed v eco versions \/ no_data ranges versions).
Proof. apply VersionAffected_decoded. Qed.

(** C2: the matcher fails safe.  A version is reported unaffected only when
    both texts decoded, something was stated, and the version is neither in an
    interval nor listed; an error is always reported together with
    "affected". *)
Theorem VersionAffected_fails_safe v rangesJSON versionsJSON eco :
  ((VersionAffected v rangesJSON versionsJSON eco).1 = false <->
   exists ranges versions,
     advisory_ranges rangesJSON = Some ranges /\ advisory_versions versionsJSON = Some versions /\
     ~ in_ranges v eco ranges /\ ~ listed v eco versions /\ ~ no_data ranges versions) /\
  ((VersionAffected v rangesJSON versionsJSON eco).2 = true ->
   (VersionAffected v rangesJSON versionsJSON eco).1 = true).
Proof. apply VersionAffected_ruled_out. Qed.

(** Within a range, versions that compare equal are matched alike, and a
    range that denotes one interval matches every version between two versions
    it matches. *)
Theorem range_match_respects_order r eco :
  let cmp a b := Compare a b (Type_ r) eco in
  let hit v := match_events cmp v "" false (Events r) in
  (forall u v, cmp u v = 0 -> hit u = hit v) /\
  (forall i u v w, range_intervals r = [i] -> cmp u v <= 0 -> cmp v w <= 0 ->
     hit u = true -> hit w = true -> hit v = true).
Proof.
  intros cmp hit. assert (GoOrder cmp) as Hc by apply Compare_order. unfold hit. split.
  - intros u v E. apply eq_true_iff_eq. rewrite !match_events_spec.
    pose proof (within_proper cmp u v E) as Hp. split; intros (i & Hi & Hw); exists i;
      (split; [done|]); by eapply Hp.
  - intros i u v w Hi Huv Hvw. rewrite !match_events_spec. fold (range_intervals r). rewrite Hi.
    intros (? & ->%list_elem_of_singleton & Hu) (? & ->%list_elem_of_singleton & Hw).
    exists i. split; [by apply list_elem_of_singleton|]. by apply (within_convex cmp u v w).
Qed.


(** Without regard to the installed version, [ExtractFixedVersion]
    returns the lowest fixed version of all ranges under semver order, and the
    empty string exactly when no range names one or the ranges do not decode. *)
Theorem ExtractFixedVersion_lowest rangesJSON :
  match advisory_ranges rangesJSON with
  | Some ranges =>
      let best := ExtractFixedVersion rangesJSON in
      (best = "" <-> fixed_versions ranges = []) /\
      (fixed_versions ranges <> [] -> best ∈ fixed_versions ranges /\
         forall f, f ∈ fixed_versions ranges -> compareSemver best f <= 0)
  | None => ExtractFixedVersion rangesJSON = ""
  end.
Proof.
  destruct (advisory_ranges rangesJSON) as [ranges|] eqn:E.
  - by apply ExtractFixedVersion_ranges.
  - unfold advisory_ranges, ExtractFixedVersion in *. by destruct (present _); [rewrite E|].
Qed.

(** The flat format means what it says.  A version is affected by flat
    ranges exactly when some non-empty entry has it at or after [introduced]
    (0 is the beginning), before [fixed] and not after [last_affected], or the
    version is listed, or there is nothing to decide on. *)
Theorem flat_ranges_affected v rangesJSON versionsJSON eco full fs versions :
  present (TrimSpace rangesJSON) = true ->
  unmarshal_ranges (TrimSpace rangesJSON) = Some full ->
  isFlatFormat full (TrimSpace rangesJSON) = true ->
  unmarshal_flat (TrimSpace rangesJSON) = Some fs -> Forall flat_ok fs ->
  advisory_versions versionsJSON = Some versions ->
  skipRangeComparisonForVersion v "SEMVER" eco = false ->
  (VersionAffected v rangesJSON versionsJSON eco).2 = false /\
  ((VersionAffected v rangesJSON versionsJSON eco).1 = true <->
   (exists f, f ∈ fs /\ flat_nonempty f /\
      within (fun a b => Compare a b "SEMVER" eco) v (flat_interval f)) \/
   listed v eco versions \/
   (Forall (.= empty_flat) fs /\ versions = [])).
Proof.
  intros Hp Hfull Hflat Hfs Hok Hv Hskip.
  assert (advisory_ranges rangesJSON = Some (flatToFull fs)) as Hr.
  { unfold advisory_ranges, parseRanges. by rewrite Hp, Hfull; simpl; rewrite Hflat, Hfs. }
  destruct (VersionAffected_decoded v _ _ eco _ _ Hr Hv) as [He Hd]. split; [done|].
  rewrite Hd, (flatToFull_in_ranges v eco fs Hok). unfold no_data.
  rewrite (flatToFull_all_git fs Hok). naive_solver.
Qed.

(** Ranges that pass the stored-range check are ranges the matcher can
    use.  When no key is repeated or differs from a field name only in case,
    they decode, every range has events, every event has a nonblank boundary,
    and matching a version against them reports no error. *)
Theorem stored_ranges_match raw value :
  CheckRangesShape raw = None -> parse_json raw = Some value -> plain_ranges value ->
  (exists ranges, parseRanges raw = Some ranges /\ Forall stored_range ranges) /\
  (TrimSpace raw = raw -> forall v versionsJSON eco, advisory_versions versionsJSON <> None ->
     (VersionAffected v raw versionsJSON eco).2 = false).
Proof.
  intros Hc Hv Hp. destruct (CheckRangesShape_decodes raw value Hc Hv Hp) as (ranges & Hr & Hs).
  split; [eauto|]. intros Ht v vj eco Hvj.
  destruct (advisory_versions vj) as [versions|] eqn:Evj; [|done].
  assert (exists rs, advisory_ranges raw = Some rs) as [rs Hrs].
  { unfold advisory_ranges. rewrite Ht. destruct (present raw); eauto. }
  by destruct (VersionAffected_decoded v raw vj eco rs versions Hrs Evj).
Qed.

(** The check reads keys exactly and the last of repeated keys; the matcher
    folds case and reads them all.  Ranges that pass the check can therefore
    fail to decode, and then every version is reported affected. *)
Lemma shape_check_misses_folded_keys v :
  CheckRangesShape (json_text "[{'events':[{'introduced':'0','FIXED':5}]}]") = None /\
  VersionAffected v (json_text "[{'events':[{'introduced':'0','FIXED':5}]}]") "" "npm" = (true, true).
Proof. split; vm_compute; reflexivity. Qed.
End theorems.

(** ** Witnesses *)

Section witnesses.
#[local] Instance ranges_witness_case : UnicodeCase := plain_case.

Definition sample_ranges : string :=
  json_text "[{'type':'SEMVER','events':[{'introduced':'1.0.0'},{'fixed':'1.4.2'},{'introduced':'2.0.0'},{'fixed':'2.1.0'}]}]".

Definition sample_decoded : list osvRange :=
  [mk_range "SEMVER" [mk_event "1.0.0" "" "" ""; mk_event "" "1.4.2" "" "";
                      mk_event "2.0.0" "" "" ""; mk_event "" "2.1.0" "" ""]].

Lemma VersionAffected_decides_witness :
  (VersionAffected "1.4.1" sample_ranges "" "npm").1 = true <->
  in_ranges "1.4.1" "npm" sample_decoded \/ listed "1.4.1" "npm" [] \/ no_data sample_decoded [].
Proof.
  apply (VersionAffected_decides "1.4.1" sample_ranges "" "npm" sample_decoded []);
    vm_compute; reflexivity.
Defined.

Lemma VersionAffected_fails_safe_witness :
  (VersionAffected "1.4.1" "not json" "" "npm").1 = true.
Proof.
  apply (VersionAffected_fails_safe "1.4.1" "not json" "" "npm"). vm_compute. reflexivity.
Defined.

Lemma range_match_respects_order_witness :
  match_events (fun a b => Compare a b "SEMVER" "npm") "v1.2+x" "" false
    [mk_event "1.0" "" "" ""; mk_event "" "2.0" "" ""] =
  match_events (fun a b => Compare a b "SEMVER" "npm") "1.2.0" "" false
    [mk_event "1.0" "" "" ""; mk_event "" "2.0" "" ""].
Proof.
  apply (range_match_respects_order
    (mk_range "SEMVER" [mk_event "1.0" "" "" ""; mk_event "" "2.0" "" ""]) "npm").
  vm_compute. reflexivity.
Defined.


Definition sample_flat : string := json_text "[{'introduced':'0','fixed':'3.2.1'}]".

Lemma flat_ranges_affected_witness :
  (VersionAffected "3.2.1" sample_flat "" "npm").2 = false /\
  ((VersionAffected "3.2.1" sample_flat "" "npm").1 = true <->
   (exists f, f ∈ [mk_flat "0" "3.2.1" ""] /\ flat_nonempty f /\
      within (fun a b => Compare a b "SEMVER" "npm") "3.2.1" (flat_interval f)) \/
   listed "3.2.1" "npm" [] \/
   (Forall (.= empty_flat) [mk_flat "0" "3.2.1" ""] /\ [] = @nil string)).
Proof.
  apply (flat_ranges_affected "3.2.1" sample_flat "" "npm" [mk_range "" []]); try (vm_compute; reflexivity).
  apply Forall_singleton. by right.
Defined.

Lemma stored_ranges_match_witness :
  exists ranges, parseRanges sample_ranges = Some ranges /\ Forall stored_range ranges.
Proof.
  apply (stored_ranges_match sample_ranges
    (JArray [JObject [("type", JString "SEMVER");
       ("events", JArray [JObject [("introduced", JString "1.0.0")]; JObject [("fixed", JString "1.4.2")];
          JObject [("introduced", JString "2.0.0")]; JObject [("fixed", JString "2.1.0")]])]])).
  - vm_compute. reflexivity.
  - vm_compute. reflexivity.
  - repeat first [decided | constructor].
Defined.
End witnesses.
