(* ===== verification/Collections.v ===== *)
(** Go slices and maps as the components use them: sorting by a comparison
    function, the sorted keys of a map used as a set, and counting maps.

    Go leaves the iteration order of a map unspecified.  The code below sorts
    what it collects from a map; [sort_by_unique] is the reason the order of
    iteration does not show. *)
From stdpp Require Import base list option strings gmap sorting.
From Stdlib Require Import Ascii ZArith Lia.
From S2P Require Import Prelude GoStrings.

(** ** Sorting *)

(** A comparison that tells different values apart. *)
Class ExactOrder {A} (f : A -> A -> Z) : Prop := exact_eq : forall x y, f x y = 0 -> x = y.

#[export] Instance str_cmp_exact : ExactOrder str_cmp.
Proof. intros x y. apply str_cmp_eq. Qed.

Definition go_le {A} (f : A -> A -> Z) (x y : A) : Prop := f x y <= 0.

Section sorting.
Context {A : Type} (f : A -> A -> Z).

#[export] Instance go_le_dec : RelDecision (go_le f).
Proof. intros x y. unfold go_le. apply _. Defined.

(** [sort.Slice(out, less)] where [less] is "compares negative". *)
Definition sort_by (l : list A) : list A := merge_sort (go_le f) l.

Context {Hf : GoOrder f}.

#[export] Instance go_le_trans : Transitive (go_le f).
Proof. intros x y z. apply go_trans. Qed.

#[export] Instance go_le_total : Total (go_le f).
Proof. intros x y. unfold go_le. pose proof (go_anti (f := f) x y). lia. Qed.

Lemma sort_by_perm l : sort_by l ≡ₚ l.
Proof. apply merge_sort_Permutation. Qed.

Lemma sort_by_sorted l : StronglySorted (go_le f) (sort_by l).
Proof. apply StronglySorted_merge_sort; apply _. Qed.

Context {He : ExactOrder f}.

#[export] Instance go_le_anti : AntiSymm (=) (go_le f).
Proof.
  intros x y H1 H2. apply (exact_eq (f := f)). unfold go_le in *.
  pose proof (go_anti (f := f) x y). lia.
Qed.

(** The sorted sequence does not depend on the order it is given in. *)
Lemma sort_by_unique l l' : l ≡ₚ l' -> sort_by l = sort_by l'.
Proof.
  intros H. apply (StronglySorted_unique (go_le f)); auto using sort_by_sorted.
  by rewrite !sort_by_perm.
Qed.

Lemma sort_by_id l : StronglySorted (go_le f) l -> sort_by l = l.
Proof.
  intros H. apply (StronglySorted_unique (go_le f)); auto using sort_by_sorted, sort_by_perm.
Qed.
End sorting.

(** ** The sorted keys of a map used as a set *)

Section sorted_set.
Context {A : Type} `{Countable A} (f : A -> A -> Z).

Definition sorted_set (seen : gset A) : list A := sort_by f (elements seen).

Context {Hf : GoOrder f}.

Lemma sorted_set_elem x seen : x ∈ sorted_set seen <-> x ∈ seen.
Proof. unfold sorted_set. by rewrite sort_by_perm, elem_of_elements. Qed.

Lemma sorted_set_NoDup seen : NoDup (sorted_set seen).
Proof. unfold sorted_set. rewrite sort_by_perm. apply NoDup_elements. Qed.

(** Strictly increasing. *)
Lemma sorted_set_strict seen : ExactOrder f -> StronglySorted (fun x y => f x y < 0) (sorted_set seen).
Proof.
  intros He. pose proof (sort_by_sorted f (elements seen)) as Hs.
  pose proof (sorted_set_NoDup seen) as Hnd. unfold sorted_set in *.
  induction Hs as [|x l Hs IH Hall]; [constructor|]. apply NoDup_cons in Hnd as [Hx Hnd].
  constructor; [auto|]. rewrite !Forall_forall in *. intros y Hy. specialize (Hall y Hy).
  unfold go_le in Hall. destruct (decide (f x y = 0)) as [E|]; [|lia].
  apply He in E. by subst.
Qed.

Lemma sorted_set_list_to_set seen : list_to_set (sorted_set seen) = seen.
Proof. apply set_eq. intros x. by rewrite elem_of_list_to_set, sorted_set_elem. Qed.
End sorted_set.

(** ** Counting maps *)

(** [m[k]++] *)
Definition incr (k : string) (m : gmap string Z) : gmap string Z :=
  <[k := default 0 (m !! k) + 1]> m.

Lemma incr_lookup k k' m :
  default 0 (incr k m !! k') = default 0 (m !! k') + (if bool_decide (k = k') then 1 else 0).
Proof.
  unfold incr. destruct (bool_decide_reflect (k = k')) as [->|Hk].
  - by rewrite lookup_insert_eq.
  - rewrite lookup_insert_ne by done. lia.
Qed.

(** Counting the keys of a list into a map. *)
Definition tally (keys : list string) (m : gmap string Z) : gmap string Z :=
  fold_left (fun m k => incr k m) keys m.

Lemma tally_lookup keys m k :
  default 0 (tally keys m !! k) =
  default 0 (m !! k) + Z.of_nat (length (filter (.= k) keys)).
Proof.
  revert m. induction keys as [|k' keys IH]; intros m; simpl; [lia|].
  rewrite IH, incr_lookup, filter_cons.
  destruct (bool_decide_reflect (k' = k)), (decide (k' = k)); simpl; try done; lia.
Qed.

Lemma tally_dom keys m : dom (tally keys m) = list_to_set keys ∪ dom m.
Proof.
  revert m. induction keys as [|k keys IH]; intros m; simpl; [set_solver|].
  rewrite IH. unfold incr. rewrite dom_insert_L. set_solver.
Qed.

Definition total (m : gmap string Z) : Z := map_fold (fun _ => Z.add) 0 m.

Lemma total_insert k n m : m !! k = None -> total (<[k := n]> m) = n + total m.
Proof. intros H. unfold total. rewrite map_fold_insert_L; [done| |done]. intros. lia. Qed.

Lemma total_incr k m : total (incr k m) = total m + 1.
Proof.
  unfold incr. destruct (m !! k) as [n|] eqn:E; simpl; [|rewrite total_insert by done; lia].
  rewrite <- insert_delete_eq. rewrite <- (insert_delete_id m k n E) at 2.
  rewrite !total_insert by apply lookup_delete_eq. lia.
Qed.

Lemma total_tally keys m : total (tally keys m) = total m + Z.of_nat (length keys).
Proof.
  revert m. induction keys as [|k keys IH]; intros m; simpl; [lia|]. rewrite IH, total_incr. lia.
Qed.

(** ** Iteration over a map

    A [range] loop visits every entry of the map once, in an order Go leaves
    open.  The order is an interface: what is proved against it holds for
    every order. *)
Class MapOrder := {
  range_map : forall {K A} `{Countable K}, gmap K A -> list (K * A);
  range_map_perm : forall {K A} `{Countable K} (m : gmap K A), range_map m ≡ₚ map_to_list m
}.

(** The order of stdpp's enumeration, to evaluate on concrete maps. *)
Definition listed_order : MapOrder :=
  {| range_map := fun K A _ _ m => map_to_list m;
     range_map_perm := fun K A _ _ m => Permutation_refl (map_to_list m) |}.

Section range.
Context {O : MapOrder} {K : Type} `{Countable K} {A : Type}.

Lemma range_map_elem (m : gmap K A) k x : (k, x) ∈ range_map m <-> m !! k = Some x.
Proof. rewrite range_map_perm. apply elem_of_map_to_list. Qed.

Lemma range_map_keys_NoDup (m : gmap K A) : NoDup (range_map m).*1.
Proof. rewrite range_map_perm. apply NoDup_fst_map_to_list. Qed.

Lemma range_map_NoDup (m : gmap K A) : NoDup (range_map m).
Proof. rewrite range_map_perm. apply NoDup_map_to_list. Qed.

Lemma range_map_length (m : gmap K A) : length (range_map m) = size m.
Proof. rewrite range_map_perm. apply length_map_to_list. Qed.
End range.

(** Sorting commutes with a map that keeps the comparison. *)
Section sort_map.
Context {A B : Type} (g : A -> B) (f : A -> A -> Z) (h : B -> B -> Z).
Context (Hgf : forall x y, h (g x) (g y) = f x y).

Lemma merge_list_map l1 l2 :
  list_merge (go_le h) (g <$> l1) (g <$> l2) = g <$> list_merge (go_le f) l1 l2.
Proof.
  revert l2. induction l1 as [|x l1 IH1]; intros l2; [by destruct l2|].
  induction l2 as [|y l2 IH2]; [done|]. simpl. unfold go_le at 1 4.
  destruct (decide (h (g x) (g y) <= 0)) as [H|H]; rewrite Hgf in H.
  - rewrite decide_True by done. rewrite fmap_cons. f_equal. exact (IH1 (y :: l2)).
  - rewrite decide_False by done. rewrite fmap_cons. f_equal. exact IH2.
Qed.

Lemma merge_list_to_stack_map st l :
  merge_list_to_stack (go_le h) (fmap (M := option) (fmap (M := list) g) <$> st) (g <$> l) =
  fmap (M := option) (fmap (M := list) g) <$> merge_list_to_stack (go_le f) st l.
Proof.
  revert l. induction st as [|[l'|] st IH]; intros l; simpl; [done| |done].
  rewrite merge_list_map, IH. done.
Qed.

Lemma merge_stack_map st :
  merge_stack (go_le h) (fmap (M := option) (fmap (M := list) g) <$> st) = g <$> merge_stack (go_le f) st.
Proof.
  induction st as [|[l|] st IH]; simpl; [done| |done]. rewrite <- merge_list_map. f_equal. exact IH.
Qed.

Lemma sort_by_map l : sort_by h (g <$> l) = g <$> sort_by f l.
Proof.
  unfold sort_by, merge_sort. change (@nil (option (list B))) with (fmap (M := option) (fmap (M := list) g) <$> ([] : list (option (list A)))).
  generalize (@nil (option (list A))). induction l as [|x l IH]; intros st; simpl; [apply merge_stack_map|].
  change [g x] with (g <$> [x]). rewrite merge_list_to_stack_map. apply IH.
Qed.
End sort_map.

(** ** Filters *)

Lemma filter_none {A} (P : A -> Prop) `{forall x, Decision (P x)} (l : list A) : (forall x, x ∈ l -> ~ P x) -> filter P l = [].
Proof.
  induction l as [|x l IH]; intros Hl; [done|]. rewrite filter_cons_False by (apply Hl; by left).
  apply IH. intros y Hy. apply Hl. by right.
Qed.

Lemma filter_all {A} (P : A -> Prop) `{forall x, Decision (P x)} (l : list A) : (forall x, x ∈ l -> P x) -> filter P l = l.
Proof.
  induction l as [|x l IH]; intros Hl; [done|]. rewrite filter_cons_True by (apply Hl; by left).
  f_equal. apply IH. intros y Hy. apply Hl. by right.
Qed.

Lemma filter_fmap_NoDup {A B} (f : A -> B) (P : A -> Prop) `{forall x, Decision (P x)} l :
  NoDup (f <$> l) -> NoDup (f <$> filter P l).
Proof.
  induction l as [|x l IH]; intros Hnd; [done|]. apply NoDup_cons in Hnd as [Hx Hnd]. rewrite filter_cons.
  case_decide; [|auto]. simpl. apply NoDup_cons. split; [|auto].
  intros (y & E & [_ Hy]%list_elem_of_filter)%list_elem_of_fmap. apply Hx. apply list_elem_of_fmap. eauto.
Qed.

(** ** Sorting with ties *)

(** sort.Slice does not say in which order it leaves elements that compare
    equal; only that it sorts. *)
Class SliceSort := {
  slice_sort : forall {A}, (A -> A -> Z) -> list A -> list A;
  slice_sort_perm : forall {A} (f : A -> A -> Z) l, slice_sort f l ≡ₚ l;
  slice_sort_sorted : forall {A} (f : A -> A -> Z) l, GoOrder f -> StronglySorted (go_le f) (slice_sort f l)
}.

(** Stable sorting, to evaluate on concrete slices. *)
Definition stable_sort : SliceSort :=
  {| slice_sort := fun A f l => sort_by f l;
     slice_sort_perm := fun A f l => sort_by_perm f l;
     slice_sort_sorted := fun A f l H => sort_by_sorted f l |}.
