(* ===== verification/JsonEncode.v ===== *)
(** encoding/json, the encoder: what [json.Marshal] writes for strings,
    integers, maps and structs of them, with the HTML escaping it does by
    default. *)
From stdpp Require Import base list option strings gmap sorting.
From Stdlib Require Import Ascii ZArith Lia.
From S2P Require Import Prelude GoStrings Json Collections.

Definition quote : string := String (byte 34) "".

Definition hex_digit (n : Z) : ascii := if n <? 10 then byte (48 + n) else byte (87 + n).

(** \u and the four hexadecimal digits of [z]. *)
Definition unicode_escape (z : Z) : string :=
  String (byte 92) (String "u" (String (hex_digit (z / 4096)) (String (hex_digit (z / 256 mod 16))
    (String (hex_digit (z / 16 mod 16)) (String (hex_digit (z mod 16)) ""))))).

(** ASCII bytes written as they are: printable, but not the quote, the
    backslash and the bytes with a meaning in HTML; DEL is. *)
Definition html_safe (c : ascii) : bool :=
  let z := code c in
  (32 <=? z) && (z <? 128) && negb (existsb (Z.eqb z) [34; 92; 60; 62; 38]).

Definition escape_byte (c : ascii) : string :=
  let z := code c in
  let short e := String (byte 92) (String e "") in
  if (z =? 34) || (z =? 92) then short c
  else if z =? 8 then short "b"%char
  else if z =? 12 then short "f"%char
  else if z =? 10 then short "n"%char
  else if z =? 13 then short "r"%char
  else if z =? 9 then short "t"%char
  else unicode_escape z.

(** The body of an encoded string; [fuel] bounds the number of runes. *)
Fixpoint encode_body (fuel : nat) (s : string) : string :=
  match fuel, s with
  | S fuel', String c s' =>
      if code c <? 128
      then (if html_safe c then String c "" else escape_byte c) +:+ encode_body fuel' s'
      else match utf8_multibyte s with
           | None => unicode_escape 65533 +:+ encode_body fuel' s'
           | Some n =>
               let rune := str_take n s in
               (if bool_decide (rune = encode_rune 8232) then unicode_escape 8232
                else if bool_decide (rune = encode_rune 8233) then unicode_escape 8233
                else rune) +:+ encode_body fuel' (str_drop n s)
           end
  | _, _ => ""
  end.

Definition marshal_string (s : string) : string :=
  quote +:+ encode_body (String.length s) s +:+ quote.

(** The fields of a struct or the entries of a map, in order. *)
Definition marshal_members (members : list (string * string)) : string :=
  "{" +:+ Join ((fun m => marshal_string m.1 +:+ ":" +:+ m.2) <$> members) "," +:+ "}".

(** A field with [omitempty]: left out when the string is empty. *)
Definition omitempty (name value : string) : list (string * string) :=
  if bool_decide (value = "") then [] else [(name, marshal_string value)].

(** [json.Marshal] of a [map[string]string]: keys in increasing order. *)
Definition marshal_map (m : gmap string string) : string :=
  marshal_members ((fun k => (k, marshal_string (default "" (m !! k)))) <$> sorted_set str_cmp (dom m)).

Definition marshal_array (items : list string) : string := "[" +:+ Join items "," +:+ "]".

(** [json.Unmarshal] into a [map[string]string] that holds [cur]: [Some None]
    is the nil map. *)
Fixpoint dec_entries (members : list (string * json)) (cur : gmap string string)
    : option (gmap string string) :=
  match members with
  | [] => Some cur
  | (k, JString s) :: rest => dec_entries rest (<[k := s]> cur)
  | (k, JNull) :: rest => dec_entries rest (<[k := ""]> cur)
  | _ => None
  end.

Definition unmarshal_map (data : string) (cur : gmap string string)
    : option (option (gmap string string)) :=
  match parse_json data with
  | Some (JObject members) => m ← dec_entries members cur; Some (Some m)
  | Some JNull => Some None
  | _ => None
  end.

Example marshal_escapes :
  marshal_string (json_text "a'<b") = json_text "'a\'\u003cb'".
Proof. vm_compute. reflexivity. Qed.

(** ** Decoding what was encoded *)

(** Every byte that does not belong to a valid UTF-8 encoding replaced by
    U+FFFD: what a JSON round trip does to a string. *)
Fixpoint to_valid (fuel : nat) (s : string) : string :=
  match fuel, s with
  | S fuel', String c s' =>
      if code c <? 128 then String c (to_valid fuel' s')
      else match utf8_multibyte s with
           | None => replacement +:+ to_valid fuel' s'
           | Some n => str_take n s +:+ to_valid fuel' (str_drop n s)
           end
  | _, _ => ""
  end.

Definition ToValidUTF8 (s : string) : string := to_valid (String.length s) s.

Lemma body_ascii f c t :
  code c <? 128 = true ->
  string_body (S f) ((if html_safe c then String c "" else escape_byte c) +:+ t) =
  ('(v, r) ← string_body f t; Some (String c v, r)).
Proof. destruct c as [[] [] [] [] [] [] [] []]; try done; intros _; reflexivity. Qed.

Lemma body_unit f z t :
  z ∈ [65533; 8232; 8233] ->
  string_body (S f) (unicode_escape z +:+ t) = ('(v, r) ← string_body f t; Some (encode_rune z +:+ v, r)).
Proof. rewrite !elem_of_cons. intros [->|[->|[->|[]%not_elem_of_nil]]]; reflexivity. Qed.

(** The encoding at the start of a string does not depend on what follows. *)
Lemma utf8_multibyte_take s n t :
  utf8_multibyte s = Some n ->
  utf8_multibyte (str_take n s +:+ t) = Some n /\ str_drop n (str_take n s +:+ t) = t /\
  str_take n (str_take n s +:+ t) = str_take n s /\ (n <= String.length s)%nat.
Proof.
  destruct s as [|a [|b [|c [|d s]]]]; cbn [utf8_multibyte]; try done; intros H;
    repeat case_match; simplify_eq; cbn [str_take]; 
    change (String.app ?x ?y) with (x +:+ y); simpl; split_and!; try done; try lia.
  all: repeat case_match; simplify_eq; try done; try congruence.
Qed.

Lemma body_multibyte f s n t :
  utf8_multibyte s = Some n -> 
  (match s with String c _ => 128 <= code c | _ => True end) ->
  string_body (S f) (str_take n s +:+ t) = ('(v, r) ← string_body f t; Some (str_take n s +:+ v, r)).
Proof.
  intros Hn Hc. destruct (utf8_multibyte_take s n t Hn) as (H1 & H2 & H3 & _).
  destruct s as [|c s]; [done|]. destruct n as [|n]; [by apply utf8_multibyte_pos in Hn; lia|].
  change (str_take (S n) (String c s) +:+ t) with (String c (str_take n s +:+ t)) in *.
  change (String c (str_take n s +:+ t)) with (String c (str_take n s +:+ t)) in *.
  cbn [string_body]. rewrite !(proj2 (Z.eqb_neq _ _)), !(proj2 (Z.ltb_ge _ _)) by lia.
  rewrite H1, H2, H3. done.
Qed.

Lemma string_body_encode fuel s rest :
  (String.length s <= fuel)%nat ->
  exists f, string_body f (encode_body fuel s +:+ String (byte 34) rest) = Some (to_valid fuel s, rest).
Proof.
  revert s. induction fuel as [|fuel IH]; intros s Hs.
  { destruct s; simpl in Hs; [|lia]. by exists 1%nat. }
  destruct s as [|c s]; [by exists 1%nat|]. cbn [String.length] in Hs. cbn [encode_body to_valid].
  destruct (code c <? 128) eqn:Hc.
  { destruct (IH s) as [f Hf]; [lia|]. exists (S f). rewrite str_app_assoc, body_ascii by done. by rewrite Hf. }
  destruct (utf8_multibyte (String c s)) as [n|] eqn:Hn.
  - destruct (utf8_multibyte_take _ _ "" Hn) as (_ & _ & _ & Hlen).
    pose proof (utf8_multibyte_pos _ _ Hn). cbn [String.length] in Hlen.
    destruct (IH (str_drop n (String c s))) as [f Hf]; [rewrite str_drop_len; cbn [String.length]; lia|].
    exists (S f). rewrite str_app_assoc.
    assert (forall k, k ∈ [65533; 8232; 8233] -> str_take n (String c s) = encode_rune k ->
      string_body (S f) (unicode_escape k +:+
        (encode_body fuel (str_drop n (String c s)) +:+ String (byte 34) rest)) =
      Some (str_take n (String c s) +:+ to_valid fuel (str_drop n (String c s)), rest)) as Hesc.
    { intros k Hk ->. rewrite body_unit by done. by rewrite Hf. }
    case_bool_decide; [apply Hesc; [set_solver|done]|].
    case_bool_decide; [apply Hesc; [set_solver|done]|].
    rewrite body_multibyte by (done || (apply Z.ltb_ge in Hc; done)). by rewrite Hf.
  - destruct (IH s) as [f Hf]; [lia|]. exists (S f). rewrite str_app_assoc, body_unit by set_solver.
    by rewrite Hf.
Qed.

Lemma parse_marshal_string f d s rest :
  parse_value (S f) d (marshal_string s +:+ rest) = Some (JString (ToValidUTF8 s), rest).
Proof.
  unfold marshal_string. rewrite !str_app_assoc.
  destruct (string_body_encode (String.length s) s rest) as [g Hg]; [done|].
  change (String (byte 34) rest) with (quote +:+ rest) in Hg.
  change (quote +:+ (encode_body (String.length s) s +:+ (quote +:+ rest)))
    with (String (byte 34) (encode_body (String.length s) s +:+ (quote +:+ rest))).
  cbn [parse_value skip_space]. change (json_space (byte 34)) with false. cbn match. cbn zeta.
  change (code (byte 34)) with 34. cbn [Z.eqb Pos.eqb].
  apply string_body_sound in Hg as [_ Hg]. rewrite Hg by (cbn [String.length]; lia). done.
Qed.

Lemma parse_marshal_elements l d rest g :
  l <> [] -> (2 * length l <= g)%nat ->
  parse_elements g d (Join (marshal_string <$> l) "," +:+ String (byte 93) rest) =
    Some (JString ∘ ToValidUTF8 <$> l, rest).
Proof.
  revert g. induction l as [|s l IH]; [done|]. intros g _ Hg.
  destruct g as [|[|g]]; [simpl in Hg; lia..|]. destruct l as [|s' l].
  - cbn [fmap list_fmap Join parse_elements]. rewrite parse_marshal_string. done.
  - specialize (IH (S g) ltac:(done) ltac:(cbn [length] in *; lia)). cbn [fmap list_fmap Join] in *.
    rewrite !str_app_assoc. cbn [parse_elements]. rewrite parse_marshal_string. cbn [mbind option_bind].
    change ("," +:+ ?x) with (String "," x). cbn [skip_space]. change (json_space ",") with false. cbn match.
    change (code "," =? 44) with true. cbn match. cbn [parse_elements] in IH. rewrite IH. done.
Qed.

Lemma dec_elems_strings {A} (f : A -> string) l bk :
  dec_elems "" dec_string (JString ∘ f <$> l) bk = Some (f <$> l).
Proof. revert bk. induction l as [|x l IH]; intros bk; [done|]. simpl. by rewrite IH. Qed.

(** [json.Unmarshal] of a marshalled []string. *)
Lemma unmarshal_marshal_strings l :
  unmarshal_strings (marshal_array (marshal_string <$> l)) = Some (ToValidUTF8 <$> l).
Proof.
  assert (parse_json (marshal_array (marshal_string <$> l)) = Some (JArray (JString ∘ ToValidUTF8 <$> l))) as Hp.
  { apply parse_json_complete. exists (S (2 * length l)), "". split; [|done].
    unfold marshal_array. destruct l as [|s l]; [reflexivity|].
    change ("[" +:+ ?x) with (String "[" x). cbn [parse_value skip_space].
    change (json_space "[") with false. cbn match zeta. change (code "[") with 91. cbn [Z.eqb Pos.eqb].
    assert (exists x, Join (marshal_string <$> s :: l) "," = String (byte 34) x) as [x Hx].
    { destruct l; cbn [fmap list_fmap Join]; unfold marshal_string; eexists; reflexivity. }
    pose proof (parse_marshal_elements (s :: l) (0 + 1) "" (2 * length (s :: l))%nat ltac:(done) ltac:(lia)) as He.
    rewrite Hx in *. change (String (byte 34) x +:+ "]") with (String (byte 34) (x +:+ "]")).
    cbn [skip_space]. change (json_space (byte 34)) with false. cbn match. change (code (byte 34) =? 93) with false.
    cbn match. change (max_nesting_depth <=? 0) with false. cbn match.
    change (String (byte 34) (x +:+ "]")) with (String (byte 34) x +:+ String (byte 93) ""). by rewrite He. }
  unfold unmarshal_strings, unmarshal. rewrite Hp. cbn [mbind option_bind].
  destruct l as [|s l]; [done|]. unfold dec_slice. cbn [fmap list_fmap].
  change (JString (ToValidUTF8 s)) with ((JString ∘ ToValidUTF8) s).
  pose proof (dec_elems_strings ToValidUTF8 (s :: l) (backing nil_slice)) as Hd. cbn [fmap list_fmap] in Hd.
  rewrite Hd. cbn [mbind option_bind]. unfold elems. simpl. f_equal. f_equal.
  rewrite app_nil_r. apply take_ge. by rewrite !length_fmap.
Qed.

(** ASCII text is valid as it is. *)
Lemma ToValidUTF8_ascii s : is_ascii s = true -> ToValidUTF8 s = s.
Proof.
  unfold ToValidUTF8, is_ascii. induction s as [|c s IH]; [done|]. simpl.
  intros [Hc Hs]%andb_true_iff. rewrite Hc. f_equal. by apply IH.
Qed.

Lemma ToValidUTF8_empty s : ToValidUTF8 s = "" <-> s = "".
Proof.
  split; [|by intros ->]. destruct s as [|c s]; [done|]. unfold ToValidUTF8. cbn [String.length to_valid].
  destruct (code c <? 128); [done|]. destruct (utf8_multibyte (String c s)) as [n|] eqn:Hn; [|done].
  apply utf8_multibyte_pos in Hn. destruct n as [|n]; [lia|]. done.
Qed.
