(* ===== verification/Base64.v ===== *)
(** encoding/base64: the unpadded URL-safe encoding, RawURLEncoding.

    Three bytes become four characters of six bits each; one or two bytes left
    over become two or three characters.  Decoding skips line breaks, refuses
    every other byte outside the alphabet and a single character left over,
    and, like the library's default, ignores the unused low bits of the last
    character. *)
From stdpp Require Import base list option strings.
From Stdlib Require Import Ascii ZArith Lia.
From S2P Require Import Prelude GoStrings.

Definition b64_char (n : Z) : ascii :=
  if n <? 26 then byte (65 + n)
  else if n <? 52 then byte (97 + (n - 26))
  else if n <? 62 then byte (48 + (n - 52))
  else if n =? 62 then byte 45 else byte 95.

Definition b64_value (c : ascii) : option Z :=
  let z := code c in
  if (65 <=? z) && (z <=? 90) then Some (z - 65)
  else if (97 <=? z) && (z <=? 122) then Some (z - 71)
  else if (48 <=? z) && (z <=? 57) then Some (z + 4)
  else if z =? 45 then Some 62
  else if z =? 95 then Some 63
  else None.

Fixpoint EncodeToString (s : string) : string :=
  match s with
  | EmptyString => ""
  | String a EmptyString =>
      String (b64_char (code a / 4)) (String (b64_char (code a mod 4 * 16)) "")
  | String a (String b EmptyString) =>
      String (b64_char (code a / 4)) (String (b64_char (code a mod 4 * 16 + code b / 16))
        (String (b64_char (code b mod 16 * 4)) ""))
  | String a (String b (String c s')) =>
      String (b64_char (code a / 4)) (String (b64_char (code a mod 4 * 16 + code b / 16))
        (String (b64_char (code b mod 16 * 4 + code c / 64)) (String (b64_char (code c mod 64)) (EncodeToString s'))))
  end.

(** The values of the characters, line breaks skipped. *)
Fixpoint b64_values (s : string) : option (list Z) :=
  match s with
  | EmptyString => Some []
  | String c s' =>
      match b64_value c with
      | Some z => l ← b64_values s'; Some (z :: l)
      | None => if (code c =? 10) || (code c =? 13) then b64_values s' else None
      end
  end.

(** Groups of four values, and the last, shorter one. *)
Fixpoint b64_groups (l : list Z) : option string :=
  match l with
  | [] => Some ""
  | [_] => None
  | [x; y] => Some (str_of_codes [x * 4 + y / 16])
  | [x; y; z] => Some (str_of_codes [x * 4 + y / 16; y mod 16 * 16 + z / 4])
  | x :: y :: z :: w :: l' =>
      s ← b64_groups l';
      Some (String (byte (x * 4 + y / 16)) (String (byte (y mod 16 * 16 + z / 4)) (String (byte (z mod 4 * 64 + w)) s)))
  end.

Definition DecodeString (s : string) : option string := l ← b64_values s; b64_groups l.

(** ** Decoding what was encoded *)

Lemma b64_value_char n : 0 <= n < 64 -> b64_value (b64_char n) = Some n.
Proof.
  intros Hn.
  assert (forallb (fun k => bool_decide (b64_value (b64_char (Z.of_nat k)) = Some (Z.of_nat k))) (seq 0 64) = true)
    as Hall by (vm_compute; reflexivity).
  rewrite forallb_forall in Hall. specialize (Hall (Z.to_nat n)). rewrite Z2Nat.id in Hall by lia.
  eapply bool_decide_eq_true_1, Hall, in_seq. lia.
Qed.

#[local] Ltac Zify.zify_post_hook ::= Z.div_mod_to_equations.

Lemma DecodeString_EncodeToString s : DecodeString (EncodeToString s) = Some s.
Proof.
  induction s as [s IH] using str_len_ind.
  destruct s as [|a [|b [|c s]]]; [done| | |];
    pose proof (code_range a); try pose proof (code_range b); try pose proof (code_range c).
  - unfold DecodeString. cbn [EncodeToString b64_values]. rewrite !b64_value_char by lia.
    cbn [mbind option_bind b64_groups]. unfold str_of_codes. cbn [fmap list_fmap String.string_of_list_ascii].
    replace (code a / 4 * 4 + code a mod 4 * 16 / 16) with (code a) by lia. by rewrite byte_code.
  - unfold DecodeString. cbn [EncodeToString b64_values]. rewrite !b64_value_char by lia.
    cbn [mbind option_bind b64_groups]. unfold str_of_codes. cbn [fmap list_fmap String.string_of_list_ascii].
    replace (code a / 4 * 4 + (code a mod 4 * 16 + code b / 16) / 16) with (code a) by lia.
    replace ((code a mod 4 * 16 + code b / 16) mod 16 * 16 + code b mod 16 * 4 / 4) with (code b) by lia.
    by rewrite !byte_code.
  - specialize (IH s ltac:(simpl; lia)). unfold DecodeString in *. cbn [EncodeToString b64_values].
    rewrite !b64_value_char by lia.
    destruct (b64_values (EncodeToString s)) as [l|]; [|done]. cbn [mbind option_bind] in *.
    cbn [b64_groups]. rewrite IH. cbn [mbind option_bind].
    replace (code a / 4 * 4 + (code a mod 4 * 16 + code b / 16) / 16) with (code a) by lia.
    replace ((code a mod 4 * 16 + code b / 16) mod 16 * 16 + (code b mod 16 * 4 + code c / 64) / 4)
      with (code b) by lia.
    replace ((code b mod 16 * 4 + code c / 64) mod 4 * 64 + code c mod 64) with (code c) by lia.
    by rewrite !byte_code.
Qed.

Example encode_example : EncodeToString "packmon?>" = "cGFja21vbj8-".
Proof. vm_compute. reflexivity. Qed.

(** The alphabet has no white space. *)
Lemma b64_char_visible n : 0 <= n < 64 -> visible (b64_char n) = true.
Proof.
  intros H. unfold visible, b64_char.
  destruct (Z.ltb_spec n 26); [rewrite code_byte by lia; byte_cases|].
  destruct (Z.ltb_spec n 52); [rewrite code_byte by lia; byte_cases|].
  destruct (Z.ltb_spec n 62); [rewrite code_byte by lia; byte_cases|].
  destruct (n =? 62); reflexivity.
Qed.

Lemma EncodeToString_visible s : all_bytes visible (EncodeToString s) = true.
Proof.
  assert (forall c, 0 <= code c / 4 < 64 /\ 0 <= code c mod 4 < 4 /\ 0 <= code c / 16 < 16 /\
    0 <= code c mod 16 < 16 /\ 0 <= code c / 64 < 4 /\ 0 <= code c mod 64 < 64) as Hc.
  { intros c. pose proof (code_range c). repeat split; try apply Z.mod_pos_bound; try (apply Z.div_pos; lia);
      try (apply Z.div_lt_upper_bound; lia); lia. }
  revert s. fix IH 1. intros [|a [|b [|c s]]]; [done|..]; cbn [EncodeToString]; rewrite !all_bytes_cons, !b64_char_visible;
    try apply IH; try done; pose proof (Hc a); try (pose proof (Hc b)); try (pose proof (Hc c)); lia.
Qed.
