(* ===== verification/Domain.v ===== *)
(** The domain model: internal/domain/{severity,feed,models,package_merge,scan}.go.

    Severities, ecosystems and finding types are Go string types: any string is
    a value, and the constants name the known ones.  Packages that several
    lockfiles name are merged into one; findings are summarised and judged
    against the block threshold. *)
From stdpp Require Import base list option strings gmap sorting.
From Stdlib Require Import Ascii ZArith Lia.
From S2P Require Import Prelude GoStrings Collections.

(** ** Severity *)

Definition Severity := string.

Definition SeverityCritical : Severity := "CRITICAL".
Definition SeverityHigh : Severity := "HIGH".
Definition SeverityMedium : Severity := "MEDIUM".
Definition SeverityLow : Severity := "LOW".
Definition SeverityUnknown : Severity := "UNKNOWN".
Definition SeverityNone : Severity := "NONE".

Definition Severity_Valid (s : Severity) : bool :=
  bool_decide (s ∈ [SeverityCritical; SeverityHigh; SeverityMedium; SeverityLow; SeverityUnknown;
                    SeverityNone]).

Definition Rank (s : Severity) : Z :=
  if bool_decide (s = SeverityCritical) then 4
  else if bool_decide (s = SeverityHigh) then 3
  else if bool_decide (s = SeverityMedium) then 2
  else if bool_decide (s = SeverityLow) then 1
  else if bool_decide (s = SeverityUnknown) then 1
  else 0.

Definition Blocks (s threshold : Severity) : bool := Rank threshold <=? Rank s.

(** ** Ecosystems, packages and findings *)

Definition Ecosystem := string.

Definition EcosystemDocker : Ecosystem := "docker".
Definition EcosystemChocolatey : Ecosystem := "chocolatey".

Definition Ecosystem_Valid (e : Ecosystem) : bool :=
  bool_decide (e ∈ ["npm"; "pypi"; "go"; "maven"; "cargo"; "nuget"; "composer"; "gem"; "pub";
                    "actions"; "cocoapods"; "swiftpm"; "hex"; "cran"; EcosystemDocker;
                    EcosystemChocolatey]).

Definition InventoryOnly (e : Ecosystem) : bool :=
  bool_decide (e ∈ [EcosystemDocker; EcosystemChocolatey]).

Definition ScanInput (e : Ecosystem) : bool := Ecosystem_Valid e && negb (InventoryOnly e).

Record PackageParent := mk_parent {
  parentName : string;
  parentVersion : string;
  parentEcosystem : Ecosystem
}.

Record Package := mk_package {
  pkgName : string;
  pkgVersion : string;
  pkgEcosystem : Ecosystem;
  Dev : bool;
  Direct : bool;
  Indirect : bool;
  Optional : bool;
  Peer : bool;
  Via : list string;
  Parents : list PackageParent;
  SourceRefs : list string;
  DeclaredVersion : string
}.

Definition FindingType := string.
Definition FindingTypeVulnerability : FindingType := "vulnerability".
Definition FindingTypeMalicious : FindingType := "malicious".
Definition FindingTypeSupplyChainRisk : FindingType := "supply_chain_risk".
Definition FindingTypeLifecycle : FindingType := "lifecycle".

Definition RiskTypeMalwareHistory : string := "malware_history".
Definition ManualAdvisorySource : string := "manual".
Definition ManualAdvisoryIDPrefix : string := ManualAdvisorySource +:+ ":".

Record ResourceLink := mk_link { Label : string; URL : string }.
Record FindingLocation := mk_location { URI : string }.

Record Finding := mk_finding {
  fName : string;
  fVersion : string;
  fEcosystem : Ecosystem;
  fType : FindingType;
  fSeverity : Severity;
  fAdvisoryID : string;
  fTitle : string;
  fURL : string;
  fResources : list ResourceLink;
  fFixedVersion : string;
  fRiskType : string;
  fSource : string;
  fLocations : list FindingLocation
}.

#[export] Instance parent_eq_dec : EqDecision PackageParent.
Proof. solve_decision. Defined.
#[export] Instance parent_countable : Countable PackageParent.
Proof.
  refine (inj_countable' (fun p => (parentName p, parentVersion p, parentEcosystem p))
    (fun '(n, v, e) => mk_parent n v e) _); by intros [].
Defined.
#[export] Instance package_eq_dec : EqDecision Package.
Proof. solve_decision. Defined.

(** ** Normalisation of operator input *)

Section parsing.
Context {U : UnicodeCase}.

Definition ParseBlockThreshold (raw : string) : option Severity :=
  let threshold := ToUpper (TrimSpace raw) in
  if bool_decide (threshold ∈ [SeverityCritical; SeverityHigh; SeverityMedium; SeverityLow; SeverityNone])
  then Some threshold else None.

Definition FeedMode := string.
Definition FeedModeSelf : FeedMode := "self".
Definition FeedModeExternal : FeedMode := "external".

Definition ParseFeedMode (raw : string) : option FeedMode :=
  let mode := ToLower (TrimSpace raw) in
  if bool_decide (mode ∈ [FeedModeSelf; FeedModeExternal]) then Some mode else None.

Definition ParseManualAdvisoryFindingType (raw : string) : option FindingType :=
  let value := ToLower (TrimSpace raw) in
  if bool_decide (value ∈ [""; FindingTypeVulnerability]) then Some FindingTypeVulnerability
  else if bool_decide (value = FindingTypeMalicious) then Some FindingTypeMalicious
  else None.

Definition NormalizeManualAdvisoryID (raw : string) : option string :=
  let normalized := TrimSpace raw in
  if bool_decide (normalized = "") || negb (HasPrefix (ToLower normalized) ManualAdvisoryIDPrefix)
  then None else Some normalized.

Definition IsManualAdvisoryID (raw : string) : bool := bool_decide (is_Some (NormalizeManualAdvisoryID raw)).
End parsing.

(** ** Merging packages *)

(** [value = strings.TrimSpace(value); if value != "" { seen[value] = struct{}{} }] *)
Definition add_value (seen : gset string) (value : string) : gset string :=
  let value := TrimSpace value in
  if bool_decide (value = "") then seen else {[value]} ∪ seen.

Definition MergePackageStringSet (left right : list string) : list string :=
  if bool_decide (left = []) && bool_decide (right = []) then []
  else sorted_set str_cmp (fold_left add_value right (fold_left add_value left ∅)).

Definition trim_parent (p : PackageParent) : PackageParent :=
  mk_parent (TrimSpace (parentName p)) (TrimSpace (parentVersion p)) (parentEcosystem p).

(** The closure [add].  The key of [seen] is the whole parent. *)
Definition add_parent (seen : gset PackageParent) (parent : PackageParent) : gset PackageParent :=
  let parent := trim_parent parent in
  if bool_decide (parentName parent = "") then seen else {[parent]} ∪ seen.

(** The order of the [sort.Slice] closure. *)
Definition parent_cmp (a b : PackageParent) : Z :=
  str_cmp (parentEcosystem a) (parentEcosystem b) <?>
  (str_cmp (parentName a) (parentName b) <?> str_cmp (parentVersion a) (parentVersion b)).

Definition MergePackageParents (left right : list PackageParent) : list PackageParent :=
  if bool_decide (left = []) && bool_decide (right = []) then []
  else sorted_set parent_cmp (fold_left add_parent right (fold_left add_parent left ∅)).

(** The body of [MergePackageMetadata] on a non-nil destination. *)
Definition merge_metadata (dst src : Package) : Package :=
  mk_package (pkgName dst) (pkgVersion dst) (pkgEcosystem dst)
    (if Dev dst && negb (Dev src) then false else Dev dst)
    (Direct dst || Direct src) (Indirect dst || Indirect src)
    (Optional dst || Optional src) (Peer dst || Peer src)
    (MergePackageStringSet (Via dst) (Via src))
    (MergePackageParents (Parents dst) (Parents src))
    (MergePackageStringSet (SourceRefs dst) (SourceRefs src))
    (if bool_decide (TrimSpace (DeclaredVersion dst) = "")
     then TrimSpace (DeclaredVersion src) else DeclaredVersion dst).

(** [None] is the nil pointer. *)
Definition MergePackageMetadata (dst : option Package) (src : Package) : option Package :=
  match dst with None => None | Some dst => Some (merge_metadata dst src) end.

(** ** Scan policy and summary *)

Record ScanSummary := mk_summary {
  BySeverity : gmap string Z;
  ByType : gmap string Z;
  BySource : gmap string Z
}.

Definition EmptyScanSummary : ScanSummary := mk_summary ∅ ∅ ∅.

Section policy.
Context {U : UnicodeCase}.

Definition FindingIsInformational (finding : Finding) : bool :=
  bool_decide (fType finding = FindingTypeSupplyChainRisk) &&
  EqualFold (TrimSpace (fRiskType finding)) RiskTypeMalwareHistory.

Definition FindingAlwaysBlocks (finding : Finding) : bool :=
  if FindingIsInformational finding then false
  else bool_decide (fType finding = FindingTypeMalicious) ||
       bool_decide (fType finding = FindingTypeSupplyChainRisk).

Definition NormalizeFindingSeverity (finding : Finding) : Severity :=
  if FindingIsInformational finding then SeverityLow else fSeverity finding.

Definition FindingBlocks (finding : Finding) (threshold : Severity) : bool :=
  if FindingIsInformational finding then false
  else if FindingAlwaysBlocks finding then true
  else if bool_decide (threshold = SeverityNone) then false
  else Blocks (fSeverity finding) threshold.

Fixpoint FindingsBlock (findings : list Finding) (threshold : Severity) : bool :=
  match findings with
  | [] => false
  | finding :: rest => if FindingBlocks finding threshold then true else FindingsBlock rest threshold
  end.

(** One iteration of the loop of [BuildScanSummary]. *)
Definition summarize (summary : ScanSummary) (finding : Finding) : ScanSummary :=
  mk_summary (incr (NormalizeFindingSeverity finding) (BySeverity summary))
             (incr (fType finding) (ByType summary))
             (incr (fSource finding) (BySource summary)).

Definition BuildScanSummary (findings : list Finding) : ScanSummary :=
  fold_left summarize findings EmptyScanSummary.

Definition CountManualAdvisoryFindings (findings : list Finding) : Z :=
  fold_left (fun count finding =>
    if bool_decide (fSource finding = ManualAdvisorySource) then count + 1 else count) findings 0.
End policy.

(** ** Merging: lemmas *)

#[export] Instance parent_cmp_order : GoOrder parent_cmp.
Proof.
  apply then_order; [|apply then_order]; apply (key_order _ str_cmp), _.
Qed.

#[export] Instance parent_cmp_exact : ExactOrder parent_cmp.
Proof.
  intros [n v e] [n' v' e']. unfold parent_cmp, cmp_then. simpl.
  destruct (Z.eqb_spec (str_cmp e e') 0) as [->%str_cmp_eq|]; [|done].
  destruct (Z.eqb_spec (str_cmp n n') 0) as [->%str_cmp_eq|]; [|done].
  by intros ->%str_cmp_eq.
Qed.

(** Both merges collect normalised values into a set and list it in order.
    [norm] is idempotent on what [keep] accepts. *)
Section merge.
Context {A : Type} `{Countable A} (norm : A -> A) (keep : A -> Prop) `{!forall x, Decision (keep x)}.

Definition normalized (l : list A) : gset A := list_to_set (filter keep (norm <$> l)).

Definition collect (seen : gset A) (x : A) : gset A :=
  if decide (keep (norm x)) then {[norm x]} ∪ seen else seen.

Lemma elem_of_normalized x l : x ∈ normalized l <-> keep x /\ exists y, y ∈ l /\ x = norm y.
Proof.
  unfold normalized. rewrite elem_of_list_to_set, list_elem_of_filter, list_elem_of_fmap.
  naive_solver.
Qed.

Lemma collect_normalized l seen : fold_left collect l seen = normalized l ∪ seen.
Proof.
  revert seen. induction l as [|x l IH]; intros seen; simpl; [set_solver|].
  rewrite IH. apply set_eq. intros y. rewrite !elem_of_union, !elem_of_normalized.
  setoid_rewrite elem_of_cons. unfold collect. case_decide; set_solver.
Qed.

Lemma normalized_app l l' : normalized (l ++ l') = normalized l ∪ normalized l'.
Proof. apply set_eq. intros x. rewrite elem_of_union, !elem_of_normalized. set_solver. Qed.

Context (cmp : A -> A -> Z) {Hcmp : GoOrder cmp} (norm_idem : forall x, norm (norm x) = norm x).

Lemma normalized_sorted l : normalized (sorted_set cmp (normalized l)) = normalized l.
Proof.
  apply set_eq. intros x. rewrite elem_of_normalized.
  setoid_rewrite (sorted_set_elem cmp). setoid_rewrite elem_of_normalized.
  split; [|naive_solver]. intros (Hk & y & (Hky & z & Hz & ->) & ->).
  rewrite norm_idem. rewrite norm_idem in Hk. eauto.
Qed.
End merge.

Definition nonempty (s : string) : Prop := s <> "".
Definition named (p : PackageParent) : Prop := parentName p <> "".

#[export] Instance nonempty_dec s : Decision (nonempty s).
Proof. unfold nonempty. apply _. Defined.
#[export] Instance named_dec p : Decision (named p).
Proof. unfold named. apply _. Defined.

(** The set of values a list contributes. *)
Definition string_set : list string -> gset string := normalized TrimSpace nonempty.
Definition parent_set : list PackageParent -> gset PackageParent := normalized trim_parent named.

Lemma trim_parent_idem p : trim_parent (trim_parent p) = trim_parent p.
Proof. unfold trim_parent. simpl. by rewrite !TrimSpace_idem. Qed.

Lemma collect_ext {A} `{Countable A} (f g : gset A -> A -> gset A) l s :
  (forall s x, f s x = g s x) -> fold_left f l s = fold_left g l s.
Proof. intros E. revert s. induction l as [|x l IH]; intros s; simpl; [done|]. by rewrite E, IH. Qed.

Lemma MergePackageStringSet_set left right :
  MergePackageStringSet left right = sorted_set str_cmp (string_set left ∪ string_set right).
Proof.
  assert (forall s x, add_value s x = collect TrimSpace nonempty s x) as E.
  { intros s x. unfold add_value, collect. cbv zeta.
    destruct (decide (nonempty (TrimSpace x))) as [Hx|Hx]; unfold nonempty in Hx; case_bool_decide; tauto. }
  unfold MergePackageStringSet. rewrite !(collect_ext _ _ _ _ E), !collect_normalized, union_empty_r_L.
  destruct (bool_decide_reflect (left = [])) as [->|], (bool_decide_reflect (right = [])) as [->|];
    simpl; [done|..]; by rewrite (comm_L (∪)).
Qed.

Lemma MergePackageParents_set left right :
  MergePackageParents left right = sorted_set parent_cmp (parent_set left ∪ parent_set right).
Proof.
  assert (forall s x, add_parent s x = collect trim_parent named s x) as E.
  { intros s x. unfold add_parent, collect. cbv zeta.
    destruct (decide (named (trim_parent x))) as [Hx|Hx]; unfold named in Hx; case_bool_decide; tauto. }
  unfold MergePackageParents. rewrite !(collect_ext _ _ _ _ E), !collect_normalized, union_empty_r_L.
  destruct (bool_decide_reflect (left = [])) as [->|], (bool_decide_reflect (right = [])) as [->|];
    simpl; [done|..]; by rewrite (comm_L (∪)).
Qed.

(** What a merged list contributes again is what went into it. *)
Lemma string_set_merge left right :
  string_set (MergePackageStringSet left right) = string_set left ∪ string_set right.
Proof.
  rewrite MergePackageStringSet_set. unfold string_set. rewrite <- normalized_app.
  apply (normalized_sorted _ _ _ TrimSpace_idem).
Qed.

Lemma parent_set_merge left right :
  parent_set (MergePackageParents left right) = parent_set left ∪ parent_set right.
Proof.
  rewrite MergePackageParents_set. unfold parent_set. rewrite <- normalized_app.
  apply (normalized_sorted _ _ _ trim_parent_idem).
Qed.

(** A merge is determined by what its arguments contribute. *)
Lemma MergePackageStringSet_ext l r l' r' :
  string_set l ∪ string_set r = string_set l' ∪ string_set r' ->
  MergePackageStringSet l r = MergePackageStringSet l' r'.
Proof. intros E. by rewrite !MergePackageStringSet_set, E. Qed.

Lemma MergePackageParents_ext l r l' r' :
  parent_set l ∪ parent_set r = parent_set l' ∪ parent_set r' ->
  MergePackageParents l r = MergePackageParents l' r'.
Proof. intros E. by rewrite !MergePackageParents_set, E. Qed.

(** Equal merges, by comparing the contributions as sets. *)
Ltac solve_merge :=
  first [apply MergePackageStringSet_ext | apply MergePackageParents_ext];
  rewrite ?string_set_merge, ?parent_set_merge; set_solver.

(** Equal in everything but the declared version. *)
Definition same_metadata (p q : Package) : Prop :=
  pkgName p = pkgName q /\ pkgVersion p = pkgVersion q /\ pkgEcosystem p = pkgEcosystem q /\
  Dev p = Dev q /\ Direct p = Direct q /\ Indirect p = Indirect q /\ Optional p = Optional q /\
  Peer p = Peer q /\ Via p = Via q /\ Parents p = Parents q /\ SourceRefs p = SourceRefs q.

#[export] Instance same_metadata_equivalence : Equivalence same_metadata.
Proof.
  unfold same_metadata. split; [intros ?; repeat split | intros ??; naive_solver |].
  intros ???. intuition congruence.
Qed.

#[export] Instance merge_metadata_proper : Proper (same_metadata ==> (=) ==> same_metadata) merge_metadata.
Proof.
  intros [] [] H s ? <-. unfold same_metadata in *. simpl in *. destruct_and!. subst. repeat split.
Qed.

(** Merging two packages in either order. *)
Lemma merge_metadata_swap d a b :
  same_metadata (merge_metadata (merge_metadata d a) b) (merge_metadata (merge_metadata d b) a).
Proof.
  unfold same_metadata. simpl. repeat split; try (solve_merge; fail).
  - by destruct (Dev d), (Dev a), (Dev b).
  - by destruct (Direct d), (Direct a), (Direct b).
  - by destruct (Indirect d), (Indirect a), (Indirect b).
  - by destruct (Optional d), (Optional a), (Optional b).
  - by destruct (Peer d), (Peer a), (Peer b).
Qed.

Lemma fold_merge_proper srcs d d' :
  same_metadata d d' -> same_metadata (fold_left merge_metadata srcs d) (fold_left merge_metadata srcs d').
Proof.
  revert d d'. induction srcs as [|s srcs IH]; intros d d' H; simpl; [done|]. apply IH. by rewrite H.
Qed.

Lemma fold_merge_perm srcs srcs' d :
  srcs ≡ₚ srcs' ->
  same_metadata (fold_left merge_metadata srcs d) (fold_left merge_metadata srcs' d).
Proof.
  intros H. revert d. induction H as [|s l l' _ IH|a b l|l1 l2 l3 _ IH1 _ IH2]; intros d; simpl.
  - done.
  - apply IH.
  - apply fold_merge_proper, merge_metadata_swap.
  - by rewrite IH1.
Qed.

Lemma merge_metadata_idem d s : merge_metadata (merge_metadata d s) s = merge_metadata d s.
Proof.
  unfold merge_metadata. simpl. f_equal; try solve_merge.
  - by destruct (Dev d), (Dev s).
  - by destruct (Direct d), (Direct s).
  - by destruct (Indirect d), (Indirect s).
  - by destruct (Optional d), (Optional s).
  - by destruct (Peer d), (Peer s).
  - destruct (bool_decide_reflect (TrimSpace (DeclaredVersion d) = "")) as [E|E].
    + by destruct (bool_decide _).
    + by rewrite bool_decide_false.
Qed.

Lemma MergePackageMetadata_fold srcs d :
  fold_left MergePackageMetadata srcs (Some d) = Some (fold_left merge_metadata srcs d).
Proof. revert d. by induction srcs as [|s srcs IH]; intros d; simpl; [|rewrite IH]. Qed.

Lemma fold_merge_Dev srcs d :
  Dev (fold_left merge_metadata srcs d) = Dev d && forallb Dev srcs.
Proof.
  revert d. induction srcs as [|s srcs IH]; intros d; simpl; [by rewrite andb_true_r|].
  rewrite IH. simpl. by destruct (Dev d), (Dev s).
Qed.

(** ** Policy and summary: lemmas *)

Section policy_lemmas.
Context {U : UnicodeCase}.

Lemma FindingsBlock_exists findings t :
  FindingsBlock findings t = true <-> exists f, f ∈ findings /\ FindingBlocks f t = true.
Proof.
  induction findings as [|f rest IH]; simpl.
  - split; [done|]. by intros (? & ?%elem_of_nil & _).
  - setoid_rewrite elem_of_cons. destruct (FindingBlocks f t) eqn:E; [split; by eauto|].
    rewrite IH. split; [intros (g & ? & ?); eauto|].
    intros (g & [->|?] & ?); [congruence|eauto].
Qed.

Lemma FindingBlocks_spec f t :
  FindingBlocks f t = true <->
  FindingIsInformational f = false /\
  (fType f ∈ [FindingTypeMalicious; FindingTypeSupplyChainRisk] \/
   (t <> SeverityNone /\ Rank t <= Rank (fSeverity f))).
Proof.
  unfold FindingBlocks, FindingAlwaysBlocks, Blocks.
  destruct (FindingIsInformational f); [naive_solver|].
  rewrite !elem_of_cons, elem_of_nil.
  destruct (bool_decide_reflect (fType f = FindingTypeMalicious)),
    (bool_decide_reflect (fType f = FindingTypeSupplyChainRisk)); simpl; try tauto.
  case_bool_decide; [naive_solver|]. rewrite Z.leb_le. tauto.
Qed.

Lemma BuildScanSummary_tally findings s :
  fold_left summarize findings s =
  mk_summary (tally (NormalizeFindingSeverity <$> findings) (BySeverity s))
             (tally (fType <$> findings) (ByType s)) (tally (fSource <$> findings) (BySource s)).
Proof. revert s. induction findings as [|f fs IH]; intros s; simpl; [by destruct s|]. by rewrite IH. Qed.

Lemma CountManual_from findings n :
  fold_left (fun count finding =>
    if bool_decide (fSource finding = ManualAdvisorySource) then count + 1 else count) findings n =
  n + Z.of_nat (length (filter (.= ManualAdvisorySource) (fSource <$> findings))).
Proof.
  revert n. induction findings as [|f fs IH]; intros n; [simpl; lia|].
  cbn [fold_left]. rewrite IH, fmap_cons, filter_cons.
  case_bool_decide; case_decide; cbn [length]; try done; lia.
Qed.

(** ** Theorems *)

(** Merged string sets are canonical: strictly increasing in byte order,
    holding exactly the trimmed nonempty values of both sides; so merging is
    commutative, associative and idempotent, whatever order Go's map iteration
    takes. *)
Theorem MergePackageStringSet_canonical l r t :
  StronglySorted (fun x y => str_cmp x y < 0) (MergePackageStringSet l r) /\
  (forall x, x ∈ MergePackageStringSet l r <-> x <> "" /\ exists y, y ∈ l ++ r /\ x = TrimSpace y) /\
  MergePackageStringSet l r = MergePackageStringSet r l /\
  MergePackageStringSet (MergePackageStringSet l r) t =
    MergePackageStringSet l (MergePackageStringSet r t) /\
  MergePackageStringSet (MergePackageStringSet l r) r = MergePackageStringSet l r.
Proof.
  split_and!; try solve_merge.
  - rewrite MergePackageStringSet_set. apply sorted_set_strict; apply _.
  - intros x. rewrite MergePackageStringSet_set, sorted_set_elem.
    unfold string_set. by rewrite <- normalized_app, elem_of_normalized.
Qed.

(** Merging the duplicates of a package gives the same metadata in
    whatever order they are met (only the declared version depends on it);
    merging the same duplicate twice changes nothing; the identity is the
    destination's, and the package is a development dependency only if every
    occurrence is. *)
Theorem MergePackageMetadata_order_irrelevant dst srcs srcs' :
  srcs ≡ₚ srcs' ->
  exists p p',
    fold_left MergePackageMetadata srcs (Some dst) = Some p /\
    fold_left MergePackageMetadata srcs' (Some dst) = Some p' /\
    same_metadata p p' /\ Dev p = forallb Dev (dst :: srcs) /\
    (forall s, MergePackageMetadata (MergePackageMetadata (Some p) s) s = MergePackageMetadata (Some p) s).
Proof.
  intros H. exists (fold_left merge_metadata srcs dst), (fold_left merge_metadata srcs' dst).
  rewrite !MergePackageMetadata_fold. split_and!; auto.
  - by apply fold_merge_perm.
  - apply fold_merge_Dev.
  - intros s. simpl. by rewrite merge_metadata_idem.
Qed.


(** The summary counts every finding once per dimension: each entry is
    the number of findings with that severity, type or source, every key is
    one some finding has, each map sums to the number of findings, and the
    manual advisories counted are the entry of the manual source. *)
Theorem BuildScanSummary_counts findings :
  let s := BuildScanSummary findings in
  let n := Z.of_nat (length findings) in
  (forall k, default 0 (BySeverity s !! k) =
     Z.of_nat (length (filter (fun f => NormalizeFindingSeverity f = k) findings))) /\
  (forall k, default 0 (ByType s !! k) = Z.of_nat (length (filter (fun f => fType f = k) findings))) /\
  (forall k, default 0 (BySource s !! k) = Z.of_nat (length (filter (fun f => fSource f = k) findings))) /\
  total (BySeverity s) = n /\ total (ByType s) = n /\ total (BySource s) = n /\
  dom (ByType s) = list_to_set (fType <$> findings) /\
  CountManualAdvisoryFindings findings = default 0 (BySource s !! ManualAdvisorySource).
Proof.
  assert (forall (g : Finding -> string) k,
    length (filter (.= k) (g <$> findings)) = length (filter (fun f => g f = k) findings)) as Hfil.
  { intros g k. clear. induction findings as [|f fs IH]; [done|].
    rewrite fmap_cons, !filter_cons. case_decide; simpl; by rewrite <- IH. }
  intros s n. unfold s, BuildScanSummary. rewrite BuildScanSummary_tally. simpl.
  split_and!; try (intros k; rewrite tally_lookup, Hfil; reflexivity).
  - by rewrite total_tally, length_fmap.
  - by rewrite total_tally, length_fmap.
  - by rewrite total_tally, length_fmap.
  - rewrite tally_dom. set_solver.
  - unfold CountManualAdvisoryFindings. by rewrite CountManual_from, tally_lookup.
Qed.
End policy_lemmas.

(** ** Witnesses *)

Definition sample_package (dev : bool) (via : list string) : Package :=
  mk_package "left-pad" "1.3.0" "npm" dev false true false false via [] [] "".

Lemma MergePackageMetadata_order_irrelevant_witness :
  exists p p',
    fold_left MergePackageMetadata [sample_package false ["b"]; sample_package true [" a"]]
      (Some (sample_package true [])) = Some p /\
    fold_left MergePackageMetadata [sample_package true [" a"]; sample_package false ["b"]]
      (Some (sample_package true [])) = Some p' /\ same_metadata p p'.
Proof.
  destruct (MergePackageMetadata_order_irrelevant (sample_package true [])
    [sample_package false ["b"]; sample_package true [" a"]]
    [sample_package true [" a"]; sample_package false ["b"]]) as (p & p' & Hp & Hp' & Hs & _).
  - apply Permutation_swap.
  - by exists p, p'.
Defined.

Definition sample_finding (ty sev : string) : Finding :=
  mk_finding "left-pad" "1.3.0" "npm" ty sev "" "" "" [] "" "" "osv" [].

