(* ===== verification/JsonMaps.v ===== *)
(** More of encoding/json: decoding booleans, integers and maps. *)
From stdpp Require Import base list option strings gmap.
From Stdlib Require Import Ascii ZArith Lia.
From S2P Require Import Prelude GoStrings GoNumbers Json.

Definition dec_bool : decoder bool := fun v cur =>
  match v with
  | JBool b => Some b
  | JNull => Some cur
  | _ => None
  end.

(** An int: the literal has to be an integer in range. *)
Definition dec_int : decoder Z := fun v cur =>
  match v with
  | JNumber literal => Atoi literal
  | JNull => Some cur
  | _ => None
  end.

(** A map[string]A: null makes it nil, and the value of a key decodes into a
    fresh element. *)
Fixpoint dec_entries {A} (zero : A) (dec : decoder A) (members : list (string * json)) (cur : gmap string A)
    : option (gmap string A) :=
  match members with
  | [] => Some cur
  | (k, v) :: members' => x ← dec v zero; dec_entries zero dec members' (<[k := x]> cur)
  end.

Definition dec_map {A} (zero : A) (dec : decoder A) : decoder (gmap string A) := fun v cur =>
  match v with
  | JObject members => dec_entries zero dec members cur
  | JNull => Some ∅
  | _ => None
  end.

(** The document is one value with nothing after it. *)
Definition decodeStrictJSON {A} (dec : decoder A) (data : string) (cur : A) : option A := unmarshal dec data cur.

(** ** Lemmas *)

(** The last occurrence of a key is the one decoded. *)
Lemma dec_entries_lookup {A} (zero : A) dec members cur m k :
  dec_entries zero dec members cur = Some m -> k ∉ members.*1 -> m !! k = cur !! k.
Proof.
  revert cur. induction members as [|[k' v] members IH]; intros cur Hm Hk; cbn in Hm; [by injection Hm as <-|].
  destruct (dec v zero) as [x|]; [|done]. cbn in Hk. apply not_elem_of_cons in Hk as [Hne Hk].
  rewrite (IH _ Hm Hk). by rewrite lookup_insert_ne.
Qed.

Lemma dec_entries_app {A} (zero : A) dec l l' cur :
  dec_entries zero dec (l ++ l') cur = m ← dec_entries zero dec l cur; dec_entries zero dec l' m.
Proof. revert cur. induction l as [|[k v] l IH]; intros cur; cbn; [done|]. destruct (dec v zero); cbn; [apply IH|done]. Qed.

Lemma dec_entries_last {A} (zero : A) dec l k v l' m x :
  dec_entries zero dec (l ++ (k, v) :: l') ∅ = Some m -> k ∉ l'.*1 -> dec v zero = Some x -> m !! k = Some x.
Proof.
  intros Hm Hk Hx. rewrite dec_entries_app in Hm. destruct (dec_entries zero dec l ∅) as [m1|]; [|done]. cbn in Hm.
  rewrite Hx in Hm. cbn in Hm. rewrite (dec_entries_lookup _ _ _ _ _ _ Hm Hk). by rewrite lookup_insert_eq.
Qed.
