(* ===== verification/Lockfiles.v ===== *)
(** Lockfile parsers: what they share.  internal/parser/parser.go, helpers.go,
    scanner.go, and the parts of path/filepath they use.

    A parser reads the bytes of a file and returns packages together with an
    error text when parts of the file were malformed.  Packages with the same
    coordinates are merged into the first one by an index from coordinates to
    positions ([index_add]), which the collection of a scan uses as well. *)
From stdpp Require Import base list option strings gmap.
From Stdlib Require Import Ascii ZArith Lia.
From S2P Require Import Prelude GoStrings AsciiText Collections Domain.

Definition EcosystemNPM : Ecosystem := "npm".
Definition EcosystemPyPI : Ecosystem := "pypi".
Definition EcosystemGo : Ecosystem := "go".
Definition EcosystemMaven : Ecosystem := "maven".

(** ** Paths, as on Unix *)

Definition slash : ascii := "/"%char.

(** Without trailing slashes. *)
Definition strip_slashes (s : string) : string := String.rev (TrimLeft (String.rev s) "/").

(** filepath.Base *)
Definition Base (path : string) : string :=
  if bool_decide (path = "") then "."
  else
    let p := strip_slashes path in
    let b := match LastIndexByte p slash with Some i => str_drop (S i) p | None => p end in
    if bool_decide (b = "") then "/" else b.

(** One segment of the path; the segments kept so far, last first. *)
Definition clean_step (rooted : bool) (kept : list string) (segment : string) : list string :=
  if bool_decide (segment = "") || bool_decide (segment = ".") then kept
  else if bool_decide (segment = "..") then
    match kept with
    | [] => if rooted then [] else [".."]
    | top :: rest => if bool_decide (top = "..") then ".." :: kept else rest
    end
  else segment :: kept.

(** filepath.Clean *)
Definition Clean (path : string) : string :=
  let rooted := HasPrefix path "/" in
  let text := Join (reverse (fold_left (clean_step rooted) (Split path slash) [])) "/" in
  if rooted then "/" +:+ text else if bool_decide (text = "") then "." else text.

Definition baseFilename (path : string) : string := Base path.

(** ** Lines *)

Definition newline : ascii := byte 10.

Definition maxParserLineSize : Z := 16 * 1024 * 1024.

(** The lines of a text: the part after the last newline is one unless it is
    empty. *)
Definition raw_lines (s : string) : list string :=
  let l := Split s newline in
  match last l with
  | Some "" => take (length l - 1) l
  | _ => l
  end.

(** bufio.Scanner stops at a line that does not fit its buffer. *)
Fixpoint scan_lines (lines : list string) : list string * option string :=
  match lines with
  | [] => ([], None)
  | line :: rest =>
      if maxParserLineSize <=? Z.of_nat (String.length line) then ([], Some "bufio.Scanner: token too long")
      else let '(out, err) := scan_lines rest in (TrimSuffix line (String (byte 13) "") :: out, err)
  end.

(** The texts newLineScanner(r) delivers, and its error. *)
Definition newLineScanner (data : string) : list string * option string := scan_lines (raw_lines data).

(** ** Errors and source references *)

Definition joinErrors (errs : list string) : option string :=
  match errs with [] => None | _ => Some (Join errs "; ") end.

Definition cleanSourceRefs (refs : list string) : list string :=
  sorted_set str_cmp (list_to_set (filter (fun ref => ref <> "") (TrimSpace <$> refs)) : gset string).

(** ** Packages indexed by their coordinates *)

Definition packageCollectionKey : Type := string * string * Ecosystem.

Definition collection_key (p : Package) : packageCollectionKey := (pkgName p, pkgVersion p, pkgEcosystem p).

Section indexed.
Context {E : Type} (pkg : E -> Package) (put : Package -> E -> E).

(** The index and the entries. *)
Definition indexed : Type := gmap packageCollectionKey nat * list E.

Definition index_add (st : indexed) (x : E) : indexed :=
  match st.1 !! collection_key (pkg x) with
  | Some i => (st.1, alter (fun e => put (merge_metadata (pkg e) (pkg x)) e) i st.2)
  | None => (<[collection_key (pkg x) := length st.2]> st.1, st.2 ++ [x])
  end.

Fixpoint index_from (i : nat) (l : list E) (m : gmap packageCollectionKey nat) : gmap packageCollectionKey nat :=
  match l with
  | [] => m
  | e :: l' => index_from (S i) l' (<[collection_key (pkg e) := i]> m)
  end.
End indexed.

(** Two packages with the same coordinates are one. *)
Definition dedup (pkgs : list Package) : list Package :=
  (fold_left (index_add id (fun p _ => p)) pkgs (∅, [])).2.

(** ** Parsers and their registry *)

Record Parser := mk_parser {
  CanParse : string -> bool;
  Parse : string -> list Package * option string;
  ParserEcosystem : Ecosystem
}.

(** A descriptor without a factory, or whose factory returns nil, is [None]. *)
Definition RegisterDescriptor (parsers : list Parser) (descriptor : option Parser) : list Parser :=
  match descriptor with None => parsers | Some p => parsers ++ [p] end.

Definition NewRegistry (builtIn extra : list (option Parser)) : list Parser :=
  fold_left RegisterDescriptor extra (fold_left RegisterDescriptor builtIn []).

Definition ParserFor (parsers : list Parser) (path : string) : option Parser :=
  let base := Base path in
  List.find (fun p => CanParse p path || (negb (bool_decide (base = path)) && CanParse p base)) parsers.

(** ** The index: lemmas *)

Section indexed_lemmas.
Context {E : Type} (pkg : E -> Package) (put : Package -> E -> E).
Context (put_pkg : forall p e, pkg (put p e) = p).

(** The index holds the positions of the coordinates, each of which occurs once. *)
Definition index_ok (st : indexed (E := E)) : Prop :=
  forall k i, st.1 !! k = Some i <-> exists e, st.2 !! i = Some e /\ collection_key (pkg e) = k.

Lemma merge_key p q : collection_key (merge_metadata p q) = collection_key p.
Proof. done. Qed.

Lemma index_add_ok st x : index_ok st -> index_ok (index_add pkg put st x).
Proof.
  intros Hok k i. unfold index_add. destruct (st.1 !! collection_key (pkg x)) as [j|] eqn:Hj; cbn [fst snd].
  - rewrite (Hok k i). destruct (decide (j = i)) as [->|Hne]; [|by rewrite list_lookup_alter_ne].
    rewrite list_lookup_alter_eq. split.
    + intros (e & -> & <-). eexists. split; [reflexivity|]. by rewrite put_pkg.
    + intros (e & He & <-). destruct (st.2 !! i) as [e'|] eqn:He'; [|done]. cbn in He. injection He as <-.
      exists e'. by rewrite put_pkg.
  - destruct (decide (collection_key (pkg x) = k)) as [<-|Hne].
    + rewrite lookup_insert_eq. split.
      * intros [= <-]. exists x. by rewrite list_lookup_middle.
      * intros (e & He & Hk). apply lookup_app_Some in He as [He|[Hl He]].
        { assert (st.1 !! collection_key (pkg x) = Some i) by (apply Hok; eauto). congruence. }
        apply list_lookup_singleton_Some in He as [? <-]. f_equal. lia.
    + rewrite lookup_insert_ne by done. rewrite (Hok k i). split.
      * intros (e & He & ?). exists e. by rewrite lookup_app_l_Some with (x := e).
      * intros (e & He & Hk). apply lookup_app_Some in He as [He|[Hl He]]; [eauto|].
        apply list_lookup_singleton_Some in He as [? <-]. congruence.
Qed.

Lemma index_empty_ok : index_ok (∅, []).
Proof. intros k i. cbn. rewrite lookup_empty. split; [done|]. intros (e & He & _). done. Qed.

Lemma index_fold_ok xs st : index_ok st -> index_ok (fold_left (index_add pkg put) xs st).
Proof. revert st. induction xs as [|x xs IH]; intros st Hok; cbn [fold_left]; auto using index_add_ok. Qed.

Lemma index_ok_NoDup st : index_ok st -> NoDup ((fun e => collection_key (pkg e)) <$> st.2).
Proof.
  intros Hok. apply NoDup_alt. intros i j k Hi Hj. rewrite list_lookup_fmap in Hi, Hj.
  destruct (st.2 !! i) as [a|] eqn:Ha, (st.2 !! j) as [b|] eqn:Hb; try done. cbn in Hi, Hj.
  injection Hi as Hi. injection Hj as Hj.
  assert (st.1 !! k = Some i) as E1 by (apply Hok; eauto). assert (st.1 !! k = Some j) as E2 by (apply Hok; eauto). congruence.
Qed.

(** What an entry is made of: the first occurrence of its coordinates, and the
    packages merged into it. *)
Definition merged_from (xs : list E) (e : E) : Prop :=
  exists x rest, filter (fun y => collection_key (pkg y) = collection_key (pkg e)) xs = x :: rest /\
    e = put (fold_left merge_metadata (pkg <$> rest) (pkg x)) x.

Context (put_put : forall p q e, put p (put q e) = put p e) (put_id : forall e, put (pkg e) e = e).

Record groups (xs : list E) (st : indexed (E := E)) : Prop := {
  groups_ok : index_ok st;
  groups_from : forall e, e ∈ st.2 -> merged_from xs e;
  groups_all : forall x, x ∈ xs -> exists e, e ∈ st.2 /\ collection_key (pkg e) = collection_key (pkg x)
}.

Lemma filter_snoc (P : E -> Prop) `{!forall x, Decision (P x)} xs x :
  filter P (xs ++ [x]) = filter P xs ++ (if decide (P x) then [x] else []).
Proof. rewrite filter_app. by rewrite filter_cons, filter_nil. Qed.

Lemma index_add_groups xs st x : groups xs st -> groups (xs ++ [x]) (index_add pkg put st x).
Proof.
  intros [Hok Hfrom Hall]. constructor; [by apply index_add_ok| |].
  - intros e He. unfold index_add in He. destruct (st.1 !! collection_key (pkg x)) as [j|] eqn:Hj; cbn [snd] in He.
    + apply Hok in Hj as (ej & Hej & Hkj). apply list_elem_of_lookup in He as [i Hi].
      destruct (decide (j = i)) as [->|Hne].
      * rewrite list_lookup_alter_eq, Hej in Hi. cbn in Hi. injection Hi as <-.
        destruct (Hfrom ej ltac:(by eapply list_elem_of_lookup_2)) as (y & rest & Hf & Hey).
        exists y, (rest ++ [x]). rewrite filter_snoc, put_pkg, merge_key, Hf, decide_True by done.
        split; [done|]. rewrite fmap_app, fold_left_app. cbn [fmap list_fmap fold_left].
        rewrite Hey, put_pkg, put_put. done.
      * rewrite list_lookup_alter_ne in Hi by done.
        assert (collection_key (pkg x) <> collection_key (pkg e)) as Hk.
        { intros E'. apply Hne. assert (st.1 !! collection_key (pkg x) = Some j) as E1 by (apply Hok; eauto).
          assert (st.1 !! collection_key (pkg x) = Some i) as E2 by (apply Hok; eauto). congruence. }
        destruct (Hfrom e ltac:(by eapply list_elem_of_lookup_2)) as (y & rest & Hf & Hey).
        exists y, rest. by rewrite filter_snoc, Hf, decide_False, app_nil_r by done.
    + apply elem_of_app in He as [He|He].
      * destruct (Hfrom e He) as (y & rest & Hf & Hey). exists y, rest. rewrite filter_snoc, Hf.
        rewrite decide_False, app_nil_r; [done|]. intros E'. apply list_elem_of_lookup in He as [i Hi].
        assert (st.1 !! collection_key (pkg x) = Some i) as E2 by (apply Hok; eauto). congruence.
      * apply list_elem_of_singleton in He as ->. exists x, []. cbn [fmap list_fmap fold_left].
        rewrite filter_snoc, decide_True, put_id by done. split; [|done].
        rewrite filter_none; [done|]. intros y Hy E'.
        destruct (Hall y Hy) as (e & He & Hk). apply list_elem_of_lookup in He as [i Hi].
        assert (st.1 !! collection_key (pkg x) = Some i) as E2 by (apply Hok; exists e; split; [done|congruence]). congruence.
  - intros y Hy. apply elem_of_app in Hy as [Hy|Hy].
    + destruct (Hall y Hy) as (e & He & Hk). unfold index_add.
      destruct (st.1 !! collection_key (pkg x)) as [j|] eqn:Hj; cbn [snd]; [|exists e; rewrite elem_of_app; auto].
      apply list_elem_of_lookup in He as [i Hi]. destruct (decide (j = i)) as [->|Hne].
      * exists (put (merge_metadata (pkg e) (pkg x)) e). rewrite put_pkg, merge_key. split; [|done].
        apply (list_elem_of_lookup_2 _ i). by rewrite list_lookup_alter_eq, Hi.
      * exists e. split; [|done]. apply (list_elem_of_lookup_2 _ i). by rewrite list_lookup_alter_ne.
    + apply list_elem_of_singleton in Hy as ->. unfold index_add.
      destruct (st.1 !! collection_key (pkg x)) as [j|] eqn:Hj; cbn [snd].
      * apply Hok in Hj as (ej & Hej & Hkj). exists (put (merge_metadata (pkg ej) (pkg x)) ej).
        rewrite put_pkg, merge_key. split; [|done]. apply (list_elem_of_lookup_2 _ j). by rewrite list_lookup_alter_eq, Hej.
      * exists x. rewrite elem_of_app, list_elem_of_singleton. auto.
Qed.

Lemma index_groups xs : groups xs (fold_left (index_add pkg put) xs (∅, [])).
Proof.
  induction xs as [|x xs IH] using rev_ind.
  - cbn [fold_left]. constructor; [apply index_empty_ok|by intros e ?%not_elem_of_nil..].
  - rewrite fold_left_app. cbn [fold_left]. by apply index_add_groups.
Qed.
End indexed_lemmas.

Lemma dedup_groups pkgs : groups id (fun p _ => p) pkgs (fold_left (index_add id (fun p _ => p)) pkgs (∅, [])).
Proof. by apply index_groups. Qed.

(** Packages with distinct coordinates are left alone. *)
Lemma dedup_id pkgs : NoDup (collection_key <$> pkgs) -> dedup pkgs = pkgs.
Proof.
  unfold dedup. intros Hnd. induction pkgs as [|p pkgs IH] using rev_ind; [done|].
  rewrite fmap_app, NoDup_app in Hnd. destruct Hnd as (Hnd & Hp & _). rewrite fold_left_app. cbn [fold_left].
  specialize (IH Hnd). pose proof (groups_ok _ _ _ _ (dedup_groups pkgs)) as Hok.
  destruct (fold_left _ pkgs _) as [m out] eqn:Hf. cbn [snd] in IH. subst out. unfold index_add. cbn [fst snd id].
  destruct (m !! collection_key p) as [i|] eqn:Hi; [|done]. exfalso.
  apply (Hok (collection_key p) i) in Hi as (q & Hq & Hk). cbn [snd id] in Hq, Hk.
  apply (Hp (collection_key p)); [|cbn; left]. rewrite <- Hk. apply list_elem_of_fmap_2. by eapply list_elem_of_lookup_2.
Qed.

(** ** Texts made of lines and words *)

Lemma TrimSpace_skip c s : is_ascii s = true -> ascii_space c = true -> TrimSpace (String c s) = TrimSpace s.
Proof.
  intros Hs Hc. rewrite !TrimSpace_ascii; [|done|].
  - cbn [skip_spaces]. by rewrite Hc.
  - rewrite is_ascii_cons, Hs, andb_true_r. unfold ascii_space in Hc. revert Hc. byte_cases.
Qed.

Lemma visible_space c : visible c = true -> ascii_space c = false.
Proof. unfold visible, ascii_space. byte_cases. Qed.

Lemma visible_starts w t : all_bytes visible w = true -> w <> "" -> starts_solid (w +:+ t) = true.
Proof.
  destruct w as [|c w]; [done|]. rewrite all_bytes_cons, andb_true_iff. intros [Hc _] _.
  change (String c w +:+ t) with (String c (w +:+ t)). cbn [starts_solid]. by rewrite visible_space.
Qed.

(** Text between two words. *)
Lemma TrimSpace_words w t w' :
  all_bytes visible w = true -> w <> "" -> is_ascii t = true -> all_bytes visible w' = true -> w' <> "" ->
  TrimSpace (w +:+ t +:+ w') = w +:+ t +:+ w'.
Proof.
  intros Hw Hne Ht Hw' Hne'. apply TrimSpace_solid; [by rewrite !is_ascii_app, Ht, !is_ascii_visible|].
  unfold solid_ends. rewrite visible_starts by done. rewrite <- str_app_assoc, rev_app. apply visible_starts.
  - by rewrite all_bytes_rev.
  - intros E. apply Hne'. by rewrite <- (rev_involutive w'), E.
Qed.

Fixpoint text_of (lines : list string) : string :=
  match lines with
  | [] => ""
  | line :: rest => line +:+ String newline (text_of rest)
  end.

Lemma Split_text lines :
  Forall (fun s => all_bytes (not_byte newline) s = true) lines -> Split (text_of lines) newline = lines ++ [""].
Proof.
  induction 1 as [|line lines Hl _ IH]; [done|]. cbn [text_of]. rewrite Split_app by done. by rewrite IH.
Qed.

Definition line_ok (s : string) : Prop :=
  all_bytes (not_byte newline) s = true /\ TrimSuffix s (String (byte 13) "") = s /\
  Z.of_nat (String.length s) < maxParserLineSize.

(** A text of such lines is read line by line. *)
Lemma newLineScanner_text lines : Forall line_ok lines -> newLineScanner (text_of lines) = (lines, None).
Proof.
  intros Hok. unfold newLineScanner, raw_lines. rewrite Split_text.
  2: { eapply Forall_impl; [exact Hok|]. by intros s (? & _). }
  rewrite last_snoc, length_app. cbn [length]. rewrite Nat.add_sub, take_app_length.
  induction Hok as [|line lines (_ & Hcr & Hlen) _ IH]; [done|]. cbn [scan_lines].
  rewrite (proj2 (Z.leb_gt _ _)) by lia. by rewrite IH, Hcr.
Qed.

Lemma fields_from_word cur w rest :
  all_bytes visible w = true ->
  (rest = "" \/ exists c r, rest = String c r /\ ascii_space c = true) ->
  fields_from cur (w +:+ rest) = fields_from (String.rev w +:+ cur) rest.
Proof.
  intros Hw Hrest. revert cur. induction w as [|c w IH]; intros cur; [done|].
  rewrite all_bytes_cons, andb_true_iff in Hw. destruct Hw as [Hc Hw]. specialize (IH Hw).
  change (String c w +:+ rest) with (String c (w +:+ rest)). cbn [fields_from]. rewrite visible_space by done.
  change (String c w) with (String c "" +:+ w). rewrite rev_app, str_app_assoc.
  change (String.rev (String c "") +:+ cur) with (String c cur). rewrite <- IH.
  destruct (w +:+ rest) as [|c2 s2]; [done|]. rewrite space2_visible by auto.
  destruct s2 as [|c3 s3]; [done|]. by rewrite space3_visible by auto.
Qed.

Lemma flush_word w : w <> "" -> flush (String.rev w +:+ "") = [w].
Proof.
  intros Hne. rewrite str_app_nil. unfold flush. rewrite bool_decide_false; [by rewrite rev_involutive|].
  intros E. apply Hne. by rewrite <- (rev_involutive w), E.
Qed.

Lemma Fields_word w : all_bytes visible w = true -> w <> "" -> Fields w = [w].
Proof.
  intros Hw Hne. unfold Fields. rewrite <- (str_app_nil w) at 1. rewrite fields_from_word by auto. cbn [fields_from].
  by apply flush_word.
Qed.

Lemma Fields_cons w c t : all_bytes visible w = true -> w <> "" -> ascii_space c = true ->
  Fields (w +:+ String c t) = w :: Fields t.
Proof.
  intros Hw Hne Hc. unfold Fields. rewrite fields_from_word by eauto. cbn [fields_from]. rewrite Hc.
  by rewrite flush_word.
Qed.
