(* ===== verification/GoModules.v ===== *)
(** go.mod and go.sum: internal/parser/gomod.go. *)
From stdpp Require Import base list option strings gmap.
From Stdlib Require Import Ascii ZArith Lia.
From S2P Require Import Prelude GoStrings AsciiText Collections Domain Lockfiles.

Definition go_package (module version : string) (direct indirect : bool) : Package :=
  mk_package module version EcosystemGo false direct indirect false false [] [] [] "".

(** The packages and the errors of a loop over lines, in order. *)
Definition packages_of (outcomes : list (string + Package)) : list Package :=
  omap (fun o => match o with inr p => Some p | inl _ => None end) outcomes.
Definition errors_of (outcomes : list (string + Package)) : list string :=
  omap (fun o => match o with inl e => Some e | inr _ => None end) outcomes.

(** ** go.sum *)

(** One line: nothing, an error or a package. *)
Definition go_sum_line (lineNo : Z) (text : string) : option (string + Package) :=
  let line := TrimSpace text in
  if bool_decide (line = "") || HasPrefix line "//" then None
  else match Fields line with
  | module :: version :: _ :: _ =>
      if HasSuffix version "/go.mod" then None
      else
        let version := TrimSuffix version "+incompatible" in
        if bool_decide (module = "") || bool_decide (version = "") then None
        else Some (inr (go_package module version false false))
  | fields =>
      Some (inl ("go.sum:" +:+ Itoa lineNo +:+ ": malformed line (expected 3 fields, got "
                 +:+ Itoa (Z.of_nat (length fields)) +:+ ")"))
  end.

Fixpoint go_sum_loop (lineNo : Z) (lines : list string) : list (string + Package) :=
  match lines with
  | [] => []
  | line :: rest => option_list (go_sum_line lineNo line) ++ go_sum_loop (lineNo + 1) rest
  end.

Definition read_error (what : string) (err : option string) : list string :=
  match err with None => [] | Some e => [what +:+ ": read error: " +:+ e] end.

Definition GoSum_Parse (data : string) : list Package * option string :=
  let '(lines, err) := newLineScanner data in
  let outcomes := go_sum_loop 1 lines in
  (dedup (packages_of outcomes), joinErrors (errors_of outcomes ++ read_error "go.sum" err)).

Definition NewGoSumParser : Parser := mk_parser (fun filename => bool_decide (filename = "go.sum")) GoSum_Parse EcosystemGo.

(** ** go.mod *)

(** The text before a comment, and the comment. *)
Definition cut_comment (line : string) : option (string * string) :=
  i ← Index line "//"; Some (str_take i line, str_drop (i + 2) line).

Definition parseGoRequireLine (line : string) (lineNo : Z) : string + Package :=
  let '(line, indirect) :=
    match cut_comment line with
    | Some (before, comment) => (TrimSpace before, bool_decide ("indirect" ∈ Fields comment))
    | None => (line, false)
    end in
  match Fields line with
  | module :: version :: _ =>
      inr (go_package module (TrimSuffix version "+incompatible") (negb indirect) indirect)
  | _ => inl ("go.mod:" +:+ Itoa lineNo +:+ ": malformed require line")
  end.

(** One line: what it contributes, and whether a require block is open after it. *)
Definition go_mod_line (lineNo : Z) (inBlock : bool) (text : string) : option (string + Package) * bool :=
  let line := TrimSpace text in
  if bool_decide (line = "") || HasPrefix line "//" then (None, inBlock)
  else
    let code := match cut_comment line with Some (before, _) => TrimSpace before | None => line end in
    if HasPrefix code "require" && Contains code "(" then
      let rest := TrimSpace (TrimPrefix (TrimSpace (TrimPrefix code "require")) "(") in
      (if negb (bool_decide (rest = "")) && negb (bool_decide (rest = ")"))
       then Some (parseGoRequireLine rest lineNo) else None, true)
    else if inBlock && Contains code ")" then (None, false)
    else if inBlock then (Some (parseGoRequireLine line lineNo), true)
    else if HasPrefix code "require " then
      (Some (parseGoRequireLine (TrimSpace (TrimPrefix line "require ")) lineNo), false)
    else (None, false).

Fixpoint go_mod_loop (lineNo : Z) (inBlock : bool) (lines : list string) : list (string + Package) :=
  match lines with
  | [] => []
  | line :: rest =>
      let '(outcome, inBlock) := go_mod_line lineNo inBlock line in
      option_list outcome ++ go_mod_loop (lineNo + 1) inBlock rest
  end.

Definition GoMod_Parse (data : string) : list Package * option string :=
  let '(lines, err) := newLineScanner data in
  let outcomes := go_mod_loop 1 false lines in
  (dedup (packages_of outcomes), joinErrors (errors_of outcomes ++ read_error "go.mod" err)).

Definition NewGoModParser : Parser := mk_parser (fun filename => bool_decide (filename = "go.mod")) GoMod_Parse EcosystemGo.

(** ** Reading what a module file says *)

(** A requirement of a module file. *)
Record requirement := mk_requirement { rqModule : string; rqVersion : string; rqIndirect : bool }.

Definition require_line (q : requirement) : string :=
  String (byte 9) (rqModule q +:+ " " +:+ rqVersion q +:+ (if rqIndirect q then " // indirect" else "")).

Definition mod_file (module : string) (reqs : list requirement) : string :=
  text_of (("module " +:+ module) :: "" :: "go 1.22" :: "" :: "require (" :: (require_line <$> reqs) ++ [")"]).

Definition required_package (q : requirement) : Package :=
  go_package (rqModule q) (TrimSuffix (rqVersion q) "+incompatible") (negb (rqIndirect q)) (rqIndirect q).

(** Module paths and versions: words without parentheses and comment signs. *)
Definition path_byte (c : ascii) : bool := visible c && negb (bool_decide (c = "("%char)) && negb (bool_decide (c = ")"%char)).

Definition go_word (s : string) : bool :=
  negb (bool_decide (s = "")) && all_bytes path_byte s && negb (Contains (s +:+ " ") "//") &&
  (Z.of_nat (String.length s) <? 1000000).

Lemma path_visible s : all_bytes path_byte s = true -> all_bytes visible s = true.
Proof. apply all_bytes_impl. intros c. unfold path_byte. rewrite !andb_true_iff. tauto. Qed.

Lemma path_no_paren s : all_bytes path_byte s = true ->
  all_bytes (not_byte "("%char) s = true /\ all_bytes (not_byte ")"%char) s = true.
Proof.
  intros Hs. split; eapply all_bytes_impl; [|exact Hs| |exact Hs]; intros c; unfold path_byte, not_byte; rewrite !andb_true_iff; tauto.
Qed.

Record word_ok (s : string) : Prop := {
  word_ne : s <> "";
  word_path : all_bytes path_byte s = true;
  word_visible : all_bytes visible s = true;
  word_comment : Index (s +:+ " ") "//" = None;
  word_short : Z.of_nat (String.length s) < 1000000
}.

Lemma go_word_ok s : go_word s = true -> word_ok s.
Proof.
  unfold go_word, Contains. rewrite !andb_true_iff, !negb_true_iff, !bool_decide_eq_false, Z.ltb_lt.
  intros [[[Hne Hp] Hc] Hl]. constructor; auto using path_visible. destruct (Index _ _); [|done]. exfalso. apply Hc. eauto.
Qed.

(** A comment sign does not begin before the space. *)
Lemma Index_after s t :
  Index (s +:+ " ") "//" = None ->
  Index (s +:+ String " " t) "//" = (fun i => (String.length s + 1 + i)%nat) <$> Index t "//".
Proof.
  induction s as [|c s IH]; intros Hs.
  - change ("" +:+ String " " t) with (String " " t). cbn [Index HasPrefix]. by destruct (Index t "//").
  - change (String c s +:+ " ") with (String c (s +:+ " ")) in Hs. cbn [Index] in Hs.
    change (String c s +:+ String " " t) with (String c (s +:+ String " " t)). cbn [Index].
    assert (HasPrefix (String c (s +:+ String " " t)) "//" = HasPrefix (String c (s +:+ " ")) "//") as ->.
    { destruct s as [|d s]; [done|]. cbn. by destruct s. }
    destruct (HasPrefix (String c (s +:+ " ")) "//"); [done|]. destruct (Index (s +:+ " ") "//"); [done|].
    rewrite IH by done. cbn [String.length]. by destruct (Index t "//").
Qed.

Lemma cut_comment_none s : Index s "//" = None -> cut_comment s = None.
Proof. unfold cut_comment. by intros ->. Qed.

Lemma Index_word s : word_ok s -> Index s "//" = None.
Proof.
  intros Hs. pose proof (word_comment _ Hs) as Hc. clear Hs. induction s as [|c s IH]; [done|].
  change (String c s +:+ " ") with (String c (s +:+ " ")) in Hc. cbn [Index] in Hc |- *.
  destruct (HasPrefix (String c s) "//") eqn:Hp.
  - apply HasPrefix_spec in Hp as [t Ht]. change (String c (s +:+ " ")) with (String c s +:+ " ") in Hc.
    rewrite Ht, str_app_assoc, HasPrefix_app in Hc. done.
  - destruct (HasPrefix _ "//"); [done|]. destruct (Index (s +:+ " ") "//"); [done|]. by rewrite IH.
Qed.

(** The two words of a requirement. *)
Lemma pair_line m v : word_ok m -> word_ok v ->
  let s := m +:+ String " " v in
  TrimSpace s = s /\ Index s "//" = None /\ Contains s "(" = false /\ Contains s ")" = false /\ Fields s = [m; v] /\
  s <> "" /\ HasPrefix s "//" = false.
Proof.
  intros Hm Hv s. pose proof (path_no_paren _ (word_path _ Hm)) as [M1 M2]. pose proof (path_no_paren _ (word_path _ Hv)) as [V1 V2].
  assert (Index s "//" = None) as Hi. { unfold s. rewrite Index_after by apply Hm. by rewrite Index_word. }
  split_and!; [|done| | | | |].
  - apply (TrimSpace_words m " " v); try apply Hm; try apply Hv; done.
  - unfold Contains. rewrite (Index_none s "(" (not_byte "("%char)); [done| |done]. unfold s.
    change (String " " v) with (" " +:+ v). by rewrite !all_bytes_app, M1, V1.
  - unfold Contains. rewrite (Index_none s ")" (not_byte ")"%char)); [done| |done]. unfold s.
    change (String " " v) with (" " +:+ v). by rewrite !all_bytes_app, M2, V2.
  - unfold s. rewrite Fields_cons; [|apply Hm|apply Hm|done]. rewrite Fields_word; [done|apply Hv..].
  - unfold s. destruct m; [by destruct (word_ne _ Hm)|done].
  - destruct (HasPrefix s "//") eqn:Hp; [|done]. unfold s in *. destruct m as [|c m]; [by destruct (word_ne _ Hm)|].
    change (String c m +:+ String " " v) with (String c (m +:+ String " " v)) in Hi, Hp. cbn [Index] in Hi. by rewrite Hp in Hi.
Qed.

Lemma TrimSpace_trailing s c : is_ascii s = true -> s <> "" -> starts_solid s = true -> ascii_space c = true ->
  TrimSpace (s +:+ String c "") = TrimSpace s.
Proof.
  intros Ha Hne Hs Hc. assert (code c <? 128 = true) as Hlow by (revert Hc; unfold ascii_space; byte_cases).
  rewrite !TrimSpace_ascii; [|done|by rewrite is_ascii_app, Ha, is_ascii_cons, Hlow].
  rewrite (skip_spaces_id s Hs), (skip_spaces_id (s +:+ String c "")) by (by destruct s).
  rewrite rev_app. change (String.rev (String c "") +:+ String.rev s) with (String c (String.rev s)).
  cbn [skip_spaces]. by rewrite Hc.
Qed.

Lemma commented_line m v : word_ok m -> word_ok v ->
  let s := m +:+ String " " v in
  TrimSpace (s +:+ " // indirect") = s +:+ " // indirect" /\
  cut_comment (s +:+ " // indirect") = Some (s +:+ " ", " indirect") /\ TrimSpace (s +:+ " ") = s /\
  HasPrefix (s +:+ " // indirect") "//" = false.
Proof.
  intros Hm Hv s. destruct (pair_line m v Hm Hv) as (Ht & _ & _ & _ & _ & Hne & _). fold s in Ht, Hne.
  assert (is_ascii s = true) as Ha.
  { unfold s. change (String " " v) with (" " +:+ v). by rewrite !is_ascii_app, (is_ascii_visible m), (is_ascii_visible v) by (apply Hm || apply Hv). }
  assert (Index (s +:+ " // indirect") "//" = Some (String.length s + 1)%nat) as Hi.
  { change " // indirect" with (String " " "// indirect"). rewrite Index_after.
    { change (Index "// indirect" "//") with (Some 0%nat). cbn [fmap option_fmap option_map]. by rewrite Nat.add_0_r. }
    unfold s. rewrite str_app_assoc. change (String " " v +:+ " ") with (String " " (v +:+ " ")).
    rewrite Index_after by apply Hm. by rewrite (word_comment _ Hv). }
  split_and!.
  - assert (s +:+ " // indirect" = m +:+ (String " " v +:+ " // ") +:+ "indirect") as -> by (unfold s; by rewrite !str_app_assoc).
    apply TrimSpace_words; try apply Hm; try done. change (String " " v) with (" " +:+ v).
    by rewrite !is_ascii_app, (is_ascii_visible v) by apply Hv.
  - unfold cut_comment. rewrite Hi. cbn [mbind option_bind]. f_equal.
    assert (s +:+ " // indirect" = (s +:+ " ") +:+ "// indirect") as -> by (by rewrite str_app_assoc).
    assert (String.length s + 1 = String.length (s +:+ " "))%nat as -> by (by rewrite str_len_app).
    rewrite str_take_app, Nat.add_comm, str_drop_app. done.
  - rewrite TrimSpace_trailing; [done|done|done| |done]. unfold s. apply visible_starts; apply Hm.
  - destruct (HasPrefix (s +:+ " // indirect") "//") eqn:Hp; [|done]. exfalso.
    destruct s as [|c s']; [done|]. change (String c s' +:+ " // indirect") with (String c (s' +:+ " // indirect")) in Hi, Hp.
    cbn [Index] in Hi. rewrite Hp in Hi. done.
Qed.

Lemma require_line_read n q : word_ok (rqModule q) -> word_ok (rqVersion q) ->
  go_mod_line n true (require_line q) = (Some (inr (required_package q)), true).
Proof.
  destruct q as [m v ind]. cbn [rqModule rqVersion]. intros Hm Hv.
  destruct (pair_line m v Hm Hv) as (Ht & Hi & Hl & Hr & Hf & Hne & Hp).
  destruct (commented_line m v Hm Hv) as (Ht' & Hcut & Htrim & Hp'). cbv zeta in *.
  unfold go_mod_line, require_line. cbn [rqModule rqVersion rqIndirect].
  assert (is_ascii (m +:+ String " " v) = true) as Ha.
  { change (String " " v) with (" " +:+ v). by rewrite !is_ascii_app, (is_ascii_visible m), (is_ascii_visible v) by (apply Hm || apply Hv). }
  destruct ind.
  - assert (m +:+ " " +:+ v +:+ " // indirect" = (m +:+ String " " v) +:+ " // indirect") as -> by (by rewrite str_app_assoc).
    rewrite TrimSpace_skip, Ht' by (done || by rewrite is_ascii_app, Ha).
    rewrite bool_decide_false by (by destruct m). rewrite Hp'. cbn [orb].
    rewrite Hcut, Htrim, Hl, Hr, andb_false_r. cbn [andb]. unfold parseGoRequireLine. rewrite Hcut, Htrim, Hf. done.
  - assert (m +:+ " " +:+ v +:+ "" = m +:+ String " " v) as -> by (by rewrite (str_app_nil v)).
    rewrite TrimSpace_skip, Ht by done. rewrite (bool_decide_false _ Hne), Hp. cbn [orb].
    rewrite (cut_comment_none _ Hi), Hl, Hr, andb_false_r. cbn [andb]. unfold parseGoRequireLine.
    rewrite (cut_comment_none _ Hi), Hf. done.
Qed.

Definition plain_byte (c : ascii) : bool := not_byte newline c && not_byte (byte 13) c.

Lemma TrimSuffix_none s c : all_bytes (not_byte c) s = true -> TrimSuffix s (String c "") = s.
Proof.
  intros Hs. unfold TrimSuffix, HasSuffix. change (String.rev (String c "")) with (String c "").
  destruct (HasPrefix (String.rev s) (String c "")) eqn:Hp; [|done]. exfalso.
  apply (HasPrefix_byte _ _ (not_byte c)) in Hp; [|by rewrite all_bytes_rev]. unfold not_byte in Hp.
  rewrite all_bytes_cons, bool_decide_true in Hp by done. done.
Qed.

Lemma plain_line s : all_bytes plain_byte s = true -> Z.of_nat (String.length s) < maxParserLineSize -> line_ok s.
Proof.
  intros Hs Hl. split_and!; [| |done]; [|apply TrimSuffix_none]; (eapply all_bytes_impl; [|exact Hs]);
    intros c; unfold plain_byte; rewrite andb_true_iff; tauto.
Qed.

Lemma visible_plain s : all_bytes visible s = true -> all_bytes plain_byte s = true.
Proof.
  apply all_bytes_impl. intros c Hc. unfold plain_byte, not_byte. rewrite !bool_decide_false; [done| |]; intros ->; by vm_compute in Hc.
Qed.

Lemma word_line (a : string) w b : word_ok w -> all_bytes plain_byte a = true -> all_bytes plain_byte b = true ->
  all_bytes plain_byte (a +:+ w +:+ b) = true.
Proof. intros Hw Ha Hb. by rewrite !all_bytes_app, Ha, Hb, visible_plain by apply Hw. Qed.

Lemma require_line_ok q : word_ok (rqModule q) -> word_ok (rqVersion q) -> line_ok (require_line q).
Proof.
  intros Hm Hv. unfold require_line. apply plain_line.
  - change (all_bytes plain_byte (String (byte 9) "" +:+ rqModule q +:+ (" " +:+ rqVersion q +:+
      (if rqIndirect q then " // indirect" else ""))) = true).
    apply word_line; [done|done|]. apply word_line; [done|done|]. by destruct (rqIndirect q).
  - cbn [String.length]. rewrite !str_len_app. pose proof (word_short _ Hm). pose proof (word_short _ Hv).
    unfold maxParserLineSize. destruct (rqIndirect q); cbn [String.length]; lia.
Qed.

Definition requirement_ok (q : requirement) : bool := go_word (rqModule q) && go_word (rqVersion q).

Lemma requirement_words q : requirement_ok q = true -> word_ok (rqModule q) /\ word_ok (rqVersion q).
Proof. unfold requirement_ok. rewrite andb_true_iff. intros [? ?]. auto using go_word_ok. Qed.

Lemma go_mod_block n reqs : Forall (fun q => requirement_ok q = true) reqs ->
  go_mod_loop n true ((require_line <$> reqs) ++ [")"]) = inr ∘ required_package <$> reqs.
Proof.
  intros Hreqs. revert n. induction Hreqs as [|q reqs Hq _ IH]; intros n; [done|].
  destruct (requirement_words q Hq) as [Hm Hv]. cbn [fmap list_fmap app go_mod_loop].
  rewrite require_line_read by done. cbn [option_list app]. by rewrite IH.
Qed.

Lemma module_line n s : word_ok s -> go_mod_line n false ("module " +:+ s) = (None, false).
Proof.
  intros Hs. unfold go_mod_line.
  change ("module " +:+ s) with ("module" +:+ " " +:+ s).
  rewrite TrimSpace_words by (done || apply Hs). change ("module" +:+ " " +:+ s) with ("module" +:+ String " " s).
  rewrite cut_comment_none; [done|]. rewrite Index_after by done. by rewrite Index_word.
Qed.

Lemma outcomes_packages {A} (f : A -> Package) (l : list A) :
  packages_of (inr ∘ f <$> l) = f <$> l /\ errors_of (inr ∘ f <$> l) = [].
Proof. unfold packages_of, errors_of. induction l as [|p l [IH1 IH2]]; [done|]. cbn in *. by rewrite IH1, IH2. Qed.

Lemma go_mod_loop_cons n inBlock line rest out : go_mod_line n inBlock line = out ->
  go_mod_loop n inBlock (line :: rest) = option_list out.1 ++ go_mod_loop (n + 1) out.2 rest.
Proof. intros <-. cbn [go_mod_loop]. by destruct (go_mod_line n inBlock line). Qed.

(** C40: a module file is read for what it says: every requirement of its block is
    returned once, with the version as the advisories write it and its direct or
    indirect place, and nothing else is. *)
Theorem go_mod_roundtrip module reqs :
  go_word module = true -> Forall (fun q => requirement_ok q = true) reqs -> NoDup (collection_key ∘ required_package <$> reqs) ->
  GoMod_Parse (mod_file module reqs) = (required_package <$> reqs, None).
Proof.
  intros Hmod%go_word_ok Hreqs Hnd. unfold GoMod_Parse, mod_file. rewrite newLineScanner_text.
  2: { repeat (apply Forall_cons; split); [|by apply plain_line..|].
    - apply plain_line; [by rewrite all_bytes_app, (visible_plain module) by apply Hmod|]. rewrite str_len_app. pose proof (word_short _ Hmod).
      unfold maxParserLineSize. cbn [String.length]. lia.
    - apply Forall_app. split; [|by constructor; [apply plain_line|]]. apply Forall_fmap. eapply Forall_impl; [exact Hreqs|].
      intros q [Hm Hv]%requirement_words. by apply require_line_ok. }
  rewrite (go_mod_loop_cons _ _ _ _ _ (module_line 1 module Hmod)). cbn [fst snd option_list app].
  do 3 (rewrite (go_mod_loop_cons _ _ _ _ (None, false)) by reflexivity; cbn [fst snd option_list app]).
  rewrite (go_mod_loop_cons _ _ _ _ (None, true)) by reflexivity. cbn [fst snd option_list app].
  rewrite go_mod_block by done.
  change (option_list (@None (string + Package))) with (@nil (string + Package)). cbn [app].
  destruct (outcomes_packages required_package reqs) as [-> ->]. cbn [app read_error joinErrors].
  rewrite dedup_id; [done|]. by rewrite <- list_fmap_compose.
Qed.

(** ** go.sum *)

Record checksum := mk_checksum { ckModule : string; ckVersion : string; ckHash : string }.

Definition sum_line (module version hash : string) : string := module +:+ String " " (version +:+ String " " hash).

(** The two lines of a module: its archive and its module file. *)
Definition checksum_lines (c : checksum) : list string :=
  [sum_line (ckModule c) (ckVersion c) (ckHash c); sum_line (ckModule c) (ckVersion c +:+ "/go.mod") (ckHash c)].

Definition sum_file (cs : list checksum) : string := text_of (cs ≫= checksum_lines).

Definition summed_package (c : checksum) : Package :=
  go_package (ckModule c) (TrimSuffix (ckVersion c) "+incompatible") false false.

Definition checksum_ok (c : checksum) : bool :=
  go_word (ckModule c) && go_word (ckVersion c) && go_word (ckHash c) && negb (HasSuffix (ckVersion c) "/go.mod") &&
  negb (bool_decide (TrimSuffix (ckVersion c) "+incompatible" = "")).

Lemma word_prefix m t : word_ok m -> HasPrefix (m +:+ String " " t) "//" = false.
Proof.
  intros Hm. pose proof (word_ne _ Hm) as Hne. pose proof (word_comment _ Hm) as Hc. destruct m as [|c s]; [done|].
  change (String c s +:+ " ") with (String c (s +:+ " ")) in Hc. cbn [Index] in Hc.
  change (String c s +:+ String " " t) with (String c (s +:+ String " " t)).
  assert (HasPrefix (String c (s +:+ String " " t)) "//" = HasPrefix (String c (s +:+ " ")) "//") as ->.
  { destruct s as [|d s]; [done|]. cbn. by destruct s. }
  by destruct (HasPrefix _ "//").
Qed.

Lemma sum_line_fields m v h : word_ok m -> all_bytes visible v = true -> v <> "" -> word_ok h ->
  TrimSpace (sum_line m v h) = sum_line m v h /\ Fields (sum_line m v h) = [m; v; h] /\
  bool_decide (sum_line m v h = "") || HasPrefix (sum_line m v h) "//" = false.
Proof.
  intros Hm Hv Hne Hh. unfold sum_line. split_and!.
  - assert (m +:+ String " " (v +:+ String " " h) = m +:+ (String " " v +:+ " ") +:+ h) as ->
      by (rewrite !str_app_assoc; f_equal; by rewrite str_app_assoc).
    apply TrimSpace_words; try apply Hm; try apply Hh. change (String " " v) with (" " +:+ v).
    by rewrite !is_ascii_app, (is_ascii_visible v).
  - rewrite Fields_cons by (done || apply Hm). rewrite Fields_cons by done. by rewrite Fields_word by apply Hh.
  - rewrite word_prefix, bool_decide_false by done || (destruct m; [by destruct (word_ne _ Hm)|done]). done.
Qed.

Lemma HasSuffix_app s t : HasSuffix (s +:+ t) t = true.
Proof. unfold HasSuffix. by rewrite rev_app, HasPrefix_app. Qed.

Lemma checksum_read n c : checksum_ok c = true ->
  go_sum_line n (sum_line (ckModule c) (ckVersion c) (ckHash c)) = Some (inr (summed_package c)) /\
  go_sum_line n (sum_line (ckModule c) (ckVersion c +:+ "/go.mod") (ckHash c)) = None /\
  Forall line_ok (checksum_lines c).
Proof.
  unfold checksum_ok. rewrite !andb_true_iff, !negb_true_iff, bool_decide_eq_false.
  intros [[[[Hm%go_word_ok Hv%go_word_ok] Hh%go_word_ok] Hsuf] Hver].
  assert (all_bytes visible (ckVersion c +:+ "/go.mod") = true) as Hv2 by (by rewrite all_bytes_app, (word_visible _ Hv)).
  assert (ckVersion c +:+ "/go.mod" <> "") as Hne2 by (pose proof (word_ne _ Hv); by destruct (ckVersion c)).
  destruct (sum_line_fields _ _ _ Hm (word_visible _ Hv) (word_ne _ Hv) Hh) as (T1 & F1 & P1).
  destruct (sum_line_fields _ _ _ Hm Hv2 Hne2 Hh) as (T2 & F2 & P2).
  split_and!.
  - unfold go_sum_line. rewrite T1, P1, F1, Hsuf, (bool_decide_false _ Hver), bool_decide_false by apply Hm. done.
  - unfold go_sum_line. by rewrite T2, P2, F2, HasSuffix_app.
  - pose proof (word_short _ Hm). pose proof (word_short _ Hv). pose proof (word_short _ Hh).
    assert (forall v, all_bytes visible v = true -> (String.length v <= String.length (ckVersion c) + 7)%nat ->
      line_ok (sum_line (ckModule c) v (ckHash c))) as Hline.
    { intros v Hvis Hlen. unfold sum_line. apply plain_line.
      - rewrite all_bytes_app, (visible_plain (ckModule c)) by apply Hm. cbn [andb].
        change (String " " (v +:+ String " " (ckHash c))) with (" " +:+ v +:+ " " +:+ ckHash c).
        by rewrite !all_bytes_app, (visible_plain v), (visible_plain (ckHash c)) by (done || apply Hh).
      - rewrite str_len_app. cbn [String.length]. rewrite str_len_app. cbn [String.length]. unfold maxParserLineSize. lia. }
    apply Forall_cons; split; [apply Hline; [apply Hv|lia]|]. apply Forall_singleton. apply Hline; [done|].
    rewrite str_len_app. cbn [String.length]. lia.
Qed.

Lemma go_sum_block n cs : Forall (fun c => checksum_ok c = true) cs ->
  go_sum_loop n (cs ≫= checksum_lines) = inr ∘ summed_package <$> cs.
Proof.
  intros Hcs. revert n. induction Hcs as [|c cs Hc _ IH]; intros n; [done|].
  destruct (checksum_read n c Hc) as (R1 & _ & _), (checksum_read (n + 1) c Hc) as (_ & R2 & _).
  cbn [mbind list_bind checksum_lines app go_sum_loop]. rewrite R1, R2. cbn. f_equal. apply IH.
Qed.

(** A checksum file is read for what it says: every module whose archive it
    names is returned once, and the lines of module files add nothing. *)
Theorem go_sum_roundtrip cs :
  Forall (fun c => checksum_ok c = true) cs -> NoDup (collection_key ∘ summed_package <$> cs) ->
  GoSum_Parse (sum_file cs) = (summed_package <$> cs, None).
Proof.
  intros Hcs Hnd. unfold GoSum_Parse, sum_file. rewrite newLineScanner_text.
  2: { induction Hcs as [|c cs Hc _ IH]; [done|]. cbn [mbind list_bind]. apply Forall_app.
       destruct (checksum_read 1 c Hc) as (_ & _ & Hl). split; [done|]. apply IH. by apply NoDup_cons in Hnd as [_ ?]. }
  rewrite go_sum_block by done. destruct (outcomes_packages summed_package cs) as [-> ->].
  cbn [app read_error joinErrors]. rewrite dedup_id; [done|]. by rewrite <- list_fmap_compose.
Qed.

(** ** Witnesses *)

Lemma go_mod_roundtrip_witness :
  GoMod_Parse (mod_file "example.com/app" [mk_requirement "golang.org/x/text" "v0.3.7" true;
                                           mk_requirement "github.com/a/b" "v2.0.0+incompatible" false]) =
  ([go_package "golang.org/x/text" "v0.3.7" false true; go_package "github.com/a/b" "v2.0.0" true false], None).
Proof.
  apply (go_mod_roundtrip "example.com/app" [mk_requirement "golang.org/x/text" "v0.3.7" true;
                                             mk_requirement "github.com/a/b" "v2.0.0+incompatible" false]).
  - vm_compute. reflexivity.
  - by repeat constructor.
  - apply (bool_decide_eq_true_1 _). vm_compute. reflexivity.
Defined.

Lemma go_sum_roundtrip_witness :
  GoSum_Parse (sum_file [mk_checksum "golang.org/x/text" "v0.3.7" "h1:ab="]) =
  ([go_package "golang.org/x/text" "v0.3.7" false false], None).
Proof.
  apply (go_sum_roundtrip [mk_checksum "golang.org/x/text" "v0.3.7" "h1:ab="]).
  - by repeat constructor.
  - apply (bool_decide_eq_true_1 _). vm_compute. reflexivity.
Defined.
