(* ===== verification/NpmLock.v ===== *)
(** package-lock.json: internal/parser/npm.go.

    Beside the packages themselves the parser works out, from the dependency
    graph in the file, which are direct, through which root dependencies the
    others are reached ("via"), and their immediate parents.  The roots are
    propagated by a work list over the graph. *)
From stdpp Require Import base list option strings gmap relations.
From Stdlib Require Import Ascii ZArith Lia.
From S2P Require Import Prelude GoStrings GoNumbers Json JsonMaps Collections Domain Lockfiles.

(** ** The file *)

Record packageLockPkg := mk_lock_pkg {
  lpVersion : string;
  lpResolved : string;
  lpDev : bool;
  lpOptional : bool;
  lpPeer : bool;
  lpDependencies : gmap string string;
  lpDevDependencies : gmap string string;
  lpOptionalDependencies : gmap string string;
  lpPeerDependencies : gmap string string
}.

Record packageLockDep := mk_lock_dep { ldVersion : string; ldResolved : string; ldDev : bool }.

Record packageLock := mk_lock {
  LockfileVersion : Z;
  lockPackages : gmap string packageLockPkg;
  lockDependencies : gmap string packageLockDep
}.

Definition empty_pkg : packageLockPkg := mk_lock_pkg "" "" false false false ∅ ∅ ∅ ∅.
Definition empty_dep : packageLockDep := mk_lock_dep "" "" false.
Definition empty_lock : packageLock := mk_lock 0 ∅ ∅.

Section npm.
Context {U : UnicodeCase} {MO : MapOrder}.

Definition dec_names : decoder (gmap string string) := dec_map "" dec_string.

Definition set_pkg_field (field : string) : decoder packageLockPkg := fun v p =>
  let 'mk_lock_pkg ver res dev opt peer d dd od pd := p in
  if bool_decide (field = "version") then x ← dec_string v ver; Some (mk_lock_pkg x res dev opt peer d dd od pd)
  else if bool_decide (field = "resolved") then x ← dec_string v res; Some (mk_lock_pkg ver x dev opt peer d dd od pd)
  else if bool_decide (field = "dev") then x ← dec_bool v dev; Some (mk_lock_pkg ver res x opt peer d dd od pd)
  else if bool_decide (field = "optional") then x ← dec_bool v opt; Some (mk_lock_pkg ver res dev x peer d dd od pd)
  else if bool_decide (field = "peer") then x ← dec_bool v peer; Some (mk_lock_pkg ver res dev opt x d dd od pd)
  else if bool_decide (field = "dependencies") then x ← dec_names v d; Some (mk_lock_pkg ver res dev opt peer x dd od pd)
  else if bool_decide (field = "devDependencies") then x ← dec_names v dd; Some (mk_lock_pkg ver res dev opt peer d x od pd)
  else if bool_decide (field = "optionalDependencies") then x ← dec_names v od; Some (mk_lock_pkg ver res dev opt peer d dd x pd)
  else x ← dec_names v pd; Some (mk_lock_pkg ver res dev opt peer d dd od x).

Definition dec_pkg : decoder packageLockPkg :=
  dec_struct ["version"; "resolved"; "dev"; "optional"; "peer"; "dependencies"; "devDependencies"; "optionalDependencies";
              "peerDependencies"] set_pkg_field.

Definition set_dep_field (field : string) : decoder packageLockDep := fun v p =>
  let 'mk_lock_dep ver res dev := p in
  if bool_decide (field = "version") then x ← dec_string v ver; Some (mk_lock_dep x res dev)
  else if bool_decide (field = "resolved") then x ← dec_string v res; Some (mk_lock_dep ver x dev)
  else x ← dec_bool v dev; Some (mk_lock_dep ver res x).

Definition dec_dep : decoder packageLockDep := dec_struct ["version"; "resolved"; "dev"] set_dep_field.

Definition set_lock_field (field : string) : decoder packageLock := fun v p =>
  let 'mk_lock ver pkgs deps := p in
  if bool_decide (field = "lockfileVersion") then x ← dec_int v ver; Some (mk_lock x pkgs deps)
  else if bool_decide (field = "packages") then x ← dec_map empty_pkg dec_pkg v pkgs; Some (mk_lock ver x deps)
  else x ← dec_map empty_dep dec_dep v deps; Some (mk_lock ver pkgs x).

Definition dec_lock : decoder packageLock := dec_struct ["lockfileVersion"; "packages"; "dependencies"] set_lock_field.

(** ** Resolving dependencies *)

Definition npmNameFromKey (key : string) : string :=
  match LastIndex key "node_modules/" with
  | None => ""
  | Some i => str_drop (i + 13) key
  end.

(** The keys of a name, sorted: an entry of keysByName. *)
Definition keysByName (packages : gmap string packageLockPkg) (name : string) : list string :=
  sort_by str_cmp (filter (fun key => key <> "" /\ npmNameFromKey key <> "" /\ npmNameFromKey key = name)
                     (range_map packages).*1).

(** The loop over the directories above [base]; a step shortens [base], so its
    length is enough fuel. *)
Fixpoint nearest_key (fuel : nat) (packages : gmap string packageLockPkg) (base name : string) : option string :=
  let candidate := base +:+ "/node_modules/" +:+ name in
  if bool_decide (is_Some (packages !! candidate)) then Some candidate
  else match fuel, LastIndex base "/node_modules/" with
       | S fuel', Some i => nearest_key fuel' packages (str_take i base) name
       | _, _ => None
       end.

Definition dependencyKey (packages : gmap string packageLockPkg) (parentKey name : string) : string :=
  if bool_decide (TrimSpace name = "") then ""
  else
    match (if bool_decide (parentKey = "") then None
           else nearest_key (String.length parentKey) packages parentKey name) with
    | Some candidate => candidate
    | None =>
        let rootCandidate := "node_modules/" +:+ name in
        if bool_decide (is_Some (packages !! rootCandidate)) then rootCandidate
        else match keysByName packages name with
             | first :: _ => first
             | [] => ""
             end
    end.

Definition rootPackageKey (packages : gmap string packageLockPkg) (name : string) : string := dependencyKey packages "" name.

Definition nonblank (names : list string) : list string := filter (fun name => TrimSpace name <> "") names.

Definition npmDependencyNames (entry : packageLockPkg) : list string :=
  sorted_set str_cmp (list_to_set (nonblank ((range_map (lpDependencies entry)).*1 ++
    (range_map (lpOptionalDependencies entry)).*1 ++ (range_map (lpPeerDependencies entry)).*1)) : gset string).

Definition dependencyNames (packages : gmap string packageLockPkg) (packageKey : string) : list string :=
  npmDependencyNames (default empty_pkg (packages !! packageKey)).

Definition resolvedDependencyKeys (packages : gmap string packageLockPkg) (packageKey : string) : list string :=
  sort_by str_cmp (filter (.≠ "") (dependencyKey packages packageKey <$> dependencyNames packages packageKey)).

(** ** Root dependencies *)

Record npmRootDependency := mk_root_dep { rootDev : bool; rootOptional : bool; rootPeer : bool }.

Definition no_scope : npmRootDependency := mk_root_dep false false false.

Definition add_root_deps (scope : npmRootDependency) (out : gmap string npmRootDependency) (deps : gmap string string)
    : gmap string npmRootDependency :=
  fold_left (fun out name =>
    let info := default no_scope (out !! name) in
    <[name := mk_root_dep (rootDev info || rootDev scope) (rootOptional info || rootOptional scope)
                (rootPeer info || rootPeer scope)]> out)
    (nonblank (range_map deps).*1) out.

Definition npmRootDependencies (root : packageLockPkg) : gmap string npmRootDependency :=
  let out := add_root_deps no_scope ∅ (lpDependencies root) in
  let out := add_root_deps (mk_root_dep true false false) out (lpDevDependencies root) in
  let out := add_root_deps (mk_root_dep false true false) out (lpOptionalDependencies root) in
  add_root_deps (mk_root_dep false false true) out (lpPeerDependencies root).

Record npmPackageMeta := mk_meta {
  mDirect : bool;
  mIndirect : bool;
  mDev : bool;
  mOptional : bool;
  mPeer : bool;
  mVia : list string;
  mParents : list PackageParent
}.

Definition empty_meta : npmPackageMeta := mk_meta false false false false false [] [].

Definition direct_step (packages : gmap string packageLockPkg) (m : gmap string npmRootDependency)
    (kv : string * npmRootDependency) : gmap string npmRootDependency :=
  let key := rootPackageKey packages kv.1 in if bool_decide (key = "") then m else <[key := kv.2]> m.

Definition direct_by_key (packages : gmap string packageLockPkg) (directDeps : gmap string npmRootDependency)
    : gmap string npmRootDependency :=
  fold_left (direct_step packages) (range_map directDeps) ∅.

Definition direct_meta (directByKey : gmap string npmRootDependency) (key : string) (entry : packageLockPkg) : npmPackageMeta :=
  let rootInfo := default no_scope (directByKey !! key) in
  let direct := bool_decide (is_Some (directByKey !! key)) in
  mk_meta direct (negb direct) (rootDev rootInfo) (lpOptional entry || rootOptional rootInfo)
    (lpPeer entry || rootPeer rootInfo) [] [].

Definition direct_meta_step (directByKey : gmap string npmRootDependency) (m : gmap string npmPackageMeta)
    (kv : string * packageLockPkg) : gmap string npmPackageMeta :=
  if bool_decide (kv.1 = "") || bool_decide (npmNameFromKey kv.1 = "") then m
  else <[kv.1 := direct_meta directByKey kv.1 kv.2]> m.

Definition npmDirectDependencyMetadata (packages : gmap string packageLockPkg) (directDeps : gmap string npmRootDependency)
    : gmap string npmPackageMeta :=
  fold_left (direct_meta_step (direct_by_key packages directDeps)) (range_map packages) ∅.

(** ** Propagation of the roots *)

Record via_state := mk_via {
  viaRoots : gmap string (gset string);
  propagatedRoots : gmap string (gset string);
  queued : gset string;
  queue : list string
}.

Definition roots_of (m : gmap string (gset string)) (key : string) : gset string := default ∅ (m !! key).

Definition enqueue (key : string) (st : via_state) : via_state :=
  if bool_decide (key ∈ queued st) then st
  else mk_via (viaRoots st) (propagatedRoots st) ({[key]} ∪ queued st) (queue st ++ [key]).

(** Whether the root was new, and the state. *)
Definition addRoot (key rootName : string) (st : via_state) : bool * via_state :=
  if bool_decide (rootName ∈ roots_of (viaRoots st) key) then (false, st)
  else (true, mk_via (<[key := {[rootName]} ∪ roots_of (viaRoots st) key]> (viaRoots st)) (propagatedRoots st)
                (queued st) (queue st)).

Definition add_roots (key : string) (names : list string) (st : via_state) : bool * via_state :=
  fold_left (fun '(added, st) rootName => let '(new, st) := addRoot key rootName st in (new || added, st)) names (false, st).

Definition start_root (packages : gmap string packageLockPkg) (st : via_state) (rootName : string) : via_state :=
  let rootKey := rootPackageKey packages rootName in
  if bool_decide (rootKey = "") then st
  else let '(added, st) := addRoot rootKey rootName st in if added : bool then enqueue rootKey st else st.

Definition npmPendingViaRoots (roots propagated : gset string) : list string := sorted_set str_cmp (roots ∖ propagated).

Definition push_dep (key : string) (pending : list string) (st : via_state) (depKey : string) : via_state :=
  if bool_decide (depKey = key) then st
  else let '(added, st) := add_roots depKey pending st in if added : bool then enqueue depKey st else st.

(** One round of the work list on the key at its head. *)
Definition via_round (packages : gmap string packageLockPkg) (key : string) (rest : list string) (st : via_state) : via_state :=
  let st := mk_via (viaRoots st) (propagatedRoots st) (queued st ∖ {[key]}) rest in
  let pending := npmPendingViaRoots (roots_of (viaRoots st) key) (roots_of (propagatedRoots st) key) in
  if bool_decide (pending = []) then st
  else
    let propagated := roots_of (propagatedRoots st) key ∪ list_to_set pending in
    let st := mk_via (viaRoots st) (<[key := propagated]> (propagatedRoots st)) (queued st) (queue st) in
    fold_left (push_dep key pending) (resolvedDependencyKeys packages key) st.

Fixpoint via_loop (fuel : nat) (packages : gmap string packageLockPkg) (st : via_state) : option via_state :=
  match queue st with
  | [] => Some st
  | key :: rest =>
      match fuel with
      | O => None
      | S fuel' => via_loop fuel' packages (via_round packages key rest st)
      end
  end.

Definition start_state (packages : gmap string packageLockPkg) (directDeps : gmap string npmRootDependency) : via_state :=
  fold_left (start_root packages) (sort_by str_cmp (range_map directDeps).*1) (mk_via ∅ ∅ ∅ []).

(** Every round but the last ones takes a new pair of a key and a root. *)
Definition via_fuel (packages : gmap string packageLockPkg) (directDeps : gmap string npmRootDependency) : nat :=
  size packages * size directDeps.

Definition npmSortedStringSet (values : gset string) : list string :=
  sort_by str_cmp (nonblank (elements values)).

Definition set_via (metadata : gmap string npmPackageMeta) (kv : string * gset string) : gmap string npmPackageMeta :=
  let meta := default empty_meta (metadata !! kv.1) in
  if mDirect meta then metadata
  else <[kv.1 := mk_meta (mDirect meta) (mIndirect meta) (mDev meta) (mOptional meta) (mPeer meta)
                   (npmSortedStringSet kv.2) (mParents meta)]> metadata.

Definition npmPropagateViaRoots (metadata : gmap string npmPackageMeta) (packages : gmap string packageLockPkg)
    (directDeps : gmap string npmRootDependency) : gmap string npmPackageMeta :=
  match via_loop (via_fuel packages directDeps) packages (start_state packages directDeps) with
  | Some st => fold_left set_via (range_map (viaRoots st)) metadata
  | None => metadata
  end.

(** ** Parents *)

Definition add_parent_edge (packages : gmap string packageLockPkg) (parentKey : string) (parent : PackageParent)
    (metadata : gmap string npmPackageMeta) (depName : string) : gmap string npmPackageMeta :=
  let depKey := dependencyKey packages parentKey depName in
  if bool_decide (depKey = "") || bool_decide (depKey = parentKey) then metadata
  else
    let meta := default empty_meta (metadata !! depKey) in
    <[depKey := mk_meta (mDirect meta) (mIndirect meta) (mDev meta) (mOptional meta) (mPeer meta) (mVia meta)
                  (MergePackageParents (mParents meta) [parent])]> metadata.

Definition npmCollectParentEdges (metadata : gmap string npmPackageMeta) (packages : gmap string packageLockPkg)
    : gmap string npmPackageMeta :=
  fold_left (fun metadata kv =>
    let '(parentKey, parentEntry) := kv in
    let parentName := npmNameFromKey parentKey in
    if bool_decide (parentKey = "") || bool_decide (parentName = "") || bool_decide (lpVersion parentEntry = "") then metadata
    else fold_left (add_parent_edge packages parentKey (mk_parent parentName (lpVersion parentEntry) EcosystemNPM))
           (dependencyNames packages parentKey) metadata)
    (range_map packages) metadata.

Definition npmPackageMetadata (packages : gmap string packageLockPkg) : gmap string npmPackageMeta :=
  let directDeps := npmRootDependencies (default empty_pkg (packages !! "")) in
  npmCollectParentEdges (npmPropagateViaRoots (npmDirectDependencyMetadata packages directDeps) packages directDeps) packages.

(** ** The parser *)

Definition npm_package (metadata : gmap string npmPackageMeta) (key : string) (entry : packageLockPkg) : option Package :=
  if bool_decide (key = "") then None
  else
    let name := npmNameFromKey key in
    if bool_decide (name = "") || bool_decide (lpVersion entry = "") then None
    else
      let meta := default empty_meta (metadata !! key) in
      Some (mk_package name (lpVersion entry) EcosystemNPM (lpDev entry || mDev meta) (mDirect meta) (mIndirect meta)
              (lpOptional entry || mOptional meta) (lpPeer entry || mPeer meta) (mVia meta) (mParents meta)
              (cleanSourceRefs [lpResolved entry]) "").

Definition npm_v1_package (name : string) (entry : packageLockDep) : option Package :=
  if bool_decide (name = "") || bool_decide (ldVersion entry = "") then None
  else Some (mk_package name (ldVersion entry) EcosystemNPM (ldDev entry) true false false false [] []
               (cleanSourceRefs [ldResolved entry]) "").

Definition npm_packages (lock : packageLock) : list Package :=
  if negb (bool_decide (lockPackages lock = ∅)) then
    let metadata := npmPackageMetadata (lockPackages lock) in
    dedup (omap (fun kv => npm_package metadata kv.1 kv.2) (range_map (lockPackages lock)))
  else if negb (bool_decide (lockDependencies lock = ∅)) then
    dedup (omap (fun kv => npm_v1_package kv.1 kv.2) (range_map (lockDependencies lock)))
  else dedup [].

(** [None] inside: the text of the JSON error is left out. *)
Definition NPM_Parse (data : string) : list Package * option string :=
  match decodeStrictJSON dec_lock data empty_lock with
  | None => ([], Some "npm: invalid JSON")
  | Some lock => (npm_packages lock, None)
  end.

Definition NewNPMParser : Parser :=
  mk_parser (fun filename => bool_decide (filename = "package-lock.json")) NPM_Parse EcosystemNPM.

(** ** Propagation: lemmas *)

(** The pairs of a key and a root. *)
Definition pairs_of (m : gmap string (gset string)) : gset (string * string) :=
  set_bind (fun k => set_map (pair k) (roots_of m k)) (dom m).

Lemma elem_pairs m k r : (k, r) ∈ pairs_of m <-> r ∈ roots_of m k.
Proof.
  unfold pairs_of. rewrite elem_of_set_bind. split.
  - intros (k' & _ & Hk). apply elem_of_map in Hk as (r' & [= <- <-] & Hr). done.
  - intros Hr. exists k. split; [|apply elem_of_map; eauto]. unfold roots_of in Hr. apply elem_of_dom.
    destruct (m !! k); [eauto|]. by apply not_elem_of_empty in Hr.
Qed.

Definition via (st : via_state) (k r : string) : Prop := r ∈ roots_of (viaRoots st) k.
Definition sent (st : via_state) (k r : string) : Prop := r ∈ roots_of (propagatedRoots st) k.
Definition pair_count (st : via_state) : nat := size (pairs_of (viaRoots st)).
Definition queue_wf (st : via_state) : Prop := (forall k, k ∈ queued st <-> k ∈ queue st) /\ NoDup (queue st).

(** From one state to a later one of the same round: the pairs [new] came in,
    and what came in is queued. *)
Record grown (new : string -> string -> Prop) (st st' : via_state) : Prop := {
  grown_sent : propagatedRoots st' = propagatedRoots st;
  grown_via : forall k r, via st' k r <-> via st k r \/ new k r;
  grown_wf : queue_wf st -> queue_wf st';
  grown_queue : forall k, k ∈ queue st -> k ∈ queue st';
  grown_fresh : queue_wf st -> forall k r, via st' k r -> ~ via st k r -> k ∈ queue st';
  grown_count : (pair_count st + length (queue st') <= pair_count st' + length (queue st))%nat
}.

Lemma grown_trans n1 n2 st st1 st2 : grown n1 st st1 -> grown n2 st1 st2 -> grown (fun k r => n1 k r \/ n2 k r) st st2.
Proof.
  intros [S1 V1 W1 Q1 F1 C1] [S2 V2 W2 Q2 F2 C2]. constructor.
  - congruence.
  - intros k r. rewrite V2, V1. tauto.
  - auto.
  - auto.
  - intros Hwf k r Hv Hn. destruct (decide (r ∈ roots_of (viaRoots st1) k)) as [H1|H1]; [|eauto]. by eapply Q2, F1.
  - lia.
Qed.

Lemma grown_none st : grown (fun _ _ => False) st st.
Proof. constructor; try done; try tauto; try lia. Qed.

Lemma grown_iff n n' st st' : (forall k r, n k r <-> n' k r) -> grown n st st' -> grown n' st st'.
Proof. intros Hn [S V W Q F C]. constructor; auto. intros k r. by rewrite V, Hn. Qed.

Lemma roots_insert m k s k' : roots_of (<[k := s]> m) k' = if decide (k' = k) then s else roots_of m k'.
Proof.
  unfold roots_of. destruct (decide (k' = k)) as [->|Hk]; [by rewrite lookup_insert_eq|by rewrite lookup_insert_ne].
Qed.

(** Adding roots to a key, before it is queued. *)
Lemma add_roots_spec key names st added st' : add_roots key names st = (added, st') ->
  propagatedRoots st' = propagatedRoots st /\ queued st' = queued st /\ queue st' = queue st /\
  (forall k r, via st' k r <-> via st k r \/ (k = key /\ r ∈ names)) /\
  (pair_count st + (if added then 1 else 0) <= pair_count st')%nat /\
  (added = false -> forall k r, via st' k r -> via st k r).
Proof.
  unfold add_roots. cut (forall acc st0, acc = false \/ (pair_count st + 1 <= pair_count st0)%nat ->
    (pair_count st <= pair_count st0)%nat -> (acc = false -> forall k r, via st0 k r -> via st k r) ->
    propagatedRoots st0 = propagatedRoots st -> queued st0 = queued st -> queue st0 = queue st ->
    fold_left (fun '(added, st) rootName => let '(new, st) := addRoot key rootName st in (new || added, st)) names (acc, st0) =
      (added, st') ->
    propagatedRoots st' = propagatedRoots st /\ queued st' = queued st /\ queue st' = queue st /\
    (forall k r, via st' k r <-> via st0 k r \/ (k = key /\ r ∈ names)) /\
    (pair_count st + (if added then 1 else 0) <= pair_count st')%nat /\
    (added = false -> forall k r, via st' k r -> via st k r)).
  { intros H Hrun. apply (H false st); auto. }
  induction names as [|name names IH]; intros acc st0 Hacc Hle Hsame E1 E2 E3 Hrun; cbn [fold_left] in Hrun.
  { injection Hrun as <- <-. split_and!; try done.
    - intros k r. split; [auto|]. by intros [?|[_ ?%not_elem_of_nil]].
    - destruct Hacc as [->|?]; [lia|]. destruct acc; lia. }
  unfold addRoot in Hrun. case_bool_decide as Hin; cbn [orb] in Hrun.
  - destruct (IH _ _ Hacc Hle Hsame E1 E2 E3 Hrun) as (H1 & H2 & H3 & H4 & H5 & H6). split_and!; try done.
    intros k r. rewrite H4, elem_of_cons. split; [tauto|]. intros [?|[-> [->|?]]]; auto.
  - set (st1 := mk_via _ _ _ _) in Hrun.
    assert (forall k r, via st1 k r <-> via st0 k r \/ (k = key /\ r = name)) as Hv1.
    { intros k r. unfold via, st1. cbn [viaRoots]. rewrite roots_insert. destruct (decide (k = key)) as [->|]; [|naive_solver].
      rewrite elem_of_union, elem_of_singleton. naive_solver. }
    assert (pair_count st1 = Datatypes.S (pair_count st0)) as Hcount.
    { unfold pair_count. assert (pairs_of (viaRoots st1) = {[(key, name)]} ∪ pairs_of (viaRoots st0)) as ->.
      { apply set_eq. intros [k r]. rewrite elem_of_union, elem_of_singleton, !elem_pairs. rewrite (Hv1 k r).
        unfold via. naive_solver. }
      rewrite size_union, size_singleton; [done|]. apply disjoint_singleton_l. by rewrite elem_pairs. }
    destruct (IH true st1) as (H1 & H2 & H3 & H4 & H5 & H6); try done; [right; lia|lia|].
    split_and!; try done. intros k r. rewrite H4, Hv1, elem_of_cons. naive_solver.
Qed.

(** Adding roots to a key and queueing it when one is new. *)
Definition visit (key : string) (names : list string) (st : via_state) : via_state :=
  let '(added, st) := add_roots key names st in if added : bool then enqueue key st else st.

Lemma visit_grown key names st : grown (fun k r => k = key /\ r ∈ names) st (visit key names st).
Proof.
  unfold visit. destruct (add_roots key names st) as [added st'] eqn:Hadd.
  destruct (add_roots_spec _ _ _ _ _ Hadd) as (H1 & H2 & H3 & H4 & H5 & H6). destruct added.
  - assert (forall k, k ∈ queue (enqueue key st') <-> k ∈ queue st \/ (k = key /\ key ∉ queued st)) as Hq.
    { intros k. unfold enqueue. rewrite H2. case_bool_decide; cbn [queue]; rewrite H3; [naive_solver|].
      rewrite elem_of_app, list_elem_of_singleton. naive_solver. }
    assert (forall k, k ∈ queued (enqueue key st') <-> k ∈ queued st \/ k = key) as Hqd.
    { intros k. unfold enqueue. rewrite H2. case_bool_decide; cbn [queued]; [rewrite H2; naive_solver|].
      rewrite elem_of_union, elem_of_singleton. naive_solver. }
    assert (viaRoots (enqueue key st') = viaRoots st') as Hvr by (unfold enqueue; by case_bool_decide).
    constructor.
    + unfold enqueue. by case_bool_decide.
    + intros k r. unfold via. rewrite Hvr. apply H4.
    + intros [Hwf Hnd]. split.
      * intros k. rewrite Hq, Hqd, (Hwf k). destruct (decide (k = key)) as [->|]; [|tauto].
        rewrite (Hwf key). destruct (decide (key ∈ queue st)); tauto.
      * unfold enqueue. rewrite H2. case_bool_decide as Hk; cbn [queue]; rewrite H3; [done|].
        apply NoDup_app. split_and!; [done| |apply NoDup_singleton]. intros k Hin ->%list_elem_of_singleton. by apply Hk, Hwf.
    + intros k Hk. apply Hq. auto.
    + intros [Hwf _] k r Hv Hn. unfold via in Hv. rewrite Hvr in Hv. apply H4 in Hv as [Hv|[-> _]]; [done|].
      apply Hq. destruct (decide (key ∈ queued st)) as [Hk|]; [left; by apply Hwf|auto].
    + unfold pair_count in *. rewrite Hvr. unfold enqueue. case_bool_decide; cbn [queue]; rewrite ?length_app, H3; cbn [length]; lia.
  - constructor.
    + done.
    + exact H4.
    + intros [Hwf Hnd]. split; [intros k; rewrite H2, H3; apply Hwf|by rewrite H3].
    + intros k. by rewrite H3.
    + intros _ k r Hv Hn. destruct Hn. by apply (H6 eq_refl k r).
    + rewrite H3. lia.
Qed.

Lemma start_root_visit packages st rootName :
  start_root packages st rootName =
  if bool_decide (rootPackageKey packages rootName = "") then st else visit (rootPackageKey packages rootName) [rootName] st.
Proof.
  unfold start_root, visit, add_roots. case_bool_decide; [done|]. cbn [fold_left].
  destruct (addRoot _ _ _) as [new st']. by destruct new.
Qed.

Lemma push_dep_visit key pending st dep :
  push_dep key pending st dep = if bool_decide (dep = key) then st else visit dep pending st.
Proof. done. Qed.

Lemma push_all_grown key pending deps st :
  grown (fun k r => k ∈ deps /\ k <> key /\ r ∈ pending) st (fold_left (push_dep key pending) deps st).
Proof.
  revert st. induction deps as [|d deps IH]; intros st; cbn [fold_left].
  - eapply grown_iff; [|apply grown_none]. intros k r. split; [done|]. by intros [?%not_elem_of_nil _].
  - rewrite push_dep_visit. case_bool_decide as Hd.
    + eapply grown_iff; [|apply IH]. intros k r. rewrite elem_of_cons. naive_solver.
    + eapply grown_iff; [|eapply grown_trans; [apply visit_grown|apply IH]]. intros k r. cbn. rewrite elem_of_cons. naive_solver.
Qed.

(** ** The graph *)

Lemma nearest_key_in fuel packages base name key : nearest_key fuel packages base name = Some key -> is_Some (packages !! key).
Proof.
  revert base. induction fuel as [|fuel IH]; intros base; cbn [nearest_key]; case_bool_decide as Hc.
  1, 3: by intros [= <-].
  - by destruct (LastIndex base "/node_modules/").
  - destruct (LastIndex base "/node_modules/"); [apply IH|done].
Qed.

(** A dependency resolves to an entry of the file. *)
Lemma dependencyKey_in packages parentKey name :
  dependencyKey packages parentKey name <> "" -> is_Some (packages !! dependencyKey packages parentKey name).
Proof.
  unfold dependencyKey. case_bool_decide; [done|].
  destruct (if bool_decide (parentKey = "") then None else _) as [c|] eqn:Hn.
  { intros _. destruct (bool_decide (parentKey = "")); [done|]. by eapply nearest_key_in. }
  clear Hn. case_bool_decide; [done|]. destruct (keysByName packages name) as [|k ks] eqn:Hk; [done|]. intros _.
  assert (k ∈ keysByName packages name) as Hin by (rewrite Hk; left). unfold keysByName in Hin.
  rewrite sort_by_perm, list_elem_of_filter in Hin. destruct Hin as [_ Hin].
  apply list_elem_of_fmap in Hin as ([k' x] & -> & Hin). apply range_map_elem in Hin. by exists x.
Qed.

(** [k] depends on [d]. *)
Definition depends (packages : gmap string packageLockPkg) (k d : string) : Prop :=
  d ∈ resolvedDependencyKeys packages k /\ d <> k.

Lemma resolved_in packages k d : d ∈ resolvedDependencyKeys packages k -> is_Some (packages !! d).
Proof.
  unfold resolvedDependencyKeys. rewrite sort_by_perm, list_elem_of_filter. intros [Hne Hd].
  apply list_elem_of_fmap in Hd as (name & -> & _). by apply dependencyKey_in.
Qed.

Section graph.
Context (packages : gmap string packageLockPkg) (directDeps : gmap string npmRootDependency).

(** The root dependency [r] leads to [k]. *)
Definition leads_to (r k : string) : Prop :=
  is_Some (directDeps !! r) /\ rootPackageKey packages r <> "" /\ rtc (depends packages) (rootPackageKey packages r) k.

Record via_ok (st : via_state) : Prop := {
  via_queue : queue_wf st;
  via_sound : forall k r, via st k r -> leads_to r k;
  via_sent : forall k r, sent st k r -> via st k r;
  via_closed : forall k r d, sent st k r -> depends packages k d -> via st d r;
  via_pending : forall k r, via st k r -> ~ sent st k r -> k ∈ queue st
}.

Lemma via_bound st : via_ok st -> (pair_count st <= via_fuel packages directDeps)%nat.
Proof.
  intros Hok. unfold pair_count, via_fuel.
  assert (elements (pairs_of (viaRoots st)) ⊆+
    (elements (dom packages) ≫= fun k => pair k <$> elements (dom directDeps))) as Hsub.
  { apply NoDup_submseteq; [apply NoDup_elements|]. intros [k r] Hkr. apply elem_of_elements, elem_pairs in Hkr.
    destruct (via_sound _ Hok k r Hkr) as (Hr & Hne & Hpath). apply list_elem_of_bind. exists k. split.
    - apply list_elem_of_fmap. exists r. split; [done|]. by apply elem_of_elements, elem_of_dom.
    - apply elem_of_elements, elem_of_dom. apply rtc_inv_r in Hpath as [<-|(k' & _ & Hk & _)].
      + by apply dependencyKey_in.
      + by eapply resolved_in. }
  apply submseteq_length in Hsub. unfold size, set_size. cbn. etransitivity; [exact Hsub|].
  assert (forall (A B : Type) (l : list A) (l' : list B), length (l ≫= fun x => pair x <$> l') = (length l * length l')%nat) as Hlen.
  { intros A B l l'. induction l as [|x l IH]; [done|]. cbn [mbind list_bind]. rewrite length_app, length_fmap, IH. done. }
  rewrite Hlen. change (length (elements (dom packages))) with (size (dom packages)).
  change (length (elements (dom directDeps))) with (size (dom directDeps)). by rewrite !size_dom.
Qed.

Lemma via_start_ok : via_ok (start_state packages directDeps) /\
  (forall r, is_Some (directDeps !! r) -> rootPackageKey packages r <> "" ->
     via (start_state packages directDeps) (rootPackageKey packages r) r) /\
  (length (queue (start_state packages directDeps)) <= pair_count (start_state packages directDeps))%nat.
Proof.
  unfold start_state. set (empty := mk_via ∅ ∅ ∅ []).
  assert (forall names st, grown (fun k r => r ∈ names /\ rootPackageKey packages r = k /\ k <> "") st
    (fold_left (start_root packages) names st)) as Hfold.
  { induction names as [|r names IH]; intros st; cbn [fold_left].
    - eapply grown_iff; [|apply grown_none]. intros k r. split; [done|]. by intros [?%not_elem_of_nil _].
    - rewrite start_root_visit. case_bool_decide as Hr.
      + eapply grown_iff; [|apply IH]. intros k r'. rewrite elem_of_cons. naive_solver.
      + eapply grown_iff; [|eapply grown_trans; [apply visit_grown|apply IH]]. intros k r'. cbn beta.
        rewrite list_elem_of_singleton, elem_of_cons. naive_solver. }
  specialize (Hfold (sort_by str_cmp (range_map directDeps).*1) empty).
  assert (forall r, r ∈ sort_by str_cmp (range_map directDeps).*1 <-> is_Some (directDeps !! r)) as Hnames.
  { intros r. rewrite sort_by_perm. rewrite list_elem_of_fmap. split.
    - intros ([r' x] & -> & Hin). apply range_map_elem in Hin. by exists x.
    - intros [x Hx]. exists (r, x). split; [done|]. by apply range_map_elem. }
  destruct Hfold as [Hs Hv Hwf _ Hf Hc].
  assert (queue_wf empty) as Hwf0 by (split; [intros k; cbn; rewrite elem_of_empty, elem_of_nil; done|constructor]).
  assert (forall k r, ~ via empty k r) as Hno by (intros k r; unfold via, roots_of; cbn; rewrite lookup_empty; cbn; set_solver).
  set (st := fold_left _ _ _) in *.
  assert (forall k r, ~ sent st k r) as Hns.
  { intros k r. unfold sent. rewrite Hs. unfold roots_of, empty. cbn. rewrite lookup_empty. cbn. set_solver. }
  split_and!.
  - constructor; [auto| |by intros k r ?%Hns|by intros k r d ?%Hns|].
    + intros k r Hkr. apply Hv in Hkr as [Hkr|(Hr & <- & Hne)]; [by apply Hno in Hkr|]. split; [by apply Hnames|]. split; [done|].
      apply rtc_refl.
    + intros k r Hkr _. by apply (Hf Hwf0 k r).
  - intros r Hr Hne. apply Hv. right. split; [by apply Hnames|done].
  - unfold pair_count in Hc at 1. assert (pairs_of (viaRoots empty) = ∅) as E.
    { apply set_eq. intros [k r]. rewrite elem_pairs, elem_of_empty. split; [apply Hno|done]. }
    rewrite E, size_empty in Hc. cbn [empty queue length] in Hc. lia.
Qed.

Lemma round_ok key rest st : via_ok st -> queue st = key :: rest ->
  let st' := via_round packages key rest st in
  via_ok st' /\ (forall k r, via st k r -> via st' k r) /\
  (pair_count st + length (queue st') < pair_count st' + length (queue st))%nat.
Proof.
  intros [[Hwf Hnd] Hsound Hsent Hclosed Hpend] Hq. cbv zeta. unfold via_round.
  set (st0 := mk_via (viaRoots st) (propagatedRoots st) (queued st ∖ {[key]}) rest). cbn [viaRoots propagatedRoots] in *.
  rewrite Hq in Hnd. apply NoDup_cons in Hnd as [Hkey Hnd].
  assert (queue_wf st0) as Hwf0.
  { split; [|done]. intros k. unfold st0. cbn [queued queue]. rewrite elem_of_difference, elem_of_singleton, Hwf, Hq, elem_of_cons.
    split; [tauto|]. intros Hk. split; [auto|]. by intros ->. }
  assert (forall r, r ∈ npmPendingViaRoots (roots_of (viaRoots st) key) (roots_of (propagatedRoots st) key) <->
    via st key r /\ ~ sent st key r) as Hpending.
  { intros r. unfold npmPendingViaRoots. rewrite sorted_set_elem, elem_of_difference. done. }
  set (pending := npmPendingViaRoots _ _) in *. case_bool_decide as Hempty.
  - split_and!; [|done|change (pair_count st0) with (pair_count st); rewrite Hq; cbn [length queue st0]; lia]. constructor; try done. intros k r Hv Hs.
    specialize (Hpend k r Hv Hs). rewrite Hq in Hpend. apply elem_of_cons in Hpend as [->|?]; [|done].
    exfalso. assert (r ∈ pending) as Hr by (by apply Hpending). rewrite Hempty in Hr. by apply not_elem_of_nil in Hr.
  - set (st1 := mk_via (viaRoots st) (<[key := roots_of (propagatedRoots st) key ∪ list_to_set pending]> (propagatedRoots st))
                  (queued st ∖ {[key]}) rest).
    change (mk_via (viaRoots st0) (<[key := _]> _) (queued st0) (queue st0)) with st1.
    assert (forall k r, sent st1 k r <-> sent st k r \/ (k = key /\ r ∈ pending)) as Hs1.
    { intros k r. unfold sent, st1. cbn [propagatedRoots]. rewrite roots_insert. destruct (decide (k = key)) as [->|]; [|naive_solver].
      rewrite elem_of_union, elem_of_list_to_set. naive_solver. }
    destruct (push_all_grown key pending (resolvedDependencyKeys packages key) st1) as [Gs Gv Gw Gq Gf Gc].
    set (st2 := fold_left _ _ st1) in *.
    assert (forall k r, sent st2 k r <-> sent st k r \/ (k = key /\ r ∈ pending)) as Hs2.
    { intros k r. unfold sent. rewrite Gs. apply Hs1. }
    assert (forall k r, via st2 k r <-> via st k r \/ (depends packages key k /\ r ∈ pending)) as Hv2.
    { intros k r. rewrite (Gv k r). unfold depends. change (via st1 k r) with (via st k r). tauto. }
    split_and!; [|intros k r Hv; apply Hv2; auto|change (pair_count st1) with (pair_count st) in Gc; rewrite Hq; cbn [length queue st1] in *; lia].
    constructor.
    + by apply Gw.
    + intros k r Hv. apply Hv2 in Hv as [Hv|[Hd Hr]]; [auto|]. apply Hpending in Hr as [Hr _].
      destruct (Hsound key r Hr) as (H1 & H2 & H3). split; [done|]. split; [done|]. by eapply rtc_r.
    + intros k r Hs. apply Hv2. left. apply Hs2 in Hs as [?|[-> Hr%Hpending]]; [auto|tauto].
    + intros k r d Hs Hd. apply Hv2. apply Hs2 in Hs as [Hs|[-> Hr]]; [left; eauto|by right].
    + intros k r Hv Hns. destruct (decide (r ∈ roots_of (viaRoots st1) k)) as [Hold|Hnew]; [|by apply (Gf Hwf0 k r)].
      assert (~ sent st k r) as Hns' by (intros ?; apply Hns, Hs2; auto).
      specialize (Hpend k r Hold Hns'). rewrite Hq in Hpend. apply elem_of_cons in Hpend as [->|Hk]; [|by apply Gq].
      exfalso. apply Hns, Hs2. right. split; [done|]. by apply Hpending.
Qed.

(** The loop ends within its fuel, with nothing left to propagate. *)
Lemma via_loop_ends fuel st : via_ok st ->
  (via_fuel packages directDeps - pair_count st + length (queue st) <= fuel)%nat ->
  exists st', via_loop fuel packages st = Some st' /\ via_ok st' /\ queue st' = [] /\ (forall k r, via st k r -> via st' k r).
Proof.
  revert st. induction fuel as [|fuel IH]; intros st Hok Hfuel; cbn [via_loop];
    (destruct (queue st) as [|key rest] eqn:Hq; [by exists st|]); cbn [length] in Hfuel; [lia|].
  destruct (round_ok key rest st Hok Hq) as (Hok' & Hmono & Hcount). rewrite Hq in Hcount. cbn [length] in Hcount.
  pose proof (via_bound _ Hok). pose proof (via_bound _ Hok').
  destruct (IH (via_round packages key rest st) Hok') as (st' & Hrun & Hend & Hqe & Hv); [lia|]. exists st'. eauto 10.
Qed.

(** The roots found for a key are those that lead to it. *)
Lemma via_exact : exists st, via_loop (via_fuel packages directDeps) packages (start_state packages directDeps) = Some st /\
  forall k r, r ∈ roots_of (viaRoots st) k <-> leads_to r k.
Proof.
  destruct via_start_ok as (Hok & Hroots & Hlen). pose proof (via_bound _ Hok).
  destruct (via_loop_ends (via_fuel packages directDeps) _ Hok) as (st & Hrun & Hend & Hq & Hmono); [lia|].
  exists st. split; [done|]. intros k r. split; [by apply via_sound|]. intros (Hr & Hne & Hpath).
  revert k Hpath. apply (rtc_ind_r (fun k => via st k r)); [by apply Hmono, Hroots|]. intros k d _ Hd IH.
  apply (via_closed _ Hend k r d); [|done]. destruct (decide (r ∈ roots_of (propagatedRoots st) k)) as [|Hns]; [done|].
  exfalso. pose proof (via_pending _ Hend k r IH Hns) as Hk. rewrite Hq in Hk. by apply not_elem_of_nil in Hk.
Qed.
End graph.

(** ** The metadata of a package *)

Definition meta_of (metadata : gmap string npmPackageMeta) (key : string) : npmPackageMeta :=
  default empty_meta (metadata !! key).

(** All but the parents. *)
Definition same_place (m m' : npmPackageMeta) : Prop :=
  mDirect m = mDirect m' /\ mIndirect m = mIndirect m' /\ mDev m = mDev m' /\ mOptional m = mOptional m' /\
  mPeer m = mPeer m' /\ mVia m = mVia m'.

Lemma same_place_refl m : same_place m m.
Proof. repeat split. Qed.

Lemma same_place_trans m1 m2 m3 : same_place m1 m2 -> same_place m2 m3 -> same_place m1 m3.
Proof. unfold same_place. intuition congruence. Qed.

Lemma fold_same_place {A} (f : gmap string npmPackageMeta -> A -> gmap string npmPackageMeta) l metadata key :
  (forall m x, same_place (meta_of (f m x) key) (meta_of m key)) ->
  same_place (meta_of (fold_left f l metadata) key) (meta_of metadata key).
Proof.
  intros Hf. revert metadata. induction l as [|x l IH]; intros metadata; cbn [fold_left]; [apply same_place_refl|].
  eapply same_place_trans; [apply IH|apply Hf].
Qed.

Lemma parents_same_place metadata packages key :
  same_place (meta_of (npmCollectParentEdges metadata packages) key) (meta_of metadata key).
Proof.
  apply fold_same_place. intros m [parentKey entry]. cbv beta iota zeta. destruct (_ || _); [apply same_place_refl|].
  apply fold_same_place.
  intros m' name. unfold add_parent_edge. cbv zeta. destruct (_ || _); [apply same_place_refl|]. unfold meta_of.
  destruct (decide (dependencyKey packages parentKey name = key)) as [<-|Hk]; [rewrite lookup_insert_eq; by repeat split|].
  rewrite lookup_insert_ne by done. apply same_place_refl.
Qed.

Lemma set_via_other metadata kv key : kv.1 <> key -> set_via metadata kv !! key = metadata !! key.
Proof. intros Hk. unfold set_via. destruct (mDirect _); [done|]. by rewrite lookup_insert_ne. Qed.

Lemma set_via_fold l metadata key : NoDup l.*1 ->
  let meta := meta_of metadata key in
  let meta' := meta_of (fold_left set_via l metadata) key in
  mDirect meta' = mDirect meta /\ mIndirect meta' = mIndirect meta /\ mDev meta' = mDev meta /\
  (mDirect meta = true -> meta' = meta) /\
  (mDirect meta = false -> forall roots, (key, roots) ∈ l -> mVia meta' = npmSortedStringSet roots) /\
  (key ∉ l.*1 -> meta' = meta).
Proof.
  revert metadata. induction l as [|[k roots] l IH]; intros metadata Hnd; cbn [fold_left].
  { cbv zeta. split_and!; try done. intros _ roots Hin. by apply not_elem_of_nil in Hin. }
  cbn in Hnd. apply NoDup_cons in Hnd as [Hk Hnd]. destruct (IH (set_via metadata (k, roots)) Hnd) as (H1 & H2 & H3 & H4 & H5 & H6).
  cbv zeta in *. destruct (decide (k = key)) as [->|Hne].
  - rewrite (H6 Hk) in *. unfold set_via, meta_of. cbn [fst snd]. fold (meta_of metadata key).
    destruct (mDirect (meta_of metadata key)) eqn:Hd; fold (meta_of metadata key).
    + by split_and!.
    + rewrite lookup_insert_eq. cbn. split_and!; try done.
      * intros _ r [[= ->]|Hin]%elem_of_cons; [done|]. destruct Hk. by apply (list_elem_of_fmap_2 fst _ (key, r)).
      * intros Hn. exfalso. apply Hn. left.
  - assert (meta_of (set_via metadata (k, roots)) key = meta_of metadata key) as E by (unfold meta_of; by rewrite set_via_other).
    rewrite E in *. split_and!; try done.
    + intros Hd r [[= -> ->]|Hin]%elem_of_cons; [done|]. by apply H5.
    + cbn. intros [_ Hn]%not_elem_of_cons. auto.
Qed.

Lemma direct_fold packages key l m :
  (forall info, fold_left (direct_step packages) l m !! key = Some info ->
     m !! key = Some info \/ key <> "" /\ exists r, (r, info) ∈ l /\ rootPackageKey packages r = key) /\
  (is_Some (m !! key) \/ (key <> "" /\ exists r info, (r, info) ∈ l /\ rootPackageKey packages r = key) ->
     is_Some (fold_left (direct_step packages) l m !! key)).
Proof.
  revert m. induction l as [|[r info] l IH]; intros m; cbn [fold_left].
  { split; [by left|]. intros [?|(_ & r & info & Hin & _)]; [done|]. by apply not_elem_of_nil in Hin. }
  destruct (IH (direct_step packages m (r, info))) as [H1 H2].
  assert (rootPackageKey packages r = "" /\ direct_step packages m (r, info) = m \/
    rootPackageKey packages r <> "" /\ direct_step packages m (r, info) = <[rootPackageKey packages r := info]> m) as Hstep.
  { unfold direct_step. cbn [fst snd]. case_bool_decide; auto. }
  split.
  - intros info' Hl. destruct (H1 _ Hl) as [Hm|(Hne & r' & Hin & Hk)]; [|right; split; [done|]; exists r'; split; [by right|done]].
    destruct Hstep as [[_ E']|[Hr E']]; rewrite E' in Hm; [by left|].
    destruct (decide (rootPackageKey packages r = key)) as [E|E].
    + rewrite E, lookup_insert_eq in Hm. injection Hm as <-. right. split; [congruence|]. exists r. split; [left|done].
    + rewrite lookup_insert_ne in Hm by done. by left.
  - intros Hex. apply H2. destruct Hex as [Hm|(Hne & r' & info' & Hin & Hk)].
    + left. destruct Hstep as [[_ ->]|[Hr ->]]; [done|]. destruct (decide (rootPackageKey packages r = key)) as [E|E].
      * rewrite E, lookup_insert_eq. eauto.
      * by rewrite lookup_insert_ne.
    + apply elem_of_cons in Hin as [[= -> ->]|Hin]; [|right; eauto 6]. left.
      destruct Hstep as [[? _]|[_ ->]]; [congruence|]. rewrite Hk, lookup_insert_eq. eauto.
Qed.

Lemma direct_by_key_spec packages deps key :
  (forall info, direct_by_key packages deps !! key = Some info ->
     key <> "" /\ exists r, deps !! r = Some info /\ rootPackageKey packages r = key) /\
  (key <> "" -> forall r, is_Some (deps !! r) -> rootPackageKey packages r = key -> is_Some (direct_by_key packages deps !! key)).
Proof.
  unfold direct_by_key. destruct (direct_fold packages key (range_map deps) ∅) as [H1 H2]. split.
  - intros info Hl. destruct (H1 info Hl) as [Hm|(Hne & r & Hin & Hk)]; [by rewrite lookup_empty in Hm|].
    split; [done|]. exists r. split; [by apply range_map_elem|done].
  - intros Hne r [info Hr] Hk. apply H2. right. split; [done|]. exists r, info. split; [by apply range_map_elem|done].
Qed.

Lemma direct_metadata packages deps key entry :
  packages !! key = Some entry -> key <> "" -> npmNameFromKey key <> "" ->
  meta_of (npmDirectDependencyMetadata packages deps) key = direct_meta (direct_by_key packages deps) key entry.
Proof.
  intros Hkey Hne Hname. unfold npmDirectDependencyMetadata, meta_of. set (d := direct_by_key packages deps).
  assert (forall l m, NoDup l.*1 -> ((key, entry) ∈ l \/ (key ∉ l.*1 /\ m !! key = Some (direct_meta d key entry))) ->
    fold_left (direct_meta_step d) l m !! key = Some (direct_meta d key entry)) as Hfold.
  { induction l as [|[k e] l IH]; intros m Hnd Hin; cbn [fold_left].
    { destruct Hin as [?%not_elem_of_nil|[_ ?]]; done. }
    cbn in Hnd. apply NoDup_cons in Hnd as [Hk Hnd]. apply IH; [done|]. unfold direct_meta_step. cbn [fst snd].
    destruct Hin as [[[= <- <-]|Hin]%elem_of_cons|[Hn Hm]].
    - right. split; [done|]. rewrite !bool_decide_false by done. cbn [orb]. by rewrite lookup_insert_eq.
    - by left.
    - cbn in Hn. apply not_elem_of_cons in Hn as [Hn1 Hn2]. right. split; [done|]. destruct (_ || _); [done|].
      by rewrite lookup_insert_ne. }
  rewrite Hfold; [done|apply range_map_keys_NoDup|]. left. by apply range_map_elem.
Qed.

Lemma add_root_deps_names scope out deps r :
  is_Some (add_root_deps scope out deps !! r) -> is_Some (out !! r) \/ TrimSpace r <> "".
Proof.
  unfold add_root_deps. generalize (range_map deps).*1. intros names. unfold nonblank. revert out.
  induction names as [|n names IH]; intros out Hr; [by left|].
  rewrite filter_cons in Hr. destruct (decide (TrimSpace n <> "")) as [Hn|Hn]; [|by apply IH]. cbn [fold_left] in Hr.
  destruct (IH _ Hr) as [Ho|Ho]; [|by right]. destruct (decide (n = r)) as [<-|Hne]; [by right|].
  rewrite lookup_insert_ne in Ho by done. by left.
Qed.

Lemma root_names_nonblank root r : is_Some (npmRootDependencies root !! r) -> TrimSpace r <> "".
Proof.
  unfold npmRootDependencies. intros Hr. do 4 (apply add_root_deps_names in Hr as [Hr|Hr]; [|done]).
  rewrite lookup_empty in Hr. by destruct Hr.
Qed.

Lemma elem_npmSortedStringSet values r : r ∈ npmSortedStringSet values <-> r ∈ values /\ TrimSpace r <> "".
Proof. unfold npmSortedStringSet, nonblank. rewrite sort_by_perm, list_elem_of_filter, elem_of_elements. tauto. Qed.

End npm.

(** ** Examples *)

Section examples.
#[local] Instance npm_case : UnicodeCase := plain_case.
#[local] Instance npm_order : MapOrder := listed_order.

(** "express" is a production dependency and needs "left-pad", which the root
    also lists for development; npm does not flag it. *)
Definition sample_lock : string := json_text
  "{'lockfileVersion':3,'packages':{'':{'dependencies':{'express':'^4'},'devDependencies':{'left-pad':'1'}},'node_modules/express':{'version':'4.0.0','dependencies':{'left-pad':'1','a':'1'}},'node_modules/left-pad':{'version':'1.3.0'},'node_modules/express/node_modules/a':{'version':'0.1.0','dependencies':{'express':'4'}}}}".

Definition sample_packages : gmap string packageLockPkg :=
  lockPackages (default empty_lock (decodeStrictJSON dec_lock sample_lock empty_lock)).

Definition place_summary (p : Package) : string * bool * bool * list string := (pkgName p, Dev p, Direct p, Via p).

Lemma sample_places :
  place_summary <$> (NPM_Parse sample_lock).1 =
  [("a", false, false, ["express"]); ("express", false, true, []); ("left-pad", true, true, [])].
Proof. vm_compute. reflexivity. Qed.

(** A package that production code needs is taken for a development dependency
    when the root lists it for development, whatever the file says. *)
Lemma npm_dev_hides_production :
  exists p parent, p ∈ (NPM_Parse sample_lock).1 /\ Dev p = true /\
    lpDev (default empty_pkg (sample_packages !! "node_modules/left-pad")) = false /\
    parent ∈ (NPM_Parse sample_lock).1 /\ Dev parent = false /\
    mk_parent (pkgName parent) (pkgVersion parent) (pkgEcosystem parent) ∈ Parents p.
Proof.
  assert (forall (l : list Package) (P : Package -> bool) p, List.find P l = Some p -> p ∈ l) as Hfind.
  { intros l P p Hp. apply list_elem_of_In. by apply (List.find_some P). }
  eexists _, _. split; [apply (Hfind _ (fun p => bool_decide (pkgName p = "left-pad"))); vm_compute; reflexivity|].
  split; [reflexivity|]. split; [vm_compute; reflexivity|].
  split; [apply (Hfind _ (fun p => bool_decide (pkgName p = "express"))); vm_compute; reflexivity|].
  split; [reflexivity|]. left.
Qed.

#[local] Notation sample_key := "node_modules/express/node_modules/a" (only parsing).

End examples.
