(* ===== verification/ScanCollect.v ===== *)
(** Collecting the packages of a project: internal/scanner/walker.go and
    package_collector.go.

    The directory tree is a value: what os.ReadDir and opening a file give.  The
    walker finds the files some parser reads, the collector parses them and
    explicit SBOM files and merges packages with the same coordinates.  SBOM
    parsing is an interface here. *)
From stdpp Require Import base list option strings gmap.
From Stdlib Require Import Ascii ZArith Lia.
From S2P Require Import Prelude GoStrings AsciiText Collections Domain Lockfiles GoModules.

(** ** The tree *)

(** A file or anything that is not a directory: its bytes, or why it cannot be
    opened.  A directory: its entries by name, or why it cannot be read. *)
Inductive node :=
| File (data : string + string)
| Dir (entries : string + list (string * node)).

(** ** The walker *)

Record LockFile := mk_lockfile {
  lfPath : string;
  lfRelPath : string;
  lfParser : Parser;
  lfData : string + string
}.

Record Walker := mk_walker {
  registry : list Parser;
  maxDepth : Z;
  ecosystems : option (gset string)
}.

Section walker.
Context {U : UnicodeCase}.

Definition NewWalker (reg : list Parser) (depth : Z) (names : list string) : Walker :=
  mk_walker reg depth
    (match names with [] => None | _ => Some (list_to_set ((fun e => ToLower (TrimSpace e)) <$> names)) end).

(** strings.Count(path, "/") *)
Fixpoint count_slashes (s : string) : Z :=
  match s with
  | EmptyString => 0
  | String c s' => (if bool_decide (c = slash) then 1 else 0) + count_slashes s'
  end.

(** filepath.Join of a clean directory and an entry. *)
Definition join_path (dir name : string) : string :=
  if bool_decide (dir = "/") then "/" +:+ name else dir +:+ "/" +:+ name.

Definition join_rel (rel name : string) : string := if bool_decide (rel = "") then name else rel +:+ "/" +:+ name.

Definition skipped_dir (w : Walker) (rootDepth : Z) (path name : string) : bool :=
  (negb (bool_decide (name = ".")) && negb (bool_decide (name = ".github")) && HasPrefix name ".") ||
  (bool_decide (name = "node_modules") || bool_decide (name = "vendor") || bool_decide (name = "__pycache__")) ||
  (maxDepth w <? count_slashes path - rootDepth).

Definition found_file (w : Walker) (path rel : string) (data : string + string) : list LockFile :=
  match ParserFor (registry w) path with
  | None => []
  | Some p =>
      match ecosystems w with
      | Some wanted => if bool_decide (ToLower (ParserEcosystem p) ∈ wanted) then [mk_lockfile path rel p data] else []
      | None => [mk_lockfile path rel p data]
      end
  end.

Definition walkInputError (path rel cause : string) : string :=
  "discover input " +:+ (if bool_decide (rel = "") then path else rel) +:+ ": " +:+ cause.

(** filepath.WalkDir on a node: a directory is visited before its entries,
    whose order is that of their names; the first error ends the walk. *)
Fixpoint walk_node (w : Walker) (rootDepth : Z) (path rel name : string) (n : node) {struct n} : string + list LockFile :=
  match n with
  | File data => inr (found_file w path rel data)
  | Dir entries =>
      if skipped_dir w rootDepth path name then inr []
      else match entries with
      | inl cause => inl (walkInputError path rel cause)
      | inr entries =>
          (fix walk_entries (l : list (string * node)) : string + list LockFile :=
             match l with
             | [] => inr []
             | (name', n') :: l' =>
                 match walk_node w rootDepth (join_path path name') (join_rel rel name') name' n' with
                 | inl e => inl e
                 | inr files =>
                     match walk_entries l' with
                     | inl e => inl e
                     | inr files' => inr (files ++ files')
                     end
                 end
             end) entries
      end
  end.

(** [root] is what os.Stat finds at the clean path [absRoot]. *)
Definition Walk (w : Walker) (absRoot : string) (root : string + node) : string + list LockFile :=
  match root with
  | inl e => inl e
  | inr (File _) => inl ("walk " +:+ absRoot +:+ ": invalid argument")
  | inr n => walk_node w (count_slashes absRoot) absRoot "" (Base absRoot) n
  end.

(** ** The collection *)

Record CollectedPackage := mk_collected { cpPackage : Package; SourceFile : string; SourceType : string }.

Definition put_package (p : Package) (e : CollectedPackage) : CollectedPackage := mk_collected p (SourceFile e) (SourceType e).

(** [index] is nil until the first package. *)
Record PackageCollection := mk_collection_of {
  Packages : list Package;
  Entries : list CollectedPackage;
  ParseErrors : list string;
  FatalParseErrors : list string;
  LockFiles : Z;
  SBOMFiles : Z;
  index : option (gmap packageCollectionKey nat)
}.

Definition empty_collection : PackageCollection := mk_collection_of [] [] [] [] 0 0 None.

Definition set_entries (es : list CollectedPackage) (ix : option (gmap packageCollectionKey nat)) (c : PackageCollection)
    : PackageCollection :=
  mk_collection_of (Packages c) es (ParseErrors c) (FatalParseErrors c) (LockFiles c) (SBOMFiles c) ix.

Definition add_errors (errs fatal : list string) (c : PackageCollection) : PackageCollection :=
  mk_collection_of (Packages c) (Entries c) (ParseErrors c ++ errs) (FatalParseErrors c ++ fatal) (LockFiles c) (SBOMFiles c)
    (index c).

Definition set_counts (lock sbom : Z) (c : PackageCollection) : PackageCollection :=
  mk_collection_of (Packages c) (Entries c) (ParseErrors c) (FatalParseErrors c) lock sbom (index c).

Definition rebuildIndex (es : list CollectedPackage) : gmap packageCollectionKey nat := index_from cpPackage 0 es ∅.

Definition ensureIndex (c : PackageCollection) : gmap packageCollectionKey nat :=
  match index c with Some m => m | None => rebuildIndex (Entries c) end.

Definition add (pkg : Package) (sourceFile sourceType : string) (c : PackageCollection) : PackageCollection :=
  let '(m, es) := index_add cpPackage put_package (ensureIndex c, Entries c) (mk_collected pkg sourceFile sourceType) in
  set_entries es (Some m) c.

Definition filterDev (c : PackageCollection) : PackageCollection :=
  let out := filter (fun e => Dev (cpPackage e) = false) (Entries c) in
  set_entries out (Some (rebuildIndex out)) c.

Definition isGoSumSource (sourceFile : string) : bool := EqualFold (Base (Clean sourceFile)) "go.sum".

Definition go_selected (e : CollectedPackage) : bool :=
  bool_decide (pkgEcosystem (cpPackage e) = EcosystemGo) && negb (isGoSumSource (SourceFile e)).

Definition module_key (p : Package) : string := pkgName p +:+ "@" +:+ pkgVersion p.

Definition kept_entry (selected selectedNames : gset string) (e : CollectedPackage) : bool :=
  let pkg := cpPackage e in
  negb (bool_decide (pkgEcosystem pkg = EcosystemGo) && isGoSumSource (SourceFile e) &&
        bool_decide (pkgName pkg ∈ selectedNames) && negb (bool_decide (module_key pkg ∈ selected))).

Definition filterStaleGoSumVersions (c : PackageCollection) : PackageCollection :=
  let chosen := filter (fun e => go_selected e = true) (Entries c) in
  let selected : gset string := list_to_set (module_key ∘ cpPackage <$> chosen) in
  let selectedNames : gset string := list_to_set (pkgName ∘ cpPackage <$> chosen) in
  if bool_decide (selectedNames = ∅) then c
  else
    let out := filter (fun e => kept_entry selected selectedNames e = true) (Entries c) in
    set_entries out (Some (rebuildIndex out)) c.

Definition rebuildPackages (c : PackageCollection) : PackageCollection :=
  mk_collection_of (cpPackage <$> Entries c) (Entries c) (ParseErrors c) (FatalParseErrors c) (LockFiles c) (SBOMFiles c) (index c).

Definition finalizePackageCollection (includeDev : bool) (c : PackageCollection) : PackageCollection :=
  let c := filterStaleGoSumVersions c in
  rebuildPackages (if includeDev then c else filterDev c).

(** [None]: every ecosystem. *)
Definition ecosystemFilter (names : list string) : option (gset string) :=
  match names with
  | [] => None
  | _ => Some (list_to_set (filter (.≠ "") ((fun e => ToLower (TrimSpace e)) <$> names)))
  end.

Definition allows (f : option (gset string)) (eco : Ecosystem) : bool :=
  match f with
  | None => true
  | Some names => bool_decide (names = ∅) || bool_decide (ToLower eco ∈ names)
  end.

(** ** Lockfiles *)

Definition maxLockfileSize : Z := 100 * 2 ^ 20.

Definition lockfileSizeLimitError : string := "lockfile exceeds maximum lockfile size of 104857600 bytes".

(** Opening and parsing a regular file. *)
Definition parseCollectedLockFile (lf : LockFile) : list Package * option string :=
  match lfData lf with
  | inl e => ([], Some e)
  | inr data =>
      if maxLockfileSize <? Z.of_nat (String.length data) then ([], Some lockfileSizeLimitError)
      else Parse (lfParser lf) data
  end.

Definition add_all (filter_ : option (gset string)) (pkgs : list Package) (sourceFile sourceType : string)
    (c : PackageCollection) : PackageCollection :=
  fold_left (fun c pkg => if allows filter_ (pkgEcosystem pkg) then add pkg sourceFile sourceType c else c) pkgs c.

Definition collect_lockfile (filter_ : option (gset string)) (c : PackageCollection) (lf : LockFile) : PackageCollection :=
  match parseCollectedLockFile lf with
  | (_, Some e) => add_errors [lfRelPath lf +:+ ": " +:+ e] [] c
  | (pkgs, None) => add_all filter_ pkgs (lfRelPath lf) "lockfile" c
  end.

(** [opened]: whether the root could be opened for reading files below it. *)
Definition collectLockfilePackages (c : PackageCollection) (reg : list Parser) (absRoot : string) (root : string + node)
    (opened : option string) (depth : Z) (names : list string) (filter_ : option (gset string)) : string + PackageCollection :=
  match Walk (NewWalker reg depth names) absRoot root with
  | inl e => inl ("walk: " +:+ e)
  | inr lockFiles =>
      let c := set_counts (Z.of_nat (length lockFiles)) (SBOMFiles c) c in
      match opened with
      | Some e => inl ("open scan root: " +:+ e)
      | None => inr (fold_left (collect_lockfile filter_) lockFiles c)
      end
  end.

(** ** SBOM files *)

Record sbom_parsed := mk_sbom_parsed { sbomPackages : list Package; sbomSkipped : list string }.

(** What an SBOM path leads to: the path relative to the root when there is
    one, its absolute path, and the bytes, or why they cannot be read. *)
Record sbom_input := mk_sbom_input { sbomPath : string; sbomRel : option string; sbomAbs : string; sbomData : string + string }.

Definition safeExternalDisplayPath (path : string) : string :=
  let base := Base (Clean path) in
  if bool_decide (TrimSpace base = "") || bool_decide (base = ".") || bool_decide (base = "/") then "external-sbom" else base.

Definition displayRelativePath (rel : option string) (path : string) : string :=
  match rel with
  | None => safeExternalDisplayPath path
  | Some rel =>
      if bool_decide (rel = ".") || HasPrefix rel "../" || bool_decide (rel = "..") then safeExternalDisplayPath path else rel
  end.

Definition sbomSkippedComponentReason (reason : string) : string :=
  let r := TrimSpace reason in
  if bool_decide (r ∈ ["invalid package name"; "missing purl"; "unsupported component type"; "unsupported or versionless purl"])
  then r else "component could not be imported".

Definition formatSBOMSkippedComponent (path : string) (ordinal : Z) (reason : string) : string :=
  path +:+ ": skipped SBOM component #" +:+ Itoa (if ordinal <? 1 then 1 else ordinal) +:+ ": " +:+ sbomSkippedComponentReason reason.

Context (sbom_Parse : string -> string + sbom_parsed).

Definition collect_sbom (filter_ : option (gset string)) (c : PackageCollection) (input : sbom_input)
    : string + PackageCollection :=
  if bool_decide (TrimSpace (sbomPath input) = "") then inr c
  else
    let c := set_counts (LockFiles c) (SBOMFiles c + 1) c in
    let displayPath := displayRelativePath (sbomRel input) (sbomAbs input) in
    match sbomData input with
    | inl e => inl (displayPath +:+ ": " +:+ e)
    | inr data =>
        match sbom_Parse data with
        | inl e => let msg := displayPath +:+ ": " +:+ e in inr (add_errors [msg] [msg] c)
        | inr parsed =>
            let c := add_errors (imap (fun i reason => formatSBOMSkippedComponent displayPath (Z.of_nat i + 1) reason)
                                   (sbomSkipped parsed)) [] c in
            inr (add_all filter_ (sbomPackages parsed) displayPath "sbom" c)
        end
    end.

Fixpoint collectExplicitSBOMPackages (filter_ : option (gset string)) (c : PackageCollection) (inputs : list sbom_input)
    : string + PackageCollection :=
  match inputs with
  | [] => inr c
  | input :: rest =>
      match collect_sbom filter_ c input with
      | inl e => inl e
      | inr c => collectExplicitSBOMPackages filter_ c rest
      end
  end.

Record CollectConfig := mk_collect_config {
  ccRegistry : list Parser;
  ccRoot : string;
  ccMaxDepth : Z;
  ccEcosystems : list string;
  ccSBOMFiles : list sbom_input;
  ccIncludeDev : bool
}.

(** [ccRoot] is the absolute, clean root. *)
Definition CollectPackages (cfg : CollectConfig) (root : string + node) (opened : option string) : string + PackageCollection :=
  let ecoFilter := ecosystemFilter (ccEcosystems cfg) in
  match collectLockfilePackages empty_collection (ccRegistry cfg) (ccRoot cfg) root opened (ccMaxDepth cfg) (ccEcosystems cfg)
          ecoFilter with
  | inl e => inl e
  | inr c =>
      match collectExplicitSBOMPackages ecoFilter c (ccSBOMFiles cfg) with
      | inl e => inl e
      | inr c => inr (finalizePackageCollection (ccIncludeDev cfg) c)
      end
  end.
End walker.

(** ** The walk: lemmas *)

Section node_ind.
Context (P : node -> Prop).
Context (Hfile : forall data, P (File data)) (Herr : forall e, P (Dir (inl e)))
  (Hdir : forall es, Forall (fun e => P e.2) es -> P (Dir (inr es))).

Fixpoint node_all (n : node) : P n :=
  match n with
  | File data => Hfile data
  | Dir (inl e) => Herr e
  | Dir (inr es) =>
      Hdir es ((fix all (l : list (string * node)) : Forall (fun e => P e.2) l :=
                  match l with
                  | [] => Forall_nil_2 _
                  | e :: l' => Forall_cons_2 _ e l' (node_all e.2) (all l')
                  end) es)
  end.
End node_ind.

(** A file of the tree under the names that lead to it. *)
Inductive in_tree : node -> list string -> string + string -> Prop :=
| in_file data : in_tree (File data) [] data
| in_dir es name n comps data : (name, n) ∈ es -> in_tree n comps data -> in_tree (Dir (inr es)) (name :: comps) data.

(** Directories the walker passes by. *)
Definition hidden (name : string) : bool :=
  (negb (bool_decide (name = ".")) && negb (bool_decide (name = ".github")) && HasPrefix name ".") ||
  (bool_decide (name = "node_modules") || bool_decide (name = "vendor") || bool_decide (name = "__pycache__")).

Definition no_slash (s : string) : bool := all_bytes (not_byte slash) s.

Section walk_lemmas.
Context {U : UnicodeCase} (w : Walker).

Fixpoint visited (rootDepth : Z) (path name : string) (comps : list string) : Prop :=
  match comps with
  | [] => True
  | c :: comps' => skipped_dir w rootDepth path name = false /\ visited rootDepth (join_path path c) c comps'
  end.

Definition full_path (path : string) (comps : list string) : string := fold_left join_path comps path.
Definition rel_path (rel : string) (comps : list string) : string := fold_left join_rel comps rel.

Lemma walk_node_spec rootDepth n path rel name files :
  walk_node w rootDepth path rel name n = inr files ->
  forall lf, lf ∈ files <-> exists comps data, in_tree n comps data /\ visited rootDepth path name comps /\
    lf ∈ found_file w (full_path path comps) (rel_path rel comps) data.
Proof.
  revert path rel name files. induction n as [data|e|es IH] using node_all; intros path rel name files.
  - intros [= <-] lf. split.
    + intros Hlf. exists [], data. split; [constructor|]. done.
    + intros (comps & data' & Ht & _ & Hlf). inversion Ht; subst. done.
  - cbn [walk_node]. destruct (skipped_dir w rootDepth path name) eqn:Hs; [|done]. intros [= <-] lf.
    split; [by intros ?%not_elem_of_nil|]. intros (comps & data' & Ht & _ & _). inversion Ht.
  - cbn [walk_node]. destruct (skipped_dir w rootDepth path name) eqn:Hs.
    { intros [= <-] lf. split; [by intros ?%not_elem_of_nil|]. intros (comps & data' & Ht & Hv & _).
      inversion Ht; subst. destruct Hv as [? _]. congruence. }
    intros Hrun lf.
    assert (lf ∈ files <-> exists name' n' comps data, (name', n') ∈ es /\ in_tree n' comps data /\
      visited rootDepth (join_path path name') name' comps /\
      lf ∈ found_file w (full_path (join_path path name') comps) (rel_path (join_rel rel name') comps) data) as Hes.
    { clear Hs. revert files Hrun. induction IH as [|[name' n'] es Hn _ IHes]; intros files Hrun.
      - injection Hrun as <-. split; [by intros ?%not_elem_of_nil|]. by intros (? & ? & ? & ? & ?%not_elem_of_nil & _).
      - destruct (walk_node w rootDepth (join_path path name') (join_rel rel name') name' n') as [e|fs] eqn:H1; [done|].
        cbn [snd] in Hn. specialize (Hn _ _ _ _ H1 lf).
        match type of Hrun with context [match ?x with _ => _ end] => destruct x as [e|fs'] eqn:H2; [done|] end.
        injection Hrun as <-. specialize (IHes _ eq_refl). rewrite elem_of_app, Hn, IHes. split.
        + intros [(comps & data & ?)|(nm & n & comps & data & Hin & ?)].
          * exists name', n', comps, data. split; [left|done].
          * exists nm, n, comps, data. split; [by right|done].
        + intros (nm & n & comps & data & Hin & ?). apply elem_of_cons in Hin as [[= -> ->]|Hin]; [left; eauto|right; eauto 6]. }
    rewrite Hes. split.
    + intros (nm & n & comps & data & Hin & Ht & Hv & Hlf). exists (nm :: comps), data. split; [by econstructor|]. done.
    + intros (comps & data & Ht & Hv & Hlf). inversion Ht; subst. destruct Hv as [_ Hv]. eauto 10.
Qed.

Lemma count_slashes_app s t : count_slashes (s +:+ t) = count_slashes s + count_slashes t.
Proof.
  induction s as [|c s IH]; [done|]. change (String c s +:+ t) with (String c (s +:+ t)). cbn [count_slashes]. rewrite IH. lia.
Qed.

Lemma count_slashes_none s : no_slash s = true -> count_slashes s = 0.
Proof.
  unfold no_slash. induction s as [|c s IH]; [done|]. rewrite all_bytes_cons, andb_true_iff. intros [Hc Hs].
  cbn [count_slashes]. unfold not_byte in Hc. rewrite IH by done. by case_bool_decide.
Qed.

Lemma join_path_depth path c : path <> "/" -> no_slash c = true -> c <> "" ->
  count_slashes (join_path path c) = count_slashes path + 1 /\ join_path path c <> "/".
Proof.
  intros Hp Hc Hne. unfold join_path. rewrite bool_decide_false by done. rewrite !count_slashes_app, (count_slashes_none c) by done.
  change (count_slashes "/") with 1. split; [lia|]. intros E. apply (f_equal String.length) in E. rewrite !str_len_app in E. cbn in E.
  destruct c; [done|]. cbn in E. lia.
Qed.

Lemma skipped_hidden rootDepth path name :
  skipped_dir w rootDepth path name = hidden name || (maxDepth w <? count_slashes path - rootDepth).
Proof. done. Qed.

(** Which directories are visited on the way to a file. *)
Lemma visited_spec rootDepth path name comps :
  path <> "/" -> Forall (fun c => no_slash c = true /\ c <> "") comps ->
  visited rootDepth path name comps <->
  comps = [] \/ (hidden name = false /\ Forall (fun c => hidden c = false) (take (length comps - 1) comps) /\
    count_slashes path - rootDepth + Z.of_nat (length comps) - 1 <= maxDepth w).
Proof.
  revert path name. induction comps as [|c comps IH]; intros path name Hp Hcs; cbn [visited]; [by split; [left|]|].
  apply Forall_cons in Hcs as [[Hc Hne] Hcs]. destruct (join_path_depth path c Hp Hc Hne) as [Hd Hp'].
  rewrite (IH _ _ Hp' Hcs), skipped_hidden, orb_false_iff, Z.ltb_ge, Hd. cbn [length]. rewrite Nat.sub_succ, Nat.sub_0_r.
  split.
  - intros [[Hh Hm] Hv]. right. split; [done|]. destruct Hv as [->|(Hc' & Hall & Hb)]; [split; [constructor|cbn; lia]|].
    destruct comps as [|c' comps]; [split; [constructor|cbn; lia]|]. cbn [length] in *. rewrite Nat.sub_succ, Nat.sub_0_r in Hall.
    split; [|lia]. rewrite firstn_cons. by constructor.
  - intros [?|(Hh & Hall & Hb)]; [done|]. split; [split; [done|lia]|]. destruct comps as [|c' comps]; [by left|]. right.
    cbn [length] in *. rewrite Nat.sub_succ, Nat.sub_0_r. rewrite firstn_cons in Hall. apply Forall_cons in Hall as [? ?].
    split; [done|]. split; [done|]. lia.
Qed.

(** Names are names: no slash in them, and not empty. *)
Fixpoint named (n : node) : Prop :=
  match n with
  | Dir (inr es) => (fix all (l : list (string * node)) : Prop :=
      match l with [] => True | (name, n') :: l' => no_slash name = true /\ name <> "" /\ named n' /\ all l' end) es
  | _ => True
  end.

Lemma named_entries es : named (Dir (inr es)) -> forall name n, (name, n) ∈ es -> no_slash name = true /\ name <> "" /\ named n.
Proof.
  cbn [named]. induction es as [|[nm n'] es IH]; intros Hall name n Hin; [by apply not_elem_of_nil in Hin|].
  destruct Hall as (H1 & H2 & H3 & Hall). apply elem_of_cons in Hin as [[= -> ->]|Hin]; [done|]. by apply IH.
Qed.

Lemma named_comps n comps data : named n -> in_tree n comps data -> Forall (fun c => no_slash c = true /\ c <> "") comps.
Proof.
  intros Hn Ht. induction Ht as [|es name n comps data Hin Ht IH]; [constructor|].
  destruct (named_entries es Hn name n Hin) as (H1 & H2 & H3). constructor; auto.
Qed.
End walk_lemmas.

(** The walk finds exactly the files that some parser of a wanted
    ecosystem reads and that lie no deeper than allowed, in directories none of
    which is hidden, vendored or a cache (and the root is none of them). *)
Theorem walk_exact {U : UnicodeCase} w absRoot es files :
  Walk w absRoot (inr (Dir (inr es))) = inr files -> absRoot <> "/" -> named (Dir (inr es)) ->
  forall lf, lf ∈ files <->
    exists comps data, in_tree (Dir (inr es)) comps data /\ hidden (Base absRoot) = false /\
      Forall (fun c => hidden c = false) (take (length comps - 1) comps) /\
      Z.of_nat (length comps) - 1 <= maxDepth w /\
      lf ∈ found_file w (full_path absRoot comps) (rel_path "" comps) data.
Proof.
  intros Hwalk Hroot Hnamed lf. unfold Walk in Hwalk. rewrite (walk_node_spec w _ _ _ _ _ _ Hwalk lf).
  split; intros (comps & data & Ht & H); exists comps, data; (split; [done|]);
    pose proof (visited_spec w (count_slashes absRoot) absRoot (Base absRoot) comps Hroot (named_comps _ _ _ Hnamed Ht)) as Hv.
  - destruct H as [H Hlf]. apply Hv in H as [->|(H1 & H2 & H3)]; [inversion Ht|]. split_and!; try done. lia.
  - destruct H as (H1 & H2 & H3 & Hlf). split; [|done]. apply Hv. right. split_and!; try done. lia.
Qed.

(** A project whose own directory has such a name is not scanned at all. *)
Lemma hidden_root_finds_nothing {U : UnicodeCase} w absRoot entries :
  hidden (Base absRoot) = true -> Walk w absRoot (inr (Dir entries)) = inr [].
Proof. intros Hh. cbn [Walk walk_node]. by rewrite skipped_hidden, Hh. Qed.

(** ** The collection: lemmas *)

Section collect_lemmas.
Context {U : UnicodeCase} (sbom_Parse : string -> string + sbom_parsed).

(** The packages a lockfile offers: those of wanted ecosystems, if it parsed. *)
Definition offered_by (filter_ : option (gset string)) (lf : LockFile) : list CollectedPackage :=
  match parseCollectedLockFile lf with
  | (_, Some _) => []
  | (pkgs, None) => (fun p => mk_collected p (lfRelPath lf) "lockfile") <$> filter (fun p => allows filter_ (pkgEcosystem p) = true) pkgs
  end.

Definition offered_sbom (filter_ : option (gset string)) (input : sbom_input) : list CollectedPackage :=
  if bool_decide (TrimSpace (sbomPath input) = "") then []
  else match sbomData input with
  | inl _ => []
  | inr data =>
      match sbom_Parse data with
      | inl _ => []
      | inr parsed => (fun p => mk_collected p (displayRelativePath (sbomRel input) (sbomAbs input)) "sbom") <$>
                        filter (fun p => allows filter_ (pkgEcosystem p) = true) (sbomPackages parsed)
      end
  end.

(** Everything offered to the collection, in order. *)
Definition offered (cfg : CollectConfig) (root : string + node) : list CollectedPackage :=
  let filter_ := ecosystemFilter (ccEcosystems cfg) in
  match Walk (NewWalker (ccRegistry cfg) (ccMaxDepth cfg) (ccEcosystems cfg)) (ccRoot cfg) root with
  | inl _ => []
  | inr files => files ≫= offered_by filter_
  end ++ (ccSBOMFiles cfg ≫= offered_sbom filter_).

(** The collection holds the packages [xs] merged. *)
Definition collected (c : PackageCollection) (xs : list CollectedPackage) : Prop :=
  (ensureIndex c, Entries c) = fold_left (index_add cpPackage put_package) xs (∅, []).

Lemma collected_add p f t c xs : collected c xs -> collected (add p f t c) (xs ++ [mk_collected p f t]).
Proof.
  intros Hc. unfold collected, add. rewrite fold_left_app, <- Hc. cbn [fold_left].
  by destruct (index_add _ _ _ _) as [m es].
Qed.

Lemma collected_add_all filter_ pkgs f t c xs : collected c xs ->
  collected (add_all filter_ pkgs f t c)
    (xs ++ ((fun p => mk_collected p f t) <$> filter (fun p => allows filter_ (pkgEcosystem p) = true) pkgs)).
Proof.
  unfold add_all. revert c xs. induction pkgs as [|p pkgs IH]; intros c xs Hc; cbn [fold_left]; [by rewrite app_nil_r|].
  rewrite filter_cons. destruct (allows filter_ (pkgEcosystem p)) eqn:Ha.
  - rewrite decide_True by done. cbn [fmap list_fmap]. rewrite cons_middle, app_assoc. by apply IH, collected_add.
  - rewrite decide_False by done. by apply IH.
Qed.

Lemma collected_lockfile filter_ lf c xs : collected c xs -> collected (collect_lockfile filter_ c lf) (xs ++ offered_by filter_ lf).
Proof.
  intros Hc. unfold collect_lockfile, offered_by. destruct (parseCollectedLockFile lf) as [pkgs [e|]].
  - rewrite app_nil_r. exact Hc.
  - by apply collected_add_all.
Qed.

Lemma collected_lockfiles filter_ files c xs : collected c xs ->
  collected (fold_left (collect_lockfile filter_) files c) (xs ++ (files ≫= offered_by filter_)).
Proof.
  revert c xs. induction files as [|lf files IH]; intros c xs Hc; cbn [fold_left mbind list_bind]; [by rewrite app_nil_r|].
  rewrite app_assoc. by apply IH, collected_lockfile.
Qed.

Lemma collected_sboms filter_ inputs c xs c' : collected c xs ->
  collectExplicitSBOMPackages sbom_Parse filter_ c inputs = inr c' -> collected c' (xs ++ (inputs ≫= offered_sbom filter_)).
Proof.
  revert c xs. induction inputs as [|i inputs IH]; intros c xs Hc; cbn [collectExplicitSBOMPackages mbind list_bind].
  { intros [= <-]. by rewrite app_nil_r. }
  destruct (collect_sbom sbom_Parse filter_ c i) as [e|c1] eqn:Hi; [done|]. rewrite app_assoc. apply IH.
  unfold collect_sbom in Hi. unfold offered_sbom. case_bool_decide; [injection Hi as <-; by rewrite app_nil_r|].
  destruct (sbomData i) as [e|data]; [done|]. destruct (sbom_Parse data) as [e|parsed]; injection Hi as <-.
  - rewrite app_nil_r. exact Hc.
  - by apply collected_add_all.
Qed.

Lemma collection_groups c xs : collected c xs -> groups cpPackage put_package xs (ensureIndex c, Entries c).
Proof. unfold collected. intros ->. apply index_groups; [done|done|by intros []]. Qed.

Lemma merged_source xs e : merged_from cpPackage put_package xs e ->
  exists x, x ∈ xs /\ collection_key (cpPackage x) = collection_key (cpPackage e) /\ SourceFile x = SourceFile e.
Proof.
  intros (x & rest & Hf & He). exists x. assert (x ∈ filter (fun y => collection_key (cpPackage y) = collection_key (cpPackage e)) xs)
    as Hx by (rewrite Hf; left). apply list_elem_of_filter in Hx as [Hk Hx]. split_and!; try done. by rewrite He.
Qed.

(** A checksum file named the version first, and a module file selects another. *)
Definition stale (xs : list CollectedPackage) (k : packageCollectionKey) : Prop :=
  exists x z, x ∈ xs /\ collection_key (cpPackage x) = k /\ pkgEcosystem (cpPackage x) = EcosystemGo /\
    isGoSumSource (SourceFile x) = true /\
    z ∈ xs /\ pkgEcosystem (cpPackage z) = EcosystemGo /\ isGoSumSource (SourceFile z) = false /\
    pkgName (cpPackage z) = pkgName (cpPackage x) /\ pkgVersion (cpPackage z) <> pkgVersion (cpPackage x).

Lemma filterStale_entries c xs : collected c xs ->
  (forall e, e ∈ Entries (filterStaleGoSumVersions c) -> e ∈ Entries c) /\
  NoDup ((fun e => collection_key (cpPackage e)) <$> Entries (filterStaleGoSumVersions c)) /\
  (forall e, e ∈ Entries c -> e ∈ Entries (filterStaleGoSumVersions c) \/ stale xs (collection_key (cpPackage e))).
Proof.
  intros Hc. destruct (collection_groups c xs Hc) as [Hok Hfrom _].
  pose proof (index_ok_NoDup _ _ Hok) as Hnd. cbn [snd] in *. unfold filterStaleGoSumVersions. case_bool_decide as Hempty.
  { split_and!; auto. }
  cbn [set_entries Entries]. set (chosen := filter _ (Entries c)) in *. split_and!.
  - intros e He. by apply list_elem_of_filter in He as [_ ?].
  - by apply filter_fmap_NoDup.
  - intros e He. set (sel := list_to_set (module_key ∘ cpPackage <$> chosen) : gset string) in *.
    set (names := list_to_set (pkgName ∘ cpPackage <$> chosen) : gset string) in *.
    destruct (kept_entry sel names e) eqn:Hk; [left; apply list_elem_of_filter; by split|right].
    unfold kept_entry in Hk. rewrite negb_false_iff, !andb_true_iff, negb_true_iff, !bool_decide_eq_true, bool_decide_eq_false in Hk.
    destruct Hk as [[[Heco Hsum] Hname] Hsel]. destruct (merged_source _ _ (Hfrom e He)) as (x & Hx & Hkx & Hsx).
    unfold names in Hname. apply elem_of_list_to_set, list_elem_of_fmap in Hname as (z0 & Hn & Hz0).
    assert (z0 ∈ Entries c /\ go_selected z0 = true) as [Hz Hgo] by (by apply list_elem_of_filter in Hz0 as [? ?]).
    unfold go_selected in Hgo. apply andb_true_iff in Hgo as [Hg1%bool_decide_eq_true Hg2%negb_true_iff].
    destruct (merged_source _ _ (Hfrom z0 Hz)) as (z & Hzx & Hkz & Hsz). unfold collection_key in Hkx, Hkz.
    injection Hkx as X1 X2 X3. injection Hkz as Z1 Z2 Z3. cbn in Hn.
    exists x, z. split_and!; try done; try congruence.
    + unfold collection_key. congruence.
    + intros E. apply Hsel. unfold sel. apply elem_of_list_to_set, list_elem_of_fmap. exists z0. split; [|done].
      unfold module_key. cbn. congruence.
Qed.

Lemma fold_Dev rest p : Dev (fold_left merge_metadata rest p) = true <-> Dev p = true /\ forall q, q ∈ rest -> Dev q = true.
Proof.
  rewrite fold_merge_Dev, andb_true_iff, forallb_forall. by setoid_rewrite <- list_elem_of_In.
Qed.

End collect_lemmas.

(** ** Examples *)

Section examples.
#[local] Instance collect_case : UnicodeCase := plain_case.

Definition no_sbom (data : string) : string + sbom_parsed := inl "unsupported".

(** Two modules in one repository: "a" has moved to v1.1.0 of a library and
    still names v1.0.0 in its checksums; "b" requires v1.0.0. *)
Definition two_modules : node :=
  Dir (inr [
    ("a", Dir (inr [("go.mod", File (inr (mod_file "example.com/a" [mk_requirement "example.com/lib" "v1.1.0" false])));
                    ("go.sum", File (inr (sum_file [mk_checksum "example.com/lib" "v1.0.0" "h1:old";
                                                    mk_checksum "example.com/lib" "v1.1.0" "h1:new"])))]));
    ("b", Dir (inr [("go.mod", File (inr (mod_file "example.com/b" [mk_requirement "example.com/lib" "v1.0.0" false])))]));
    ("vendor", Dir (inr [("go.mod", File (inr (mod_file "example.com/v" [mk_requirement "example.com/x" "v0.1.0" false])))]))]).

Definition two_modules_config : CollectConfig :=
  mk_collect_config [NewGoSumParser; NewGoModParser] "/src/mono" 3 [] [] true.

Definition coordinates (c : PackageCollection) : list packageCollectionKey := collection_key <$> Packages c.

#[local] Notation two_modules_run := (CollectPackages no_sbom two_modules_config (inr two_modules) None) (only parsing).

Lemma two_modules_collected c : two_modules_run = inr c -> coordinates c = [("example.com/lib", "v1.1.0", "go")].
Proof.
  intros E. assert (match two_modules_run with inr c => coordinates c | inl _ => [] end = [("example.com/lib", "v1.1.0", "go")])
    as Hc by (vm_compute; reflexivity). by rewrite E in Hc.
Qed.

(** What the module file of "b" requires is lost: its version was first seen in
    the checksums of "a", and the filter for stale checksums drops it. *)
Lemma required_module_dropped :
  exists c x, two_modules_run = inr c /\ x ∈ offered no_sbom two_modules_config (inr two_modules) /\
    SourceFile x = "b/go.mod" /\ pkgName (cpPackage x) = "example.com/lib" /\ pkgVersion (cpPackage x) = "v1.0.0" /\
    collection_key (cpPackage x) ∉ collection_key <$> Packages c.
Proof.
  destruct two_modules_run as [e|c] eqn:E.
  { exfalso. assert (match two_modules_run with inr _ => true | inl _ => false end = true) as Hs by (vm_compute; reflexivity).
    by rewrite E in Hs. }
  set (x := mk_collected (go_package "example.com/lib" "v1.0.0" true false) "b/go.mod" "lockfile"). exists c, x.
  split; [done|]. split_and!; try done.
  - assert (nth_error (offered no_sbom two_modules_config (inr two_modules)) 3 = Some x) as Hx by (vm_compute; reflexivity).
    apply list_elem_of_In. by apply (nth_error_In _ 3).
  - fold (coordinates c). rewrite (two_modules_collected c E). intros [H|H]%elem_of_cons; [done|]. by apply not_elem_of_nil in H.
Qed.


#[local] Notation two_modules_walk :=
  (Walk (NewWalker [NewGoSumParser; NewGoModParser] 3 []) "/src/mono" (inr two_modules)) (only parsing).

Lemma walk_exact_witness :
  exists files lf, two_modules_walk = inr files /\ lf ∈ files /\ lfRelPath lf = "b/go.mod".
Proof.
  destruct two_modules_walk as [e|files] eqn:E.
  { exfalso. assert (match two_modules_walk with inr _ => true | inl _ => false end = true) as Hs by (vm_compute; reflexivity).
    by rewrite E in Hs. }
  set (data := inr (mod_file "example.com/b" [mk_requirement "example.com/lib" "v1.0.0" false]) : string + string).
  exists files, (mk_lockfile "/src/mono/b/go.mod" "b/go.mod" NewGoModParser data). split; [reflexivity|]. split; [|reflexivity].
  apply (walk_exact (NewWalker [NewGoSumParser; NewGoModParser] 3 []) "/src/mono" _ files E); [done|cbn; repeat split; done|].
  exists ["b"; "go.mod"], data. split.
  { eapply in_dir; [right; left|]. eapply in_dir; [left|]. constructor. }
  split; [reflexivity|]. split; [repeat constructor|]. split; [cbn; lia|]. left.
Defined.
End examples.
