(* ===== verification/JsonRender.v ===== *)
(** encoding/json in both directions: what the encoder writes, the parser reads
    back.  A [jtext] is a value as the encoder prints it; strings come back as
    valid UTF-8. *)
From stdpp Require Import base list option strings gmap.
From Stdlib Require Import Ascii ZArith Lia.
From S2P Require Import Prelude GoStrings GoNumbers Json JsonMaps Collections JsonEncode.

Inductive jtext :=
| TString (s : string)
| TInt (z : Z)
| TBool (b : bool)
| TNull
| TArray (items : list jtext)
| TObject (members : list (string * jtext)).

Fixpoint print (t : jtext) : string :=
  match t with
  | TString s => marshal_string s
  | TInt z => Itoa z
  | TBool b => if b then "true" else "false"
  | TNull => "null"
  | TArray items => marshal_array (List.map print items)
  | TObject members => marshal_members (List.map (fun m => (m.1, print m.2)) members)
  end.

Fixpoint denote (t : jtext) : json :=
  match t with
  | TString s => JString (ToValidUTF8 s)
  | TInt z => JNumber (Itoa z)
  | TBool b => JBool b
  | TNull => JNull
  | TArray items => JArray (List.map denote items)
  | TObject members => JObject (List.map (fun m => (ToValidUTF8 m.1, denote m.2)) members)
  end.

(** The number of containers inside each other. *)
Fixpoint nesting (t : jtext) : nat :=
  match t with
  | TArray items => S (list_max (List.map nesting items))
  | TObject members => S (list_max (List.map (fun m => nesting m.2) members))
  | _ => 0
  end.

Section jtext_all.
Context (P : jtext -> Prop).
Context (Hs : forall s, P (TString s)) (Hi : forall z, P (TInt z)) (Hb : forall b, P (TBool b)) (Hn : P TNull)
  (Ha : forall items, Forall P items -> P (TArray items))
  (Ho : forall members, Forall (fun m => P m.2) members -> P (TObject members)).

Fixpoint jtext_all (t : jtext) : P t :=
  match t with
  | TString s => Hs s
  | TInt z => Hi z
  | TBool b => Hb b
  | TNull => Hn
  | TArray items =>
      Ha items ((fix all (l : list jtext) : Forall P l :=
        match l with [] => Forall_nil_2 _ | x :: l' => Forall_cons_2 _ x l' (jtext_all x) (all l') end) items)
  | TObject members =>
      Ho members ((fix all (l : list (string * jtext)) : Forall (fun m => P m.2) l :=
        match l with [] => Forall_nil_2 _ | x :: l' => Forall_cons_2 _ x l' (jtext_all x.2) (all l') end) members)
  end.
End jtext_all.

(** ** Numbers *)

(** What can follow a value. *)
Definition value_end (rest : string) : bool :=
  match rest with
  | EmptyString => true
  | String c _ => bool_decide (c ∈ [","%char; "]"%char; "}"%char; byte 10])
  end.

Lemma value_end_cases rest : value_end rest = true ->
  rest = "" \/ exists c r, rest = String c r /\ isDigit c = false /\ code c <> 46 /\ code c <> 101 /\ code c <> 69.
Proof.
  destruct rest as [|c r]; [by left|]. cbn. rewrite bool_decide_eq_true, !elem_of_cons. intros H. right. exists c, r.
  split; [done|]. destruct H as [->|[->|[->|[->|[]%not_elem_of_nil]]]]; by vm_compute.
Qed.

Lemma itoa_fuel_lead fuel n acc : 0 < n < 2 ^ Z.of_nat fuel ->
  exists c s, itoa_fuel fuel n acc = String c s /\ 49 <= code c <= 57.
Proof.
  revert n acc. induction fuel as [|fuel IH]; intros n acc Hn; [cbn in Hn; lia|]. cbn [itoa_fuel].
  destruct (Z.ltb_spec n 10).
  - do 2 eexists. split; [reflexivity|]. unfold digit. rewrite Z.mod_small, code_byte by lia. lia.
  - apply IH. split; [apply Z.div_str_pos; lia|]. rewrite Nat2Z.inj_succ, Z.pow_succ_r in Hn by lia.
    apply Z.div_lt_upper_bound; lia.
Qed.

Lemma itoa_lead n : 0 < n -> exists c s, itoa_nonneg n = String c s /\ 49 <= code c <= 57.
Proof.
  intros Hn. apply itoa_fuel_lead. split; [done|]. rewrite Nat2Z.inj_succ, Z2Nat.id by apply Z.log2_nonneg.
  apply Z.log2_spec. lia.
Qed.

Lemma fraction_end rest : value_end rest = true -> number_fraction rest = Some ("", rest) /\ number_exponent rest = Some ("", rest).
Proof.
  intros [->|(c & r & -> & _ & H1 & H2 & H3)]%value_end_cases; [done|]. unfold number_fraction, number_exponent.
  by rewrite !(proj2 (Z.eqb_neq _ _)).
Qed.

(** The digits of a number that does not start with a zero. *)
Lemma parse_unsigned n rest : 0 <= n -> value_end rest = true ->
  match itoa_nonneg n +:+ rest with
  | String c s' => if code c =? 48 then Some (String c "", s') else if isDigit c then Some (span_digits (itoa_nonneg n +:+ rest)) else None
  | EmptyString => None
  end = Some (itoa_nonneg n, rest).
Proof.
  intros Hn Hrest. destruct (decide (n = 0)) as [->|Hne]; [done|]. destruct (itoa_lead n) as (c & s & E & Hc); [lia|].
  pose proof (itoa_nonneg_digits n Hn) as Hd. rewrite E in *. change (String c s +:+ rest) with (String c (s +:+ rest)). cbv beta iota.
  rewrite (proj2 (Z.eqb_neq _ _)) by lia. rewrite all_bytes_cons, andb_true_iff in Hd. destruct Hd as [Hc' Hd].
  rewrite Hc'. f_equal. change (String c (s +:+ rest)) with (String c s +:+ rest). apply span_digits_app.
  - by rewrite all_bytes_cons, Hc', Hd.
  - apply value_end_cases in Hrest as [->|(c' & r & -> & H & _)]; [done|]. done.
Qed.

(** A number after its sign. *)
Definition number_tail (sign s1 : string) : option (string * string) :=
  '(int, s2) ← match s1 with
    | String c s' =>
        if code c =? 48 then Some (String c "", s')
        else if isDigit c then Some (span_digits s1) else None
    | EmptyString => None
    end;
  '(frac, s3) ← number_fraction s2;
  '(exp, s4) ← number_exponent s3;
  Some (sign +:+ int +:+ frac +:+ exp, s4).

Lemma number_tail_itoa sign n rest : 0 <= n -> value_end rest = true ->
  number_tail sign (itoa_nonneg n +:+ rest) = Some (sign +:+ itoa_nonneg n, rest).
Proof.
  intros Hn Hrest. destruct (fraction_end rest Hrest) as [Hf He]. unfold number_tail. rewrite parse_unsigned by done.
  cbn [mbind option_bind]. rewrite Hf. cbn [mbind option_bind]. rewrite He. cbn [mbind option_bind]. by rewrite !str_app_nil.
Qed.

Lemma parse_number_Itoa z rest : value_end rest = true -> parse_number (Itoa z +:+ rest) = Some (Itoa z, rest).
Proof.
  intros Hrest. unfold Itoa. destruct (Z.ltb_spec z 0).
  - rewrite str_app_assoc. change (parse_number ("-" +:+ ?x)) with (number_tail "-" x). by apply number_tail_itoa; [lia|].
  - change (Some (itoa_nonneg z, rest)) with (Some ("" +:+ itoa_nonneg z, rest)).
    rewrite <- (number_tail_itoa "" z rest) by done. destruct (decide (z = 0)) as [->|]; [reflexivity|].
    destruct (itoa_lead z) as (c & s & -> & Hc); [lia|]. change (String c s +:+ rest) with (String c (s +:+ rest)).
    unfold parse_number. cbv beta iota. rewrite (proj2 (Z.eqb_neq (code c) 45)) by lia. reflexivity.
Qed.

(** ** Values *)

Definition reads (d : Z) (text : string) (v : json) : Prop :=
  forall rest f, value_end rest = true -> (value_bound (String.length (text +:+ rest)) <= f)%nat ->
    parse_value f d (text +:+ rest) = Some (v, rest).

(** The first byte of a printed value tells what it is. *)
Definition starts_value (text : string) : Prop :=
  exists c r, text = String c r /\ json_space c = false /\ code c <> 93 /\ code c <> 125.

Lemma print_starts t : starts_value (print t).
Proof.
  destruct t as [s|z|[]| |items|members]; try (by do 2 eexists).
  cbn [print]. unfold Itoa. destruct (Z.ltb_spec z 0); [by do 2 eexists|].
  destruct (decide (z = 0)) as [->|]; [by do 2 eexists|]. destruct (itoa_lead z) as (c & s & -> & Hc); [lia|].
  exists c, s. split; [done|]. split; [|lia]. unfold json_space. rewrite !(proj2 (Z.eqb_neq _ _)) by lia. done.
Qed.

Lemma skip_starts text rest : starts_value text -> skip_space (text +:+ rest) = text +:+ rest.
Proof. intros (c & r & -> & Hc & _). change (String c r +:+ rest) with (String c (r +:+ rest)). cbn [skip_space]. by rewrite Hc. Qed.

Lemma reads_Itoa d z : reads d (Itoa z) (JNumber (Itoa z)).
Proof.
  intros rest f Hrest Hf. destruct f as [|f]; [unfold value_bound in Hf; lia|]. cbn [parse_value].
  rewrite (skip_starts (Itoa z)) by (apply (print_starts (TInt z))).
  assert (exists c s, Itoa z = String c s /\ (code c = 45 \/ 48 <= code c <= 57)) as (c & s & E & Hc).
  { unfold Itoa. destruct (Z.ltb_spec z 0); [do 2 eexists; split; [reflexivity|by left]|].
    destruct (decide (z = 0)) as [->|]; [do 2 eexists; split; [reflexivity|by right]|].
    destruct (itoa_lead z) as (c & s & -> & Hc); [lia|]. do 2 eexists. split; [reflexivity|]. right. lia. }
  pose proof (parse_number_Itoa z rest Hrest) as Hn. rewrite E in Hn |- *.
  change (String c s +:+ rest) with (String c (s +:+ rest)) in *. cbv beta iota zeta.
  rewrite (proj2 (Z.eqb_neq (code c) 123)), (proj2 (Z.eqb_neq (code c) 91)), (proj2 (Z.eqb_neq (code c) 34)) by lia.
  assert (forall a p, code a <> code c -> HasPrefix (String c (s +:+ rest)) (String a p) = false) as Hp.
  { intros a p Ha. cbn [HasPrefix]. rewrite bool_decide_false by congruence. done. }
  rewrite (Hp "t"%char) by (change (code "t") with 116; lia). rewrite (Hp "f"%char) by (change (code "f") with 102; lia).
  rewrite (Hp "n"%char) by (change (code "n") with 110; lia). by rewrite Hn.
Qed.

Lemma skip_string s rest : skip_space (marshal_string s +:+ rest) = marshal_string s +:+ rest.
Proof. apply skip_starts, (print_starts (TString s)). Qed.

(** The elements of an array. *)
Lemma reads_elements d items rest f :
  items <> [] -> Forall (fun t => reads d (print t) (denote t)) items ->
  let text := Join (print <$> items) "," +:+ String "]" rest in
  (elements_bound (String.length text) <= f)%nat ->
  parse_elements f d text = Some (denote <$> items, rest).
Proof.
  intros Hne Hall. revert f. induction Hall as [|t items Ht Hall IH]; [done|]. intros f text Hf. subst text.
  destruct f as [|f]; [unfold elements_bound in Hf; lia|]. unfold elements_bound in Hf. cbn [parse_elements].
  destruct items as [|t' items].
  - cbn [fmap list_fmap Join] in *. rewrite Ht by (done || (unfold value_bound; lia)). reflexivity.
  - change (Join (print <$> t :: t' :: items) ",") with (print t +:+ "," +:+ Join (print <$> t' :: items) ",") in *.
    rewrite !str_app_assoc in *. set (more := Join (print <$> t' :: items) "," +:+ String "]" rest) in *.
    change ("," +:+ more) with (String "," more) in *. rewrite str_len_app in Hf. cbn [String.length] in Hf.
    rewrite Ht by (done || (unfold value_bound; rewrite str_len_app; cbn [String.length]; lia)).
    cbn [mbind option_bind]. change (skip_space (String "," more)) with (String "," more). cbv beta iota.
    change (code "," =? 44) with true. cbv beta iota. rewrite (IH ltac:(done) f) by (unfold elements_bound; lia). reflexivity.
Qed.

(** The members of an object. *)
Lemma reads_members d members rest f :
  members <> [] -> Forall (fun m => reads d (print m.2) (denote m.2)) members ->
  let text := Join ((fun m => marshal_string m.1 +:+ ":" +:+ print m.2) <$> members) "," +:+ String "}" rest in
  (value_bound (String.length text) <= f)%nat ->
  parse_members f d text = Some ((fun m => (ToValidUTF8 m.1, denote m.2)) <$> members, rest).
Proof.
  intros Hne Hall. revert f. induction Hall as [|[k t] members Ht Hall IH]; [done|]. intros f text Hf. subst text.
  destruct f as [|f]; [unfold value_bound in Hf; lia|]. unfold value_bound in Hf. cbn [snd] in Ht.
  assert (forall g s tail, parse_members (S g) d (marshal_string s +:+ ":" +:+ tail) =
    ('(v, r) ← parse_value g d tail;
     match skip_space r with
     | String c r' => if code c =? 44 then '(l, r'') ← parse_members g d r'; Some ((ToValidUTF8 s, v) :: l, r'')
                      else if code c =? 125 then Some ([(ToValidUTF8 s, v)], r') else None
     | EmptyString => None
     end)) as Hstep.
  { intros g s tail. cbn [parse_members]. rewrite skip_string. unfold marshal_string at 1. rewrite !str_app_assoc.
    change (quote +:+ ?x) with (String (byte 34) x) at 1. cbv beta iota. change (code (byte 34) =? 34) with true. cbv beta iota.
    destruct (string_body_encode (String.length s) s (":" +:+ tail)) as [h Hh]; [done|].
    apply string_body_sound in Hh as [_ Hh]. change (quote +:+ (":" +:+ tail)) with (String (byte 34) (":" +:+ tail)).
    rewrite Hh by lia. reflexivity. }
  destruct members as [|m' members].
  - cbn [fmap list_fmap Join fst snd] in *. rewrite !str_app_assoc in *. rewrite Hstep.
    rewrite !str_len_app in Hf. cbn [String.length] in Hf.
    rewrite Ht by (done || (unfold value_bound; rewrite str_len_app; cbn [String.length]; lia)). reflexivity.
  - set (line := fun m : string * jtext => marshal_string m.1 +:+ ":" +:+ print m.2) in *.
    change (Join (line <$> (k, t) :: m' :: members) ",") with (line (k, t) +:+ "," +:+ Join (line <$> m' :: members) ",") in *.
    change (line (k, t)) with (marshal_string k +:+ ":" +:+ print t) in *. rewrite !str_app_assoc in *.
    set (more := Join (line <$> m' :: members) "," +:+ String "}" rest) in *. change ("," +:+ more) with (String "," more) in *.
    rewrite Hstep. rewrite !str_len_app in Hf. cbn [String.length] in Hf.
    rewrite Ht by (done || (unfold value_bound; rewrite str_len_app; cbn [String.length]; lia)).
    cbn [mbind option_bind]. change (skip_space (String "," more)) with (String "," more). cbv beta iota.
    change (code "," =? 44) with true. cbv beta iota. rewrite (IH ltac:(done) f) by (unfold value_bound; lia). reflexivity.
Qed.


Lemma starts_app text rest : starts_value text -> exists c r, text +:+ rest = String c r /\ json_space c = false /\
  code c <> 93 /\ code c <> 125.
Proof. intros (c & r & -> & H). exists c, (r +:+ rest). done. Qed.

(** A container: what is inside is not its end. *)
Lemma reads_array d items :
  d < max_nesting_depth -> Forall (fun t => reads (d + 1) (print t) (denote t)) items ->
  reads d (marshal_array (print <$> items)) (JArray (denote <$> items)).
Proof.
  intros Hd Hall rest f Hrest Hf. destruct f as [|f]; [unfold value_bound in Hf; lia|]. unfold value_bound in Hf.
  unfold marshal_array in *. rewrite !str_app_assoc in *. change ("[" +:+ ?x) with (String "[" x) in *.
  change ("]" +:+ rest) with (String "]" rest) in *. cbn [String.length] in Hf.
  cbn [parse_value skip_space]. change (json_space "[") with false. cbv beta iota zeta. change (code "[" =? 123) with false.
  change (code "[" =? 91) with true. cbv beta iota. rewrite (proj2 (Z.leb_gt _ _)) by lia.
  destruct items as [|t items]; [reflexivity|].
  assert (exists c r, Join (print <$> t :: items) "," +:+ String "]" rest = String c r /\ json_space c = false /\ code c <> 93 /\ code c <> 125)
    as (c & r & E & Hc & H93 & _).
  { destruct items as [|t' items]; [apply starts_app, print_starts|].
    change (Join (print <$> t :: t' :: items) ",") with (print t +:+ ("," +:+ Join (print <$> t' :: items) ",")).
    rewrite !str_app_assoc. apply starts_app, print_starts. }
  pose proof (reads_elements (d + 1) (t :: items) rest f ltac:(done) Hall) as He. cbv zeta in He. rewrite E in He, Hf |- *.
  cbn [skip_space]. rewrite Hc. cbv beta iota. rewrite (proj2 (Z.eqb_neq _ _)) by done.
  rewrite He by (unfold elements_bound; cbn [String.length] in *; lia). reflexivity.
Qed.

Lemma reads_object d members :
  d < max_nesting_depth -> Forall (fun m => reads (d + 1) (print m.2) (denote m.2)) members ->
  reads d (print (TObject members)) (denote (TObject members)).
Proof.
  intros Hd Hall rest f Hrest Hf. destruct f as [|f]; [unfold value_bound in Hf; lia|]. unfold value_bound in Hf.
  cbn [print denote] in *. unfold marshal_members in *.
  assert (((fun m : string * string => marshal_string m.1 +:+ ":" +:+ m.2) <$> List.map (fun m => (m.1, print m.2)) members) =
    (fun m => marshal_string m.1 +:+ ":" +:+ print m.2) <$> members) as Em.
  { clear. induction members as [|m ms IH]; [done|]. cbn. f_equal. exact IH. }
  rewrite Em in *. rewrite !str_app_assoc in *. change ("{" +:+ ?x) with (String "{" x) in *.
  change ("}" +:+ rest) with (String "}" rest) in *. cbn [String.length] in Hf.
  cbn [parse_value skip_space]. change (json_space "{") with false. cbv beta iota zeta. change (code "{" =? 123) with true.
  cbv beta iota. rewrite (proj2 (Z.leb_gt _ _)) by lia. destruct members as [|m members]; [reflexivity|].
  assert (exists c r, Join ((fun m => marshal_string m.1 +:+ ":" +:+ print m.2) <$> m :: members) "," +:+ String "}" rest = String c r /\
    json_space c = false /\ code c <> 93 /\ code c <> 125) as (c & r & E & Hc & _ & H125).
  { destruct members as [|m' members]; cbn [fmap list_fmap Join]; rewrite !str_app_assoc; apply starts_app, (print_starts (TString m.1)). }
  pose proof (reads_members (d + 1) (m :: members) rest f ltac:(done) Hall) as He. cbv zeta in He. rewrite E in He, Hf |- *.
  cbn [skip_space]. rewrite Hc. cbv beta iota. rewrite (proj2 (Z.eqb_neq _ _)) by done.
  rewrite He by (unfold value_bound; cbn [String.length] in *; lia). reflexivity.
Qed.

Lemma print_reads t d : 0 <= d -> d + Z.of_nat (nesting t) <= max_nesting_depth -> reads d (print t) (denote t).
Proof.
  revert d. induction t as [s|z|b| |items IH|members IH] using jtext_all; intros d Hd Hn.
  - intros rest f _ Hf. destruct f as [|f]; [unfold value_bound in Hf; lia|]. apply parse_marshal_string.
  - apply reads_Itoa.
  - intros rest f _ Hf. destruct f as [|f]; [unfold value_bound in Hf; lia|]. by destruct b, rest.
  - intros rest f _ Hf. destruct f as [|f]; [unfold value_bound in Hf; lia|]. by destruct rest.
  - cbn [nesting] in Hn. apply reads_array; [lia|]. apply Forall_forall. intros t Ht.
    rewrite Forall_forall in IH. apply IH; [done|lia|].
    assert (Forall (fun k => (k <= list_max (List.map nesting items))%nat) (List.map nesting items)) as Hall by (by apply list_max_le).
    rewrite Forall_forall in Hall. specialize (Hall (nesting t)). cut (nesting t <= list_max (List.map nesting items))%nat; [lia|].
    apply Hall. apply list_elem_of_In. by apply List.in_map, list_elem_of_In.
  - cbn [nesting] in Hn. apply reads_object; [lia|]. apply Forall_forall. intros m Hm.
    rewrite Forall_forall in IH. apply IH; [done|lia|].
    assert (Forall (fun k => (k <= list_max (List.map (fun m => nesting m.2) members))%nat) (List.map (fun m => nesting m.2) members))
      as Hall by (by apply list_max_le).
    rewrite Forall_forall in Hall. specialize (Hall (nesting m.2)).
    cut (nesting m.2 <= list_max (List.map (fun m => nesting m.2) members))%nat; [lia|].
    apply Hall. apply list_elem_of_In. by apply (List.in_map (fun m => nesting m.2)), list_elem_of_In.
Qed.

(** Reading a document that the encoder wrote, with or without the newline at
    its end. *)
Lemma parse_print t : Z.of_nat (nesting t) <= max_nesting_depth ->
  parse_json (print t) = Some (denote t) /\ parse_json (print t +:+ String (byte 10) "") = Some (denote t).
Proof.
  intros Hn. assert (reads 0 (print t) (denote t)) as Hr by (apply print_reads; lia).
  split; apply parse_json_complete.
  - exists (value_bound (String.length (print t +:+ ""))), "". split; [|done]. rewrite <- (str_app_nil (print t)) at 2. by apply Hr.
  - exists (value_bound (String.length (print t +:+ String (byte 10) ""))), (String (byte 10) ""). split; [|done]. by apply Hr.
Qed.
