(* ===== verification/GoTime.v ===== *)
(** Go's time.Time and time.Duration as the components use them.

    An instant is the number of nanoseconds since the zero time (January 1,
    year 1, UTC), so that the zero value is 0.  A [time.Duration] is an int64
    of nanoseconds; [Time.Sub] saturates. *)
From stdpp Require Import base list strings.
From Stdlib Require Import Ascii ZArith Lia.
From S2P Require Import Prelude GoStrings.

Definition Time := Z.
Definition Duration := Z.

Definition IsZero (t : Time) : bool := t =? 0.
Definition After (t u : Time) : bool := u <? t.
Definition Before (t u : Time) : bool := t <? u.
Definition Add (t : Time) (d : Duration) : Time := t + d.

(** [Time.Sub]: the difference, saturated to the range of a Duration. *)
Definition Sub (t u : Time) : Duration := Z.max int64_min (Z.min int64_max (t - u)).

Definition Nanosecond : Duration := 1.
Definition Millisecond : Duration := 1000000.
Definition Second : Duration := 1000000000.
Definition Minute : Duration := 60 * Second.
Definition Hour : Duration := 60 * Minute.

Lemma Sub_exact t u : int64_min <= t - u <= int64_max -> Sub t u = t - u.
Proof. unfold Sub. lia. Qed.

Lemma Sub_gt t u d : int64_min <= d < int64_max -> d < Sub t u <-> d < t - u.
Proof. unfold Sub. lia. Qed.

(** ** Formatting, for times in UTC *)

(** Year, month and day of a number of days since January 1, year 1
    (proleptic Gregorian calendar); years are counted from March. *)
Definition civil (days : Z) : Z * Z * Z :=
  let z := days + 306 in
  let era := z / 146097 in
  let doe := z mod 146097 in
  let yoe := (doe - doe / 1460 + doe / 36524 - doe / 146096) / 365 in
  let doy := doe - (365 * yoe + yoe / 4 - yoe / 100) in
  let mp := (5 * doy + 2) / 153 in
  let d := doy - (153 * mp + 2) / 5 + 1 in
  let m := if mp <? 10 then mp + 3 else mp - 9 in
  ((yoe + era * 400) + (if m <=? 2 then 1 else 0), m, d).

(** [n >= 0] in decimal with at least [width] digits. *)
Definition padded (width : nat) (n : Z) : string :=
  let s := itoa_nonneg n in
  String.concat "" (replicate (width - String.length s) "0") +:+ s.

Fixpoint trim_zeros (fuel : nat) (s : string) : string :=
  match fuel with
  | O => s
  | S fuel' => if HasSuffix s "0" then trim_zeros fuel' (TrimSuffix s "0") else s
  end.

(** The fraction ".999...": [digits] digits of the second, trailing zeros and
    a lone point left out. *)
Definition fraction (digits : nat) (nanos : Z) : string :=
  let shown := trim_zeros digits (str_take digits (padded 9 nanos)) in
  if bool_decide (shown = "") then "" else "." +:+ shown.

(** "2006-01-02T15:04:05", the fraction, and "Z" for UTC. *)
Definition format_time (digits : nat) (t : Time) : string :=
  let seconds := t / Second in
  let nanos := t mod Second in
  let '(y, m, d) := civil (seconds / 86400) in
  let s := seconds mod 86400 in
  padded 4 y +:+ "-" +:+ padded 2 m +:+ "-" +:+ padded 2 d +:+ "T" +:+
  padded 2 (s / 3600) +:+ ":" +:+ padded 2 (s / 60 mod 60) +:+ ":" +:+ padded 2 (s mod 60) +:+
  fraction digits nanos +:+ "Z".

(** [t.UTC().Format(time.RFC3339Nano)] *)
Definition RFC3339Nano : Time -> string := format_time 9.

(** [Truncate(time.Microsecond)] *)
Definition truncate_micro (t : Time) : Time := t - t mod 1000.

Lemma truncate_micro_le t : truncate_micro t <= t.
Proof. unfold truncate_micro. pose proof (Z.mod_pos_bound t 1000 ltac:(lia)). lia. Qed.

Lemma truncate_micro_mono t u : t <= u -> truncate_micro t <= truncate_micro u.
Proof.
  intros H. unfold truncate_micro.
  pose proof (Z.div_mod t 1000 ltac:(lia)). pose proof (Z.div_mod u 1000 ltac:(lia)).
  pose proof (Z.div_le_mono t u 1000 ltac:(lia) H). lia.
Qed.

Example format_unix_epoch :
  RFC3339Nano (719162 * 86400 * Second) = "1970-01-01T00:00:00Z" /\
  RFC3339Nano ((719162 + 11016) * 86400 * Second + 3661 * Second + 120000000) = "2000-02-29T01:01:01.12Z".
Proof. split; vm_compute; reflexivity. Qed.
