(* ===== verification/Urls.v ===== *)
(** The parts of Go's net/url and path the server uses on paths of its own
    origin: escaping, parsing an absolute path, path.Clean, query strings. *)
From stdpp Require Import base list option strings gmap.
From Stdlib Require Import Ascii ZArith Lia.
From S2P Require Import Prelude GoStrings Collections.
Open Scope Z_scope.

(** ** Escaping *)

Inductive url_mode := encodePath | encodeQueryComponent | encodeFragment.

Definition letter_or_digit (c : ascii) : bool :=
  isDigit c || ((65 <=? code c) && (code c <=? 90)) || ((97 <=? code c) && (code c <=? 122)).

Definition among (c : ascii) (s : string) : bool := bool_decide (c ∈ bytes s).

Definition shouldEscape (mode : url_mode) (c : ascii) : bool :=
  if letter_or_digit c then false
  else if among c "-_.~" then false
  else if among c "$&+,/:;=?@" then
    match mode with
    | encodePath => bool_decide (c = "?"%char)
    | encodeQueryComponent => true
    | encodeFragment => false
    end
  else match mode with encodeFragment => negb (among c "!()*") | _ => true end.

Definition upper_hex (n : Z) : ascii := byte (if n <? 10 then 48 + n else 55 + n).

(** [None] if the byte is not a hexadecimal digit. *)
Definition unhex (c : ascii) : option Z :=
  if isDigit c then Some (code c - 48)
  else if (65 <=? code c) && (code c <=? 70) then Some (code c - 55)
  else if (97 <=? code c) && (code c <=? 102) then Some (code c - 87)
  else None.

Definition escape_byte (mode : url_mode) (c : ascii) : string :=
  if shouldEscape mode c then
    match mode with
    | encodeQueryComponent =>
        if bool_decide (c = " "%char) then "+"
        else String "%" (String (upper_hex (code c / 16)) (String (upper_hex (code c mod 16)) ""))
    | _ => String "%" (String (upper_hex (code c / 16)) (String (upper_hex (code c mod 16)) ""))
    end
  else String c "".

Fixpoint escape (mode : url_mode) (s : string) : string :=
  match s with
  | EmptyString => EmptyString
  | String c s => escape_byte mode c +:+ escape mode s
  end.

Definition plus_space (mode : url_mode) (c : ascii) : ascii :=
  match mode with encodeQueryComponent => if bool_decide (c = "+"%char) then " "%char else c | _ => c end.

(** [None] is an error: a percent sign without two digits. *)
Fixpoint unescape (mode : url_mode) (s : string) : option string :=
  match s with
  | EmptyString => Some EmptyString
  | String c s1 =>
      if bool_decide (c = "%"%char) then
        match s1 with
        | String h (String l s2) => a ← unhex h; b ← unhex l; t ← unescape mode s2; Some (String (byte (16 * a + b)) t)
        | _ => None
        end
      else t ← unescape mode s1; Some (String (plus_space mode c) t)
  end.

(** ** Parsing *)

Definition control_byte (c : ascii) : bool := (code c <? 32) || (code c =? 127).

(** url.Parse of a text with one leading slash: it has neither scheme nor host;
    the decoded path and the raw query. *)
Definition parse_absolute (raw : string) : option (string * string) :=
  let '(u, fragment) := cut raw "#"%char in
  if existsb control_byte (bytes u) then None
  else
    match unescape encodeFragment (default "" fragment) with
    | None => None
    | Some _ =>
        let '(rest, query) := cut u "?"%char in
        path ← unescape encodePath rest; Some (path, default "" query)
    end.

(** url.URL.String of a path and a query alone. *)
Definition url_string (path query : string) : string :=
  escape encodePath path +:+ (if bool_decide (query = "") then "" else String "?" query).

(** ** path.Clean of a rooted path *)

(** The elements so far, in reverse. *)
Definition clean_step (stack : list string) (element : string) : list string :=
  if bool_decide (element = "") || bool_decide (element = ".") then stack
  else if bool_decide (element = "..") then tail stack
  else element :: stack.

Definition clean_elements (p : string) : list string := reverse (fold_left clean_step (Split p "/"%char) []).

(** path.Clean("/" + p) *)
Definition clean_rooted (p : string) : string := "/" +:+ Join (clean_elements p) "/".

(** ** Query strings *)

(** url.Values *)
Notation query_values := (gmap string (list string)).

Definition query_add (m : query_values) (k v : string) : query_values := <[k := default [] (m !! k) ++ [v]]> m.

(** A field of the query; one that cannot be read is dropped. *)
Definition query_field (m : query_values) (field : string) : query_values :=
  if among ";" field then m
  else if bool_decide (field = "") then m
  else
    let '(k, v) := cut field "="%char in
    match unescape encodeQueryComponent k, unescape encodeQueryComponent (default "" v) with
    | Some k, Some v => query_add m k v
    | _, _ => m
    end.

Definition ParseQuery (query : string) : query_values := fold_left query_field (Split query "&"%char) ∅.

Definition query_get (k : string) (m : query_values) : string := default "" (head (default [] (m !! k))).

Definition query_pairs (m : query_values) : list (string * string) :=
  sorted_set str_cmp (dom m) ≫= fun k => (fun v => (k, v)) <$> default [] (m !! k).

Definition encode_pair (p : string * string) : string :=
  escape encodeQueryComponent p.1 +:+ "=" +:+ escape encodeQueryComponent p.2.

(** url.Values.Encode *)
Definition query_encode (m : query_values) : string := Join (encode_pair <$> query_pairs m) "&".

(** ** Escaping and reading back *)

(** The bytes an escaped query component consists of. *)
Definition component_byte (c : ascii) : bool := letter_or_digit c || among c "-_.~%+".

(** The bytes an escaped path consists of. *)
Definition path_byte (c : ascii) : bool := letter_or_digit c || among c "-_.~%$&+,/:;=@".

Lemma escape_byte_facts c :
  all_bytes component_byte (escape_byte encodeQueryComponent c) = true /\ all_bytes path_byte (escape_byte encodePath c) = true.
Proof. destruct c as [[] [] [] [] [] [] [] []]; vm_compute; done. Qed.

Lemma escape_component s : all_bytes component_byte (escape encodeQueryComponent s) = true.
Proof. induction s as [|c s IH]; [done|]. cbn [escape]. by rewrite all_bytes_app, IH, (proj1 (escape_byte_facts c)). Qed.

Lemma escape_path s : all_bytes path_byte (escape encodePath s) = true.
Proof. induction s as [|c s IH]; [done|]. cbn [escape]. by rewrite all_bytes_app, IH, (proj2 (escape_byte_facts c)). Qed.

Lemma escape_app mode s t : escape mode (s +:+ t) = escape mode s +:+ escape mode t.
Proof.
  induction s as [|c s IH]; [done|]. change (String c s +:+ t) with (String c (s +:+ t)). cbn [escape]. by rewrite IH, str_app_assoc.
Qed.

Lemma unescape_byte mode c t : mode <> encodeFragment -> unescape mode (escape_byte mode c +:+ t) = String c <$> unescape mode t.
Proof.
  intros Hm. destruct mode; [| |done]; destruct c as [[] [] [] [] [] [] [] []];
    (match goal with |- unescape _ (?e +:+ t) = _ => let v := eval vm_compute in e in
       let w := eval lazy beta iota delta [String.append] in (v +:+ t) in change (e +:+ t) with w end);
    cbn; destruct (unescape _ t); reflexivity.
Qed.

Lemma unescape_escape mode s : mode <> encodeFragment -> unescape mode (escape mode s) = Some s.
Proof. intros Hm. induction s as [|c s IH]; [done|]. cbn [escape]. by rewrite unescape_byte, IH. Qed.

(** ** Cutting *)

Lemma cut_none s c : all_bytes (not_byte c) s = true -> cut s c = (s, None).
Proof. intros H. unfold cut. by rewrite IndexByte_none. Qed.

Lemma cut_app s c t : all_bytes (not_byte c) s = true -> cut (s +:+ String c t) c = (s, Some t).
Proof.
  intros H. unfold cut. rewrite IndexByte_app by done. rewrite str_take_app. do 2 f_equal.
  apply (str_drop_app s (String c t) 1).
Qed.

(** ** Elements of a clean path *)

Definition element_ok (e : string) : Prop := e <> "" /\ e <> "." /\ e <> ".." /\ all_bytes (not_byte "/") e = true.

Lemma Split_elements s sep : Forall (fun e => all_bytes (not_byte sep) e = true) (Split s sep).
Proof.
  induction s as [|c s IH]; [by repeat constructor|]. cbn. case_bool_decide as Hc; [by constructor|].
  assert (not_byte sep c = true) as Hn by (unfold not_byte; by rewrite bool_decide_false).
  destruct IH as [|x xs Hx Hxs]; constructor; try done; rewrite all_bytes_cons, Hn; done.
Qed.

Lemma clean_step_ok stack e : Forall element_ok stack -> all_bytes (not_byte "/") e = true -> Forall element_ok (clean_step stack e).
Proof.
  intros Hs He. unfold clean_step. destruct (bool_decide_reflect (e = "")); [done|]. destruct (bool_decide_reflect (e = ".")); [done|].
  cbn. case_bool_decide; [|by constructor]. destruct stack; [done|]. by inversion Hs.
Qed.

Lemma clean_elements_ok p : Forall element_ok (clean_elements p).
Proof.
  unfold clean_elements. apply Forall_reverse. pose proof (Split_elements p "/") as H. revert H.
  assert (Forall element_ok []) as Hs by constructor. revert Hs. generalize (@nil string) as stack.
  induction (Split p "/") as [|e l IH]; intros stack Hs H; [done|]. inversion H; subst. cbn. apply IH; [by apply clean_step_ok|done].
Qed.

Lemma clean_fold_ok stack l : Forall element_ok l -> fold_left clean_step l stack = reverse l ++ stack.
Proof.
  intros H. revert stack. induction H as [|e l (H1 & H2 & H3 & _) Hl IH]; intros stack; [done|]. cbn [fold_left].
  rewrite IH. unfold clean_step. rewrite !bool_decide_false by done. by rewrite reverse_cons, <- app_assoc.
Qed.

(** Cleaning a clean path changes nothing. *)
Lemma clean_elements_join l : Forall element_ok l -> clean_elements (Join l "/") = l.
Proof.
  intros H. unfold clean_elements. destruct l as [|e l]; [done|].
  rewrite Split_Join; [|done|eapply Forall_impl; [done|by intros ? (_ & _ & _ & ?)]].
  rewrite clean_fold_ok, app_nil_r by done. apply reverse_involutive.
Qed.

Lemma TrimPrefix_slash x : TrimPrefix ("/" +:+ x) "/" = x.
Proof. by destruct x. Qed.

Lemma clean_rooted_idem p : clean_rooted (TrimPrefix (clean_rooted p) "/") = clean_rooted p.
Proof.
  unfold clean_rooted at 2. rewrite TrimPrefix_slash. unfold clean_rooted. by rewrite clean_elements_join by apply clean_elements_ok.
Qed.

(** ** Reading back a query *)

(** Every key has a value. *)
Definition query_full (m : query_values) : Prop := forall k vs, m !! k = Some vs -> vs <> [].

Lemma query_add_full m k v : query_full m -> query_full (query_add m k v).
Proof.
  intros H k' vs. unfold query_add. destruct (decide (k' = k)) as [->|]; [rewrite lookup_insert_eq|rewrite lookup_insert_ne by done; apply H].
  intros [= <-]. by destruct (default [] (m !! k)).
Qed.

Lemma ParseQuery_full query : query_full (ParseQuery query).
Proof.
  unfold ParseQuery. assert (query_full ∅) as H0 by (intros k vs Hk; by rewrite lookup_empty in Hk). revert H0. generalize (∅ : query_values) as m.
  induction (Split query "&") as [|field l IH]; intros m Hm; [done|]. cbn [fold_left]. apply IH. unfold query_field.
  destruct (among ";" field); [done|]. case_bool_decide; [done|]. destruct (cut field "=") as [k v].
  destruct (unescape encodeQueryComponent k), (unescape encodeQueryComponent (default "" v)); try done. by apply query_add_full.
Qed.

Lemma component_bytes_not s (b : ascii) : component_byte b = false -> all_bytes (not_byte b) (escape encodeQueryComponent s) = true.
Proof.
  intros Hb. eapply all_bytes_impl; [|apply escape_component]. intros c Hc. unfold not_byte. case_bool_decide; [|done]. subst. congruence.
Qed.

Lemma among_not c s : all_bytes (not_byte c) s = true -> among c s = false.
Proof.
  intros H. apply bool_decide_false. intros Hc. pose proof (all_bytes_elem _ _ _ H Hc) as Hn. unfold not_byte in Hn. by rewrite bool_decide_true in Hn.
Qed.

Lemma encode_pair_not p (b : ascii) : component_byte b = false -> b <> "="%char -> all_bytes (not_byte b) (encode_pair p) = true.
Proof.
  intros Hb Hne. unfold encode_pair. rewrite !all_bytes_app, !component_bytes_not by done.
  cbn. unfold not_byte. by rewrite bool_decide_false.
Qed.

Lemma query_field_pair m p : query_field m (encode_pair p) = query_add m p.1 p.2.
Proof.
  unfold query_field. rewrite among_not by (by apply encode_pair_not). rewrite bool_decide_false.
  - unfold encode_pair. change ("=" +:+ escape encodeQueryComponent p.2) with (String "=" (escape encodeQueryComponent p.2)).
    rewrite cut_app by (by apply component_bytes_not). cbn [default from_option id]. rewrite !unescape_escape by done. done.
  - unfold encode_pair. intros H%(f_equal String.length). rewrite !str_len_app in H. cbn in H. lia.
Qed.

Lemma ParseQuery_pairs l : ParseQuery (Join (encode_pair <$> l) "&") = fold_left (fun m p => query_add m p.1 p.2) l ∅.
Proof.
  unfold ParseQuery. destruct l as [|p l]; [done|]. rewrite Split_Join; [|done|].
  - generalize (∅ : query_values) as m. generalize (p :: l) as l'. induction l' as [|q l' IH]; intros m; [done|]. cbn. by rewrite query_field_pair, IH.
  - apply Forall_fmap, Forall_true. intros q. by apply encode_pair_not.
Qed.

Lemma fold_add_lookup l m k :
  fold_left (fun m p => query_add m p.1 p.2) l m !! k =
  match (filter (fun p => p.1 = k) l).*2 with [] => m !! k | vs => Some (default [] (m !! k) ++ vs) end.
Proof.
  revert m. induction l as [|[k' v] l IH]; intros m; [done|]. cbn [fold_left fst snd]. rewrite IH. unfold query_add.
  destruct (decide (k' = k)) as [->|Hne].
  - rewrite filter_cons_True by done. rewrite lookup_insert_eq. cbn. destruct (filter _ l).*2; [done|]. by rewrite <- app_assoc.
  - rewrite filter_cons_False by done. by rewrite lookup_insert_ne.
Qed.

Lemma query_pairs_filter m k : (filter (fun p => p.1 = k) (query_pairs m)).*2 = default [] (m !! k).
Proof.
  unfold query_pairs. assert (forall ks, NoDup ks -> (filter (fun p => p.1 = k) (ks ≫= fun k' => (fun v => (k', v)) <$> default [] (m !! k'))).*2 =
    if bool_decide (k ∈ ks) then default [] (m !! k) else []) as Hks.
  { induction ks as [|k' ks IH]; intros Hnd; [done|]. apply NoDup_cons in Hnd as [Hn Hnd]. cbn [mbind list_bind]. rewrite filter_app, fmap_app, IH by done.
    destruct (decide (k' = k)) as [->|Hne].
    - rewrite (bool_decide_false (k ∈ ks)), bool_decide_true, app_nil_r by set_solver. rewrite filter_all.
      + rewrite <- list_fmap_compose. apply list_fmap_id.
      + by intros ? (v & -> & _)%list_elem_of_fmap.
    - rewrite filter_none by (by intros ? (v & -> & _)%list_elem_of_fmap). cbn. by repeat case_bool_decide; set_solver. }
  rewrite Hks by apply sorted_set_NoDup. case_bool_decide as Hin; [done|].
  rewrite sorted_set_elem, elem_of_dom in Hin. destruct (m !! k) eqn:E; [|done]. exfalso. by apply Hin.
Qed.

(** Reading a written query gives the values back. *)
Lemma ParseQuery_encode m : query_full m -> ParseQuery (query_encode m) = m.
Proof.
  intros Hm. unfold query_encode. rewrite ParseQuery_pairs. apply map_eq. intros k. rewrite fold_add_lookup, query_pairs_filter, lookup_empty.
  destruct (m !! k) as [[|v vs]|] eqn:E; [by apply Hm in E|done|done].
Qed.
