(* ===== verification/AdminReturn.v ===== *)
(** Return targets of the admin pages: internal/auth/admin_return.go. *)
From stdpp Require Import base list option strings gmap.
From Stdlib Require Import Ascii ZArith Lia.
From S2P Require Import Prelude GoStrings Collections Urls.

Definition AdminLoginPath : string := "/admin/login".

Definition isSafeAdminReturnPath (pathValue : string) : bool :=
  if bool_decide (pathValue = AdminLoginPath) then false
  else bool_decide (pathValue = "/admin") || HasPrefix pathValue "/admin/".

(** The empty text is a rejected target. *)
Definition SafeAdminReturnTarget (raw : string) : string :=
  let raw := TrimSpace raw in
  if bool_decide (raw = "") || negb (HasPrefix raw "/") || HasPrefix raw "//" then ""
  else
    match parse_absolute raw with
    | None => ""
    | Some (path, rawQuery) =>
        let cleanPath := clean_rooted (TrimPrefix path "/") in
        if negb (isSafeAdminReturnPath cleanPath) then ""
        else
          let query := ParseQuery rawQuery in
          let query := if bool_decide (cleanPath = "/admin/feeds") && negb (bool_decide (query_get "partial" query = ""))
                       then delete "partial" query else query in
          url_string cleanPath (query_encode query)
    end.

Definition safeSameOriginPath (raw : string) : string :=
  let raw := TrimSpace raw in
  if bool_decide (raw = "") || negb (HasPrefix raw "/") || HasPrefix raw "//" then ""
  else
    match parse_absolute raw with
    | None => ""
    | Some (path, rawQuery) =>
        let cleanPath := clean_rooted (TrimPrefix path "/") in
        let cleanPath := if HasSuffix path "/" && negb (bool_decide (cleanPath = "/")) then cleanPath +:+ "/" else cleanPath in
        url_string cleanPath rawQuery
    end.

Definition SafeSameOriginRedirectTarget (raw fallback : string) : string :=
  let target := safeSameOriginPath raw in
  if bool_decide (target = "")
  then let target := safeSameOriginPath fallback in if bool_decide (target = "") then "/" else target
  else target.

Definition AdminLoginURL (target : string) : string :=
  let target := SafeAdminReturnTarget target in
  if bool_decide (target = "") then AdminLoginPath
  else AdminLoginPath +:+ "?" +:+ query_encode {["next" := [target]]}.

(** The login page for a request that needs an admin session; the method and
    the request URI, [None] for a request without a URL. *)
Definition AdminLoginRedirectTarget (request : option (string * string)) : string :=
  match request with
  | None => AdminLoginPath
  | Some (method, uri) =>
      if negb (bool_decide (method = "GET")) && negb (bool_decide (method = "HEAD")) then AdminLoginPath
      else AdminLoginURL (SafeAdminReturnTarget uri)
  end.

(** The target of RedirectSameOrigin. *)
Definition RedirectSameOrigin (target : string) : string := SafeSameOriginRedirectTarget target "/".

Example return_samples :
  SafeAdminReturnTarget " /admin/keys?b=2&a=1&a=%2Fx " = "/admin/keys?a=1&a=%2Fx&b=2" /\
  SafeAdminReturnTarget "/admin/../x" = "" /\ SafeAdminReturnTarget "//evil/admin" = "" /\
  SafeAdminReturnTarget "/admin/feeds?partial=1&q=a" = "/admin/feeds?q=a" /\
  SafeSameOriginRedirectTarget "/\evil.com/a%09b/./c/" "/" = "/%5Cevil.com/a%09b/c/" /\
  SafeSameOriginRedirectTarget "https://evil.com" "/" = "/" /\
  AdminLoginURL "/admin/keys?a=1" = "/admin/login?next=%2Fadmin%2Fkeys%3Fa%3D1".
Proof. by vm_compute. Qed.

(** ** Targets stay on the server *)

(** An absolute path of visible bytes without backslash, which is not
    protocol-relative, and perhaps a query. *)
Definition origin_local (target : string) : Prop :=
  exists p q, target = "/" +:+ p +:+ q /\ all_bytes path_byte p = true /\ HasPrefix p "/" = false /\ (q = "" \/ HasPrefix q "?" = true).

Lemma escape_byte_head c t : c <> "/"%char -> HasPrefix (escape_byte encodePath c +:+ t) "/" = false.
Proof. intros Hc. destruct c as [[] [] [] [] [] [] [] []]; vm_compute; done. Qed.

Lemma escape_slash s : escape encodePath ("/" +:+ s) = "/" +:+ escape encodePath s.
Proof. by rewrite escape_app. Qed.

Lemma escape_element e s : element_ok e -> HasPrefix (escape encodePath (e +:+ s)) "/" = false.
Proof.
  intros (Hne & _ & _ & Hs). destruct e as [|c e]; [done|]. rewrite all_bytes_cons, andb_true_iff in Hs. destruct Hs as [Hc _].
  unfold not_byte in Hc. change (String c e +:+ s) with (String c (e +:+ s)). cbn [escape]. apply escape_byte_head. by case_bool_decide.
Qed.

Lemma Join_head e l : exists s, Join (e :: l) "/" = e +:+ s.
Proof. destruct l as [|x l]; [exists ""; by rewrite str_app_nil|]. by eexists. Qed.

(** A clean path, with or without a slash at its end. *)
Lemma clean_local p query (slash : bool) :
  origin_local (url_string (if slash && negb (bool_decide (clean_rooted p = "/")) then clean_rooted p +:+ "/" else clean_rooted p) query).
Proof.
  pose proof (clean_elements_ok p) as Hok. unfold url_string. set (q := if bool_decide (query = "") then "" else String "?" query).
  assert (q = "" \/ HasPrefix q "?" = true) as Hq by (unfold q; case_bool_decide; [by left|right; by destruct query]).
  unfold clean_rooted. destruct (clean_elements p) as [|e l].
  - exists "", q. rewrite (bool_decide_true ("/" +:+ Join [] "/" = "/")) by done. rewrite andb_false_r. done.
  - inversion Hok as [|? ? He _]; subst. destruct (Join_head e l) as [s Hs]. rewrite Hs.
    destruct (slash && _).
    + exists (escape encodePath (e +:+ (s +:+ "/"))), q. rewrite !str_app_assoc, escape_slash, !str_app_assoc.
      split; [done|]. split; [apply escape_path|]. split; [by apply escape_element|done].
    + exists (escape encodePath (e +:+ s)), q. rewrite escape_slash, !str_app_assoc.
      split; [done|]. split; [apply escape_path|]. split; [by apply escape_element|done].
Qed.

Lemma safeSameOriginPath_local raw : safeSameOriginPath raw <> "" -> origin_local (safeSameOriginPath raw).
Proof.
  unfold safeSameOriginPath. destruct (_ || _ || _); [done|]. destruct (parse_absolute _) as [[path query]|]; [|done].
  intros _. apply clean_local.
Qed.

Lemma SafeSameOriginRedirectTarget_local raw fallback : origin_local (SafeSameOriginRedirectTarget raw fallback).
Proof.
  unfold SafeSameOriginRedirectTarget. case_bool_decide; [|by apply safeSameOriginPath_local].
  case_bool_decide; [|by apply safeSameOriginPath_local]. exists "", "". repeat split. by left.
Qed.

(** ** Targets are read back *)

Lemma path_byte_visible c : path_byte c = true -> visible c = true /\ control_byte c = false /\ c <> "#"%char /\ c <> "?"%char.
Proof. destruct c as [[] [] [] [] [] [] [] []]; vm_compute; done. Qed.

Lemma component_byte_visible c : component_byte c = true -> visible c = true /\ control_byte c = false /\ c <> "#"%char.
Proof. destruct c as [[] [] [] [] [] [] [] []]; vm_compute; done. Qed.

(** The bytes of a written query. *)
Definition query_byte (c : ascii) : bool := component_byte c || among c "=&".

Lemma query_byte_visible c : query_byte c = true -> visible c = true /\ control_byte c = false /\ c <> "#"%char.
Proof. destruct c as [[] [] [] [] [] [] [] []]; vm_compute; done. Qed.

Lemma query_encode_bytes m : all_bytes query_byte (query_encode m) = true.
Proof.
  unfold query_encode. apply all_bytes_Join; [|done]. apply Forall_fmap, Forall_true. intros p. cbn. unfold encode_pair.
  assert (forall s, all_bytes query_byte (escape encodeQueryComponent s) = true) as H.
  { intros s. eapply all_bytes_impl; [|apply escape_component]. intros c Hc. unfold query_byte. by rewrite Hc. }
  rewrite !all_bytes_app, !H. done.
Qed.

Lemma bytes_without (P : ascii -> bool) s b : (forall c, P c = true -> c <> b) -> all_bytes P s = true -> all_bytes (not_byte b) s = true.
Proof. intros H. apply all_bytes_impl. intros c Hc. unfold not_byte. by rewrite bool_decide_false by (by apply H). Qed.

(** What is written for a path and a query parses to them. *)
Lemma parse_url_string path m :
  parse_absolute (url_string path (query_encode m)) = Some (path, query_encode m) /\
  all_bytes visible (url_string path (query_encode m)) = true.
Proof.
  pose proof (escape_path path) as Hp. pose proof (query_encode_bytes m) as Hq. set (u := url_string path (query_encode m)).
  assert (all_bytes (fun c => visible c && negb (control_byte c) && negb (bool_decide (c = "#"%char))) u = true) as Hu.
  { unfold u, url_string. rewrite all_bytes_app, andb_true_iff. split.
    - eapply all_bytes_impl; [|exact Hp]. intros c (-> & -> & Hc & _)%path_byte_visible. by rewrite bool_decide_false.
    - case_bool_decide; [done|]. rewrite all_bytes_cons. cbn. eapply all_bytes_impl; [|exact Hq].
      intros c (-> & -> & Hc)%query_byte_visible. by rewrite bool_decide_false. }
  assert (all_bytes (not_byte "#") u = true) as Hhash.
  { eapply all_bytes_impl; [|exact Hu]. intros c. rewrite !andb_true_iff. by intros [_ ?]. }
  assert (all_bytes visible u = true) as Hv.
  { eapply all_bytes_impl; [|exact Hu]. intros c. rewrite !andb_true_iff. by intros [[? _] _]. }
  split; [|done]. unfold parse_absolute. rewrite (cut_none u) by done.
  replace (existsb control_byte (bytes u)) with false.
  2: { symmetry. apply not_true_is_false. rewrite existsb_exists. intros (c & Hc%list_elem_of_In & Hctl).
       pose proof (all_bytes_elem _ _ _ Hu Hc) as H. cbn beta in H. rewrite Hctl in H. by rewrite andb_false_r in H. }
  cbn [default from_option unescape].
  assert (all_bytes (not_byte "?") (escape encodePath path) = true) as Hmark.
  { eapply bytes_without; [|exact Hp]. by intros c (_ & _ & _ & ?)%path_byte_visible. }
  unfold u, url_string. case_bool_decide as Hempty.
  - rewrite str_app_nil, cut_none by done. rewrite unescape_escape by done. cbn. by rewrite Hempty.
  - rewrite cut_app by done. rewrite unescape_escape by done. done.
Qed.

Lemma query_delete_full m k : query_full m -> query_full (delete k m).
Proof. intros H k' vs [_ Hk]%lookup_delete_Some. by apply (H k'). Qed.

Lemma query_get_delete k (m : query_values) : query_get k (delete k m) = "".
Proof. unfold query_get. by rewrite lookup_delete_eq. Qed.

Lemma admin_path_prefix path : isSafeAdminReturnPath path = true -> exists s, path = "/admin" +:+ s.
Proof.
  unfold isSafeAdminReturnPath. case_bool_decide; [done|]. destruct (bool_decide_reflect (path = "/admin")) as [->|]; [by exists ""|].
  cbn [orb]. intros (s & ->)%HasPrefix_spec. by exists ("/" +:+ s).
Qed.

Lemma HasPrefix_false_app p s q : HasPrefix p s = false -> (String.length s <= String.length p)%nat -> HasPrefix (p +:+ q) s = false.
Proof.
  revert p. induction s as [|a s IH]; intros [|b p]; cbn; try done; try lia. intros H Hlen.
  change (String b p +:+ q) with (String b (p +:+ q)). cbn. destruct (bool_decide (a = b)); [|done]. cbn in *. apply IH; [done|lia].
Qed.

(** An accepted target is accepted again, and stays what it is. *)
Lemma SafeAdminReturnTarget_fixed path m :
  isSafeAdminReturnPath path = true -> clean_rooted (TrimPrefix path "/") = path -> query_full m ->
  (path = "/admin/feeds" -> query_get "partial" m = "") ->
  SafeAdminReturnTarget (url_string path (query_encode m)) = url_string path (query_encode m).
Proof.
  intros Hsafe Hclean Hfull Hpartial. destruct (parse_url_string path m) as [Hparse Hvis].
  unfold SafeAdminReturnTarget. rewrite TrimSpace_visible by done.
  destruct (admin_path_prefix path Hsafe) as [s Hs].
  assert (exists t, url_string path (query_encode m) = "/admin" +:+ t) as [t Ht].
  { unfold url_string. rewrite Hs, escape_app, str_app_assoc. by eexists. }
  assert (bool_decide (url_string path (query_encode m) = "") = false) as -> by (rewrite Ht; by apply bool_decide_false).
  assert (HasPrefix (url_string path (query_encode m)) "/" = true) as -> by (rewrite Ht; by apply (HasPrefix_app "/" ("admin" +:+ t))).
  assert (HasPrefix (url_string path (query_encode m)) "//" = false) as -> by (rewrite Ht; by apply HasPrefix_false_app; [|cbn; lia]).
  cbn [negb orb]. rewrite Hparse, Hclean, Hsafe. cbn [negb]. rewrite ParseQuery_encode by done.
  destruct (bool_decide_reflect (path = "/admin/feeds")) as [Hf|]; [|done]. rewrite (Hpartial Hf). done.
Qed.

(** The shape of a target. *)
Lemma SafeAdminReturnTarget_shape raw :
  SafeAdminReturnTarget raw = "" \/
  exists p m, SafeAdminReturnTarget raw = url_string (clean_rooted p) (query_encode m) /\
    isSafeAdminReturnPath (clean_rooted p) = true /\ query_full m /\ (clean_rooted p = "/admin/feeds" -> query_get "partial" m = "").
Proof.
  unfold SafeAdminReturnTarget. destruct (_ || _ || _); [by left|].
  destruct (parse_absolute (TrimSpace raw)) as [[path query]|]; [|by left].
  destruct (isSafeAdminReturnPath _) eqn:Hsafe; [|by left]. cbn [negb]. right.
  exists (TrimPrefix path "/"), (if bool_decide (clean_rooted (TrimPrefix path "/") = "/admin/feeds") &&
    negb (bool_decide (query_get "partial" (ParseQuery query) = "")) then delete "partial" (ParseQuery query) else ParseQuery query).
  split; [done|]. split; [done|]. split.
  - destruct (_ && _); [apply query_delete_full|]; apply ParseQuery_full.
  - intros Hf. rewrite bool_decide_true by done. cbn [andb].
    destruct (bool_decide_reflect (query_get "partial" (ParseQuery query) = "")) as [He|]; [done|apply query_get_delete].
Qed.

