(* ===== verification/NetAddr.v ===== *)
(** IP addresses and prefixes of Go's net/netip, and net.SplitHostPort. *)
From stdpp Require Import base list option strings.
From Stdlib Require Import Ascii ZArith Lia.
From S2P Require Import Prelude GoStrings GoNumbers Urls.
Open Scope Z_scope.

(** The bits of an address; only IPv6 addresses have zones. *)
Record Addr := mk_addr { addrV6 : bool; addrBits : Z; addrZone : string }.

Definition BitLen (a : Addr) : Z := if addrV6 a then 128 else 32.

(** parseIPv4Fields: [start] at the beginning of a field, [digLen] its digits so far. *)
Fixpoint ipv4_loop (s : string) (start : bool) (val digLen : Z) (fields : list Z) : option (list Z) :=
  match s with
  | EmptyString => if (length fields <? 3)%nat then None else Some (fields ++ [val])
  | String c rest =>
      if isDigit c then
        if (digLen =? 1) && (val =? 0) then None
        else let val := val * 10 + (code c - 48) in if 255 <? val then None else ipv4_loop rest false val (digLen + 1) fields
      else if bool_decide (c = "."%char) then
        if start || bool_decide (rest = "") then None
        else if (length fields =? 3)%nat then None
        else ipv4_loop rest true 0 0 (fields ++ [val])
      else None
  end.

Definition parseIPv4Fields (s : string) : option (list Z) := ipv4_loop s true 0 0 [].

Definition of_digits (base : Z) (l : list Z) : Z := fold_left (fun acc d => acc * base + d) l 0.

Definition parseIPv4 (s : string) : option Addr := fields ← parseIPv4Fields s; Some (mk_addr false (of_digits 256 fields) "").

(** A group of at most four hexadecimal digits: its value, whether it has any,
    and the rest. *)
Fixpoint hex_group (s : string) (off : nat) (acc : Z) : option (Z * nat * string) :=
  match s with
  | String c rest =>
      match unhex c with
      | Some d => if (3 <? off)%nat then None else hex_group rest (S off) (acc * 16 + d)
      | None => Some (acc, off, s)
      end
  | EmptyString => Some (acc, off, s)
  end.

(** The loop of parseIPv6: the 16-bit groups so far, and where the ellipsis was. *)
Fixpoint ipv6_loop (fuel : nat) (s : string) (ip : list Z) (ellipsis : option nat) : option (list Z * option nat * string) :=
  match fuel with
  | O => Some (ip, ellipsis, s)
  | S fuel =>
      '(acc, off, rest) ← hex_group s 0 0;
      if (off =? 0)%nat then None
      else if HasPrefix rest "." then
        if negb (bool_decide (is_Some ellipsis)) && negb (length ip =? 6)%nat then None
        else if (6 <? length ip)%nat then None
        else match parseIPv4Fields s with
             | Some [a; b; c; d] => Some (ip ++ [a * 256 + b; c * 256 + d], ellipsis, "")
             | _ => None
             end
      else
        let ip := ip ++ [acc] in
        match rest with
        | EmptyString => Some (ip, ellipsis, "")
        | String c s =>
            if negb (bool_decide (c = ":"%char)) || bool_decide (s = "") then None
            else if HasPrefix s ":" then
              if bool_decide (is_Some ellipsis) then None
              else if bool_decide (str_drop 1 s = "") then Some (ip, Some (length ip), "")
              else ipv6_loop fuel (str_drop 1 s) ip (Some (length ip))
            else ipv6_loop fuel s ip ellipsis
        end
  end.

Definition parseIPv6 (raw : string) : option Addr :=
  let '(s, zone) := cut raw "%"%char in
  if bool_decide (zone = Some "") then None
  else
    let zone := default "" zone in
    let leading := HasPrefix s "::" in
    let s := if leading then str_drop 2 s else s in
    if leading && bool_decide (s = "") then Some (mk_addr true 0 zone)
    else
      '(ip, ellipsis, rest) ← ipv6_loop 8 s [] (if leading then Some 0%nat else None);
      if negb (bool_decide (rest = "")) then None
      else match ellipsis with
           | None => if (length ip <? 8)%nat then None else Some (mk_addr true (of_digits 65536 ip) zone)
           | Some e =>
               if (length ip <? 8)%nat
               then Some (mk_addr true (of_digits 65536 (take e ip ++ replicate (8 - length ip) 0 ++ drop e ip)) zone)
               else None
           end.

(** The first of "." ":" "%" decides the kind. *)
Fixpoint addr_kind (s : string) : option ascii :=
  match s with
  | EmptyString => None
  | String c rest => if bool_decide (c = "."%char) || bool_decide (c = ":"%char) || bool_decide (c = "%"%char) then Some c else addr_kind rest
  end.

Definition ParseAddr (s : string) : option Addr :=
  match addr_kind s with
  | Some c => if bool_decide (c = "."%char) then parseIPv4 s else if bool_decide (c = ":"%char) then parseIPv6 s else None
  | None => None
  end.

(** ::ffff:a.b.c.d *)
Definition Is4In6 (a : Addr) : bool := addrV6 a && (Z.shiftr (addrBits a) 32 =? 65535).

Definition IsLoopback (a : Addr) : bool :=
  if addrV6 a && negb (Is4In6 a) then addrBits a =? 1 else Z.shiftr (addrBits a mod 2 ^ 32) 24 =? 127.

(** ** Prefixes *)

Record Prefix := mk_prefix { prefixAddr : Addr; prefixBits : Z }.

Definition ParsePrefix (s : string) : option Prefix :=
  i ← LastIndexByte s "/"%char;
  ip ← ParseAddr (str_take i s);
  if negb (bool_decide (addrZone ip = "")) then None
  else
    let bitsStr := str_drop (S i) s in
    let first := match bitsStr with String c _ => code c | EmptyString => 0 end in
    if (1 <? String.length bitsStr)%nat && ((first <? 49) || (57 <? first)) then None
    else
      bits ← Atoi bitsStr;
      if (bits <? 0) || (BitLen ip <? bits) then None else Some (mk_prefix ip bits).

Definition Masked (p : Prefix) : Prefix :=
  let n := BitLen (prefixAddr p) - prefixBits p in
  mk_prefix (mk_addr (addrV6 (prefixAddr p)) (Z.shiftl (Z.shiftr (addrBits (prefixAddr p)) n) n) "") (prefixBits p).

Definition PrefixFrom (a : Addr) (bits : Z) : Prefix := mk_prefix (mk_addr (addrV6 a) (addrBits a) "") bits.

(** Of valid prefixes. *)
Definition prefix_contains (p : Prefix) (a : Addr) : bool :=
  bool_decide (addrZone a = "") && bool_decide (addrV6 (prefixAddr p) = addrV6 a) &&
  (Z.shiftr (Z.lxor (addrBits a) (addrBits (prefixAddr p))) (BitLen a - prefixBits p) =? 0).

(** ** net.SplitHostPort of a text that is not bracketed *)

Definition split_host_port (s : string) : option (string * string) :=
  i ← LastIndexByte s ":"%char;
  let host := str_take i s in
  if bool_decide (is_Some (IndexByte host ":"%char)) || bool_decide (is_Some (IndexByte s "["%char)) ||
     bool_decide (is_Some (IndexByte s "]"%char)) then None
  else Some (host, str_drop (S i) s).

(** ** Containment *)

(** An address is in a prefix when the leading bits agree. *)
Lemma prefix_contains_spec p a : 0 <= prefixBits p <= BitLen a ->
  prefix_contains p a = true <->
  addrZone a = "" /\ addrV6 (prefixAddr p) = addrV6 a /\
  Z.shiftr (addrBits a) (BitLen a - prefixBits p) = Z.shiftr (addrBits (prefixAddr p)) (BitLen a - prefixBits p).
Proof.
  intros Hb. unfold prefix_contains. rewrite !andb_true_iff, !bool_decide_eq_true, Z.eqb_eq, Z.shiftr_lxor, Z.lxor_eq_0_iff. tauto.
Qed.

Lemma masked_contains p a : 0 <= prefixBits p <= BitLen (prefixAddr p) -> prefix_contains (Masked p) a = prefix_contains p a.
Proof.
  intros Hb. apply eq_true_iff_eq. destruct (decide (addrV6 (prefixAddr p) = addrV6 a)) as [Hv|Hv].
  - assert (BitLen (prefixAddr p) = BitLen a) as Hl by (unfold BitLen; by rewrite Hv).
    rewrite !prefix_contains_spec; [|cbn; lia..]. cbn [prefixAddr Masked addrV6 addrBits prefixBits]. rewrite Hl.
    rewrite Z.shiftr_shiftl_l, Z.sub_diag, Z.shiftl_0_r by lia. done.
  - unfold prefix_contains, Masked. cbn. rewrite (bool_decide_false (addrV6 (prefixAddr p) = addrV6 a)) by done. by rewrite !andb_false_r.
Qed.

(** An address is in its own prefix of full length, and only it. *)
Lemma own_prefix a b : addrZone b = "" -> 0 <= addrBits a -> 0 <= addrBits b ->
  prefix_contains (PrefixFrom a (BitLen a)) b = true <-> addrV6 a = addrV6 b /\ addrBits a = addrBits b.
Proof.
  intros Hz Ha Hb. destruct (decide (addrV6 a = addrV6 b)) as [Hv|Hv].
  - assert (BitLen a = BitLen b) as Hl by (unfold BitLen; by rewrite Hv). rewrite prefix_contains_spec by (cbn; rewrite Hl; unfold BitLen; case_match; lia).
    cbn. rewrite Hl, Z.sub_diag, !Z.shiftr_0_r. naive_solver.
  - unfold prefix_contains. cbn. rewrite (bool_decide_false (addrV6 a = addrV6 b)) by done. rewrite andb_false_r. naive_solver.
Qed.

(** ** Examples *)

Example parse_v4 : ParseAddr "10.0.0.1" = Some (mk_addr false 167772161 "").
Proof. by vm_compute. Qed.

Example parse_v6 :
  ParseAddr "2001:db8::1" = Some (mk_addr true 42540766411282592856903984951653826561 "") /\
  ParseAddr "::ffff:127.0.0.1" = Some (mk_addr true 281472812449793 "") /\ ParseAddr "::" = Some (mk_addr true 0 "") /\
  ParseAddr "fe80::1%eth0" = Some (mk_addr true 338288524927261089654018896841347694593 "eth0") /\
  ParseAddr "1:2:3:4:5:6:7:8::" = None /\ ParseAddr "1:2:3:4:5:6:7::" = Some (mk_addr true 5192455318486707404433266433261568 "") /\
  ParseAddr "1::2::3" = None /\ ParseAddr "01.2.3.4" = None /\ ParseAddr "1.2.3.4.5" = None /\ ParseAddr "12345::" = None /\
  ParseAddr "[::1]" = None /\ ParseAddr "10.0.0.1:80" = None.
Proof. vm_compute. repeat split. Qed.

Example parse_prefix :
  Masked <$> ParsePrefix "10.1.2.3/8" = Some (mk_prefix (mk_addr false 167772160 "") 8) /\ ParsePrefix "10.0.0.0/033" = None /\
  ParsePrefix "10.0.0.0/33" = None /\ ParsePrefix "::1" = None.
Proof. vm_compute. repeat split. Qed.

Example loopbacks : IsLoopback <$> ParseAddr "127.8.9.1" = Some true /\ IsLoopback <$> ParseAddr "::1" = Some true /\
  IsLoopback <$> ParseAddr "::ffff:127.0.0.1" = Some true /\ IsLoopback <$> ParseAddr "128.0.0.1" = Some false.
Proof. vm_compute. repeat split. Qed.
