(* ===== verification/ClientAddr.v ===== *)
(** The address of a client behind trusted proxies: internal/netutil/trustedproxies.go,
    internal/server/middleware/clientip.go, and StripPort and ClientIP of
    internal/requestctx/requestctx.go. *)
From stdpp Require Import base list option strings.
From Stdlib Require Import Ascii ZArith Lia.
From S2P Require Import Prelude GoStrings NetAddr.
Open Scope Z_scope.

(** The port is what follows the only colon. *)
Definition StripPort (addr : string) : string :=
  match addr with
  | EmptyString => ""
  | String c rest =>
      if bool_decide (c = "["%char)
      then match IndexByte rest "]"%char with Some i => str_take i rest | None => addr end
      else
        match LastIndexByte addr ":"%char with
        | None => addr
        | Some lastColon => if bool_decide (is_Some (IndexByte (str_take lastColon addr) ":"%char)) then addr else str_take lastColon addr
        end
  end.

Definition TrustedProxySet : Type := list Prefix.

(** [None] is an error. *)
Fixpoint ParseTrustedProxies (values : list string) : option TrustedProxySet :=
  match values with
  | [] => Some []
  | raw :: values =>
      let value := TrimSpace raw in
      if bool_decide (value = "") then ParseTrustedProxies values
      else match ParsePrefix value with
           | Some prefix => cons (Masked prefix) <$> ParseTrustedProxies values
           | None =>
               match ParseAddr value with
               | Some addr => cons (PrefixFrom addr (BitLen addr)) <$> ParseTrustedProxies values
               | None => None
               end
           end
  end.

Definition set_contains (p : TrustedProxySet) (raw : string) : bool :=
  match ParseAddr (TrimSpace raw) with None => false | Some addr => existsb (fun prefix => prefix_contains prefix addr) p end.

Definition IsLoopbackHost {U : UnicodeCase} (hostport : string) : bool :=
  let host := TrimSpace hostport in
  if bool_decide (host = "") then false
  else
    let host :=
      if HasPrefix host "[" && bool_decide (is_Some (IndexByte host "]"%char))
      then match IndexByte host "]"%char with Some e => str_drop 1 (str_take e host) | None => host end
      else match split_host_port host with Some (parsed, _) => parsed | None => host end in
    let host := TrimSpace host in
    if EqualFold host "localhost" then true
    else match ParseAddr host with Some addr => IsLoopback addr | None => false end.

Definition validIP (raw : string) : bool := bool_decide (is_Some (ParseAddr (TrimSpace raw))).

(** The loop from the last part to the first. *)
Definition candidate (proxies : TrustedProxySet) (part : string) : option string :=
  let part := TrimSpace part in
  if negb (validIP part) then None else if set_contains proxies part then None else Some part.

Fixpoint first_candidate (proxies : TrustedProxySet) (parts : list string) : string :=
  match parts with
  | [] => ""
  | part :: parts => match candidate proxies part with Some ip => ip | None => first_candidate proxies parts end
  end.

Definition forwardedClientIP (raw : string) (proxies : TrustedProxySet) : string :=
  if bool_decide (TrimSpace raw = "") then "" else first_candidate proxies (reverse (Split raw ","%char)).

(** The peer and the lines of the headers; [Header.Get] reads the first line. *)
Record peer_request := mk_peer { RemoteAddr : string; xForwardedFor : list string; xRealIP : list string }.

Definition header_get (lines : list string) : string := default "" (head lines).

Definition clientIPWithTrustedProxyRules (r : peer_request) (proxies : TrustedProxySet) : string :=
  let remote := StripPort (RemoteAddr r) in
  if bool_decide (remote = "") || negb (set_contains proxies remote) then remote
  else
    let forwarded := forwardedClientIP (header_get (xForwardedFor r)) proxies in
    if negb (bool_decide (forwarded = "")) then forwarded
    else
      let realIP := TrimSpace (header_get (xRealIP r)) in
      if validIP realIP then realIP else remote.

(** TrustedClientIP: entries that cannot be read give no proxies; an empty
    address in the context falls back to the peer. *)
Definition ClientIP (trustedProxies : list string) (r : peer_request) : string :=
  let ip := clientIPWithTrustedProxyRules r (default [] (ParseTrustedProxies trustedProxies)) in
  if bool_decide (ip = "") then StripPort (RemoteAddr r) else ip.

(** ** Selection *)

Lemma candidate_trusted proxies part : set_contains proxies part = true -> candidate proxies part = None.
Proof.
  intros H. unfold candidate. destruct (negb _); [done|]. unfold set_contains in *. rewrite TrimSpace_idem. by rewrite H.
Qed.

Lemma candidate_client proxies part : is_Some (ParseAddr (TrimSpace part)) -> set_contains proxies part = false ->
  candidate proxies part = Some (TrimSpace part).
Proof.
  intros Hv Hn. unfold candidate, validIP. unfold set_contains in *. rewrite TrimSpace_idem, bool_decide_true by done. cbn. by rewrite Hn.
Qed.

Lemma first_candidate_skips proxies trusted parts : Forall (fun p => set_contains proxies p = true) trusted ->
  first_candidate proxies (trusted ++ parts) = first_candidate proxies parts.
Proof. induction 1 as [|p trusted Hp _ IH]; [done|]. cbn. by rewrite candidate_trusted. Qed.

Lemma ParseAddr_ne s : is_Some (ParseAddr s) -> s <> "".
Proof. by intros [a Ha] ->. Qed.

(** The text of a header line to which each hop appended its peer. *)
Definition append_hops (sent : option string) (hops : list string) : string :=
  Join (match sent with Some line => line :: hops | None => hops end) ",".

Lemma Split_concat line sep t : Split (line +:+ String sep t) sep = Split line sep ++ Split t sep.
Proof.
  induction line as [|c line IH].
  - change ("" +:+ String sep t) with (String sep t). cbn. by rewrite bool_decide_true.
  - change (String c line +:+ String sep t) with (String c (line +:+ String sep t)). cbn [Split]. case_bool_decide; [by rewrite IH|].
    rewrite IH. destruct (Split line sep) as [|x l] eqn:E; [by destruct (Split_ne line sep)|done].
Qed.

Lemma Split_hops line parts : parts <> [] -> Forall (fun p => all_bytes (not_byte ",") p = true) parts ->
  exists before, Split (append_hops line parts) ","%char = before ++ parts.
Proof.
  intros Hne Hp. assert (Split (Join parts ",") ","%char = parts) as Hj by (by apply Split_Join). unfold append_hops. destruct line as [line|].
  - exists (Split line ","%char). destruct parts as [|p parts]; [done|].
    change (Join (line :: p :: parts) ",") with (line +:+ String "," (Join (p :: parts) ",")). by rewrite Split_concat, Hj.
  - by exists [].
Qed.

(** ** Peers

    A request through a chain of proxies: each appends the address of its peer to
    the header line, the server sees the last one. *)

(** net.JoinHostPort *)
Definition host_port (a port : string) : string :=
  if bool_decide (is_Some (IndexByte a ":"%char)) then "[" +:+ a +:+ "]:" +:+ port else a +:+ ":" +:+ port.

Definition through (client : string) (chain : list string) (sent : option string) (realIP : list string) (port : string) : peer_request :=
  let path := client :: chain in
  mk_peer (host_port (default client (last chain)) port)
    (match chain with [] => option_list sent | _ => [append_hops sent (take (length chain) path)] end) realIP.

(** The text of an address. *)
Definition address_byte (c : ascii) : bool :=
  visible c && not_byte "," c && not_byte "[" c && not_byte "]" c.

Definition address_text (a : string) : Prop := is_Some (ParseAddr a) /\ all_bytes address_byte a = true.

Lemma address_facts a : address_text a -> a <> "" /\ TrimSpace a = a /\ all_bytes (not_byte ",") a = true /\
  all_bytes (not_byte "[") a = true /\ all_bytes (not_byte "]") a = true.
Proof.
  intros [Hp Hb]. split; [by apply ParseAddr_ne|]. unfold address_byte in Hb.
  split; [apply TrimSpace_visible|]. 2: split; [|split].
  all: apply (all_bytes_impl _ _ _) with (2 := Hb); intros c; rewrite !andb_true_iff; tauto.
Qed.

Lemma LastIndexByte_snoc s c t : all_bytes (not_byte c) t = true -> LastIndexByte (s +:+ String c t) c = Some (String.length s).
Proof. apply LastIndexByte_app. Qed.

Lemma StripPort_host a port : address_text a -> all_bytes isDigit port = true -> StripPort (host_port a port) = a.
Proof.
  intros (Hne & _ & _ & Hl & Hr)%address_facts Hport. assert (all_bytes (not_byte ":") port = true) as Hp.
  { apply (all_bytes_impl _ _ _) with (2 := Hport). intros c Hc. unfold not_byte. apply negb_true_iff, bool_decide_eq_false. by intros ->. }
  unfold host_port. case_bool_decide as Hc.
  - change ("[" +:+ a +:+ "]:" +:+ port) with (String "[" (a +:+ String "]" (":" +:+ port))). cbn [StripPort]. rewrite bool_decide_true by done.
    rewrite IndexByte_app by done. apply str_take_app.
  - assert (IndexByte a ":"%char = None) as Hn by (destruct (IndexByte a ":"); [by destruct Hc|done]).
    change (a +:+ ":" +:+ port) with (a +:+ String ":" port). unfold StripPort. rewrite LastIndexByte_snoc by done.
    rewrite str_take_app, Hn. destruct a as [|c a]; [done|]. change (String c a +:+ ?t) with (String c (a +:+ t)).
    cbv iota beta. rewrite (bool_decide_false (c = "["%char)); [|intros ->; discriminate Hl]. rewrite bool_decide_false by (by intros [? ?]). done.
Qed.

Lemma take_chain (client : string) chain p : last chain = Some p ->
  exists hops, take (length chain) (client :: chain) = client :: hops /\ chain = hops ++ [p].
Proof.
  intros Hl. destruct chain as [|q chain] using rev_ind; [done|]. rewrite last_snoc in Hl. injection Hl as ->. clear IHchain.
  exists chain. split; [|done]. rewrite length_app, Nat.add_comm. cbn. f_equal. by rewrite take_app_length.
Qed.

(** ** Blank texts *)

Definition invisible (c : ascii) : bool := negb (visible c).

Lemma trim_removes sp2 sp3 s :
  (forall a b, sp2 a b = true -> invisible a = true /\ invisible b = true) ->
  (forall a b c, sp3 a b c = true -> invisible a = true /\ invisible b = true /\ invisible c = true) ->
  exists p, s = p +:+ trim_with sp2 sp3 s /\ all_bytes invisible p = true.
Proof.
  intros H2 H3. assert (forall c, ascii_space c = true -> invisible c = true) as H1.
  { intros c. unfold ascii_space, invisible, visible. zbool; simpl in *; try done; lia. }
  induction s as [s IH] using str_len_ind. rewrite trim_with_step. destruct (trim_step sp2 sp3 s) as [t|] eqn:E; [|by exists ""].
  assert (exists p, s = p +:+ t /\ all_bytes invisible p = true /\ (String.length t < String.length s)%nat) as (p & -> & Hp & Hlt).
  { destruct s as [|a [|b [|c s]]]; cbn [trim_step] in E; [done|..];
      (destruct (ascii_space a) eqn:Ea; [injection E as <-; exists (String a ""); rewrite all_bytes_cons, H1 by done; simpl; auto|]); [done|..];
      (destruct (sp2 a b) eqn:Eb; [injection E as <-; apply H2 in Eb as [Ha Hb]; exists (String a (String b "")); rewrite !all_bytes_cons, Ha, Hb; simpl; auto|]);
      [done|].
    destruct (sp3 a b c) eqn:Ec; [|done]. injection E as <-. apply H3 in Ec as (Ha & Hb & Hc).
    exists (String a (String b (String c ""))). rewrite !all_bytes_cons, Ha, Hb, Hc.
    split; [done|]. split; [done|]. cbn [String.length]. lia. }
  destruct (IH t Hlt) as (q & Hq & Hqb). exists (p +:+ q). rewrite str_app_assoc, <- Hq, all_bytes_app, Hp. by split.
Qed.

Lemma space2_invisible a b : space2 a b = true -> invisible a = true /\ invisible b = true.
Proof. unfold space2, invisible, visible. rewrite andb_true_iff, orb_true_iff, !Z.eqb_eq. intros [-> [-> | ->]]; done. Qed.

Lemma space3_invisible a b c : space3 a b c = true -> invisible a = true /\ invisible b = true /\ invisible c = true.
Proof.
  intros H. destruct (visible a) eqn:Ea, (visible c) eqn:Ec; try (rewrite space3_visible in H by auto; done).
  unfold invisible. rewrite Ea, Ec. split; [done|]. split; [|done]. unfold space3 in H. apply negb_true_iff. unfold visible.
  repeat match type of H with _ || _ = true => apply orb_true_iff in H as [H|H] end; rewrite !andb_true_iff, !Z.eqb_eq in H;
    destruct H as [[_ Hb] _]; by rewrite Hb.
Qed.

(** What trims to nothing shows nothing. *)
Lemma TrimSpace_blank s : TrimSpace s = "" -> all_bytes invisible s = true.
Proof.
  intros H. destruct (trim_removes space2 space3 s space2_invisible space3_invisible) as (p & Hs & Hp).
  unfold TrimSpace, TrimRightSpace, TrimLeftSpace in H. set (t := trim_with space2 space3 s) in *.
  destruct (trim_removes (fun a b => space2 b a) (fun a b c => space3 c b a) (String.rev t)) as (q & Hr & Hq).
  { intros a b Hab. by apply and_comm, space2_invisible. }
  { intros a b c Habc. apply space3_invisible in Habc. tauto. }
  apply (f_equal String.rev) in H. rewrite rev_involutive in H. change (String.rev "") with "" in H. rewrite H, str_app_nil in Hr.
  rewrite Hs, all_bytes_app, Hp. cbn. rewrite <- all_bytes_rev, Hr. exact Hq.
Qed.

(** A joined text shows what its parts show. *)
Lemma Join_invisible before (a : string) after : all_bytes invisible (Join (before ++ a :: after) ",") = true -> all_bytes invisible a = true.
Proof.
  assert (forall x l, l <> [] -> Join (x :: l) "," = x +:+ "," +:+ Join l ",") as Hj by (intros x [|y l] ?; done).
  induction before as [|b before IH]; cbn [app]; intros H.
  - destruct after as [|y after]; [done|]. rewrite Hj, all_bytes_app in H by done. by apply andb_true_iff in H as [H _].
  - rewrite Hj, !all_bytes_app, !andb_true_iff in H by (by destruct before). apply IH. tauto.
Qed.



(** A proxy that adds its own header line after the one of the client, instead of
    appending to it, leaves the choice of the address to the client: only the
    first line is read. *)
Lemma second_line_ignored :
  ClientIP ["10.0.0.0/8"] (mk_peer "10.1.2.3:443" ["6.6.6.6"; "203.0.113.7"] []) = "6.6.6.6" /\
  ClientIP ["10.0.0.0/8"] (mk_peer "10.1.2.3:443" ["6.6.6.6,203.0.113.7"] []) = "203.0.113.7".
Proof. by vm_compute. Qed.
