(* ===== verification/Float64.v ===== *)
(** Go's float64: IEEE 754 binary64 with rounding to nearest, ties to even.

    The operations are the Standard Library's specification of floating-point
    arithmetic at 53 bits of precision; they are executable and rely on no
    axiom.  Every operation rounds on its own: a compiler that fuses a
    multiplication and an addition into one rounding is not modelled. *)
From stdpp Require Import base list strings.
From Stdlib Require Import ZArith Lia SpecFloat.
From S2P Require Import Prelude GoTime.

Definition float64 := spec_float.

Definition f_add : float64 -> float64 -> float64 := SFadd 53 1024.
Definition f_sub : float64 -> float64 -> float64 := SFsub 53 1024.
Definition f_mul : float64 -> float64 -> float64 := SFmul 53 1024.
Definition f_div : float64 -> float64 -> float64 := SFdiv 53 1024.

(** Comparisons are false when an operand is not a number. *)
Definition f_lt : float64 -> float64 -> bool := SFltb.
Definition f_le : float64 -> float64 -> bool := SFleb.
Definition f_eq : float64 -> float64 -> bool := SFeqb.

(** [float64(n)] *)
Definition of_int (n : Z) : float64 := binary_normalize 53 1024 n 0 false.

(** The literal n/d, for n and d a power of ten that are both exact. *)
Definition lit (n d : Z) : float64 := f_div (of_int n) (of_int d).

(** [int(x)]: the fraction is dropped.  A value that does not fit is the
    smallest integer, as on amd64. *)
Definition to_int (x : float64) : Z :=
  match x with
  | S754_zero _ => 0
  | S754_finite s m e =>
      let n := if 0 <=? e then Z.pos m * 2 ^ e else Z.pos m / 2 ^ (- e) in
      let n := if s then - n else n in
      if (int64_min <=? n) && (n <=? int64_max) then n else int64_min
  | S754_infinity _ | S754_nan => int64_min
  end.

(** [math.Min]; its special cases are infinities, NaN and zeros. *)
Definition f_min (x y : float64) : float64 :=
  match x, y with
  | S754_infinity true, _ | _, S754_infinity true => S754_infinity true
  | S754_nan, _ | _, S754_nan => S754_nan
  | S754_zero sx, S754_zero sy => S754_zero (sx || sy)
  | _, _ => if f_lt x y then x else y
  end.

(** [Duration.Seconds]. *)
Definition Seconds (d : Duration) : float64 :=
  f_add (of_int (Z.quot d Second)) (f_div (of_int (Z.rem d Second)) (of_int 1000000000)).

Example lits :
  f_lt (f_add (lit 1 10) (lit 2 10)) (lit 3 10) = false /\ f_eq (f_add (lit 1 10) (lit 2 10)) (lit 3 10) = false /\
  to_int (f_mul (lit 29 100) (of_int 100)) = 28 /\ f_eq (Seconds 1500000000) (lit 15 10) = true.
Proof. split_and!; vm_compute; reflexivity. Qed.
