(* ===== verification/Cvss.v ===== *)
(** CVSS scores of feed advisories: internal/feed/cvss.go, and the severities
    the OSV and GitHub feeds derive from them.

    The code computes with float64; the reference is the base score equation of
    the CVSS standard over exact rationals.  Only finitely many combinations of
    weights occur, so the two are compared on all of them. *)
From stdpp Require Import base list option strings gmap.
From Stdlib Require Import Ascii ZArith Lia SpecFloat QArith Qround.
From S2P Require Import Prelude GoStrings Float64.
Open Scope Z_scope.

(** ** The code *)

(** Later metrics overwrite earlier ones of the same name. *)
Definition add_metric (metrics : gmap string string) (part : string) : gmap string string :=
  match cut part ":"%char with
  | (key, Some value) => <[key := value]> metrics
  | (_, None) => metrics
  end.

Definition parseCVSSMetrics (vector : string) : gmap string string :=
  fold_left add_metric (Split vector "/"%char) ∅.

Definition isCVSSv2Vector (vector : string) (metrics : gmap string string) : bool :=
  if HasPrefix (TrimSpace vector) "CVSS:2." then true else bool_decide (is_Some (metrics !! "Au")).

Definition weight_table := list (string * list (string * float64)).

Fixpoint find_key {A} (key : string) (l : list (string * A)) : option A :=
  match l with
  | [] => None
  | (k, v) :: l => if bool_decide (k = key) then Some v else find_key key l
  end.

Definition lookupWeight (metrics : gmap string string) (weights : weight_table) (key : string) (fallback : float64) : float64 :=
  match metrics !! key with
  | None => fallback
  | Some val => default fallback (find_key val (default [] (find_key key weights)))
  end.

Fixpoint pow_loop (n : nat) (base result : float64) : float64 :=
  match n with
  | O => result
  | S n => pow_loop n base (f_mul result base)
  end.

Definition pow (base : float64) (exp : nat) : float64 := pow_loop exp base (of_int 1).

Definition roundUp1 (val : float64) : float64 :=
  let i := to_int (f_mul val (of_int 10)) in
  let i := if f_lt (f_div (of_int i) (of_int 10)) val then i + 1 else i in
  f_div (of_int i) (of_int 10).

Definition roundNearest1 (val : float64) : float64 :=
  f_div (of_int (to_int (f_add (f_mul val (of_int 10)) (lit 5 10)))) (of_int 10).

Definition weights3 : weight_table :=
  [("AV", [("N", lit 85 100); ("A", lit 62 100); ("L", lit 55 100); ("P", lit 20 100)]);
   ("AC", [("L", lit 77 100); ("H", lit 44 100)]);
   ("PR", [("N", lit 85 100); ("L", lit 62 100); ("H", lit 27 100)]);
   ("UI", [("N", lit 85 100); ("R", lit 62 100)]);
   ("S", [("C", lit 10 10); ("U", of_int 0)]);
   ("C", [("H", lit 56 100); ("L", lit 22 100); ("N", of_int 0)]);
   ("I", [("H", lit 56 100); ("L", lit 22 100); ("N", of_int 0)]);
   ("A", [("H", lit 56 100); ("L", lit 22 100); ("N", of_int 0)])].

(** Scores are cut to the range from 0 to 10. *)
Definition clamp (score : float64) : float64 :=
  let score := if f_lt (of_int 10) score then of_int 10 else score in
  if f_lt score (of_int 0) then of_int 0 else score.

(** The impact of [parseCVSSv3Metrics]. *)
Definition impact3 (conf integ avail : float64) (scopeChanged : bool) : float64 :=
  let one := of_int 1 in
  let iss := f_sub one (f_mul (f_mul (f_sub one conf) (f_sub one integ)) (f_sub one avail)) in
  if scopeChanged
  then f_sub (f_mul (lit 752 100) (f_sub iss (lit 29 1000))) (f_mul (lit 325 100) (pow (f_sub iss (lit 2 100)) 15))
  else f_mul (lit 642 100) iss.

Definition exploitability3 (av ac pr ui : float64) : float64 :=
  f_mul (f_mul (f_mul (f_mul (lit 822 100) av) ac) pr) ui.

(** [parseCVSSv3Metrics] after the lookups. *)
Definition score3 (impact exploitability : float64) (scopeChanged : bool) : float64 :=
  if f_le impact (of_int 0) then of_int 0
  else
    let score := if scopeChanged then f_mul (lit 108 100) (f_add impact exploitability) else f_add impact exploitability in
    roundUp1 (clamp score).

Definition parseCVSSv3Metrics (metrics : gmap string string) : float64 :=
  let w := lookupWeight metrics weights3 in
  let scopeChanged := bool_decide (default "" (metrics !! "S") = "C") in
  let exploitability := exploitability3 (w "AV" (lit 55 100)) (w "AC" (lit 44 100)) (w "PR" (lit 62 100)) (w "UI" (lit 62 100)) in
  let impact := impact3 (w "C" (of_int 0)) (w "I" (of_int 0)) (w "A" (of_int 0)) scopeChanged in
  score3 impact exploitability scopeChanged.

Definition weights2 : weight_table :=
  [("AV", [("L", lit 395 1000); ("A", lit 646 1000); ("N", of_int 1)]);
   ("AC", [("H", lit 35 100); ("M", lit 61 100); ("L", lit 71 100)]);
   ("Au", [("M", lit 45 100); ("S", lit 56 100); ("N", lit 704 1000)]);
   ("C", [("N", of_int 0); ("P", lit 275 1000); ("C", lit 66 100)]);
   ("I", [("N", of_int 0); ("P", lit 275 1000); ("C", lit 66 100)]);
   ("A", [("N", of_int 0); ("P", lit 275 1000); ("C", lit 66 100)])].

Definition impact2 (conf integ avail : float64) : float64 :=
  let one := of_int 1 in
  f_mul (lit 1041 100) (f_sub one (f_mul (f_mul (f_sub one conf) (f_sub one integ)) (f_sub one avail))).

Definition exploitability2 (av ac auth : float64) : float64 := f_mul (f_mul (f_mul (of_int 20) av) ac) auth.

(** An access metric is missing. *)
Definition inaccessible (av ac auth : float64) : bool := f_eq av (of_int 0) || f_eq ac (of_int 0) || f_eq auth (of_int 0).

(** [parseCVSSv2Metrics] after the lookups. *)
Definition score2 (missing : bool) (impact exploitability : float64) : float64 :=
  if missing then of_int 0
  else if f_le impact (of_int 0) then of_int 0
  else
    let score := f_mul (f_sub (f_add (f_mul (lit 6 10) impact) (f_mul (lit 4 10) exploitability)) (lit 15 10)) (lit 1176 1000) in
    roundNearest1 (clamp score).

Definition parseCVSSv2Metrics (metrics : gmap string string) : float64 :=
  let w key := lookupWeight metrics weights2 key (of_int 0) in
  score2 (inaccessible (w "AV") (w "AC") (w "Au")) (impact2 (w "C") (w "I") (w "A")) (exploitability2 (w "AV") (w "AC") (w "Au")).

Definition ParseCVSSVector (vector : string) : float64 :=
  if bool_decide (vector = "") then of_int 0
  else
    let metrics := parseCVSSMetrics vector in
    if isCVSSv2Vector vector metrics then parseCVSSv2Metrics metrics else parseCVSSv3Metrics metrics.

Definition CVSSToSeverity (score : float64) : string :=
  if f_le (of_int 9) score then "CRITICAL"
  else if f_le (of_int 7) score then "HIGH"
  else if f_le (of_int 4) score then "MEDIUM"
  else if f_lt (of_int 0) score then "LOW"
  else "UNKNOWN".

(** ** The standard

    Weights are exact; a weight of CVSS 3 has a value for an unchanged and one
    for a changed scope, which differ for the privileges required only.  A
    metric that is missing or unknown counts as the code counts it: AV:L, AC:H,
    PR:L, UI:R and no impact. *)

Definition scoped (q : Q) : Q * Q := (q, q).

Definition standard_weights3 : list (string * list (string * (Q * Q))) :=
  [("AV", [("N", scoped (85#100)); ("A", scoped (62#100)); ("L", scoped (55#100)); ("P", scoped (20#100))]);
   ("AC", [("L", scoped (77#100)); ("H", scoped (44#100))]);
   ("PR", [("N", scoped (85#100)); ("L", (62#100, 68#100)); ("H", (27#100, 50#100))]);
   ("UI", [("N", scoped (85#100)); ("R", scoped (62#100))]);
   ("S", [("C", scoped 1); ("U", scoped 0)]);
   ("C", [("H", scoped (56#100)); ("L", scoped (22#100)); ("N", scoped 0)]);
   ("I", [("H", scoped (56#100)); ("L", scoped (22#100)); ("N", scoped 0)]);
   ("A", [("H", scoped (56#100)); ("L", scoped (22#100)); ("N", scoped 0)])]%Q.

Definition standard_weights2 : list (string * list (string * Q)) :=
  [("AV", [("L", 395#1000); ("A", 646#1000); ("N", 1)]);
   ("AC", [("H", 35#100); ("M", 61#100); ("L", 71#100)]);
   ("Au", [("M", 45#100); ("S", 56#100); ("N", 704#1000)]);
   ("C", [("N", 0); ("P", 275#1000); ("C", 66#100)]);
   ("I", [("N", 0); ("P", 275#1000); ("C", 66#100)]);
   ("A", [("N", 0); ("P", 275#1000); ("C", 66#100)])]%Q.

Definition exact_weight {A} (table : list (string * list (string * A))) (metrics : gmap string string)
    (key : string) (fallback : A) : A :=
  match metrics !! key with
  | None => fallback
  | Some val => default fallback (find_key val (default [] (find_key key table)))
  end.

(** Impact, exploitability and base score of CVSS 3.0 and 3.1; the score is in
    tenths, rounded up. *)
Definition standard_impact3 (conf integ avail : Q) (scopeChanged : bool) : Q :=
  (let iss := Qred (1 - (1 - conf) * (1 - integ) * (1 - avail)) in
   if scopeChanged then (752#100) * (iss - (29#1000)) - (325#100) * Qpower (Qred (iss - (2#100))) 15 else (642#100) * iss)%Q.

Definition standard_exploitability3 (av ac pr ui : Q) : Q := ((822#100) * av * ac * pr * ui)%Q.

Definition base3 (impact exploitability : Q) (scopeChanged : bool) : Z :=
  (if Qle_bool impact 0 then 0%Z
   else Z.min 100 (Qceiling (10 * ((if scopeChanged then 108#100 else 1) * (impact + exploitability)))))%Q.

(** The same for CVSS 2, rounded to the nearest tenth; a vector without the
    access metrics has score 0. *)
Definition standard_impact2 (conf integ avail : Q) : Q := ((1041#100) * (1 - (1 - conf) * (1 - integ) * (1 - avail)))%Q.

Definition standard_exploitability2 (av ac auth : Q) : Q := (20 * av * ac * auth)%Q.

Definition standard_inaccessible (av ac auth : Q) : bool := Qeq_bool av 0 || Qeq_bool ac 0 || Qeq_bool auth 0.

Definition base2 (missing : bool) (impact exploitability : Q) : Z :=
  (if missing || Qle_bool impact 0 then 0%Z
   else Z.max 0 (Z.min 100 (Qfloor (10 * (((6#10) * impact + (4#10) * exploitability - (15#10)) * (1176#1000)) + (5#10)))))%Q.

(** The score of a vector of CVSS 3; [pick] chooses the weight of the
    privileges required. *)
Definition standard3 (pick : Q * Q -> Q) (metrics : gmap string string) : Z :=
  let w key q := (exact_weight standard_weights3 metrics key (scoped q)).1 in
  let scopeChanged := bool_decide (default "" (metrics !! "S") = "C") in
  let exploitability := standard_exploitability3 (w "AV" (55#100)) (w "AC" (44#100))
    (pick (exact_weight standard_weights3 metrics "PR" (62#100, 68#100))) (w "UI" (62#100)) in
  base3 (standard_impact3 (w "C" 0%Q) (w "I" 0%Q) (w "A" 0%Q) scopeChanged) exploitability scopeChanged.

Definition standard2 (metrics : gmap string string) : Z :=
  let w key := exact_weight standard_weights2 metrics key 0%Q in
  base2 (standard_inaccessible (w "AV") (w "AC") (w "Au")) (standard_impact2 (w "C") (w "I") (w "A"))
    (standard_exploitability2 (w "AV") (w "AC") (w "Au")).

Definition scope_changed (metrics : gmap string string) : bool := bool_decide (default "" (metrics !! "S") = "C").

(** What the standard says of a vector, in tenths. *)
Definition standard_score (vector : string) : Z :=
  let metrics := parseCVSSMetrics vector in
  if isCVSSv2Vector vector metrics then standard2 metrics
  else standard3 (if scope_changed metrics then snd else fst) metrics.

Definition tenths (k : Z) : float64 := f_div (of_int k) (of_int 10).

Definition severity_of_tenths (k : Z) : string :=
  if 90 <=? k then "CRITICAL" else if 70 <=? k then "HIGH" else if 40 <=? k then "MEDIUM" else if 0 <? k then "LOW" else "UNKNOWN".

(** ** Agreement on every combination of weights *)

#[export] Instance float64_eq_dec : EqDecision spec_float.
Proof. solve_decision. Defined.

#[export] Instance Q_eq_dec : EqDecision Q.
Proof. solve_decision. Defined.

(** The weights of a metric in two tables with the same names, the one used
    when the metric is missing first. *)
Definition weight_pairs {A B} `{EqDecision A, EqDecision B} (fallback : A * B)
    (l1 : list (string * list (string * A))) (l2 : list (string * list (string * B))) (key : string) : list (A * B) :=
  remove_dups (fallback :: zip (snd <$> default [] (find_key key l1)) (snd <$> default [] (find_key key l2))).

Lemma find_key_zip {A B} key (l1 : list (string * A)) (l2 : list (string * B)) :
  fst <$> l1 = fst <$> l2 ->
  match find_key key l1, find_key key l2 with
  | Some a, Some b => (a, b) ∈ zip (snd <$> l1) (snd <$> l2)
  | None, None => True
  | _, _ => False
  end.
Proof.
  revert l2. induction l1 as [|[k a] l1 IH]; intros [|[k' b] l2] H; try done. cbn in H. injection H as <- H.
  cbn [find_key]. case_bool_decide; [cbn; left|]. specialize (IH _ H).
  destruct (find_key key l1), (find_key key l2); try done. cbn. by right.
Qed.

(** Looking a metric up in both tables gives a pair of weights. *)
Lemma weights_paired {B} `{EqDecision B} metrics (l1 : weight_table) (l2 : list (string * list (string * B))) key f q :
  fst <$> default [] (find_key key l1) = fst <$> default [] (find_key key l2) ->
  (lookupWeight metrics l1 key f, exact_weight l2 metrics key q) ∈ weight_pairs (f, q) l1 l2 key.
Proof.
  intros Hkeys. unfold weight_pairs. rewrite elem_of_remove_dups. unfold lookupWeight, exact_weight.
  destruct (metrics !! key) as [val|]; [|left]. pose proof (find_key_zip val _ _ Hkeys) as Hzip.
  destruct (find_key val (default [] (find_key key l1))), (find_key val (default [] (find_key key l2))); try done; [by right|left].
Qed.

(** The scores of one pair of impacts and exploitabilities; the second exact
    exploitability has the weights of a changed scope. *)
Definition agree3 (changed : bool) (impact : float64 * Q) (exploitability : float64 * (Q * Q)) : bool :=
  let k := base3 impact.2 exploitability.2.1 changed in
  let k' := base3 impact.2 exploitability.2.2 changed in
  let score := score3 impact.1 exploitability.1 changed in
  bool_decide (score = tenths k) && (0 <=? k) && (k <=? 100) && (k <=? k') && (k' <=? k + 12).

Definition agree2 (impact : float64 * Q) (access : (bool * bool) * (float64 * Q)) : bool :=
  let k := base2 access.1.2 impact.2 access.2.2 in
  bool_decide (score2 access.1.1 impact.1 access.2.1 = tenths k) && (0 <=? k) && (k <=? 100).

Definition pairs3 (key : string) (f : float64) (q : Q * Q) := weight_pairs (f, q) weights3 standard_weights3 key.
Definition pairs2 (key : string) := weight_pairs (of_int 0, 0%Q) weights2 standard_weights2 key.

Definition impacts (changed : bool) : list (float64 * Q) := remove_dups (
  c ← pairs3 "C" (of_int 0) (scoped 0%Q); i ← pairs3 "I" (of_int 0) (scoped 0%Q); a ← pairs3 "A" (of_int 0) (scoped 0%Q);
  [(impact3 c.1 i.1 a.1 changed, Qred (standard_impact3 c.2.1 i.2.1 a.2.1 changed))]).

Definition exploitabilities : list (float64 * (Q * Q)) := remove_dups (
  av ← pairs3 "AV" (lit 55 100) (scoped (55#100)); ac ← pairs3 "AC" (lit 44 100) (scoped (44#100));
  pr ← pairs3 "PR" (lit 62 100) (62#100, 68#100); ui ← pairs3 "UI" (lit 62 100) (scoped (62#100));
  [(exploitability3 av.1 ac.1 pr.1 ui.1,
    (Qred (standard_exploitability3 av.2.1 ac.2.1 pr.2.1 ui.2.1), Qred (standard_exploitability3 av.2.1 ac.2.1 pr.2.2 ui.2.1)))]).

Lemma all_agree3 : forall changed,
  (let es := exploitabilities in forallb (fun i => forallb (agree3 changed i) es) (impacts changed)) = true.
Proof. intros []; vm_compute; reflexivity. Qed.

Definition impacts2 : list (float64 * Q) := remove_dups (
  c ← pairs2 "C"; i ← pairs2 "I"; a ← pairs2 "A"; [(impact2 c.1 i.1 a.1, Qred (standard_impact2 c.2 i.2 a.2))]).

Definition accesses2 : list ((bool * bool) * (float64 * Q)) := remove_dups (
  av ← pairs2 "AV"; ac ← pairs2 "AC"; au ← pairs2 "Au";
  [((inaccessible av.1 ac.1 au.1, standard_inaccessible av.2 ac.2 au.2),
    (exploitability2 av.1 ac.1 au.1, Qred (standard_exploitability2 av.2 ac.2 au.2)))]).

Lemma all_agree2 : (let l := accesses2 in forallb (fun i => forallb (agree2 i) l) impacts2) = true.
Proof. vm_compute. reflexivity. Qed.

Lemma severities_agree k : 0 <= k <= 100 -> CVSSToSeverity (tenths k) = severity_of_tenths k.
Proof.
  intros Hk. assert (forallb (fun k => bool_decide (CVSSToSeverity (tenths k) = severity_of_tenths k)) (Z.of_nat <$> seq 0 101) = true)
    as Hall by (vm_compute; reflexivity).
  rewrite forallb_forall in Hall. apply (bool_decide_eq_true_1 _), Hall.
  rewrite <- list_elem_of_In. apply list_elem_of_fmap. exists (Z.to_nat k). split; [lia|]. apply elem_of_seq. lia.
Qed.

(** Equal rationals have equal scores, whatever their representation. *)
#[export] Instance base3_proper : Proper (Qeq ==> Qeq ==> eq ==> eq) base3.
Proof.
  intros i i' Hi e e' He ? changed ->. unfold base3. rewrite (Qleb_comp _ _ Hi _ _ (Qeq_refl 0)).
  destruct (Qle_bool i' 0); [done|]. f_equal. apply Qceiling_comp. by rewrite Hi, He.
Qed.

#[export] Instance base2_proper : Proper (eq ==> Qeq ==> Qeq ==> eq) base2.
Proof.
  intros ? missing -> i i' Hi e e' He. unfold base2. rewrite (Qleb_comp _ _ Hi _ _ (Qeq_refl 0)).
  destruct (missing || Qle_bool i' 0); [done|]. do 2 f_equal. apply Qfloor_comp. by rewrite Hi, He.
Qed.

Lemma base3_red i e changed : base3 (Qred i) (Qred e) changed = base3 i e changed.
Proof. apply base3_proper; [apply Qred_correct..|done]. Qed.

Lemma base2_red missing i e : base2 missing (Qred i) (Qred e) = base2 missing i e.
Proof. apply base2_proper; [done|apply Qred_correct..]. Qed.

(** One metric of a list of combinations. *)
Ltac weigh metrics l1 l2 key :=
  apply list_elem_of_bind; eexists (_, _); split; [|apply (weights_paired metrics l1 l2 key); reflexivity].

(** The score of a CVSS 3 vector is the exact one. *)
Lemma score3_exact metrics :
  let k := standard3 fst metrics in
  parseCVSSv3Metrics metrics = tenths k /\ 0 <= k <= 100 /\ k <= standard3 snd metrics <= k + 12.
Proof.
  cbv zeta. unfold parseCVSSv3Metrics, standard3. cbv zeta. set (changed := bool_decide _).
  pose proof (all_agree3 changed) as Hall. cbv zeta in Hall. rewrite forallb_forall in Hall.
  match goal with |- score3 ?fi ?fe _ = tenths (base3 ?i ?e _) /\ _ /\ _ <= base3 _ ?e' _ <= _ =>
    assert ((fi, Qred i) ∈ impacts changed /\ (fe, (Qred e, Qred e')) ∈ exploitabilities) as [Hi He];
    [split; unfold impacts, exploitabilities; rewrite elem_of_remove_dups|]
  end.
  - weigh metrics weights3 standard_weights3 "C".
    weigh metrics weights3 standard_weights3 "I".
    weigh metrics weights3 standard_weights3 "A".
    by apply list_elem_of_singleton.
  - weigh metrics weights3 standard_weights3 "AV".
    weigh metrics weights3 standard_weights3 "AC".
    weigh metrics weights3 standard_weights3 "PR".
    weigh metrics weights3 standard_weights3 "UI".
    by apply list_elem_of_singleton.
  - apply list_elem_of_In in Hi, He. specialize (Hall _ Hi). rewrite forallb_forall in Hall. specialize (Hall _ He).
    unfold agree3 in Hall. cbn [fst snd] in Hall. rewrite !base3_red in Hall. rewrite !andb_true_iff in Hall.
    destruct Hall as ((((Hs & ?) & ?) & ?) & ?). apply bool_decide_eq_true in Hs. rewrite !Z.leb_le in *. split; [exact Hs|lia].
Qed.

Lemma score2_exact metrics :
  let k := standard2 metrics in parseCVSSv2Metrics metrics = tenths k /\ 0 <= k <= 100.
Proof.
  cbv zeta. unfold parseCVSSv2Metrics, standard2. cbv zeta.
  pose proof all_agree2 as Hall. cbv zeta in Hall. rewrite forallb_forall in Hall.
  match goal with |- score2 ?fm ?fi ?fe = tenths (base2 ?m ?i ?e) /\ _ =>
    assert ((fi, Qred i) ∈ impacts2 /\ ((fm, m), (fe, Qred e)) ∈ accesses2) as [Hi He];
    [split; unfold impacts2, accesses2; rewrite elem_of_remove_dups|]
  end.
  - weigh metrics weights2 standard_weights2 "C". weigh metrics weights2 standard_weights2 "I".
    weigh metrics weights2 standard_weights2 "A". by apply list_elem_of_singleton.
  - weigh metrics weights2 standard_weights2 "AV". weigh metrics weights2 standard_weights2 "AC".
    weigh metrics weights2 standard_weights2 "Au". by apply list_elem_of_singleton.
  - apply list_elem_of_In in Hi, He. specialize (Hall _ Hi). rewrite forallb_forall in Hall. specialize (Hall _ He).
    unfold agree2 in Hall. cbn [fst snd] in Hall. rewrite base2_red in Hall. rewrite !andb_true_iff in Hall.
    destruct Hall as ((Hs & ?) & ?). apply bool_decide_eq_true in Hs. rewrite !Z.leb_le in *. split; [exact Hs|lia].
Qed.

(** C36: the score computed in floating point for a vector, any string at all, is
    a whole number of tenths from 0 to 10 and its severity is the one of the
    standard's ranges.  It is exactly the base score of the CVSS standard for
    CVSS 2 vectors and for CVSS 3 vectors whose scope is unchanged: rounding
    errors never move it.  For a changed scope it is never above the standard's
    score and at most 1.2 below. *)
Theorem cvss_score_exact vector :
  exists k, ParseCVSSVector vector = tenths k /\ 0 <= k <= 100 /\
    CVSSToSeverity (ParseCVSSVector vector) = severity_of_tenths k /\
    k <= standard_score vector <= k + 12 /\
    (isCVSSv2Vector vector (parseCVSSMetrics vector) || negb (scope_changed (parseCVSSMetrics vector)) = true ->
     k = standard_score vector).
Proof.
  unfold ParseCVSSVector. case_bool_decide as Hempty.
  { subst. exists 0. split; [reflexivity|]. split; [lia|]. split; [reflexivity|]. vm_compute. by repeat split. }
  unfold standard_score. cbv zeta. destruct (isCVSSv2Vector _ _).
  - destruct (score2_exact (parseCVSSMetrics vector)) as [-> Hk]. eexists. split; [done|]. split; [done|].
    split; [by apply severities_agree|]. split; [lia|done].
  - destruct (score3_exact (parseCVSSMetrics vector)) as (-> & Hk & Hk'). eexists. split; [done|]. split; [done|].
    split; [by apply severities_agree|]. unfold scope_changed. case_bool_decide; [done|]. split; [lia|done].
Qed.
