(* ===== verification/Advisories.v ===== *)
(** Advisories, feeds, settings and scan logs as the stores keep them: the row
    types of internal/db/db.go, the conversions of operator advisories of
    internal/db/manual_advisory.go, and the small vocabularies of
    version_constraints.go, finding_type.go, feed_sync_status.go and search.go.

    A json.RawMessage is its text; a nil message is the empty text, which no
    code below tells apart.  Scores are carried as text and never computed
    with. *)
From stdpp Require Import base list option strings gmap.
From Stdlib Require Import Ascii ZArith Lia.
From S2P Require Import Prelude GoStrings AsciiText Json Collections JsonEncode GoTime Domain.

(** ** Rows *)

Record VulnerabilityAlias := mk_alias { AliasID : string }.

Record VulnerabilitySource := mk_source {
  srcSource : string;
  SourceID : string;
  srcURL : string;
  RawJSON : string
}.

Record VulnerabilityReference := mk_reference {
  refType : string;
  refURL : string;
  refSource : string
}.

Record AffectedPackage := mk_affected {
  affEcosystem : string;
  affName : string;
  affVersionRanges : string;
  affVersionsAffected : string
}.

Record Vulnerability := mk_vuln {
  vID : string;
  vSummary : string;
  vDetails : string;
  vSeverity : string;
  vCVSSScore : option string;
  vEPSSScore : option string;
  vEPSSPercentile : option string;
  vCISAKEV : bool;
  vExploitExists : bool;
  vPublished : Time;
  vModified : Time;
  vWithdrawn : option Time;
  vAliases : list VulnerabilityAlias;
  vSources : list VulnerabilitySource;
  vReferences : list VulnerabilityReference;
  vAffectedPackages : list AffectedPackage
}.

Definition set_sources (l : list VulnerabilitySource) (v : Vulnerability) : Vulnerability :=
  mk_vuln (vID v) (vSummary v) (vDetails v) (vSeverity v) (vCVSSScore v) (vEPSSScore v) (vEPSSPercentile v)
    (vCISAKEV v) (vExploitExists v) (vPublished v) (vModified v) (vWithdrawn v) (vAliases v) l
    (vReferences v) (vAffectedPackages v).

Definition set_affected (l : list AffectedPackage) (v : Vulnerability) : Vulnerability :=
  mk_vuln (vID v) (vSummary v) (vDetails v) (vSeverity v) (vCVSSScore v) (vEPSSScore v) (vEPSSPercentile v)
    (vCISAKEV v) (vExploitExists v) (vPublished v) (vModified v) (vWithdrawn v) (vAliases v) (vSources v)
    (vReferences v) l.

Record MaliciousFinding := mk_mal {
  mfID : string;
  mfEcosystem : string;
  mfName : string;
  mfVersionRanges : string;
  mfVersions : string;
  mfSource : string;
  mfRiskType : string;
  mfSeverity : string;
  mfSummary : string;
  mfDescription : string;
  mfReferenceURLs : string;
  mfOriginRef : string;
  mfPublished : option Time;
  mfCreatedBy : string
}.

(** The identity, the source and the name of a finding, replaced. *)
Definition set_identity (id source name : string) (m : MaliciousFinding) : MaliciousFinding :=
  mk_mal id (mfEcosystem m) name (mfVersionRanges m) (mfVersions m) source (mfRiskType m) (mfSeverity m)
    (mfSummary m) (mfDescription m) (mfReferenceURLs m) (mfOriginRef m) (mfPublished m) (mfCreatedBy m).

Record ManualAdvisory := mk_manual {
  maID : string;
  maFindingType : string;
  maEcosystem : string;
  maName : string;
  maSeverity : string;
  maRiskType : string;
  maSummary : string;
  maDescription : string;
  maUpdatedAt : Time
}.

Record FeedSyncStatus := mk_feed_status {
  fsFeedName : string;
  LastSyncAt : option Time;
  LastSyncDuration : option Duration;
  LastSyncStatus : string;
  fsLastError : string;
  EntriesSynced : Z;
  EntriesTotal : Z;
  LastETag : string;
  LastCommitHash : string;
  fsMetadata : string;
  fsUpdatedAt : Time
}.

Record FeedConfig := mk_feed_config {
  fcFeedName : string;
  Enabled : bool;
  Mode : string;
  SyncInterval : option Duration;
  fcAPIKey : string;
  APIKeyEncrypted : bool;
  fcUpdatedAt : Time;
  fcExpectedUpdatedAt : option Time
}.

Record SystemSettings := mk_settings {
  ssBlockThreshold : string;
  RateLimitPerMinute : Z;
  RateLimitBurst : Z;
  ScanLogRetention : Duration;
  AdminAuditRetention : Duration;
  ssUpdatedAt : Time;
  ssExpectedUpdatedAt : option Time
}.

Record ScanLogEntry := mk_scan {
  ScanID : string;
  RepoName : string;
  ScannedAt : Time;
  PackagesCount : Z;
  FindingsCount : Z;
  DurationMs : Z;
  ClientIP : string;
  ClientVersion : string;
  slAPIKeyID : Z;
  slAPIKeyName : string;
  slCorrelationID : string;
  IdempotencyKey : string;
  RequestDigest : string;
  ResultDigest : string;
  FindingsBlocking : bool;
  slBlockThreshold : string;
  FeedStatus : string;
  FeedVersions : gmap string string;
  FindingIDs : list string;
  FindingSeverities : list string;
  ManualAdvisoriesCount : Z
}.

Record PackageQuery := mk_query { pqEcosystem : string; pqName : string; pqVersion : string }.

(** ** Version constraints *)

Definition emptyVersionConstraintJSON : string := "[]".

Definition normalizeVersionConstraintJSONField (raw : string) : string :=
  let trimmed := TrimSpace raw in
  if bool_decide (trimmed = "") || bool_decide (trimmed = "null") then emptyVersionConstraintJSON else trimmed.

Definition NormalizeVersionConstraintJSON (versionRangesJSON versionsJSON : string) : string * string :=
  (normalizeVersionConstraintJSONField versionRangesJSON, normalizeVersionConstraintJSONField versionsJSON).

(** ** Feed sync statuses *)

Definition FeedSyncStatusPending : string := "pending".
Definition FeedSyncStatusRunning : string := "running".
Definition FeedSyncStatusSuccess : string := "success".
Definition FeedSyncStatusError : string := "error".
Definition FeedSyncStatusSkipped : string := "skipped".
Definition FeedSyncStatusDisabled : string := "disabled".
Definition FeedSyncStatusExternal : string := "external".
Definition FeedSyncStatusRejected : string := "rejected".
Definition FeedSyncStatusPermanentError : string := "permanent_error".

Definition feedSyncStatusValues : list string :=
  [FeedSyncStatusPending; FeedSyncStatusRunning; FeedSyncStatusSuccess; FeedSyncStatusError;
   FeedSyncStatusSkipped; FeedSyncStatusDisabled; FeedSyncStatusExternal; FeedSyncStatusRejected;
   FeedSyncStatusPermanentError].

Definition importableFeedSyncStatusValues : list string :=
  [FeedSyncStatusSuccess; FeedSyncStatusError; FeedSyncStatusRunning; FeedSyncStatusSkipped;
   FeedSyncStatusDisabled; FeedSyncStatusPending; FeedSyncStatusRejected].

Section advisories.
Context {U : UnicodeCase}.

Definition NormalizeFeedSyncStatus (status : string) : string :=
  let status := ToLower (TrimSpace status) in
  if bool_decide (status = "") then FeedSyncStatusPending else status.

Definition IsValidFeedSyncStatus (status : string) : bool :=
  let status := NormalizeFeedSyncStatus status in
  bool_decide (status = FeedSyncStatusPending) || bool_decide (status = FeedSyncStatusRunning) ||
  bool_decide (status = FeedSyncStatusSuccess) || bool_decide (status = FeedSyncStatusError) ||
  bool_decide (status = FeedSyncStatusSkipped) || bool_decide (status = FeedSyncStatusDisabled) ||
  bool_decide (status = FeedSyncStatusExternal) || bool_decide (status = FeedSyncStatusRejected) ||
  bool_decide (status = FeedSyncStatusPermanentError).

Definition IsImportableFeedSyncStatus (status : string) : bool :=
  let status := TrimSpace status in
  bool_decide (status = FeedSyncStatusSuccess) || bool_decide (status = FeedSyncStatusError) ||
  bool_decide (status = FeedSyncStatusRunning) || bool_decide (status = FeedSyncStatusSkipped) ||
  bool_decide (status = FeedSyncStatusDisabled) || bool_decide (status = FeedSyncStatusPending) ||
  bool_decide (status = FeedSyncStatusRejected).

(** ** Finding types of stored rows *)

Definition FindingTypeForMaliciousRiskType (riskType : string) : FindingType :=
  let r := ToLower (TrimSpace riskType) in
  if bool_decide (r = "supply_chain") || bool_decide (r = "typosquatting")
  then FindingTypeSupplyChainRisk else FindingTypeMalicious.

(** ** Operator advisories *)

Definition normalizeManualAdvisoryEcosystem (ecosystem : string) : option string :=
  let normalized := ToLower (TrimSpace ecosystem) in
  if Ecosystem_Valid normalized then Some normalized else None.

Definition normalizeManualAdvisoryRiskType (riskType : string) : option string :=
  let r := ToLower (TrimSpace riskType) in
  if bool_decide (r = "") then Some "malware"
  else if bool_decide (r = "malware") then Some "malware"
  else if bool_decide (r = "supply_chain") || bool_decide (r = "supply-chain") || bool_decide (r = "supply chain")
  then Some "supply_chain"
  else if bool_decide (r = "typosquatting") || bool_decide (r = "typosquat") || bool_decide (r = "typo-squatting")
  then Some "typosquatting"
  else None.

(** [json.Marshal] of the map with the two keys, in the order of the keys. *)
Definition manual_raw : string :=
  marshal_members [("created_by", marshal_string "admin"); ("finding_type", marshal_string "vulnerability")].

Definition ManualAdvisoryToVulnerability (now : Time) (advisory : ManualAdvisory) : Vulnerability :=
  let severity := ToUpper (TrimSpace (maSeverity advisory)) in
  let severity := if bool_decide (severity = "") then "UNKNOWN" else severity in
  let ecosystem := default (TrimSpace (maEcosystem advisory))
                     (normalizeManualAdvisoryEcosystem (maEcosystem advisory)) in
  let id := TrimSpace (maID advisory) in
  mk_vuln id (TrimSpace (maSummary advisory)) (TrimSpace (maDescription advisory)) severity
    None None None false false now now None
    [mk_alias id] [mk_source ManualAdvisorySource id "" manual_raw] []
    [mk_affected ecosystem (TrimSpace (maName advisory)) "[]" "[]"].

Definition ManualAdvisoryToMaliciousFinding (advisory : ManualAdvisory) : MaliciousFinding :=
  let riskType := default (TrimSpace (maRiskType advisory))
                    (normalizeManualAdvisoryRiskType (maRiskType advisory)) in
  let severity := ToUpper (TrimSpace (maSeverity advisory)) in
  let severity := if bool_decide (severity = "") then "CRITICAL" else severity in
  let ecosystem := default (TrimSpace (maEcosystem advisory))
                     (normalizeManualAdvisoryEcosystem (maEcosystem advisory)) in
  mk_mal (TrimSpace (maID advisory)) ecosystem (TrimSpace (maName advisory)) "" "" ManualAdvisorySource
    riskType severity (TrimSpace (maSummary advisory)) (TrimSpace (maDescription advisory)) "" "" None "admin".
End advisories.

(** ** Search previews *)

Definition SearchVulnerabilityIDPreviewLimit : nat := 5.

Definition splitSearchVulnerabilityIDs (ids : string) : list string :=
  filter (fun part => part <> "") (TrimSpace <$> Split ids ",").

Definition FormatSearchVulnerabilityIDPreview (ids : string) (total : Z) : string :=
  let parts := splitSearchVulnerabilityIDs ids in
  if bool_decide (parts = []) then ""
  else
    let parts := if (SearchVulnerabilityIDPreviewLimit <? length parts)%nat
                 then take SearchVulnerabilityIDPreviewLimit parts else parts in
    let n := Z.of_nat (length parts) in
    let parts := if n <? total then parts ++ ["+" +:+ Itoa (total - n) +:+ " more"] else parts in
    Join parts ", ".
