(* ===== verification/Lifecycle.v ===== *)
(** Release life cycles: internal/lifecycle/{policy,mapping}.go.

    A package version is matched with the release cycles of its products, and
    the most specific cycle of each product decides the finding: end of life,
    end of life soon, or security support only. *)
From stdpp Require Import base list option strings gmap.
From Stdlib Require Import Ascii ZArith Lia.
From S2P Require Import Prelude GoStrings GoTime Collections Domain.

Definition Source : string := "endoflife.date".
Definition EOLSoonDays : Z := 90.
Definition EOLSoonWindow : Duration := EOLSoonDays * 24 * Hour.

Definition SeverityEOL : Severity := SeverityCritical.
Definition SeverityEOLSoon : Severity := SeverityMedium.
Definition SeveritySecuritySupportOnly : Severity := SeverityLow.

Definition RiskTypeEOL : string := "eol".
Definition RiskTypeEOLSoon : string := "eol_soon".
Definition RiskTypeSecuritySupportOnly : string := "security_support_only".

Record PackageQuery := mk_query {
  qEcosystem : string;
  qName : string;
  qVersion : string
}.

Record Release := mk_release {
  Cycle : string;
  Latest : string;
  ReleaseDate : option Time;
  IsLTS : bool;
  LTSFrom : option Time;
  IsEOAS : bool;
  EOASFrom : option Time;
  IsEOL : bool;
  EOLFrom : option Time;
  IsDiscontinued : bool;
  DiscontinuedFrom : option Time;
  IsEOES : option bool;
  EOESFrom : option Time;
  IsMaintained : bool
}.

Record ReleaseRow := mk_row {
  rowID : string;
  rowEcosystem : string;
  rowPackageName : string;
  ProductSlug : string;
  ProductName : string;
  rowRelease : Release
}.

Definition cycle_of (row : ReleaseRow) : string := Cycle (rowRelease row).

Definition cycleMatches (version0 cycle0 : string) : bool :=
  let version := TrimSpace version0 in
  let cycle := TrimSpace cycle0 in
  if bool_decide (version = "") || bool_decide (cycle = "") then false
  else bool_decide (version = cycle) || HasPrefix version (cycle +:+ ".").

(** One iteration of the loop over the rows. *)
Definition consider (version : string) (best : gmap string ReleaseRow) (row : ReleaseRow)
    : gmap string ReleaseRow :=
  if negb (cycleMatches version (cycle_of row)) then best
  else match best !! ProductSlug row with
       | None => <[ProductSlug row := row]> best
       | Some current =>
           if Nat.ltb (String.length (cycle_of current)) (String.length (cycle_of row))
           then <[ProductSlug row := row]> best else best
       end.

(** The values of the map; Go leaves their order open, and no theorem depends
    on it. *)
Definition LongestMatchingReleases (rows : list ReleaseRow) (version : string) : list ReleaseRow :=
  if bool_decide (TrimSpace version = "") then []
  else (map_to_list (fold_left (consider version) rows ∅)).*2.

Definition dateOnOrBefore (date : option Time) (now : Time) : bool :=
  match date with None => false | Some d => negb (After d now) end.

Definition dateWithin (date : option Time) (now : Time) (window : Duration) : bool :=
  match date with None => false | Some d => After d now && negb (After d (Add now window)) end.

Definition buildFinding (pkg : PackageQuery) (row : ReleaseRow) (typ : FindingType)
    (severity : Severity) (riskType phrase : string) : Finding :=
  let trimmed := TrimSpace (ProductName row) in
  let productName := if bool_decide (trimmed = "") then ProductSlug row else trimmed in
  let url := "https://endoflife.date/" +:+ ProductSlug row in
  let title := productName +:+ " " +:+ cycle_of row +:+ " " +:+ phrase in
  mk_finding (qName pkg) (qVersion pkg) (qEcosystem pkg) typ severity
    ("endoflife:" +:+ ProductSlug row +:+ ":" +:+ cycle_of row +:+ ":" +:+ riskType)
    title url [mk_link Source url] "" riskType Source [].

Definition FindingForRelease (pkg : PackageQuery) (row : ReleaseRow) (now : Time) : option Finding :=
  let release := rowRelease row in
  if IsEOL release || dateOnOrBefore (EOLFrom release) now
  then Some (buildFinding pkg row FindingTypeSupplyChainRisk SeverityEOL RiskTypeEOL "is end-of-life")
  else if dateWithin (EOLFrom release) now EOLSoonWindow
  then Some (buildFinding pkg row FindingTypeLifecycle SeverityEOLSoon RiskTypeEOLSoon
               "reaches end-of-life soon")
  else if IsEOAS release || dateOnOrBefore (EOASFrom release) now
  then Some (buildFinding pkg row FindingTypeLifecycle SeveritySecuritySupportOnly
               RiskTypeSecuritySupportOnly "is in security support only")
  else None.

(** ** The curated mapping *)

Record PackageMap := mk_map {
  mapEcosystem : string;
  mapName : string;
  mapProductSlug : string;
  PURLType : string;
  PURLNamespace : string;
  PURLName : string;
  mapSource : string
}.

Definition curatedPackageMaps : gmap string (list PackageMap) := list_to_map
  [("django", [mk_map "pypi" "django" "" "pypi" "" "django" ""]);
   ("laravel", [mk_map "composer" "laravel/framework" "" "composer" "laravel" "framework" ""]);
   ("ruby-on-rails", [mk_map "gem" "rails" "" "gem" "" "rails" ""])].

Definition CuratedPackageMaps (productSlug : string) : list PackageMap :=
  (fun m => mk_map (mapEcosystem m) (mapName m) productSlug (PURLType m) (PURLNamespace m) (PURLName m)
              (if bool_decide (mapSource m = "") then "endoflife.date" else mapSource m))
  <$> default [] (curatedPackageMaps !! productSlug).

(** ** The most specific cycle *)

Definition matching (version slug : string) (r : ReleaseRow) : Prop :=
  cycleMatches version (cycle_of r) = true /\ ProductSlug r = slug.

(** [row] is the first of the longest matching rows of its product. *)
Definition most_specific (rows : list ReleaseRow) (version : string) (row : ReleaseRow) : Prop :=
  exists i, rows !! i = Some row /\ cycleMatches version (cycle_of row) = true /\
    forall j r, rows !! j = Some r -> matching version (ProductSlug row) r ->
      (String.length (cycle_of r) <= String.length (cycle_of row))%nat /\
      ((j < i)%nat -> (String.length (cycle_of r) < String.length (cycle_of row))%nat).

(** The map holds, per product, the most specific row so far. *)
Definition best_ok (version : string) (rows : list ReleaseRow) (best : gmap string ReleaseRow) : Prop :=
  forall slug,
    match best !! slug with
    | Some row => most_specific rows version row /\ ProductSlug row = slug
    | None => forall r, r ∈ rows -> ~ matching version slug r
    end.

Lemma lookup_snoc_Some {A} (l : list A) x j y :
  (l ++ [x]) !! j = Some y <-> l !! j = Some y \/ (j = length l /\ y = x).
Proof.
  rewrite lookup_app_Some. rewrite list_lookup_singleton_Some. split.
  - intros [?|(? & ? & ->)]; [by left|right]. split; [lia|done].
  - intros [?|[-> ->]]; [by left|right]. split; [lia|]. split; [lia|done].
Qed.

Lemma most_specific_snoc rows version row r :
  most_specific rows version row ->
  (matching version (ProductSlug row) r -> (String.length (cycle_of r) <= String.length (cycle_of row))%nat) ->
  most_specific (rows ++ [r]) version row.
Proof.
  intros (i & Hi & Hm & Hall) Hr. exists i. pose proof (lookup_lt_Some _ _ _ Hi).
  split_and!; [by apply lookup_app_l_Some | done |].
  intros j s [Hj|[-> ->]]%lookup_snoc_Some Hs; [eauto|]. split; [auto|lia].
Qed.

Lemma most_specific_last rows version r :
  cycleMatches version (cycle_of r) = true ->
  (forall s, s ∈ rows -> matching version (ProductSlug r) s ->
     (String.length (cycle_of s) < String.length (cycle_of r))%nat) ->
  most_specific (rows ++ [r]) version r.
Proof.
  intros Hm Hlt. exists (length rows). split_and!; [by apply lookup_snoc_Some; right | done |].
  intros j s [Hj|[-> ->]]%lookup_snoc_Some Hs; [|lia].
  specialize (Hlt s (list_elem_of_lookup_2 _ _ _ Hj) Hs). lia.
Qed.

(** Every matching row is at most as long as the most specific one. *)
Lemma most_specific_max rows version row s :
  most_specific rows version row -> s ∈ rows -> matching version (ProductSlug row) s ->
  (String.length (cycle_of s) <= String.length (cycle_of row))%nat.
Proof. intros (i & _ & _ & Hall) [j Hj]%list_elem_of_lookup Hs. by apply (Hall j). Qed.

Lemma most_specific_unique rows version r1 r2 :
  most_specific rows version r1 -> most_specific rows version r2 -> ProductSlug r1 = ProductSlug r2 ->
  r1 = r2.
Proof.
  intros (i & Hi & Hm1 & Hall1) (j & Hj & Hm2 & Hall2) Hslug.
  assert (matching version (ProductSlug r1) r2) as H12 by (by split).
  assert (matching version (ProductSlug r2) r1) as H21 by (by split).
  specialize (Hall1 j r2 Hj H12). specialize (Hall2 i r1 Hi H21).
  assert (i = j) as -> by lia. congruence.
Qed.

Lemma consider_ok version rows best row :
  best_ok version rows best -> best_ok version (rows ++ [row]) (consider version best row).
Proof.
  intros Hok slug. unfold consider.
  assert (forall cur, best !! slug = Some cur -> ~ matching version slug row ->
    most_specific (rows ++ [row]) version cur /\ ProductSlug cur = slug) as Hkeep.
  { intros cur Hcur Hnot. specialize (Hok slug). rewrite Hcur in Hok. destruct Hok as [Hms <-].
    split; [|done]. apply most_specific_snoc; tauto. }
  assert (best !! slug = None -> ~ matching version slug row ->
    forall r, r ∈ rows ++ [row] -> ~ matching version slug r) as Hnone.
  { intros Hcur Hnot r [Hr| ->%list_elem_of_singleton]%elem_of_app; [|done].
    specialize (Hok slug). rewrite Hcur in Hok. auto. }
  destruct (cycleMatches version (cycle_of row)) eqn:Em; simpl.
  2:{ assert (~ matching version slug row) by (unfold matching; intuition congruence).
      destruct (best !! slug) eqn:Eb; auto. }
  destruct (decide (ProductSlug row = slug)) as [<-|Hne].
  2:{ assert (~ matching version slug row) by (unfold matching; intuition congruence).
      destruct (best !! ProductSlug row) as [cur|]; [destruct (_ <? _)%nat|];
        rewrite ?lookup_insert_ne by done; destruct (best !! slug) eqn:Eb; auto. }
  specialize (Hok (ProductSlug row)). destruct (best !! ProductSlug row) as [cur|] eqn:Eb.
  - destruct Hok as [Hms Hslug]. destruct (Nat.ltb_spec (String.length (cycle_of cur))
      (String.length (cycle_of row))) as [Hlt|Hge].
    + rewrite lookup_insert_eq. split; [|done]. apply most_specific_last; [done|].
      intros s Hs Hsm. rewrite <- Hslug in Hsm. pose proof (most_specific_max _ _ _ _ Hms Hs Hsm). lia.
    + rewrite Eb. split; [|done]. by apply most_specific_snoc.
  - rewrite lookup_insert_eq. split; [|done]. apply most_specific_last; [done|].
    intros s Hs Hsm. by destruct (Hok s Hs).
Qed.

Lemma consider_fold version rows : best_ok version rows (fold_left (consider version) rows ∅).
Proof.
  induction rows as [|row rows IH] using rev_ind.
  - intros slug. cbn [fold_left]. rewrite lookup_empty. by intros r ?%elem_of_nil.
  - rewrite fold_left_app. by apply consider_ok.
Qed.

(** ** Theorems *)

(** [LongestMatchingReleases] returns, for a version that is not blank,
    exactly the most specific matching row of each product, the first of its
    longest matching cycles; no product appears twice, and every product with
    a matching cycle appears. *)
Theorem LongestMatchingReleases_spec rows version :
  TrimSpace version <> "" ->
  (forall row, row ∈ LongestMatchingReleases rows version <-> most_specific rows version row) /\
  NoDup (ProductSlug <$> LongestMatchingReleases rows version) /\
  (forall r, r ∈ rows -> cycleMatches version (cycle_of r) = true ->
     exists row, row ∈ LongestMatchingReleases rows version /\ ProductSlug row = ProductSlug r).
Proof.
  intros Hv. unfold LongestMatchingReleases. rewrite bool_decide_false by done.
  pose proof (consider_fold version rows) as Hok. set (best := fold_left _ _ _) in *.
  assert (forall slug row, best !! slug = Some row -> most_specific rows version row /\ ProductSlug row = slug)
    as Hsome by (intros slug row E; specialize (Hok slug); by rewrite E in Hok).
  assert (forall r, r ∈ rows -> cycleMatches version (cycle_of r) = true ->
    exists row, best !! ProductSlug r = Some row) as Htotal.
  { intros r Hr Hm. specialize (Hok (ProductSlug r)). destruct (best !! ProductSlug r); [eauto|].
    by destruct (Hok r Hr). }
  assert (forall row, row ∈ (map_to_list best).*2 <-> exists slug, best !! slug = Some row) as Helem.
  { intros row. rewrite list_elem_of_fmap. split.
    - intros ([slug r] & -> & H%elem_of_map_to_list). eauto.
    - intros [slug H%elem_of_map_to_list]. by exists (slug, row). }
  split_and!.
  - intros row. rewrite Helem. split; [intros (slug & E); by apply (Hsome slug)|].
    intros Hms. pose proof Hms as (i & Hi & Hm & _).
    destruct (Htotal row (list_elem_of_lookup_2 _ _ _ Hi) Hm) as [row' E].
    destruct (Hsome _ _ E) as [Hms' Hslug]. exists (ProductSlug row).
    rewrite E. f_equal. by apply (most_specific_unique rows version).
  - replace (ProductSlug <$> (map_to_list best).*2) with ((map_to_list best).*1); [apply NoDup_fst_map_to_list|].
    rewrite <- list_fmap_compose. apply list_fmap_ext. intros i [slug r] H%list_elem_of_lookup_2. simpl.
    apply elem_of_map_to_list in H. by apply Hsome in H as [_ ->].
  - intros r Hr Hm. destruct (Htotal r Hr Hm) as [row E]. exists row. rewrite Helem.
    split; [eauto|]. by apply Hsome in E as [_ ->].
Qed.

(** How far a release is in its life at [now]. *)
Inductive phase := Supported | SecurityOnly | EndsSoon | Ended.

Definition phase_of (r : Release) (now : Time) : phase :=
  if IsEOL r || dateOnOrBefore (EOLFrom r) now then Ended
  else if dateWithin (EOLFrom r) now EOLSoonWindow then EndsSoon
  else if IsEOAS r || dateOnOrBefore (EOASFrom r) now then SecurityOnly
  else Supported.

Definition phase_rank (p : phase) : Z :=
  match p with Supported => 0 | SecurityOnly => 1 | EndsSoon => 2 | Ended => 4 end.

Lemma dateOnOrBefore_mono d now now' :
  now <= now' -> dateOnOrBefore d now = true -> dateOnOrBefore d now' = true.
Proof. destruct d as [d|]; simpl; unfold After; zbool; simpl; try done; lia. Qed.

Lemma dateWithin_mono d now now' w :
  now <= now' -> dateWithin d now w = true -> dateOnOrBefore d now' = true \/ dateWithin d now' w = true.
Proof. destruct d as [d|]; simpl; unfold After, Add; zbool; simpl; auto; lia. Qed.

(** Time only moves a release forward. *)
Lemma phase_mono r now now' :
  now <= now' -> phase_rank (phase_of r now) <= phase_rank (phase_of r now').
Proof.
  intros H. unfold phase_of.
  pose proof (dateOnOrBefore_mono (EOLFrom r) now now' H).
  pose proof (dateWithin_mono (EOLFrom r) now now' EOLSoonWindow H).
  pose proof (dateOnOrBefore_mono (EOASFrom r) now now' H).
  destruct (IsEOL r), (IsEOAS r), (dateOnOrBefore (EOLFrom r) now), (dateOnOrBefore (EOLFrom r) now'),
    (dateWithin (EOLFrom r) now EOLSoonWindow), (dateWithin (EOLFrom r) now' EOLSoonWindow),
    (dateOnOrBefore (EOASFrom r) now), (dateOnOrBefore (EOASFrom r) now'); simpl; try lia; intuition congruence.
Qed.

(** The lifecycle finding of a release follows its phase and only ever
    escalates as time passes.  No finding while it is supported, LOW in
    security support, MEDIUM in the ninety days before the end, CRITICAL from
    the end on; and of these exactly the last blocks a scan whose threshold is
    NONE. *)
Theorem FindingForRelease_escalates {U : UnicodeCase} pkg row now now' :
  now <= now' ->
  let rank t := match FindingForRelease pkg row t with Some f => Rank (fSeverity f) | None => 0 end in
  let blocks t := match FindingForRelease pkg row t with
                  | Some f => FindingBlocks f SeverityNone | None => false end in
  rank now = phase_rank (phase_of (rowRelease row) now) /\
  rank now <= rank now' /\
  (blocks now = true <-> phase_of (rowRelease row) now = Ended) /\
  (blocks now = true -> blocks now' = true).
Proof.
  intros H rank blocks.
  assert (forall t, rank t = phase_rank (phase_of (rowRelease row) t)) as Hrank.
  { intros t. unfold rank, FindingForRelease, phase_of.
    destruct (_ || _); [done|]. destruct (dateWithin _ _ _); [done|]. by destruct (_ || _). }
  assert (forall t, blocks t = true <-> phase_of (rowRelease row) t = Ended) as Hblocks.
  { intros t. unfold blocks, FindingForRelease, phase_of.
    destruct (_ || _); [done|]. destruct (dateWithin _ _ _); [done|]. by destruct (_ || _). }
  pose proof (phase_mono (rowRelease row) now now' H) as Hm. rewrite !Hrank, !Hblocks. split_and!; try done.
  intros E. rewrite E in Hm. destruct (phase_of (rowRelease row) now'); simpl in Hm; try lia; done.
Qed.

(** ** Witnesses *)

Definition sample_release (cycle : string) (eol : Time) : Release :=
  mk_release cycle "" None false None false None false (Some eol) false None None None true.

Definition sample_row (cycle : string) (eol : Time) : ReleaseRow :=
  mk_row "" "pypi" "django" "django" "Django" (sample_release cycle eol).

Lemma LongestMatchingReleases_spec_witness :
  LongestMatchingReleases [sample_row "4" 10; sample_row "4.2" 20] "4.2.1" = [sample_row "4.2" 20] /\
  most_specific [sample_row "4" 10; sample_row "4.2" 20] "4.2.1" (sample_row "4.2" 20).
Proof.
  split; [vm_compute; reflexivity|].
  apply (LongestMatchingReleases_spec [sample_row "4" 10; sample_row "4.2" 20] "4.2.1");
    [vm_compute; discriminate|]. vm_compute. left.
Defined.

Lemma FindingForRelease_escalates_witness :
  match FindingForRelease (mk_query "pypi" "django" "4.2.1") (sample_row "4.2" 1000) 1500 with
  | Some f => FindingBlocks (U := plain_case) f SeverityNone | None => false end = true.
Proof.
  apply (FindingForRelease_escalates (U := plain_case) (mk_query "pypi" "django" "4.2.1")
    (sample_row "4.2" 1000) 1000 1500); [lia | vm_compute; reflexivity].
Defined.
