(* ===== verification/SyncCursor.v ===== *)
(** The cursors of the sync export: the cursor part of internal/db/sync.go, and
    the paging decisions of internal/db/postgres/sync.go.

    A client asks for a page with the cursor of the page before.  The
    vulnerabilities cursor comes in three kinds, told apart by decoding alone:
    after an advisory, inside an advisory, and the legacy key of a row. *)
From stdpp Require Import base list option strings gmap.
From Stdlib Require Import Ascii ZArith Lia.
From S2P Require Import Prelude GoStrings Json Collections JsonEncode Base64 GoTime.

(** ** Opaque cursor strings *)

Definition syncAdvisoryCursorTag : string := "advisory-v2".
Definition syncAdvisoryRowCursorTag : string := "advisory-rows-v2".

(** base64url of the JSON of a []string. *)
Definition encodeSyncCursorKey (values : list string) : string :=
  EncodeToString (marshal_array (marshal_string <$> values)).

Definition decode_values (raw : string) : option (list string) :=
  payload ← DecodeString raw; unmarshal_strings payload.

Definition decodeSyncCursorKey (raw : string) (wantParts : nat) : option (list string) :=
  values ← decode_values raw;
  if bool_decide (length values = wantParts) then Some values else None.

Definition EncodeSyncAdvisoryCursor (id : string) : string :=
  encodeSyncCursorKey [syncAdvisoryCursorTag; id].

Definition DecodeSyncAdvisoryCursor (raw : string) : option string :=
  values ← decode_values raw;
  match values with
  | [tag; id] =>
      if bool_decide (tag = syncAdvisoryCursorTag) && negb (bool_decide (id = "")) then Some id else None
  | _ => None
  end.

Definition EncodeSyncAdvisoryRowCursor (id ecosystem name : string) : string :=
  encodeSyncCursorKey [syncAdvisoryRowCursorTag; id; ecosystem; name].

Definition DecodeSyncAdvisoryRowCursor (raw : string) : option (string * string * string) :=
  values ← decode_values raw;
  match values with
  | [tag; id; ecosystem; name] =>
      if bool_decide (tag = syncAdvisoryRowCursorTag) && negb (bool_decide (id = "")) &&
         negb (bool_decide (ecosystem = "")) && negb (bool_decide (name = ""))
      then Some (id, ecosystem, name) else None
  | _ => None
  end.

(** ** The cursor of all datasets *)

Record SyncCursor := mk_cursor {
  Vulnerabilities : Z;
  Malicious : Z;
  Reputation : Z;
  Lifecycle : Z;
  VulnerabilitiesCursor : string;
  MaliciousCursor : string;
  ReputationCursor : string;
  LifecycleCursor : string;
  VulnerabilitiesDone : bool;
  MaliciousDone : bool;
  ReputationDone : bool;
  LifecycleDone : bool
}.

Definition zero_cursor : SyncCursor := mk_cursor 0 0 0 0 "" "" "" "" false false false false.

Definition cursor_IsZero (c : SyncCursor) : bool :=
  (Vulnerabilities c =? 0) && (Malicious c =? 0) && (Reputation c =? 0) && (Lifecycle c =? 0) &&
  bool_decide (VulnerabilitiesCursor c = "") && bool_decide (MaliciousCursor c = "") &&
  bool_decide (ReputationCursor c = "") && bool_decide (LifecycleCursor c = "") &&
  negb (VulnerabilitiesDone c) && negb (MaliciousDone c) && negb (ReputationDone c) && negb (LifecycleDone c).

Record SyncExportOptions := mk_options {
  Since : option Time;
  SinceXID : Z;
  SnapshotAt : Time;
  SnapshotXID : Z;
  Ecosystems : list string;
  Limit : Z;
  Offset : Z;
  Cursor : SyncCursor;
  ExcludeReputation : bool
}.

(** The same request with another offset and cursor. *)
Definition with_paging (opts : SyncExportOptions) (offset : Z) (cursor : SyncCursor) : SyncExportOptions :=
  mk_options (Since opts) (SinceXID opts) (SnapshotAt opts) (SnapshotXID opts) (Ecosystems opts) (Limit opts) offset
    cursor (ExcludeReputation opts).

Definition EffectiveCursor (opts : SyncExportOptions) : SyncCursor :=
  let cursor := Cursor opts in
  let cursor :=
    if cursor_IsZero cursor && (0 <? Offset opts)
    then mk_cursor (Offset opts) (Offset opts) (Offset opts) (Offset opts) "" "" "" "" false false false false
    else cursor in
  if ExcludeReputation opts
  then mk_cursor (Vulnerabilities cursor) (Malicious cursor) (Reputation cursor) (Lifecycle cursor)
         (VulnerabilitiesCursor cursor) (MaliciousCursor cursor) "" (LifecycleCursor cursor)
         (VulnerabilitiesDone cursor) (MaliciousDone cursor) true (LifecycleDone cursor)
  else cursor.

Inductive syncVulnerabilityPaging :=
| syncVulnerabilityRowKeyset
| syncVulnerabilityDeltaRowOffset
| syncVulnerabilityAdvisoryPages
| syncVulnerabilityAdvisorySplit.

#[export] Instance paging_eq_dec : EqDecision syncVulnerabilityPaging.
Proof. solve_decision. Defined.

Definition syncOptionsWithOffset (opts : SyncExportOptions) (offset : Z) : SyncExportOptions :=
  with_paging opts offset (Cursor opts).

Definition syncVulnerabilityPagingFor (opts : SyncExportOptions) : syncVulnerabilityPaging :=
  match Since opts with
  | None => syncVulnerabilityRowKeyset
  | Some _ =>
      let raw := VulnerabilitiesCursor (Cursor opts) in
      if negb (bool_decide (raw = "")) then
        if bool_decide (is_Some (DecodeSyncAdvisoryCursor raw)) then syncVulnerabilityAdvisoryPages
        else if bool_decide (is_Some (DecodeSyncAdvisoryRowCursor raw)) then syncVulnerabilityAdvisorySplit
        else syncVulnerabilityRowKeyset
      else if (0 <? Offset opts) || (0 <? Vulnerabilities (Cursor opts)) then syncVulnerabilityDeltaRowOffset
      else syncVulnerabilityAdvisoryPages
  end.

(** ** Lemmas *)

Lemma decode_encode values : decode_values (encodeSyncCursorKey values) = Some (ToValidUTF8 <$> values).
Proof.
  unfold decode_values, encodeSyncCursorKey. rewrite DecodeString_EncodeToString. cbn [mbind option_bind].
  apply unmarshal_marshal_strings.
Qed.

(** The text a cursor carries survives; bytes that are not UTF-8 do not. *)
Definition valid_utf8 (s : string) : Prop := ToValidUTF8 s = s.

Lemma tags_valid : ToValidUTF8 syncAdvisoryCursorTag = syncAdvisoryCursorTag /\
                   ToValidUTF8 syncAdvisoryRowCursorTag = syncAdvisoryRowCursorTag.
Proof. split; vm_compute; reflexivity. Qed.

Lemma encode_key_ne values : encodeSyncCursorKey values <> "".
Proof.
  unfold encodeSyncCursorKey, marshal_array.
  change ("[" +:+ ?x) with (String "[" x).
  destruct (Join (marshal_string <$> values) "," +:+ "]") as [|b [|c s]]; discriminate.
Qed.

Lemma decode_advisory_key values :
  DecodeSyncAdvisoryCursor (encodeSyncCursorKey values) =
  match ToValidUTF8 <$> values with
  | [tag; id] =>
      if bool_decide (tag = syncAdvisoryCursorTag) && negb (bool_decide (id = "")) then Some id else None
  | _ => None
  end.
Proof. unfold DecodeSyncAdvisoryCursor. by rewrite decode_encode. Qed.

Lemma decode_row_key values :
  DecodeSyncAdvisoryRowCursor (encodeSyncCursorKey values) =
  match ToValidUTF8 <$> values with
  | [tag; id; ecosystem; name] =>
      if bool_decide (tag = syncAdvisoryRowCursorTag) && negb (bool_decide (id = "")) &&
         negb (bool_decide (ecosystem = "")) && negb (bool_decide (name = ""))
      then Some (id, ecosystem, name) else None
  | _ => None
  end.
Proof. unfold DecodeSyncAdvisoryRowCursor. by rewrite decode_encode. Qed.

Lemma nonempty_valid s : s <> "" -> bool_decide (ToValidUTF8 s = "") = false.
Proof. intros H. apply bool_decide_eq_false. by rewrite ToValidUTF8_empty. Qed.

(** The options of a request that continues with a cursor string. *)
Definition continue_at (opts : SyncExportOptions) (raw : string) : SyncExportOptions :=
  let c := Cursor opts in
  with_paging opts (Offset opts)
    (mk_cursor (Vulnerabilities c) (Malicious c) (Reputation c) (Lifecycle c) raw (MaliciousCursor c)
       (ReputationCursor c) (LifecycleCursor c) (VulnerabilitiesDone c) (MaliciousDone c) (ReputationDone c)
       (LifecycleDone c)).

Lemma paging_of_key opts t values :
  Since opts = Some t ->
  syncVulnerabilityPagingFor (continue_at opts (encodeSyncCursorKey values)) =
  match DecodeSyncAdvisoryCursor (encodeSyncCursorKey values),
        DecodeSyncAdvisoryRowCursor (encodeSyncCursorKey values) with
  | Some _, _ => syncVulnerabilityAdvisoryPages
  | None, Some _ => syncVulnerabilityAdvisorySplit
  | None, None => syncVulnerabilityRowKeyset
  end.
Proof.
  intros Ht. unfold syncVulnerabilityPagingFor, continue_at, with_paging. cbn [Since Cursor VulnerabilitiesCursor].
  rewrite Ht. rewrite (bool_decide_eq_false_2 _ (encode_key_ne values)).
  by destruct (DecodeSyncAdvisoryCursor _), (DecodeSyncAdvisoryRowCursor _).
Qed.

#[local] Opaque EncodeToString DecodeString ToValidUTF8 unmarshal_strings encodeSyncCursorKey.

Lemma decode_advisory id : id <> "" -> DecodeSyncAdvisoryCursor (EncodeSyncAdvisoryCursor id) = Some (ToValidUTF8 id).
Proof.
  intros H. unfold EncodeSyncAdvisoryCursor. rewrite decode_advisory_key. cbn [fmap list_fmap].
  rewrite (proj1 tags_valid), bool_decide_true, nonempty_valid by done. reflexivity.
Qed.

Lemma decode_row id ecosystem name :
  id <> "" -> ecosystem <> "" -> name <> "" ->
  DecodeSyncAdvisoryRowCursor (EncodeSyncAdvisoryRowCursor id ecosystem name) =
  Some (ToValidUTF8 id, ToValidUTF8 ecosystem, ToValidUTF8 name).
Proof.
  intros H1 H2 H3. unfold EncodeSyncAdvisoryRowCursor. rewrite decode_row_key. cbn [fmap list_fmap].
  rewrite (proj2 tags_valid), bool_decide_true, !nonempty_valid by done. reflexivity.
Qed.

Lemma paging_advisory opts t id :
  Since opts = Some t -> id <> "" ->
  syncVulnerabilityPagingFor (continue_at opts (EncodeSyncAdvisoryCursor id)) = syncVulnerabilityAdvisoryPages.
Proof.
  intros Ht Hid. pose proof (decode_advisory id Hid) as Hd. unfold EncodeSyncAdvisoryCursor in *.
  rewrite (paging_of_key _ t) by exact Ht. rewrite Hd. reflexivity.
Qed.

Lemma paging_row opts t id ecosystem name :
  Since opts = Some t -> id <> "" -> ecosystem <> "" -> name <> "" ->
  syncVulnerabilityPagingFor (continue_at opts (EncodeSyncAdvisoryRowCursor id ecosystem name)) =
  syncVulnerabilityAdvisorySplit.
Proof.
  intros Ht H1 H2 H3. pose proof (decode_row id ecosystem name H1 H2 H3) as Hd.
  unfold EncodeSyncAdvisoryRowCursor in *. rewrite (paging_of_key _ t) by exact Ht.
  rewrite Hd, decode_advisory_key. cbn [fmap list_fmap]. reflexivity.
Qed.

Lemma legacy_key opts t a b c :
  Since opts = Some t ->
  decodeSyncCursorKey (encodeSyncCursorKey [a; b; c]) 3 = Some [ToValidUTF8 a; ToValidUTF8 b; ToValidUTF8 c] /\
  syncVulnerabilityPagingFor (continue_at opts (encodeSyncCursorKey [a; b; c])) = syncVulnerabilityRowKeyset.
Proof.
  intros Ht. unfold decodeSyncCursorKey. rewrite decode_encode.
  rewrite (paging_of_key _ t) by exact Ht. rewrite decode_advisory_key, decode_row_key.
  cbn [fmap list_fmap mbind option_bind]. split; reflexivity.
Qed.

(** C39: a cursor the server hands out is read back as what it was made of, and
    selects the paging it was made for: after a whole advisory, inside an
    advisory, or after a row of the legacy paging.  No cursor of one kind is
    ever taken for another, whatever texts it carries. *)
Theorem sync_cursors_roundtrip opts t id ecosystem name :
  Since opts = Some t -> id <> "" -> ecosystem <> "" -> name <> "" ->
  let paging raw := syncVulnerabilityPagingFor (continue_at opts raw) in
  let advisory := EncodeSyncAdvisoryCursor id in
  let row := EncodeSyncAdvisoryRowCursor id ecosystem name in
  DecodeSyncAdvisoryCursor advisory = Some (ToValidUTF8 id) /\
  paging advisory = syncVulnerabilityAdvisoryPages /\
  DecodeSyncAdvisoryRowCursor row = Some (ToValidUTF8 id, ToValidUTF8 ecosystem, ToValidUTF8 name) /\
  paging row = syncVulnerabilityAdvisorySplit /\
  (forall a b c, let legacy := encodeSyncCursorKey [a; b; c] in
     decodeSyncCursorKey legacy 3 = Some [ToValidUTF8 a; ToValidUTF8 b; ToValidUTF8 c] /\
     paging legacy = syncVulnerabilityRowKeyset).
Proof.
  intros Ht Hid Heco Hname paging advisory row.
  pose proof (decode_advisory id Hid) as Ha. pose proof (decode_row id ecosystem name Hid Heco Hname) as Hr.
  split_and!; [exact Ha| |exact Hr| |].
  - exact (paging_advisory opts t id Ht Hid).
  - exact (paging_row opts t id ecosystem name Ht Hid Heco Hname).
  - intros a b c legacy. exact (legacy_key opts t a b c Ht).
Qed.

Lemma sync_cursors_roundtrip_witness :
  DecodeSyncAdvisoryRowCursor (EncodeSyncAdvisoryRowCursor "GHSA-1" "npm" "<a>") = Some ("GHSA-1", "npm", "<a>").
Proof.
  destruct (sync_cursors_roundtrip (mk_options (Some 5) 0 0 0 [] 100 0 zero_cursor false) 5 "GHSA-1" "npm" "<a>" eq_refl
    ltac:(discriminate) ltac:(discriminate) ltac:(discriminate)) as (_ & _ & H & _).
  exact H.
Defined.

(** The effective cursor keeps an explicit one, expands an offset otherwise,
    and never asks for an excluded dataset. *)
Lemma EffectiveCursor_spec opts :
  let c := EffectiveCursor opts in
  (ExcludeReputation opts = true -> ReputationDone c = true /\ ReputationCursor c = "") /\
  (ExcludeReputation opts = false -> cursor_IsZero (Cursor opts) = false -> c = Cursor opts) /\
  EffectiveCursor (with_paging opts (Offset opts) c) = c.
Proof.
  assert (forall c, 0 < Vulnerabilities c -> cursor_IsZero c = false) as Hpos.
  { intros c Hc. unfold cursor_IsZero. by rewrite (proj2 (Z.eqb_neq _ _)) by lia. }
  assert (forall c, ReputationDone c = true -> cursor_IsZero c = false) as Hdone.
  { intros c Hc. unfold cursor_IsZero. rewrite Hc. cbn [negb]. by rewrite !andb_false_r. }
  destruct opts as [since xid at' sxid ecos limit offset c ex]. unfold EffectiveCursor, with_paging. cbn [Cursor Offset ExcludeReputation].
  destruct (cursor_IsZero c && (0 <? offset)) eqn:E; destruct ex;
    cbn [ReputationDone ReputationCursor]; split_and!; try done.
  - by rewrite Hdone.
  - by intros _ Hz; rewrite Hz in E.
  - apply andb_true_iff in E as [_ E]. apply Z.ltb_lt in E. by rewrite Hpos.
  - by rewrite Hdone.
  - by rewrite E.
Qed.
