(* ===== verification/SyncRows.v ===== *)
(** The rows of the sync export and their size on the wire: the row types of
    internal/db/sync.go and internal/synccontract/contract.go, and the size
    estimates of internal/db/postgres/sync_page_budget.go.

    The page builders bound a page by estimates of the JSON its rows become.
    The estimates are proved to be upper bounds of what the encoder writes. *)
From stdpp Require Import base list option strings gmap.
From Stdlib Require Import Ascii ZArith Lia.
From S2P Require Import Prelude GoStrings Json Collections JsonEncode GoTime.

(** ** Rows *)

(** A score is the text encoding/json writes for the float. *)
Record SyncVulnerability := mk_vulnerability {
  vulnID : string;
  vulnEcosystem : string;
  vulnName : string;
  vulnVersionRanges : string;
  VersionsAffected : string;
  References : string;
  vulnSeverity : string;
  CVSSScore : option string;
  EPSSScore : option string;
  EPSSPercentile : option string;
  CISAKEV : bool;
  vulnSummary : string;
  vulnSource : string;
  vulnWithdrawn : bool
}.

Record SyncMalicious := mk_malicious {
  malID : string;
  malEcosystem : string;
  malName : string;
  malVersionRanges : string;
  Versions : string;
  ReferenceURLs : string;
  malRiskType : string;
  malSeverity : string;
  malSummary : string;
  malSource : string;
  malWithdrawn : bool
}.

Record SyncReputationFinding := mk_reputation {
  repID : string;
  repEcosystem : string;
  repName : string;
  repVersion : string;
  repType : string;
  repRiskType : string;
  repSeverity : string;
  repSummary : string;
  repWithdrawn : bool
}.

Record SyncLifecycleRelease := mk_lifecycle_row {
  lifeID : string;
  lifeEcosystem : string;
  lifeName : string;
  lifeProductSlug : string;
  ProductLabel : string;
  lifeCycle : string;
  lifeLatest : string;
  lifeReleaseDate : option Time;
  lifeIsLTS : bool;
  lifeLTSFrom : option Time;
  lifeIsEOAS : bool;
  lifeEOASFrom : option Time;
  lifeIsEOL : bool;
  lifeEOLFrom : option Time;
  lifeIsDiscontinued : bool;
  lifeDiscontinuedFrom : option Time;
  lifeIsEOES : option bool;
  lifeEOESFrom : option Time;
  lifeIsMaintained : bool;
  lifeWithdrawn : bool
}.

(** ** The wire format *)

Definition marshal_bool (b : bool) : string := if b then "true" else "false".

(** A pointer: null when nil. *)
Definition marshal_ptr {A} (f : A -> string) (p : option A) : string :=
  match p with Some x => f x | None => "null" end.

(** [t.UTC().Format(time.DateOnly)] *)
Definition DateOnly (t : Time) : string :=
  let '(y, m, d) := civil (t / Second / 86400) in
  (if y <? 0 then "-" +:+ padded 4 (- y) else padded 4 y) +:+ "-" +:+ padded 2 m +:+ "-" +:+ padded 2 d.

Definition dateOnly (value : option Time) : option string := DateOnly <$> value.

(** [ResponseFromExport] for one row of each dataset, and its JSON. *)
Definition marshal_vulnerability (v : SyncVulnerability) : string :=
  marshal_members
    [("id", marshal_string (vulnID v)); ("ecosystem", marshal_string (vulnEcosystem v));
     ("name", marshal_string (vulnName v)); ("version_ranges", marshal_string (vulnVersionRanges v));
     ("versions_affected", marshal_string (VersionsAffected v)); ("references", marshal_string (References v));
     ("severity", marshal_string (vulnSeverity v)); ("cvss_score", marshal_ptr id (CVSSScore v));
     ("epss_score", marshal_ptr id (EPSSScore v)); ("epss_percentile", marshal_ptr id (EPSSPercentile v));
     ("cisa_kev", marshal_bool (CISAKEV v)); ("summary", marshal_string (vulnSummary v));
     ("source", marshal_string (vulnSource v)); ("withdrawn", marshal_bool (vulnWithdrawn v))].

Definition marshal_malicious (m : SyncMalicious) : string :=
  marshal_members
    [("id", marshal_string (malID m)); ("ecosystem", marshal_string (malEcosystem m));
     ("name", marshal_string (malName m)); ("version_ranges", marshal_string (malVersionRanges m));
     ("versions", marshal_string (Versions m)); ("reference_urls", marshal_string (ReferenceURLs m));
     ("risk_type", marshal_string (malRiskType m)); ("severity", marshal_string (malSeverity m));
     ("summary", marshal_string (malSummary m)); ("source", marshal_string (malSource m));
     ("withdrawn", marshal_bool (malWithdrawn m))].

Definition marshal_reputation (r : SyncReputationFinding) : string :=
  marshal_members
    [("id", marshal_string (repID r)); ("ecosystem", marshal_string (repEcosystem r));
     ("name", marshal_string (repName r)); ("version", marshal_string (repVersion r));
     ("type", marshal_string (repType r)); ("risk_type", marshal_string (repRiskType r));
     ("severity", marshal_string (repSeverity r)); ("summary", marshal_string (repSummary r));
     ("withdrawn", marshal_bool (repWithdrawn r))].

Definition marshal_lifecycle (l : SyncLifecycleRelease) : string :=
  let date d := marshal_ptr marshal_string (dateOnly d) in
  marshal_members
    [("id", marshal_string (lifeID l)); ("ecosystem", marshal_string (lifeEcosystem l));
     ("name", marshal_string (lifeName l)); ("product_slug", marshal_string (lifeProductSlug l));
     ("product_label", marshal_string (ProductLabel l)); ("cycle", marshal_string (lifeCycle l));
     ("latest", marshal_string (lifeLatest l)); ("release_date", date (lifeReleaseDate l));
     ("is_lts", marshal_bool (lifeIsLTS l)); ("lts_from", date (lifeLTSFrom l));
     ("is_eoas", marshal_bool (lifeIsEOAS l)); ("eoas_from", date (lifeEOASFrom l));
     ("is_eol", marshal_bool (lifeIsEOL l)); ("eol_from", date (lifeEOLFrom l));
     ("is_discontinued", marshal_bool (lifeIsDiscontinued l));
     ("discontinued_from", date (lifeDiscontinuedFrom l)); ("is_eoes", marshal_ptr marshal_bool (lifeIsEOES l));
     ("eoes_from", date (lifeEOESFrom l)); ("is_maintained", marshal_bool (lifeIsMaintained l));
     ("withdrawn", marshal_bool (lifeWithdrawn l))].

(** ** The estimates *)

Definition syncVulnerabilityRowWireOverhead : Z := 320.
Definition syncMaliciousRowWireOverhead : Z := 192.
Definition syncReputationRowWireOverhead : Z := 160.
Definition syncLifecycleRowWireOverhead : Z := 448.

(** The loop of [jsonStringWireBytes]; [fuel] bounds the number of runes. *)
Fixpoint wire_loop (fuel : nat) (n : Z) (s : string) : Z :=
  match fuel, s with
  | S fuel', String c s' =>
      let z := code c in
      if z <? 128 then
        wire_loop fuel'
          (if (z =? 34) || (z =? 92) then n + 2
           else if (z <? 32) || (z =? 60) || (z =? 62) || (z =? 38) then n + 6
           else n + 1) s'
      else match utf8_multibyte s with
           | None => wire_loop fuel' (n + 6) s'
           | Some size =>
               let rune := str_take size s in
               wire_loop fuel'
                 (if bool_decide (rune = encode_rune 8232) || bool_decide (rune = encode_rune 8233) then n + 6
                  else n + Z.of_nat size) (str_drop size s)
           end
  | _, _ => n
  end.

Definition jsonStringWireBytes (s : string) : Z := wire_loop (String.length s) 2 s.

Definition syncVulnerabilityWireBytes (row : SyncVulnerability) : Z :=
  syncVulnerabilityRowWireOverhead + jsonStringWireBytes (vulnID row) + jsonStringWireBytes (vulnEcosystem row) +
  jsonStringWireBytes (vulnName row) + jsonStringWireBytes (vulnVersionRanges row) +
  jsonStringWireBytes (VersionsAffected row) + jsonStringWireBytes (References row) +
  jsonStringWireBytes (vulnSeverity row) + jsonStringWireBytes (vulnSummary row) +
  jsonStringWireBytes (vulnSource row).

Definition syncAdvisoryIDWireBytes (id : string) : Z := jsonStringWireBytes id + 1.

Definition syncMaliciousWireBytes (row : SyncMalicious) : Z :=
  syncMaliciousRowWireOverhead + jsonStringWireBytes (malID row) + jsonStringWireBytes (malEcosystem row) +
  jsonStringWireBytes (malName row) + jsonStringWireBytes (malVersionRanges row) +
  jsonStringWireBytes (Versions row) + jsonStringWireBytes (ReferenceURLs row) +
  jsonStringWireBytes (malRiskType row) + jsonStringWireBytes (malSeverity row) +
  jsonStringWireBytes (malSummary row) + jsonStringWireBytes (malSource row).

Definition syncReputationWireBytes (row : SyncReputationFinding) : Z :=
  syncReputationRowWireOverhead + jsonStringWireBytes (repID row) + jsonStringWireBytes (repEcosystem row) +
  jsonStringWireBytes (repName row) + jsonStringWireBytes (repVersion row) + jsonStringWireBytes (repType row) +
  jsonStringWireBytes (repRiskType row) + jsonStringWireBytes (repSeverity row) +
  jsonStringWireBytes (repSummary row).

Definition syncLifecycleWireBytes (row : SyncLifecycleRelease) : Z :=
  syncLifecycleRowWireOverhead + jsonStringWireBytes (lifeID row) + jsonStringWireBytes (lifeEcosystem row) +
  jsonStringWireBytes (lifeName row) + jsonStringWireBytes (lifeProductSlug row) +
  jsonStringWireBytes (ProductLabel row) + jsonStringWireBytes (lifeCycle row) + jsonStringWireBytes (lifeLatest row).

(** ** The estimates are upper bounds *)

Definition wlen (s : string) : Z := Z.of_nat (String.length s).

Lemma wlen_app s t : wlen (s +:+ t) = wlen s + wlen t.
Proof. unfold wlen. rewrite str_len_app. lia. Qed.

Lemma escape_byte_len c :
  code c <? 128 = true ->
  wlen (if html_safe c then String c "" else escape_byte c) <=
  (if (code c =? 34) || (code c =? 92) then 2
   else if (code c <? 32) || (code c =? 60) || (code c =? 62) || (code c =? 38) then 6 else 1).
Proof. destruct c as [[] [] [] [] [] [] [] []]; try done; intros _; vm_compute; done. Qed.

Lemma unicode_escape_len z : wlen (unicode_escape z) = 6.
Proof. reflexivity. Qed.

Lemma str_take_len n s : wlen (str_take n s) <= Z.of_nat n.
Proof.
  unfold wlen. revert s. induction n as [|n IH]; intros [|c s]; simpl; try lia. specialize (IH s). lia.
Qed.

Lemma wire_loop_bound fuel n s : n + wlen (encode_body fuel s) <= wire_loop fuel n s.
Proof.
  revert n s. induction fuel as [|fuel IH]; intros n [|c s]; cbn [encode_body wire_loop]; try (change (wlen "") with 0; lia).
  cbv zeta. destruct (code c <? 128) eqn:Hc.
  - rewrite wlen_app. pose proof (escape_byte_len c Hc) as He. etransitivity; [|apply IH].
    repeat case_match; lia.
  - destruct (utf8_multibyte (String c s)) as [size|]; rewrite wlen_app;
      (etransitivity; [|apply IH]).
    + pose proof (str_take_len size (String c s)).
      case_bool_decide; [rewrite unicode_escape_len; cbn [orb]; lia|].
      case_bool_decide; [rewrite unicode_escape_len; cbn [orb]; lia|]. cbn [orb]. lia.
    + rewrite unicode_escape_len. lia.
Qed.

(** The estimate of a string is an upper bound of its JSON. *)
Lemma jsonStringWireBytes_bound s : wlen (marshal_string s) <= jsonStringWireBytes s.
Proof.
  unfold marshal_string, jsonStringWireBytes. rewrite !wlen_app. change (wlen quote) with 1.
  pose proof (wire_loop_bound (String.length s) 2 s). lia.
Qed.

Definition member_len (m : string * string) : Z := wlen (marshal_string m.1) + wlen m.2 + 2.

Lemma marshal_members_len l :
  l <> [] -> wlen (marshal_members l) = 1 + foldr (fun m n => member_len m + n) 0 l.
Proof.
  intros Hl. unfold marshal_members. rewrite !wlen_app. change (wlen "{") with 1. change (wlen "}") with 1.
  enough (wlen (Join ((fun m => marshal_string m.1 +:+ ":" +:+ m.2) <$> l) ",") + 1 =
          foldr (fun m n => member_len m + n) 0 l) by lia.
  induction l as [|m l IH]; [done|]. destruct l as [|m' l].
  - cbn [fmap list_fmap Join foldr]. unfold member_len. rewrite !wlen_app. change (wlen ":") with 1. lia.
  - specialize (IH ltac:(done)). cbn [fmap list_fmap Join foldr] in *. unfold member_len at 1.
    rewrite !wlen_app. change (wlen ":") with 1. change (wlen ",") with 1. lia.
Qed.

Lemma marshal_bool_len b : wlen (marshal_bool b) <= 5.
Proof. by destruct b. Qed.

(** A float takes at most 24 bytes, a date 16 with its quotes. *)
Definition score_fits (p : option string) : Prop := wlen (default "" p) <= 24.
Definition date_fits (d : option Time) : Prop := wlen (default "" (marshal_string <$> dateOnly d)) <= 16.

Lemma marshal_score_len p : score_fits p -> wlen (marshal_ptr id p) <= 24.
Proof. unfold score_fits. by destruct p. Qed.

Lemma marshal_date_len d : date_fits d -> wlen (marshal_ptr marshal_string (dateOnly d)) <= 16.
Proof. unfold date_fits. by destruct d. Qed.

Lemma marshal_flag_len p : wlen (marshal_ptr marshal_bool p) <= 5.
Proof. by destruct p as [[]|]. Qed.

(** The length of a row: the constant of its field names, and its values. *)
Ltac row_length :=
  rewrite marshal_members_len by done; unfold member_len; cbn [foldr fst snd];
  repeat match goal with
  | |- context [wlen (marshal_string (String ?c ?s))] =>
      let n := eval vm_compute in (wlen (marshal_string (String c s))) in
      change (wlen (marshal_string (String c s))) with n
  end.

Ltac value_bounds :=
  repeat match goal with
  | |- context [wlen (marshal_string ?s)] =>
      lazymatch goal with
      | H : wlen (marshal_string s) <= _ |- _ => fail
      | |- _ => pose proof (jsonStringWireBytes_bound s)
      end
  | |- context [wlen (marshal_bool ?b)] =>
      lazymatch goal with
      | H : wlen (marshal_bool b) <= _ |- _ => fail
      | |- _ => pose proof (marshal_bool_len b)
      end
  end.

Lemma malicious_wire row : wlen (marshal_malicious row) + 1 <= syncMaliciousWireBytes row.
Proof.
  unfold marshal_malicious, syncMaliciousWireBytes, syncMaliciousRowWireOverhead. row_length. value_bounds. lia.
Qed.

Lemma reputation_wire row : wlen (marshal_reputation row) + 1 <= syncReputationWireBytes row.
Proof.
  unfold marshal_reputation, syncReputationWireBytes, syncReputationRowWireOverhead. row_length. value_bounds. lia.
Qed.

Lemma vulnerability_wire row :
  score_fits (CVSSScore row) -> score_fits (EPSSScore row) -> score_fits (EPSSPercentile row) ->
  wlen (marshal_vulnerability row) + 1 <= syncVulnerabilityWireBytes row.
Proof.
  intros H1%marshal_score_len H2%marshal_score_len H3%marshal_score_len.
  unfold marshal_vulnerability, syncVulnerabilityWireBytes, syncVulnerabilityRowWireOverhead.
  row_length. value_bounds. lia.
Qed.

Lemma lifecycle_wire row :
  Forall date_fits [lifeReleaseDate row; lifeLTSFrom row; lifeEOASFrom row; lifeEOLFrom row;
                    lifeDiscontinuedFrom row; lifeEOESFrom row] ->
  wlen (marshal_lifecycle row) + 1 <= syncLifecycleWireBytes row.
Proof.
  rewrite !Forall_cons. intros (H1%marshal_date_len & H2%marshal_date_len & H3%marshal_date_len &
    H4%marshal_date_len & H5%marshal_date_len & H6%marshal_date_len & _).
  pose proof (marshal_flag_len (lifeIsEOES row)).
  unfold marshal_lifecycle, syncLifecycleWireBytes, syncLifecycleRowWireOverhead. cbv zeta.
  row_length. value_bounds. lia.
Qed.
