(* ===== verification/Dates.v ===== *)
(** Calendar days: the text of a date names one day.

    Scans are counted by the text of their date, and lifecycle dates travel as
    text; both rely on [DateOnly] telling days apart. *)
From stdpp Require Import base list strings.
From Stdlib Require Import Ascii ZArith Lia.
From S2P Require Import Prelude GoStrings Json Collections JsonEncode GoTime SyncRows.

Definition Day : Duration := 24 * Hour.

(** [Truncate(24 * time.Hour)] *)
Definition truncate_day (t : Time) : Time := t - t mod Day.

(** [AddDate(0, 0, n)], in UTC. *)
Definition add_days (t : Time) (n : Z) : Time := t + n * Day.

(** The number of the day since January 1, year 1. *)
Definition day_of (t : Time) : Z := t / Day.

(** ** The days of the civil calendar *)

Definition days_of (y m d : Z) : Z :=
  let y := if m <=? 2 then y - 1 else y in
  let era := y / 400 in
  let yoe := y mod 400 in
  let mp := if 2 <? m then m - 3 else m + 9 in
  let doy := (153 * mp + 2) / 5 + d - 1 in
  let doe := yoe * 365 + yoe / 4 - yoe / 100 + doy in
  era * 146097 + doe - 306.

(** The day within a 400-year era, through year, month and day and back. *)
Definition era_check (doe : Z) : bool :=
  let yoe := (doe - doe / 1460 + doe / 36524 - doe / 146096) / 365 in
  let doy := doe - (365 * yoe + yoe / 4 - yoe / 100) in
  let mp := (5 * doy + 2) / 153 in
  let d := doy - (153 * mp + 2) / 5 + 1 in
  (0 <=? yoe) && (yoe <? 400) && (0 <=? mp) && (mp <? 12) && (1 <=? d) && (d <=? 31).

(** Every day of an era has a year, a month and a day in range. *)
Lemma era_ok doe : 0 <= doe < 146097 -> era_check doe = true.
Proof.
  intros H. unfold era_check.
  set (yoe := (doe - doe / 1460 + doe / 36524 - doe / 146096) / 365).
  assert (0 <= yoe < 400) by (unfold yoe; Z.to_euclidean_division_equations; lia).
  assert (0 <= doe - (365 * yoe + yoe / 4 - yoe / 100) <= 365)
    by (unfold yoe; Z.to_euclidean_division_equations; lia).
  set (doy := doe - (365 * yoe + yoe / 4 - yoe / 100)) in *. clearbody doy yoe.
  rewrite !andb_true_iff, !Z.leb_le, !Z.ltb_lt. Z.to_euclidean_division_equations. lia.
Qed.

Lemma civil_range days : let '(y, m, d) := civil days in 1 <= m <= 12 /\ 1 <= d <= 31.
Proof.
  unfold civil. cbv zeta. set (doe := (days + 306) mod 146097).
  pose proof (era_ok doe ltac:(apply Z.mod_pos_bound; lia)) as H. unfold era_check in H.
  set (yoe := (doe - doe / 1460 + doe / 36524 - doe / 146096) / 365) in *.
  set (doy := doe - (365 * yoe + yoe / 4 - yoe / 100)) in *. set (mp := (5 * doy + 2) / 153) in *.
  rewrite !andb_true_iff, !Z.leb_le, !Z.ltb_lt in H. destruct (Z.ltb_spec mp 10); lia.
Qed.

Lemma days_of_civil days : let '(y, m, d) := civil days in days_of y m d = days.
Proof.
  unfold civil. cbv zeta. set (z := days + 306). set (doe := z mod 146097).
  pose proof (era_ok doe ltac:(apply Z.mod_pos_bound; lia)) as H. unfold era_check in H.
  set (yoe := (doe - doe / 1460 + doe / 36524 - doe / 146096) / 365) in *.
  set (doy := doe - (365 * yoe + yoe / 4 - yoe / 100)) in *. set (mp := (5 * doy + 2) / 153) in *.
  rewrite !andb_true_iff, !Z.leb_le, !Z.ltb_lt in H. unfold days_of.
  assert ((yoe + z / 146097 * 400) / 400 = z / 146097) as Hera.
  { rewrite Z.div_add by lia. rewrite Z.div_small by lia. lia. }
  assert ((yoe + z / 146097 * 400) mod 400 = yoe) as Hyoe.
  { rewrite Z.mod_add by lia. apply Z.mod_small. lia. }
  pose proof (Z.div_mod z 146097 ltac:(lia)) as Hz. fold doe in Hz.
  destruct (Z.ltb_spec mp 10) as [Hmp|Hmp].
  - destruct (Z.leb_spec (mp + 3) 2) as [|_]; [lia|]. destruct (Z.ltb_spec 2 (mp + 3)) as [_|]; [|lia].
    rewrite Z.add_0_r, Hera, Hyoe. replace (mp + 3 - 3) with mp by lia. lia.
  - destruct (Z.leb_spec (mp - 9) 2) as [_|]; [|lia]. destruct (Z.ltb_spec 2 (mp - 9)) as [|_]; [lia|].
    replace (yoe + z / 146097 * 400 + 1 - 1) with (yoe + z / 146097 * 400) by lia.
    rewrite Hera, Hyoe. replace (mp - 9 + 9) with mp by lia. lia.
Qed.

Lemma civil_inj a b : civil a = civil b -> a = b.
Proof.
  intros E. pose proof (days_of_civil a) as Ha. pose proof (days_of_civil b) as Hb. rewrite E in Ha.
  destruct (civil b) as [[y m] d]. congruence.
Qed.

(** ** Their text *)

Lemma concat_cons x l : String.concat "" (x :: l) = x +:+ String.concat "" l.
Proof. destruct l; [by rewrite str_app_nil|done]. Qed.

Lemma zeros_value n s : dec_value 0 (String.concat "" (replicate n "0") +:+ s) = dec_value 0 s.
Proof. induction n as [|n IH]; [done|]. simpl replicate. rewrite concat_cons. exact IH. Qed.

Lemma zeros_digits n : all_bytes isDigit (String.concat "" (replicate n "0")) = true.
Proof. induction n as [|n IH]; [done|]. simpl replicate. rewrite concat_cons. exact IH. Qed.

Lemma padded_value w n : 0 <= n -> dec_value 0 (padded w n) = n.
Proof. intros H. unfold padded. rewrite zeros_value. by apply itoa_nonneg_value. Qed.

Lemma padded_no_dash w n : 0 <= n -> all_bytes (not_byte "-") (padded w n) = true.
Proof.
  intros H. apply (all_bytes_impl isDigit).
  - intros c Hc. unfold not_byte. rewrite negb_true_iff, bool_decide_eq_false. intros ->. discriminate.
  - unfold padded. rewrite all_bytes_app, zeros_digits, itoa_nonneg_digits by done. done.
Qed.

Lemma civil_year_nonneg days : 0 <= days -> let '(y, _, _) := civil days in 0 <= y.
Proof.
  intros H. unfold civil. cbv zeta. set (doe := (days + 306) mod 146097).
  pose proof (era_ok doe ltac:(apply Z.mod_pos_bound; lia)) as He. unfold era_check in He.
  set (yoe := (doe - doe / 1460 + doe / 36524 - doe / 146096) / 365) in *.
  rewrite !andb_true_iff, !Z.leb_le, !Z.ltb_lt in He.
  pose proof (Z.div_pos (days + 306) 146097 ltac:(lia) ltac:(lia)).
  match goal with |- context [if ?b then 1 else 0] => destruct b end; lia.
Qed.

Lemma day_of_seconds t : t / Second / 86400 = day_of t.
Proof. unfold day_of, Day, Hour, Minute, Second. by rewrite Z.div_div by lia. Qed.

(** The text of the date of a time from year 1 on, and its parts. *)
Lemma DateOnly_split t :
  0 <= t -> let '(y, m, d) := civil (day_of t) in
  Split (DateOnly t) "-" = [padded 4 y; padded 2 m; padded 2 d] /\ 0 <= y /\ 0 <= m /\ 0 <= d.
Proof.
  intros Ht. assert (0 <= day_of t) as Hd by (apply Z.div_pos; [done|unfold Day, Hour, Minute, Second; lia]).
  unfold DateOnly. rewrite day_of_seconds.
  pose proof (civil_range (day_of t)) as Hr. pose proof (civil_year_nonneg (day_of t) Hd) as Hy.
  destruct (civil (day_of t)) as [[y m] d]. destruct Hr as [Hm Hdd].
  destruct (Z.ltb_spec y 0); [lia|]. split; [|lia].
  change (padded 4 y +:+ "-" +:+ padded 2 m +:+ "-" +:+ padded 2 d)
    with (padded 4 y +:+ String "-" (padded 2 m +:+ String "-" (padded 2 d))).
  rewrite Split_app by (by apply padded_no_dash). f_equal.
  rewrite Split_app by (apply padded_no_dash; lia). f_equal.
  apply Split_none, padded_no_dash. lia.
Qed.

(** The text of a date names its day. *)
Lemma DateOnly_day t u : 0 <= t -> 0 <= u -> DateOnly t = DateOnly u <-> day_of t = day_of u.
Proof.
  intros Ht Hu. split.
  - intros E. pose proof (DateOnly_split t Ht) as H1. pose proof (DateOnly_split u Hu) as H2.
    apply civil_inj. destruct (civil (day_of t)) as [[y m] d], (civil (day_of u)) as [[y' m'] d'].
    destruct H1 as (S1 & ? & ? & ?), H2 as (S2 & ? & ? & ?). rewrite E, S2 in S1. injection S1 as E1 E2 E3.
    apply (f_equal (dec_value 0)) in E1, E2, E3. rewrite !padded_value in E1, E2, E3 by done. congruence.
  - intros E. unfold DateOnly. by rewrite !day_of_seconds, E.
Qed.

Lemma day_of_truncate t n : day_of (add_days (truncate_day t) n) = day_of t + n.
Proof.
  unfold day_of, add_days, truncate_day. assert (0 < Day) by (unfold Day, Hour, Minute, Second; lia).
  rewrite Z.div_add by lia. f_equal. pose proof (Z.div_mod t Day ltac:(lia)).
  replace (t - t mod Day) with (t / Day * Day) by lia. apply Z.div_mul. lia.
Qed.
