(* ===== verification/TimeParse.v ===== *)
(** [time.Parse] for the two layouts the program reads, time.RFC3339Nano and
    time.DateOnly, and the round trips with the formats of [GoTime] and
    [SyncRows].

    The parser follows the layout field by field, as the library's general
    parser does: the hour may have one digit, a fraction may have any number of
    digits (nine count) and may start with a comma, a zone is "Z" or a signed
    offset, and the day is checked against the month at the end. *)
From stdpp Require Import base list option strings.
From Stdlib Require Import Ascii ZArith Lia.
From S2P Require Import Prelude GoStrings Json Collections JsonEncode GoTime SyncRows Dates.

(** ** Fields *)

Definition digit_value (c : ascii) : Z := code c - 48.

(** A number of two digits, or of one where the layout allows it. *)
Definition getnum (fixed : bool) (s : string) : option (Z * string) :=
  match s with
  | String c s' =>
      if isDigit c then
        match s' with
        | String d s'' =>
            if isDigit d then Some (digit_value c * 10 + digit_value d, s'')
            else if fixed then None else Some (digit_value c, s')
        | EmptyString => if fixed then None else Some (digit_value c, s')
        end
      else None
  | EmptyString => None
  end.

(** A number of two digits within bounds. *)
Definition getnum_in (fixed : bool) (lo hi : Z) (s : string) : option (Z * string) :=
  '(n, s) ← getnum fixed s; if (lo <=? n) && (n <=? hi) then Some (n, s) else None.

Definition long_year (s : string) : option (Z * string) :=
  let p := str_take 4 s in
  if (String.length p =? 4)%nat && all_bytes isDigit p then Some (dec_value 0 p, str_drop 4 s) else None.

Definition skip (c : ascii) (s : string) : option string :=
  match s with
  | String d s' => if bool_decide (d = c) then Some s' else None
  | EmptyString => None
  end.

Definition commaOrPeriod (c : ascii) : bool := bool_decide (c = "."%char) || bool_decide (c = ","%char).

(** [parseNanoseconds] of the digits after the point. *)
Definition parseNanoseconds (digits : string) : Z :=
  let shown := str_take 9 digits in dec_value 0 shown * 10 ^ (9 - wlen shown).

(** The optional fraction of the layout's ".999999999". *)
Definition parse_fraction (s : string) : Z * string :=
  match s with
  | String p r =>
      if commaOrPeriod p then
        let '(digits, rest) := span_digits r in
        if bool_decide (digits = "") then (0, s) else (parseNanoseconds digits, rest)
      else (0, s)
  | EmptyString => (0, s)
  end.

(** The zone "Z07:00": the offset in seconds. *)
Definition parse_zone (s : string) : option (Z * string) :=
  match s with
  | String sign r =>
      if bool_decide (sign = "Z"%char) then Some (0, r)
      else
        '(hr, r) ← getnum_in true 0 24 r;
        r ← skip ":" r;
        '(mm, r) ← getnum_in true 0 60 r;
        let offset := (hr * 60 + mm) * 60 in
        if bool_decide (sign = "+"%char) then Some (offset, r)
        else if bool_decide (sign = "-"%char) then Some (- offset, r) else None
  | EmptyString => None
  end.

(** ** Dates *)

Definition isLeap (year : Z) : bool := (year mod 4 =? 0) && (negb (year mod 100 =? 0) || (year mod 400 =? 0)).

Definition daysIn (month year : Z) : Z :=
  if month =? 2 then (if isLeap year then 29 else 28)
  else if (month =? 4) || (month =? 6) || (month =? 9) || (month =? 11) then 30 else 31.

Definition parse_date (s : string) : option (Z * Z * Z * string) :=
  '(year, s) ← long_year s;
  s ← skip "-" s;
  '(month, s) ← getnum_in true 1 12 s;
  s ← skip "-" s;
  '(day, s) ← getnum true s;
  Some (year, month, day, s).

Definition parse_clock (s : string) : option (Z * string) :=
  '(hour, s) ← getnum_in false 0 23 s;
  s ← skip ":" s;
  '(minute, s) ← getnum_in true 0 59 s;
  s ← skip ":" s;
  '(second, s) ← getnum_in true 0 59 s;
  let '(nanos, s) := parse_fraction s in
  Some (((hour * 60 + minute) * 60 + second) * Second + nanos, s).

(** The instant of the start of a day, when the month has it. *)
Definition start_of_day (year month day : Z) : option Time :=
  if (1 <=? day) && (day <=? daysIn month year) then Some (days_of year month day * Day) else None.

(** [time.Parse(time.DateOnly, s)] *)
Definition ParseDateOnly (s : string) : option Time :=
  '(year, month, day, rest) ← parse_date s;
  if bool_decide (rest = "") then start_of_day year month day else None.

(** [time.Parse(time.RFC3339Nano, s)] *)
Definition ParseRFC3339Nano (s : string) : option Time :=
  '(year, month, day, s) ← parse_date s;
  s ← skip "T" s;
  '(clock, s) ← parse_clock s;
  '(offset, rest) ← parse_zone s;
  if bool_decide (rest = "") then
    t ← start_of_day year month day; Some (t + clock - offset * Second)
  else None.

Example parse_samples :
  ParseRFC3339Nano "2000-02-29T01:01:01.12Z" = Some ((719162 + 11016) * 86400 * Second + 3661 * Second + 120000000) /\
  ParseRFC3339Nano "2000-02-29T1:01:01,12+01:00" = Some ((719162 + 11016) * 86400 * Second + 61 * Second + 120000000) /\
  ParseRFC3339Nano "1999-02-29T01:01:01Z" = None /\ ParseRFC3339Nano "2000-02-29T24:01:01Z" = None /\
  ParseDateOnly "1970-01-01" = Some (719162 * Day) /\ ParseDateOnly "1970-1-01" = None /\
  ParseDateOnly "1970-01-01T00:00:00Z" = None.
Proof. by vm_compute. Qed.

(** ** Days and months *)

Lemma doy_leap doe :
  0 <= doe < 146097 ->
  let yoe := (doe - doe / 1460 + doe / 36524 - doe / 146096) / 365 in
  let doy := doe - (365 * yoe + yoe / 4 - yoe / 100) in
  0 <= yoe < 400 /\ 0 <= doy <= 365 /\ (doy = 365 -> (yoe + 1) mod 4 = 0 /\ ((yoe + 1) mod 100 <> 0 \/ yoe = 399)).
Proof.
  intros H. cbv zeta. set (yoe := (doe - doe / 1460 + doe / 36524 - doe / 146096) / 365).
  assert (0 <= yoe < 400) by (unfold yoe; Z.to_euclidean_division_equations; lia).
  assert (0 <= doe - (365 * yoe + yoe / 4 - yoe / 100) <= 365)
    by (unfold yoe; Z.to_euclidean_division_equations; lia).
  split_and!; [lia..|]. intros E. unfold yoe in E |- *. Z.to_euclidean_division_equations; lia.
Qed.

(** A leap day falls into a leap year. *)
Lemma isLeap_era yoe era :
  0 <= yoe < 400 -> (yoe + 1) mod 4 = 0 -> (yoe + 1) mod 100 <> 0 \/ yoe = 399 ->
  isLeap (yoe + era * 400 + 1) = true.
Proof.
  intros Hy H4 H100. unfold isLeap. rewrite andb_true_iff, orb_true_iff, negb_true_iff, !Z.eqb_eq, Z.eqb_neq.
  replace (yoe + era * 400 + 1) with (yoe + 1 + era * 4 * 100) by lia.
  split; [Z.to_euclidean_division_equations; lia|].
  destruct H100 as [H|H]; [left; rewrite Z.mod_add by lia; done|].
  right. subst. Z.to_euclidean_division_equations; lia.
Qed.

Lemma civil_days_in days : let '(y, m, d) := civil days in d <= daysIn m y.
Proof.
  unfold civil. cbv zeta. set (z := days + 306). set (doe := z mod 146097).
  pose proof (doy_leap doe ltac:(apply Z.mod_pos_bound; lia)) as H. cbv zeta in H.
  set (yoe := (doe - doe / 1460 + doe / 36524 - doe / 146096) / 365) in *.
  set (doy := doe - (365 * yoe + yoe / 4 - yoe / 100)) in *. clearbody doy yoe. destruct H as (Hy & Hd & Hl).
  set (mp := (5 * doy + 2) / 153).
  assert (0 <= mp <= 11 /\ 153 * mp <= 5 * doy + 2 < 153 * mp + 153) as [Hmp Hb]
    by (unfold mp; Z.to_euclidean_division_equations; lia).
  clearbody mp. assert (mp = 11 \/ mp < 11) as [->|Hlt] by lia.
  - change (11 <? 10) with false. cbv iota. change (11 - 9) with 2. change (2 <=? 2) with true. unfold daysIn.
    change (2 =? 2) with true. cbv iota. change ((153 * 11 + 2) / 5) with 337.
    destruct (decide (doy = 365)) as [E|E].
    + destruct (Hl E) as [H4 H100]. rewrite isLeap_era by done. lia.
    + destruct (isLeap _); lia.
  - set (y := yoe + _ + _). clearbody y. unfold daysIn.
    destruct (Z.ltb_spec mp 10); (match goal with |- context [?a =? 2] => destruct (Z.eqb_spec a 2) end; [lia|]);
      destruct (_ || _) eqn:E; rewrite ?orb_true_iff, ?orb_false_iff, ?Z.eqb_eq, ?Z.eqb_neq in E;
      Z.to_euclidean_division_equations; lia.
Qed.

(** ** Texts of numbers *)

Lemma itoa_fuel_length fuel n acc w :
  0 <= n < 10 ^ Z.of_nat w -> (0 < w)%nat ->
  (String.length (itoa_fuel fuel n acc) <= w + String.length acc)%nat.
Proof.
  revert n acc w. induction fuel as [|fuel IH]; intros n acc w Hn Hw; [simpl; lia|]. simpl.
  destruct (Z.ltb_spec n 10); [simpl; lia|]. destruct w as [|[|w]]; [lia|simpl in Hn; lia|].
  rewrite Nat2Z.inj_succ, Z.pow_succ_r in Hn by lia.
  specialize (IH (n / 10) (String (digit (n mod 10)) acc) (S w)). simpl in IH |- *.
  enough (0 <= n / 10 < 10 ^ Z.of_nat (S w)) by (specialize (IH ltac:(done) ltac:(lia)); lia).
  split; [apply Z.div_pos; lia|]. apply Z.div_lt_upper_bound; lia.
Qed.

Lemma zeros_length n : String.length (String.concat "" (replicate n "0")) = n.
Proof. induction n as [|n IH]; [done|]. simpl replicate. rewrite concat_cons, str_len_app, IH. done. Qed.

Lemma padded_length w n : 0 <= n < 10 ^ Z.of_nat w -> (0 < w)%nat -> String.length (padded w n) = w.
Proof.
  intros Hn Hw. pose proof (itoa_fuel_length (S (Z.to_nat (Z.log2 n))) n "" w Hn Hw) as H.
  unfold padded. fold (itoa_nonneg n) in H. rewrite str_len_app, zeros_length. simpl in H. lia.
Qed.

Lemma padded_digits w n : 0 <= n -> all_bytes isDigit (padded w n) = true.
Proof. intros H. unfold padded. by rewrite all_bytes_app, zeros_digits, itoa_nonneg_digits. Qed.

Lemma dec_value_app s t n : dec_value n (s +:+ t) = dec_value (dec_value n s) t.
Proof.
  revert n. induction s as [|c s IH]; intros n; [done|].
  change (String c s +:+ t) with (String c (s +:+ t)). simpl. apply IH.
Qed.

Lemma dec_value_zeros k n : dec_value n (String.concat "" (replicate k "0")) = n * 10 ^ Z.of_nat k.
Proof.
  revert n. induction k as [|k IH]; intros n; [simpl; lia|]. simpl replicate. rewrite concat_cons.
  change ("0" +:+ ?x) with (String "0" x). cbn [dec_value]. rewrite IH, Nat2Z.inj_succ, Z.pow_succ_r by lia.
  change (code "0" - 48) with 0. lia.
Qed.

(** ** Parsing what was printed *)

Lemma getnum_padded fixed n t : 0 <= n < 100 -> getnum fixed (padded 2 n +:+ t) = Some (n, t).
Proof.
  intros Hn. pose proof (padded_length 2 n Hn ltac:(lia)) as Hl. pose proof (padded_digits 2 n ltac:(lia)) as Hd.
  pose proof (padded_value 2 n ltac:(lia)) as Hv. destruct (padded 2 n) as [|c [|d [|]]]; try discriminate Hl.
  rewrite !all_bytes_cons, !andb_true_iff in Hd. destruct Hd as (Hc & Hd & _).
  change (String c (String d "") +:+ t) with (String c (String d t)). unfold getnum. rewrite Hc, Hd.
  unfold digit_value. simpl in Hv. do 2 f_equal. lia.
Qed.

Lemma getnum_in_padded fixed lo hi n t :
  0 <= n < 100 -> lo <= n <= hi -> getnum_in fixed lo hi (padded 2 n +:+ t) = Some (n, t).
Proof.
  intros Hn Hb. unfold getnum_in. rewrite getnum_padded by done. cbn [mbind option_bind].
  destruct (Z.leb_spec lo n), (Z.leb_spec n hi); simpl; [done|lia..].
Qed.

Lemma skip_char c t : skip c (String c "" +:+ t) = Some t.
Proof. change (String c "" +:+ t) with (String c t). unfold skip. by rewrite bool_decide_true. Qed.

Lemma long_year_padded n t : 0 <= n < 10000 -> long_year (padded 4 n +:+ t) = Some (n, t).
Proof.
  intros Hn. unfold long_year. pose proof (padded_length 4 n Hn ltac:(lia)) as Hl.
  pose proof (str_take_app (padded 4 n) t) as Ht. pose proof (str_drop_app (padded 4 n) t 0) as Hd.
  rewrite Nat.add_0_l in Hd. rewrite Hl in Ht, Hd. rewrite Ht, Hd, Hl, padded_digits, padded_value by lia. done.
Qed.

Lemma parse_date_padded y m d t :
  0 <= y < 10000 -> 1 <= m <= 12 -> 1 <= d <= 31 ->
  parse_date (padded 4 y +:+ "-" +:+ padded 2 m +:+ "-" +:+ padded 2 d +:+ t) = Some (y, m, d, t).
Proof.
  intros Hy Hm Hd. unfold parse_date. rewrite long_year_padded by done. cbn [mbind option_bind].
  rewrite skip_char. cbn [mbind option_bind].
  rewrite getnum_in_padded by lia. cbn [mbind option_bind]. rewrite skip_char. cbn [mbind option_bind].
  rewrite getnum_padded by lia. done.
Qed.

(** The text of a time from year 0 to 9999 is read back as the start of its day. *)
Definition four_digit_year (t : Time) : Prop := let '(y, _, _) := civil (day_of t) in 0 <= y < 10000.

Lemma start_of_civil days : let '(y, m, d) := civil days in start_of_day y m d = Some (days * Day).
Proof.
  pose proof (civil_range days) as Hr. pose proof (civil_days_in days) as Hd. pose proof (days_of_civil days) as Hi.
  destruct (civil days) as [[y m] d]. unfold start_of_day. rewrite Hi.
  destruct (Z.leb_spec 1 d), (Z.leb_spec d (daysIn m y)); simpl; [done|lia..].
Qed.

Lemma ParseDateOnly_DateOnly t : four_digit_year t -> ParseDateOnly (DateOnly t) = Some (truncate_day t).
Proof.
  intros Hy. unfold four_digit_year in Hy. unfold ParseDateOnly, DateOnly. rewrite day_of_seconds.
  pose proof (civil_range (day_of t)) as Hr. pose proof (start_of_civil (day_of t)) as Hs.
  destruct (civil (day_of t)) as [[y m] d]. destruct (Z.ltb_spec y 0); [lia|].
  rewrite <- (str_app_nil (padded 2 d)), parse_date_padded by lia. cbn [mbind option_bind].
  rewrite bool_decide_true, Hs by done. f_equal. unfold truncate_day, day_of.
  pose proof (Z.div_mod t Day ltac:(unfold Day, Hour, Minute, Second; lia)). lia.
Qed.

(** *** The fraction *)

Lemma trim_zeros_spec fuel s : exists k, s = trim_zeros fuel s +:+ String.concat "" (replicate k "0").
Proof.
  revert s. induction fuel as [|fuel IH]; intros s; [exists 0%nat; symmetry; apply str_app_nil|]. simpl.
  destruct (HasSuffix s "0") eqn:E; [|exists 0%nat; symmetry; apply str_app_nil].
  assert (exists r, s = r +:+ "0") as [r ->].
  { unfold HasSuffix in E. apply HasPrefix_spec in E as [r Hr]. exists (String.rev r).
    rewrite <- (rev_involutive s), Hr. apply (rev_app "0" r). }
  assert (TrimSuffix (r +:+ "0") "0" = r) as ->.
  { unfold TrimSuffix. rewrite E, str_len_app. simpl String.length. rewrite Nat.add_sub. apply str_take_app. }
  destruct (IH r) as [k Hk]. exists (S k). rewrite Hk at 1. rewrite str_app_assoc. f_equal.
  clear. induction k as [|k IH]; [done|]. simpl replicate in *. rewrite !concat_cons in *.
  rewrite str_app_assoc, IH. done.
Qed.

(** The digits of a fraction, without its trailing zeros. *)
Lemma fraction_digits nanos :
  0 <= nanos < Second ->
  exists shown, fraction 9 nanos = (if bool_decide (shown = "") then "" else "." +:+ shown) /\
    all_bytes isDigit shown = true /\ (String.length shown <= 9)%nat /\ parseNanoseconds shown = nanos.
Proof.
  intros Hn. pose proof (padded_length 9 nanos Hn ltac:(lia)) as Hl.
  assert (str_take 9 (padded 9 nanos) = padded 9 nanos) as Ht.
  { pose proof (str_take_app (padded 9 nanos) "") as H. by rewrite str_app_nil, Hl in H. }
  exists (trim_zeros 9 (padded 9 nanos)). unfold fraction. rewrite Ht. split; [done|].
  destruct (trim_zeros_spec 9 (padded 9 nanos)) as [k Hk]. set (shown := trim_zeros 9 (padded 9 nanos)) in *.
  pose proof (padded_digits 9 nanos ltac:(lia)) as Hd. rewrite Hk, all_bytes_app, andb_true_iff in Hd.
  rewrite Hk, str_len_app, zeros_length in Hl. split_and!; [apply Hd|lia|].
  unfold parseNanoseconds. pose proof (str_take_app shown "") as Hs. rewrite str_app_nil in Hs.
  assert (str_take 9 shown = shown) as ->.
  { rewrite <- Hl. rewrite Nat.add_comm. clear. revert k. induction shown as [|c s IH]; intros k.
    - rewrite Nat.add_0_r. by destruct k.
    - simpl. rewrite Nat.add_comm. simpl. rewrite Nat.add_comm, IH. done. }
  pose proof (padded_value 9 nanos ltac:(lia)) as Hv. rewrite Hk, dec_value_app, dec_value_zeros in Hv.
  unfold wlen. replace (9 - Z.of_nat (String.length shown)) with (Z.of_nat k) by lia. done.
Qed.

Lemma parse_fraction_Z nanos :
  0 <= nanos < Second -> parse_fraction (fraction 9 nanos +:+ "Z") = (nanos, "Z").
Proof.
  intros Hn. destruct (fraction_digits nanos Hn) as (shown & -> & Hd & Hl & Hv).
  case_bool_decide as E; [rewrite E in Hv; by rewrite <- Hv|].
  change (("." +:+ shown) +:+ "Z") with (String "." (shown +:+ "Z")). unfold parse_fraction.
  change (commaOrPeriod ".") with true. cbv iota. rewrite span_digits_app by done.
  rewrite bool_decide_false by done. by rewrite Hv.
Qed.

(** *** Instants *)

Lemma clock_parts s : 0 <= s < 86400 -> 0 <= s / 3600 <= 23 /\ 0 <= s / 60 mod 60 <= 59 /\ 0 <= s mod 60 <= 59 /\
  (s / 3600 * 60 + s / 60 mod 60) * 60 + s mod 60 = s.
Proof. intros. Z.to_euclidean_division_equations; lia. Qed.

(** Parsing inverts formatting for the years RFC 3339 can write. *)
Lemma ParseRFC3339Nano_RFC3339Nano t : four_digit_year t -> ParseRFC3339Nano (RFC3339Nano t) = Some t.
Proof.
  intros Hy. unfold four_digit_year in Hy. unfold RFC3339Nano, format_time. rewrite day_of_seconds.
  pose proof (civil_range (day_of t)) as Hr. pose proof (start_of_civil (day_of t)) as Hs.
  destruct (civil (day_of t)) as [[y m] d]. set (s := t / Second mod 86400).
  pose proof (clock_parts s ltac:(apply Z.mod_pos_bound; lia)) as (Hh & Hm & Hsec & Hclock).
  unfold ParseRFC3339Nano. rewrite parse_date_padded by lia. cbn [mbind option_bind].
  rewrite skip_char. cbn [mbind option_bind]. unfold parse_clock. rewrite getnum_in_padded by lia.
  cbn [mbind option_bind]. rewrite skip_char. cbn [mbind option_bind]. rewrite getnum_in_padded by lia.
  cbn [mbind option_bind]. rewrite skip_char. cbn [mbind option_bind]. rewrite getnum_in_padded by lia.
  cbn [mbind option_bind]. rewrite parse_fraction_Z by (apply Z.mod_pos_bound; unfold Second; lia).
  cbn [mbind option_bind parse_zone]. rewrite bool_decide_true by done. cbn [mbind option_bind].
  rewrite bool_decide_true, Hs by done. cbn [mbind option_bind]. f_equal. rewrite Hclock.
  pose proof (Z.div_mod t Second ltac:(unfold Second; lia)) as H1.
  pose proof (Z.div_mod (t / Second) 86400 ltac:(lia)) as H2. rewrite day_of_seconds in H2. fold s in H2.
  unfold Day, Hour, Minute. unfold Second in *. lia.
Qed.

(** The text of an instant has no white space. *)
Lemma RFC3339Nano_visible t : four_digit_year t -> all_bytes visible (RFC3339Nano t) = true.
Proof.
  assert (forall s, all_bytes isDigit s = true -> all_bytes visible s = true) as Hv.
  { intros s. apply all_bytes_impl. intros c. unfold isDigit, visible. byte_cases. }
  unfold four_digit_year, RFC3339Nano, format_time. rewrite day_of_seconds. pose proof (civil_range (day_of t)) as Hr.
  destruct (civil (day_of t)) as [[y m] d]. intros Hy. set (s := t / Second mod 86400).
  pose proof (clock_parts s ltac:(apply Z.mod_pos_bound; lia)) as (Hh & Hm & Hsec & _).
  destruct (fraction_digits (t mod Second) ltac:(apply Z.mod_pos_bound; unfold Second; lia)) as (shown & -> & Hd & _).
  rewrite !all_bytes_app, !(Hv (padded _ _)) by (apply padded_digits; lia).
  case_bool_decide; [reflexivity|]. rewrite all_bytes_app, (Hv shown) by done. reflexivity.
Qed.

Lemma four_digit_year_range t : 0 <= t < 3652059 * Day -> four_digit_year t.
Proof.
  intros Ht. assert (0 < Day) by (unfold Day, Hour, Minute, Second; lia).
  assert (0 <= day_of t < 3652059) as Hd.
  { unfold day_of. split; [apply Z.div_pos; lia|]. apply Z.div_lt_upper_bound; lia. }
  unfold four_digit_year. set (days := day_of t) in *. clearbody days. clear t Ht H.
  unfold civil. cbv zeta. set (z := days + 306). set (doe := z mod 146097).
  pose proof (Z.div_mod z 146097 ltac:(lia)) as Hz. fold doe in Hz.
  pose proof (Z.mod_pos_bound z 146097 ltac:(lia)) as Hdoe. fold doe in Hdoe.
  pose proof (doy_leap doe Hdoe) as Hy. cbv zeta in Hy.
  set (yoe := (doe - doe / 1460 + doe / 36524 - doe / 146096) / 365) in *. destruct Hy as (Hy & Hdoy & _).
  assert (0 <= z / 146097 <= 24) as He by lia. set (era := z / 146097) in *. clearbody era.
  destruct (decide (yoe + era * 400 < 9999)); [case_match; lia|].
  assert (yoe = 399) as E by lia. assert (era = 24) as -> by lia. rewrite E in *.
  change (365 * 399 + 399 / 4 - 399 / 100) with 145731 in *. clearbody yoe doe. clear E.
  set (mp := (5 * (doe - 145731) + 2) / 153).
  assert (mp < 10) by (unfold mp; Z.to_euclidean_division_equations; lia).
  assert (0 <= mp) by (unfold mp; Z.to_euclidean_division_equations; lia).
  destruct (Z.ltb_spec mp 10); [|lia]. destruct (Z.leb_spec (mp + 3) 2); lia.
Qed.
