(* ===== verification/SyncPages.v ===== *)
(** The pages of the sync export: the page builders of
    internal/db/postgres/sync_page_budget.go, and what internal/db/postgres/sync.go
    makes of their pages.

    A builder is offered the rows of a query in order and takes them while the
    page stays within its byte budget, always at least one.  The query itself
    is SQL: its result is the argument here, and what the builders rely on of
    it (rows of one advisory come together) is a hypothesis of the theorems.
    Sizes are sums of string lengths in memory, so they stay far below the limit
    of an int. *)
From stdpp Require Import base list option strings gmap.
From Stdlib Require Import Ascii ZArith Lia.
From S2P Require Import Prelude GoStrings Json Collections JsonEncode Base64 GoTime SyncCursor SyncRows.

Definition SyncVulnerabilityPageByteBudget : Z := 12 * 2 ^ 20.
Definition SyncMaliciousPageByteBudget : Z := 8 * 2 ^ 20.
Definition SyncReputationPageByteBudget : Z := 4 * 2 ^ 20.
Definition SyncLifecyclePageByteBudget : Z := 4 * 2 ^ 20.
Definition MaxResponseBytes : Z := 32 * 1024 * 1024.

(** ** Datasets paged by rows *)

Record syncRowPage (T : Type) := mk_row_page { pageRows : list T; pageHasMore : bool }.
Arguments mk_row_page {T} _ _.
Arguments pageRows {T} _.
Arguments pageHasMore {T} _.

Record syncRowPageBuilder (T : Type) := mk_row_builder {
  rowLimit : Z;
  rowBudget : Z;
  rowPage : syncRowPage T;
  rowUsed : Z;
  rowStopped : bool
}.
Arguments mk_row_builder {T} _ _ _ _ _.
Arguments rowLimit {T} _.
Arguments rowBudget {T} _.
Arguments rowPage {T} _.
Arguments rowUsed {T} _.
Arguments rowStopped {T} _.

Section row_pages.
Context {T : Type} (wireBytes : T -> Z).

Definition newSyncRowPageBuilder (limit budget : Z) : syncRowPageBuilder T :=
  mk_row_builder limit (if limit <=? 0 then int64_max else budget) (mk_row_page [] false) 0 false.

Definition row_add (item : T) (b : syncRowPageBuilder T) : bool * syncRowPageBuilder T :=
  if rowStopped b then (false, b)
  else
    let size := wireBytes item in
    if (0 <? Z.of_nat (length (pageRows (rowPage b)))) && (rowBudget b <? rowUsed b + size)
    then (false, mk_row_builder (rowLimit b) (rowBudget b) (rowPage b) (rowUsed b) true)
    else (true, mk_row_builder (rowLimit b) (rowBudget b)
                  (mk_row_page (pageRows (rowPage b) ++ [item]) (pageHasMore (rowPage b)))
                  (rowUsed b + size) false).

Definition row_finish (b : syncRowPageBuilder T) : syncRowPage T :=
  mk_row_page (pageRows (rowPage b))
    (rowStopped b || (0 <? rowLimit b) && (Z.of_nat (length (pageRows (rowPage b))) =? rowLimit b)).

(** The exporters' loop over the query result: stop at the first refusal. *)
Fixpoint row_feed (items : list T) (b : syncRowPageBuilder T) : syncRowPageBuilder T :=
  match items with
  | [] => b
  | item :: rest => let '(ok, b) := row_add item b in if ok then row_feed rest b else b
  end.

Definition row_page (limit budget : Z) (items : list T) : syncRowPage T :=
  row_finish (row_feed items (newSyncRowPageBuilder limit budget)).

(** ** Lemmas *)

Definition bytes_of (items : list T) : Z := foldr (fun x n => wireBytes x + n) 0 items.

Lemma bytes_of_snoc l x : bytes_of (l ++ [x]) = bytes_of l + wireBytes x.
Proof. unfold bytes_of. induction l as [|y l IH]; simpl in *; lia. Qed.

(** The builder after it took the rows [taken], with a row limit. *)
Definition took (limit budget : Z) (taken : list T) : syncRowPageBuilder T :=
  mk_row_builder limit budget (mk_row_page taken false) (bytes_of taken) false.

Lemma row_feed_spec limit budget taken items :
  exists k, (k <= length items)%nat /\
    pageRows (rowPage (row_feed items (took limit budget taken))) = taken ++ take k items /\
    rowLimit (row_feed items (took limit budget taken)) = limit /\
    rowStopped (row_feed items (took limit budget taken)) = negb (bool_decide (k = length items)) /\
    (taken = [] -> items <> [] -> (0 < k)%nat) /\
    ((0 < k)%nat -> bytes_of (taken ++ take k items) <= budget \/ length (taken ++ take k items) = 1%nat).
Proof.
  revert taken. induction items as [|x items IH]; intros taken.
  { exists 0%nat. cbn [row_feed took rowPage pageRows rowStopped rowLimit take length]. rewrite app_nil_r.
    split_and!; try done; lia. }
  cbn [row_feed]. unfold row_add, took. cbn [rowStopped rowPage pageRows rowBudget rowUsed rowLimit pageHasMore].
  destruct (_ && _) eqn:E.
  { apply andb_true_iff in E as [Hn _]. apply Z.ltb_lt in Hn. exists 0%nat.
    cbn [rowPage pageRows rowStopped rowLimit take]. rewrite app_nil_r.
    split_and!; try done; try (simpl; lia). intros ->. simpl in Hn. lia. }
  rewrite <- bytes_of_snoc. fold (took limit budget (taken ++ [x])).
  destruct (IH (taken ++ [x])) as (k & Hk & H1 & H2 & H3 & _ & H5). exists (S k).
  rewrite H1, H2, H3. cbn [take length]. rewrite <- app_assoc. cbn [app].
  split_and!; try done; try lia.
  - f_equal. repeat case_bool_decide; lia || done.
  - intros _. destruct k as [|k]; [|rewrite <- app_assoc in H5; apply H5; lia]. cbn [take].
    apply andb_false_iff in E as [E|E]; rewrite Z.ltb_ge in E.
    + right. destruct taken; simpl in *; [done|lia].
    + left. rewrite bytes_of_snoc. lia.
Qed.

(** One page: a prefix of the rows, not empty when there are rows, within the
    budget unless it is a single row; it continues exactly when rows were
    refused or the limit was reached. *)
Lemma row_page_spec limit budget items :
  0 < limit ->
  let page := row_page limit budget items in
  exists k, (k <= length items)%nat /\ pageRows page = take k items /\ (items <> [] -> (0 < k)%nat) /\
    (bytes_of (take k items) <= Z.max 0 budget \/ k = 1%nat) /\
    pageHasMore page = negb (bool_decide (k = length items)) || (Z.of_nat (length items) =? limit).
Proof.
  intros Hl page. unfold page, row_page, newSyncRowPageBuilder, row_finish.
  rewrite (proj2 (Z.leb_gt _ _)) by lia.
  change (mk_row_builder limit budget (mk_row_page [] false) 0 false) with (took limit budget []).
  destruct (row_feed_spec limit budget [] items) as (k & Hk & H1 & H2 & H3 & H4 & H5).
  exists k. cbn [app] in *. cbn [pageRows pageHasMore]. rewrite H1, H2, H3. cbn [app].
  split_and!; try done; [by apply H4| |].
  - destruct k as [|k]; [left; simpl; lia|]. destruct H5 as [H5|H5]; [lia|left; lia|].
    right. rewrite length_take in H5. lia.
  - rewrite (proj2 (Z.ltb_lt _ _)) by lia. cbn [andb]. rewrite length_take.
    case_bool_decide; cbn [negb orb]; [|done]. by rewrite Nat.min_l by lia; subst k.
Qed.

(** ** Paging through a dataset *)

(** The rows the query of a page returns, when [rest] are the rows after the
    cursor: keyset order with a LIMIT. *)
Definition query_rows (limit : Z) (rest : list T) : list T := take (Z.to_nat limit) rest.

(** The pages a client gets when it asks again as long as the dataset
    continues, each request after the last row of the page before; [None] when
    [fuel] requests do not come to an end. *)
Fixpoint row_pages (fuel : nat) (limit budget : Z) (rest : list T) : option (list (list T)) :=
  match fuel with
  | O => None
  | S fuel' =>
      let page := row_page limit budget (query_rows limit rest) in
      if pageHasMore page
      then pages ← row_pages fuel' limit budget (drop (length (pageRows page)) rest);
           Some (pageRows page :: pages)
      else Some [pageRows page]
  end.

(** Paging through a dataset terminates and delivers every row once, in
    order.  With a positive limit, at most one request more than there are rows
    suffices; every page holds at most the limit of rows; and its estimated
    bytes stay within the budget unless it is a single row. *)
Theorem row_pages_cover limit budget items :
  0 < limit ->
  exists pages, row_pages (S (length items)) limit budget items = Some pages /\
    concat pages = items /\
    Forall (fun p => Z.of_nat (length p) <= limit /\
                     (bytes_of p <= Z.max 0 budget \/ length p = 1%nat)) pages.
Proof.
  intros Hl. remember (S (length items)) as fuel eqn:Hf. revert items Hf.
  enough (forall items, (length items < fuel)%nat ->
    exists pages, row_pages fuel limit budget items = Some pages /\ concat pages = items /\
      Forall (fun p => Z.of_nat (length p) <= limit /\ (bytes_of p <= Z.max 0 budget \/ length p = 1%nat)) pages)
    as H by (intros items ->; apply H; lia).
  induction fuel as [|fuel IH]; intros items Hlen; [lia|]. cbn [row_pages]. cbv zeta.
  destruct (row_page_spec limit budget (query_rows limit items) Hl) as (k & Hk & H1 & H2 & H3 & H4).
  unfold query_rows in *. rewrite H4, H1. clear H1 H4. rewrite !length_take in *.
  assert (take k (take (Z.to_nat limit) items) = take k items) as Htt by (rewrite take_take; f_equal; lia).
  rewrite Htt in *. clear Htt.
  assert (Z.of_nat (length (take k items)) <= limit /\
    (bytes_of (take k items) <= Z.max 0 budget \/ length (take k items) = 1%nat)) as Hpage.
  { rewrite length_take. split; [lia|]. destruct H3 as [H3|H3]; [by left|right; lia]. }
  destruct (negb _ || _) eqn:Hmore.
  - assert (0 < k)%nat as Hpos.
    { destruct k as [|k]; [|lia]. apply H2. intros Hnil. apply (f_equal length) in Hnil.
      rewrite length_take in Hnil. cbn [length] in Hnil. apply orb_true_iff in Hmore as [Hm|Hm].
      - rewrite bool_decide_true in Hm by lia. done.
      - apply Z.eqb_eq in Hm. lia. }
    rewrite Nat.min_l by lia.
    destruct (IH (drop k items)) as (pages & -> & Hc & Hp); [rewrite length_drop; lia|].
    eexists. split; [reflexivity|]. cbn [concat]. rewrite Hc.
    split; [apply take_drop|by constructor].
  - eexists. split; [reflexivity|]. cbn [concat]. rewrite app_nil_r. split; [|by apply Forall_singleton].
    apply orb_false_iff in Hmore as [Hm1 Hm2]. apply negb_false_iff, bool_decide_eq_true_1 in Hm1.
    apply Z.eqb_neq in Hm2. apply take_ge. lia.
Qed.
End row_pages.

(** ** Vulnerabilities *)

Record syncVulnerabilityPage := mk_vuln_page {
  vRows : list SyncVulnerability;
  vHasMore : bool;
  vWithoutAffected : list string;
  vLastAdvisoryID : string;
  vNextCursor : string;
  vSplit : bool;
  vSplitAdvisoryID : string;
  vSplitStart : bool;
  vSplitLast : bool;
  vSplitComplete : bool
}.

Definition newSyncAdvisoryPage : syncVulnerabilityPage :=
  mk_vuln_page [] false [] "" "" false "" false false false.

(** [syncVulnerabilityPage.add] *)
Definition page_add (item : SyncVulnerability) (withoutAffected : bool) (p : syncVulnerabilityPage)
    : syncVulnerabilityPage :=
  mk_vuln_page (if withoutAffected then vRows p else vRows p ++ [item]) (vHasMore p)
    (if withoutAffected then vWithoutAffected p ++ [vulnID item] else vWithoutAffected p) (vulnID item)
    (vNextCursor p) (vSplit p) (vSplitAdvisoryID p) (vSplitStart p) (vSplitLast p) (vSplitComplete p).

Record syncVulnerabilityPageBuilder := mk_vuln_builder {
  paging : syncVulnerabilityPaging;
  vLimit : Z;
  splitID : string;
  vBudget : Z;
  vPage : syncVulnerabilityPage;
  vUsed : Z;
  sqlHasMore : bool;
  vStopped : bool;
  currentID : string;
  currentRows : nat;
  currentMarkers : nat;
  lastWholeID : string
}.

Definition newSyncVulnerabilityPageBuilder (pg : syncVulnerabilityPaging) (limit : Z) (split : string) (budget : Z)
    : syncVulnerabilityPageBuilder :=
  mk_vuln_builder pg limit split (if limit <=? 0 then int64_max else budget) newSyncAdvisoryPage 0 false false
    "" 0 0 "".

(** [b.stopped = true] *)
Definition stop (b : syncVulnerabilityPageBuilder) : syncVulnerabilityPageBuilder :=
  mk_vuln_builder (paging b) (vLimit b) (splitID b) (vBudget b) (vPage b) (vUsed b) (sqlHasMore b) true
    (currentID b) (currentRows b) (currentMarkers b) (lastWholeID b).

Definition set_page (p : syncVulnerabilityPage) (b : syncVulnerabilityPageBuilder) : syncVulnerabilityPageBuilder :=
  mk_vuln_builder (paging b) (vLimit b) (splitID b) (vBudget b) p (vUsed b) (sqlHasMore b) (vStopped b)
    (currentID b) (currentRows b) (currentMarkers b) (lastWholeID b).

(** [None] when the last row of an empty slice is read (a panic). *)
Definition stopAdvisoryPage (b : syncVulnerabilityPageBuilder) : option syncVulnerabilityPageBuilder :=
  let p := vPage b in
  if negb (bool_decide (lastWholeID b = ""))
  then Some (set_page (mk_vuln_page (take (currentRows b) (vRows p)) true
                         (take (currentMarkers b) (vWithoutAffected p)) (lastWholeID b)
                         (EncodeSyncAdvisoryCursor (lastWholeID b)) (vSplit p) (vSplitAdvisoryID p) (vSplitStart p)
                         (vSplitLast p) (vSplitComplete p)) (stop b))
  else
    row ← last (vRows p);
    Some (set_page (mk_vuln_page (vRows p) true (vWithoutAffected p) (vLastAdvisoryID p)
                      (EncodeSyncAdvisoryRowCursor (vulnID row) (vulnEcosystem row) (vulnName row)) true
                      (vulnID row) true (vSplitLast p) (vSplitComplete p)) (stop b)).

(** The advisory of an advisory page's row becomes the current one. *)
Definition see_advisory (item : SyncVulnerability) (hasMore : bool) (b : syncVulnerabilityPageBuilder)
    : syncVulnerabilityPageBuilder :=
  let fresh := negb (bool_decide (vulnID item = currentID b)) in
  mk_vuln_builder (paging b) (vLimit b) (splitID b) (vBudget b) (vPage b) (vUsed b) hasMore (vStopped b)
    (if fresh then vulnID item else currentID b)
    (if fresh then length (vRows (vPage b)) else currentRows b)
    (if fresh then length (vWithoutAffected (vPage b)) else currentMarkers b)
    (if fresh then currentID b else lastWholeID b).

Definition row_size (item : SyncVulnerability) (withoutAffected : bool) : Z :=
  if withoutAffected then syncAdvisoryIDWireBytes (vulnID item) else syncVulnerabilityWireBytes item.

(** The end of [add]: the row is taken. *)
Definition accept (item : SyncVulnerability) (withoutAffected : bool) (b : syncVulnerabilityPageBuilder)
    : syncVulnerabilityPageBuilder :=
  mk_vuln_builder (paging b) (vLimit b) (splitID b) (vBudget b) (page_add item withoutAffected (vPage b))
    (vUsed b + row_size item withoutAffected) (sqlHasMore b) (vStopped b)
    (currentID b) (currentRows b) (currentMarkers b) (lastWholeID b).

Definition vuln_add (item : SyncVulnerability) (withoutAffected hasMore : bool) (b : syncVulnerabilityPageBuilder)
    : option (bool * syncVulnerabilityPageBuilder) :=
  if vStopped b then Some (false, b)
  else
    let size := row_size item withoutAffected in
    let fits := (vUsed b + size <=? vBudget b) ||
      bool_decide (vRows (vPage b) = []) && bool_decide (vWithoutAffected (vPage b) = []) in
    match paging b with
    | syncVulnerabilityAdvisoryPages =>
        let b := see_advisory item hasMore b in
        if negb fits then b ← stopAdvisoryPage b; Some (false, b)
        else Some (true, accept item withoutAffected b)
    | syncVulnerabilityAdvisorySplit =>
        if negb fits || (0 <? vLimit b) && (Z.of_nat (length (vRows (vPage b))) =? vLimit b)
        then Some (false, stop b)
        else Some (true, accept item withoutAffected b)
    | _ => if negb fits then Some (false, stop b) else Some (true, accept item withoutAffected b)
    end.

Definition vuln_finish (b : syncVulnerabilityPageBuilder) : syncVulnerabilityPage :=
  let p := vPage b in
  match paging b with
  | syncVulnerabilityAdvisoryPages =>
      if vStopped b then p
      else mk_vuln_page (vRows p) (sqlHasMore b) (vWithoutAffected p) (vLastAdvisoryID p) (vNextCursor p) (vSplit p)
             (vSplitAdvisoryID p) (vSplitStart p) (vSplitLast p) (vSplitComplete p)
  | syncVulnerabilityAdvisorySplit =>
      match (if vStopped b then last (vRows p) else None) with
      | Some row =>
          mk_vuln_page (vRows p) true (vWithoutAffected p) (vLastAdvisoryID p)
            (EncodeSyncAdvisoryRowCursor (vulnID row) (vulnEcosystem row) (vulnName row)) true (splitID b)
            (vSplitStart p) (vSplitLast p) (vSplitComplete p)
      | None =>
          mk_vuln_page (vRows p) true (vWithoutAffected p) (splitID b) (EncodeSyncAdvisoryCursor (splitID b)) true
            (splitID b) (vSplitStart p) true (vSplitComplete p)
      end
  | _ =>
      mk_vuln_page (vRows p)
        (vStopped b || (0 <? vLimit b) && (Z.of_nat (length (vRows p)) =? vLimit b)) (vWithoutAffected p)
        (vLastAdvisoryID p) (vNextCursor p) (vSplit p) (vSplitAdvisoryID p) (vSplitStart p) (vSplitLast p)
        (vSplitComplete p)
  end.

(** One row of the query: the row, the marker of an advisory without affected
    rows, and whether advisories follow the page. *)
Record query_row := mk_query_row { qItem : SyncVulnerability; qMarker : bool; qMore : bool }.

Fixpoint vuln_feed (items : list query_row) (b : syncVulnerabilityPageBuilder)
    : option syncVulnerabilityPageBuilder :=
  match items with
  | [] => Some b
  | q :: rest =>
      match vuln_add (qItem q) (qMarker q) (qMore q) b with
      | Some (true, b) => vuln_feed rest b
      | Some (false, b) => Some b
      | None => None
      end
  end.

(** [exportSyncVulnerabilities] on the query result. *)
Definition vuln_page (pg : syncVulnerabilityPaging) (limit : Z) (split : string) (budget : Z) (items : list query_row)
    : option syncVulnerabilityPage :=
  b ← vuln_feed items (newSyncVulnerabilityPageBuilder pg limit split budget);
  Some (vuln_finish b).

(** ** Advisory pages *)

Definition qid (q : query_row) : string := vulnID (qItem q).
Definition qsize (q : query_row) : Z := row_size (qItem q) (qMarker q).

Definition rows_of (l : list query_row) : list SyncVulnerability := qItem <$> filter (fun q => qMarker q = false) l.
Definition markers_of (l : list query_row) : list string := qid <$> filter (fun q => qMarker q = true) l.
Definition last_id (l : list query_row) : string := default "" (qid <$> last l).

(** What the query promises: advisories have identifiers, the rows of an
    advisory come together, and a marker is the only row of its advisory. *)
Record query_ok (items : list query_row) : Prop := {
  query_ids : Forall (fun q => qid q <> "") items;
  query_grouped : forall l x m y r, items = l ++ x :: m ++ y :: r -> qid x = qid y -> Forall (fun z => qid z = qid x) m;
  query_markers : forall l x m y r, items = l ++ x :: m ++ y :: r -> qid x = qid y -> qMarker x = false
}.

Lemma rows_of_app l l' : rows_of (l ++ l') = rows_of l ++ rows_of l'.
Proof. unfold rows_of. by rewrite filter_app, fmap_app. Qed.

Lemma markers_of_app l l' : markers_of (l ++ l') = markers_of l ++ markers_of l'.
Proof. unfold markers_of. by rewrite filter_app, fmap_app. Qed.

Lemma page_add_rows q p l :
  vRows p = rows_of l -> vWithoutAffected p = markers_of l ->
  vRows (page_add (qItem q) (qMarker q) p) = rows_of (l ++ [q]) /\
  vWithoutAffected (page_add (qItem q) (qMarker q) p) = markers_of (l ++ [q]).
Proof.
  intros H1 H2. rewrite rows_of_app, markers_of_app. unfold page_add, rows_of at 2, markers_of at 2.
  cbn [vRows vWithoutAffected]. rewrite H1, H2.
  destruct (qMarker q) eqn:E.
  - rewrite filter_cons_False by congruence. rewrite filter_cons_True by done. by rewrite app_nil_r.
  - rewrite filter_cons_True by done. rewrite (filter_cons_False (fun q => qMarker q = true)) by congruence.
    by rewrite app_nil_r.
Qed.

Lemma no_rows_nil l : bool_decide (rows_of l = []) && bool_decide (markers_of l = []) = bool_decide (l = []).
Proof.
  destruct l as [|q l]; [done|]. rewrite (bool_decide_eq_false_2 (q :: l = [])) by done.
  unfold rows_of, markers_of. destruct (qMarker q) eqn:E.
  - rewrite (filter_cons_True (fun q => qMarker q = true)) by done. by rewrite andb_comm.
  - by rewrite filter_cons_True by done.
Qed.

Lemma wire_loop_ge fuel n s : n <= wire_loop fuel n s.
Proof. pose proof (wire_loop_bound fuel n s). unfold wlen in *. lia. Qed.

Lemma qsize_nonneg q : 0 <= qsize q.
Proof.
  assert (forall s, 0 <= jsonStringWireBytes s) as H.
  { intros s. unfold jsonStringWireBytes. pose proof (wire_loop_ge (String.length s) 2 s). lia. }
  unfold qsize, row_size, syncAdvisoryIDWireBytes, syncVulnerabilityWireBytes, syncVulnerabilityRowWireOverhead.
  destruct (qMarker q).
  - specialize (H (vulnID (qItem q))). lia.
  - repeat match goal with |- context [jsonStringWireBytes ?s] =>
      let Hs := fresh in pose proof (H s) as Hs; generalize dependent (jsonStringWireBytes s); intros end. lia.
Qed.

Lemma bytes_of_app {T} (f : T -> Z) l l' : bytes_of f (l ++ l') = bytes_of f l + bytes_of f l'.
Proof. unfold bytes_of. induction l as [|x l IH]; simpl in *; lia. Qed.

Lemma bytes_nonneg l : 0 <= bytes_of qsize l.
Proof. unfold bytes_of. induction l as [|q l IH]; simpl in *; [lia|]. pose proof (qsize_nonneg q). lia. Qed.

Lemma last_id_app l l' : l' <> [] -> last_id (l ++ l') = last_id l'.
Proof. intros H. unfold last_id. rewrite last_app. by destruct (last l') eqn:E; [|apply last_None in E]. Qed.

Lemma last_id_ne items l l' : query_ok items -> items = l ++ l' -> l <> [] -> last_id l <> "".
Proof.
  intros Hq -> Hl. unfold last_id. destruct (last l) as [q|] eqn:E; [|by apply last_None in E].
  apply last_Some in E as [l1 ->]. pose proof (query_ids _ Hq) as Hids. rewrite !Forall_app in Hids. simpl.
  destruct Hids as [[_ Hids] _]. rewrite Forall_singleton in Hids. exact Hids.
Qed.

(** Where the advisory changes, the advisories on both sides are different. *)
Lemma boundary items p c s :
  query_ok items -> items = p ++ c :: s -> p <> [] -> last_id p <> qid c ->
  forall a b, a ∈ p -> b ∈ c :: s -> qid a <> qid b.
Proof.
  intros Hq Hitems Hp Hne a b Ha Hb Heq. unfold last_id in Hne.
  destruct (last p) as [w|] eqn:Ew; [|by apply last_None in Ew]. apply last_Some in Ew as [p' ->]. simpl in Hne.
  apply list_elem_of_split in Ha as (l1 & l2 & Ha). apply list_elem_of_split in Hb as (r1 & r2 & Hb).
  assert (items = l1 ++ a :: (l2 ++ r1) ++ b :: r2) as Hsplit.
  { rewrite Hitems, Hb, Ha. by rewrite <- !app_assoc. }
  pose proof (query_grouped _ Hq _ _ _ _ _ Hsplit Heq) as Hmid. rewrite Forall_app in Hmid.
  destruct Hmid as [Hmid1 Hmid2].
  assert (qid w = qid a) as Hw.
  { destruct l2 as [|z l2] using rev_ind; [apply app_inj_tail in Ha as [_ ->]; done|].
    rewrite app_comm_cons, app_assoc in Ha. apply app_inj_tail in Ha as [_ ->].
    rewrite Forall_app in Hmid1. destruct Hmid1 as [_ Hz]. rewrite Forall_singleton in Hz. exact Hz. }
  assert (qid c = qid a) as Hc; [|congruence].
  destruct r1 as [|z r1]; simplify_eq/=; [done|]. by inversion Hmid2.
Qed.

(** The builder of an advisory page after it took the rows [whole ++ cur], of
    which [cur] are the rows of the current advisory. *)
Record advisory_inv (budget : Z) (whole cur : list query_row) (b : syncVulnerabilityPageBuilder) : Prop := {
  inv_paging : paging b = syncVulnerabilityAdvisoryPages;
  inv_running : vStopped b = false;
  inv_budget : vBudget b = budget;
  inv_rows : vRows (vPage b) = rows_of (whole ++ cur);
  inv_markers : vWithoutAffected (vPage b) = markers_of (whole ++ cur);
  inv_plain : vSplit (vPage b) = false;
  inv_last : vLastAdvisoryID (vPage b) = last_id (whole ++ cur);
  inv_more : sqlHasMore b = default false (qMore <$> last (whole ++ cur));
  inv_used : vUsed b = bytes_of qsize (whole ++ cur);
  inv_fits : bytes_of qsize (whole ++ cur) <= Z.max 0 budget \/ length (whole ++ cur) = 1%nat;
  inv_current : currentID b = last_id cur;
  inv_same : Forall (fun q => qid q = last_id cur) cur;
  inv_start : cur = [] -> whole = [];
  inv_counts : currentRows b = length (rows_of whole) /\ currentMarkers b = length (markers_of whole);
  inv_whole : lastWholeID b = last_id whole;
  inv_change : whole <> [] -> last_id whole <> last_id cur
}.

(** The page the builder ends with, for a query result [p ++ s] of which it
    took [p]. *)
Record advisory_page (budget : Z) (p s : list query_row) (page : syncVulnerabilityPage) : Prop := {
  page_rows : vRows page = rows_of p;
  page_markers : vWithoutAffected page = markers_of p;
  page_fits : bytes_of qsize p <= Z.max 0 budget \/ length p = 1%nat;
  page_more : vHasMore page = match s with [] => default false (qMore <$> last p) | _ => true end;
  page_whole : vSplit page = false ->
    vLastAdvisoryID page = last_id p /\
    (s <> [] -> vNextCursor page = EncodeSyncAdvisoryCursor (last_id p)) /\
    (forall a b, a ∈ p -> b ∈ s -> qid a <> qid b);
  page_split : vSplit page = true ->
    exists a b s', s = b :: s' /\ last (rows_of p) = Some (qItem a) /\ a ∈ p /\ qid b = qid a /\
      Forall (fun q => qid q = qid a /\ qMarker q = false) p /\ budget < bytes_of qsize (p ++ [b]) /\
      vSplitAdvisoryID page = qid a /\ vSplitStart page = true /\
      vNextCursor page = EncodeSyncAdvisoryRowCursor (qid a) (vulnEcosystem (qItem a)) (vulnName (qItem a))
}.

(** The room left for the next row. *)
Definition row_fits (budget : Z) (taken : list query_row) (q : query_row) : bool :=
  (bytes_of qsize taken + qsize q <=? budget) || bool_decide (taken = []).

Lemma last_id_snoc l q : last_id (l ++ [q]) = qid q.
Proof. unfold last_id. by rewrite last_snoc. Qed.

(** Taking a row of the current advisory. *)
Lemma accept_same budget whole cur b q :
  advisory_inv budget whole cur b -> qid q = currentID b -> qid q <> "" -> row_fits budget (whole ++ cur) q = true ->
  advisory_inv budget whole (cur ++ [q]) (accept (qItem q) (qMarker q) (see_advisory (qItem q) (qMore q) b)).
Proof.
  intros Hi Hid Hne Hfit. destruct Hi. unfold accept, see_advisory. fold (qid q).
  rewrite bool_decide_true by done. cbn [negb paging vLimit splitID vBudget vPage vUsed sqlHasMore vStopped currentID
    currentRows currentMarkers lastWholeID].
  destruct (page_add_rows q (vPage b) (whole ++ cur) inv_rows0 inv_markers0) as [Hr Hm].
  rewrite <- app_assoc in Hr, Hm.
  split; cbn [paging vLimit splitID vBudget vPage vUsed sqlHasMore vStopped currentID
    currentRows currentMarkers lastWholeID]; try done.
  - by rewrite app_assoc, last_id_snoc.
  - by rewrite app_assoc, last_snoc.
  - rewrite inv_used0, app_assoc, bytes_of_snoc. done.
  - rewrite app_assoc, bytes_of_snoc. unfold row_fits in Hfit. apply orb_true_iff in Hfit as [Hf|Hf].
    + apply Z.leb_le in Hf. left. lia.
    + apply bool_decide_eq_true_1 in Hf. rewrite Hf. by right.
  - by rewrite last_id_snoc.
  - rewrite last_id_snoc, Forall_app. split; [|by apply Forall_singleton].
    eapply Forall_impl; [exact inv_same0|]. intros z Hz. cbn in *. congruence.
  - intros Hc. by apply app_nil in Hc as [_ Hc].
  - rewrite last_id_snoc. intros Hw. specialize (inv_change0 Hw). congruence.
Qed.

(** Taking the first row of another advisory. *)
Lemma accept_fresh budget whole cur b q :
  advisory_inv budget whole cur b -> qid q <> currentID b -> row_fits budget (whole ++ cur) q = true ->
  advisory_inv budget (whole ++ cur) [q] (accept (qItem q) (qMarker q) (see_advisory (qItem q) (qMore q) b)).
Proof.
  intros Hi Hid Hfit. destruct Hi. unfold accept, see_advisory. fold (qid q).
  rewrite bool_decide_false by done. cbn [negb paging vLimit splitID vBudget vPage vUsed sqlHasMore vStopped currentID
    currentRows currentMarkers lastWholeID].
  destruct (page_add_rows q (vPage b) (whole ++ cur) inv_rows0 inv_markers0) as [Hr Hm].
  assert (last_id (whole ++ cur) = last_id cur) as Hlast.
  { destruct (decide (cur = [])) as [->|Hc]; [by rewrite inv_start0|]. by apply last_id_app. }
  split; cbn [paging vLimit splitID vBudget vPage vUsed sqlHasMore vStopped currentID
    currentRows currentMarkers lastWholeID]; try done.
  - by rewrite last_id_snoc.
  - by rewrite last_snoc.
  - rewrite inv_used0, bytes_of_snoc. done.
  - rewrite bytes_of_snoc. unfold row_fits in Hfit. apply orb_true_iff in Hfit as [Hf|Hf].
    + apply Z.leb_le in Hf. left. lia.
    + apply bool_decide_eq_true_1 in Hf. rewrite Hf. by right.
  - by apply Forall_singleton.
  - by rewrite inv_rows0, inv_markers0.
  - congruence.
  - rewrite Hlast. change (last_id [q]) with (qid q). congruence.
Qed.

Lemma refused budget taken q :
  row_fits budget taken q = false -> taken <> [] /\ budget < bytes_of qsize (taken ++ [q]).
Proof.
  unfold row_fits. intros [Hf Hn]%orb_false_iff. rewrite bytes_of_snoc.
  apply Z.leb_gt in Hf. apply bool_decide_eq_false_1 in Hn. done.
Qed.

(** The refused row starts another advisory: the page ends before it. *)
Lemma stop_fresh budget whole cur b q rest items :
  query_ok items -> items = (whole ++ cur) ++ q :: rest -> advisory_inv budget whole cur b ->
  row_fits budget (whole ++ cur) q = false -> qid q <> currentID b ->
  exists b', stopAdvisoryPage (see_advisory (qItem q) (qMore q) b) = Some b' /\
    advisory_page budget (whole ++ cur) (q :: rest) (vuln_finish b').
Proof.
  intros Hq Hitems Hi [Htaken _]%refused Hid. pose proof Hi as [].
  assert (last_id (whole ++ cur) = last_id cur) as Hlast.
  { apply last_id_app. intros ->. by rewrite inv_start0 in Htaken. }
  pose proof (last_id_ne _ _ _ Hq Hitems Htaken) as Hne.
  unfold stopAdvisoryPage, see_advisory. fold (qid q).
  rewrite (bool_decide_eq_false_2 (qid q = currentID b)) by done.
  cbn [negb paging vPage vStopped currentID currentRows currentMarkers lastWholeID].
  rewrite (bool_decide_eq_false_2 (currentID b = "")) by congruence. cbn [negb].
  eexists. split; [reflexivity|]. unfold vuln_finish, set_page, stop. cbn [paging vPage vStopped]. rewrite inv_paging0.
  split; cbn [vRows vHasMore vWithoutAffected vLastAdvisoryID vNextCursor vSplit vSplitAdvisoryID vSplitStart]; try done.
  - by rewrite inv_rows0, take_ge.
  - by rewrite inv_markers0, take_ge.
  - intros _. rewrite Hlast, inv_current0. split_and!; [done..|].
    apply (boundary items); try done. congruence.
  - congruence.
Qed.

(** The refused row is of the current advisory, which is not the first: the
    page ends before that advisory. *)
Lemma stop_same_later budget whole cur b q rest items :
  query_ok items -> items = (whole ++ cur) ++ q :: rest -> advisory_inv budget whole cur b ->
  row_fits budget (whole ++ cur) q = false -> qid q = currentID b -> whole <> [] ->
  exists b', stopAdvisoryPage (see_advisory (qItem q) (qMore q) b) = Some b' /\
    advisory_page budget whole (cur ++ q :: rest) (vuln_finish b').
Proof.
  intros Hq Hitems Hi [Htaken _]%refused Hid Hw. pose proof Hi as [].
  rewrite <- app_assoc in Hitems. pose proof (last_id_ne _ _ _ Hq Hitems Hw) as Hne.
  destruct cur as [|c cur]; [by rewrite inv_start0 in Hw|].
  assert (qid c = last_id (c :: cur)) as Hc by by inversion inv_same0.
  unfold stopAdvisoryPage, see_advisory. fold (qid q).
  rewrite (bool_decide_eq_true_2 (qid q = currentID b)) by done.
  cbn [negb paging vPage vStopped currentID currentRows currentMarkers lastWholeID].
  rewrite (bool_decide_eq_false_2 (lastWholeID b = "")) by congruence. cbn [negb].
  destruct inv_counts0 as [Hcr Hcm].
  eexists. split; [reflexivity|]. unfold vuln_finish, set_page, stop. cbn [paging vPage vStopped]. rewrite inv_paging0.
  split; cbn [vRows vHasMore vWithoutAffected vLastAdvisoryID vNextCursor vSplit vSplitAdvisoryID vSplitStart]; try done.
  - by rewrite inv_rows0, rows_of_app, Hcr, take_app_length.
  - by rewrite inv_markers0, markers_of_app, Hcm, take_app_length.
  - left. destruct inv_fits0 as [Hf|Hf].
    + rewrite bytes_of_app in Hf. pose proof (bytes_nonneg (c :: cur)). lia.
    + rewrite length_app in Hf. destruct whole; [done|]. simpl in Hf. lia.
  - intros _. rewrite inv_whole0. split_and!; [done..|].
    apply (boundary items whole c (cur ++ q :: rest)); try done. rewrite Hc. by apply inv_change0.
  - congruence.
Qed.

(** The refused row is of the first advisory: the page splits it. *)
Lemma stop_same_first budget cur b q rest items :
  query_ok items -> items = cur ++ q :: rest -> advisory_inv budget [] cur b ->
  row_fits budget cur q = false -> qid q = currentID b ->
  exists b', stopAdvisoryPage (see_advisory (qItem q) (qMore q) b) = Some b' /\
    advisory_page budget cur (q :: rest) (vuln_finish b').
Proof.
  intros Hq Hitems Hi [Htaken Hover]%refused Hid. pose proof Hi as []. cbn [app] in *.
  assert (Forall (fun z => qid z = qid q /\ qMarker z = false) cur) as Hcur.
  { apply Forall_forall. intros z Hz. assert (qid z = qid q) as Hzq.
    { rewrite Forall_forall in inv_same0. rewrite (inv_same0 z Hz). congruence. }
    split; [done|]. apply list_elem_of_split in Hz as (l & m & Hz).
    apply (query_markers _ Hq l z m q rest); [|done]. rewrite Hitems, Hz. by rewrite <- app_assoc. }
  assert (rows_of cur = qItem <$> cur) as Hrows.
  { unfold rows_of. f_equal. clear -Hcur. induction Hcur as [|z l [_ Hz] _ IH]; [done|].
    by rewrite filter_cons_True, IH. }
  destruct (last cur) as [a|] eqn:Ha; [|by apply last_None in Ha].
  assert (a ∈ cur) as Hina by (apply last_Some in Ha as [l ->]; set_solver).
  assert (qid a = qid q) as Haq by (rewrite Forall_forall in Hcur; by apply Hcur).
  assert (last (rows_of cur) = Some (qItem a)) as Hlr by by rewrite Hrows, fmap_last, Ha.
  unfold stopAdvisoryPage, see_advisory. fold (qid q).
  rewrite (bool_decide_eq_true_2 (qid q = currentID b)) by done.
  cbn [negb paging vPage vStopped currentID currentRows currentMarkers lastWholeID].
  rewrite inv_whole0. change (last_id []) with "". rewrite bool_decide_true by done. cbn [negb].
  rewrite inv_rows0, Hlr. cbn [mbind option_bind].
  eexists. split; [reflexivity|]. unfold vuln_finish, set_page, stop. cbn [paging vPage vStopped]. rewrite inv_paging0.
  split; cbn [vRows vHasMore vWithoutAffected vLastAdvisoryID vNextCursor vSplit vSplitAdvisoryID vSplitStart]; try done.
  intros _. exists a, q, rest. split_and!; try done.
  eapply Forall_impl; [exact Hcur|]. intros z [Hz1 Hz2]. cbn. split; congruence.
Qed.

Lemma vuln_feed_spec budget items rest whole cur b :
  query_ok items -> items = (whole ++ cur) ++ rest -> items <> [] -> advisory_inv budget whole cur b ->
  exists b' p s, vuln_feed rest b = Some b' /\ items = p ++ s /\ p <> [] /\ advisory_page budget p s (vuln_finish b').
Proof.
  intros Hq. revert whole cur b. induction rest as [|q rest IH]; intros whole cur b Hitems Hne Hi.
  { rewrite app_nil_r in Hitems. exists b, (whole ++ cur), []. split_and!; [done|by rewrite app_nil_r|congruence|].
    destruct Hi. unfold vuln_finish. rewrite inv_paging0, inv_running0.
    split; cbn [vRows vHasMore vWithoutAffected vLastAdvisoryID vNextCursor vSplit]; try done; [|congruence].
    intros _. split_and!; try done. intros a z _ []%not_elem_of_nil. }
  cbn [vuln_feed]. unfold vuln_add. rewrite (inv_running _ _ _ _ Hi), (inv_paging _ _ _ _ Hi).
  rewrite (inv_used _ _ _ _ Hi), (inv_budget _ _ _ _ Hi), (inv_rows _ _ _ _ Hi), (inv_markers _ _ _ _ Hi), no_rows_nil.
  fold (qsize q). fold (row_fits budget (whole ++ cur) q).
  assert (qid q <> "") as Hqid.
  { pose proof (query_ids _ Hq) as H. rewrite Hitems, Forall_app, Forall_cons in H. apply H. }
  destruct (row_fits budget (whole ++ cur) q) eqn:Hfit; cbn [negb].
  - destruct (decide (qid q = currentID b)) as [Hid|Hid].
    + apply (IH whole (cur ++ [q])); [|done|by apply accept_same]. rewrite Hitems. by rewrite <- !app_assoc.
    + apply (IH (whole ++ cur) [q]); [|done|by apply accept_fresh]. rewrite Hitems. by rewrite <- !app_assoc.
  - destruct (decide (qid q = currentID b)) as [Hid|Hid].
    + destruct (decide (whole = [])) as [->|Hw].
      * destruct (stop_same_first budget cur b q rest items) as (b' & -> & Hp); try done.
        exists b', cur, (q :: rest). split_and!; try done. by apply refused in Hfit as [? _].
      * destruct (stop_same_later budget whole cur b q rest items) as (b' & -> & Hp); try done.
        exists b', whole, (cur ++ q :: rest). split_and!; try done. by rewrite Hitems, <- app_assoc.
    + destruct (stop_fresh budget whole cur b q rest items) as (b' & -> & Hp); try done.
      exists b', (whole ++ cur), (q :: rest). split_and!; try done. by apply refused in Hfit as [? _].
Qed.

(** An advisory page keeps advisories whole.  For a query result that
    keeps the rows of an advisory together, the builder does not panic; the
    page holds a nonempty prefix of the result, within the byte budget unless
    it is a single row; unless it is marked as split, no advisory has rows on
    both sides of its end and its cursor continues after its last advisory; it
    is split only when the first advisory alone exceeds the budget, and then it
    holds rows of that advisory only and its cursor continues after its last
    row. *)
Theorem advisory_page_whole limit budget items :
  0 < limit -> query_ok items -> items <> [] ->
  exists page p s,
    vuln_page syncVulnerabilityAdvisoryPages limit "" budget items = Some page /\
    items = p ++ s /\ p <> [] /\ advisory_page budget p s page.
Proof.
  intros Hl Hq Hne. unfold vuln_page, newSyncVulnerabilityPageBuilder. rewrite (proj2 (Z.leb_gt _ _)) by lia.
  destruct (vuln_feed_spec budget items items [] []
    (mk_vuln_builder syncVulnerabilityAdvisoryPages limit "" budget newSyncAdvisoryPage 0 false false "" 0 0 ""))
    as (b' & p & s & Hfeed & H1 & H2 & H3); try done.
  - by split; try done; left; cbn; lia.
  - rewrite Hfeed. exists (vuln_finish b'), p, s. done.
Qed.

(** ** The size of a response *)

Lemma marshal_array_len {T} (enc : T -> string) (estimate : T -> Z) (l : list T) :
  Forall (fun x => wlen (enc x) + 1 <= estimate x) l ->
  wlen (marshal_array (enc <$> l)) <= bytes_of estimate l + 2.
Proof.
  intros Hl. unfold marshal_array. rewrite !wlen_app. change (wlen "[") with 1. change (wlen "]") with 1.
  enough (wlen (Join (enc <$> l) ",") <= bytes_of estimate l) by lia.
  unfold bytes_of. induction Hl as [|x l Hx Hl IH]; [done|]. destruct l as [|y l].
  - cbn [fmap list_fmap Join foldr]. lia.
  - cbn [fmap list_fmap Join foldr] in *. rewrite !wlen_app. change (wlen ",") with 1. lia.
Qed.

Definition scores_fit (v : SyncVulnerability) : Prop :=
  score_fits (CVSSScore v) /\ score_fits (EPSSScore v) /\ score_fits (EPSSPercentile v).

Definition dates_fit (l : SyncLifecycleRelease) : Prop :=
  Forall date_fits [lifeReleaseDate l; lifeLTSFrom l; lifeEOASFrom l; lifeEOLFrom l;
                    lifeDiscontinuedFrom l; lifeEOESFrom l].

(** The byte budgets bound the response.  The estimate of every row is an
    upper bound of the JSON the encoder writes for it, escapes and invalid
    bytes included; so pages whose estimates are within their budgets leave
    four MiB of what a client accepts, less the brackets, for everything else.
    (A float is assumed to take at most 24 bytes and a date 16 with quotes.) *)
Theorem sync_page_fits_response vulns mal rep life :
  Forall scores_fit vulns -> Forall dates_fit life ->
  Forall (fun v => wlen (marshal_vulnerability v) + 1 <= syncVulnerabilityWireBytes v) vulns /\
  Forall (fun l => wlen (marshal_lifecycle l) + 1 <= syncLifecycleWireBytes l) life /\
  (bytes_of syncVulnerabilityWireBytes vulns <= SyncVulnerabilityPageByteBudget ->
   bytes_of syncMaliciousWireBytes mal <= SyncMaliciousPageByteBudget ->
   bytes_of syncReputationWireBytes rep <= SyncReputationPageByteBudget ->
   bytes_of syncLifecycleWireBytes life <= SyncLifecyclePageByteBudget ->
   wlen (marshal_array (marshal_vulnerability <$> vulns)) + wlen (marshal_array (marshal_malicious <$> mal)) +
   wlen (marshal_array (marshal_reputation <$> rep)) + wlen (marshal_array (marshal_lifecycle <$> life)) + 4 * 2 ^ 20
     <= MaxResponseBytes + 8).
Proof.
  intros Hv Hl.
  assert (Forall (fun v => wlen (marshal_vulnerability v) + 1 <= syncVulnerabilityWireBytes v) vulns) as Hv'.
  { eapply Forall_impl; [exact Hv|]. intros v (H1 & H2 & H3). by apply vulnerability_wire. }
  assert (Forall (fun l => wlen (marshal_lifecycle l) + 1 <= syncLifecycleWireBytes l) life) as Hl'.
  { eapply Forall_impl; [exact Hl|]. intros l Hd. by apply lifecycle_wire. }
  split_and!; [done..|]. intros B1 B2 B3 B4.
  pose proof (marshal_array_len _ _ _ Hv'). pose proof (marshal_array_len _ _ _ Hl').
  pose proof (marshal_array_len marshal_malicious syncMaliciousWireBytes mal
    (Forall_true _ _ malicious_wire)).
  pose proof (marshal_array_len marshal_reputation syncReputationWireBytes rep
    (Forall_true _ _ reputation_wire)).
  unfold SyncVulnerabilityPageByteBudget, SyncMaliciousPageByteBudget, SyncReputationPageByteBudget,
    SyncLifecyclePageByteBudget, MaxResponseBytes in *. lia.
Qed.

(** ** Witnesses *)

Definition sample_vuln (id name : string) : SyncVulnerability :=
  mk_vulnerability id "npm" name "[]" "[]" "[]" "HIGH" (Some "9.8") None None true "a <b> & c" "osv" false.

Definition sample_life : SyncLifecycleRelease :=
  mk_lifecycle_row "l1" "npm" "node" "nodejs" "Node" "18" "18.1" (Some (720000 * 86400 * Second)) true None false None
    true (Some (730000 * 86400 * Second)) false None None None true false.

Lemma sync_page_fits_response_witness :
  wlen (marshal_vulnerability (sample_vuln "GHSA-1" "a")) + 1 <= syncVulnerabilityWireBytes (sample_vuln "GHSA-1" "a") /\
  wlen (marshal_lifecycle sample_life) + 1 <= syncLifecycleWireBytes sample_life.
Proof.
  destruct (sync_page_fits_response [sample_vuln "GHSA-1" "a"] [] [] [sample_life]) as (H1 & H2 & _).
  - constructor; [|constructor]. split_and!; vm_compute; discriminate.
  - constructor; [|constructor]. repeat constructor; vm_compute; discriminate.
  - inversion H1. inversion H2. done.
Defined.

Lemma row_pages_cover_witness :
  row_pages (fun n => n) 6 10 7 [3; 3; 9; 1; 2] = Some [[3; 3]; [9]; [1; 2]] /\
  exists pages, row_pages (fun n => n) 6 10 7 [3; 3; 9; 1; 2] = Some pages /\ concat pages = [3; 3; 9; 1; 2].
Proof.
  split; [reflexivity|].
  destruct (row_pages_cover (fun n => n) 10 7 [3; 3; 9; 1; 2] ltac:(lia)) as (pages & H1 & H2 & _).
  exists pages. exact (conj H1 H2).
Defined.

(** Two rows of one advisory and one of another. *)
Definition sample_query : list query_row :=
  [mk_query_row (sample_vuln "A" "x") false false; mk_query_row (sample_vuln "A" "y") false false;
   mk_query_row (sample_vuln "B" "x") false false].

Lemma sample_query_ok : query_ok sample_query.
Proof.
  split; [repeat constructor; discriminate| |].
  - intros l x m y r H Hid. unfold sample_query in H.
    destruct l as [|? [|? [|? [|]]]], m as [|? [|? [|? ?]]]; simplify_eq/=; try discriminate; by constructor.
  - intros l x m y r H Hid. unfold sample_query in H.
    destruct l as [|? [|? [|? [|]]]]; simplify_eq/=; done.
Qed.

(** A budget for one and a half rows splits the first advisory; one for two
    and a half ends the page between the advisories. *)
Lemma advisory_page_whole_witness :
  (exists page p s, vuln_page syncVulnerabilityAdvisoryPages 100 "" 600 sample_query = Some page /\
     sample_query = p ++ s /\ p <> [] /\ advisory_page 600 p s page) /\
  (vSplit <$> vuln_page syncVulnerabilityAdvisoryPages 100 "" 600 sample_query) = Some true /\
  (length ∘ vRows <$> vuln_page syncVulnerabilityAdvisoryPages 100 "" 1000 sample_query) = Some 2%nat.
Proof.
  split; [|split; vm_compute; reflexivity].
  exact (advisory_page_whole 100 600 sample_query ltac:(lia) sample_query_ok ltac:(discriminate)).
Defined.
