(* ===== verification/SyncContract.v ===== *)
(** The sync protocol: the export types of internal/db/sync.go, the assembly of
    an export page in internal/db/postgres/sync.go, and the response of
    internal/synccontract/contract.go.

    Every dataset of a page reports its rows and whether it may continue; from
    that the server computes the cursor of the next page.  The wire rows of
    vulnerabilities, malicious packages and reputation findings have the fields
    of the exported rows, so they share their types; lifecycle rows carry their
    dates as text. *)
From stdpp Require Import base list option strings gmap.
From Stdlib Require Import Ascii ZArith Lia.
From S2P Require Import Prelude GoStrings Json Collections JsonEncode Base64 GoTime SyncCursor SyncRows Dates.
From S2P Require Import TimeParse SyncPages.

(** ** The export *)

Record SyncExport := mk_export {
  exSyncedAt : Time;
  exSyncedXID : Z;
  exVulnerabilities : list SyncVulnerability;
  exMalicious : list SyncMalicious;
  exReputation : list SyncReputationFinding;
  exLifecycle : list SyncLifecycleRelease;
  exTruncated : bool;
  exNextCursor : option SyncCursor;
  exVulnerabilityAffectedComplete : bool;
  exVulnerabilitiesWithoutAffected : list string;
  exVulnerabilitySplitAdvisory : string;
  exVulnerabilitySplitStart : bool;
  exVulnerabilitySplitComplete : bool
}.

Record syncDatasets := mk_datasets {
  dVulnerabilities : list SyncVulnerability;
  vulnerabilitiesHaveMore : bool;
  vulnerabilitiesWithoutAffected : list string;
  vulnerabilitiesLastAdvisoryID : string;
  vulnerabilitiesNextCursor : string;
  vulnerabilitiesSplit : bool;
  vulnerabilitiesSplitAdvisory : string;
  vulnerabilitiesSplitStart : bool;
  vulnerabilitiesSplitComplete : bool;
  dMalicious : list SyncMalicious;
  maliciousHaveMore : bool;
  dReputation : list SyncReputationFinding;
  reputationHaveMore : bool;
  dLifecycle : list SyncLifecycleRelease;
  lifecycleHaveMore : bool
}.

Definition syncVulnerabilityAffectedComplete (opts : SyncExportOptions) (cursor : SyncCursor) : bool :=
  negb (VulnerabilitiesDone cursor) &&
  bool_decide (syncVulnerabilityPagingFor (syncOptionsWithOffset opts (Vulnerabilities cursor)) =
               syncVulnerabilityAdvisoryPages).

Definition syncPageVulnerabilityAffectedComplete (opts : SyncExportOptions) (cursor : SyncCursor)
    (datasets : syncDatasets) : bool :=
  syncVulnerabilityAffectedComplete opts cursor && negb (vulnerabilitiesSplit datasets).

(** [setNextDatasetCursor]: the cursor of a continuing dataset and its done
    flag; [None] where indexing the last row of an empty page panics. *)
Definition setNextDatasetCursor {T} (alreadyDone hasMore : bool) (rows : list T) (key : T -> list string)
    : option (string * bool) :=
  if alreadyDone || negb hasMore then Some ("", true)
  else item ← last rows; Some (encodeSyncCursorKey (key item), false).

(** The vulnerability part of [nextSyncExportCursor]. *)
Definition nextVulnerabilityCursor (cursor : SyncCursor) (paging : syncVulnerabilityPaging) (datasets : syncDatasets)
    : option (string * bool) :=
  let vulns := dVulnerabilities datasets in
  let next := vulnerabilitiesNextCursor datasets in
  if VulnerabilitiesDone cursor || negb (vulnerabilitiesHaveMore datasets) then Some ("", true)
  else if negb (bool_decide (next = "")) &&
          (bool_decide (paging = syncVulnerabilityAdvisoryPages) ||
           bool_decide (paging = syncVulnerabilityAdvisorySplit)) then Some (next, false)
  else match paging with
       | syncVulnerabilityAdvisoryPages =>
           let lastID := vulnerabilitiesLastAdvisoryID datasets in
           lastID ← (if bool_decide (lastID = "") then vulnID <$> last vulns else Some lastID);
           Some (EncodeSyncAdvisoryCursor lastID, false)
       | syncVulnerabilityDeltaRowOffset => Some ("", false)
       | _ => item ← last vulns; Some (encodeSyncCursorKey [vulnEcosystem item; vulnName item; vulnID item], false)
       end.

(** Whether more data may follow, and the cursor of the next page; [None] is a
    panic. *)
Definition nextSyncExportCursor (cursor : SyncCursor) (paging : syncVulnerabilityPaging) (datasets : syncDatasets)
    (limit : Z) : option (bool * option SyncCursor) :=
  if limit <=? 0 then Some (false, None)
  else if negb (vulnerabilitiesHaveMore datasets) && negb (maliciousHaveMore datasets) &&
          negb (reputationHaveMore datasets) && negb (lifecycleHaveMore datasets) then Some (false, None)
  else
    '(vc, vd) ← nextVulnerabilityCursor cursor paging datasets;
    '(mc, md) ← setNextDatasetCursor (MaliciousDone cursor) (maliciousHaveMore datasets) (dMalicious datasets)
                  (fun m => [malEcosystem m; malName m; malID m]);
    '(rc, rd) ← setNextDatasetCursor (ReputationDone cursor) (reputationHaveMore datasets) (dReputation datasets)
                  (fun r => [repEcosystem r; repName r; repVersion r]);
    '(lc, ld) ← setNextDatasetCursor (LifecycleDone cursor) (lifecycleHaveMore datasets) (dLifecycle datasets)
                  (fun l => [lifeEcosystem l; lifeName l; lifeProductSlug l; lifeCycle l]);
    Some (true, Some (mk_cursor (Vulnerabilities cursor + Z.of_nat (length (dVulnerabilities datasets)))
                        (Malicious cursor + Z.of_nat (length (dMalicious datasets)))
                        (Reputation cursor + Z.of_nat (length (dReputation datasets)))
                        (Lifecycle cursor + Z.of_nat (length (dLifecycle datasets))) vc mc rc lc vd md rd ld)).

Definition newSyncExport (opts : SyncExportOptions) (cursor : SyncCursor) (snapshot : Time) (snapshotXID : Z)
    (datasets : syncDatasets) : option SyncExport :=
  let paging := syncVulnerabilityPagingFor (syncOptionsWithOffset opts (Vulnerabilities cursor)) in
  '(truncated, nextCursor) ← nextSyncExportCursor cursor paging datasets (Limit opts);
  let complete := syncPageVulnerabilityAffectedComplete opts cursor datasets in
  let split := negb (bool_decide (vulnerabilitiesSplitAdvisory datasets = "")) in
  Some (mk_export snapshot snapshotXID (dVulnerabilities datasets) (dMalicious datasets) (dReputation datasets)
          (dLifecycle datasets) truncated nextCursor complete
          (if complete then vulnerabilitiesWithoutAffected datasets else [])
          (vulnerabilitiesSplitAdvisory datasets) (split && vulnerabilitiesSplitStart datasets)
          (split && vulnerabilitiesSplitComplete datasets)).

(** *** The datasets of a page *)

(** The queries of the four datasets: what each returns for the options with its
    own offset.  The queries are SQL; their results are arguments. *)
Record syncDatasetExporters (E : Type) := mk_exporters {
  expVulnerabilities : SyncExportOptions -> syncVulnerabilityPage + E;
  expMalicious : SyncExportOptions -> syncRowPage SyncMalicious + E;
  expReputation : SyncExportOptions -> syncRowPage SyncReputationFinding + E;
  expLifecycle : SyncExportOptions -> syncRowPage SyncLifecycleRelease + E
}.
Arguments mk_exporters {E}.
Arguments expVulnerabilities {E}.
Arguments expMalicious {E}.
Arguments expReputation {E}.
Arguments expLifecycle {E}.

(** A dataset that is done is not queried. *)
Definition unless_done {A E} (done : bool) (empty : A) (query : A + E) : A + E :=
  if done then inl empty else query.

(** [exportSyncDatasets]: the goroutines write disjoint fields and the main one
    waits for all, so their order is not seen; the error of the first dataset
    in order is returned. *)
Definition exportSyncDatasets {E} (opts : SyncExportOptions) (cursor : SyncCursor) (exporters : syncDatasetExporters E)
    : syncDatasets + E :=
  let at_offset := syncOptionsWithOffset opts in
  match unless_done (VulnerabilitiesDone cursor) newSyncAdvisoryPage
          (expVulnerabilities exporters (at_offset (Vulnerabilities cursor))) with
  | inr e => inr e
  | inl v =>
      match unless_done (MaliciousDone cursor) (mk_row_page [] false)
              (expMalicious exporters (at_offset (Malicious cursor))) with
      | inr e => inr e
      | inl m =>
          match unless_done (ReputationDone cursor) (mk_row_page [] false)
                  (expReputation exporters (at_offset (Reputation cursor))) with
          | inr e => inr e
          | inl r =>
              match unless_done (LifecycleDone cursor) (mk_row_page [] false)
                      (expLifecycle exporters (at_offset (Lifecycle cursor))) with
              | inr e => inr e
              | inl l =>
                  inl (mk_datasets (vRows v) (vHasMore v) (vWithoutAffected v) (vLastAdvisoryID v) (vNextCursor v)
                         (vSplit v) (vSplitAdvisoryID v) (vSplitStart v) (vSplitComplete v)
                         (pageRows m) (pageHasMore m) (pageRows r) (pageHasMore r) (pageRows l) (pageHasMore l))
              end
          end
      end
  end.

(** ** The response *)

Definition DefaultLimit : Z := 1000.
Definition MaxLimit : Z := 10000.

(** A lifecycle row on the wire; its dates are text. *)
Record LifecycleRow := mk_wire_lifecycle {
  wID : string;
  wEcosystem : string;
  wName : string;
  wProductSlug : string;
  wProductLabel : string;
  wCycle : string;
  wLatest : string;
  wReleaseDate : option string;
  wIsLTS : bool;
  wLTSFrom : option string;
  wIsEOAS : bool;
  wEOASFrom : option string;
  wIsEOL : bool;
  wEOLFrom : option string;
  wIsDiscontinued : bool;
  wDiscontinuedFrom : option string;
  wIsEOES : option bool;
  wEOESFrom : option string;
  wIsMaintained : bool;
  wWithdrawn : bool
}.

(** A nil map of versions is [None]. *)
Record Response := mk_response {
  SyncedAt : string;
  SyncedXID : Z;
  FeedStatus : string;
  FeedVersions : option (gmap string string);
  respVulnerabilities : list SyncVulnerability;
  respMalicious : list SyncMalicious;
  respReputation : list SyncReputationFinding;
  respLifecycle : list LifecycleRow;
  Truncated : bool;
  HasMore : bool;
  NextCursor : option SyncCursor;
  ReputationDisabled : bool;
  VulnerabilityAffectedComplete : bool;
  VulnerabilitiesWithoutAffected : list string;
  VulnerabilitySplitAdvisory : string;
  VulnerabilitySplitStart : bool;
  VulnerabilitySplitComplete : bool
}.

Definition formatDateTime (value : Time) : string := RFC3339Nano value.

Definition IsAdvisoryRowCursor (raw : string) : bool := bool_decide (is_Some (DecodeSyncAdvisoryRowCursor raw)).

Definition SplitAdvisoryFromExport (exported : option SyncExport) : string * bool * bool :=
  match exported with
  | Some e =>
      if bool_decide (exVulnerabilitySplitAdvisory e = "") then ("", false, false)
      else (exVulnerabilitySplitAdvisory e, exVulnerabilitySplitStart e, exVulnerabilitySplitComplete e)
  | None => ("", false, false)
  end.

(** The lifecycle row of [ResponseFromExport]. *)
Definition wire_lifecycle (l : SyncLifecycleRelease) : LifecycleRow :=
  mk_wire_lifecycle (lifeID l) (lifeEcosystem l) (lifeName l) (lifeProductSlug l) (ProductLabel l) (lifeCycle l)
    (lifeLatest l) (dateOnly (lifeReleaseDate l)) (lifeIsLTS l) (dateOnly (lifeLTSFrom l)) (lifeIsEOAS l)
    (dateOnly (lifeEOASFrom l)) (lifeIsEOL l) (dateOnly (lifeEOLFrom l)) (lifeIsDiscontinued l)
    (dateOnly (lifeDiscontinuedFrom l)) (lifeIsEOES l) (dateOnly (lifeEOESFrom l)) (lifeIsMaintained l)
    (lifeWithdrawn l).

Definition ResponseFromExport (exported : option SyncExport) (feedStatus : string)
    (feedVersions : option (gmap string string)) : Response :=
  match exported with
  | None => mk_response "" 0 feedStatus feedVersions [] [] [] [] false false None false false [] "" false false
  | Some e =>
      let '(advisory, start, complete) := SplitAdvisoryFromExport exported in
      mk_response (formatDateTime (exSyncedAt e)) (exSyncedXID e) feedStatus feedVersions
        (exVulnerabilities e) (exMalicious e) (exReputation e) (wire_lifecycle <$> exLifecycle e)
        (exTruncated e) (exTruncated e) (exNextCursor e) false (exVulnerabilityAffectedComplete e)
        (if exVulnerabilityAffectedComplete e then exVulnerabilitiesWithoutAffected e else [])
        advisory start complete
  end.
