(* ===== verification/AuditLog.v ===== *)
(** The admin audit log's digests: internal/db/audit_integrity.go, and the
    audit detail helpers of internal/db/db.go.

    Every row commits to its own fields and to the digest of the row before.
    SHA-256 and HMAC-SHA-256 are the parameters of [AuditCrypto]: the theorems
    hold for every pair of functions. *)
From stdpp Require Import base list option strings gmap.
From Stdlib Require Import Ascii ZArith Lia.
From S2P Require Import Prelude GoStrings Json Collections JsonEncode GoTime.

(** ** Data *)

Record AdminAuditEntry := mk_audit {
  Action : string;
  Details : string;
  auditIP : string;
  auditCorrelationID : string
}.

Record AdminAuditLogEntry := mk_log_entry {
  logID : Z;
  logAction : string;
  logDetails : string;
  logIP : string;
  logCorrelationID : string;
  logCreatedAt : Time;
  PreviousDigest : string;
  RowDigest : string;
  IntegrityStatus : string
}.

Definition adminAuditSHA256Prefix : string := "sha256:".
Definition adminAuditHMACSHA256Prefix : string := "hmac-sha256:".
Definition AdminAuditIntegrityVerified : string := "verified".
Definition AdminAuditIntegrityBroken : string := "broken".
Definition AdminAuditIntegrityLegacy : string := "legacy".

Definition set_digest (d : string) (e : AdminAuditLogEntry) : AdminAuditLogEntry :=
  mk_log_entry (logID e) (logAction e) (logDetails e) (logIP e) (logCorrelationID e) (logCreatedAt e)
    (PreviousDigest e) d (IntegrityStatus e).

Definition set_status (st : string) (e : AdminAuditLogEntry) : AdminAuditLogEntry :=
  mk_log_entry (logID e) (logAction e) (logDetails e) (logIP e) (logCorrelationID e) (logCreatedAt e)
    (PreviousDigest e) (RowDigest e) st.

(** ** Digests *)

(** Hexadecimal SHA-256 of the data, and HMAC-SHA-256 under a key. *)
Class AuditCrypto := {
  sha256_hex : string -> string;
  hmac_hex : string -> string -> string
}.

(** The fields of adminAuditDigestPayload, in order, and their JSON. *)
Definition adminAuditDigestPayloadBytes (entry : AdminAuditLogEntry) : string :=
  let version := if bool_decide (logCorrelationID entry = "") then 1 else 2 in
  marshal_members
    ([("version", Itoa version);
      ("id", Itoa (logID entry));
      ("action", marshal_string (logAction entry));
      ("details", marshal_string (logDetails entry));
      ("ip", marshal_string (logIP entry))] ++
     omitempty "correlation_id" (logCorrelationID entry) ++
     [("created_at", marshal_string (format_time 6 (logCreatedAt entry)));
      ("previous_digest", marshal_string (PreviousDigest entry))]).

Section digests.
Context {C : AuditCrypto}.

Definition adminAuditLegacySHA256Digest (data : string) : string :=
  adminAuditSHA256Prefix +:+ sha256_hex data.

Definition computeAdminAuditHMACSHA256Digest (data key : string) : string :=
  adminAuditHMACSHA256Prefix +:+ hmac_hex key data.

(** [key] is the process-local HMAC key; empty when none is set. *)
Definition ComputeAdminAuditDigest (key : string) (entry : AdminAuditLogEntry) : string :=
  let data := adminAuditDigestPayloadBytes entry in
  if bool_decide (key = "") then adminAuditLegacySHA256Digest data
  else computeAdminAuditHMACSHA256Digest data key.

Definition AdminAuditIntegrityStatus (key : string) (entry : AdminAuditLogEntry) : string :=
  if bool_decide (RowDigest entry = "") then AdminAuditIntegrityLegacy
  else
    let data := adminAuditDigestPayloadBytes entry in
    let compare expected :=
      if bool_decide (RowDigest entry = expected) then AdminAuditIntegrityVerified
      else AdminAuditIntegrityBroken in
    if HasPrefix (RowDigest entry) adminAuditSHA256Prefix
    then compare (adminAuditLegacySHA256Digest data)
    else if HasPrefix (RowDigest entry) adminAuditHMACSHA256Prefix
    then if bool_decide (key = "") then AdminAuditIntegrityBroken
         else compare (computeAdminAuditHMACSHA256Digest data key)
    else AdminAuditIntegrityBroken.

(** The second loop of [AnnotateAdminAuditIntegrity]: each row against the
    next (older) one. *)
Fixpoint check_links (entries : list AdminAuditLogEntry) : list AdminAuditLogEntry :=
  match entries with
  | entry :: (next :: _) as rest =>
      (if bool_decide (IntegrityStatus entry = AdminAuditIntegrityVerified) &&
          negb (bool_decide (PreviousDigest entry = "") || bool_decide (RowDigest next = "")) &&
          negb (bool_decide (PreviousDigest entry = RowDigest next))
       then set_status AdminAuditIntegrityBroken entry else entry) :: check_links rest
  | _ => entries
  end.

Definition AnnotateAdminAuditIntegrity (key : string) (entries : list AdminAuditLogEntry)
    : list AdminAuditLogEntry :=
  check_links ((fun e => set_status (AdminAuditIntegrityStatus key e) e) <$> entries).

(** ** Lemmas *)

Definition verified (key : string) (e : AdminAuditLogEntry) : Prop :=
  AdminAuditIntegrityStatus key e = AdminAuditIntegrityVerified.

(** The payload does not cover the digest and the status. *)
Lemma payload_set_digest d e : adminAuditDigestPayloadBytes (set_digest d e) = adminAuditDigestPayloadBytes e.
Proof. done. Qed.

Lemma payload_set_status st e : adminAuditDigestPayloadBytes (set_status st e) = adminAuditDigestPayloadBytes e.
Proof. done. Qed.

Lemma status_set_status key st e :
  AdminAuditIntegrityStatus key (set_status st e) = AdminAuditIntegrityStatus key e.
Proof. done. Qed.

Lemma digest_verified key e : verified key (set_digest (ComputeAdminAuditDigest key e) e).
Proof.
  unfold verified, AdminAuditIntegrityStatus, ComputeAdminAuditDigest. rewrite payload_set_digest.
  set (data := adminAuditDigestPayloadBytes e). simpl RowDigest.
  destruct (bool_decide_reflect (key = "")) as [->|Hk].
  - rewrite (bool_decide_false (adminAuditLegacySHA256Digest data = "")) by done.
    unfold adminAuditLegacySHA256Digest. rewrite HasPrefix_app. by rewrite bool_decide_true.
  - rewrite (bool_decide_false (computeAdminAuditHMACSHA256Digest data key = "")) by done.
    unfold computeAdminAuditHMACSHA256Digest.
    replace (HasPrefix (adminAuditHMACSHA256Prefix +:+ hmac_hex key data) adminAuditSHA256Prefix)
      with false by done.
    rewrite HasPrefix_app. rewrite ?(bool_decide_false (key = "")) by done. by rewrite bool_decide_true.
Qed.

Lemma digest_nonempty key e : ComputeAdminAuditDigest key e <> "".
Proof. unfold ComputeAdminAuditDigest. by case_bool_decide. Qed.

(** A verified row under a key set since: its digest is the one the key gives. *)
Lemma verified_digest key e :
  verified key e ->
  RowDigest e = adminAuditLegacySHA256Digest (adminAuditDigestPayloadBytes e) \/
  RowDigest e = computeAdminAuditHMACSHA256Digest (adminAuditDigestPayloadBytes e) key.
Proof.
  unfold verified, AdminAuditIntegrityStatus. repeat case_bool_decide; try done; auto;
    repeat (destruct (HasPrefix _ _); try done; auto).
Qed.

(** Rows oldest first, each linked to the one before. *)
Fixpoint linked (log : list AdminAuditLogEntry) : Prop :=
  match log with
  | older :: (newer :: _) as rest => PreviousDigest newer = RowDigest older /\ linked rest
  | _ => True
  end.

Lemma linked_app l l' : linked (l ++ l') -> linked l /\ linked l'.
Proof.
  induction l as [|x [|y l] IH]; simpl; [done| |].
  - by destruct l'; simpl; [|intros [_ H]].
  - intros [H1 H2]. apply IH in H2 as [H2 H3]. auto.
Qed.

Lemma linked_snoc l last e :
  linked (l ++ [last]) -> PreviousDigest e = RowDigest last -> linked ((l ++ [last]) ++ [e]).
Proof.
  induction l as [|x [|y l] IH]; simpl; [done| |].
  - intros [H _] He. auto.
  - intros [H1 H2] He. split; [done|]. by apply IH.
Qed.

Lemma check_links_cons e n page :
  PreviousDigest e = RowDigest n -> check_links (e :: n :: page) = e :: check_links (n :: page).
Proof.
  intros H. change (check_links (e :: n :: page)) with
    ((if bool_decide (IntegrityStatus e = AdminAuditIntegrityVerified) &&
         negb (bool_decide (PreviousDigest e = "") || bool_decide (RowDigest n = "")) &&
         negb (bool_decide (PreviousDigest e = RowDigest n))
      then set_status AdminAuditIntegrityBroken e else e) :: check_links (n :: page)).
  by rewrite (bool_decide_true (PreviousDigest e = RowDigest n)), andb_false_r by done.
Qed.

(** A page is part of the log, newest first; a linked and verified log shows
    every row of it as verified. *)
Lemma check_links_verified page :
  Forall (fun e => IntegrityStatus e = AdminAuditIntegrityVerified) page -> linked (reverse page) ->
  check_links page = page.
Proof.
  induction page as [|e [|n page] IH]; [done..|]. intros Hall Hl.
  apply Forall_cons in Hall as [He Hall]. rewrite reverse_cons in Hl.
  rewrite check_links_cons, IH; [done|done| |].
  - by apply linked_app in Hl as [? _].
  - rewrite reverse_cons, <- app_assoc in Hl. apply linked_app in Hl as [_ Hl]. simpl in Hl. tauto.
Qed.

Lemma linked_set_status (f : AdminAuditLogEntry -> string) log :
  linked ((fun e => set_status (f e) e) <$> log) <-> linked log.
Proof.
  induction log as [|x [|y log] IH]; [done..|].
  change (linked ((fun e => set_status (f e) e) <$> x :: y :: log)) with
    (PreviousDigest y = RowDigest x /\ linked ((fun e => set_status (f e) e) <$> y :: log)).
  rewrite IH. done.
Qed.

Lemma Annotate_verified key page :
  Forall (verified key) page -> linked (reverse page) ->
  AnnotateAdminAuditIntegrity key page = set_status AdminAuditIntegrityVerified <$> page.
Proof.
  intros Hall Hl. unfold AnnotateAdminAuditIntegrity.
  assert ((fun e => set_status (AdminAuditIntegrityStatus key e) e) <$> page =
          set_status AdminAuditIntegrityVerified <$> page) as ->.
  { apply list_fmap_ext. intros i e He. f_equal. rewrite Forall_lookup in Hall. by apply (Hall i). }
  apply check_links_verified.
  - apply Forall_fmap, Forall_true. done.
  - rewrite <- fmap_reverse. by apply (linked_set_status (fun _ => AdminAuditIntegrityVerified)).
Qed.
End digests.

(** ** Audit details *)

(** [None] is the unmarshalling error; the entry is unchanged then. *)
Definition SetAdminAuditDetail (entry : option AdminAuditEntry) (key value : string)
    : option (option AdminAuditEntry) :=
  match entry with
  | None => Some None
  | Some e =>
      details ← (if bool_decide (Details e = "") then Some (Some ∅) else unmarshal_map (Details e) ∅);
      Some (Some (mk_audit (Action e) (marshal_map (<[key := value]> (default ∅ details)))
                    (auditIP e) (auditCorrelationID e)))
  end.
