(* ===== verification/RefreshStatus.v ===== *)
(** Refresh job statuses: internal/db/refresh_status.go. *)
From stdpp Require Import base list option strings gmap.
From Stdlib Require Import Ascii ZArith Lia.
From S2P Require Import Prelude GoStrings.

Definition RefreshStatusPending : string := "pending".
Definition RefreshStatusProcessing : string := "processing".
Definition RefreshStatusPaused : string := "paused".
Definition RefreshStatusDone : string := "done".
Definition RefreshStatusError : string := "error".

Definition RefreshStatuses : list string :=
  [RefreshStatusPending; RefreshStatusProcessing; RefreshStatusPaused; RefreshStatusDone; RefreshStatusError].
Definition ActiveRefreshStatuses : list string :=
  [RefreshStatusPending; RefreshStatusProcessing; RefreshStatusPaused].
Definition DrainableRefreshStatuses : list string := [RefreshStatusPending; RefreshStatusProcessing].
Definition TerminalRefreshStatuses : list string := [RefreshStatusDone; RefreshStatusError].
Definition ClearableRefreshStatuses : list string :=
  [RefreshStatusPending; RefreshStatusPaused; RefreshStatusDone; RefreshStatusError].
Definition RetryableRefreshStatuses : list string :=
  [RefreshStatusDone; RefreshStatusError; RefreshStatusPaused].

Definition refreshStatusPredicateSQL (column : string) (statuses : list string) : string :=
  column +:+ " IN (" +:+ Join ((fun s => "'" +:+ s +:+ "'") <$> statuses) ", " +:+ ")".

Definition DrainableRefreshStatusPredicateSQL : string :=
  refreshStatusPredicateSQL "status" DrainableRefreshStatuses.

Section statuses.
Context {U : UnicodeCase}.

Definition NormalizeRefreshStatus (raw : string) : option string :=
  let status := ToLower (TrimSpace raw) in
  if bool_decide (status ∈ [RefreshStatusPending; RefreshStatusProcessing; RefreshStatusPaused;
                            RefreshStatusDone; RefreshStatusError])
  then Some status else None.

(** The predicates normalise first and then test membership. *)
Definition normalized_in (l : list string) (status : string) : bool :=
  match NormalizeRefreshStatus status with
  | Some status => bool_decide (status ∈ l)
  | None => false
  end.

Definition IsActiveRefreshStatus : string -> bool :=
  normalized_in [RefreshStatusPending; RefreshStatusProcessing; RefreshStatusPaused].
Definition IsDrainableRefreshStatus : string -> bool :=
  normalized_in [RefreshStatusPending; RefreshStatusProcessing].
Definition IsTerminalRefreshStatus : string -> bool :=
  normalized_in [RefreshStatusDone; RefreshStatusError].
Definition CanRetryRefreshStatus : string -> bool :=
  normalized_in [RefreshStatusDone; RefreshStatusError; RefreshStatusPaused].

Definition CanClearRefreshStatus (status : string) : bool :=
  match NormalizeRefreshStatus status with
  | Some status => bool_decide (status = RefreshStatusPending) || bool_decide (status = RefreshStatusPaused)
                   || IsTerminalRefreshStatus status
  | None => false
  end.

(** The loop of [NormalizeClearableRefreshStatuses]. *)
Fixpoint clearable_loop (seen : gset string) (statuses : list string) : list string :=
  match statuses with
  | [] => []
  | raw :: rest =>
      match NormalizeRefreshStatus raw with
      | None => clearable_loop seen rest
      | Some status =>
          if negb (CanClearRefreshStatus status) then clearable_loop seen rest
          else if bool_decide (status ∈ seen) then clearable_loop seen rest
          else status :: clearable_loop ({[status]} ∪ seen) rest
      end
  end.

Definition NormalizeClearableRefreshStatuses (statuses : list string) : list string :=
  clearable_loop ∅ statuses.

Definition RefreshStatusLabel (status : string) : string :=
  let raw := TrimSpace status in
  match NormalizeRefreshStatus status with
  | None => raw
  | Some status =>
      if bool_decide (status = RefreshStatusPending) then "Pending"
      else if bool_decide (status = RefreshStatusProcessing) then "Processing"
      else if bool_decide (status = RefreshStatusPaused) then "Paused"
      else if bool_decide (status = RefreshStatusDone) then "Done"
      else if bool_decide (status = RefreshStatusError) then "Error"
      else status
  end.

(** ** Lemmas *)

(** Case analysis on a known status. *)
Lemma RefreshStatuses_cases (P : string -> Prop) :
  P RefreshStatusPending -> P RefreshStatusProcessing -> P RefreshStatusPaused -> P RefreshStatusDone ->
  P RefreshStatusError -> forall st, st ∈ RefreshStatuses -> P st.
Proof.
  intros H1 H2 H3 H4 H5 st Hst. unfold RefreshStatuses in Hst.
  rewrite !elem_of_cons, elem_of_nil in Hst. by destruct Hst as [->|[->|[->|[->|[->|[]]]]]].
Qed.

Lemma Normalize_known st : st ∈ RefreshStatuses -> NormalizeRefreshStatus st = Some st.
Proof. revert st. apply RefreshStatuses_cases; reflexivity. Qed.

Lemma Normalize_Some raw st : NormalizeRefreshStatus raw = Some st -> st ∈ RefreshStatuses.
Proof. unfold NormalizeRefreshStatus. case_bool_decide; [|done]. by intros [= <-]. Qed.

Lemma normalized_in_known l st :
  st ∈ RefreshStatuses -> normalized_in l st = bool_decide (st ∈ l).
Proof. intros H. unfold normalized_in. by rewrite Normalize_known. Qed.

Lemma active_known st : st ∈ RefreshStatuses -> IsActiveRefreshStatus st = negb (IsTerminalRefreshStatus st).
Proof. revert st. apply RefreshStatuses_cases; reflexivity. Qed.

Lemma CanClear_Some raw : CanClearRefreshStatus raw = true -> exists st, NormalizeRefreshStatus raw = Some st.
Proof. unfold CanClearRefreshStatus. destruct (NormalizeRefreshStatus raw); eauto. done. Qed.

Lemma clearable_loop_spec seen statuses :
  NoDup (clearable_loop seen statuses) /\
  (forall st, st ∈ clearable_loop seen statuses <->
     st ∉ seen /\ st ∈ ClearableRefreshStatuses /\
     exists raw, raw ∈ statuses /\ NormalizeRefreshStatus raw = Some st).
Proof.
  assert (forall raw st, NormalizeRefreshStatus raw = Some st ->
    CanClearRefreshStatus st = bool_decide (st ∈ ClearableRefreshStatuses)) as Hclear.
  { intros raw st H%Normalize_Some. revert st H. apply RefreshStatuses_cases; reflexivity. }
  revert seen. induction statuses as [|raw rest IH]; intros seen; simpl.
  { split; [constructor|]. intros st. rewrite elem_of_nil. split; [done|].
    by intros (_ & _ & ? & ?%elem_of_nil & _). }
  assert ((forall st, NormalizeRefreshStatus raw = Some st -> st ∈ seen \/ st ∉ ClearableRefreshStatuses) ->
    NoDup (clearable_loop seen rest) /\
    (forall st, st ∈ clearable_loop seen rest <-> st ∉ seen /\ st ∈ ClearableRefreshStatuses /\
       exists r, r ∈ raw :: rest /\ NormalizeRefreshStatus r = Some st)) as Hskip.
  { intros Hno. destruct (IH seen) as [H1 H2]. split; [done|]. intros st. rewrite H2.
    split; intros (Hs & Hc & r & Hr & E); split_and!; try done; exists r; (split; [|done]).
    - by right.
    - apply elem_of_cons in Hr as [->|?]; [|done]. by destruct (Hno st E). }
  destruct (NormalizeRefreshStatus raw) as [st|] eqn:E; [|by apply Hskip].
  rewrite (Hclear raw st E). destruct (bool_decide_reflect (st ∈ ClearableRefreshStatuses)) as [Hc|Hc]; simpl.
  2:{ apply Hskip. intros ? [= <-]. by right. }
  case_bool_decide as Hseen.
  { apply Hskip. intros ? [= <-]. by left. }
  destruct (IH ({[st]} ∪ seen)) as [H1 H2]. split.
  - constructor; [|done]. rewrite H2. set_solver.
  - intros st'. rewrite elem_of_cons, H2. split.
    + intros [->|(Hs & Hc' & r & Hr & Er)]; [|set_solver].
      split_and!; [done..|]. exists raw. split; [by left|done].
    + intros (Hs & Hc' & r & [->|Hr]%elem_of_cons & Er); [left; congruence|].
      destruct (decide (st' = st)) as [->|]; [by left|right]. split_and!; [set_solver|done|eauto].
Qed.

(** ** Theorems *)

(** The status predicates partition the known statuses.  Every known
    status is drainable, paused or terminal, and only one of them; active
    means not terminal, retryable means not drainable, clearable means not
    processing; every other text is in no class.  The statuses an operator asks
    to clear are reduced to the clearable ones, each once, so a job being
    processed is never cleared. *)
Theorem refresh_status_classes raw statuses :
  (forall st, NormalizeRefreshStatus raw = Some st ->
     (IsDrainableRefreshStatus raw = true <-> st ∈ DrainableRefreshStatuses) /\
     IsActiveRefreshStatus raw = negb (IsTerminalRefreshStatus raw) /\
     CanRetryRefreshStatus raw = negb (IsDrainableRefreshStatus raw) /\
     CanClearRefreshStatus raw = negb (bool_decide (st = RefreshStatusProcessing)) /\
     negb (IsDrainableRefreshStatus raw && IsTerminalRefreshStatus raw) = true) /\
  (NormalizeRefreshStatus raw = None ->
     IsActiveRefreshStatus raw = false /\ IsTerminalRefreshStatus raw = false /\
     CanRetryRefreshStatus raw = false /\ CanClearRefreshStatus raw = false) /\
  NoDup (NormalizeClearableRefreshStatuses statuses) /\
  (forall st, st ∈ NormalizeClearableRefreshStatuses statuses <->
     st <> RefreshStatusProcessing /\ exists s, s ∈ statuses /\ NormalizeRefreshStatus s = Some st).
Proof.
  split_and!.
  - intros st E. unfold IsDrainableRefreshStatus, IsActiveRefreshStatus, IsTerminalRefreshStatus,
      CanRetryRefreshStatus, CanClearRefreshStatus, normalized_in. rewrite E.
    pose proof (Normalize_Some _ _ E) as H. clear E. revert st H.
    apply RefreshStatuses_cases; split_and!; try reflexivity; apply bool_decide_eq_true.
  - intros E. unfold IsActiveRefreshStatus, IsTerminalRefreshStatus, CanRetryRefreshStatus,
      CanClearRefreshStatus, normalized_in. by rewrite E.
  - apply clearable_loop_spec.
  - intros st. unfold NormalizeClearableRefreshStatuses. rewrite (proj2 (clearable_loop_spec ∅ statuses)).
    split.
    + intros (_ & Hc & H). split; [|done]. intros ->. revert Hc. apply (bool_decide_eq_false_1 _). reflexivity.
    + intros (Hne & s & Hs & E). split_and!; [set_solver| |eauto].
      pose proof (Normalize_Some _ _ E) as H. clear E. revert Hne. revert st H.
      apply (RefreshStatuses_cases (fun st => st <> _ -> st ∈ _)); try done; intros _; decided.
Qed.
End statuses.

(** ** Witnesses *)

Lemma refresh_status_classes_witness :
  NormalizeRefreshStatus (U := plain_case) " Processing " = Some "processing" /\
  CanClearRefreshStatus (U := plain_case) " Processing " = negb (bool_decide ("processing" = RefreshStatusProcessing)).
Proof.
  split; [vm_compute; reflexivity|].
  apply (proj1 (refresh_status_classes (U := plain_case) " Processing " []) "processing").
  vm_compute. reflexivity.
Defined.
