(* ===== verification/DevStore.v ===== *)
(** The in-memory store, first part: internal/devstore/noop.go, and the audit
    log, API keys and admin credentials of noop_admin.go.

    Every method of the store takes the store's mutex for its whole body, so a
    method is one atomic step: a function from the store to the store, with
    the clock readings the method takes as arguments.  The copies the methods
    make of what they store and return (noop_helpers.go) keep callers from
    changing the store behind its mutex, which is what lets the model use
    values.  Identifiers are counters that start at 0 and only grow by one, so
    that they stay far below the limit of an int. *)
From stdpp Require Import base list option strings gmap.
From Stdlib Require Import Ascii ZArith Lia.
From S2P Require Import Prelude GoStrings Json Collections JsonEncode GoTime SyncRows AuditLog RefreshStatus.
From S2P Require Import Advisories.

(** ** Data *)

Record APIKey := mk_key {
  keyID : Z;
  keyName : string;
  KeyHash : string;
  keyCreatedAt : Time;
  RevokedAt : option Time;
  LastUsedAt : option Time;
  ExpiresAt : option Time;
  DeletedAt : option Time
}.

Record AdminAuth := mk_auth {
  PasswordHash : string;
  PasswordIsBootstrap : bool;
  authCreatedAt : Time;
  PasswordChangedAt : option Time;
  LastLoginAt : option Time
}.

Record RefreshJob := mk_job {
  ID : Z;
  Ecosystem : string;
  Name : string;
  Source : string;
  Priority : Z;
  Status : string;
  RequestedAt : Time;
  ProcessedAt : option Time;
  Error : string
}.

Record PackageCheckStatus := mk_check {
  checkEcosystem : string;
  checkName : string;
  checkSource : string;
  LastCheckedAt : option Time;
  NextCheckAt : option Time;
  CheckCount : Z;
  LastResult : string
}.

Record Store := mk_store {
  adminAuth : option AdminAuth;
  apiKeys : list APIKey;
  auditLog : list AdminAuditLogEntry;
  feedConfigs : gmap string FeedConfig;
  feedStatuses : gmap string FeedSyncStatus;
  systemConfig : option SystemSettings;
  vulnerable : gmap string Vulnerability;
  malicious : gmap string MaliciousFinding;
  maliciousDel : gmap string SyncMalicious;
  checkStatuses : gmap string PackageCheckStatus;
  scanLogs : list ScanLogEntry;
  refreshJobs : list RefreshJob;
  nextAPIKeyID : Z;
  nextAuditID : Z;
  nextManualID : Z;
  nextJobID : Z
}.

Definition NewStore : Store := mk_store None [] [] ∅ ∅ None ∅ ∅ ∅ ∅ [] [] 0 0 0 0.

(** Field updates. *)
Definition set_auth (a : option AdminAuth) (s : Store) : Store :=
  mk_store a (apiKeys s) (auditLog s) (feedConfigs s) (feedStatuses s) (systemConfig s)
    (vulnerable s) (malicious s) (maliciousDel s) (checkStatuses s) (scanLogs s)
    (refreshJobs s) (nextAPIKeyID s) (nextAuditID s) (nextManualID s) (nextJobID s).
Definition set_keys (ks : list APIKey) (s : Store) : Store :=
  mk_store (adminAuth s) ks (auditLog s) (feedConfigs s) (feedStatuses s) (systemConfig s)
    (vulnerable s) (malicious s) (maliciousDel s) (checkStatuses s) (scanLogs s)
    (refreshJobs s) (nextAPIKeyID s) (nextAuditID s) (nextManualID s) (nextJobID s).
Definition set_log (l : list AdminAuditLogEntry) (s : Store) : Store :=
  mk_store (adminAuth s) (apiKeys s) l (feedConfigs s) (feedStatuses s) (systemConfig s)
    (vulnerable s) (malicious s) (maliciousDel s) (checkStatuses s) (scanLogs s)
    (refreshJobs s) (nextAPIKeyID s) (nextAuditID s) (nextManualID s) (nextJobID s).
Definition set_feedConfigs (m : gmap string FeedConfig) (s : Store) : Store :=
  mk_store (adminAuth s) (apiKeys s) (auditLog s) m (feedStatuses s) (systemConfig s)
    (vulnerable s) (malicious s) (maliciousDel s) (checkStatuses s) (scanLogs s)
    (refreshJobs s) (nextAPIKeyID s) (nextAuditID s) (nextManualID s) (nextJobID s).
Definition set_feedStatuses (m : gmap string FeedSyncStatus) (s : Store) : Store :=
  mk_store (adminAuth s) (apiKeys s) (auditLog s) (feedConfigs s) m (systemConfig s)
    (vulnerable s) (malicious s) (maliciousDel s) (checkStatuses s) (scanLogs s)
    (refreshJobs s) (nextAPIKeyID s) (nextAuditID s) (nextManualID s) (nextJobID s).
Definition set_systemConfig (c : option SystemSettings) (s : Store) : Store :=
  mk_store (adminAuth s) (apiKeys s) (auditLog s) (feedConfigs s) (feedStatuses s) c
    (vulnerable s) (malicious s) (maliciousDel s) (checkStatuses s) (scanLogs s)
    (refreshJobs s) (nextAPIKeyID s) (nextAuditID s) (nextManualID s) (nextJobID s).
Definition set_vulnerable (m : gmap string Vulnerability) (s : Store) : Store :=
  mk_store (adminAuth s) (apiKeys s) (auditLog s) (feedConfigs s) (feedStatuses s) (systemConfig s)
    m (malicious s) (maliciousDel s) (checkStatuses s) (scanLogs s)
    (refreshJobs s) (nextAPIKeyID s) (nextAuditID s) (nextManualID s) (nextJobID s).
Definition set_malicious (m : gmap string MaliciousFinding) (s : Store) : Store :=
  mk_store (adminAuth s) (apiKeys s) (auditLog s) (feedConfigs s) (feedStatuses s) (systemConfig s)
    (vulnerable s) m (maliciousDel s) (checkStatuses s) (scanLogs s)
    (refreshJobs s) (nextAPIKeyID s) (nextAuditID s) (nextManualID s) (nextJobID s).
Definition set_maliciousDel (m : gmap string SyncMalicious) (s : Store) : Store :=
  mk_store (adminAuth s) (apiKeys s) (auditLog s) (feedConfigs s) (feedStatuses s) (systemConfig s)
    (vulnerable s) (malicious s) m (checkStatuses s) (scanLogs s)
    (refreshJobs s) (nextAPIKeyID s) (nextAuditID s) (nextManualID s) (nextJobID s).
Definition set_checks (m : gmap string PackageCheckStatus) (s : Store) : Store :=
  mk_store (adminAuth s) (apiKeys s) (auditLog s) (feedConfigs s) (feedStatuses s) (systemConfig s)
    (vulnerable s) (malicious s) (maliciousDel s) m (scanLogs s)
    (refreshJobs s) (nextAPIKeyID s) (nextAuditID s) (nextManualID s) (nextJobID s).
Definition set_scanLogs (l : list ScanLogEntry) (s : Store) : Store :=
  mk_store (adminAuth s) (apiKeys s) (auditLog s) (feedConfigs s) (feedStatuses s) (systemConfig s)
    (vulnerable s) (malicious s) (maliciousDel s) (checkStatuses s) l
    (refreshJobs s) (nextAPIKeyID s) (nextAuditID s) (nextManualID s) (nextJobID s).
Definition set_jobs (js : list RefreshJob) (s : Store) : Store :=
  mk_store (adminAuth s) (apiKeys s) (auditLog s) (feedConfigs s) (feedStatuses s) (systemConfig s)
    (vulnerable s) (malicious s) (maliciousDel s) (checkStatuses s) (scanLogs s)
    js (nextAPIKeyID s) (nextAuditID s) (nextManualID s) (nextJobID s).
Definition set_nextAPIKeyID (n : Z) (s : Store) : Store :=
  mk_store (adminAuth s) (apiKeys s) (auditLog s) (feedConfigs s) (feedStatuses s) (systemConfig s)
    (vulnerable s) (malicious s) (maliciousDel s) (checkStatuses s) (scanLogs s)
    (refreshJobs s) n (nextAuditID s) (nextManualID s) (nextJobID s).
Definition set_nextAuditID (n : Z) (s : Store) : Store :=
  mk_store (adminAuth s) (apiKeys s) (auditLog s) (feedConfigs s) (feedStatuses s) (systemConfig s)
    (vulnerable s) (malicious s) (maliciousDel s) (checkStatuses s) (scanLogs s)
    (refreshJobs s) (nextAPIKeyID s) n (nextManualID s) (nextJobID s).
Definition set_nextManualID (n : Z) (s : Store) : Store :=
  mk_store (adminAuth s) (apiKeys s) (auditLog s) (feedConfigs s) (feedStatuses s) (systemConfig s)
    (vulnerable s) (malicious s) (maliciousDel s) (checkStatuses s) (scanLogs s)
    (refreshJobs s) (nextAPIKeyID s) (nextAuditID s) n (nextJobID s).
Definition set_nextJobID (n : Z) (s : Store) : Store :=
  mk_store (adminAuth s) (apiKeys s) (auditLog s) (feedConfigs s) (feedStatuses s) (systemConfig s)
    (vulnerable s) (malicious s) (maliciousDel s) (checkStatuses s) (scanLogs s)
    (refreshJobs s) (nextAPIKeyID s) (nextAuditID s) (nextManualID s) n.

(** The errors the methods return. *)
Inductive error :=
| JobNotFound (id : Z)
| JobNotPending (id : Z)
| JobNotPaused (id : Z)
| JobNotRetryable (id : Z)
| MissingClaim (id : Z)
| KeyNotFound (id : Z)
| KeyAlreadyRevoked (id : Z)
| KeyNotRevoked (id : Z)
| MissingAudit
| BadAuditDetails
| AdminAuthConflict
| ErrConflict
| NilFinding
| SourceRequired
| UnsupportedFindingType (findingType : string)
| AdvisoryNotFound (id : string).

(** What a method returns: an error or a value. *)
Notation result A := (error + A)%type.

(** The index of the first element that satisfies [P]. *)
Fixpoint index_of {A} (P : A -> bool) (l : list A) : option nat :=
  match l with
  | [] => None
  | x :: rest => if P x then Some O else S <$> index_of P rest
  end.

Lemma index_of_Some {A} (P : A -> bool) l i :
  index_of P l = Some i <->
  exists x, l !! i = Some x /\ P x = true /\ forall j y, (j < i)%nat -> l !! j = Some y -> P y = false.
Proof.
  revert i. induction l as [|x l IH]; intros i; simpl.
  { split; [done|]. by intros (? & ? & _). }
  destruct (P x) eqn:E.
  - split.
    + intros [= <-]. exists x. split_and!; [done..|]. intros; lia.
    + intros (y & Hy & HP & Hmin). destruct i as [|i]; [done|].
      rewrite (Hmin O x) in E; [done|lia|done].
  - split.
    + intros (i' & (y & Hy & HP & Hmin)%IH & ->)%fmap_Some. exists y. split_and!; [done..|].
      intros [|j] z Hj Hz; simplify_eq/=; [done|]. apply (Hmin j); [lia|done].
    + intros (y & Hy & HP & Hmin). destruct i as [|i]; simplify_eq/=; [congruence|].
      apply fmap_Some. exists i. split; [|done]. apply IH. exists y. split_and!; [done..|].
      intros j z Hj Hz. apply (Hmin (S j)); [lia|done].
Qed.

Lemma index_of_None {A} (P : A -> bool) l :
  index_of P l = None <-> forall x, x ∈ l -> P x = false.
Proof.
  induction l as [|x l IH]; simpl.
  { split; [by intros _ ? ?%elem_of_nil|done]. }
  setoid_rewrite elem_of_cons. destruct (P x) eqn:E.
  - split; [done|]. intros H. rewrite (H x) in E; [done|by left].
  - rewrite fmap_None, IH. split; [intros H y [->|?]; auto | auto].
Qed.

Section store.
Context {C : AuditCrypto} (key : string).

(** ** The audit log *)

Definition last_digest (log : list AdminAuditLogEntry) : string :=
  match last log with Some e => RowDigest e | None => "" end.

(** [None] is the nil entry.  The method never fails.  [now] is the clock
    reading, truncated to microseconds in the row. *)
Definition insertAdminAuditLogLocked (now : Time) (entry : option AdminAuditEntry) (s : Store) : Store :=
  match entry with
  | None => s
  | Some entry =>
      let s := set_nextAuditID (nextAuditID s + 1) s in
      let now := truncate_micro now in
      let auditEntry := mk_log_entry (nextAuditID s) (Action entry) (Details entry) (auditIP entry) ""
                          now (last_digest (auditLog s)) "" "" in
      let auditEntry := set_digest (ComputeAdminAuditDigest key auditEntry) auditEntry in
      let auditEntry := set_status (AdminAuditIntegrityStatus key auditEntry) auditEntry in
      let s := set_log (auditLog s ++ [auditEntry]) s in
      if bool_decide (Action entry = "login_success")
      then set_auth ((fun a => mk_auth (PasswordHash a) (PasswordIsBootstrap a) (authCreatedAt a)
                                 (PasswordChangedAt a) (Some now)) <$> adminAuth s) s
      else s
  end.

Definition InsertAdminAuditLog (now : Time) (entry : option AdminAuditEntry) (s : Store) : Store :=
  insertAdminAuditLogLocked now entry s.

(** The loop of [ListAdminAuditLogPage] over the rows, newest first: skip
    [offset] of them, then take until [limit] are out. *)
Fixpoint page_loop {A} (rows : list A) (skipped offset limit out : Z) : list A :=
  match rows with
  | [] => []
  | row :: rest =>
      if negb (out <? limit) then []
      else if skipped <? offset then page_loop rest (skipped + 1) offset limit out
      else row :: page_loop rest skipped offset limit (out + 1)
  end.

Definition ListAdminAuditLogPage (limit offset : Z) (s : Store) : list AdminAuditLogEntry :=
  let n := Z.of_nat (length (auditLog s)) in
  let limit := if (limit <=? 0) || (n <? limit) then n else limit in
  let offset := if offset <? 0 then 0 else offset in
  AnnotateAdminAuditIntegrity key (page_loop (reverse (auditLog s)) 0 offset limit 0).

Definition ListAdminAuditLog (limit : Z) (s : Store) : list AdminAuditLogEntry :=
  ListAdminAuditLogPage limit 0 s.

(** The rows kept, and how many are removed. *)
Definition PruneAdminAuditLogs (now : Time) (retention : Duration) (s : Store) : Z * Store :=
  if retention <=? 0 then (0, s)
  else
    let cutoff := Add now (- retention) in
    let kept := filter (fun e => Before (logCreatedAt e) cutoff = false) (auditLog s) in
    (Z.of_nat (length (auditLog s) - length kept), set_log kept s).

(** ** API keys *)

Definition IsExpired (k : APIKey) (now : Time) : bool :=
  match ExpiresAt k with None => false | Some t => negb (After t now) end.

Definition usable (now : Time) (k : APIKey) : bool :=
  bool_decide (RevokedAt k = None) && bool_decide (DeletedAt k = None) && negb (IsExpired k now).

Definition FindAPIKeyByHash (now : Time) (keyHash : string) (s : Store) : option APIKey :=
  List.find (fun k => usable now k && bool_decide (KeyHash k = keyHash)) (apiKeys s).

Definition key_index (id : Z) (s : Store) : option nat := index_of (fun k => keyID k =? id) (apiKeys s).

Definition apiKeyIndexLocked (id : Z) (s : Store) : result nat :=
  match key_index id s with Some i => inr i | None => inl (KeyNotFound id) end.

Definition touch (now : Time) (k : APIKey) : APIKey :=
  mk_key (keyID k) (keyName k) (KeyHash k) (keyCreatedAt k) (RevokedAt k) (Some now) (ExpiresAt k)
    (DeletedAt k).

Definition TouchAPIKeyLastUsed (now : Time) (id : Z) (s : Store) : Store :=
  match key_index id s with
  | None => s
  | Some i =>
      match apiKeys s !! i with
      | Some k => if bool_decide (DeletedAt k = None) then set_keys (<[i := touch now k]> (apiKeys s)) s else s
      | None => s
      end
  end.

Definition ListAPIKeys (s : Store) : list APIKey := reverse (apiKeys s).

Definition createAPIKeyLocked (now : Time) (name keyHash : string) (expiresAt : option Time) (s : Store)
    : Z * Store :=
  let id := nextAPIKeyID s + 1 in
  let s := set_nextAPIKeyID id s in
  (id, set_keys (apiKeys s ++ [mk_key id name keyHash now None None expiresAt None]) s).

Definition CreateAPIKey (now : Time) (name keyHash : string) (expiresAt : option Time) (s : Store) : Z * Store :=
  createAPIKeyLocked now name keyHash expiresAt s.

(** [now] is read for the audit row, [now'] for the key. *)
Definition CreateAPIKeyWithAudit (now now' : Time) (name keyHash : string) (expiresAt : option Time)
    (audit : option AdminAuditEntry) (s : Store) : result Z * Store :=
  let id := nextAPIKeyID s + 1 in
  match SetAdminAuditDetail audit "key_id" (Itoa id) with
  | None => (inl BadAuditDetails, s)
  | Some audit =>
      let s := insertAdminAuditLogLocked now audit s in
      let '(id, s) := createAPIKeyLocked now' name keyHash expiresAt s in (inr id, s)
  end.

Definition revoke (now : Time) (k : APIKey) : APIKey :=
  mk_key (keyID k) (keyName k) (KeyHash k) (keyCreatedAt k) (Some now) (LastUsedAt k) (ExpiresAt k)
    (DeletedAt k).

(** The checks of a revocation on the key at the index. *)
Definition revocable (id : Z) (s : Store) : result (nat * APIKey) :=
  match key_index id s with
  | None => inl (KeyNotFound id)
  | Some i =>
      match apiKeys s !! i with
      | None => inl (KeyNotFound id)
      | Some k =>
          if negb (bool_decide (RevokedAt k = None)) then inl (KeyAlreadyRevoked id)
          else if negb (bool_decide (DeletedAt k = None)) then inl (KeyNotFound id)
          else inr (i, k)
      end
  end.

Definition revokeAPIKeyLocked (now : Time) (id : Z) (s : Store) : result unit * Store :=
  match revocable id s with
  | inl e => (inl e, s)
  | inr (i, k) => (inr tt, set_keys (<[i := revoke now k]> (apiKeys s)) s)
  end.

Definition RevokeAPIKey (now : Time) (id : Z) (s : Store) : result unit * Store :=
  revokeAPIKeyLocked now id s.

Definition RevokeAPIKeyWithAudit (now now' : Time) (id : Z) (audit : option AdminAuditEntry) (s : Store)
    : result unit * Store :=
  match revocable id s with
  | inl e => (inl e, s)
  | inr (i, k) =>
      match audit with
      | None => (inl MissingAudit, s)
      | Some _ =>
          let s := insertAdminAuditLogLocked now audit s in
          (inr tt, set_keys (<[i := revoke now' k]> (apiKeys s)) s)
      end
  end.

Definition deletable (id : Z) (s : Store) : result nat :=
  match key_index id s with
  | None => inl (KeyNotFound id)
  | Some i =>
      match apiKeys s !! i with
      | None => inl (KeyNotFound id)
      | Some k => if bool_decide (RevokedAt k = None) then inl (KeyNotRevoked id) else inr i
      end
  end.

Definition deleteAPIKeyLocked (id : Z) (s : Store) : result unit * Store :=
  match deletable id s with
  | inl e => (inl e, s)
  | inr i => (inr tt, set_keys (delete i (apiKeys s)) s)
  end.

Definition DeleteAPIKey (id : Z) (s : Store) : result unit * Store := deleteAPIKeyLocked id s.

Definition DeleteAPIKeyWithAudit (now : Time) (id : Z) (audit : option AdminAuditEntry) (s : Store)
    : result unit * Store :=
  match deletable id s with
  | inl e => (inl e, s)
  | inr i =>
      match audit with
      | None => (inl MissingAudit, s)
      | Some _ =>
          let s := insertAdminAuditLogLocked now audit s in
          (inr tt, set_keys (delete i (apiKeys s)) s)
      end
  end.

(** ** Admin credentials *)

Definition GetAdminAuth (s : Store) : option AdminAuth := adminAuth s.

Definition upsertAdminAuthLocked (now : Time) (passwordHash : string) (isBootstrap : bool) (s : Store) : Store :=
  match adminAuth s with
  | None => set_auth (Some (mk_auth passwordHash isBootstrap now None None)) s
  | Some a =>
      set_auth (Some (mk_auth passwordHash isBootstrap (authCreatedAt a)
                        (if isBootstrap then None else Some now) (LastLoginAt a))) s
  end.

Definition UpsertAdminAuth (now : Time) (passwordHash : string) (isBootstrap : bool) (s : Store) : Store :=
  upsertAdminAuthLocked now passwordHash isBootstrap s.

Definition UpsertAdminAuthWithAudit (now now' : Time) (passwordHash : string) (isBootstrap : bool)
    (audit : option AdminAuditEntry) (s : Store) : Store :=
  upsertAdminAuthLocked now' passwordHash isBootstrap (insertAdminAuditLogLocked now audit s).

Definition ChangeAdminPasswordWithAudit (now now' : Time) (newHash expectedOldHash : string)
    (audit : option AdminAuditEntry) (s : Store) : result unit * Store :=
  match adminAuth s with
  | Some a =>
      if bool_decide (PasswordHash a = expectedOldHash)
      then (inr tt, upsertAdminAuthLocked now' newHash false (insertAdminAuditLogLocked now audit s))
      else (inl AdminAuthConflict, s)
  | None => (inl AdminAuthConflict, s)
  end.
End store.

(** ** Frames

    The methods on feeds, findings and scan logs leave keys, jobs, check
    statuses and their counters alone, and write at most one audit row. *)

(** Nothing of keys, jobs, check statuses and the audit log changes. *)
Definition quiet (s s' : Store) : Prop :=
  apiKeys s' = apiKeys s /\ nextAPIKeyID s' = nextAPIKeyID s /\ refreshJobs s' = refreshJobs s /\
  nextJobID s' = nextJobID s /\ checkStatuses s' = checkStatuses s /\
  auditLog s' = auditLog s /\ nextAuditID s' = nextAuditID s.

(** The same, except for one audit row stamped with one of [times]. *)
Definition framed {C : AuditCrypto} (key : string) (times : list Time) (s s' : Store) : Prop :=
  quiet s s' \/
  exists now e s1 s2,
    now ∈ times /\ quiet s s1 /\ s2 = insertAdminAuditLogLocked key now (Some e) s1 /\ quiet s2 s'.

Lemma quiet_refl s : quiet s s.
Proof. done. Qed.

Lemma quiet_trans s1 s2 s3 : quiet s1 s2 -> quiet s2 s3 -> quiet s1 s3.
Proof. unfold quiet. intros. destruct_and!. split_and!; congruence. Qed.

Lemma quiet_feedConfigs s s' m : quiet s s' -> quiet s (set_feedConfigs m s').
Proof. done. Qed.
Lemma quiet_feedStatuses s s' m : quiet s s' -> quiet s (set_feedStatuses m s').
Proof. done. Qed.
Lemma quiet_systemConfig s s' c : quiet s s' -> quiet s (set_systemConfig c s').
Proof. done. Qed.
Lemma quiet_vulnerable s s' m : quiet s s' -> quiet s (set_vulnerable m s').
Proof. done. Qed.
Lemma quiet_malicious s s' m : quiet s s' -> quiet s (set_malicious m s').
Proof. done. Qed.
Lemma quiet_maliciousDel s s' m : quiet s s' -> quiet s (set_maliciousDel m s').
Proof. done. Qed.
Lemma quiet_scanLogs s s' l : quiet s s' -> quiet s (set_scanLogs l s').
Proof. done. Qed.
Lemma quiet_nextManualID s s' n : quiet s s' -> quiet s (set_nextManualID n s').
Proof. done. Qed.

Create HintDb frames.
#[export] Hint Resolve quiet_refl quiet_feedConfigs quiet_feedStatuses quiet_systemConfig quiet_vulnerable
  quiet_malicious quiet_maliciousDel quiet_scanLogs quiet_nextManualID : frames.

Lemma framed_quiet {C : AuditCrypto} key times s s' : quiet s s' -> framed key times s s'.
Proof. by left. Qed.

Lemma framed_insert {C : AuditCrypto} key times now e s s1 s' :
  now ∈ times -> quiet s s1 -> quiet (insertAdminAuditLogLocked key now e s1) s' -> framed key times s s'.
Proof.
  intros Hin H1 H2. destruct e as [e|].
  - right. by exists now, e, s1, (insertAdminAuditLogLocked key now (Some e) s1).
  - left. by apply (quiet_trans s s1).
Qed.

Lemma framed_row {C : AuditCrypto} key times now e s s1 :
  now ∈ times -> quiet s s1 -> framed key times s (insertAdminAuditLogLocked key now e s1).
Proof. intros Hin H. by apply (framed_insert key times now e s s1). Qed.
