(* ===== verification/RefreshQueue.v ===== *)
(** The in-memory store, second part: the refresh queue of
    internal/devstore/noop_refresh_queue.go.

    Workers claim the pending job of best priority and complete it under the
    claim; administrators retry, pause, resume, re-prioritise, clear and purge
    jobs.  The audited variants write the audit row first.  The redaction of
    diagnostics is logsafe.BoundedDiagnosticValue, a parameter here. *)
From stdpp Require Import base list option strings gmap.
From Stdlib Require Import Ascii ZArith Lia.
From S2P Require Import Prelude GoStrings Json Collections JsonEncode GoTime AuditLog RefreshStatus DevStore.

(** logsafe.BoundedDiagnosticValue: redact, then bound the length. *)
Class Logsafe := BoundedDiagnosticValue : string -> Z -> string.

(** Updates of one job. *)
Definition set_Status (st : string) (j : RefreshJob) : RefreshJob :=
  mk_job (ID j) (Ecosystem j) (Name j) (Source j) (Priority j) st (RequestedAt j) (ProcessedAt j) (Error j).
Definition set_Priority (p : Z) (j : RefreshJob) : RefreshJob :=
  mk_job (ID j) (Ecosystem j) (Name j) (Source j) p (Status j) (RequestedAt j) (ProcessedAt j) (Error j).
Definition set_RequestedAt (t : Time) (j : RefreshJob) : RefreshJob :=
  mk_job (ID j) (Ecosystem j) (Name j) (Source j) (Priority j) (Status j) t (ProcessedAt j) (Error j).
Definition set_ProcessedAt (t : option Time) (j : RefreshJob) : RefreshJob :=
  mk_job (ID j) (Ecosystem j) (Name j) (Source j) (Priority j) (Status j) (RequestedAt j) t (Error j).
Definition set_Error (e : string) (j : RefreshJob) : RefreshJob :=
  mk_job (ID j) (Ecosystem j) (Name j) (Source j) (Priority j) (Status j) (RequestedAt j) (ProcessedAt j) e.

Definition RefreshPriorityManual : Z := 0.
Definition RefreshPriorityUnknownPackage : Z := 1.
Definition RefreshPriorityKnownFinding : Z := 2.
Definition RefreshPriorityNormal : Z := 3.

Definition ValidRefreshPriority (priority : Z) : bool :=
  existsb (Z.eqb priority)
    [RefreshPriorityManual; RefreshPriorityUnknownPackage; RefreshPriorityKnownFinding; RefreshPriorityNormal].

Definition noopRefreshJobBefore (a b : RefreshJob) : bool :=
  if negb (Priority a =? Priority b) then Priority a <? Priority b
  else if negb (RequestedAt a =? RequestedAt b) then Before (RequestedAt a) (RequestedAt b)
  else ID a <? ID b.

Section queue.
Context {U : UnicodeCase} {C : AuditCrypto} {L : Logsafe} (key : string).

(** ** Enqueue *)

Definition drainable (j : RefreshJob) : bool := IsDrainableRefreshStatus (Status j).
Definition active (j : RefreshJob) : bool := IsActiveRefreshStatus (Status j).
Definition terminal (j : RefreshJob) : bool := IsTerminalRefreshStatus (Status j).

Definition queueJobIndex (jobID : Z) (jobs : list RefreshJob) : option nat :=
  index_of (fun j => ID j =? jobID) jobs.

(** The loop that counts the jobs before the target. *)
Definition position_loop (target : RefreshJob) (jobs : list RefreshJob) (position : Z) : Z :=
  fold_left (fun position job =>
    if negb (drainable job) || negb (bool_decide (Source job = Source target)) || (ID job =? ID target)
    then position
    else if noopRefreshJobBefore job target then position + 1 else position) jobs position.

Definition queuePositionLocked (jobID : Z) (jobs : list RefreshJob) : Z :=
  match queueJobIndex jobID jobs ≫= (jobs !!.) with
  | None => 0
  | Some target => if negb (drainable target) then 0 else position_loop target jobs 1
  end.

Definition same_package (a b : RefreshJob) : bool :=
  bool_decide (Ecosystem a = Ecosystem b) && bool_decide (Name a = Name b) && bool_decide (Source a = Source b).

(** The status a new job starts with. *)
Definition initial_status (st : string) : string :=
  if bool_decide (st = "") then RefreshStatusPending
  else default RefreshStatusPending (NormalizeRefreshStatus st).

(** [(created, position)] *)
Definition enqueueRefreshLocked (now : Time) (job : RefreshJob) (s : Store) : bool * Z * Store :=
  let jobs := refreshJobs s in
  match index_of (fun existing => same_package existing job && active existing) jobs with
  | Some i =>
      match jobs !! i with
      | Some existing =>
          let jobs := if Priority job <? Priority existing
                      then <[i := set_Priority (Priority job) existing]> jobs else jobs in
          (false, queuePositionLocked (ID existing) jobs, set_jobs jobs s)
      | None => (false, 0, s)
      end
  | None =>
      let id := nextJobID s + 1 in
      let copyValue := mk_job id (Ecosystem job) (Name job) (Source job) (Priority job)
                         (initial_status (Status job)) now (ProcessedAt job) (Error job) in
      let jobs := jobs ++ [copyValue] in
      (true, queuePositionLocked id jobs, set_jobs jobs (set_nextJobID id s))
  end.

Definition EnqueueRefresh (now : Time) (job : RefreshJob) (s : Store) : bool * Z * Store :=
  enqueueRefreshLocked now job s.

(** [None] is the nil audit builder. *)
Definition EnqueueRefreshWithAudit (now now' : Time) (job : RefreshJob)
    (audit : option (bool -> Z -> AdminAuditEntry)) (s : Store) : bool * Z * Store :=
  let '(created, position, s) := enqueueRefreshLocked now job s in
  match audit with
  | None => (created, position, s)
  | Some build =>
      (created, position, insertAdminAuditLogLocked key now' (Some (build created position)) s)
  end.

(** ** Claiming and completing *)

(** [job.Status == pending && (source == "" || job.Source == source)] *)
Definition claimable (source : string) (j : RefreshJob) : bool :=
  bool_decide (Status j = RefreshStatusPending) &&
  (bool_decide (source = "") || bool_decide (Source j = source)).

(** Whether a job replaces the best one so far. *)
Definition better (j best : RefreshJob) : bool :=
  (Priority j <? Priority best) ||
  ((Priority j =? Priority best) && Before (RequestedAt j) (RequestedAt best)).

(** The loop over the jobs from index [i] on, with the best index so far and
    the job at it. *)
Fixpoint best_loop (source : string) (i : nat) (jobs : list RefreshJob) (best : option (nat * RefreshJob))
    : option (nat * RefreshJob) :=
  match jobs with
  | [] => best
  | job :: rest =>
      let best :=
        if negb (claimable source job) then best
        else match best with
             | None => Some (i, job)
             | Some (bi, bj) => if better job bj then Some (i, job) else Some (bi, bj)
             end in
      best_loop source (S i) rest best
  end.

Definition DequeueRefresh (now : Time) (source : string) (s : Store) : option RefreshJob * Store :=
  match best_loop source 0 (refreshJobs s) None with
  | None => (None, s)
  | Some (i, job) =>
      let job := set_ProcessedAt (Some now) (set_Status RefreshStatusProcessing job) in
      (Some job, set_jobs (<[i := job]> (refreshJobs s)) s)
  end.

(** [jobErr] is the text of the error, [None] for nil. *)
Definition completeRefreshJob (now : Time) (jobErr : option string) (job : RefreshJob) : RefreshJob :=
  let job := set_ProcessedAt (Some now) job in
  match jobErr with
  | Some e => set_Error (BoundedDiagnosticValue e 512) (set_Status RefreshStatusError job)
  | None => set_Error "" (set_Status RefreshStatusDone job)
  end.

(** Apply [f] to the job of that ID, if there is one. *)
Definition update_job (jobID : Z) (f : RefreshJob -> RefreshJob) (s : Store) : Store :=
  match queueJobIndex jobID (refreshJobs s) with
  | Some i => set_jobs (alter f i (refreshJobs s)) s
  | None => s
  end.

Definition CompleteRefresh (now : Time) (jobID : Z) (jobErr : option string) (s : Store) : Store :=
  update_job jobID (completeRefreshJob now jobErr) s.

(** The job is still processing under this claim. *)
Definition claimed_by (claimedAt : Time) (job : RefreshJob) : bool :=
  bool_decide (Status job = RefreshStatusProcessing) && bool_decide (ProcessedAt job = Some claimedAt).

Definition CompleteClaimedRefresh (now : Time) (jobID : Z) (claimedAt : option Time)
    (jobErr : option string) (s : Store) : result unit * Store :=
  match claimedAt with
  | None => (inl (MissingClaim jobID), s)
  | Some claimedAt =>
      (inr tt, update_job jobID (fun job =>
         if claimed_by claimedAt job then completeRefreshJob now jobErr job else job) s)
  end.

Definition stuck (now : Time) (source : string) (threshold : Duration) (job : RefreshJob) : bool :=
  match ProcessedAt job with
  | Some t =>
      bool_decide (Status job = RefreshStatusProcessing) &&
      (bool_decide (source = "") || bool_decide (Source job = source)) &&
      negb (Sub now t <=? threshold)
  | None => false
  end.

Definition unstick (job : RefreshJob) : RefreshJob :=
  set_Error "" (set_ProcessedAt None (set_Status RefreshStatusPending job)).

Definition ResetStuckJobs (now : Time) (source : string) (threshold : Duration) (s : Store) : Z * Store :=
  let jobs := refreshJobs s in
  (Z.of_nat (length (filter (fun j => stuck now source threshold j = true) jobs)),
   set_jobs ((fun j => if stuck now source threshold j then unstick j else j) <$> jobs) s).

(** ** Package check status *)

Definition zero_byte : string := String (byte 0) "".

Definition packageCheckStatusKey (ecosystem name source : string) : string :=
  ecosystem +:+ zero_byte +:+ name +:+ zero_byte +:+ source.

Definition GetPackageCheckStatus (ecosystem name source : string) (s : Store) : option PackageCheckStatus :=
  checkStatuses s !! packageCheckStatusKey ecosystem name source.

Definition UpsertPackageCheckStatus (status : option PackageCheckStatus) (s : Store) : Store :=
  match status with
  | None => s
  | Some st =>
      if bool_decide (TrimSpace (checkEcosystem st) = "") || bool_decide (TrimSpace (checkName st) = "")
         || bool_decide (TrimSpace (checkSource st) = "")
      then s
      else
        let copyValue := mk_check (checkEcosystem st) (checkName st) (checkSource st) (LastCheckedAt st)
                           (NextCheckAt st) (if CheckCount st <=? 0 then 1 else CheckCount st) (LastResult st) in
        set_checks (<[packageCheckStatusKey (checkEcosystem st) (checkName st) (checkSource st) := copyValue]>
                      (checkStatuses s)) s
  end.

Definition packageCheckStatusUpdatedAt (st : PackageCheckStatus) : Time :=
  match LastCheckedAt st with
  | Some t => t
  | None => default 0 (NextCheckAt st)
  end.

Definition expired_check (cutoff : Time) (st : PackageCheckStatus) : bool :=
  bool_decide (checkSource st = "socket") && Before (packageCheckStatusUpdatedAt st) cutoff.

Definition PrunePackageCheckStatus (now : Time) (retention : Duration) (s : Store) : Z * Store :=
  if retention <=? 0 then (0, s)
  else
    let cutoff := Add now (- retention) in
    let kept := filter (fun kv => expired_check cutoff kv.2 = false) (checkStatuses s) in
    (Z.of_nat (size (checkStatuses s)) - Z.of_nat (size kept), set_checks kept s).

(** ** Reading the queue *)

Record QueueStatsResult := mk_stats {
  statPending : Z; statProcessing : Z; statDone : Z; statError : Z; statPaused : Z
}.

Definition count_stat (st : QueueStatsResult) (job : RefreshJob) : QueueStatsResult :=
  let 'mk_stats pe pr d e pa := st in
  if bool_decide (Status job = RefreshStatusPending) then mk_stats (pe + 1) pr d e pa
  else if bool_decide (Status job = RefreshStatusProcessing) then mk_stats pe (pr + 1) d e pa
  else if bool_decide (Status job = RefreshStatusDone) then mk_stats pe pr (d + 1) e pa
  else if bool_decide (Status job = RefreshStatusError) then mk_stats pe pr d (e + 1) pa
  else if bool_decide (Status job = RefreshStatusPaused) then mk_stats pe pr d e (pa + 1)
  else st.

Definition QueueStats (s : Store) : QueueStatsResult :=
  fold_left count_stat (refreshJobs s) (mk_stats 0 0 0 0 0).

Definition oldest_step (oldest : gmap string Time) (job : RefreshJob) : gmap string Time :=
  if bool_decide (Source job = "") || negb (drainable job) then oldest
  else match oldest !! Source job with
       | Some current =>
           if Before (RequestedAt job) current then <[Source job := RequestedAt job]> oldest else oldest
       | None => <[Source job := RequestedAt job]> oldest
       end.

Definition OldestQueueJobs (s : Store) : gmap string Time := fold_left oldest_step (refreshJobs s) ∅.

(** The loop of [ListQueueJobsPage], newest first; a [limit] of 0 or less is
    no limit. *)
Fixpoint list_loop (status : string) (jobs : list RefreshJob) (skipped offset limit out : Z)
    : list RefreshJob :=
  match jobs with
  | [] => []
  | job :: rest =>
      if negb (bool_decide (status = "")) && negb (bool_decide (Status job = status))
      then list_loop status rest skipped offset limit out
      else if skipped <? offset then list_loop status rest (skipped + 1) offset limit out
      else if (0 <? limit) && (limit <=? out + 1) then [job]
      else job :: list_loop status rest skipped offset limit (out + 1)
  end.

Definition ListQueueJobsPage (status : string) (limit offset : Z) (s : Store) : list RefreshJob :=
  let offset := if offset <? 0 then 0 else offset in
  let status := default "" (NormalizeRefreshStatus status) in
  list_loop status (reverse (refreshJobs s)) 0 offset limit 0.

Definition ListQueueJobs (status : string) (limit : Z) (s : Store) : list RefreshJob :=
  ListQueueJobsPage status limit 0 s.

(** ** Removing jobs *)

(** The filtering loops: the jobs for which [drop] is false stay in order. *)
Definition remove_jobs (drop : RefreshJob -> bool) (s : Store) : Z * Store :=
  let kept := filter (fun j => drop j = false) (refreshJobs s) in
  (Z.of_nat (length (refreshJobs s)) - Z.of_nat (length kept), set_jobs kept s).

Definition purgeQueueLocked (s : Store) : Z * Store := remove_jobs terminal s.

Definition PurgeQueue (s : Store) : Z * Store := purgeQueueLocked s.

Definition refreshQueueTerminalTime (job : RefreshJob) : Time := default (RequestedAt job) (ProcessedAt job).

Definition PruneRefreshQueue (now : Time) (retention : Duration) (s : Store) : Z * Store :=
  if retention <=? 0 then (0, s)
  else
    let cutoff := Add now (- retention) in
    remove_jobs (fun job => terminal job && Before (refreshQueueTerminalTime job) cutoff) s.

(** The statuses are map keys; membership is all that is used of them. *)
Definition queueJobsForStatusesLocked (allowed : list string) (s : Store) : list RefreshJob :=
  filter (fun j => Status j ∈ allowed) (refreshJobs s).

Definition clearQueueWithAllowedLocked (allowed : list string) (s : Store) : Z * Store :=
  if bool_decide (allowed = []) then (0, s)
  else remove_jobs (fun j => bool_decide (Status j ∈ allowed)) s.

Definition clearQueueLocked (statuses : list string) (s : Store) : Z * Store :=
  clearQueueWithAllowedLocked (NormalizeClearableRefreshStatuses statuses) s.

Definition ClearQueue (statuses : list string) (s : Store) : Z * Store := clearQueueLocked statuses s.

(** The JSON of one removed job in the audit details. *)
Definition adminAuditQueueJob (job : RefreshJob) : string :=
  marshal_members
    ([("id", Itoa (ID job)); ("ecosystem", marshal_string (Ecosystem job)); ("name", marshal_string (Name job));
      ("source", marshal_string (Source job)); ("priority", Itoa (Priority job));
      ("status", marshal_string (Status job))] ++
     omitempty "requested_at" (if IsZero (RequestedAt job) then "" else RFC3339Nano (RequestedAt job)) ++
     omitempty "processed_at" (match ProcessedAt job with
                               | Some t => if IsZero t then "" else RFC3339Nano t
                               | None => "" end) ++
     [("error", marshal_string (BoundedDiagnosticValue (Error job) 512))]).

Definition SetAdminAuditQueueJobsDetail (entry : option AdminAuditEntry) (k : string) (jobs : list RefreshJob)
    : option (option AdminAuditEntry) :=
  SetAdminAuditDetail entry k (marshal_array (adminAuditQueueJob <$> jobs)).

(** The audit of a removal: the jobs and their number, or [None] on an error. *)
Definition removal_audit (audit : option AdminAuditEntry) (jobs_key count_key : string) (jobs : list RefreshJob)
    : option (option AdminAuditEntry) :=
  audit ← SetAdminAuditQueueJobsDetail audit jobs_key jobs;
  SetAdminAuditDetail audit count_key (Itoa (Z.of_nat (length jobs))).

Definition PurgeQueueWithAudit (now : Time) (audit : option AdminAuditEntry) (s : Store) : result Z * Store :=
  let jobs := queueJobsForStatusesLocked TerminalRefreshStatuses s in
  match removal_audit audit "purged_jobs" "purged" jobs with
  | None => (inl BadAuditDetails, s)
  | Some audit =>
      let '(n, s) := purgeQueueLocked (insertAdminAuditLogLocked key now audit s) in (inr n, s)
  end.

Definition ClearQueueWithAudit (now : Time) (statuses : list string) (audit : option AdminAuditEntry) (s : Store)
    : result Z * Store :=
  let allowed := NormalizeClearableRefreshStatuses statuses in
  let jobs := if bool_decide (allowed = []) then [] else queueJobsForStatusesLocked allowed s in
  match removal_audit audit "cleared_jobs" "cleared" jobs with
  | None => (inl BadAuditDetails, s)
  | Some audit =>
      let '(n, s) := clearQueueWithAllowedLocked allowed (insertAdminAuditLogLocked key now audit s) in
      (inr n, s)
  end.

(** ** Administration of one job *)

(** The job at the index the search returns, checked. *)
Definition checkedJob (jobID : Z) (check : RefreshJob -> bool) (e : error) (s : Store) : result nat :=
  match queueJobIndex jobID (refreshJobs s) with
  | None => inl (JobNotFound jobID)
  | Some i =>
      match refreshJobs s !! i with
      | Some job => if check job then inr i else inl e
      | None => inl (JobNotFound jobID)
      end
  end.

Definition is_pending (j : RefreshJob) : bool := bool_decide (Status j = RefreshStatusPending).
Definition is_paused (j : RefreshJob) : bool := bool_decide (Status j = RefreshStatusPaused).
Definition retryable (j : RefreshJob) : bool := CanRetryRefreshStatus (Status j).

Definition queueJobIndexLocked (jobID : Z) : Store -> result nat :=
  checkedJob jobID (fun _ => true) (JobNotFound jobID).
Definition pendingQueueJobIndexLocked (jobID : Z) : Store -> result nat :=
  checkedJob jobID is_pending (JobNotPending jobID).
Definition pausedQueueJobIndexLocked (jobID : Z) : Store -> result nat :=
  checkedJob jobID is_paused (JobNotPaused jobID).
Definition retryableQueueJobIndexLocked (jobID : Z) : Store -> result nat :=
  checkedJob jobID retryable (JobNotRetryable jobID).

Definition retried (now : Time) (job : RefreshJob) : RefreshJob :=
  set_Error "" (set_ProcessedAt None (set_RequestedAt now (set_Status RefreshStatusPending job))).
Definition resumed (job : RefreshJob) : RefreshJob :=
  set_Error "" (set_ProcessedAt None (set_Status RefreshStatusPending job)).

(** Change the job at the index, or return the error. *)
Definition change_at (index : result nat) (f : RefreshJob -> RefreshJob) (s : Store) : result unit * Store :=
  match index with
  | inl e => (inl e, s)
  | inr i => (inr tt, set_jobs (alter f i (refreshJobs s)) s)
  end.

(** The same with the audit row first. *)
Definition change_at_audited (now : Time) (audit : option AdminAuditEntry) (index : result nat)
    (f : RefreshJob -> RefreshJob) (s : Store) : result unit * Store :=
  match index with
  | inl e => (inl e, s)
  | inr i =>
      let s := insertAdminAuditLogLocked key now audit s in
      (inr tt, set_jobs (alter f i (refreshJobs s)) s)
  end.

Definition updateQueueJobPriorityLocked (jobID priority : Z) (s : Store) : result unit * Store :=
  change_at (queueJobIndexLocked jobID s) (set_Priority priority) s.

Definition UpdateQueueJobPriority (jobID priority : Z) (s : Store) : result unit * Store :=
  updateQueueJobPriorityLocked jobID priority s.

Definition UpdateQueueJobPriorityWithAudit (now : Time) (jobID priority : Z) (audit : option AdminAuditEntry)
    (s : Store) : result unit * Store :=
  change_at_audited now audit (queueJobIndexLocked jobID s) (set_Priority priority) s.

Definition retryQueueJobLocked (now : Time) (jobID : Z) (s : Store) : result unit * Store :=
  change_at (retryableQueueJobIndexLocked jobID s) (retried now) s.

Definition RetryQueueJob (now : Time) (jobID : Z) (s : Store) : result unit * Store :=
  retryQueueJobLocked now jobID s.

Definition RetryQueueJobWithAudit (now now' : Time) (jobID : Z) (audit : option AdminAuditEntry) (s : Store)
    : result unit * Store :=
  change_at_audited now audit (retryableQueueJobIndexLocked jobID s) (retried now') s.

Definition pauseQueueJobLocked (jobID : Z) (s : Store) : result unit * Store :=
  change_at (pendingQueueJobIndexLocked jobID s) (set_Status RefreshStatusPaused) s.

Definition PauseQueueJob (jobID : Z) (s : Store) : result unit * Store := pauseQueueJobLocked jobID s.

Definition PauseQueueJobWithAudit (now : Time) (jobID : Z) (audit : option AdminAuditEntry) (s : Store)
    : result unit * Store :=
  change_at_audited now audit (pendingQueueJobIndexLocked jobID s) (set_Status RefreshStatusPaused) s.

Definition resumeQueueJobLocked (jobID : Z) (s : Store) : result unit * Store :=
  change_at (pausedQueueJobIndexLocked jobID s) resumed s.

Definition ResumeQueueJob (jobID : Z) (s : Store) : result unit * Store := resumeQueueJobLocked jobID s.

Definition ResumeQueueJobWithAudit (now : Time) (jobID : Z) (audit : option AdminAuditEntry) (s : Store)
    : result unit * Store :=
  change_at_audited now audit (pausedQueueJobIndexLocked jobID s) resumed s.
End queue.
