(* ===== verification/DevFeeds.v ===== *)
(** The in-memory store: feed statuses, feed configurations and system
    settings (internal/devstore/noop_feeds.go).

    Configurations and settings are guarded by their revision, the time of the
    last update: an audited update that names another revision than the current
    one is refused. *)
From stdpp Require Import base list option strings gmap sorting.
From Stdlib Require Import Ascii ZArith Lia.
From S2P Require Import Prelude GoStrings AsciiText Json Collections JsonEncode GoTime AuditLog Advisories DevStore.

(** The audit entry of an import, from the numbers of rows imported and
    deleted; [None] is the nil function. *)
Definition FeedImportAuditBuilder := option (Z -> Z -> AdminAuditEntry).

Definition set_status_updated (t : Time) (x : FeedSyncStatus) : FeedSyncStatus :=
  mk_feed_status (fsFeedName x) (LastSyncAt x) (LastSyncDuration x) (LastSyncStatus x) (fsLastError x)
    (EntriesSynced x) (EntriesTotal x) (LastETag x) (LastCommitHash x) (fsMetadata x) t.

Section feeds.
Context {U : UnicodeCase} {C : AuditCrypto} {O : MapOrder} (key : string).

(** ** Statuses *)

Definition upsertFeedSyncStatusLocked (now : Time) (status : option FeedSyncStatus) (s : Store) : Store :=
  match status with
  | None => s
  | Some status =>
      if bool_decide (TrimSpace (fsFeedName status) = "") then s
      else
        let copyValue := if IsZero (fsUpdatedAt status) then set_status_updated now status else status in
        set_feedStatuses (<[fsFeedName copyValue := copyValue]> (feedStatuses s)) s
  end.

Definition UpsertFeedSyncStatus (now : Time) (status : option FeedSyncStatus) (s : Store) : Store :=
  upsertFeedSyncStatusLocked now status s.

Definition GetFeedSyncStatus (feedName : string) (s : Store) : option FeedSyncStatus := feedStatuses s !! feedName.

Definition ListFeedSyncStatuses (s : Store) : list FeedSyncStatus :=
  sort_by (fun a b => str_cmp (fsFeedName a) (fsFeedName b)) (range_map (feedStatuses s)).*2.

(** The end of an import: the status, when there is one, then the audit row of
    [imported] and [deleted] rows, when there is a builder. *)
Definition record_import (now now' : Time) (status : option FeedSyncStatus) (audit : FeedImportAuditBuilder)
    (imported deleted : Z) (s : Store) : Store :=
  let s := match status with None => s | Some _ => upsertFeedSyncStatusLocked now status s end in
  match audit with
  | None => s
  | Some audit => insertAdminAuditLogLocked key now' (Some (audit imported deleted)) s
  end.

(** The store keeps no exploit, KEV or EPSS data: these imports count nothing
    and record their status and their audit row. *)
Definition ImportVulnCheckWithAudit (now now' : Time) (status : option FeedSyncStatus)
    (audit : FeedImportAuditBuilder) (s : Store) : Z * Store := (0, record_import now now' status audit 0 0 s).

Definition ImportCISAKEVWithAudit (now now' : Time) (status : option FeedSyncStatus)
    (audit : FeedImportAuditBuilder) (s : Store) : Z * Store := (0, record_import now now' status audit 0 0 s).

Definition ReplaceCISAKEVWithAudit (now now' : Time) (status : option FeedSyncStatus)
    (audit : FeedImportAuditBuilder) (s : Store) : Z * Z * Store :=
  (0, 0, record_import now now' status audit 0 0 s).

Definition ImportEPSSWithAudit (now now' : Time) (status : option FeedSyncStatus)
    (audit : FeedImportAuditBuilder) (s : Store) : Z * Z * Store :=
  (0, 0, record_import now now' status audit 0 0 s).

(** ** Configurations *)

Definition feed_key (feedName : string) : string := ToLower (TrimSpace feedName).

Definition GetFeedConfig (feedName : string) (s : Store) : option FeedConfig := feedConfigs s !! feed_key feedName.

Definition upsertFeedConfigLocked (now : Time) (cfg : option FeedConfig) (s : Store) : Store :=
  match cfg with
  | None => s
  | Some cfg =>
      if bool_decide (TrimSpace (fcFeedName cfg) = "") then s
      else
        let name := feed_key (fcFeedName cfg) in
        set_feedConfigs (<[name := mk_feed_config name (Enabled cfg) (Mode cfg) (SyncInterval cfg) (fcAPIKey cfg)
                                     (APIKeyEncrypted cfg) now None]> (feedConfigs s)) s
  end.

Definition UpsertFeedConfig (now : Time) (cfg : option FeedConfig) (s : Store) : Store :=
  upsertFeedConfigLocked now cfg s.

(** The revision an update expects, if it expects one. *)
Definition expectedNoopFeedConfigUpdatedAt (cfg : option FeedConfig) : option Time :=
  match cfg with
  | None => None
  | Some cfg =>
      match fcExpectedUpdatedAt cfg with
      | Some t => Some t
      | None => if IsZero (fcUpdatedAt cfg) then None else Some (fcUpdatedAt cfg)
      end
  end.

(** [true]: the revision is the expected one; the zero time expects no
    configuration. *)
Definition checkFeedConfigRevisionLocked (feedName : string) (expected : Time) (s : Store) : bool :=
  match feedConfigs s !! feed_key feedName with
  | None => IsZero expected
  | Some current => negb (IsZero expected) && (fcUpdatedAt current =? expected)
  end.

Definition UpsertFeedConfigWithAudit (now now' : Time) (cfg : option FeedConfig) (audit : option AdminAuditEntry)
    (s : Store) : result unit * Store :=
  let ok := match expectedNoopFeedConfigUpdatedAt cfg with
            | Some expected =>
                checkFeedConfigRevisionLocked (match cfg with Some c => fcFeedName c | None => "" end) expected s
            | None => true
            end in
  if ok then (inr tt, upsertFeedConfigLocked now' cfg (insertAdminAuditLogLocked key now audit s))
  else (inl ErrConflict, s).

Definition deleteFeedConfigLocked (feedName : string) (s : Store) : Store :=
  set_feedConfigs (delete (feed_key feedName) (feedConfigs s)) s.

Definition DeleteFeedConfig (feedName : string) (s : Store) : Store := deleteFeedConfigLocked feedName s.

Definition DeleteFeedConfigWithAudit (now : Time) (feedName : string) (expectedUpdatedAt : option Time)
    (audit : option AdminAuditEntry) (s : Store) : result unit * Store :=
  let ok := match expectedUpdatedAt with
            | Some expected => checkFeedConfigRevisionLocked feedName expected s
            | None => true
            end in
  if ok then (inr tt, deleteFeedConfigLocked feedName (insertAdminAuditLogLocked key now audit s))
  else (inl ErrConflict, s).

Definition ListFeedConfigs (s : Store) : list FeedConfig :=
  sort_by (fun a b => str_cmp (fcFeedName a) (fcFeedName b)) (range_map (feedConfigs s)).*2.

(** ** Settings *)

Definition GetSystemSettings (s : Store) : option SystemSettings := systemConfig s.

Definition upsertSystemSettingsLocked (now : Time) (settings : option SystemSettings) (s : Store) : Store :=
  match settings with
  | None => s
  | Some x =>
      set_systemConfig (Some (mk_settings (ssBlockThreshold x) (RateLimitPerMinute x) (RateLimitBurst x)
                                (ScanLogRetention x) (AdminAuditRetention x) now None)) s
  end.

Definition UpsertSystemSettings (now : Time) (settings : option SystemSettings) (s : Store) : Store :=
  upsertSystemSettingsLocked now settings s.

Definition expectedNoopSystemSettingsUpdatedAt (settings : option SystemSettings) : option Time :=
  match settings with
  | None => None
  | Some x =>
      match ssExpectedUpdatedAt x with
      | Some t => Some t
      | None => if IsZero (ssUpdatedAt x) then None else Some (ssUpdatedAt x)
      end
  end.

Definition UpsertSystemSettingsWithAudit (now now' : Time) (settings : option SystemSettings)
    (audit : option AdminAuditEntry) (s : Store) : result unit * Store :=
  let ok := match expectedNoopSystemSettingsUpdatedAt settings with
            | Some expected =>
                match systemConfig s with
                | None => IsZero expected
                | Some current => negb (IsZero expected || negb (ssUpdatedAt current =? expected))
                end
            | None => true
            end in
  if ok then (inr tt, insertAdminAuditLogLocked key now' audit (upsertSystemSettingsLocked now settings s))
  else (inl ErrConflict, s).

(** ** Calls *)

Inductive feed_op :=
| FStatus (now : Time) (status : option FeedSyncStatus)
| FVulnCheck (now now' : Time) (status : option FeedSyncStatus) (audit : FeedImportAuditBuilder)
| FCISAKEV (now now' : Time) (status : option FeedSyncStatus) (audit : FeedImportAuditBuilder)
| FReplaceKEV (now now' : Time) (status : option FeedSyncStatus) (audit : FeedImportAuditBuilder)
| FEPSS (now now' : Time) (status : option FeedSyncStatus) (audit : FeedImportAuditBuilder)
| FConfig (now : Time) (cfg : option FeedConfig)
| FConfigAudit (now now' : Time) (cfg : option FeedConfig) (audit : option AdminAuditEntry)
| FDelete (feedName : string)
| FDeleteAudit (now : Time) (feedName : string) (expected : option Time) (audit : option AdminAuditEntry)
| FSettings (now : Time) (settings : option SystemSettings)
| FSettingsAudit (now now' : Time) (settings : option SystemSettings) (audit : option AdminAuditEntry).

Definition feed_times (o : feed_op) : list Time :=
  match o with
  | FStatus now _ | FConfig now _ | FDeleteAudit now _ _ _ | FSettings now _ => [now]
  | FVulnCheck now now' _ _ | FCISAKEV now now' _ _ | FReplaceKEV now now' _ _ | FEPSS now now' _ _
  | FConfigAudit now now' _ _ | FSettingsAudit now now' _ _ => [now; now']
  | FDelete _ => []
  end.

Definition exec_feed (o : feed_op) (s : Store) : Store :=
  match o with
  | FStatus now status => UpsertFeedSyncStatus now status s
  | FVulnCheck now now' status audit => (ImportVulnCheckWithAudit now now' status audit s).2
  | FCISAKEV now now' status audit => (ImportCISAKEVWithAudit now now' status audit s).2
  | FReplaceKEV now now' status audit => (ReplaceCISAKEVWithAudit now now' status audit s).2
  | FEPSS now now' status audit => (ImportEPSSWithAudit now now' status audit s).2
  | FConfig now cfg => UpsertFeedConfig now cfg s
  | FConfigAudit now now' cfg audit => (UpsertFeedConfigWithAudit now now' cfg audit s).2
  | FDelete feedName => DeleteFeedConfig feedName s
  | FDeleteAudit now feedName expected audit => (DeleteFeedConfigWithAudit now feedName expected audit s).2
  | FSettings now settings => UpsertSystemSettings now settings s
  | FSettingsAudit now now' settings audit => (UpsertSystemSettingsWithAudit now now' settings audit s).2
  end.

Lemma status_quiet now status s s' : quiet s s' -> quiet s (upsertFeedSyncStatusLocked now status s').
Proof. unfold upsertFeedSyncStatusLocked. repeat case_match; auto with frames. Qed.

Lemma config_quiet now cfg s s' : quiet s s' -> quiet s (upsertFeedConfigLocked now cfg s').
Proof. unfold upsertFeedConfigLocked. repeat case_match; auto with frames. Qed.

Lemma settings_quiet now x s s' : quiet s s' -> quiet s (upsertSystemSettingsLocked now x s').
Proof. unfold upsertSystemSettingsLocked. repeat case_match; auto with frames. Qed.

#[local] Hint Resolve status_quiet config_quiet settings_quiet : frames.

Lemma record_import_framed now now' status audit n m s :
  framed key [now; now'] s (record_import now now' status audit n m s).
Proof.
  unfold record_import. cbv zeta. destruct audit as [audit|].
  - apply framed_row; [set_solver|]. destruct status; auto with frames.
  - apply framed_quiet. destruct status; auto with frames.
Qed.

Lemma exec_feed_framed o s : framed key (feed_times o) s (exec_feed o s).
Proof.
  destruct o; cbn [exec_feed feed_times]; try apply record_import_framed;
    unfold UpsertFeedSyncStatus, UpsertFeedConfig, UpsertFeedConfigWithAudit, DeleteFeedConfig,
      DeleteFeedConfigWithAudit, deleteFeedConfigLocked, UpsertSystemSettings, UpsertSystemSettingsWithAudit; cbv zeta;
    try (apply framed_quiet; auto with frames; fail).
  all: match goal with |- context [if ?b then (inr tt, _) else _] => destruct b end;
    cbn [snd]; [|apply framed_quiet; auto with frames].
  - apply (framed_insert key _ now audit s s); auto with frames. set_solver.
  - apply (framed_insert key _ now audit s s); auto with frames. set_solver.
  - apply framed_row; auto with frames. set_solver.
Qed.

(** ** Revisions *)

Lemma feed_key_idem name : is_ascii name = true -> feed_key (feed_key name) = feed_key name.
Proof.
  intros H. unfold feed_key. rewrite TrimSpace_ToLower by done. apply ToLower_idem. by apply TrimSpace_is_ascii.
Qed.

Lemma insert_feedConfigs now e s : feedConfigs (insertAdminAuditLogLocked key now e s) = feedConfigs s.
Proof. destruct e as [e|]; simpl; [|done]. by case_bool_decide. Qed.

Lemma insert_systemConfig now e s : systemConfig (insertAdminAuditLogLocked key now e s) = systemConfig s.
Proof. destruct e as [e|]; simpl; [|done]. by case_bool_decide. Qed.

(** What an accepted update leaves: the configuration under its canonical
    name, stamped with the time of the update. *)
Lemma upsert_config_lookup now cfg s :
  TrimSpace (fcFeedName cfg) <> "" ->
  GetFeedConfig (fcFeedName cfg) (upsertFeedConfigLocked now (Some cfg) s) =
  Some (mk_feed_config (feed_key (fcFeedName cfg)) (Enabled cfg) (Mode cfg) (SyncInterval cfg) (fcAPIKey cfg)
          (APIKeyEncrypted cfg) now None).
Proof.
  intros H. unfold GetFeedConfig, upsertFeedConfigLocked. rewrite bool_decide_eq_false_2 by done.
  simpl. apply lookup_insert_eq.
Qed.

(** The calls on feeds leave the advisories and the scan log alone. *)
Definition keeps_advisories (s s' : Store) : Prop :=
  vulnerable s' = vulnerable s /\ malicious s' = malicious s /\ maliciousDel s' = maliciousDel s /\
  scanLogs s' = scanLogs s.

Lemma insert_keeps now e s s' : keeps_advisories s s' -> keeps_advisories s (insertAdminAuditLogLocked key now e s').
Proof.
  unfold keeps_advisories. destruct e as [e|]; simpl; [|done]. by case_bool_decide.
Qed.

Lemma status_keeps now status s : keeps_advisories s (upsertFeedSyncStatusLocked now status s).
Proof. unfold upsertFeedSyncStatusLocked. by repeat case_match. Qed.

Lemma exec_feed_keeps o s : keeps_advisories s (exec_feed o s).
Proof.
  assert (forall now now' status audit n m, keeps_advisories s (record_import now now' status audit n m s)) as Hrec.
  { intros. unfold record_import. cbv zeta. destruct audit, status; try (apply insert_keeps); try apply status_keeps; done. }
  assert (forall now cfg s', keeps_advisories s s' -> keeps_advisories s (upsertFeedConfigLocked now cfg s')) as Hcfg.
  { intros now cfg s' H. unfold upsertFeedConfigLocked. by repeat case_match. }
  destruct o; cbn [exec_feed]; try apply Hrec; try apply status_keeps; try (by apply Hcfg); try done;
    unfold UpsertSystemSettings, UpsertFeedConfigWithAudit, DeleteFeedConfigWithAudit, UpsertSystemSettingsWithAudit; cbv zeta;
    try match goal with |- context [if ?b then (inr tt, _) else _] => destruct b end; cbn [snd]; try done.
  - apply Hcfg. by apply insert_keeps.
  - by apply (insert_keeps now audit s s).
  - by destruct settings.
  - apply insert_keeps. by destruct settings.
Qed.

(** Configurations and statuses are kept under their names. *)
Definition feeds_ok (s : Store) : Prop :=
  (forall k c, feedConfigs s !! k = Some c -> fcFeedName c = k /\ fcExpectedUpdatedAt c = None) /\
  (forall k x, feedStatuses s !! k = Some x -> fsFeedName x = k /\ TrimSpace k <> "").

Lemma insert_feedStatuses now e s : feedStatuses (insertAdminAuditLogLocked key now e s) = feedStatuses s.
Proof. destruct e as [e|]; simpl; [|done]. by case_bool_decide. Qed.

Lemma insert_feeds_ok now e s : feeds_ok s -> feeds_ok (insertAdminAuditLogLocked key now e s).
Proof. unfold feeds_ok. by rewrite insert_feedConfigs, insert_feedStatuses. Qed.

Lemma status_feeds_ok now status s : feeds_ok s -> feeds_ok (upsertFeedSyncStatusLocked now status s).
Proof.
  intros [Hc Hs]. unfold upsertFeedSyncStatusLocked. destruct status as [x|]; [|done].
  case_bool_decide as E; [done|]. split; [done|]. simpl. intros k y [[<- <-]|[_ H]]%lookup_insert_Some; [|auto].
  split; [done|]. by case_match.
Qed.

Lemma config_feeds_ok now cfg s : feeds_ok s -> feeds_ok (upsertFeedConfigLocked now cfg s).
Proof.
  intros [Hc Hs]. unfold upsertFeedConfigLocked. destruct cfg as [x|]; [|done].
  case_bool_decide as E; [done|]. split; [|done]. simpl. by intros k y [[<- <-]|[_ H]]%lookup_insert_Some; [|auto].
Qed.

Lemma delete_feeds_ok name s : feeds_ok s -> feeds_ok (deleteFeedConfigLocked name s).
Proof. intros [Hc Hs]. split; [|done]. simpl. intros k y [_ H]%lookup_delete_Some. auto. Qed.

Lemma exec_feed_ok o s : feeds_ok s -> feeds_ok (exec_feed o s).
Proof.
  intros H.
  assert (forall now now' status audit n m, feeds_ok (record_import now now' status audit n m s)) as Hrec.
  { intros. unfold record_import. cbv zeta. destruct audit, status; auto using insert_feeds_ok, status_feeds_ok. }
  destruct o; cbn [exec_feed]; try apply Hrec; auto using status_feeds_ok, config_feeds_ok, delete_feeds_ok;
    unfold UpsertSystemSettings, UpsertFeedConfigWithAudit, DeleteFeedConfigWithAudit, UpsertSystemSettingsWithAudit; cbv zeta;
    try match goal with |- context [if ?b then (inr tt, _) else _] => destruct b end; cbn [snd];
    auto using insert_feeds_ok, config_feeds_ok, delete_feeds_ok.
  - by destruct settings.
  - apply insert_feeds_ok. by destruct settings.
Qed.

(** The revision a feed has: zero when it has no configuration. *)
Definition feed_revision (name : string) (s : Store) : Time :=
  match GetFeedConfig name s with Some c => fcUpdatedAt c | None => 0 end.

Definition settings_revision (s : Store) : Time :=
  match systemConfig s with Some c => ssUpdatedAt c | None => 0 end.

(** The check accepts the current revision only. *)
Lemma check_revision name expected s :
  checkFeedConfigRevisionLocked name expected s = true -> feed_revision name s = expected.
Proof.
  unfold checkFeedConfigRevisionLocked, feed_revision, GetFeedConfig, IsZero.
  destruct (feedConfigs s !! feed_key name) as [c|].
  - rewrite andb_true_iff, Z.eqb_eq. tauto.
  - rewrite Z.eqb_eq. done.
Qed.

Lemma check_refuses name expected s :
  feed_revision name s <> expected -> checkFeedConfigRevisionLocked name expected s = false.
Proof. intros H. apply not_true_iff_false. by intros ?%check_revision. Qed.

Lemma settings_check now now' x audit s r :
  expectedNoopSystemSettingsUpdatedAt (Some x) = Some r -> settings_revision s <> r ->
  UpsertSystemSettingsWithAudit now now' (Some x) audit s = (inl ErrConflict, s).
Proof.
  intros E H. unfold UpsertSystemSettingsWithAudit, settings_revision, IsZero in *. rewrite E.
  destruct (systemConfig s) as [c|].
  - destruct (Z.eqb_spec r 0); simpl; [done|]. destruct (Z.eqb_spec (ssUpdatedAt c) r); [lia|done].
  - destruct (Z.eqb_spec r 0); [lia|done].
Qed.

(** No update is lost.  Of two operators who read the same revision of a
    feed's configuration, the second to submit is refused: once the first
    update is accepted (it then holds under every spelling of the feed's name,
    with the time of the update as the new revision), an update or a deletion
    that still names the old revision fails with a conflict and changes
    nothing, the audit log included.  The same holds for the settings. *)
Theorem feed_updates_not_lost name r s t t' cfg cfg' audit :
  feed_key (fcFeedName cfg) = feed_key name -> feed_key (fcFeedName cfg') = feed_key name ->
  TrimSpace (fcFeedName cfg) <> "" ->
  expectedNoopFeedConfigUpdatedAt (Some cfg) = Some r -> expectedNoopFeedConfigUpdatedAt (Some cfg') = Some r ->
  t' <> r ->
  match UpsertFeedConfigWithAudit t t' (Some cfg) audit s with
  | (inr _, s1) =>
      feed_revision name s = r /\
      GetFeedConfig name s1 =
        Some (mk_feed_config (feed_key name) (Enabled cfg) (Mode cfg) (SyncInterval cfg) (fcAPIKey cfg)
                (APIKeyEncrypted cfg) t' None) /\
      (forall u u' audit', UpsertFeedConfigWithAudit u u' (Some cfg') audit' s1 = (inl ErrConflict, s1)) /\
      (forall u audit', DeleteFeedConfigWithAudit u name (Some r) audit' s1 = (inl ErrConflict, s1))
  | (inl e, s1) => e = ErrConflict /\ s1 = s
  end /\
  forall x x' u u' v v' audit',
    expectedNoopSystemSettingsUpdatedAt (Some x) = Some r -> expectedNoopSystemSettingsUpdatedAt (Some x') = Some r ->
    u <> r ->
    match UpsertSystemSettingsWithAudit u u' (Some x) audit s with
    | (inr _, s1) =>
        settings_revision s = r /\ settings_revision s1 = u /\
        UpsertSystemSettingsWithAudit v v' (Some x') audit' s1 = (inl ErrConflict, s1)
    | (inl e, s1) => e = ErrConflict /\ s1 = s
    end.
Proof.
  intros Hk Hk' Hne He He' Ht. split.
  - unfold UpsertFeedConfigWithAudit at 1. rewrite He.
    destruct (checkFeedConfigRevisionLocked (fcFeedName cfg) r s) eqn:Hc; [|done].
    apply check_revision in Hc. set (s0 := insertAdminAuditLogLocked key t audit s).
    pose proof (upsert_config_lookup t' cfg s0 Hne) as Hl.
    set (s1 := upsertFeedConfigLocked t' (Some cfg) s0) in *.
    assert (forall n, feed_key n = feed_key name -> feed_revision n s1 = t') as Hrev.
    { intros n Hn. unfold feed_revision, GetFeedConfig in *. rewrite Hn, <- Hk, Hl. done. }
    split_and!.
    + unfold feed_revision, GetFeedConfig in *. by rewrite <- Hk.
    + unfold GetFeedConfig in *. by rewrite <- Hk.
    + intros u u' audit'. unfold UpsertFeedConfigWithAudit. rewrite He'.
      rewrite check_refuses; [done|]. by rewrite Hrev.
    + intros u audit'. unfold DeleteFeedConfigWithAudit. rewrite check_refuses; [done|]. by rewrite Hrev.
  - intros x x' u u' v v' audit' Hx Hx' Hu.
    destruct (decide (settings_revision s = r)) as [Hr|Hr].
    2:{ rewrite (settings_check u u' x audit s r) by done. done. }
    unfold UpsertSystemSettingsWithAudit at 1. rewrite Hx.
    match goal with |- context [if ?b then (inr tt, _) else _] => destruct b end; [|done].
    set (s1 := insertAdminAuditLogLocked key u' audit (upsertSystemSettingsLocked u (Some x) s)).
    assert (settings_revision s1 = u) as Hrev.
    { unfold settings_revision, s1. by rewrite insert_systemConfig. }
    split_and!; [done..|]. apply settings_check with r; [done|]. by rewrite Hrev.
Qed.
End feeds.

Section examples.
#[local] Instance feeds_case : UnicodeCase := plain_case.
#[local] Instance feeds_crypto : AuditCrypto :=
  {| sha256_hex := fun d => d; hmac_hex := fun k d => k +:+ d |}.

Definition sample_config (name : string) (updated : Time) : FeedConfig :=
  mk_feed_config name true "self" None "" false updated None.

Definition configured : Store := UpsertFeedConfig 5000 (Some (sample_config " OSV" 0)) NewStore.

Definition first_update : Store :=
  (UpsertFeedConfigWithAudit "" 6000 7000 (Some (sample_config "osv" 5000)) None configured).2.

Lemma feed_updates_not_lost_witness :
  GetFeedConfig "OSV" first_update <> GetFeedConfig "OSV" configured /\
  UpsertFeedConfigWithAudit "" 8000 9000 (Some (sample_config "Osv" 5000)) None first_update =
    (inl ErrConflict, first_update).
Proof.
  split; [vm_compute; discriminate|].
  destruct (feed_updates_not_lost "" "osv" 5000 configured 6000 7000 (sample_config "osv" 5000)
    (sample_config "Osv" 5000) None eq_refl eq_refl ltac:(vm_compute; discriminate) eq_refl eq_refl ltac:(lia))
    as [(_ & _ & H & _) _].
  apply H.
Defined.
End examples.
