(* ===== verification/DevFindings.v ===== *)
(** The in-memory store: vulnerabilities, malicious findings, operator
    advisories and the sync export (internal/devstore/noop_findings.go,
    noop_manual_advisories.go and noop_sync.go).

    Advisories are kept in maps by identifier.  A removed malicious finding
    leaves a tombstone, which the incremental export sends so that clients
    remove it too. *)
From stdpp Require Import base list option strings gmap sorting.
From Stdlib Require Import Ascii ZArith Lia.
From S2P Require Import Prelude GoStrings AsciiText PackageId Json VersionCompare VersionRanges Collections.
From S2P Require Import JsonEncode Domain GoTime SyncCursor SyncRows SyncContract AuditLog Advisories DevStore.
From S2P Require Import DevFeeds.

Section findings.
Context {U : UnicodeCase} {C : AuditCrypto} {O : MapOrder} (key : string).

(** ** Lookups *)

Definition noopVulnerabilityAffectsVersion (ecosystem version rangesJSON versionsJSON : string) : bool :=
  if bool_decide (TrimSpace version = "") then true
  else
    let '(rangesJSON, versionsJSON) := NormalizeVersionConstraintJSON rangesJSON versionsJSON in
    let '(affected, err) := VersionAffected version rangesJSON versionsJSON ecosystem in
    if err then true else affected.

Definition noopMaliciousAffectsVersion (ecosystem version rangesJSON versionsJSON : string) : bool :=
  if bool_decide (TrimSpace version = "") then true
  else
    let '(rangesJSON, versionsJSON) := NormalizeVersionConstraintJSON rangesJSON versionsJSON in
    let '(affected, err) := VersionAffected version rangesJSON versionsJSON ecosystem in
    if err then true else affected.

Definition vuln_finding (ecosystem name version : string) (vuln : Vulnerability) (pkg : AffectedPackage) : Finding :=
  let source := match vSources vuln with
                | src :: _ => if bool_decide (TrimSpace (srcSource src) = "") then "unknown" else srcSource src
                | [] => "unknown"
                end in
  let title := if bool_decide (vSummary vuln = "") then vID vuln else vSummary vuln in
  mk_finding name version ecosystem FindingTypeVulnerability (ToUpper (TrimSpace (vSeverity vuln))) (vID vuln) title
    "" [] (ExtractFixedVersionConstraintFor version (affVersionRanges pkg) ecosystem) "" source [].

(** The affected packages of a vulnerability the query is about. *)
Definition hits_package (ecosystem name version : string) (pkg : AffectedPackage) : bool :=
  bool_decide (affEcosystem pkg = ecosystem) && bool_decide (affName pkg = name) &&
  noopVulnerabilityAffectsVersion (affEcosystem pkg) version (affVersionRanges pkg) (affVersionsAffected pkg).

Definition FindVulnerabilities (ecosystem name version : string) (s : Store) : list Finding :=
  let name := NormalizeName ecosystem name in
  range_map (vulnerable s) ≫= fun '(_, vuln) =>
    vuln_finding ecosystem name version vuln <$>
      filter (fun pkg => hits_package ecosystem name version pkg = true) (vAffectedPackages vuln).

Definition malicious_finding (version : string) (mf : MaliciousFinding) : Finding :=
  let title := if bool_decide (mfSummary mf = "") then "manual advisory for " +:+ mfName mf else mfSummary mf in
  mk_finding (mfName mf) version (mfEcosystem mf) FindingTypeMalicious (mfSeverity mf) (mfID mf) title
    "" [] "" (mfRiskType mf) (mfSource mf) [].

Definition hits_malicious (ecosystem name version : string) (mf : MaliciousFinding) : bool :=
  bool_decide (mfEcosystem mf = ecosystem) && bool_decide (mfName mf = name) &&
  noopMaliciousAffectsVersion (mfEcosystem mf) version (mfVersionRanges mf) (mfVersions mf).

Definition FindMalicious (ecosystem name version : string) (s : Store) : list Finding :=
  let name := NormalizeName ecosystem name in
  malicious_finding version <$>
    filter (fun mf => hits_malicious ecosystem name version mf = true) (range_map (malicious s)).*2.

Definition FindVulnerabilitiesBatch (packages : list PackageQuery) (s : Store) : list Finding :=
  packages ≫= fun pkg => FindVulnerabilities (pqEcosystem pkg) (pqName pkg) (pqVersion pkg) s.

Definition FindMaliciousBatch (packages : list PackageQuery) (s : Store) : list Finding :=
  packages ≫= fun pkg => FindMalicious (pqEcosystem pkg) (pqName pkg) (pqVersion pkg) s.

(** ** Updates *)

Definition normalize_affected (pkg : AffectedPackage) : AffectedPackage :=
  mk_affected (affEcosystem pkg) (NormalizeName (affEcosystem pkg) (affName pkg)) (affVersionRanges pkg)
    (affVersionsAffected pkg).

Definition put_vulnerability (vuln : Vulnerability) (s : Store) : Store :=
  let copyValue := set_affected (normalize_affected <$> vAffectedPackages vuln) vuln in
  set_vulnerable (<[vID copyValue := copyValue]> (vulnerable s)) s.

Definition upsertVulnerabilityLocked (vuln : option Vulnerability) (s : Store) : Store :=
  match vuln with
  | None => s
  | Some vuln => if bool_decide (TrimSpace (vID vuln) = "") then s else put_vulnerability vuln s
  end.

Definition UpsertVulnerability (vuln : option Vulnerability) (s : Store) : Store := upsertVulnerabilityLocked vuln s.

(** A finding under its identifier; a tombstone under it is lifted. *)
Definition put_malicious (mf : MaliciousFinding) (s : Store) : Store :=
  set_maliciousDel (delete (mfID mf) (maliciousDel s)) (set_malicious (<[mfID mf := mf]> (malicious s)) s).

Definition upsertMaliciousFindingLocked (mf : option MaliciousFinding) (s : Store) : result unit * Store :=
  match mf with
  | None => (inl NilFinding, s)
  | Some mf =>
      let '(id, s) :=
        if bool_decide (mfID mf = "")
        then (ManualAdvisoryIDPrefix +:+ Itoa (nextManualID s + 1), set_nextManualID (nextManualID s + 1) s)
        else (mfID mf, s) in
      let source := if bool_decide (mfSource mf = "") then ManualAdvisorySource else mfSource mf in
      (inr tt, put_malicious (set_identity id source (NormalizeName (mfEcosystem mf) (mfName mf)) mf) s)
  end.

Definition UpsertMaliciousFinding (mf : option MaliciousFinding) (s : Store) : result unit * Store :=
  upsertMaliciousFindingLocked mf s.

Definition noopMaliciousTombstone (finding : MaliciousFinding) : SyncMalicious :=
  mk_malicious (mfID finding) (mfEcosystem finding) (mfName finding) (mfVersionRanges finding) (mfVersions finding)
    (mfReferenceURLs finding) (mfRiskType finding) (mfSeverity finding) (mfSummary finding) (mfSource finding) true.

(** A finding moves to the tombstones, under the identifier [id] it is kept
    under. *)
Definition bury (id : string) (finding : MaliciousFinding) (s : Store) : Store :=
  set_malicious (delete id (malicious s))
    (set_maliciousDel (<[id := noopMaliciousTombstone finding]> (maliciousDel s)) s).

Definition DeleteVulnerability (id : string) (s : Store) : Store :=
  set_vulnerable (delete id (vulnerable s)) s.

Definition deleteVulnerabilityForSourceLocked (id source : string) (s : Store) : result unit * Store :=
  let source := TrimSpace source in
  if bool_decide (source = "") then (inl SourceRequired, s)
  else
    match vulnerable s !! id with
    | None => (inr tt, s)
    | Some vuln =>
        let keptSources := filter (fun item => TrimSpace (srcSource item) <> source) (vSources vuln) in
        if (length keptSources =? length (vSources vuln))%nat then (inr tt, s)
        else if (length keptSources =? 0)%nat then (inr tt, set_vulnerable (delete id (vulnerable s)) s)
        else (inr tt, set_vulnerable (<[id := set_sources keptSources vuln]> (vulnerable s)) s)
    end.

Definition DeleteVulnerabilityForSource (id source : string) (s : Store) : result unit * Store :=
  deleteVulnerabilityForSourceLocked id source s.

Definition DeleteMaliciousFinding (id : string) (s : Store) : Store :=
  match malicious s !! id with
  | Some finding => bury id finding s
  | None => set_malicious (delete id (malicious s)) s
  end.

Definition DeleteMaliciousFindingForSource (id source : string) (s : Store) : result unit * Store :=
  let source := TrimSpace source in
  if bool_decide (source = "") then (inl SourceRequired, s)
  else
    match malicious s !! id with
    | None => (inr tt, s)
    | Some finding =>
        if bool_decide (TrimSpace (mfSource finding) <> source) then (inr tt, s)
        else (inr tt, bury id finding s)
    end.

(** One step of the loop of [DeleteMaliciousFindingsNotInSource]. *)
Definition prune_step (source : string) (keepIDs : gset string) (acc : Z * Store)
    (entry : string * MaliciousFinding) : Z * Store :=
  let '(pruned, s) := acc in
  let '(id, finding) := entry in
  if bool_decide (mfSource finding <> source) then (pruned, s)
  else if bool_decide (id ∈ keepIDs) then (pruned, s)
  else (pruned + 1, bury id finding s).

Definition DeleteMaliciousFindingsNotInSource (source : string) (ids : list string) (s : Store) : Z * Store :=
  fold_left (prune_step source (list_to_set ids)) (range_map (malicious s)) (0, s).

(** ** Imports *)

Fixpoint delete_all_for_source (feed : string) (ids : list string) (deleted : Z) (s : Store)
    : Z * option error * Store :=
  match ids with
  | [] => (deleted, None, s)
  | id :: rest =>
      match deleteVulnerabilityForSourceLocked id feed s with
      | (inl e, s) => (deleted, Some e, s)
      | (inr _, s) => delete_all_for_source feed rest (deleted + 1) s
      end
  end.

(** The rows imported and deleted, the error if there is one, and the store,
    which keeps what was done before the error. *)
Definition importVulnerabilityFeedLocked (now : Time) (feed : string) (items : list Vulnerability)
    (deleteIDs : list string) (status : option FeedSyncStatus) (s : Store) : Z * Z * option error * Store :=
  let s := fold_left (fun s vuln => upsertVulnerabilityLocked (Some vuln) s) items s in
  let imported := Z.of_nat (length items) in
  let '(deleted, err, s) := delete_all_for_source feed deleteIDs 0 s in
  match err with
  | Some e => (imported, deleted, Some e, s)
  | None =>
      (imported, deleted, None,
       match status with None => s | Some _ => upsertFeedSyncStatusLocked now status s end)
  end.

Definition ImportVulnerabilityFeed (now : Time) (feed : string) (items : list Vulnerability)
    (deleteIDs : list string) (status : option FeedSyncStatus) (s : Store) : Z * Z * option error * Store :=
  importVulnerabilityFeedLocked now feed items deleteIDs status s.

Definition ImportVulnerabilityFeedWithAudit (now now' : Time) (feed : string) (items : list Vulnerability)
    (deleteIDs : list string) (status : option FeedSyncStatus) (audit : FeedImportAuditBuilder) (s : Store)
    : Z * Z * option error * Store :=
  match importVulnerabilityFeedLocked now feed items deleteIDs status s with
  | (imported, deleted, Some e, s) => (imported, deleted, Some e, s)
  | (imported, deleted, None, s) =>
      (imported, deleted, None,
       match audit with
       | None => s
       | Some audit => insertAdminAuditLogLocked key now' (Some (audit imported deleted)) s
       end)
  end.

Definition delete_from_feed (feed : string) (s : Store) (id : string) : Store :=
  match malicious s !! id with
  | Some finding => if bool_decide (feed = "") || bool_decide (mfSource finding = feed) then bury id finding s else s
  | None => s
  end.

Definition importMaliciousFeedLocked (now : Time) (feed : string) (items : list MaliciousFinding)
    (deleteIDs : list string) (status : option FeedSyncStatus) (s : Store) : Z * Z * Store :=
  let s := fold_left (fun s mf => (upsertMaliciousFindingLocked (Some mf) s).2) items s in
  let s := fold_left (delete_from_feed feed) deleteIDs s in
  (Z.of_nat (length items), Z.of_nat (length deleteIDs),
   match status with None => s | Some _ => upsertFeedSyncStatusLocked now status s end).

Definition ImportMaliciousFeed (now : Time) (feed : string) (items : list MaliciousFinding)
    (deleteIDs : list string) (status : option FeedSyncStatus) (s : Store) : Z * Z * Store :=
  importMaliciousFeedLocked now feed items deleteIDs status s.

Definition ImportMaliciousFeedWithAudit (now now' : Time) (feed : string) (items : list MaliciousFinding)
    (deleteIDs : list string) (status : option FeedSyncStatus) (audit : FeedImportAuditBuilder) (s : Store)
    : Z * Z * Store :=
  let '(imported, deleted, s) := importMaliciousFeedLocked now feed items deleteIDs status s in
  (imported, deleted,
   match audit with
   | None => s
   | Some audit => insertAdminAuditLogLocked key now' (Some (audit imported deleted)) s
   end).

Definition id_desc (a b : string) : Z := if bool_decide (a = b) then 0 else if str_cmp b a <? 0 then -1 else 1.

Definition limited {A} (limit : Z) (out : list A) : list A :=
  if (0 <? limit) && (limit <? Z.of_nat (length out)) then take (Z.to_nat limit) out else out.

Definition ListMaliciousFindings (source : string) (limit : Z) (s : Store) : list MaliciousFinding :=
  limited limit
    (sort_by (fun a b => id_desc (mfID a) (mfID b))
       (filter (fun f => source = "" \/ mfSource f = source) (range_map (malicious s)).*2)).

(** ** Operator advisories *)

Definition vulnerabilityHasManualSource (vuln : Vulnerability) : bool :=
  existsb (fun source => bool_decide (srcSource source = ManualAdvisorySource)) (vSources vuln).

(** [now] is the reading of the conversion to a vulnerability. *)
Definition upsertManualAdvisoryLocked (now : Time) (advisory : ManualAdvisory) (s : Store) : result unit * Store :=
  match ParseManualAdvisoryFindingType (maFindingType advisory) with
  | None => (inl (UnsupportedFindingType (maFindingType advisory)), s)
  | Some findingType =>
      if bool_decide (findingType = FindingTypeMalicious)
      then
        let finding := ManualAdvisoryToMaliciousFinding advisory in
        let finding := set_identity (mfID finding) (mfSource finding)
                         (NormalizeName (mfEcosystem finding) (mfName finding)) finding in
        let s := put_malicious finding s in
        (inr tt, set_vulnerable (delete (maID advisory) (vulnerable s)) s)
      else
        let s := put_vulnerability (ManualAdvisoryToVulnerability now advisory) s in
        (inr tt,
         match malicious s !! maID advisory with
         | Some finding => if bool_decide (mfSource finding = ManualAdvisorySource)
                           then bury (maID advisory) finding s else s
         | None => s
         end)
  end.

Definition UpsertManualAdvisory (now : Time) (advisory : option ManualAdvisory) (s : Store) : result unit * Store :=
  match advisory with None => (inr tt, s) | Some advisory => upsertManualAdvisoryLocked now advisory s end.

Definition UpsertManualAdvisoryWithAudit (now now' : Time) (advisory : option ManualAdvisory)
    (audit : option AdminAuditEntry) (s : Store) : result unit * Store :=
  match advisory with
  | None => (inr tt, s)
  | Some advisory => upsertManualAdvisoryLocked now' advisory (insertAdminAuditLogLocked key now audit s)
  end.

Definition deleteManualAdvisoryLocked (id : string) (s : Store) : result unit * Store :=
  let '(deleted, s) :=
    match malicious s !! id with
    | Some finding => if bool_decide (mfSource finding = ManualAdvisorySource) then (true, bury id finding s) else (false, s)
    | None => (false, s)
    end in
  let '(deleted, s) :=
    match vulnerable s !! id with
    | Some vuln => if vulnerabilityHasManualSource vuln
                   then (true, set_vulnerable (delete id (vulnerable s)) s) else (deleted, s)
    | None => (deleted, s)
    end in
  if deleted then (inr tt, s) else (inl (AdvisoryNotFound id), s).

Definition DeleteManualAdvisory (id : string) (s : Store) : result unit * Store := deleteManualAdvisoryLocked id s.

Definition manual_of_malicious (finding : MaliciousFinding) : ManualAdvisory :=
  mk_manual (mfID finding) "malicious" (mfEcosystem finding) (mfName finding) (mfSeverity finding)
    (mfRiskType finding) (mfSummary finding) (mfDescription finding) 0.

Definition manual_of_vulnerability (vuln : Vulnerability) (pkg : AffectedPackage) : ManualAdvisory :=
  mk_manual (vID vuln) "vulnerability" (affEcosystem pkg) (affName pkg) (vSeverity vuln) "" (vSummary vuln)
    (vDetails vuln) 0.

Definition manualAdvisoryByIDLocked (id : string) (s : Store) : option ManualAdvisory :=
  let from_vulnerability :=
    match vulnerable s !! id with
    | Some vuln =>
        if vulnerabilityHasManualSource vuln
        then match vAffectedPackages vuln with pkg :: _ => Some (manual_of_vulnerability vuln pkg) | [] => None end
        else None
    | None => None
    end in
  match malicious s !! id with
  | Some finding => if bool_decide (mfSource finding = ManualAdvisorySource)
                    then Some (manual_of_malicious finding) else from_vulnerability
  | None => from_vulnerability
  end.

Definition GetManualAdvisory (id : string) (s : Store) : option ManualAdvisory := manualAdvisoryByIDLocked id s.

Definition DeleteManualAdvisoryWithAudit (now : Time) (id : string) (audit : option AdminAuditEntry) (s : Store)
    : result unit * Store :=
  match manualAdvisoryByIDLocked id s with
  | None => (inl (AdvisoryNotFound id), s)
  | Some _ => deleteManualAdvisoryLocked id (insertAdminAuditLogLocked key now audit s)
  end.

Definition manual_cmp (a b : ManualAdvisory) : Z :=
  if bool_decide (maID a = maID b) then str_cmp (maFindingType a) (maFindingType b)
  else if str_cmp (maID b) (maID a) <? 0 then -1 else 1.

Definition manual_advisories (s : Store) : list ManualAdvisory :=
  (manual_of_malicious <$> filter (fun f => mfSource f = ManualAdvisorySource) (range_map (malicious s)).*2) ++
  (filter (fun v => vulnerabilityHasManualSource v = true) (range_map (vulnerable s)).*2 ≫=
     fun vuln => manual_of_vulnerability vuln <$> vAffectedPackages vuln).

Definition ListManualAdvisoriesPage (limit offset : Z) (s : Store) : list ManualAdvisory :=
  let out := sort_by manual_cmp (manual_advisories s) in
  let offset := if offset <? 0 then 0 else offset in
  if Z.of_nat (length out) <=? offset then []
  else limited limit (drop (Z.to_nat offset) out).

Definition ListManualAdvisories (limit : Z) (s : Store) : list ManualAdvisory := ListManualAdvisoriesPage limit 0 s.

(** ** The sync export *)

Definition export_row (finding : MaliciousFinding) : SyncMalicious :=
  mk_malicious (mfID finding) (mfEcosystem finding) (mfName finding) (mfVersionRanges finding) (mfVersions finding)
    (mfReferenceURLs finding) (mfRiskType finding) (mfSeverity finding) (mfSummary finding) (mfSource finding) false.

Definition export_cmp (a b : SyncMalicious) : Z :=
  if bool_decide (malEcosystem a = malEcosystem b)
  then if bool_decide (malName a = malName b) then str_cmp (malID a) (malID b) else str_cmp (malName a) (malName b)
  else str_cmp (malEcosystem a) (malEcosystem b).

Definition selected (ecosystems : gset string) (ecosystem : string) : Prop :=
  ecosystems = ∅ \/ ecosystem ∈ ecosystems.

#[export] Instance selected_dec ecosystems ecosystem : Decision (selected ecosystems ecosystem).
Proof. unfold selected. apply _. Defined.

Definition ExportSync (now : Time) (opts : SyncExportOptions) (s : Store) : SyncExport :=
  let snapshot := if IsZero (SnapshotAt opts) then now else SnapshotAt opts in
  let ecosystems : gset string := list_to_set (TrimSpace <$> Ecosystems opts) in
  let rows := export_row <$> filter (fun f => selected ecosystems (mfEcosystem f)) (range_map (malicious s)).*2 in
  let tombstones := match Since opts with
                    | None => []
                    | Some _ => filter (fun t => selected ecosystems (malEcosystem t)) (range_map (maliciousDel s)).*2
                    end in
  mk_export snapshot 0 [] (sort_by export_cmp (rows ++ tombstones)) [] [] false None false [] "" false false.

(** ** Calls *)

Inductive finding_op :=
| GUpsertVuln (vuln : option Vulnerability)
| GUpsertMal (mf : option MaliciousFinding)
| GImportVuln (now : Time) (feed : string) (items : list Vulnerability) (deleteIDs : list string)
    (status : option FeedSyncStatus)
| GImportVulnAudit (now now' : Time) (feed : string) (items : list Vulnerability) (deleteIDs : list string)
    (status : option FeedSyncStatus) (audit : FeedImportAuditBuilder)
| GImportMal (now : Time) (feed : string) (items : list MaliciousFinding) (deleteIDs : list string)
    (status : option FeedSyncStatus)
| GImportMalAudit (now now' : Time) (feed : string) (items : list MaliciousFinding) (deleteIDs : list string)
    (status : option FeedSyncStatus) (audit : FeedImportAuditBuilder)
| GDeleteVuln (id : string)
| GDeleteVulnSource (id source : string)
| GDeleteMal (id : string)
| GDeleteMalSource (id source : string)
| GPruneMal (source : string) (ids : list string)
| GUpsertManual (now : Time) (advisory : option ManualAdvisory)
| GUpsertManualAudit (now now' : Time) (advisory : option ManualAdvisory) (audit : option AdminAuditEntry)
| GDeleteManual (id : string)
| GDeleteManualAudit (now : Time) (id : string) (audit : option AdminAuditEntry).

Definition finding_times (o : finding_op) : list Time :=
  match o with
  | GImportVuln now _ _ _ _ | GImportMal now _ _ _ _ | GUpsertManual now _ | GDeleteManualAudit now _ _ => [now]
  | GImportVulnAudit now now' _ _ _ _ _ | GImportMalAudit now now' _ _ _ _ _ | GUpsertManualAudit now now' _ _ =>
      [now; now']
  | _ => []
  end.

Definition exec_finding (o : finding_op) (s : Store) : Store :=
  match o with
  | GUpsertVuln vuln => UpsertVulnerability vuln s
  | GUpsertMal mf => (UpsertMaliciousFinding mf s).2
  | GImportVuln now feed items deleteIDs status => (ImportVulnerabilityFeed now feed items deleteIDs status s).2
  | GImportVulnAudit now now' feed items deleteIDs status audit =>
      (ImportVulnerabilityFeedWithAudit now now' feed items deleteIDs status audit s).2
  | GImportMal now feed items deleteIDs status => (ImportMaliciousFeed now feed items deleteIDs status s).2
  | GImportMalAudit now now' feed items deleteIDs status audit =>
      (ImportMaliciousFeedWithAudit now now' feed items deleteIDs status audit s).2
  | GDeleteVuln id => DeleteVulnerability id s
  | GDeleteVulnSource id source => (DeleteVulnerabilityForSource id source s).2
  | GDeleteMal id => DeleteMaliciousFinding id s
  | GDeleteMalSource id source => (DeleteMaliciousFindingForSource id source s).2
  | GPruneMal source ids => (DeleteMaliciousFindingsNotInSource source ids s).2
  | GUpsertManual now advisory => (UpsertManualAdvisory now advisory s).2
  | GUpsertManualAudit now now' advisory audit => (UpsertManualAdvisoryWithAudit now now' advisory audit s).2
  | GDeleteManual id => (DeleteManualAdvisory id s).2
  | GDeleteManualAudit now id audit => (DeleteManualAdvisoryWithAudit now id audit s).2
  end.

(** ** Elementary steps

    Every call is a sequence of elementary steps on the advisory maps, of
    steps that leave the maps alone, and of at most one audit row. *)
Inductive advisory_step (s : Store) : Store -> Prop :=
| map_put_vulnerability vuln : advisory_step s (put_vulnerability vuln s)
| map_drop_vulnerability id : advisory_step s (set_vulnerable (delete id (vulnerable s)) s)
| map_keep_sources id vuln sources :
    vulnerable s !! id = Some vuln ->
    advisory_step s (set_vulnerable (<[id := set_sources sources vuln]> (vulnerable s)) s)
| map_put_malicious mf raw :
    mfName mf = NormalizeName (mfEcosystem mf) raw -> advisory_step s (put_malicious mf s)
| map_bury id finding : malicious s !! id = Some finding -> advisory_step s (bury id finding s)
| map_other s' :
    vulnerable s' = vulnerable s -> malicious s' = malicious s -> maliciousDel s' = maliciousDel s -> advisory_step s s'.

Inductive advisory_steps : Store -> Store -> Prop :=
| map_done s : advisory_steps s s
| map_more s1 s2 s3 : advisory_steps s1 s2 -> advisory_step s2 s3 -> advisory_steps s1 s3.

Lemma map_one s s' : advisory_step s s' -> advisory_steps s s'.
Proof. eauto using advisory_steps. Qed.

Lemma advisory_steps_trans s1 s2 s3 : advisory_steps s1 s2 -> advisory_steps s2 s3 -> advisory_steps s1 s3.
Proof. intros H1. induction 1; eauto using advisory_steps. Qed.

Lemma map_same s s' :
  vulnerable s' = vulnerable s -> malicious s' = malicious s -> maliciousDel s' = maliciousDel s -> advisory_steps s s'.
Proof. intros. by apply map_one, map_other. Qed.

Lemma insert_maps now e s : advisory_steps s (insertAdminAuditLogLocked key now e s).
Proof. apply map_same; (destruct e as [e|]; simpl; [|done]; by case_bool_decide). Qed.

Lemma status_maps now status s : advisory_steps s (upsertFeedSyncStatusLocked now status s).
Proof. unfold upsertFeedSyncStatusLocked. repeat case_match; by apply map_same. Qed.

Lemma upsert_vuln_maps vuln s : advisory_steps s (upsertVulnerabilityLocked vuln s).
Proof.
  unfold upsertVulnerabilityLocked. destruct vuln; [|apply map_done].
  case_bool_decide; [apply map_done|apply map_one, map_put_vulnerability].
Qed.

Lemma upsert_mal_maps mf s : advisory_steps s (upsertMaliciousFindingLocked mf s).2.
Proof.
  unfold upsertMaliciousFindingLocked. destruct mf as [mf|]; [|apply map_done]. case_bool_decide; simpl.
  - eapply map_more; [by apply (map_same s (set_nextManualID (nextManualID s + 1) s))|].
    by apply map_put_malicious with (mfName mf).
  - apply map_one. by apply map_put_malicious with (mfName mf).
Qed.

Lemma fold_maps {A} (f : Store -> A -> Store) l s :
  (forall s x, advisory_steps s (f s x)) -> advisory_steps s (fold_left f l s).
Proof.
  intros Hf. revert s. induction l as [|x l IH]; intros s; [apply map_done|]. simpl.
  by apply (advisory_steps_trans s (f s x)).
Qed.

Lemma delete_source_maps id source s : advisory_steps s (deleteVulnerabilityForSourceLocked id source s).2.
Proof.
  unfold deleteVulnerabilityForSourceLocked. cbv zeta.
  case_bool_decide; [apply map_done|]. destruct (vulnerable s !! id) eqn:E; [|apply map_done].
  case_match; [apply map_done|]. case_match; simpl.
  - apply map_one, map_drop_vulnerability.
  - by apply map_one, map_keep_sources.
Qed.

Lemma delete_all_maps feed ids n s : advisory_steps s (delete_all_for_source feed ids n s).2.
Proof.
  revert n s. induction ids as [|id ids IH]; intros n s; simpl; [apply map_done|].
  pose proof (delete_source_maps id feed s) as H.
  destruct (deleteVulnerabilityForSourceLocked id feed s) as [[e|u] s']; simpl in *; [done|].
  by apply (advisory_steps_trans s s').
Qed.

Lemma import_vuln_maps now feed items ids status s :
  advisory_steps s (importVulnerabilityFeedLocked now feed items ids status s).2.
Proof.
  unfold importVulnerabilityFeedLocked. cbv zeta.
  pose proof (fold_maps (fun s vuln => upsertVulnerabilityLocked (Some vuln) s) items s) as H1.
  set (s1 := fold_left _ items s) in *. pose proof (delete_all_maps feed ids 0 s1) as H2.
  destruct (delete_all_for_source feed ids 0 s1) as [[n e] s2]. simpl in H2.
  assert (advisory_steps s s2) by (apply (advisory_steps_trans s s1); auto using upsert_vuln_maps).
  destruct e; simpl; [done|]. destruct status; [|done].
  apply (advisory_steps_trans s s2); [done|]. apply status_maps.
Qed.

Lemma delete_feed_maps feed s id : advisory_steps s (delete_from_feed feed s id).
Proof.
  unfold delete_from_feed. destruct (malicious s !! id) eqn:E; [|apply map_done].
  case_match; [by apply map_one, map_bury|apply map_done].
Qed.

Lemma import_mal_maps now feed items ids status s :
  advisory_steps s (importMaliciousFeedLocked now feed items ids status s).2.
Proof.
  unfold importMaliciousFeedLocked. cbv zeta. cbn [snd].
  set (s1 := fold_left _ items s). set (s2 := fold_left (delete_from_feed feed) ids s1).
  assert (advisory_steps s s2).
  { apply (advisory_steps_trans s s1); apply fold_maps; intros; [apply upsert_mal_maps|apply delete_feed_maps]. }
  destruct status; [|done]. apply (advisory_steps_trans s s2); [done|]. apply status_maps.
Qed.

Lemma prune_maps source keep l n s :
  (forall id f, (id, f) ∈ l -> malicious s !! id = Some f) -> NoDup l.*1 ->
  advisory_steps s (fold_left (prune_step source keep) l (n, s)).2.
Proof.
  revert n s. induction l as [|[id f] l IH]; intros n s Hl Hnd; simpl; [apply map_done|].
  apply NoDup_cons in Hnd as [Hid Hnd].
  assert (malicious s !! id = Some f) as Hf by (apply Hl; left).
  repeat case_bool_decide; [apply IH; [|done]; intros; apply Hl; by right..|].
  apply (advisory_steps_trans s (bury id f s)); [by apply map_one, map_bury|].
  apply IH; [|done]. intros id' f' Hin. simpl.
  rewrite lookup_delete_ne; [apply Hl; by right|]. intros <-. apply Hid. apply list_elem_of_fmap. by exists (id, f').
Qed.

Lemma upsert_manual_maps now a s : advisory_steps s (upsertManualAdvisoryLocked now a s).2.
Proof.
  unfold upsertManualAdvisoryLocked. destruct (ParseManualAdvisoryFindingType _) as [ty|]; [|apply map_done].
  case_bool_decide; cbv zeta; cbn [snd].
  - eapply map_more; [|apply map_drop_vulnerability]. apply map_one. by eapply map_put_malicious.
  - set (s1 := put_vulnerability _ s). assert (advisory_steps s s1) by apply map_one, map_put_vulnerability.
    destruct (malicious s1 !! maID a) eqn:E; [|done]. case_bool_decide; [|done].
    eapply map_more; [done|]. by apply map_bury.
Qed.

Lemma delete_manual_maps id s : advisory_steps s (deleteManualAdvisoryLocked id s).2.
Proof.
  assert (forall d s1, advisory_steps s s1 ->
    advisory_steps s (let '(deleted, s) :=
      match vulnerable s1 !! id with
      | Some vuln => if vulnerabilityHasManualSource vuln
                     then (true, set_vulnerable (delete id (vulnerable s1)) s1) else (d, s1)
      | None => (d, s1)
      end in
      if deleted then (inr tt, s) else (inl (AdvisoryNotFound id), s) : result unit * Store).2) as H.
  { intros d s1 H1. destruct (vulnerable s1 !! id) as [v|]; [destruct (vulnerabilityHasManualSource v)|];
      try (by destruct d). simpl. eapply map_more; [done|]. apply map_drop_vulnerability. }
  unfold deleteManualAdvisoryLocked. destruct (malicious s !! id) as [f|] eqn:E; [|apply H, map_done].
  case_bool_decide; apply H; [by apply map_one, map_bury|apply map_done].
Qed.

Lemma exec_finding_maps o s : advisory_steps s (exec_finding o s).
Proof.
  destruct o; cbn [exec_finding].
  - apply upsert_vuln_maps.
  - apply upsert_mal_maps.
  - apply import_vuln_maps.
  - unfold ImportVulnerabilityFeedWithAudit. pose proof (import_vuln_maps now feed items deleteIDs status s) as H.
    destruct (importVulnerabilityFeedLocked _ _ _ _ _ _) as [[[n m] [e|]] s']; [done|].
    destruct audit; [|done]. eapply advisory_steps_trans; [apply H|]. apply insert_maps.
  - apply import_mal_maps.
  - unfold ImportMaliciousFeedWithAudit. pose proof (import_mal_maps now feed items deleteIDs status s) as H.
    destruct (importMaliciousFeedLocked _ _ _ _ _ _) as [[n m] s'].
    destruct audit; [|done]. eapply advisory_steps_trans; [apply H|]. apply insert_maps.
  - apply map_one, map_drop_vulnerability.
  - apply delete_source_maps.
  - unfold DeleteMaliciousFinding. destruct (malicious s !! id) eqn:E; [by apply map_one, map_bury|].
    apply map_same; [done| |done]. simpl. by rewrite delete_id.
  - unfold DeleteMaliciousFindingForSource. cbv zeta. case_bool_decide; [apply map_done|].
    destruct (malicious s !! id) eqn:E; [|apply map_done]. case_bool_decide; [apply map_done|]. by apply map_one, map_bury.
  - apply prune_maps; [|apply range_map_keys_NoDup]. intros id f. apply range_map_elem.
  - destruct advisory; [apply upsert_manual_maps|apply map_done].
  - destruct advisory; [|apply map_done]. simpl.
    eapply advisory_steps_trans; [apply (insert_maps now audit)|]. apply upsert_manual_maps.
  - apply delete_manual_maps.
  - unfold DeleteManualAdvisoryWithAudit. destruct (manualAdvisoryByIDLocked id s); [|apply map_done].
    eapply advisory_steps_trans; [apply (insert_maps now audit)|]. apply delete_manual_maps.
Qed.

(** ** The maps' invariant *)

Definition canonical (ecosystem name : string) : Prop := exists raw, name = NormalizeName ecosystem raw.

(** Rows are kept under their identifiers, names are canonical, and a
    tombstone is a withdrawn row under an identifier that is not in use. *)
Definition findings_ok (s : Store) : Prop :=
  (forall id v, vulnerable s !! id = Some v ->
     vID v = id /\ Forall (fun p => canonical (affEcosystem p) (affName p)) (vAffectedPackages v)) /\
  (forall id f, malicious s !! id = Some f -> mfID f = id /\ canonical (mfEcosystem f) (mfName f)) /\
  (forall id t, maliciousDel s !! id = Some t -> malID t = id /\ malWithdrawn t = true /\ malicious s !! id = None).

Lemma advisory_step_ok s s' : advisory_step s s' -> findings_ok s -> findings_ok s'.
Proof.
  intros Hstep (Hv & Hm & Ht). unfold findings_ok.
  destruct Hstep as [vuln|id|id vuln sources Hl|mf raw Hn|id f Hf|s' E1 E2 E3]; simpl.
  - split_and!; [|done..]. intros id v [[<- <-]|[Hne H]]%lookup_insert_Some; [|auto].
    split; [done|]. simpl. apply Forall_fmap, Forall_true. intros p. by eexists.
  - split_and!; [|done..]. intros id' v [_ H]%lookup_delete_Some. auto.
  - split_and!; [|done..]. intros id' v [[<- <-]|[Hne H]]%lookup_insert_Some; [|auto]. by apply (Hv id vuln).
  - split_and!; [done|..].
    + intros id f [[<- <-]|[Hne H]]%lookup_insert_Some; [|auto]. split; [done|by eexists].
    + intros id t [Hne H]%lookup_delete_Some. destruct (Ht id t H) as (? & ? & ?).
      rewrite lookup_insert_ne by done. done.
  - destruct (Hm id f Hf) as [Hid Hc]. split_and!; [done|..].
    + intros id' f' [_ H]%lookup_delete_Some. auto.
    + intros id' t [[<- <-]|[Hne H]]%lookup_insert_Some; [by rewrite lookup_delete_eq|].
      rewrite lookup_delete_ne by done. auto.
  - by rewrite E1, E2, E3.
Qed.

Lemma advisory_steps_ok s s' : advisory_steps s s' -> findings_ok s -> findings_ok s'.
Proof. induction 1; eauto using advisory_step_ok. Qed.

(** A finding that was there and is gone has a tombstone. *)
Definition buried (s0 s : Store) : Prop :=
  forall id, malicious s0 !! id <> None -> malicious s !! id = None -> maliciousDel s !! id <> None.

Lemma advisory_step_buried s s' : advisory_step s s' -> forall s0, buried s0 s -> buried s0 s'.
Proof.
  intros Hstep s0 H. destruct Hstep as [vuln|id|id vuln sources Hl|mf raw Hn|id f Hf|s' E1 E2 E3]; try done.
  - intros id Hid Hgone. simpl in *. rewrite lookup_insert_None in Hgone. destruct Hgone as [Hgone Hne].
    rewrite lookup_delete_ne by done. auto.
  - intros id' Hid Hgone. simpl in *. destruct (decide (id = id')) as [<-|Hne].
    + by rewrite lookup_insert_eq.
    + rewrite lookup_insert_ne by done. rewrite lookup_delete_ne in Hgone by done. auto.
  - unfold buried. by rewrite E2, E3.
Qed.

Lemma advisory_steps_buried s s' : advisory_steps s s' -> buried s s'.
Proof.
  intros H. assert (forall s0, buried s0 s -> buried s0 s') as Hall.
  { induction H as [|s1 s2 s3 _ IH Hstep]; [done|]. intros s0 Hs0.
    apply (advisory_step_buried s2); [done|]. by apply IH. }
  apply Hall. intros id Hid Hgone. congruence.
Qed.

(** ** Frames *)

Lemma put_vulnerability_quiet v s : quiet s (put_vulnerability v s).
Proof. done. Qed.
Lemma put_malicious_quiet m s : quiet s (put_malicious m s).
Proof. done. Qed.
Lemma bury_quiet id f s : quiet s (bury id f s).
Proof. done. Qed.

Lemma status_quiet' now status s : quiet s (upsertFeedSyncStatusLocked now status s).
Proof. apply status_quiet, quiet_refl. Qed.

#[local] Hint Resolve put_vulnerability_quiet put_malicious_quiet bury_quiet status_quiet' : frames.

Lemma fold_quiet {A} (f : Store -> A -> Store) l s :
  (forall s x, quiet s (f s x)) -> quiet s (fold_left f l s).
Proof.
  intros Hf. revert s. induction l as [|x l IH]; intros s; [done|]. simpl. by apply (quiet_trans s (f s x)).
Qed.

Lemma upsert_vuln_quiet vuln s : quiet s (upsertVulnerabilityLocked vuln s).
Proof. unfold upsertVulnerabilityLocked. repeat case_match; auto with frames. Qed.

Lemma upsert_mal_quiet mf s : quiet s (upsertMaliciousFindingLocked mf s).2.
Proof. unfold upsertMaliciousFindingLocked. destruct mf; [|done]. case_bool_decide; done. Qed.

Lemma delete_source_quiet id source s : quiet s (deleteVulnerabilityForSourceLocked id source s).2.
Proof. unfold deleteVulnerabilityForSourceLocked. cbv zeta. repeat case_match; simpl; auto with frames. Qed.

Lemma delete_all_quiet feed ids n s : quiet s (delete_all_for_source feed ids n s).2.
Proof.
  revert n s. induction ids as [|id ids IH]; intros n s; simpl; [done|].
  pose proof (delete_source_quiet id feed s) as H.
  destruct (deleteVulnerabilityForSourceLocked id feed s) as [[e|u] s']; simpl in *; [done|].
  by apply (quiet_trans s s').
Qed.

Lemma import_vuln_quiet now feed items ids status s :
  quiet s (importVulnerabilityFeedLocked now feed items ids status s).2.
Proof.
  unfold importVulnerabilityFeedLocked. cbv zeta.
  pose proof (fold_quiet (fun s vuln => upsertVulnerabilityLocked (Some vuln) s) items s) as H1.
  set (s1 := fold_left _ items s) in *. pose proof (delete_all_quiet feed ids 0 s1) as H2.
  destruct (delete_all_for_source feed ids 0 s1) as [[n e] s2]. simpl in H2.
  assert (quiet s s2) by (apply (quiet_trans s s1); auto using upsert_vuln_quiet).
  destruct e; simpl; [done|]. destruct status; [|done]. apply (quiet_trans s s2); auto with frames.
Qed.

Lemma import_mal_quiet now feed items ids status s :
  quiet s (importMaliciousFeedLocked now feed items ids status s).2.
Proof.
  unfold importMaliciousFeedLocked. cbv zeta. cbn [snd].
  set (s1 := fold_left _ items s). set (s2 := fold_left (delete_from_feed feed) ids s1).
  assert (quiet s s2).
  { apply (quiet_trans s s1); apply fold_quiet; intros; [apply upsert_mal_quiet|].
    unfold delete_from_feed. repeat case_match; auto with frames. }
  destruct status; [|done]. apply (quiet_trans s s2); auto with frames.
Qed.

Lemma prune_quiet source keep l acc : quiet acc.2 (fold_left (prune_step source keep) l acc).2.
Proof.
  revert acc. induction l as [|[id f] l IH]; intros [n s]; simpl; [done|].
  repeat case_bool_decide; [apply (IH (n, s))..|].
  apply (quiet_trans s (bury id f s)); [done|]. apply (IH (n + 1, bury id f s)).
Qed.

Lemma upsert_manual_quiet now a s : quiet s (upsertManualAdvisoryLocked now a s).2.
Proof.
  unfold upsertManualAdvisoryLocked. destruct (ParseManualAdvisoryFindingType _) as [ty|]; [|done].
  case_bool_decide; cbv zeta; cbn [snd]; [done|]. by repeat case_match.
Qed.

Lemma delete_manual_quiet id s : quiet s (deleteManualAdvisoryLocked id s).2.
Proof. unfold deleteManualAdvisoryLocked. repeat case_match; simplify_eq; done. Qed.

Lemma exec_finding_framed o s : framed key (finding_times o) s (exec_finding o s).
Proof.
  destruct o; cbn [exec_finding finding_times]; try (apply framed_quiet;
    auto using upsert_vuln_quiet, upsert_mal_quiet, import_vuln_quiet, import_mal_quiet, delete_source_quiet,
      delete_manual_quiet with frames; fail).
  - unfold ImportVulnerabilityFeedWithAudit. pose proof (import_vuln_quiet now feed items deleteIDs status s) as H.
    destruct (importVulnerabilityFeedLocked _ _ _ _ _ _) as [[[n m] [e|]] s']; cbn [snd] in *; [by apply framed_quiet|].
    destruct audit; [|by apply framed_quiet]. apply framed_row; [right; left|done].
  - unfold ImportMaliciousFeedWithAudit. pose proof (import_mal_quiet now feed items deleteIDs status s) as H.
    destruct (importMaliciousFeedLocked _ _ _ _ _ _) as [[n m] s']. cbn [snd] in *.
    destruct audit; [|by apply framed_quiet]. apply framed_row; [right; left|done].
  - by apply framed_quiet.
  - apply framed_quiet. unfold DeleteMaliciousFinding. case_match; auto with frames.
  - apply framed_quiet. unfold DeleteMaliciousFindingForSource. cbv zeta. repeat case_match; simpl; auto with frames.
  - apply framed_quiet. apply (prune_quiet source (list_to_set ids) _ (0, s)).
  - apply framed_quiet. destruct advisory; [apply upsert_manual_quiet|done].
  - destruct advisory; [|by apply framed_quiet]. simpl.
    apply (framed_insert key _ now audit s s); [left|done|]. apply upsert_manual_quiet.
  - unfold DeleteManualAdvisoryWithAudit. destruct (manualAdvisoryByIDLocked id s); [|by apply framed_quiet].
    apply (framed_insert key _ now audit s s); [left|done|]. apply delete_manual_quiet.
Qed.

(** ** Feeds

    Imports record the status of their feed; everything else leaves feeds and
    the scan log alone. *)

Definition keeps_feeds (s s' : Store) : Prop := scanLogs s' = scanLogs s /\ (feeds_ok s -> feeds_ok s').

Lemma keeps_feeds_trans s1 s2 s3 : keeps_feeds s1 s2 -> keeps_feeds s2 s3 -> keeps_feeds s1 s3.
Proof. unfold keeps_feeds. intros [-> ?] [-> ?]. auto. Qed.

Lemma insert_keeps_feeds now e s : keeps_feeds s (insertAdminAuditLogLocked key now e s).
Proof. split; [destruct e as [e|]; simpl; [by case_bool_decide|done]|]. apply insert_feeds_ok. Qed.

Lemma status_keeps_feeds now status s : keeps_feeds s (upsertFeedSyncStatusLocked now status s).
Proof. split; [apply status_keeps|]. apply status_feeds_ok. Qed.

Lemma fold_keeps_feeds {A} (f : Store -> A -> Store) l s :
  (forall s x, keeps_feeds s (f s x)) -> keeps_feeds s (fold_left f l s).
Proof.
  intros Hf. revert s. induction l as [|x l IH]; intros s; [done|]. simpl. by apply (keeps_feeds_trans s (f s x)).
Qed.

Lemma delete_source_keeps_feeds id source s : keeps_feeds s (deleteVulnerabilityForSourceLocked id source s).2.
Proof. unfold deleteVulnerabilityForSourceLocked. cbv zeta. by repeat case_match. Qed.

Lemma delete_all_keeps_feeds feed ids n s : keeps_feeds s (delete_all_for_source feed ids n s).2.
Proof.
  revert n s. induction ids as [|id ids IH]; intros n s; simpl; [done|].
  pose proof (delete_source_keeps_feeds id feed s) as H.
  destruct (deleteVulnerabilityForSourceLocked id feed s) as [[e|u] s']; simpl in *; [done|].
  by apply (keeps_feeds_trans s s').
Qed.

Lemma import_vuln_keeps_feeds now feed items ids status s :
  keeps_feeds s (importVulnerabilityFeedLocked now feed items ids status s).2.
Proof.
  unfold importVulnerabilityFeedLocked. cbv zeta.
  assert (keeps_feeds s (fold_left (fun s vuln => upsertVulnerabilityLocked (Some vuln) s) items s)) as H1.
  { apply fold_keeps_feeds. intros s0 x. unfold upsertVulnerabilityLocked. by case_bool_decide. }
  set (s1 := fold_left _ items s) in *. pose proof (delete_all_keeps_feeds feed ids 0 s1) as H2.
  destruct (delete_all_for_source feed ids 0 s1) as [[n e] s2]. simpl in H2.
  assert (keeps_feeds s s2) by (by apply (keeps_feeds_trans s s1)).
  destruct e; simpl; [done|]. destruct status; [|done]. apply (keeps_feeds_trans s s2); [done|]. apply status_keeps_feeds.
Qed.

Lemma import_mal_keeps_feeds now feed items ids status s :
  keeps_feeds s (importMaliciousFeedLocked now feed items ids status s).2.
Proof.
  unfold importMaliciousFeedLocked. cbv zeta. cbn [snd].
  set (s1 := fold_left _ items s). set (s2 := fold_left (delete_from_feed feed) ids s1).
  assert (keeps_feeds s s2).
  { apply (keeps_feeds_trans s s1); apply fold_keeps_feeds; intros s0 x.
    - unfold upsertMaliciousFindingLocked. by case_bool_decide.
    - unfold delete_from_feed. by repeat case_match. }
  destruct status; [|done]. apply (keeps_feeds_trans s s2); [done|]. apply status_keeps_feeds.
Qed.

Lemma upsert_manual_keeps_feeds now a s : keeps_feeds s (upsertManualAdvisoryLocked now a s).2.
Proof.
  unfold upsertManualAdvisoryLocked. destruct (ParseManualAdvisoryFindingType _) as [ty|]; [|done].
  case_bool_decide; cbv zeta; cbn [snd]; [done|]. by repeat case_match.
Qed.

Lemma delete_manual_keeps_feeds id s : keeps_feeds s (deleteManualAdvisoryLocked id s).2.
Proof. unfold deleteManualAdvisoryLocked. repeat case_match; simplify_eq; done. Qed.

Lemma prune_keeps_feeds source keep l acc : keeps_feeds acc.2 (fold_left (prune_step source keep) l acc).2.
Proof.
  revert acc. induction l as [|[id f] l IH]; intros [n s]; simpl; [done|].
  repeat case_bool_decide; [apply (IH (n, s))..|].
  apply (keeps_feeds_trans s (bury id f s)); [done|]. apply (IH (n + 1, bury id f s)).
Qed.

Lemma exec_finding_keeps_feeds o s : keeps_feeds s (exec_finding o s).
Proof.
  destruct o; cbn [exec_finding]; try (by apply import_vuln_keeps_feeds); try (by apply import_mal_keeps_feeds);
    try (by apply delete_source_keeps_feeds); try (by apply delete_manual_keeps_feeds); try done.
  - unfold UpsertVulnerability, upsertVulnerabilityLocked. by repeat case_match.
  - unfold UpsertMaliciousFinding, upsertMaliciousFindingLocked. destruct mf; [|done]. by case_bool_decide.
  - unfold ImportVulnerabilityFeedWithAudit. pose proof (import_vuln_keeps_feeds now feed items deleteIDs status s) as H.
    destruct (importVulnerabilityFeedLocked _ _ _ _ _ _) as [[[n m] [e|]] s']; cbn [snd] in *; [done|].
    destruct audit; [|done]. eapply keeps_feeds_trans; [apply H|]. apply insert_keeps_feeds.
  - unfold ImportMaliciousFeedWithAudit. pose proof (import_mal_keeps_feeds now feed items deleteIDs status s) as H.
    destruct (importMaliciousFeedLocked _ _ _ _ _ _) as [[n m] s']. cbn [snd] in *.
    destruct audit; [|done]. eapply keeps_feeds_trans; [apply H|]. apply insert_keeps_feeds.
  - unfold DeleteMaliciousFinding. by case_match.
  - unfold DeleteMaliciousFindingForSource. cbv zeta. by repeat case_match.
  - apply (prune_keeps_feeds source (list_to_set ids) _ (0, s)).
  - destruct advisory; [apply upsert_manual_keeps_feeds|done].
  - destruct advisory; [|done]. eapply keeps_feeds_trans; [apply (insert_keeps_feeds now audit)|]. apply upsert_manual_keeps_feeds.
  - unfold DeleteManualAdvisoryWithAudit. destruct (manualAdvisoryByIDLocked id s); [|done].
    eapply keeps_feeds_trans; [apply (insert_keeps_feeds now audit)|]. apply delete_manual_keeps_feeds.
Qed.

(** ** Lookups *)

(** The version is one the row's constraints affect, or cannot rule out. *)
Definition maybe_affected (ecosystem version rangesJSON versionsJSON : string) : Prop :=
  TrimSpace version = "" \/
  let '(r, v) := NormalizeVersionConstraintJSON rangesJSON versionsJSON in
  let '(affected, err) := VersionAffected version r v ecosystem in affected = true \/ err = true.

Lemma vulnerability_affects eco version r v :
  noopVulnerabilityAffectsVersion eco version r v = true <-> maybe_affected eco version r v.
Proof.
  unfold noopVulnerabilityAffectsVersion, maybe_affected. case_bool_decide as E; [tauto|].
  destruct (NormalizeVersionConstraintJSON r v) as [r' v'].
  destruct (VersionAffected version r' v' eco) as [[] []]; naive_solver.
Qed.

Lemma malicious_affects eco version r v :
  noopMaliciousAffectsVersion eco version r v = true <-> maybe_affected eco version r v.
Proof. apply vulnerability_affects. Qed.

Lemma FindVulnerabilities_elem eco name version s f :
  f ∈ FindVulnerabilities eco name version s <->
  exists id vuln pkg,
    vulnerable s !! id = Some vuln /\ pkg ∈ vAffectedPackages vuln /\
    affEcosystem pkg = eco /\ affName pkg = NormalizeName eco name /\
    maybe_affected eco version (affVersionRanges pkg) (affVersionsAffected pkg) /\
    f = vuln_finding eco (NormalizeName eco name) version vuln pkg.
Proof.
  unfold FindVulnerabilities. cbv zeta. rewrite list_elem_of_bind. split.
  - intros ([id vuln] & (pkg & -> & (Hhit & Hpkg)%list_elem_of_filter)%list_elem_of_fmap & Hin%range_map_elem).
    unfold hits_package in Hhit. rewrite !andb_true_iff, !bool_decide_eq_true in Hhit.
    destruct Hhit as [[<- Hn] Ha%vulnerability_affects]. exists id, vuln, pkg. done.
  - intros (id & vuln & pkg & Hv & Hpkg & <- & Hn & Ha & ->). exists (id, vuln).
    split; [|by apply range_map_elem]. apply list_elem_of_fmap. exists pkg. split; [done|].
    apply list_elem_of_filter. split; [|done]. unfold hits_package.
    rewrite !andb_true_iff, !bool_decide_eq_true. split_and!; [done..|]. by apply vulnerability_affects.
Qed.

Lemma FindMalicious_elem eco name version s f :
  f ∈ FindMalicious eco name version s <->
  exists id mf,
    malicious s !! id = Some mf /\ mfEcosystem mf = eco /\ mfName mf = NormalizeName eco name /\
    maybe_affected eco version (mfVersionRanges mf) (mfVersions mf) /\ f = malicious_finding version mf.
Proof.
  unfold FindMalicious. cbv zeta. rewrite list_elem_of_fmap. split.
  - intros (mf & -> & (Hhit & ([id mf'] & -> & Hin%range_map_elem)%list_elem_of_fmap)%list_elem_of_filter).
    unfold hits_malicious in Hhit. rewrite !andb_true_iff, !bool_decide_eq_true in Hhit. simpl in *.
    destruct Hhit as [[<- Hn] Ha%malicious_affects]. exists id, mf'. done.
  - intros (id & mf & Hm & <- & Hn & Ha & ->). exists mf. split; [done|].
    apply list_elem_of_filter. split.
    + unfold hits_malicious. rewrite !andb_true_iff, !bool_decide_eq_true. split_and!; [done..|].
      by apply malicious_affects.
    + apply list_elem_of_fmap. exists (id, mf). split; [done|]. by apply range_map_elem.
Qed.

(** Canonical blank constraints state what blank constraints state. *)
Lemma normalized_ranges raw : advisory_ranges (normalizeVersionConstraintJSONField raw) = advisory_ranges raw.
Proof.
  unfold normalizeVersionConstraintJSONField, advisory_ranges, present. cbv zeta.
  destruct (bool_decide (TrimSpace raw = "") || bool_decide (TrimSpace raw = "null")) eqn:E.
  - vm_compute. reflexivity.
  - rewrite TrimSpace_idem, E. done.
Qed.

Lemma normalized_versions raw : advisory_versions (normalizeVersionConstraintJSONField raw) = advisory_versions raw.
Proof.
  unfold normalizeVersionConstraintJSONField, advisory_versions, present. cbv zeta.
  destruct (bool_decide (TrimSpace raw = "") || bool_decide (TrimSpace raw = "null")) eqn:E.
  - vm_compute. reflexivity.
  - rewrite TrimSpace_idem, E. done.
Qed.

Lemma maybe_affected_spec eco version r v :
  maybe_affected eco version r v <-> TrimSpace version = "" \/ ~ ruled_out version eco r v.
Proof.
  unfold maybe_affected, NormalizeVersionConstraintJSON.
  destruct (VersionAffected_ruled_out version (normalizeVersionConstraintJSONField r)
    (normalizeVersionConstraintJSONField v) eco) as [Hout Herr].
  unfold ruled_out in *. rewrite normalized_ranges, normalized_versions in Hout.
  destruct (VersionAffected version _ _ eco) as [[] []]; naive_solver.
Qed.

(** A stored advisory is found under every spelling of its package, for every
    version not ruled out. *)
Lemma stored_vulnerability_found vuln pkg name version s :
  TrimSpace (vID vuln) <> "" -> pkg ∈ vAffectedPackages vuln ->
  NormalizeName (affEcosystem pkg) name = NormalizeName (affEcosystem pkg) (affName pkg) ->
  TrimSpace version = "" \/ ~ ruled_out version (affEcosystem pkg) (affVersionRanges pkg) (affVersionsAffected pkg) ->
  exists f, f ∈ FindVulnerabilities (affEcosystem pkg) name version (UpsertVulnerability (Some vuln) s) /\
    fAdvisoryID f = vID vuln /\ fSeverity f = ToUpper (TrimSpace (vSeverity vuln)) /\
    forall t, t <> SeverityNone -> Rank t <= Rank (ToUpper (TrimSpace (vSeverity vuln))) -> FindingBlocks f t = true.
Proof.
  intros Hid Hpkg Hname Hver.
  exists (vuln_finding (affEcosystem pkg) (NormalizeName (affEcosystem pkg) name) version
            (set_affected (normalize_affected <$> vAffectedPackages vuln) vuln) (normalize_affected pkg)).
  split_and!; [|done|done|].
  - apply FindVulnerabilities_elem. eexists (vID vuln), _, (normalize_affected pkg). split_and!.
    + unfold UpsertVulnerability, upsertVulnerabilityLocked. rewrite bool_decide_eq_false_2 by done.
      simpl. apply lookup_insert_eq.
    + simpl. by apply list_elem_of_fmap_2.
    + done.
    + done.
    + by apply maybe_affected_spec.
    + done.
  - intros t Ht Hrank. apply FindingBlocks_spec. split; [done|]. by right.
Qed.


(** Operator advisories.  An advisory whose type is known is accepted; it
    is then read back under its identifier in canonical form, as a malicious
    finding or as a vulnerability but not as both, and deleting it removes it,
    leaving a tombstone for a malicious finding.  An advisory of an unknown
    type is refused and changes nothing. *)
Theorem manual_advisory_roundtrip now a s :
  TrimSpace (maID a) = maID a ->
  (forall f, malicious s !! maID a = Some f -> mfSource f = ManualAdvisorySource) ->
  match ParseManualAdvisoryFindingType (maFindingType a) with
  | None => UpsertManualAdvisory now (Some a) s = (inl (UnsupportedFindingType (maFindingType a)), s)
  | Some ty =>
      exists s' b,
        UpsertManualAdvisory now (Some a) s = (inr tt, s') /\
        GetManualAdvisory (maID a) s' = Some b /\
        maID b = maID a /\ maFindingType b = ty /\
        canonical (maEcosystem b) (maName b) /\
        (ty = FindingTypeMalicious -> vulnerable s' !! maID a = None) /\
        (ty <> FindingTypeMalicious -> malicious s' !! maID a = None) /\
        exists s'', DeleteManualAdvisory (maID a) s' = (inr tt, s'') /\
          GetManualAdvisory (maID a) s'' = None /\
          (ty = FindingTypeMalicious -> exists t, maliciousDel s'' !! maID a = Some t /\ malWithdrawn t = true)
  end.
Proof.
  intros Hid Hforeign. destruct (ParseManualAdvisoryFindingType (maFindingType a)) as [ty|] eqn:Ety.
  2:{ unfold UpsertManualAdvisory, upsertManualAdvisoryLocked. by rewrite Ety. }
  assert (ty = FindingTypeMalicious \/ ty = FindingTypeVulnerability) as Hty.
  { unfold ParseManualAdvisoryFindingType in Ety. repeat case_match; naive_solver. }
  unfold UpsertManualAdvisory, upsertManualAdvisoryLocked. rewrite Ety.
  destruct Hty as [->| ->].
  - rewrite bool_decide_eq_true_2 by done. cbv zeta.
    eexists _, _. split; [done|]. unfold GetManualAdvisory, manualAdvisoryByIDLocked. simpl. rewrite Hid.
    rewrite lookup_insert_eq, lookup_delete_eq. simpl. split_and!; try done; [by eexists|].
    eexists. unfold DeleteManualAdvisory, deleteManualAdvisoryLocked. simpl. rewrite lookup_insert_eq. simpl.
    rewrite lookup_delete_eq. split; [done|]. simpl. rewrite !lookup_delete_eq. split; [done|].
    intros _. rewrite lookup_insert_eq. eexists. done.
  - rewrite bool_decide_eq_false_2 by done. cbv zeta. set (s1 := put_vulnerability _ s).
    set (s2 := match malicious s1 !! maID a with
               | Some finding => if bool_decide (mfSource finding = ManualAdvisorySource) then bury (maID a) finding s1 else s1
               | None => s1 end).
    assert (malicious s2 !! maID a = None) as Hm.
    { unfold s2. destruct (malicious s1 !! maID a) as [f|] eqn:E; [|done].
      rewrite bool_decide_eq_true_2 by (by apply Hforeign). simpl. apply lookup_delete_eq. }
    assert (vulnerable s2 = vulnerable s1) as Hvs.
    { unfold s2. destruct (malicious s1 !! maID a); [|done]. by case_bool_decide. }
    assert (vulnerable s1 !! maID a = Some (set_affected (normalize_affected <$>
       vAffectedPackages (ManualAdvisoryToVulnerability now a)) (ManualAdvisoryToVulnerability now a))) as Hv.
    { unfold s1. simpl. rewrite Hid. apply lookup_insert_eq. }
    eexists s2, _. split; [done|]. unfold GetManualAdvisory, manualAdvisoryByIDLocked.
    rewrite Hm, Hvs, Hv. simpl. split_and!; try done; [by eexists|].
    eexists. unfold DeleteManualAdvisory, deleteManualAdvisoryLocked. rewrite Hm, Hvs, Hv. simpl.
    split; [done|]. simpl. rewrite Hm, lookup_delete_eq. done.
Qed.

(** ** The export *)

Lemma ExportSync_elem now opts s row :
  let ecosystems : gset string := list_to_set (TrimSpace <$> Ecosystems opts) in
  row ∈ exMalicious (ExportSync now opts s) <->
  (exists id f, malicious s !! id = Some f /\ selected ecosystems (mfEcosystem f) /\ row = export_row f) \/
  (Since opts <> None /\ exists id, maliciousDel s !! id = Some row /\ selected ecosystems (malEcosystem row)).
Proof.
  intros ecosystems. unfold ExportSync. cbv zeta. simpl. rewrite sort_by_perm, elem_of_app. fold ecosystems. f_equiv.
  - rewrite list_elem_of_fmap. setoid_rewrite list_elem_of_filter. setoid_rewrite list_elem_of_fmap. split.
    + intros (f & -> & Hsel & ([id f'] & -> & Hin%range_map_elem)). by exists id, f'.
    + intros (id & f & Hf & Hsel & ->). exists f. split_and!; [done..|]. exists (id, f).
      split; [done|]. by apply range_map_elem.
  - destruct (Since opts) as [since|]; [|split; [by intros ?%elem_of_nil|naive_solver]].
    rewrite list_elem_of_filter, list_elem_of_fmap. split.
    + intros (Hsel & ([id t] & -> & Hin%range_map_elem)). split; [done|]. by exists id.
    + intros (_ & id & Ht & Hsel). split; [done|]. exists (id, row). split; [done|]. by apply range_map_elem.
Qed.

(** Rows kept under their identifiers have distinct identifiers. *)
Lemma range_ids_NoDup {A} (idof : A -> string) (m : gmap string A) :
  (forall k x, m !! k = Some x -> idof x = k) -> NoDup (idof <$> (range_map m).*2).
Proof.
  intros H. assert (idof <$> (range_map m).*2 = (range_map m).*1) as ->; [|apply range_map_keys_NoDup].
  assert (forall k x, (k, x) ∈ range_map m -> idof x = k) as Hm by (intros k x Hin; apply H; by apply range_map_elem).
  induction (range_map m) as [|[k x] l IH]; [done|]. simpl. f_equal; [apply Hm; left|].
  apply IH. intros k' x' Hin. apply Hm. by right.
Qed.

(** An identifier occurs in one row of the export. *)
Lemma ExportSync_NoDup now opts s : findings_ok s -> NoDup (malID <$> exMalicious (ExportSync now opts s)).
Proof.
  intros (_ & Hm & Ht). unfold ExportSync. cbv zeta. simpl. rewrite sort_by_perm, fmap_app. apply NoDup_app. split_and!.
  - rewrite <- list_fmap_compose. apply filter_fmap_NoDup.
    change (NoDup (mfID <$> (range_map (malicious s)).*2)). apply range_ids_NoDup. intros k f Hf. by apply Hm.
  - intros id (r & -> & (f & -> & [_ ([k f'] & -> & Hin%range_map_elem)%list_elem_of_fmap]%list_elem_of_filter)%list_elem_of_fmap)%list_elem_of_fmap.
    intros (t & E & Hin')%list_elem_of_fmap. destruct (Since opts) as [since|]; [|by apply elem_of_nil in Hin'].
    apply list_elem_of_filter in Hin' as [_ ([k' t'] & -> & Hk'%range_map_elem)%list_elem_of_fmap].
    simpl in *. destruct (Ht _ _ Hk') as (<- & _ & Hnone). destruct (Hm _ _ Hin) as [<- _]. congruence.
  - destruct (Since opts) as [since|]; [|constructor]. apply filter_fmap_NoDup, range_ids_NoDup.
    intros k t Hk. by apply Ht.
Qed.
End findings.

(** ** Witnesses and examples *)

Section examples.
#[local] Instance findings_case : UnicodeCase := plain_case.
#[local] Instance findings_crypto : AuditCrypto :=
  {| sha256_hex := fun d => d; hmac_hex := fun k d => k +:+ d |}.
#[local] Instance findings_order : MapOrder := listed_order.

Definition sample_affected : AffectedPackage := mk_affected "pypi" "My.Pkg" "" (json_text "['1.0.0']").

Definition sample_vulnerability (withdrawn : option Time) : Vulnerability :=
  mk_vuln "CVE-1" "bad" "" "high" None None None false false 0 0 withdrawn [] [] [] [sample_affected].

Lemma empty_findings_ok : findings_ok NewStore.
Proof. unfold findings_ok. split_and!; intros id x H; vm_compute in H; destruct id; discriminate. Qed.


Definition sample_manual (ty : string) : ManualAdvisory :=
  mk_manual "manual:x" ty "PyPI" "My_Pkg" "" "typosquat" "s" "d" 0.

Lemma manual_advisory_roundtrip_witness :
  exists s' b, UpsertManualAdvisory 5 (Some (sample_manual "Malicious")) NewStore = (inr tt, s') /\
    GetManualAdvisory "manual:x" s' = Some b /\ maFindingType b = "malicious" /\ maRiskType b = "typosquatting".
Proof.
  pose proof (manual_advisory_roundtrip 5 (sample_manual "Malicious") NewStore ltac:(vm_compute; reflexivity)
    ltac:(intros f H; vm_compute in H; discriminate)) as H.
  destruct H as (s' & b & E & G & _ & T & _). exists s', b. split; [exact E|]. split; [exact G|].
  split; [exact T|]. vm_compute in E. injection E as <-. vm_compute in G. injection G as <-. reflexivity.
Defined.

(** The lookup does not look at the time an advisory was withdrawn; the search
    and the dashboard do, and so does the PostgreSQL store's lookup. *)
Lemma withdrawn_still_found :
  length (FindVulnerabilities "pypi" "my-pkg" "1.0.0"
    (UpsertVulnerability (Some (sample_vulnerability (Some 7))) NewStore)) = 1%nat.
Proof. vm_compute. reflexivity. Qed.

(** An advisory of an unknown type is refused after its audit row is
    written. *)
Lemma refused_advisory_is_audited :
  match UpsertManualAdvisoryWithAudit "" 5 6 (Some (sample_manual "other")) (Some (mk_audit "advisory_upsert" "" "" ""))
          NewStore with
  | (inl e, s) => e = UnsupportedFindingType "other" /\ length (auditLog s) = 1%nat
  | (inr _, _) => False
  end.
Proof. vm_compute. split; reflexivity. Qed.

(** A generated identifier may be one that is in use: the finding stored under
    it is replaced. *)
Lemma generated_id_collides :
  let finding id summary := mk_mal id "npm" "x" "" "" "osv" "malware" "HIGH" summary "" "" "" None "" in
  let s := (UpsertMaliciousFinding (Some (finding "manual:1" "first")) NewStore).2 in
  let s := (UpsertMaliciousFinding (Some (finding "" "second")) s).2 in
  mfSummary <$> malicious s !! "manual:1" = Some "second".
Proof. vm_compute. reflexivity. Qed.
End examples.
