(* ===== verification/DevScans.v ===== *)
(** The in-memory store: scan logs, package search and statistics
    (internal/devstore/noop_scan_logs.go).

    The search collects rows from two maps whose iteration order is open; its
    result is proved to be a function of the maps alone
    ([SearchPackages_exact]). *)
From stdpp Require Import base list option strings gmap sorting.
From Stdlib Require Import Ascii ZArith Lia.
From S2P Require Import Prelude GoStrings AsciiText Json Collections JsonEncode Domain GoTime SyncRows Dates AuditLog.
From S2P Require Import Advisories DevStore DevFindings.

(** ** Scan logs *)

(** A nil entry is not modelled: the method dereferences it. *)
Definition InsertScanLog (entry : ScanLogEntry) (s : Store) : Store :=
  if negb (bool_decide (IdempotencyKey entry = "")) &&
     existsb (fun existing => bool_decide (IdempotencyKey existing = IdempotencyKey entry)) (scanLogs s)
  then s
  else set_scanLogs (scanLogs s ++ [entry]) s.

Definition GetScanLogByIdempotencyKey (key : string) (s : Store) : option ScanLogEntry :=
  List.find (fun e => bool_decide (IdempotencyKey e = key)) (scanLogs s).

Definition ListRecentScans (limit offset : Z) (s : Store) : list ScanLogEntry :=
  let n := Z.of_nat (length (scanLogs s)) in
  let offset := if offset <? 0 then 0 else offset in
  if n <=? offset then []
  else
    let limit := if (limit <=? 0) || (n <? limit) then n else limit in
    page_loop (reverse (scanLogs s)) 0 offset limit 0.

Definition PruneScanLogs (now : Time) (retention : Duration) (s : Store) : Z * Store :=
  if retention <=? 0 then (0, s)
  else
    let cutoff := Add now (- retention) in
    let kept := filter (fun e => Before (ScannedAt e) cutoff = false) (scanLogs s) in
    (Z.of_nat (length (scanLogs s) - length kept), set_scanLogs kept s).

Record DailyScanStats := mk_daily { Date : Time; ScanCount : Z; dayFindings : Z }.

Definition add_scan (entry : ScanLogEntry) (row : DailyScanStats) : DailyScanStats :=
  mk_daily (Date row) (ScanCount row + 1) (wrap64 (dayFindings row + FindingsCount entry)).

(** One row of the table per day, by the text of the day. *)
Definition day_rows (startDay : Time) (days : nat) : gmap string DailyScanStats :=
  fold_left (fun byDay i => let day := add_days startDay (Z.of_nat i) in <[DateOnly day := mk_daily day 0 0]> byDay)
    (seq 0 days) ∅.

Definition count_scan (byDay : gmap string DailyScanStats) (entry : ScanLogEntry) : gmap string DailyScanStats :=
  let key := DateOnly (ScannedAt entry) in
  match byDay !! key with
  | None => byDay
  | Some row => <[key := add_scan entry row]> byDay
  end.

(** [None]: the row of a day is missing and the dereference panics. *)
Definition CountScansByDay (now : Time) (days : Z) (s : Store) : option (list DailyScanStats) :=
  let days := if days <=? 0 then 7 else days in
  let startDay := add_days (truncate_day now) (- (days - 1)) in
  let byDay := fold_left count_scan (scanLogs s) (day_rows startDay (Z.to_nat days)) in
  mapM (fun i => byDay !! DateOnly (add_days startDay (Z.of_nat i))) (seq 0 (Z.to_nat days)).

Record ScanTotals := mk_totals { PackagesScanned : Z; Findings : Z }.

Definition add_totals (totals : ScanTotals) (entry : ScanLogEntry) : ScanTotals :=
  mk_totals (wrap64 (PackagesScanned totals + PackagesCount entry)) (wrap64 (Findings totals + FindingsCount entry)).

Definition get_ScanTotals (s : Store) : ScanTotals := fold_left add_totals (scanLogs s) (mk_totals 0 0).

(** ** Search *)

Record PackageSearchResult := mk_result {
  resEcosystem : string;
  resName : string;
  resVersion : string;
  resFindingsCount : Z;
  VulnerabilityCount : Z;
  VulnerabilityIDs : string;
  FindingTypes : string;
  Sources : string
}.

Record PackageSearchParams := mk_params {
  Query : string;
  parSeverity : string;
  parFindingType : string;
  Limit : Z;
  Offset : Z
}.

(** Ecosystem and name. *)
Notation noopPackageSearchKey := (string * string)%type.

Notation search_results := (gmap noopPackageSearchKey PackageSearchResult).

Definition noopPackageSearchResult (results : search_results) (k : noopPackageSearchKey) : PackageSearchResult :=
  default (mk_result k.1 k.2 "" 0 0 "" "" "") (results !! k).

Definition noopSourceLabel (source : string) : string :=
  let source := TrimSpace source in if bool_decide (source = "") then "unknown" else source.

Definition noopVulnerabilitySources (vuln : Vulnerability) : list string :=
  if bool_decide (length (vSources vuln) = 0%nat) then ["unknown"]
  else (fun source => noopSourceLabel (srcSource source)) <$> vSources vuln.

(** The values of a comma-separated list. *)
Definition csv_values (s : string) : gset string :=
  list_to_set (filter (fun v => v <> "") (TrimSpace <$> Split s ",")).

Definition noopMergeCSV (current incoming : string) : string :=
  Join (sorted_set str_cmp (csv_values current ∪ csv_values incoming)) ", ".

Section search.
Context {U : UnicodeCase} {O : MapOrder}.

Definition noopNormalizeSeverity (severity : string) : string :=
  let normalized := ToUpper (TrimSpace severity) in
  if bool_decide (normalized = "") then "UNKNOWN" else normalized.

(** The query matches a package name. *)
Definition name_matches (query name : string) : bool :=
  bool_decide (query = "") || Contains (ToLower name) query.

Definition severity_matches (severity rowSeverity : string) : bool :=
  bool_decide (severity = "") || bool_decide (noopNormalizeSeverity rowSeverity = severity).

Definition add_vulnerability (vuln : Vulnerability) (result : PackageSearchResult) : PackageSearchResult :=
  mk_result (resEcosystem result) (resName result) (resVersion result) (resFindingsCount result + 1)
    (VulnerabilityCount result + 1) (noopMergeCSV (VulnerabilityIDs result) (vID vuln))
    (noopMergeCSV (FindingTypes result) "vulnerability")
    (fold_left noopMergeCSV (noopVulnerabilitySources vuln) (Sources result)).

Definition add_malicious (mf : MaliciousFinding) (result : PackageSearchResult) : PackageSearchResult :=
  mk_result (resEcosystem result) (resName result) (resVersion result) (resFindingsCount result + 1)
    (VulnerabilityCount result) (VulnerabilityIDs result) (noopMergeCSV (FindingTypes result) "malicious")
    (noopMergeCSV (Sources result) (noopSourceLabel (mfSource mf))).

(** The loop over the affected packages of one vulnerability; [seen] are the
    packages it has counted. *)
Fixpoint collect_affected (query : string) (vuln : Vulnerability) (seen : gset noopPackageSearchKey)
    (affected : list AffectedPackage) (results : search_results) : search_results :=
  match affected with
  | [] => results
  | pkg :: rest =>
      if negb (name_matches query (affName pkg)) then collect_affected query vuln seen rest results
      else
        let k := (affEcosystem pkg, affName pkg) in
        if bool_decide (k ∈ seen) then collect_affected query vuln seen rest results
        else collect_affected query vuln ({[k]} ∪ seen) rest
               (<[k := add_vulnerability vuln (noopPackageSearchResult results k)]> results)
  end.

Definition collect_vulnerability (query severity : string) (results : search_results)
    (entry : string * Vulnerability) : search_results :=
  let vuln := entry.2 in
  if negb (bool_decide (vWithdrawn vuln = None)) then results
  else if negb (severity_matches severity (vSeverity vuln)) then results
  else collect_affected query vuln ∅ (vAffectedPackages vuln) results.

Definition collectNoopVulnerabilitySearch (results : search_results) (vulnerabilities : gmap string Vulnerability)
    (query severity : string) : search_results :=
  fold_left (collect_vulnerability query severity) (range_map vulnerabilities) results.

Definition collect_malicious (query severity : string) (results : search_results)
    (entry : string * MaliciousFinding) : search_results :=
  let mf := entry.2 in
  if negb (name_matches query (mfName mf)) then results
  else if negb (severity_matches severity (mfSeverity mf)) then results
  else
    let k := (mfEcosystem mf, mfName mf) in
    <[k := add_malicious mf (noopPackageSearchResult results k)]> results.

Definition collectNoopMaliciousSearch (results : search_results) (malicious : gmap string MaliciousFinding)
    (query severity : string) : search_results :=
  fold_left (collect_malicious query severity) (range_map malicious) results.

Definition preview (result : PackageSearchResult) : PackageSearchResult :=
  mk_result (resEcosystem result) (resName result) (resVersion result) (resFindingsCount result)
    (VulnerabilityCount result) (FormatSearchVulnerabilityIDPreview (VulnerabilityIDs result) (VulnerabilityCount result))
    (FindingTypes result) (Sources result).

Definition result_cmp (a b : PackageSearchResult) : Z :=
  if bool_decide (resName a = resName b) then str_cmp (resEcosystem a) (resEcosystem b)
  else str_cmp (resName a) (resName b).

Definition finalizeNoopPackageSearchResults (results : search_results) (limit offset : Z) : list PackageSearchResult :=
  let out := sort_by result_cmp (preview <$> (range_map results).*2) in
  let offset := if offset <? 0 then 0 else offset in
  if Z.of_nat (length out) <=? offset then []
  else limited limit (drop (Z.to_nat offset) out).

Definition SearchPackages (params : PackageSearchParams) (s : Store) : list PackageSearchResult :=
  let query := TrimSpace (ToLower (Query params)) in
  let severity := ToUpper (TrimSpace (parSeverity params)) in
  let findingType := ToLower (TrimSpace (parFindingType params)) in
  if bool_decide (query = "") && bool_decide (severity = "") && bool_decide (findingType = "") then []
  else
    let results : search_results := ∅ in
    let results := if bool_decide (findingType = "") || bool_decide (findingType = "vulnerability")
                   then collectNoopVulnerabilitySearch results (vulnerable s) query severity else results in
    let results := if bool_decide (findingType = "") || bool_decide (findingType = "malicious")
                   then collectNoopMaliciousSearch results (malicious s) query severity else results in
    finalizeNoopPackageSearchResults results (Limit params) (Offset params).

(** ** Statistics *)

Record DashboardStatsResult := mk_stats {
  TotalPackages : Z;
  TotalVulnerabilities : Z;
  TotalMalicious : Z;
  statsBySeverity : gmap string Z
}.

(** The statistics so far, and the packages seen. *)
Definition stats_acc : Type := gset string * DashboardStatsResult.

Definition count_vulnerability (acc : stats_acc) (entry : string * Vulnerability) : stats_acc :=
  let '(packages, stats) := acc in
  let vuln := entry.2 in
  if negb (bool_decide (vWithdrawn vuln = None)) then acc
  else
    (fold_left (fun packages affected => {[affEcosystem affected +:+ "/" +:+ affName affected]} ∪ packages)
       (vAffectedPackages vuln) packages,
     mk_stats 0 (TotalVulnerabilities stats + 1) (TotalMalicious stats)
       (incr (noopNormalizeSeverity (vSeverity vuln)) (statsBySeverity stats))).

Definition count_malicious (acc : stats_acc) (entry : string * MaliciousFinding) : stats_acc :=
  let '(packages, stats) := acc in
  let mf := entry.2 in
  ({[mfEcosystem mf +:+ "/" +:+ mfName mf]} ∪ packages,
   mk_stats 0 (TotalVulnerabilities stats) (TotalMalicious stats + 1)
     (incr (noopNormalizeSeverity (mfSeverity mf)) (statsBySeverity stats))).

Definition DashboardStats (s : Store) : DashboardStatsResult :=
  let acc : stats_acc := (∅, mk_stats 0 0 0 ∅) in
  let acc := fold_left count_vulnerability (range_map (vulnerable s)) acc in
  let '(packages, stats) := fold_left count_malicious (range_map (malicious s)) acc in
  mk_stats (Z.of_nat (size packages)) (TotalVulnerabilities stats) (TotalMalicious stats) (statsBySeverity stats).
End search.

(** ** Calls *)

Inductive scan_op :=
| SInsert (entry : ScanLogEntry)
| SPrune (now : Time) (retention : Duration).

Definition exec_scan (o : scan_op) (s : Store) : Store :=
  match o with
  | SInsert entry => InsertScanLog entry s
  | SPrune now retention => (PruneScanLogs now retention s).2
  end.

Definition scan_times (o : scan_op) : list Time :=
  match o with SInsert _ => [] | SPrune now _ => [now] end.

Lemma exec_scan_quiet o s : quiet s (exec_scan o s).
Proof.
  destruct o; cbn [exec_scan]; unfold InsertScanLog, PruneScanLogs; cbv zeta; case_match; cbn [snd]; auto with frames.
Qed.

(** ** Comma-separated lists *)

Definition csv (values : gset string) : string := Join (sorted_set str_cmp values) ", ".

(** A value that survives being written in a list and read back. *)
Definition csv_value (v : string) : Prop :=
  TrimSpace v = v /\ v <> "" /\ all_bytes (not_byte ",") v = true.

Lemma all_bytes_trim_with sp2 sp3 P s : all_bytes P s = true -> all_bytes P (trim_with sp2 sp3 s) = true.
Proof.
  intros H. destruct (trim_with_spec sp2 sp3 s) as [[p E] _]. rewrite E, all_bytes_app, andb_true_iff in H. tauto.
Qed.

Lemma all_bytes_TrimSpace P s : all_bytes P s = true -> all_bytes P (TrimSpace s) = true.
Proof.
  intros H. unfold TrimSpace, TrimRightSpace, TrimLeftSpace. rewrite all_bytes_rev. apply all_bytes_trim_with.
  rewrite all_bytes_rev. by apply all_bytes_trim_with.
Qed.

Lemma Split_parts s sep : Forall (fun p => all_bytes (not_byte sep) p = true) (Split s sep).
Proof.
  induction s as [|c s IH]; [by repeat constructor|]. simpl. case_bool_decide as Hne; [by constructor|].
  destruct (Split s sep) as [|p ps]; [repeat constructor|].
  - rewrite all_bytes_cons. unfold not_byte. by rewrite bool_decide_eq_false_2.
  - apply Forall_cons in IH as [Hp Hps]. constructor; [|done].
    rewrite all_bytes_cons, Hp. unfold not_byte. by rewrite bool_decide_eq_false_2.
Qed.

Lemma csv_values_value v s : v ∈ csv_values s -> csv_value v.
Proof.
  unfold csv_values. rewrite elem_of_list_to_set, list_elem_of_filter, list_elem_of_fmap.
  intros (Hne & p & -> & Hp). split_and!; [apply TrimSpace_idem|done|]. apply all_bytes_TrimSpace.
  pose proof (Split_parts s ",") as H. rewrite Forall_forall in H. by apply H.
Qed.

Lemma TrimSpace_space s : TrimSpace (String " " s) = TrimSpace s.
Proof. reflexivity. Qed.

(** Reading back a list of values. *)
Lemma split_values l :
  l <> [] -> Forall csv_value l -> TrimSpace <$> Split (Join l ", ") "," = l.
Proof.
  intros Hne H. induction H as [|x l (Ht & _ & Hc) Hl IH]; [done|]. destruct l as [|y l].
  - simpl Join. rewrite Split_none by done. simpl. by rewrite Ht.
  - change (Join (x :: y :: l) ", ") with (x +:+ String "," (String " " (Join (y :: l) ", "))).
    rewrite Split_app by done. rewrite fmap_cons, Ht. f_equal.
    rewrite <- IH at 2 by done. set (t := Join (y :: l) ", "). cbn [Split].
    rewrite bool_decide_eq_false_2 by done. pose proof (Split_ne t ",") as Hs.
    destruct (Split t ",") as [|p ps]; [done|]. rewrite !fmap_cons. by rewrite TrimSpace_space.
Qed.

Lemma csv_values_csv X : (forall v, v ∈ X -> csv_value v) -> csv_values (csv X) = X.
Proof.
  intros HX. unfold csv, csv_values.
  assert (Forall csv_value (sorted_set str_cmp X)) as Hall.
  { apply Forall_forall. intros v. rewrite sorted_set_elem. auto. }
  destruct (decide (sorted_set str_cmp X = [])) as [E|Hne].
  - rewrite E. simpl. symmetry. rewrite <- (sorted_set_list_to_set str_cmp X), E. done.
  - rewrite split_values by done. rewrite <- (sorted_set_list_to_set str_cmp X) at 2.
    f_equal. clear Hne. induction Hall as [|v l (_ & Hv & _) _ IH]; [done|].
    rewrite filter_cons, decide_True by done. by rewrite IH.
Qed.

Lemma noopMergeCSV_csv a b : noopMergeCSV a b = csv (csv_values a ∪ csv_values b).
Proof. reflexivity. Qed.

(** Merging into a list in canonical form. *)
Lemma merge_into X b :
  (forall v, v ∈ X -> csv_value v) -> noopMergeCSV (csv X) b = csv (X ∪ csv_values b).
Proof. intros HX. by rewrite noopMergeCSV_csv, csv_values_csv. Qed.

Lemma union_values X b :
  (forall v, v ∈ X -> csv_value v) -> forall v, v ∈ X ∪ csv_values b -> csv_value v.
Proof. intros HX v [H|H]%elem_of_union; [auto|by apply csv_values_value in H]. Qed.

Lemma merge_all_into l X :
  (forall v, v ∈ X -> csv_value v) ->
  fold_left noopMergeCSV l (csv X) = csv (X ∪ ⋃ (csv_values <$> l)).
Proof.
  revert X. induction l as [|b l IH]; intros X HX; simpl; [by rewrite union_empty_r_L|].
  rewrite merge_into by done. rewrite IH by (by apply union_values). by rewrite union_assoc_L.
Qed.

Lemma unions_values l v : v ∈ ⋃ (csv_values <$> l) -> csv_value v.
Proof. intros (X & (b & -> & _)%list_elem_of_fmap & Hv)%elem_of_union_list. by apply csv_values_value in Hv. Qed.

(** ** What a search finds *)

Section search_spec.
Context {U : UnicodeCase}.

(** The package [k] is one a vulnerability, or a malicious finding, is found
    for. *)
Definition vulnerability_hit (query severity : string) (k : noopPackageSearchKey) (v : Vulnerability) : Prop :=
  vWithdrawn v = None /\ severity_matches severity (vSeverity v) = true /\
  exists pkg, pkg ∈ vAffectedPackages v /\ name_matches query (affName pkg) = true /\ k = (affEcosystem pkg, affName pkg).

Definition malicious_hit (query severity : string) (k : noopPackageSearchKey) (m : MaliciousFinding) : Prop :=
  name_matches query (mfName m) = true /\ severity_matches severity (mfSeverity m) = true /\
  k = (mfEcosystem m, mfName m).

#[export] Instance vulnerability_hit_dec query severity k v : Decision (vulnerability_hit query severity k v).
Proof.
  refine (cast_if (decide (vWithdrawn v = None /\ severity_matches severity (vSeverity v) = true /\
    Exists (fun pkg => name_matches query (affName pkg) = true /\ k = (affEcosystem pkg, affName pkg))
      (vAffectedPackages v)))); unfold vulnerability_hit; abstract (rewrite Exists_exists in *; naive_solver).
Defined.

#[export] Instance malicious_hit_dec query severity k m : Decision (malicious_hit query severity k m).
Proof. unfold malicious_hit. apply _. Defined.

(** The row of a package, from the vulnerabilities and malicious findings it
    is found for. *)
Definition row_of (k : noopPackageSearchKey) (vs : list Vulnerability) (ms : list MaliciousFinding)
    : PackageSearchResult :=
  mk_result k.1 k.2 "" (Z.of_nat (length vs + length ms)) (Z.of_nat (length vs))
    (csv (⋃ (csv_values <$> (vID <$> vs))))
    (csv (⋃ (csv_values <$> (((fun _ => "vulnerability") <$> vs) ++ ((fun _ => "malicious") <$> ms)))))
    (csv (⋃ (csv_values <$> ((vs ≫= noopVulnerabilitySources) ++ ((fun m => noopSourceLabel (mfSource m)) <$> ms))))).

Definition row_opt (k : noopPackageSearchKey) (vs : list Vulnerability) (ms : list MaliciousFinding)
    : option PackageSearchResult :=
  if bool_decide (vs = [] /\ ms = []) then None else Some (row_of k vs ms).

Lemma row_default results k vs ms :
  results !! k = row_opt k vs ms -> noopPackageSearchResult results k = row_of k vs ms.
Proof.
  intros H. unfold noopPackageSearchResult. rewrite H. unfold row_opt.
  case_bool_decide as E; [|done]. destruct E as [-> ->]. reflexivity.
Qed.

Lemma unions_app l l' : ⋃ (csv_values <$> (l ++ l')) = ⋃ (csv_values <$> l) ∪ ⋃ (csv_values <$> l').
Proof. by rewrite fmap_app, union_list_app_L. Qed.

Lemma add_vulnerability_row k vs v :
  add_vulnerability v (row_of k vs []) = row_of k (vs ++ [v]) [].
Proof.
  unfold add_vulnerability, row_of. simpl. rewrite !app_nil_r.
  rewrite !merge_into, merge_all_into by apply unions_values.
  f_equal; try (rewrite length_app; simpl; lia); f_equal;
    rewrite ?bind_app, !fmap_app, union_list_app_L; simpl; by rewrite ?app_nil_r, ?union_empty_r_L.
Qed.

Lemma add_malicious_row k vs ms m :
  add_malicious m (row_of k vs ms) = row_of k vs (ms ++ [m]).
Proof.
  unfold add_malicious, row_of. simpl. rewrite !merge_into by apply unions_values.
  f_equal; try (rewrite length_app; simpl; lia); f_equal;
    rewrite !fmap_app, !union_list_app_L; simpl; by rewrite union_empty_r_L, (assoc_L (∪)).
Qed.
End search_spec.

Section search_proof.
Context {U : UnicodeCase} {O : MapOrder}.

(** One vulnerability adds one to the row of each of its packages that match. *)
Lemma collect_affected_lookup query v seen affected results k :
  collect_affected query v seen affected results !! k =
  if decide (k ∉ seen /\
     Exists (fun pkg => name_matches query (affName pkg) = true /\ k = (affEcosystem pkg, affName pkg)) affected)
  then Some (add_vulnerability v (noopPackageSearchResult results k)) else results !! k.
Proof.
  revert seen results. induction affected as [|pkg rest IH]; intros seen results; cbn [collect_affected].
  { rewrite decide_False; [done|]. rewrite Exists_nil. tauto. }
  destruct (name_matches query (affName pkg)) eqn:Hm; cbn [negb].
  2:{ rewrite IH. apply decide_ext. rewrite Exists_cons, Hm. naive_solver. }
  set (k' := (affEcosystem pkg, affName pkg)). case_bool_decide as Hseen.
  - rewrite IH. apply decide_ext. rewrite Exists_cons. fold k'. naive_solver.
  - rewrite IH. destruct (decide (k = k')) as [->|Hne].
    + match goal with |- (if decide ?P then _ else _) = _ => destruct (decide P) as [[Hin _]|_] end;
        [exfalso; apply Hin, elem_of_union_l; by apply elem_of_singleton|].
      rewrite lookup_insert_eq.
      rewrite decide_True; [done|]. split; [done|]. apply Exists_cons. by left.
    + rewrite lookup_insert_ne by done.
      assert (noopPackageSearchResult (<[k' := add_vulnerability v (noopPackageSearchResult results k')]> results) k =
              noopPackageSearchResult results k) as ->.
      { unfold noopPackageSearchResult. by rewrite lookup_insert_ne. }
      apply decide_ext. rewrite Exists_cons, elem_of_union, elem_of_singleton. fold k'. naive_solver.
Qed.

(** The results agree with the rows seen so far. *)
Definition agrees (query severity : string) (results : search_results) (vs : list Vulnerability)
    (ms : list MaliciousFinding) : Prop :=
  forall k, results !! k =
    row_opt k (filter (vulnerability_hit query severity k) vs) (filter (malicious_hit query severity k) ms).

Lemma collect_vulnerability_agrees query severity results vs v id :
  agrees query severity results vs [] ->
  agrees query severity (collect_vulnerability query severity results (id, v)) (vs ++ [v]) [].
Proof.
  intros H k. rewrite filter_app, filter_cons, filter_nil.
  assert (forall b : bool, ~ vulnerability_hit query severity k v -> results !! k =
    row_opt k (filter (vulnerability_hit query severity k) vs ++ (if decide (vulnerability_hit query severity k v) then [v] else []))
      (filter (malicious_hit query severity k) [])) as Hmiss.
  { intros _ Hno. rewrite decide_False by done. rewrite app_nil_r. apply H. }
  unfold collect_vulnerability. cbn [snd].
  case_bool_decide as Hw; cbn [negb]; [|apply (Hmiss true); unfold vulnerability_hit; tauto].
  destruct (severity_matches severity (vSeverity v)) eqn:Hs; cbn [negb];
    [|apply (Hmiss true); unfold vulnerability_hit; rewrite Hs; naive_solver].
  rewrite collect_affected_lookup.
  destruct (decide (vulnerability_hit query severity k v)) as [Hhit|Hmiss'].
  - rewrite decide_True.
    2:{ destruct Hhit as (_ & _ & pkg & ?). split; [apply not_elem_of_empty|]. apply Exists_exists. by exists pkg. }
    rewrite (row_default results k _ _ (H k)). rewrite filter_nil, add_vulnerability_row.
    unfold row_opt. rewrite bool_decide_eq_false_2; [done|]. intros [E _]. by destruct (filter _ vs).
  - rewrite decide_False; [rewrite app_nil_r; apply H|]. intros [_ (pkg & ?)%Exists_exists]. apply Hmiss'.
    unfold vulnerability_hit. eauto.
Qed.

Lemma collect_malicious_agrees query severity results vs ms m id :
  agrees query severity results vs ms ->
  agrees query severity (collect_malicious query severity results (id, m)) vs (ms ++ [m]).
Proof.
  intros H k. rewrite (filter_app _ ms), (filter_cons _ m), filter_nil. unfold collect_malicious. cbn [snd].
  destruct (name_matches query (mfName m)) eqn:Hn; cbn [negb].
  2:{ rewrite decide_False by (unfold malicious_hit; rewrite Hn; naive_solver). by rewrite app_nil_r. }
  destruct (severity_matches severity (mfSeverity m)) eqn:Hs; cbn [negb].
  2:{ rewrite decide_False by (unfold malicious_hit; rewrite Hs; naive_solver). by rewrite app_nil_r. }
  set (k' := (mfEcosystem m, mfName m)). destruct (decide (k = k')) as [->|Hne].
  - rewrite lookup_insert_eq, decide_True by done.
    rewrite (row_default results k' _ _ (H k')), add_malicious_row.
    unfold row_opt. rewrite bool_decide_eq_false_2; [done|]. intros [_ E]. by destruct (filter _ ms).
  - rewrite lookup_insert_ne by done. rewrite decide_False by (unfold malicious_hit; naive_solver).
    rewrite app_nil_r. apply H.
Qed.

Lemma fold_vulnerabilities query severity entries results vs :
  agrees query severity results vs [] ->
  agrees query severity (fold_left (collect_vulnerability query severity) entries results) (vs ++ entries.*2) [].
Proof.
  revert results vs. induction entries as [|[id v] entries IH]; intros results vs H; cbn [fold_left]; [by rewrite app_nil_r|].
  rewrite fmap_cons, cons_middle, (assoc_L (++)). cbn [snd].
  apply IH. by apply collect_vulnerability_agrees.
Qed.

Lemma fold_malicious query severity entries results vs ms :
  agrees query severity results vs ms ->
  agrees query severity (fold_left (collect_malicious query severity) entries results) vs (ms ++ entries.*2).
Proof.
  revert results ms. induction entries as [|[id m] entries IH]; intros results ms H; cbn [fold_left]; [by rewrite app_nil_r|].
  rewrite fmap_cons, cons_middle, (assoc_L (++)). cbn [snd].
  apply IH. by apply collect_malicious_agrees.
Qed.

Lemma unions_perm (l l' : list (gset string)) : l ≡ₚ l' -> ⋃ l = ⋃ l'.
Proof. intros H. apply set_eq. intros x. rewrite !elem_of_union_list. by setoid_rewrite H. Qed.

Lemma row_of_perm k vs vs' ms ms' : vs ≡ₚ vs' -> ms ≡ₚ ms' -> row_of k vs ms = row_of k vs' ms'.
Proof.
  intros Hv Hm. unfold row_of. f_equal; try (by rewrite Hv, ?Hm); f_equal; apply unions_perm, fmap_Permutation;
    by rewrite Hv, Hm.
Qed.

(** ** The search, without loops *)

Definition key_cmp (a b : noopPackageSearchKey) : Z :=
  if bool_decide (a.2 = b.2) then str_cmp a.1 b.1 else str_cmp a.2 b.2.

#[export] Instance key_cmp_order : GoOrder key_cmp.
Proof.
  apply (order_ext (fun a b => str_cmp a.2 b.2 <?> str_cmp a.1 b.1)).
  - intros a b. unfold key_cmp, cmp_then. case_bool_decide as E.
    + apply str_cmp_eq in E. by rewrite E.
    + destruct (Z.eqb_spec (str_cmp a.2 b.2) 0) as [E'|]; [|done]. by apply str_cmp_eq in E'.
  - apply then_order; apply key_order; apply _.
Qed.

#[export] Instance key_cmp_exact : ExactOrder key_cmp.
Proof.
  intros [e n] [e' n']. unfold key_cmp. simpl. case_bool_decide as E; intros H%str_cmp_eq; congruence.
Qed.

(** The packages some row is found for. *)
Definition found_packages (query severity : string) (vs : list Vulnerability) (ms : list MaliciousFinding)
    : gset noopPackageSearchKey :=
  filter (fun k => Exists (vulnerability_hit query severity k) vs \/ Exists (malicious_hit query severity k) ms)
    (list_to_set ((vs ≫= fun v => (fun p => (affEcosystem p, affName p)) <$> vAffectedPackages v) ++
                  ((fun m => (mfEcosystem m, mfName m)) <$> ms))).

(** The rows of these packages by name and ecosystem, the page of them that is
    asked for. *)
Definition reference_search (params : PackageSearchParams) (s : Store) : list PackageSearchResult :=
  let query := TrimSpace (ToLower (Query params)) in
  let severity := ToUpper (TrimSpace (parSeverity params)) in
  let findingType := ToLower (TrimSpace (parFindingType params)) in
  if decide (query = "" /\ severity = "" /\ findingType = "") then []
  else
    let vs := if decide (findingType ∈ [""; "vulnerability"]) then (map_to_list (vulnerable s)).*2 else [] in
    let ms := if decide (findingType ∈ [""; "malicious"]) then (map_to_list (malicious s)).*2 else [] in
    let row k := preview (row_of k (filter (vulnerability_hit query severity k) vs)
                                   (filter (malicious_hit query severity k) ms)) in
    limited (Limit params)
      (drop (Z.to_nat (Offset params)) (row <$> sorted_set key_cmp (found_packages query severity vs ms))).

Lemma filter_nil_Exists {A} (P : A -> Prop) `{forall x, Decision (P x)} l : filter P l <> [] <-> Exists P l.
Proof.
  induction l as [|x l IH]; [split; [done|by intros ?%Exists_nil]|]. rewrite filter_cons, Exists_cons.
  case_decide; naive_solver.
Qed.

Lemma found_packages_elem query severity vs ms k :
  k ∈ found_packages query severity vs ms <->
  is_Some (row_opt k (filter (vulnerability_hit query severity k) vs) (filter (malicious_hit query severity k) ms)).
Proof.
  unfold found_packages. rewrite elem_of_filter, elem_of_list_to_set, elem_of_app, list_elem_of_bind, list_elem_of_fmap.
  assert (is_Some (row_opt k (filter (vulnerability_hit query severity k) vs)
            (filter (malicious_hit query severity k) ms)) <->
    Exists (vulnerability_hit query severity k) vs \/ Exists (malicious_hit query severity k) ms) as ->.
  { rewrite <- !filter_nil_Exists. unfold row_opt. case_bool_decide as E; [naive_solver|].
    split; [|naive_solver]. intros _. destruct (filter _ vs); [right|by left]. naive_solver. }
  split; [tauto|]. intros H. split; [done|]. destruct H as [H|H].
  - left. apply Exists_exists in H as (v & Hv & _ & _ & pkg & Hpkg & _ & ->). exists v. split; [|done].
    by apply (list_elem_of_fmap_2 (fun p => (affEcosystem p, affName p))).
  - right. apply Exists_exists in H as (m & Hm & _ & _ & ->). by exists m.
Qed.

Lemma limited_nil {A} limit : limited limit ([] : list A) = [].
Proof. unfold limited. case_match; [apply take_nil|done]. Qed.

(** What the final page makes of results that agree with the rows. *)
Lemma finalize_agrees query severity results vs ms vs' ms' limit offset :
  agrees query severity results vs ms -> vs ≡ₚ vs' -> ms ≡ₚ ms' ->
  finalizeNoopPackageSearchResults results limit offset =
  limited limit (drop (Z.to_nat offset)
    ((fun k => preview (row_of k (filter (vulnerability_hit query severity k) vs')
                               (filter (malicious_hit query severity k) ms')))
       <$> sorted_set key_cmp (found_packages query severity vs' ms'))).
Proof.
  intros Hag Hv Hm.
  set (row := fun k => preview (row_of k (filter (vulnerability_hit query severity k) vs')
                                         (filter (malicious_hit query severity k) ms'))).
  assert (preview <$> (range_map results).*2 = row <$> (range_map results).*1) as Erows.
  { rewrite <- !list_fmap_compose. apply list_fmap_ext. intros i [k r] Hi.
    assert (results !! k = Some r) as Hk by (apply range_map_elem; by apply (list_elem_of_lookup_2 _ i)).
    simpl. unfold row. f_equal. rewrite Hag in Hk. unfold row_opt in Hk. case_bool_decide; [done|].
    injection Hk as <-. apply row_of_perm; by apply filter_Permutation. }
  assert ((range_map results).*1 ≡ₚ elements (found_packages query severity vs' ms')) as Ekeys.
  { apply NoDup_Permutation; [apply range_map_keys_NoDup|apply NoDup_elements|]. intros k.
    rewrite elem_of_elements, found_packages_elem.
    transitivity (is_Some (results !! k)).
    - rewrite list_elem_of_fmap. split.
      + intros ([k' r] & -> & Hin%range_map_elem). eauto.
      + intros [r Hr]. exists (k, r). split; [done|]. by apply range_map_elem.
    - rewrite Hag. unfold row_opt. rewrite !bool_decide_decide.
      assert (forall A (P : A -> Prop) `{forall x, Decision (P x)} l l', l ≡ₚ l' -> filter P l = [] <-> filter P l' = []) as Hnil.
      { intros A P ? l l' E%(filter_Permutation P).
        split; intros Hf; rewrite Hf in E; [by apply Permutation_nil_l in E|by apply Permutation_nil_r in E]. }
      repeat case_decide; try done; exfalso; naive_solver. }
  unfold finalizeNoopPackageSearchResults. cbv zeta. rewrite Erows.
  rewrite (sort_by_map row key_cmp result_cmp) by done.
  rewrite (sort_by_unique key_cmp _ _ Ekeys). fold (sorted_set key_cmp (found_packages query severity vs' ms')).
  set (out := row <$> _). destruct (Z.ltb_spec offset 0) as [Hoff|Hoff].
  - replace (Z.to_nat offset) with 0%nat by lia. destruct out as [|x out]; [|done].
    simpl. by rewrite limited_nil.
  - destruct (Z.leb_spec (Z.of_nat (length out)) offset) as [Hlen|Hlen]; [|done].
    rewrite drop_ge by lia. by rewrite limited_nil.
Qed.

(** The search returns the rows of the packages it finds, whatever the
    order the maps are visited in: one row per package with a vulnerability in
    force or a malicious finding that matches the query, the severity and the
    type, sorted by name and ecosystem, cut to the page asked for.  A row counts
    each vulnerability and each malicious finding of the package once, and its
    lists are the sorted distinct identifiers, types and sources of these. *)
Theorem SearchPackages_exact params s : SearchPackages params s = reference_search params s.
Proof.
  unfold SearchPackages, reference_search. cbv zeta.
  set (query := TrimSpace (ToLower (Query params))). set (severity := ToUpper (TrimSpace (parSeverity params))).
  set (ty := ToLower (TrimSpace (parFindingType params))).
  destruct (decide (query = "" /\ severity = "" /\ ty = "")) as [(E1 & E2 & E3)|Hne].
  { by rewrite !bool_decide_eq_true_2 by done. }
  assert (bool_decide (query = "") && bool_decide (severity = "") && bool_decide (ty = "") = false) as ->.
  { apply not_true_iff_false. rewrite !andb_true_iff, !bool_decide_eq_true. tauto. }
  assert (forall b : string, bool_decide (ty = "") || bool_decide (ty = b) = bool_decide (ty ∈ [""; b])) as Hor.
  { intros b. apply eq_true_iff_eq. rewrite orb_true_iff, !bool_decide_eq_true, !elem_of_cons, elem_of_nil. tauto. }
  rewrite !Hor, !bool_decide_decide.
  assert (agrees query severity ∅ [] []) as H0.
  { intros k. rewrite lookup_empty. unfold row_opt. by rewrite bool_decide_eq_true_2. }
  assert (agrees query severity (collectNoopVulnerabilitySearch ∅ (vulnerable s) query severity)
    (range_map (vulnerable s)).*2 []) as Hv by (by apply (fold_vulnerabilities query severity _ ∅ [])).
  assert (forall results vs, agrees query severity results vs [] ->
    agrees query severity (collectNoopMaliciousSearch results (malicious s) query severity) vs
      (range_map (malicious s)).*2) as Hm by (intros results vs H; by apply (fold_malicious query severity _ results vs [])).
  destruct (decide (ty ∈ [""; "vulnerability"])), (decide (ty ∈ [""; "malicious"])); eapply finalize_agrees;
    try (by apply Hm); try (by apply fmap_Permutation, range_map_perm); done.
Qed.
End search_proof.

(** ** Scans by day *)

Definition scans_on (day : Z) (logs : list ScanLogEntry) : list ScanLogEntry :=
  filter (fun e => day_of (ScannedAt e) = day) logs.

Definition sum_findings (logs : list ScanLogEntry) : Z := foldr (fun e n => FindingsCount e + n) 0 logs.

Definition day_row (day : Time) (logs : list ScanLogEntry) : DailyScanStats :=
  mk_daily day (Z.of_nat (length (scans_on (day_of day) logs))) (wrap64 (sum_findings (scans_on (day_of day) logs))).

Lemma sum_findings_snoc logs e : sum_findings (logs ++ [e]) = sum_findings logs + FindingsCount e.
Proof. unfold sum_findings. induction logs as [|x logs IH]; simpl; lia. Qed.

Section by_day.
Context (startDay : Time) (Hstart : 0 <= startDay).

Definition nth_day (i : nat) : Time := add_days startDay (Z.of_nat i).

Lemma nth_day_nonneg i : 0 <= nth_day i.
Proof. unfold nth_day, add_days, Day, Hour, Minute, Second. lia. Qed.

Lemma nth_day_of i : day_of (nth_day i) = day_of startDay + Z.of_nat i.
Proof.
  unfold nth_day, day_of, add_days. assert (0 < Day) by (unfold Day, Hour, Minute, Second; lia).
  by rewrite Z.div_add by lia.
Qed.

Lemma nth_day_text i j : DateOnly (nth_day i) = DateOnly (nth_day j) <-> i = j.
Proof. rewrite DateOnly_day by apply nth_day_nonneg. rewrite !nth_day_of. lia. Qed.

Lemma day_rows_lookup n i : (i < n)%nat -> day_rows startDay n !! DateOnly (nth_day i) = Some (mk_daily (nth_day i) 0 0).
Proof.
  unfold day_rows. induction n as [|n IH]; intros Hi; [lia|]. rewrite seq_S, fold_left_app. cbn [fold_left Nat.add].
  fold (nth_day n). destruct (decide (i = n)) as [->|Hne]; [apply lookup_insert_eq|].
  rewrite lookup_insert_ne by (rewrite nth_day_text; lia). apply IH. lia.
Qed.

(** Each scan is counted on its day, if the day has a row. *)
Lemma count_scans logs n i :
  (i < n)%nat -> Forall (fun e => 0 <= ScannedAt e) logs ->
  fold_left count_scan logs (day_rows startDay n) !! DateOnly (nth_day i) = Some (day_row (nth_day i) logs).
Proof.
  intros Hi. induction logs as [|e logs IH] using rev_ind; intros Hall.
  { cbn [fold_left]. rewrite day_rows_lookup by done. unfold day_row, scans_on. by rewrite filter_nil. }
  apply Forall_app in Hall as [Hall [He _]%Forall_cons]. specialize (IH Hall). rewrite fold_left_app.
  cbn [fold_left]. set (byDay := fold_left count_scan logs (day_rows startDay n)) in *.
  unfold count_scan. cbv zeta. unfold day_row, scans_on in *. rewrite filter_app, filter_cons, filter_nil.
  destruct (decide (day_of (ScannedAt e) = day_of (nth_day i))) as [E|E].
  - assert (DateOnly (ScannedAt e) = DateOnly (nth_day i)) as -> by (apply DateOnly_day; auto using nth_day_nonneg).
    rewrite IH, lookup_insert_eq. unfold add_scan. simpl. rewrite length_app, sum_findings_snoc, wrap64_wrap_l.
    simpl. do 2 f_equal. lia.
  - rewrite app_nil_r. assert (DateOnly (ScannedAt e) <> DateOnly (nth_day i)) as Hne.
    { rewrite DateOnly_day by auto using nth_day_nonneg. done. }
    destruct (byDay !! DateOnly (ScannedAt e)); [|done]. by rewrite lookup_insert_ne.
Qed.
End by_day.

(** The history chart.  For a window that starts after year 1 and scans
    stamped after it, [CountScansByDay] never fails and has one row per day of
    the window (a week when no positive number of days is asked for), oldest
    first and ending today; a row counts the scans of its UTC day and adds up
    their findings. *)
Theorem CountScansByDay_exact now days s :
  let n := if days <=? 0 then 7 else days in
  let startDay := add_days (truncate_day now) (- (n - 1)) in
  0 <= startDay -> Forall (fun e => 0 <= ScannedAt e) (scanLogs s) ->
  exists rows, CountScansByDay now days s = Some rows /\ length rows = Z.to_nat n /\
    forall i row, rows !! i = Some row ->
      row = day_row (add_days startDay (Z.of_nat i)) (scanLogs s) /\
      day_of (Date row) = day_of now - (n - 1) + Z.of_nat i.
Proof.
  intros n startDay Hstart Hlogs. unfold CountScansByDay. fold n. fold startDay.
  set (byDay := fold_left count_scan (scanLogs s) (day_rows startDay (Z.to_nat n))).
  assert (forall i, (i < Z.to_nat n)%nat -> byDay !! DateOnly (add_days startDay (Z.of_nat i)) =
    Some (day_row (add_days startDay (Z.of_nat i)) (scanLogs s))) as Hrow.
  { intros i Hi. by apply (count_scans startDay Hstart). }
  exists ((fun i => day_row (add_days startDay (Z.of_nat i)) (scanLogs s)) <$> seq 0 (Z.to_nat n)). split_and!.
  - apply mapM_Some_2, Forall2_fmap_r, Forall2_same_length_lookup_2; [done|]. intros i a b Ha Hb.
    rewrite Ha in Hb. injection Hb as <-. apply Hrow. apply lookup_seq in Ha as [-> ?]. lia.
  - by rewrite length_fmap, length_seq.
  - intros i row. rewrite list_lookup_fmap, fmap_Some. intros (j & [-> Hj]%lookup_seq & ->). split; [done|].
    simpl. unfold startDay.
    replace (add_days (add_days (truncate_day now) (- (n - 1))) (Z.of_nat i))
      with (add_days (truncate_day now) (- (n - 1) + Z.of_nat i)) by (unfold add_days; lia).
    rewrite day_of_truncate. lia.
Qed.

(** ** Retried scans *)

Definition recorded_keys (logs : list ScanLogEntry) : list string :=
  filter (fun k => k <> "") (IdempotencyKey <$> logs).

Lemma recorded_keys_elem k logs : k ∈ recorded_keys logs <-> k <> "" /\ exists e, e ∈ logs /\ IdempotencyKey e = k.
Proof. unfold recorded_keys. rewrite list_elem_of_filter, list_elem_of_fmap. naive_solver. Qed.

Lemma existing_key entry logs :
  existsb (fun existing => bool_decide (IdempotencyKey existing = IdempotencyKey entry)) logs = true <->
  exists e, e ∈ logs /\ IdempotencyKey e = IdempotencyKey entry.
Proof.
  rewrite existsb_exists. setoid_rewrite bool_decide_eq_true. by setoid_rewrite <- list_elem_of_In.
Qed.

Lemma exec_scan_keys o s : NoDup (recorded_keys (scanLogs s)) -> NoDup (recorded_keys (scanLogs (exec_scan o s))).
Proof.
  intros H. destruct o as [entry|now retention]; simpl.
  - unfold InsertScanLog. destruct (existsb _ (scanLogs s)) eqn:E; case_bool_decide as Hk; simpl; try done.
    + unfold recorded_keys in *. rewrite fmap_app, filter_app. simpl. rewrite filter_cons, decide_False by naive_solver.
      by rewrite filter_nil, app_nil_r.
    + unfold recorded_keys in *. rewrite fmap_app, filter_app. simpl. rewrite filter_cons, decide_False by naive_solver.
      by rewrite filter_nil, app_nil_r.
    + unfold recorded_keys in *. rewrite fmap_app, filter_app. simpl. rewrite filter_cons, decide_True, filter_nil by done.
      apply NoDup_app. split_and!; [done| |apply NoDup_singleton].
      intros k Hin ->%list_elem_of_singleton. apply recorded_keys_elem in Hin as (_ & e & He & Hek).
      apply not_true_iff_false in E. apply E. apply existing_key. eauto.
  - unfold PruneScanLogs. case_match; simpl; [done|]. unfold recorded_keys in *.
    revert H. generalize (scanLogs s). intros l Hnd.
    eapply sublist_NoDup; [exact Hnd|]. clear Hnd. induction l as [|e l IH]; [done|].
    rewrite filter_cons. case_decide; simpl; rewrite ?filter_cons; repeat case_decide; try done; by constructor.
Qed.

Lemma find_snoc {A} (P : A -> bool) l x :
  List.find P l = None -> List.find P (l ++ [x]) = if P x then Some x else None.
Proof. induction l as [|y l IH]; simpl; [done|]. destruct (P y); [done|]. apply IH. Qed.

(** A scan request that is retried is recorded once.  From a log in which
    each idempotency key occurs once - a property every call preserves - the
    first entry with a key is recorded and is the one looked up; an entry with
    the same key submitted later changes nothing. *)
Theorem scan_retries_recorded_once s ops entry :
  NoDup (recorded_keys (scanLogs s)) -> IdempotencyKey entry <> "" ->
  let s' := fold_left (fun s o => exec_scan o s) ops s in
  NoDup (recorded_keys (scanLogs s')) /\
  let s1 := InsertScanLog entry s' in
  (exists e, GetScanLogByIdempotencyKey (IdempotencyKey entry) s1 = Some e /\
     (GetScanLogByIdempotencyKey (IdempotencyKey entry) s' = Some e \/
      GetScanLogByIdempotencyKey (IdempotencyKey entry) s' = None /\ e = entry)) /\
  (forall retry, IdempotencyKey retry = IdempotencyKey entry -> InsertScanLog retry s1 = s1).
Proof.
  intros Hnd Hkey s'. split.
  { unfold s'. clear s'. revert s Hnd. induction ops as [|o ops IH]; intros s Hnd; [done|]. simpl. apply IH.
    by apply exec_scan_keys. }
  intros s1. unfold GetScanLogByIdempotencyKey.
  assert (exists e, e ∈ scanLogs s1 /\ IdempotencyKey e = IdempotencyKey entry) as Hin.
  { unfold s1, InsertScanLog. rewrite bool_decide_eq_false_2 by done. simpl.
    destruct (existsb _ (scanLogs s')) eqn:E; simpl; [by apply existing_key in E|].
    exists entry. split; [|done]. apply elem_of_app. right. by left. }
  split.
  - unfold s1, InsertScanLog. rewrite bool_decide_eq_false_2 by done. simpl.
    destruct (existsb _ (scanLogs s')) eqn:E; simpl.
    + destruct (List.find _ (scanLogs s')) as [e|] eqn:F; [by exists e; auto|].
      apply existing_key in E as (e & He & Hek). rewrite list_elem_of_In in He.
      pose proof (find_none _ _ F e He) as Hno. simpl in Hno. by rewrite bool_decide_eq_true_2 in Hno.
    + assert (List.find (fun e => bool_decide (IdempotencyKey e = IdempotencyKey entry)) (scanLogs s') = None) as F.
      { destruct (List.find _ _) as [e|] eqn:F; [|done]. apply find_some in F as [He Hek%bool_decide_eq_true].
        apply not_true_iff_false in E. exfalso. apply E, existing_key. exists e. by rewrite list_elem_of_In. }
      exists entry. rewrite find_snoc by done. rewrite bool_decide_eq_true_2 by done. auto.
  - intros retry Hr. unfold InsertScanLog at 1. rewrite Hr, bool_decide_eq_false_2 by done. simpl.
    apply existing_key in Hin. rewrite Hin. done.
Qed.

(** ** Witnesses *)

Section examples.
#[local] Instance scans_case : UnicodeCase := plain_case.
#[local] Instance scans_order : MapOrder := listed_order.

Definition sample_scan (key : string) (t : Time) (findings : Z) : ScanLogEntry :=
  mk_scan "" "repo" t 10 findings 5 "" "" 0 "" "" key "" "" false "" "" ∅ [] [] 0.

(** Two scans on the second day of a window of three days that ends on the
    fourth, and one before it. *)
Definition scanned : Store :=
  fold_left (fun s e => InsertScanLog e s)
    [sample_scan "a" (2 * Day + 5) 3; sample_scan "b" (2 * Day + Hour) 4; sample_scan "c" 7 9; sample_scan "a" 9 9]
    NewStore.

Lemma CountScansByDay_exact_witness :
  CountScansByDay (3 * Day + 17) 3 scanned =
  Some [mk_daily Day 0 0; mk_daily (2 * Day) 2 7; mk_daily (3 * Day) 0 0] /\
  exists rows, CountScansByDay (3 * Day + 17) 3 scanned = Some rows /\ length rows = 3%nat.
Proof.
  split; [vm_compute; reflexivity|].
  destruct (CountScansByDay_exact (3 * Day + 17) 3 scanned) as (rows & H & Hl & _).
  - vm_compute. discriminate.
  - repeat constructor; vm_compute; discriminate.
  - exists rows. split; [exact H|exact Hl].
Defined.

Lemma scan_retries_recorded_once_witness :
  let s1 := InsertScanLog (sample_scan "d" 5 1) (fold_left (fun s o => exec_scan o s) [SPrune 10 1] scanned) in
  InsertScanLog (sample_scan "d" 6 2) s1 = s1.
Proof.
  refine (proj2 (proj2 (scan_retries_recorded_once scanned [SPrune 10 1] (sample_scan "d" 5 1) _ _)) _ _).
  - apply (bool_decide_eq_true_1 _). vm_compute. reflexivity.
  - discriminate.
  - reflexivity.
Defined.
End examples.
