(* ===== verification/LocalStore.v ===== *)
(** The client's local database: the tables of internal/db/sqlite/schema.go and
    the lookups of store.go and lifecycle.go.

    A table is a map from its primary key to its rows.  A query without ORDER
    BY returns its rows in an order SQLite leaves open, which is the map order
    of [Collections].  Statements do not fail; a NULL column is [None]. *)
From stdpp Require Import base list option strings gmap sorting.
From Stdlib Require Import Ascii ZArith Lia.
From S2P Require Import Prelude GoStrings AsciiText PackageId Json VersionCompare VersionRanges Collections.
From S2P Require Import JsonEncode Domain GoTime SyncRows Dates TimeParse Advisories Lifecycle.

(** ** Tables *)

(** A REAL column holds the text of the float. *)
Record VulnerabilityRow := mk_vuln_row {
  lvID : string;
  lvEcosystem : string;
  lvName : string;
  lvVersionRanges : option string;
  lvVersionsAffected : option string;
  lvReferences : option string;
  lvSeverity : string;
  lvCVSSScore : option string;
  lvEPSSScore : option string;
  lvEPSSPercentile : option string;
  lvCISAKEV : Z;
  lvSummary : option string;
  lvSource : string
}.

Record MaliciousRow := mk_mal_row {
  lmID : string;
  lmEcosystem : string;
  lmName : string;
  lmVersionRanges : option string;
  lmVersions : option string;
  lmReferenceURLs : option string;
  lmRiskType : string;
  lmSeverity : string;
  lmSummary : option string;
  lmSource : string
}.

Record ReputationRow := mk_rep_row {
  lrID : string;
  lrEcosystem : string;
  lrName : string;
  lrVersion : string;
  lrType : string;
  lrRiskType : string;
  lrSeverity : string;
  lrSummary : option string
}.

Record LifecycleReleaseRow := mk_life_row {
  llID : string;
  llEcosystem : string;
  llName : string;
  llProductSlug : string;
  llProductLabel : string;
  llCycle : string;
  llLatest : string;
  llReleaseDate : option string;
  llIsLTS : Z;
  llLTSFrom : option string;
  llIsEOAS : Z;
  llEOASFrom : option string;
  llIsEOL : Z;
  llEOLFrom : option string;
  llIsDiscontinued : Z;
  llDiscontinuedFrom : option string;
  llIsEOES : option Z;
  llEOESFrom : option string;
  llIsMaintained : Z
}.

Record LocalDB := mk_local {
  vulnerabilities_local : gmap string VulnerabilityRow;
  malicious_local : gmap string MaliciousRow;
  reputation_findings_local : gmap string ReputationRow;
  lifecycle_releases_local : gmap string LifecycleReleaseRow;
  sync_meta : gmap string string
}.

Definition set_vulnerabilities (t : gmap string VulnerabilityRow) (s : LocalDB) : LocalDB :=
  mk_local t (malicious_local s) (reputation_findings_local s) (lifecycle_releases_local s) (sync_meta s).
Definition set_malicious_local (t : gmap string MaliciousRow) (s : LocalDB) : LocalDB :=
  mk_local (vulnerabilities_local s) t (reputation_findings_local s) (lifecycle_releases_local s) (sync_meta s).
Definition set_reputation (t : gmap string ReputationRow) (s : LocalDB) : LocalDB :=
  mk_local (vulnerabilities_local s) (malicious_local s) t (lifecycle_releases_local s) (sync_meta s).
Definition set_lifecycle (t : gmap string LifecycleReleaseRow) (s : LocalDB) : LocalDB :=
  mk_local (vulnerabilities_local s) (malicious_local s) (reputation_findings_local s) t (sync_meta s).
Definition set_meta (t : gmap string string) (s : LocalDB) : LocalDB :=
  mk_local (vulnerabilities_local s) (malicious_local s) (reputation_findings_local s) (lifecycle_releases_local s) t.

Definition empty_local : LocalDB := mk_local ∅ ∅ ∅ ∅ ∅.

(** [GetSyncMeta]: a missing key reads as the empty string. *)
Definition GetSyncMeta (key : string) (s : LocalDB) : string := default "" (sync_meta s !! key).

Definition SetSyncMeta (key value : string) (s : LocalDB) : LocalDB := set_meta (<[key := value]> (sync_meta s)) s.

(** A NULL column reads as the empty string. *)
Definition nullableStringValue (value : option string) : string := default "" value.

(** The links of internal/findinglinks, which parse URLs. *)
Class LinkPolicy := {
  resourceLinksFromVulnerabilityReferences : string -> string -> list ResourceLink;
  firstURLFromJSON : string -> string
}.

(** No links, to evaluate on concrete tables. *)
Definition no_links : LinkPolicy :=
  {| resourceLinksFromVulnerabilityReferences := fun _ _ => []; firstURLFromJSON := fun _ => "" |}.

Section local.
Context {U : UnicodeCase} {MO : MapOrder} {LP : LinkPolicy}.

Definition normalizePackageName (ecosystem name : string) : string := NormalizeName ecosystem name.

Definition localFindingSource (source0 : string) : string :=
  let source := TrimSpace source0 in if bool_decide (source = "") then "local" else source.

(** ** Validation of constraints; [true] is no error *)

(** [localVersionRange]: a range while it is decoded is its slice of events. *)
Definition dec_local_range : decoder (slice osvRangeEvent) :=
  dec_struct ["events"] (fun _ v es => dec_slice empty_event dec_event v es).

Definition unmarshal_local_ranges (data : string) : option (list (list osvRangeEvent)) :=
  rs ← unmarshal (dec_slice nil_slice dec_local_range) data nil_slice; Some (elems <$> elems rs).

Definition blank_event (e : osvRangeEvent) : bool :=
  bool_decide (TrimSpace (Introduced e) = "") && bool_decide (TrimSpace (Fixed e) = "") &&
  bool_decide (TrimSpace (LastAffected e) = "") && bool_decide (TrimSpace (Limit e) = "").

Definition validateLocalVersionRanges (rangesJSON : string) (allowNull : bool) : bool :=
  let trimmed := TrimSpace rangesJSON in
  if bool_decide (trimmed = "") then true
  else if bool_decide (trimmed = "null") then allowNull
  else match unmarshal_local_ranges trimmed with
       | Some ranges =>
           forallb (fun events => negb (bool_decide (events = [])) && forallb (fun e => negb (blank_event e)) events)
             ranges
       | None => false
       end.

Definition is_json_string (v : json) : bool := match v with JString _ => true | _ => false end.

Definition validateLocalStringArray (versionsJSON : string) (allowNull : bool) : bool :=
  let trimmed := TrimSpace versionsJSON in
  if bool_decide (trimmed = "") then true
  else if bool_decide (trimmed = "null") then allowNull
  else match parse_json trimmed with
       | Some (JArray values) => forallb is_json_string values
       | Some JNull => true
       | _ => false
       end.

Definition validateLocalMaliciousVersions (versionsJSON : string) : bool := validateLocalStringArray versionsJSON true.

(** ** Vulnerabilities *)

Definition localVulnerabilityFinding (id ecosystem name version rangesJSON refsJSON severity summary source : string)
    : Finding :=
  let title := if bool_decide (summary = "") then id else summary in
  let resources := resourceLinksFromVulnerabilityReferences id refsJSON in
  let primaryURL := match resources with r :: _ => URL r | [] => "" end in
  mk_finding name version ecosystem FindingTypeVulnerability severity id title primaryURL resources
    (ExtractFixedVersionConstraintFor version rangesJSON ecosystem) "" (localFindingSource source) [].

(** The version check of a row: constraints that cannot be decoded count as
    affected. *)
Definition vulnerability_affects (version : string) (row : VulnerabilityRow) : bool :=
  if bool_decide (version = "") then true
  else
    let '(ranges, versions) :=
      NormalizeVersionConstraintJSON (nullableStringValue (lvVersionRanges row))
        (nullableStringValue (lvVersionsAffected row)) in
    let '(affected, err) := VersionAffected version ranges versions (lvEcosystem row) in
    err || affected.

Definition vulnerability_finding (version : string) (row : VulnerabilityRow) : Finding :=
  localVulnerabilityFinding (lvID row) (lvEcosystem row) (lvName row) version
    (nullableStringValue (lvVersionRanges row)) (nullableStringValue (lvReferences row)) (lvSeverity row)
    (nullableStringValue (lvSummary row)) (lvSource row).

Definition FindVulnerabilities (ecosystem0 name0 version0 : string) (s : LocalDB) : list Finding :=
  let ecosystem := TrimSpace ecosystem0 in
  let name := normalizePackageName ecosystem (TrimSpace name0) in
  let version := TrimSpace version0 in
  vulnerability_finding version <$>
    filter (fun row => vulnerability_affects version row = true)
      (filter (fun row => lvEcosystem row = ecosystem /\ lvName row = name)
         (range_map (vulnerabilities_local s)).*2).

(** ** Malicious packages *)

(** [None] is an error: constraints that cannot be decoded. *)
Definition localMaliciousAffectsVersion (ecosystem version rangesJSON versionsJSON : string) : option bool :=
  if bool_decide (TrimSpace version = "") then Some true
  else if negb (validateLocalVersionRanges rangesJSON true) then None
  else if negb (validateLocalMaliciousVersions versionsJSON) then None
  else
    let '(ranges, versions) := NormalizeVersionConstraintJSON rangesJSON versionsJSON in
    let '(affected, err) := VersionAffected version ranges versions ecosystem in
    if err then None else Some affected.

Definition localMaliciousFinding (id ecosystem name version referencesRaw riskType severity summary source : string)
    : Finding :=
  let title := if bool_decide (summary = "") then "malicious package: " +:+ name +:+ " (" +:+ riskType +:+ ")"
               else summary in
  mk_finding name version ecosystem (FindingTypeForMaliciousRiskType riskType) severity id title
    (firstURLFromJSON referencesRaw) [] "" riskType (localFindingSource source) [].

Definition malicious_affects (version : string) (row : MaliciousRow) : option bool :=
  localMaliciousAffectsVersion (lmEcosystem row) version (nullableStringValue (lmVersionRanges row))
    (nullableStringValue (lmVersions row)).

Definition malicious_row_finding (version : string) (row : MaliciousRow) : Finding :=
  localMaliciousFinding (lmID row) (lmEcosystem row) (lmName row) version (nullableStringValue (lmReferenceURLs row))
    (lmRiskType row) (lmSeverity row) (nullableStringValue (lmSummary row)) (lmSource row).

(** The findings of rows whose check succeeds; [None] is the error of one. *)
Fixpoint affected_findings (version : string) (rows : list MaliciousRow) : option (list Finding) :=
  match rows with
  | [] => Some []
  | row :: rest =>
      affected ← malicious_affects version row;
      findings ← affected_findings version rest;
      Some (if (affected : bool) then malicious_row_finding version row :: findings else findings)
  end.

Definition FindMalicious (ecosystem0 name0 version0 : string) (s : LocalDB) : option (list Finding) :=
  let ecosystem := TrimSpace ecosystem0 in
  let name := normalizePackageName ecosystem (TrimSpace name0) in
  let version := TrimSpace version0 in
  affected_findings version
    (filter (fun row => lmEcosystem row = ecosystem /\ lmName row = name) (range_map (malicious_local s)).*2).
End local.
