(* ===== verification/LocalBatch.v ===== *)
(** Batch lookups in the local database: the rest of
    internal/db/sqlite/store.go and lifecycle.go.

    A scan asks for many packages at once.  The packages are cut into chunks
    of at most four hundred names, one query each, and the rows of a chunk are
    checked against the versions requested for their package.  The result is
    proved to be that of one lookup per distinct package and version. *)
From stdpp Require Import base list option strings gmap sorting.
From Stdlib Require Import Ascii ZArith Lia.
From S2P Require Import Prelude GoStrings AsciiText PackageId Json VersionCompare VersionRanges Collections.
From S2P Require Import JsonEncode Domain GoTime SyncRows Dates TimeParse Lifecycle Advisories LocalStore.

Notation localPackageKey := (string * string)%type.

Section batch.
Context {U : UnicodeCase} {MO : MapOrder} {LP : LinkPolicy}.

(** ** Chunks *)

Definition localPackagePredicateChunkSize : Z := 400.
Definition localReputationPredicateChunkSize : Z := 300.

(** The names bound in the query of a chunk and the versions requested for
    each.  The text of the query repeats a placeholder for each name. *)
Record localPackagePredicateChunk := mk_chunk {
  chunkArgs : list localPackageKey;
  versionsByPackage : gmap localPackageKey (list string)
}.

Definition requested (c : localPackagePredicateChunk) (k : localPackageKey) : list string :=
  default [] (versionsByPackage c !! k).

Definition add_key (k : localPackageKey) (c : localPackagePredicateChunk) : localPackagePredicateChunk :=
  mk_chunk (chunkArgs c ++ [k]) (versionsByPackage c).

(** A version is asked for once. *)
Definition add_version (k : localPackageKey) (version : string) (c : localPackagePredicateChunk)
    : localPackagePredicateChunk :=
  if bool_decide (version ∈ requested c k) then c
  else mk_chunk (chunkArgs c) (<[k := requested c k ++ [version]]> (versionsByPackage c)).

(** Whether a new name opens a chunk. *)
Definition full_chunks (maxKeys : Z) (builders : list localPackagePredicateChunk) : bool :=
  match last builders with
  | None => true
  | Some b => maxKeys <=? Z.of_nat (length (chunkArgs b))
  end.

Definition chunk_state : Type := list localPackagePredicateChunk * gmap localPackageKey nat.

(** The body of the loop of [localPackagePredicateChunks]. *)
Definition chunk_step (maxKeys : Z) (st : chunk_state) (pkg : Advisories.PackageQuery) : chunk_state :=
  let '(builders, chunkByKey) := st in
  let ecosystem := TrimSpace (pqEcosystem pkg) in
  let name := normalizePackageName ecosystem (TrimSpace (pqName pkg)) in
  let version := TrimSpace (pqVersion pkg) in
  if bool_decide (ecosystem = "") || bool_decide (name = "") then st
  else
    let key := (ecosystem, name) in
    match chunkByKey !! key with
    | Some i => (alter (add_version key version) i builders, chunkByKey)
    | None =>
        let builders := if full_chunks maxKeys builders then builders ++ [mk_chunk [] ∅] else builders in
        let i := (length builders - 1)%nat in
        (alter (add_version key version) i (alter (add_key key) i builders), <[key := i]> chunkByKey)
    end.

Definition localPackagePredicateChunks (packages : list Advisories.PackageQuery) (maxKeys0 : Z)
    : list localPackagePredicateChunk :=
  let maxKeys := if maxKeys0 <=? 0 then localPackagePredicateChunkSize else maxKeys0 in
  filter (fun c => chunkArgs c <> []) (foldl (chunk_step maxKeys) ([], ∅) packages).1.

(** ** Lookups *)

(** The rows of a chunk's query, each with the versions requested for its
    package; a package nobody asked a version of is checked without one. *)
Definition chunk_rows {Row} (key_of : Row -> localPackageKey) (table : gmap string Row)
    (chunk : localPackagePredicateChunk) : list (Row * string) :=
  filter (fun row => key_of row ∈ chunkArgs chunk) (range_map table).*2 ≫= fun row =>
    match requested chunk (key_of row) with
    | [] => [(row, "")]
    | versions => (fun version => (row, version)) <$> versions
    end.

Definition vuln_key (row : VulnerabilityRow) : localPackageKey := (lvEcosystem row, lvName row).
Definition mal_key (row : MaliciousRow) : localPackageKey := (lmEcosystem row, lmName row).

Definition findVulnerabilitiesBatchChunk (chunk : localPackagePredicateChunk) (s : LocalDB) : list Finding :=
  (fun '(row, version) => vulnerability_finding version row) <$>
    filter (fun '(row, version) => vulnerability_affects version row = true)
      (chunk_rows vuln_key (vulnerabilities_local s) chunk).

Definition FindVulnerabilitiesBatch (packages : list Advisories.PackageQuery) (s : LocalDB) : list Finding :=
  localPackagePredicateChunks packages localPackagePredicateChunkSize ≫= fun chunk =>
    findVulnerabilitiesBatchChunk chunk s.

(** [None] is the error of a row. *)
Fixpoint checked_findings (rows : list (MaliciousRow * string)) : option (list Finding) :=
  match rows with
  | [] => Some []
  | (row, version) :: rest =>
      affected ← malicious_affects version row;
      findings ← checked_findings rest;
      Some (if (affected : bool) then malicious_row_finding version row :: findings else findings)
  end.

Definition findMaliciousBatchChunk (chunk : localPackagePredicateChunk) (s : LocalDB) : option (list Finding) :=
  checked_findings (chunk_rows mal_key (malicious_local s) chunk).

Fixpoint chunk_findings (chunks : list localPackagePredicateChunk) (s : LocalDB) : option (list Finding) :=
  match chunks with
  | [] => Some []
  | chunk :: rest =>
      findings ← findMaliciousBatchChunk chunk s;
      others ← chunk_findings rest s;
      Some (findings ++ others)
  end.

Definition FindMaliciousBatch (packages : list Advisories.PackageQuery) (s : LocalDB) : option (list Finding) :=
  chunk_findings (localPackagePredicateChunks packages localPackagePredicateChunkSize) s.

(** ** Reputation *)

Definition reputation_finding (row : ReputationRow) : Finding :=
  let summary := nullableStringValue (lrSummary row) in
  let title := if bool_decide (summary = "") then lrID row else summary in
  let finding severity :=
    mk_finding (lrName row) (lrVersion row) (lrEcosystem row) (lrType row) severity (lrID row) title "" [] ""
      (lrRiskType row) "reversinglabs" [] in
  finding (NormalizeFindingSeverity (finding (lrSeverity row))).

Definition queryReputationFindings (ecosystem0 name0 version0 : string) (s : LocalDB) : list Finding :=
  let ecosystem := TrimSpace ecosystem0 in
  let name := normalizePackageName ecosystem (TrimSpace name0) in
  let version := TrimSpace version0 in
  reputation_finding <$>
    filter (fun row => lrEcosystem row = ecosystem /\ lrName row = name /\ (version = "" \/ lrVersion row = version))
      (range_map (reputation_findings_local s)).*2.

(** Rows come from one source; another one has none. *)
Definition other_source (source : string) : bool :=
  negb (bool_decide (source = "")) && negb (bool_decide (source = "reversinglabs")).

Definition FindReputationFindings (ecosystem name source : string) (s : LocalDB) : list Finding :=
  if other_source source then [] else queryReputationFindings ecosystem name "" s.

Notation localReputationPackageKey := (string * string * string)%type.

(** The body of the loop of [localReputationPackagePredicateChunks]: a chunk is
    the list of what is bound in its query. *)
Definition reputation_step (maxKeys : Z)
    (st : list (list localReputationPackageKey) * gset localReputationPackageKey) (pkg : Advisories.PackageQuery)
    : list (list localReputationPackageKey) * gset localReputationPackageKey :=
  let '(builders, seen) := st in
  let ecosystem := TrimSpace (pqEcosystem pkg) in
  let name := normalizePackageName ecosystem (TrimSpace (pqName pkg)) in
  let version := TrimSpace (pqVersion pkg) in
  let key := (ecosystem, name, version) in
  if bool_decide (ecosystem = "") || bool_decide (name = "") || bool_decide (version = "") then st
  else if bool_decide (key ∈ seen) then st
  else
    let builders := match last builders with
                    | None => builders ++ [[]]
                    | Some b => if maxKeys <=? Z.of_nat (length b) then builders ++ [[]] else builders
                    end in
    (alter (fun args => args ++ [key]) (length builders - 1)%nat builders, {[key]} ∪ seen).

Definition localReputationPackagePredicateChunks (packages : list Advisories.PackageQuery) (maxKeys0 : Z)
    : list (list localReputationPackageKey) :=
  let maxKeys := if maxKeys0 <=? 0 then localReputationPredicateChunkSize else maxKeys0 in
  filter (fun args => args <> []) (foldl (reputation_step maxKeys) ([], ∅) packages).1.

Definition findReputationFindingsBatch (args : list localReputationPackageKey) (s : LocalDB) : list Finding :=
  reputation_finding <$>
    filter (fun row => (lrEcosystem row, lrName row, lrVersion row) ∈ args) (range_map (reputation_findings_local s)).*2.

Definition FindReputationFindingsBatch (packages : list Advisories.PackageQuery) (source : string) (s : LocalDB)
    : list Finding :=
  if other_source source then []
  else localReputationPackagePredicateChunks packages localReputationPredicateChunkSize ≫= fun args =>
         findReputationFindingsBatch args s.

(** ** Life cycles *)

(** [time.Parse(time.RFC3339, s)]: a fraction is accepted though the layout has
    none, so it reads what the layout with a fraction reads. *)
Definition ParseRFC3339 : string -> option Time := ParseRFC3339Nano.

Definition parseSQLiteDate (value : option string) : option Time :=
  match value with
  | None => None
  | Some v =>
      let raw := TrimSpace v in
      if bool_decide (raw = "") then None
      else match ParseDateOnly raw with Some t => Some t | None => ParseRFC3339 raw end
  end.

Definition release_row (l : LifecycleReleaseRow) : ReleaseRow :=
  mk_row (llID l) (llEcosystem l) (llName l) (llProductSlug l) (llProductLabel l)
    (mk_release (llCycle l) (llLatest l) (parseSQLiteDate (llReleaseDate l)) (negb (llIsLTS l =? 0))
       (parseSQLiteDate (llLTSFrom l)) (negb (llIsEOAS l =? 0)) (parseSQLiteDate (llEOASFrom l))
       (negb (llIsEOL l =? 0)) (parseSQLiteDate (llEOLFrom l)) (negb (llIsDiscontinued l =? 0))
       (parseSQLiteDate (llDiscontinuedFrom l)) ((fun i => negb (i =? 0)) <$> llIsEOES l)
       (parseSQLiteDate (llEOESFrom l)) (negb (llIsMaintained l =? 0))).

(** SQLite's length() of a text: its characters, a lead byte taking the
    continuation bytes after it, up to the first NUL. *)
Fixpoint sql_length (in_char : bool) (s : string) : Z :=
  match s with
  | EmptyString => 0
  | String c s' =>
      if code c =? 0 then 0
      else if in_char && continuation c then sql_length true s'
      else 1 + sql_length (192 <=? code c) s'
  end.

(** ORDER BY ecosystem, name, product_slug, length(cycle) DESC, cycle DESC *)
Definition lifecycle_cmp (a b : LifecycleReleaseRow) : Z :=
  if negb (bool_decide (llEcosystem a = llEcosystem b)) then str_cmp (llEcosystem a) (llEcosystem b)
  else if negb (bool_decide (llName a = llName b)) then str_cmp (llName a) (llName b)
  else if negb (bool_decide (llProductSlug a = llProductSlug b)) then str_cmp (llProductSlug a) (llProductSlug b)
  else if negb (sql_length false (llCycle a) =? sql_length false (llCycle b))
       then zcmp (sql_length false (llCycle b)) (sql_length false (llCycle a))
  else str_cmp (llCycle b) (llCycle a).

Definition life_key (row : LifecycleReleaseRow) : localPackageKey := (llEcosystem row, llName row).

Definition collectLifecycleReleaseRows (s : LocalDB) (rowsByPackage : gmap localPackageKey (list ReleaseRow))
    (chunk : localPackagePredicateChunk) : gmap localPackageKey (list ReleaseRow) :=
  foldl (fun m l => <[life_key l := default [] (m !! life_key l) ++ [release_row l]]> m) rowsByPackage
    (sort_by lifecycle_cmp
       (filter (fun l => life_key l ∈ chunkArgs chunk) (range_map (lifecycle_releases_local s)).*2)).

Definition normalizeLifecyclePackageQuery (pkg : Advisories.PackageQuery) : option Advisories.PackageQuery :=
  let ecosystem := TrimSpace (pqEcosystem pkg) in
  let name := normalizePackageName ecosystem (TrimSpace (pqName pkg)) in
  if bool_decide (ecosystem = "") || bool_decide (name = "") then None
  else Some (Advisories.mk_query ecosystem name (TrimSpace (pqVersion pkg))).

Definition lifecyclePackageQuery (pkg : Advisories.PackageQuery) : Lifecycle.PackageQuery :=
  Lifecycle.mk_query (pqEcosystem pkg) (pqName pkg) (pqVersion pkg).

(** The findings of one normalised query. *)
Definition lifecycle_findings (now : Time) (rowsByPackage : gmap localPackageKey (list ReleaseRow))
    (queryPkg : Advisories.PackageQuery) : list Finding :=
  omap (fun row => FindingForRelease (lifecyclePackageQuery queryPkg) row now)
    (LongestMatchingReleases (default [] (rowsByPackage !! (pqEcosystem queryPkg, pqName queryPkg)))
       (pqVersion queryPkg)).

(** [clock] is the time read when the caller passes none. *)
Definition FindLifecycleFindingsBatch (clock : Time) (packages : list Advisories.PackageQuery) (now0 : Time)
    (s : LocalDB) : list Finding :=
  let now := if IsZero now0 then clock else now0 in
  let chunks := localPackagePredicateChunks packages localPackagePredicateChunkSize in
  match chunks with
  | [] => []
  | _ =>
      let rowsByPackage := foldl (collectLifecycleReleaseRows s) ∅ chunks in
      omap normalizeLifecyclePackageQuery packages ≫= lifecycle_findings now rowsByPackage
  end.

(** ** Chunks cover the distinct queries *)

(** What a query asks for: a package and a version. *)
Definition normalized (pkg : Advisories.PackageQuery) : option (localPackageKey * string) :=
  let ecosystem := TrimSpace (pqEcosystem pkg) in
  let name := normalizePackageName ecosystem (TrimSpace (pqName pkg)) in
  if bool_decide (ecosystem = "") || bool_decide (name = "") then None
  else Some ((ecosystem, name), TrimSpace (pqVersion pkg)).

Record chunks_ok (maxKeys : Z) (st : chunk_state) (done : list (localPackageKey * string)) : Prop := {
  chunks_names : NoDup (st.1 ≫= chunkArgs);
  chunks_index : forall k i, st.2 !! k = Some i <-> exists c, st.1 !! i = Some c /\ k ∈ chunkArgs c;
  chunks_asked : forall c k, c ∈ st.1 -> NoDup (requested c k) /\ (k ∈ chunkArgs c <-> requested c k <> []);
  chunks_done : forall k v, (k, v) ∈ done <-> exists c, c ∈ st.1 /\ v ∈ requested c k;
  chunks_size : Forall (fun c => Z.of_nat (length (chunkArgs c)) <= maxKeys) st.1
}.

Lemma requested_add_version k v c k' :
  requested (add_version k v c) k' =
  if decide (k' = k) then (if bool_decide (v ∈ requested c k) then requested c k else requested c k ++ [v])
  else requested c k'.
Proof.
  unfold add_version. destruct (decide (k' = k)) as [->|Hk]; case_bool_decide; try done.
  - unfold requested at 1. cbn [versionsByPackage]. by rewrite lookup_insert_eq.
  - unfold requested at 1. cbn [versionsByPackage]. by rewrite lookup_insert_ne.
Qed.

Lemma add_version_args k v c : chunkArgs (add_version k v c) = chunkArgs c.
Proof. unfold add_version. by case_bool_decide. Qed.

(** What a chunk asks for after a version was added. *)
Lemma elem_add_version k v c k' v' :
  v' ∈ requested (add_version k v c) k' <-> v' ∈ requested c k' \/ (k' = k /\ v' = v).
Proof.
  rewrite requested_add_version. destruct (decide (k' = k)) as [->|]; [|naive_solver].
  case_bool_decide; [naive_solver|]. rewrite elem_of_app, list_elem_of_singleton. naive_solver.
Qed.

Lemma NoDup_add_version k v c k' : NoDup (requested c k') -> NoDup (requested (add_version k v c) k').
Proof.
  intros H. rewrite requested_add_version. destruct (decide (k' = k)) as [->|]; [|done].
  case_bool_decide as Hv; [done|]. apply NoDup_app. split_and!; [done| |apply NoDup_singleton].
  intros x Hx ->%list_elem_of_singleton. done.
Qed.

Lemma add_version_asked k v c k' : requested (add_version k v c) k' <> [] <-> requested c k' <> [] \/ k' = k.
Proof.
  rewrite requested_add_version. destruct (decide (k' = k)) as [->|]; [|naive_solver].
  case_bool_decide as Hv; [|split; [by right|]; intros _; by destruct (requested c k)].
  split; [by right|]. intros _ Hn. rewrite Hn in Hv. by apply elem_of_nil in Hv.
Qed.

Lemma bind_args_alter f i l :
  (forall c, chunkArgs (f c) = chunkArgs c) -> alter f i l ≫= chunkArgs = l ≫= chunkArgs.
Proof.
  intros Hf. revert i. induction l as [|c l IH]; intros [|i]; [done..| |].
  - change (alter f 0%nat (c :: l)) with (f c :: l). rewrite !bind_cons, Hf. done.
  - change (alter f (S i) (c :: l)) with (c :: alter f i l). rewrite !bind_cons, IH. done.
Qed.

Lemma elem_alter {A} (f : A -> A) (i : nat) (l : list A) c x :
  l !! i = Some c -> x ∈ alter f i l <-> x = f c \/ (exists j : nat, j <> i /\ l !! j = Some x).
Proof.
  intros Hc. rewrite list_elem_of_lookup. split.
  - intros [j Hj]. destruct (decide (j = i)) as [->|Hij].
    + rewrite list_lookup_alter_eq, Hc in Hj. left. by injection Hj.
    + rewrite list_lookup_alter_ne in Hj by done. eauto.
  - intros [->|(j & Hij & Hj)].
    + exists i. by rewrite list_lookup_alter_eq, Hc.
    + exists j. by rewrite list_lookup_alter_ne.
Qed.

(** A version of a package that has a chunk. *)
Lemma chunks_ok_known maxKeys st done k v i :
  chunks_ok maxKeys st done -> st.2 !! k = Some i ->
  chunks_ok maxKeys (alter (add_version k v) i st.1, st.2) (done ++ [(k, v)]).
Proof.
  intros [H1 H2 H3 H4 H5] Hi. destruct (proj1 (H2 k i) Hi) as (c & Hc & Hk).
  pose proof (list_elem_of_lookup_2 _ _ _ Hc) as Hin. split; cbn [fst snd].
  - rewrite bind_args_alter by apply add_version_args. done.
  - intros k' j. rewrite H2. destruct (decide (j = i)) as [->|Hij].
    + rewrite list_lookup_alter_eq, Hc. cbn [fmap option_fmap option_map].
      split; intros (c' & [= <-] & Hk'); (eexists; split; [reflexivity|]); by rewrite ?add_version_args in *.
    + by rewrite list_lookup_alter_ne.
  - intros c' k' [->|(j & _ & Hj)]%(elem_alter _ _ _ _ _ Hc).
    + rewrite add_version_args, add_version_asked. destruct (H3 c k' Hin) as [Hn Ha].
      split; [by apply NoDup_add_version|]. rewrite Ha. split; [by left|]. intros [?| ->]; [done|]. by apply Ha.
    + apply H3. by eapply list_elem_of_lookup_2.
  - intros k' v'. rewrite elem_of_app, H4, list_elem_of_singleton. split.
    + intros [(c' & Hc' & Hv')|[= -> ->]].
      * apply list_elem_of_lookup in Hc' as [j Hj]. destruct (decide (j = i)) as [->|Hij].
        -- exists (add_version k v c). rewrite (elem_alter _ _ _ _ _ Hc), elem_add_version. simplify_eq. auto.
        -- exists c'. rewrite (elem_alter _ _ _ _ _ Hc). eauto.
      * exists (add_version k v c). rewrite (elem_alter _ _ _ _ _ Hc), elem_add_version. auto.
    + intros (c' & [->|(j & _ & Hj)]%(elem_alter _ _ _ _ _ Hc) & Hv').
      * apply elem_add_version in Hv' as [?|[-> ->]]; eauto.
      * left. exists c'. split; [by eapply list_elem_of_lookup_2|done].
  - rewrite Forall_forall in *. intros c' [->|(j & _ & Hj)]%(elem_alter _ _ _ _ _ Hc).
    + rewrite add_version_args. by apply H5.
    + apply H5. by eapply list_elem_of_lookup_2.
Qed.

(** An empty chunk changes nothing. *)
Lemma chunks_ok_open maxKeys builders m done :
  0 < maxKeys -> chunks_ok maxKeys (builders, m) done -> chunks_ok maxKeys (builders ++ [mk_chunk [] ∅], m) done.
Proof.
  intros Hm [H1 H2 H3 H4 H5]. split; cbn [fst snd] in *.
  - rewrite bind_app. cbn. by rewrite app_nil_r.
  - intros k i. rewrite H2. split.
    + intros (c & Hc & Hk). exists c. split; [|done]. by apply lookup_app_l_Some.
    + intros (c & Hc & Hk). exists c. split; [|done]. apply lookup_app_Some in Hc as [?|[_ Hc]]; [done|].
      apply list_lookup_singleton_Some in Hc as [_ <-]. by apply elem_of_nil in Hk.
  - intros c k [Hc| ->%list_elem_of_singleton]%elem_of_app; [by apply H3|]. unfold requested. cbn.
    rewrite lookup_empty. split; [constructor|]. split; [by intros ?%elem_of_nil|done].
  - intros k v. rewrite H4. split.
    + intros (c & Hc & Hv). exists c. rewrite elem_of_app. auto.
    + intros (c & [Hc| ->%list_elem_of_singleton]%elem_of_app & Hv); [eauto|]. unfold requested in Hv. cbn in Hv.
      rewrite lookup_empty in Hv. by apply elem_of_nil in Hv.
  - rewrite Forall_app, Forall_singleton. split; [done|]. cbn. lia.
Qed.

(** A new package goes into the last chunk. *)
Lemma chunks_ok_new maxKeys l c m done k v :
  chunks_ok maxKeys (l ++ [c], m) done -> m !! k = None -> Z.of_nat (length (chunkArgs c)) < maxKeys ->
  chunks_ok maxKeys (l ++ [add_version k v (add_key k c)], <[k := length l]> m) (done ++ [(k, v)]).
Proof.
  intros [H1 H2 H3 H4 H5] Hk Hlen. cbn [fst snd] in *.
  assert (forall c', c' ∈ l ++ [c] -> k ∉ chunkArgs c') as Hnew.
  { intros c' [i Hi]%list_elem_of_lookup Hin. specialize (proj2 (H2 k i) ltac:(eauto)). congruence. }
  assert (forall k', requested (add_key k c) k' = requested c k') as Hreq by done.
  assert (requested c k = []) as Hempty.
  { destruct (H3 c k ltac:(set_solver)) as [_ Ha]. destruct (requested c k) eqn:E; [done|].
    destruct (Hnew c ltac:(set_solver)). by apply Ha. }
  split; cbn [fst snd].
  - rewrite bind_app in *. cbn in *. rewrite app_nil_r in *. rewrite add_version_args. cbn [add_key chunkArgs].
    rewrite app_assoc. apply NoDup_app. split_and!; [done| |apply NoDup_singleton].
    intros x Hx ->%list_elem_of_singleton. rewrite elem_of_app in Hx. destruct Hx as [Hx|Hx].
    + apply list_elem_of_bind in Hx as (c' & Hx & Hc'). apply (Hnew c'); [set_solver|done].
    + apply (Hnew c); [set_solver|done].
  - intros k' i. destruct (decide (k' = k)) as [->|Hne].
    + rewrite lookup_insert_eq. split.
      * intros [= <-]. eexists. rewrite lookup_app_r, Nat.sub_diag by lia. split; [reflexivity|].
        rewrite add_version_args. cbn [add_key chunkArgs]. set_solver.
      * intros (c' & Hc' & Hin). apply lookup_app_Some in Hc' as [Hc'|[Hi Hc']].
        -- destruct (Hnew c'); [|done]. rewrite elem_of_app. left. by eapply list_elem_of_lookup_2.
        -- apply list_lookup_singleton_Some in Hc' as [Hi' _]. f_equal. lia.
    + rewrite lookup_insert_ne by done. rewrite H2. split.
      * intros (c' & Hc' & Hin). apply lookup_app_Some in Hc' as [Hc'|[Hi Hc']].
        -- exists c'. split; [by apply lookup_app_l_Some|done].
        -- apply list_lookup_singleton_Some in Hc' as [Hi' <-]. eexists.
           rewrite lookup_app_r, Hi' by lia. split; [reflexivity|]. rewrite add_version_args.
           cbn [add_key chunkArgs]. rewrite elem_of_app. by left.
      * intros (c' & Hc' & Hin). apply lookup_app_Some in Hc' as [Hc'|[Hi Hc']].
        -- exists c'. split; [by apply lookup_app_l_Some|done].
        -- apply list_lookup_singleton_Some in Hc' as [Hi' <-]. exists c. rewrite lookup_app_r, Hi' by lia.
           split; [reflexivity|]. rewrite add_version_args in Hin. cbn [add_key chunkArgs] in Hin.
           rewrite elem_of_app, list_elem_of_singleton in Hin. naive_solver.
  - intros c' k' [Hc'| ->%list_elem_of_singleton]%elem_of_app; [apply H3; set_solver|].
    rewrite add_version_args, add_version_asked, Hreq. cbn [add_key chunkArgs].
    destruct (H3 c k' ltac:(set_solver)) as [Hn Ha]. split; [by apply NoDup_add_version|].
    rewrite elem_of_app, list_elem_of_singleton, Ha. done.
  - intros k' v'. rewrite elem_of_app, H4, list_elem_of_singleton. split.
    + intros [(c' & Hc' & Hv')|[= -> ->]].
      * rewrite elem_of_app, list_elem_of_singleton in Hc'. destruct Hc' as [Hc'| ->].
        -- exists c'. rewrite elem_of_app. auto.
        -- eexists. rewrite elem_of_app, list_elem_of_singleton. split; [by right|]. rewrite elem_add_version. by left.
      * eexists. rewrite elem_of_app, list_elem_of_singleton. split; [by right|]. rewrite elem_add_version. by right.
    + intros (c' & [Hc'| ->%list_elem_of_singleton]%elem_of_app & Hv').
      * left. exists c'. rewrite elem_of_app. auto.
      * apply elem_add_version in Hv' as [Hv'|[-> ->]]; [|auto]. left. exists c. split; [set_solver|done].
  - rewrite Forall_app, Forall_singleton in *. split; [apply H5|]. rewrite add_version_args.
    cbn [add_key chunkArgs]. rewrite length_app. cbn [length]. lia.
Qed.

Lemma chunk_step_ok maxKeys st done pkg :
  0 < maxKeys -> chunks_ok maxKeys st done ->
  chunks_ok maxKeys (chunk_step maxKeys st pkg) (done ++ option_list (normalized pkg)).
Proof.
  intros Hm Hok. destruct st as [builders m]. unfold chunk_step, normalized.
  destruct (_ || _) eqn:E; [by rewrite app_nil_r|]. cbn [option_list].
  set (k := (TrimSpace (pqEcosystem pkg), _)). destruct (m !! k) as [i|] eqn:Hk.
  { exact (chunks_ok_known maxKeys (builders, m) done k _ i Hok Hk). }
  assert (exists l c, (if full_chunks maxKeys builders then builders ++ [mk_chunk [] ∅] else builders) = l ++ [c] /\
    chunks_ok maxKeys (l ++ [c], m) done /\ Z.of_nat (length (chunkArgs c)) < maxKeys) as (l & c & -> & Hlc & Hlen).
  { unfold full_chunks. destruct (last builders) as [b|] eqn:Hlast; [destruct (Z.leb_spec maxKeys (Z.of_nat (length (chunkArgs b))))|].
    - exists builders, (mk_chunk [] ∅). split_and!; [done|by apply chunks_ok_open|cbn; lia].
    - apply last_Some in Hlast as [l ->]. exists l, b. done.
    - exists builders, (mk_chunk [] ∅). split_and!; [done|by apply chunks_ok_open|cbn; lia]. }
  rewrite length_app, Nat.add_sub. cbn [length]. rewrite !alter_app_r_alt by lia. rewrite Nat.sub_diag.
  by apply chunks_ok_new.
Qed.

Lemma chunks_ok_all maxKeys packages :
  0 < maxKeys ->
  chunks_ok maxKeys (foldl (chunk_step maxKeys) ([], ∅) packages) (omap normalized packages).
Proof.
  intros Hm. induction packages as [|pkg packages IH] using rev_ind.
  - split; cbn; [constructor| |by intros ? ? ?%elem_of_nil| |constructor].
    + intros k i. rewrite lookup_empty. split; [done|]. by intros (c & [=] & _).
    + intros k v. split; [by intros ?%elem_of_nil|]. intros (c & ?%elem_of_nil & _). done.
  - rewrite foldl_app, omap_app. cbn. pose proof (chunk_step_ok maxKeys _ _ pkg Hm IH) as H.
    by destruct (normalized pkg).
Qed.

(** The queries of the chunks. *)
Definition chunk_queries (c : localPackagePredicateChunk) : list (localPackageKey * string) :=
  chunkArgs c ≫= fun k => pair k <$> requested c k.

Lemma elem_chunk_queries c k v :
  (k, v) ∈ chunk_queries c <-> k ∈ chunkArgs c /\ v ∈ requested c k.
Proof.
  unfold chunk_queries. rewrite list_elem_of_bind. split.
  - intros (k' & (v' & [= <- <-] & Hv)%list_elem_of_fmap & Hk). done.
  - intros [Hk Hv]. exists k. split; [|done]. by apply list_elem_of_fmap_2.
Qed.

Lemma NoDup_bind_disjoint {A B} (f : A -> list B) (g : B -> A) l :
  (forall x y, y ∈ f x -> g y = x) -> (forall x, NoDup (f x)) -> NoDup l -> NoDup (l ≫= f).
Proof.
  intros Hg Hf. induction 1 as [|x l Hx Hl IH]; [constructor|]. rewrite bind_cons. apply NoDup_app.
  split_and!; [apply Hf| |done]. intros y Hy (x' & Hy' & Hx')%list_elem_of_bind.
  apply Hg in Hy, Hy'. congruence.
Qed.

(** The chunks ask for every distinct package and version once, in chunks of at
    most the given number of names. *)
Lemma localPackagePredicateChunks_spec packages maxKeys :
  0 < maxKeys ->
  let chunks := localPackagePredicateChunks packages maxKeys in
  chunks ≫= chunk_queries ≡ₚ remove_dups (omap normalized packages) /\
  Forall (fun c => Z.of_nat (length (chunkArgs c)) <= maxKeys) chunks /\
  (forall c k, c ∈ chunks -> k ∈ chunkArgs c <-> requested c k <> []) /\
  (forall c, c ∈ chunks -> NoDup (chunkArgs c)).
Proof.
  intros Hm. unfold localPackagePredicateChunks. rewrite (proj2 (Z.leb_gt _ _)) by done.
  destruct (chunks_ok_all maxKeys packages Hm) as [H1 _ H3 H4 H5].
  set (bs := (foldl (chunk_step maxKeys) ([], ∅) packages).1) in *. clearbody bs.
  assert (forall l : list localPackagePredicateChunk, filter (fun c => chunkArgs c <> []) l ≫= chunkArgs = l ≫= chunkArgs) as Hargs.
  { intros l. induction l as [|c l IH]; [done|]. rewrite filter_cons. destruct (decide _) as [|E].
    - by rewrite !bind_cons, IH.
    - apply dec_stable in E. by rewrite bind_cons, E, IH. }
  assert (forall l : list localPackagePredicateChunk, NoDup (l ≫= chunkArgs) -> forall c, c ∈ l -> NoDup (chunkArgs c)) as Hsub.
  { intros l Hl c Hc. induction l as [|x l IH]; [by apply elem_of_nil in Hc|]. rewrite bind_cons, NoDup_app in Hl.
    apply elem_of_cons in Hc as [->|Hc]; [apply Hl|apply IH; [apply Hl|done]]. }
  split_and!.
  - apply NoDup_Permutation; [|apply NoDup_remove_dups|].
    + assert (forall l : list localPackagePredicateChunk, (forall c, c ∈ l -> c ∈ bs) -> NoDup (l ≫= chunkArgs) -> NoDup (l ≫= chunk_queries)) as Hn.
      { induction l as [|c l IH]; intros Hin Hd; [constructor|]. rewrite bind_cons in Hd. rewrite bind_cons.
        apply NoDup_app in Hd as (Hd1 & Hd2 & Hd3). apply NoDup_app. split_and!.
        - apply (NoDup_bind_disjoint _ fst); [|intros k|done].
          + by intros k y (v & -> & _)%list_elem_of_fmap.
          + apply NoDup_fmap_2; [by intros ? ? [=]|]. apply H3, Hin. by left.
        - intros [k v] [Hk _]%elem_chunk_queries (c' & [Hk' _]%elem_chunk_queries & Hc')%list_elem_of_bind.
          apply (Hd2 k Hk). apply list_elem_of_bind. eauto.
        - apply IH; [|done]. intros c' Hc'. apply Hin. by right. }
      apply Hn; [|by rewrite Hargs]. intros c Hc. by apply list_elem_of_filter in Hc as [_ Hc].
    + intros [k v]. rewrite elem_of_remove_dups, H4, list_elem_of_bind. split.
      * intros (c & [Hk Hv]%elem_chunk_queries & [_ Hc]%list_elem_of_filter). eauto.
      * intros (c & Hc & Hv). assert (k ∈ chunkArgs c) as Hk.
        { apply H3; [done|]. intros E. rewrite E in Hv. by apply elem_of_nil in Hv. }
        exists c. rewrite elem_chunk_queries, list_elem_of_filter. split_and!; try done.
        intros E. rewrite E in Hk. by apply elem_of_nil in Hk.
  - rewrite Forall_forall in *. intros c [_ Hc]%list_elem_of_filter. by apply H5.
  - intros c k [_ Hc]%list_elem_of_filter. by apply H3.
  - intros c [_ Hc]%list_elem_of_filter. by apply (Hsub bs).
Qed.

(** ** A batch is one lookup per distinct query *)

Lemma bind_app_perm {A B} (f g : A -> list B) l :
  (l ≫= fun x => f x ++ g x) ≡ₚ (l ≫= f) ++ (l ≫= g).
Proof.
  induction l as [|x l IH]; [done|]. rewrite !bind_cons, IH. rewrite <- !app_assoc. f_equiv.
  rewrite !app_assoc. f_equiv. apply Permutation_app_comm.
Qed.

Lemma bind_perm {A B} (f g : A -> list B) l : (forall x, f x ≡ₚ g x) -> l ≫= f ≡ₚ l ≫= g.
Proof. intros H. induction l as [|x l IH]; [done|]. rewrite !bind_cons. by rewrite H, IH. Qed.

Lemma bind_perm_list {A B} (f : A -> list B) l l' : l ≡ₚ l' -> l ≫= f ≡ₚ l' ≫= f.
Proof.
  induction 1 as [|x l l' H IH|x y l|l1 l2 l3 H1 IH1 H2 IH2]; [done| | |by etrans].
  - rewrite !bind_cons. by rewrite IH.
  - rewrite !bind_cons, !app_assoc. f_equiv. apply Permutation_app_comm.
Qed.

Section rows.
Context {Row : Type} (key_of : Row -> localPackageKey).

(** The rows of a package, with the version to check them against. *)
Definition rows_for (rows : list Row) (q : localPackageKey * string) : list (Row * string) :=
  (fun row => (row, q.2)) <$> filter (fun row => key_of row = q.1) rows.

Lemma one_row c row :
  NoDup (chunkArgs c) -> (forall k, k ∈ chunkArgs c <-> requested c k <> []) ->
  chunk_queries c ≫= rows_for [row] = (fun version => (row, version)) <$> requested c (key_of row).
Proof.
  intros Hn Ha. set (k := key_of row).
  assert (forall args, NoDup args ->
    (args ≫= fun k' => pair k' <$> requested c k') ≫= rows_for [row] =
    if decide (k ∈ args) then (fun version => (row, version)) <$> requested c k else []) as H.
  { induction 1 as [|k' args Hk' Hargs IH]; [done|]. rewrite bind_cons, bind_app, IH.
    assert (forall vs, (pair k' <$> vs) ≫= rows_for [row] =
              if decide (k = k') then (fun version => (row, version)) <$> vs else []) as Hone.
    { induction vs as [|v vs IHv]; [by destruct (decide (k = k'))|]. rewrite fmap_cons, bind_cons, IHv.
      unfold rows_for at 1. cbn [fst snd]. rewrite filter_cons. fold k. by destruct (decide (k = k')). }
    rewrite Hone. destruct (decide (k = k')) as [<-|Hne].
    - rewrite (decide_False (P := k ∈ args)) by done. rewrite decide_True by set_solver. apply app_nil_r.
    - cbn [app]. destruct (decide (k ∈ args)); [rewrite decide_True by set_solver|rewrite decide_False by set_solver]; done. }
  unfold chunk_queries. rewrite H by done. destruct (decide _) as [Hin|Hin]; [done|].
  destruct (requested c k) eqn:E; [done|]. destruct Hin. apply Ha. by rewrite E.
Qed.

Lemma chunk_rows_queries table c :
  NoDup (chunkArgs c) -> (forall k, k ∈ chunkArgs c <-> requested c k <> []) ->
  chunk_rows key_of table c ≡ₚ chunk_queries c ≫= rows_for (range_map table).*2.
Proof.
  intros Hn Ha. unfold chunk_rows. generalize ((range_map table).*2). intros rows.
  induction rows as [|row rows IH].
  { assert (forall q, rows_for [] q = []) as Hnil by done. cbn. symmetry. apply Permutation_nil_r.
    induction (chunk_queries c) as [|q l IHq]; [done|]. by rewrite bind_cons, Hnil, IHq. }
  transitivity ((chunk_queries c ≫= rows_for [row]) ++ (chunk_queries c ≫= rows_for rows)).
  - rewrite <- IH, one_row by done. rewrite filter_cons. destruct (decide _) as [Hin|Hin].
    + rewrite bind_cons. f_equiv. apply Ha in Hin. by destruct (requested c (key_of row)).
    + destruct (requested c (key_of row)) eqn:E; [done|]. destruct Hin. apply Ha. by rewrite E.
  - rewrite <- bind_app_perm. apply bind_perm. intros [k v]. unfold rows_for. cbn [fst snd].
    rewrite !filter_cons, filter_nil. by destruct (decide _).
Qed.

(** The rows of all chunks are the rows of the distinct queries. *)
Lemma batch_rows table packages maxKeys :
  0 < maxKeys ->
  (localPackagePredicateChunks packages maxKeys ≫= chunk_rows key_of table) ≡ₚ
  remove_dups (omap normalized packages) ≫= rows_for (range_map table).*2.
Proof.
  intros Hm. destruct (localPackagePredicateChunks_spec packages maxKeys Hm) as (Hq & _ & Ha & Hn).
  rewrite <- (bind_perm_list _ _ _ Hq). set (chunks := localPackagePredicateChunks packages maxKeys) in *.
  clearbody chunks. clear Hq. induction chunks as [|c chunks IH]; [done|].
  rewrite !bind_cons, bind_app. rewrite IH; [|by intros ? ? ?; apply Ha; right|by intros ? ?; apply Hn; right].
  f_equiv. apply chunk_rows_queries; [apply Hn; by left|]. intros k. apply Ha. by left.
Qed.
End rows.

(** *** Vulnerabilities *)

(** The lookup of a normalised query. *)
Definition lookup_vulnerabilities (s : LocalDB) (q : localPackageKey * string) : list Finding :=
  (fun '(row, version) => vulnerability_finding version row) <$>
    filter (fun '(row, version) => vulnerability_affects version row = true)
      (rows_for vuln_key (range_map (vulnerabilities_local s)).*2 q).

Lemma FindVulnerabilities_lookup pkg q s :
  normalized pkg = Some q ->
  FindVulnerabilities (pqEcosystem pkg) (pqName pkg) (pqVersion pkg) s = lookup_vulnerabilities s q.
Proof.
  unfold normalized. destruct (_ || _); intros [= <-]. unfold FindVulnerabilities, lookup_vulnerabilities, rows_for.
  cbn [fst snd]. set (version := TrimSpace (pqVersion pkg)). set (eco := TrimSpace (pqEcosystem pkg)).
  set (name := normalizePackageName eco _). generalize ((range_map (vulnerabilities_local s)).*2). intros rows.
  induction rows as [|row rows IH]; [done|]. rewrite !filter_cons.
  destruct (decide (lvEcosystem row = eco /\ lvName row = name)) as [[E1 E2]|Hne].
  - rewrite (decide_True (P := vuln_key row = (eco, name))) by (unfold vuln_key; congruence).
    rewrite fmap_cons, !filter_cons. destruct (decide (vulnerability_affects version row = true)); [|exact IH].
    rewrite !fmap_cons. f_equal. exact IH.
  - rewrite (decide_False (P := vuln_key row = (eco, name))) by (intros [= ? ?]; auto). exact IH.
Qed.

Lemma filter_bind {A B} (P : B -> Prop) `{!forall x, Decision (P x)} (f : A -> list B) l :
  filter P (l ≫= f) = l ≫= fun x => filter P (f x).
Proof. induction l as [|x l IH]; [done|]. by rewrite !bind_cons, filter_app, IH. Qed.

Lemma fmap_bind {A B D} (g : B -> D) (f : A -> list B) l : g <$> (l ≫= f) = l ≫= fun x => g <$> f x.
Proof. induction l as [|x l IH]; [done|]. by rewrite !bind_cons, fmap_app, IH. Qed.

Lemma batch_vulnerabilities packages s :
  FindVulnerabilitiesBatch packages s ≡ₚ
  remove_dups (omap normalized packages) ≫= lookup_vulnerabilities s.
Proof.
  unfold FindVulnerabilitiesBatch, findVulnerabilitiesBatchChunk, lookup_vulnerabilities.
  rewrite <- !fmap_bind, <- !filter_bind. by rewrite batch_rows.
Qed.

(** *** Malicious packages *)

Definition lookup_malicious (s : LocalDB) (q : localPackageKey * string) : option (list Finding) :=
  checked_findings (rows_for mal_key (range_map (malicious_local s)).*2 q).

(** One lookup after the other; the first error is returned. *)
Fixpoint all_findings {A} (f : A -> option (list Finding)) (l : list A) : option (list Finding) :=
  match l with
  | [] => Some []
  | x :: rest => findings ← f x; others ← all_findings f rest; Some (findings ++ others)
  end.

(** The same error or the same findings, in any order. *)
Notation same_findings := (option_Forall2 (≡ₚ@{Finding})).

Lemma affected_findings_checked version rows :
  affected_findings version rows = checked_findings ((fun row => (row, version)) <$> rows).
Proof. induction rows as [|row rows IH]; [done|]. rewrite fmap_cons. cbn [affected_findings checked_findings]. by rewrite IH. Qed.

Lemma FindMalicious_lookup pkg q s :
  normalized pkg = Some q ->
  FindMalicious (pqEcosystem pkg) (pqName pkg) (pqVersion pkg) s = lookup_malicious s q.
Proof.
  unfold normalized. destruct (_ || _); intros [= <-]. unfold FindMalicious, lookup_malicious, rows_for.
  cbn [fst snd]. rewrite affected_findings_checked. do 2 f_equal.
  set (eco := TrimSpace (pqEcosystem pkg)). set (name := normalizePackageName eco _).
  apply list_filter_iff. intros row. unfold mal_key. split; [intros [-> ->]; done|by intros [= -> ->]].
Qed.

Lemma checked_findings_app l l' :
  checked_findings (l ++ l') = (f ← checked_findings l; f' ← checked_findings l'; Some (f ++ f')).
Proof.
  induction l as [|[row version] l IH]; cbn [app checked_findings mbind option_bind].
  { by destruct (checked_findings l'). }
  destruct (malicious_affects version row) as [[]|]; [|cbn [mbind option_bind]|done]; cbn [mbind option_bind];
    rewrite IH; destruct (checked_findings l); try done; cbn [mbind option_bind]; by destruct (checked_findings l').
Qed.

Lemma checked_findings_bind {A} (f : A -> list (MaliciousRow * string)) l :
  checked_findings (l ≫= f) = all_findings (fun x => checked_findings (f x)) l.
Proof. induction l as [|x l IH]; [done|]. rewrite bind_cons, checked_findings_app, IH. done. Qed.

Lemma same_findings_refl f : same_findings f f.
Proof. destruct f; by constructor. Qed.

Lemma checked_findings_perm l l' : l ≡ₚ l' -> same_findings (checked_findings l) (checked_findings l').
Proof.
  induction 1 as [|[row v] l l' H IH|[row v] [row' v'] l|l1 l2 l3 H1 IH1 H2 IH2].
  - apply same_findings_refl.
  - cbn [checked_findings]. destruct (malicious_affects v row) as [[]|]; [| |constructor];
      destruct IH; cbn [mbind option_bind]; constructor; [by f_equiv|done].
  - cbn [checked_findings].
    destruct (malicious_affects v row) as [[]|], (malicious_affects v' row') as [[]|], (checked_findings l);
      cbn [mbind option_bind]; constructor; try done. apply Permutation_swap.
  - destruct IH1 as [? ? Hp|]; inversion IH2 as [? ? Hq|]; subst; constructor. by etrans.
Qed.

Lemma batch_malicious packages s :
  same_findings (FindMaliciousBatch packages s)
    (all_findings (lookup_malicious s) (remove_dups (omap normalized packages))).
Proof.
  unfold FindMaliciousBatch.
  assert (forall chunks, chunk_findings chunks s = checked_findings (chunks ≫= chunk_rows mal_key (malicious_local s))) as ->.
  { induction chunks as [|c chunks IH]; [done|]. rewrite bind_cons, checked_findings_app, <- IH. done. }
  unfold lookup_malicious. rewrite <- checked_findings_bind. by apply checked_findings_perm, batch_rows.
Qed.

(** *** Reputation *)

Definition rep_key (row : ReputationRow) : localReputationPackageKey := (lrEcosystem row, lrName row, lrVersion row).

Definition versioned (pkg : Advisories.PackageQuery) : option localReputationPackageKey :=
  let ecosystem := TrimSpace (pqEcosystem pkg) in
  let name := normalizePackageName ecosystem (TrimSpace (pqName pkg)) in
  let version := TrimSpace (pqVersion pkg) in
  if bool_decide (ecosystem = "") || bool_decide (name = "") || bool_decide (version = "") then None
  else Some (ecosystem, name, version).

Definition lookup_reputation (s : LocalDB) (k : localReputationPackageKey) : list Finding :=
  reputation_finding <$> filter (fun row => rep_key row = k) (range_map (reputation_findings_local s)).*2.

Lemma queryReputationFindings_lookup pkg k s :
  versioned pkg = Some k ->
  queryReputationFindings (pqEcosystem pkg) (pqName pkg) (pqVersion pkg) s = lookup_reputation s k.
Proof.
  unfold versioned. destruct (_ || _) eqn:E; intros [= <-]. apply orb_false_iff in E as [_ Hv].
  apply bool_decide_eq_false in Hv. unfold queryReputationFindings, lookup_reputation. f_equal.
  apply list_filter_iff. intros row. unfold rep_key. split.
  - intros (-> & -> & [?| ->]); done.
  - intros [= -> -> ->]. auto.
Qed.

Lemma filter_elem_bind {A K} `{EqDecision K} (key_of : A -> K) (args : list K) rows :
  NoDup args ->
  filter (fun row => key_of row ∈ args) rows ≡ₚ args ≫= fun k => filter (fun row => key_of row = k) rows.
Proof.
  induction 1 as [|k args Hk Hargs IH].
  { cbn. induction rows as [|x rows IH]; [done|]. rewrite filter_cons_False; [done|]. apply not_elem_of_nil. }
  rewrite bind_cons, <- IH. clear IH. induction rows as [|x rows IH]; [done|]. rewrite !filter_cons.
  destruct (decide (key_of x = k)) as [<-|Hne].
  - rewrite decide_True by (by left). rewrite (decide_False (P := key_of x ∈ args)) by done. cbn [app]. by rewrite IH.
  - destruct (decide (key_of x ∈ args)).
    + rewrite decide_True by (by right). rewrite IH. apply Permutation_middle.
    + rewrite decide_False by (rewrite elem_of_cons; naive_solver). exact IH.
Qed.

(** The chunks ask for the distinct triples, in order. *)
Lemma reputation_chunks_spec packages maxKeys :
  let st := foldl (reputation_step maxKeys) ([], ∅) packages in
  NoDup (concat st.1) /\ (forall k, k ∈ concat st.1 <-> k ∈ omap versioned packages) /\
  (forall k, k ∈ st.2 <-> k ∈ omap versioned packages).
Proof.
  cbv zeta. induction packages as [|pkg packages IH] using rev_ind.
  { cbn. split; [constructor|]. split; intros k; set_solver. }
  rewrite foldl_app, omap_app. cbn [foldl]. destruct (foldl _ _ packages) as [builders seen].
  cbn [fst snd] in IH. destruct IH as (H1 & H2 & H3). unfold reputation_step. cbn [omap list_omap].
  unfold versioned at 2 4. destruct (_ || _); cbn [fst snd]; [split_and!; [done|intros k; rewrite H2|intros k; rewrite H3]; by rewrite app_nil_r|].
  set (key := (TrimSpace (pqEcosystem pkg), _, _)). case_bool_decide as Hseen; cbn [fst snd].
  { apply H3 in Hseen. split_and!; [done|intros k; rewrite H2|intros k; rewrite H3];
      rewrite elem_of_app, list_elem_of_singleton; split; [by left|intros [?| ->]; done|by left|intros [?| ->]; done]. }
  assert (exists l b, (match last builders with
    | None => builders ++ [[]]
    | Some b => if maxKeys <=? Z.of_nat (length b) then builders ++ [[]] else builders
    end) = l ++ [b] /\ concat builders = concat (l ++ [b])) as (l & b & -> & Hc).
  { assert (concat builders = concat (builders ++ [[]])) as Hnil by (rewrite concat_app; cbn; by rewrite app_nil_r).
    destruct (last builders) as [b|] eqn:Hl; [destruct (_ <=? _); [by eexists _, _|]|by eexists _, _].
    apply last_Some in Hl as [l ->]. by eexists _, _. }
  rewrite length_app, Nat.add_sub. rewrite alter_app_r_alt by lia. rewrite Nat.sub_diag. cbn [alter list_alter].
  rewrite Hc, concat_app in H1, H2. cbn in H1, H2. rewrite app_nil_r in H1, H2.
  rewrite concat_app. cbn. rewrite app_nil_r, app_assoc. split_and!.
  - apply NoDup_app. split_and!; [done| |apply NoDup_singleton]. intros k Hk ->%list_elem_of_singleton.
    apply Hseen, H3, H2, Hk.
  - intros k. rewrite !(elem_of_app _ [key]), H2. done.
  - intros k. rewrite elem_of_union, elem_of_singleton, H3, elem_of_app, list_elem_of_singleton. tauto.
Qed.

Lemma batch_reputation packages s :
  FindReputationFindingsBatch packages "reversinglabs" s ≡ₚ
  remove_dups (omap versioned packages) ≫= lookup_reputation s.
Proof.
  unfold FindReputationFindingsBatch, localReputationPackagePredicateChunks. cbn [other_source].
  destruct (reputation_chunks_spec packages localReputationPredicateChunkSize) as (H1 & H2 & _).
  cbn [Z.leb]. change (localReputationPredicateChunkSize <=? 0) with false. cbv iota.
  set (bs := (foldl (reputation_step localReputationPredicateChunkSize) ([], ∅) packages).1) in *. clearbody bs.
  assert (concat bs ≡ₚ remove_dups (omap versioned packages)) as Hq.
  { apply NoDup_Permutation; [done|apply NoDup_remove_dups|]. intros k. by rewrite elem_of_remove_dups. }
  rewrite <- (bind_perm_list _ _ _ Hq). clear Hq H2. change (other_source "reversinglabs") with false. cbv iota.
  induction bs as [|args bs IH]; [done|]. cbn [concat] in H1 |- *. apply NoDup_app in H1 as (Hargs & _ & Hbs).
  rewrite bind_app, <- IH by done. rewrite filter_cons. destruct (decide (args <> [])) as [|E].
  - rewrite bind_cons. f_equiv. unfold findReputationFindingsBatch, lookup_reputation.
    rewrite <- fmap_bind. f_equiv. by apply (filter_elem_bind rep_key).
  - apply dec_stable in E as ->. done.
Qed.

End batch.
