(* ===== verification/LocalSync.v ===== *)
(** The sync client: how a page is applied (internal/db/sqlite/sync.go).

    A page is applied in one transaction.  A page whose advisories are complete
    also drops the local rows of these advisories it did not deliver; an
    advisory split over several pages is replaced when all its pages arrived.
    When the server stops serving reputation, the rows are dropped and a marker
    is set, so that they are fetched again later. *)
From stdpp Require Import base list option strings gmap sorting.
From Stdlib Require Import Ascii ZArith Lia.
From S2P Require Import Prelude GoStrings AsciiText PackageId Json VersionCompare VersionRanges Collections.
From S2P Require Import JsonEncode Base64 Domain GoTime Lifecycle Advisories SyncCursor SyncRows Dates TimeParse.
From S2P Require Import SyncPages SyncContract LocalStore.

Definition syncMetaKeyLastSync : string := "last_sync_at".
Definition syncMetaKeyLastSyncXID : string := "last_sync_xid".
Definition syncMetaKeyFeedStatus : string := "feed_status".
Definition syncMetaKeyFeedVersions : string := "feed_versions".
Definition syncMetaKeyReputationResync : string := "reputation_resync_required".

Definition syncPageLimit : Z := MaxLimit.
Definition maxSyncFutureSkew : Duration := 5 * Minute.
Definition syncMax429Retries : nat := 5.

(** ** Configuration and statistics *)

Record SyncConfig := mk_config {
  cfgServerURL : string;
  cfgAPIKey : string;
  cfgEcosystems : list string;
  cfgFull : bool;
  cfgTimeout : Duration;
  cfgCACertFile : string;
  cfgAllowInsecureHTTP : bool
}.

Record SyncRemovalStats := mk_removal {
  remVulnerabilities : Z;
  remMalicious : Z;
  remReputation : Z;
  remLifecycle : Z
}.

Definition no_removal : SyncRemovalStats := mk_removal 0 0 0 0.

Record SyncStats := mk_stats {
  FullCleared : SyncRemovalStats;
  TombstoneDeleted : SyncRemovalStats;
  StatReputationDisabled : SyncRemovalStats;
  AffectedReplaced : SyncRemovalStats
}.

Definition no_stats : SyncStats := mk_stats no_removal no_removal no_removal no_removal.

(** [SyncRemovalStats.Any] and [SyncStats.AnyRemoved] *)
Definition Any (s : SyncRemovalStats) : bool :=
  (0 <? remVulnerabilities s) || (0 <? remMalicious s) || (0 <? remReputation s) || (0 <? remLifecycle s).

Definition AnyRemoved (s : SyncStats) : bool :=
  Any (FullCleared s) || Any (TombstoneDeleted s) || Any (StatReputationDisabled s).

Definition add_removal (a b : SyncRemovalStats) : SyncRemovalStats :=
  mk_removal (remVulnerabilities a + remVulnerabilities b) (remMalicious a + remMalicious b)
    (remReputation a + remReputation b) (remLifecycle a + remLifecycle b).

(** Of the last two groups only the field in use is added. *)
Definition addSyncStats (dst src : SyncStats) : SyncStats :=
  mk_stats (add_removal (FullCleared dst) (FullCleared src)) (add_removal (TombstoneDeleted dst) (TombstoneDeleted src))
    (mk_removal (remVulnerabilities (StatReputationDisabled dst)) (remMalicious (StatReputationDisabled dst))
       (remReputation (StatReputationDisabled dst) + remReputation (StatReputationDisabled src))
       (remLifecycle (StatReputationDisabled dst)))
    (mk_removal (remVulnerabilities (AffectedReplaced dst) + remVulnerabilities (AffectedReplaced src))
       (remMalicious (AffectedReplaced dst)) (remReputation (AffectedReplaced dst)) (remLifecycle (AffectedReplaced dst))).

Record syncCursorState := mk_cursor_state { csSince : string; csSinceXID : string }.

Record syncPass := mk_pass {
  cursorState : syncCursorState;
  initialCursor : SyncCursor;
  passFull : bool;
  passClearReputation : bool;
  storeFreshness : bool;
  completesReputation : bool
}.

(** The feed state collected from the pages. *)
Record syncFeedState := mk_feed_state { fsStatus : string; fsVersions : option (gmap string string) }.

Record syncApplyMetadata := mk_metadata {
  LastSyncAt : string;
  LastSyncXID : string;
  FeedState : option syncFeedState;
  ClearReputationResync : bool
}.

Definition no_metadata : syncApplyMetadata := mk_metadata "" "" None false.

(** The rows delivered per advisory, by row key; an empty scope covers every
    ecosystem. *)
Record syncAffectedReplacement := mk_replacement {
  ecosystems : gset string;
  received : gmap string (gset string)
}.

Record syncPageApply := mk_apply {
  applyFull : bool;
  applyClearReputation : bool;
  clearReputationEcosystems : list string;
  replaceAffected : option syncAffectedReplacement;
  metadata : syncApplyMetadata
}.

Record syncSplitAdvisory := mk_split {
  splitId : string;
  splitPages : Z;
  splitReceived : gset string;
  unusable : bool
}.

#[export] Instance sync_vulnerability_eq_dec : EqDecision SyncVulnerability.
Proof. solve_decision. Defined.

Section client.
Context {U : UnicodeCase} {MO : MapOrder}.

Definition syncVulnerabilityRowKey (id ecosystem name : string) : string := id +:+ "|" +:+ ecosystem +:+ "|" +:+ name.

Definition row_key (v : SyncVulnerability) : string :=
  syncVulnerabilityRowKey (vulnID v) (vulnEcosystem v) (normalizePackageName (vulnEcosystem v) (vulnName v)).

Definition syncFindingSource (source0 : string) : string :=
  let source := TrimSpace source0 in if bool_decide (source = "") then "local" else source.

Definition boolInt (value : bool) : Z := if value then 1 else 0.

Definition nullableBoolInt (value : option bool) : option Z := boolInt <$> value.

(** [None] is an error, [Some None] the NULL value. *)
Definition syncDateValue (value : option string) : option (option string) :=
  match value with
  | None => Some None
  | Some v =>
      let raw := TrimSpace v in
      if bool_decide (raw = "") then Some None
      else match ParseDateOnly raw with
           | Some t => Some (Some (DateOnly t))
           | None => match ParseRFC3339Nano raw with
                     | Some t => Some (Some (DateOnly t))
                     | None => None
                     end
           end
  end.

(** ** What a page replaces *)

Definition syncReplacementScope (ecosystems : list string) : gset string :=
  list_to_set ((fun e => ToLower (TrimSpace e)) <$> ecosystems).

Definition withdrawn_ids (rows : list SyncVulnerability) : gset string :=
  list_to_set (vulnID <$> filter (fun v => vulnWithdrawn v = true) rows).

(** The rows of the page, by advisory. *)
Definition receive (withdrawn : gset string) (received : gmap string (gset string)) (v : SyncVulnerability)
    : gmap string (gset string) :=
  if bool_decide (vulnID v ∈ withdrawn) then received
  else <[vulnID v := {[row_key v]} ∪ default ∅ (received !! vulnID v)]> received.

(** An advisory without affected packages is replaced by nothing. *)
Definition receive_empty (withdrawn : gset string) (received : gmap string (gset string)) (id0 : string)
    : gmap string (gset string) :=
  let id := TrimSpace id0 in
  if bool_decide (id = "") then received
  else match received !! id with
       | Some _ => received
       | None => if bool_decide (id ∈ withdrawn) then received else <[id := ∅]> received
       end.

(** Replacing rows is only allowed in a delta with a since window. *)
Definition delta_pass (pass : syncPass) : bool :=
  negb (passFull pass) && negb (bool_decide (csSince (cursorState pass) = "")).

Definition newSyncAffectedReplacement (pass : syncPass) (resp : Response) (ecosystems : list string)
    : option syncAffectedReplacement :=
  if negb (delta_pass pass) || negb (VulnerabilityAffectedComplete resp) then None
  else
    let withdrawn := withdrawn_ids (respVulnerabilities resp) in
    let received := foldl (receive withdrawn) ∅ (respVulnerabilities resp) in
    let received := foldl (receive_empty withdrawn) received (VulnerabilitiesWithoutAffected resp) in
    if bool_decide (received = ∅) then None
    else Some (mk_replacement (syncReplacementScope ecosystems) received).

Definition mergeSyncAffectedReplacements (a b : option syncAffectedReplacement) : option syncAffectedReplacement :=
  match a, b with
  | None, _ => b
  | _, None => a
  | Some a, Some b =>
      Some (mk_replacement (ecosystems a)
              (foldl (fun m '(id, keys) => <[id := keys ∪ default ∅ (m !! id)]> m) (received a) (range_map (received b))))
  end.

(** One row of a page of the split. *)
Definition split_row (id : string) (split : syncSplitAdvisory) (v : SyncVulnerability) : syncSplitAdvisory :=
  if negb (bool_decide (vulnID v = id)) || vulnWithdrawn v
  then mk_split (splitId split) (splitPages split) (splitReceived split) true
  else mk_split (splitId split) (splitPages split) ({[row_key v]} ∪ splitReceived split) (unusable split).

Definition nextSyncSplitAdvisory (prev : option syncSplitAdvisory) (pass : syncPass) (requested : SyncCursor)
    (resp : Response) : option syncSplitAdvisory :=
  let id := TrimSpace (VulnerabilitySplitAdvisory resp) in
  if negb (delta_pass pass) || bool_decide (id = "") then None
  else
    let fresh := mk_split id 0 ∅ (negb (VulnerabilitySplitStart resp) ||
                                  IsAdvisoryRowCursor (VulnerabilitiesCursor requested)) in
    let split := match prev with
                 | Some p =>
                     if bool_decide (splitId p = id)
                     then if VulnerabilitySplitStart resp
                          then mk_split (splitId p) (splitPages p) (splitReceived p) true else p
                     else fresh
                 | None => fresh
                 end in
    let split := mk_split (splitId split) (splitPages split + 1) (splitReceived split) (unusable split) in
    Some (foldl (split_row id) split (respVulnerabilities resp)).

(** [syncSplitAdvisory.replacement] *)
Definition replacement (split : option syncSplitAdvisory) (resp : Response) (ecosystems : list string)
    : option syncAffectedReplacement :=
  match split with
  | None => None
  | Some s =>
      if unusable s || (splitPages s <? 2) || negb (VulnerabilitySplitComplete resp) then None
      else Some (mk_replacement (syncReplacementScope ecosystems) {[splitId s := splitReceived s]})
  end.

Definition inScope (r : syncAffectedReplacement) (ecosystem : string) : bool :=
  bool_decide (ecosystems r = ∅) || bool_decide (ecosystem ∈ ecosystems r).

(** ** Applying a page

    Each function changes the database and returns the number of rows deleted;
    [None] is an error, which rolls the page's transaction back. *)

(** DELETE FROM table WHERE P: the rows that stay, and how many went. *)
Definition delete_where {Row} (P : string -> Row -> bool) (table : gmap string Row) : Z * gmap string Row :=
  let kept := filter (fun kv => P kv.1 kv.2 = false) table in
  (Z.of_nat (size table) - Z.of_nat (size kept), kept).

Definition clearSyncReputation (ecosystems : list string) (s : LocalDB) : Z * LocalDB :=
  match ecosystems with
  | [] => (Z.of_nat (size (reputation_findings_local s)), set_reputation ∅ s)
  | _ =>
      foldl (fun '(cleared, s) ecosystem =>
               let '(n, t) := delete_where (fun _ r => bool_decide (lrEcosystem r = ToLower (TrimSpace ecosystem)))
                                (reputation_findings_local s) in
               (cleared + n, set_reputation t s)) (0, s) ecosystems
  end.

Definition clearSyncTables (s : LocalDB) : SyncRemovalStats * LocalDB :=
  let '(cleared, s') := clearSyncReputation [] s in
  (mk_removal (Z.of_nat (size (vulnerabilities_local s))) (Z.of_nat (size (malicious_local s))) cleared
     (Z.of_nat (size (lifecycle_releases_local s))),
   set_lifecycle ∅ (set_malicious_local ∅ (set_vulnerabilities ∅ s'))).

Definition vulnerability_row (v : SyncVulnerability) : VulnerabilityRow :=
  mk_vuln_row (vulnID v) (vulnEcosystem v) (normalizePackageName (vulnEcosystem v) (vulnName v))
    (Some (vulnVersionRanges v)) (Some (VersionsAffected v)) (Some (References v)) (vulnSeverity v)
    (CVSSScore v) (EPSSScore v) (EPSSPercentile v) (if CISAKEV v then 1 else 0) (Some (vulnSummary v))
    (syncFindingSource (vulnSource v)).

Fixpoint applySyncVulnerabilities (vulnerabilities : list SyncVulnerability) (deleted : Z) (s : LocalDB)
    : option (Z * LocalDB) :=
  match vulnerabilities with
  | [] => Some (deleted, s)
  | v :: rest =>
      if vulnWithdrawn v then
        let '(n, t) := delete_where (fun _ r => bool_decide (lvID r = vulnID v)) (vulnerabilities_local s) in
        applySyncVulnerabilities rest (deleted + n) (set_vulnerabilities t s)
      else if negb (validateLocalVersionRanges (vulnVersionRanges v) false) then None
      else if negb (validateLocalStringArray (VersionsAffected v) false) then None
      else applySyncVulnerabilities rest deleted
             (set_vulnerabilities (<[row_key v := vulnerability_row v]> (vulnerabilities_local s)) s)
  end.

Definition staleSyncAffectedRowKeys (id : string) (r : syncAffectedReplacement) (s : LocalDB) : list string :=
  (filter (fun kv => lvID kv.2 = id /\ kv.1 ∉ default ∅ (received r !! id) /\ inScope r (lvEcosystem kv.2) = true)
     (range_map (vulnerabilities_local s))).*1.

(** DELETE FROM vulnerabilities_local WHERE row_key = ? *)
Definition delete_row (acc : Z * LocalDB) (rowKey : string) : Z * LocalDB :=
  let '(deleted, s) := acc in
  match vulnerabilities_local s !! rowKey with
  | Some _ => (deleted + 1, set_vulnerabilities (delete rowKey (vulnerabilities_local s)) s)
  | None => (deleted, s)
  end.

Definition replace_advisory (r : syncAffectedReplacement) (acc : Z * LocalDB) (id : string) : Z * LocalDB :=
  foldl delete_row acc (staleSyncAffectedRowKeys id r acc.2).

Definition replaceSyncAffectedPackages (r : syncAffectedReplacement) (s : LocalDB) : Z * LocalDB :=
  foldl (replace_advisory r) (0, s) (sort_by str_cmp (range_map (received r)).*1).

(** An empty constraint is stored as NULL. *)
Definition null_if_empty (value : string) : option string := if bool_decide (value = "") then None else Some value.

Definition malicious_row (m : SyncMalicious) : MaliciousRow :=
  mk_mal_row (malID m) (malEcosystem m) (normalizePackageName (malEcosystem m) (malName m))
    (null_if_empty (malVersionRanges m)) (null_if_empty (Versions m)) (Some (ReferenceURLs m)) (malRiskType m)
    (malSeverity m) (Some (malSummary m)) (syncFindingSource (malSource m)).

(** DELETE FROM table WHERE id = ?, where the identifier is the primary key. *)
Definition delete_id {Row} (id : string) (table : gmap string Row) : Z * gmap string Row :=
  (match table !! id with Some _ => 1 | None => 0 end, delete id table).

Fixpoint applySyncMalicious (malicious : list SyncMalicious) (deleted : Z) (s : LocalDB) : option (Z * LocalDB) :=
  match malicious with
  | [] => Some (deleted, s)
  | m :: rest =>
      if malWithdrawn m then
        let '(n, t) := delete_id (malID m) (malicious_local s) in
        applySyncMalicious rest (deleted + n) (set_malicious_local t s)
      else if negb (validateLocalVersionRanges (malVersionRanges m) true) then None
      else if negb (validateLocalMaliciousVersions (Versions m)) then None
      else applySyncMalicious rest deleted
             (set_malicious_local (<[malID m := malicious_row m]> (malicious_local s)) s)
  end.

Definition reputation_row (r : SyncReputationFinding) : ReputationRow :=
  let severity := NormalizeFindingSeverity
    (mk_finding "" "" "" (repType r) (repSeverity r) "" "" "" [] "" (repRiskType r) "" []) in
  mk_rep_row (repID r) (repEcosystem r) (normalizePackageName (repEcosystem r) (repName r)) (repVersion r)
    (repType r) (repRiskType r) severity (Some (repSummary r)).

Fixpoint applySyncReputation (reputation : list SyncReputationFinding) (deleted : Z) (s : LocalDB) : Z * LocalDB :=
  match reputation with
  | [] => (deleted, s)
  | r :: rest =>
      if repWithdrawn r then
        let '(n, t) := delete_id (repID r) (reputation_findings_local s) in
        applySyncReputation rest (deleted + n) (set_reputation t s)
      else applySyncReputation rest deleted
             (set_reputation (<[repID r := reputation_row r]> (reputation_findings_local s)) s)
  end.

(** The row of a release; [None] when one of its dates cannot be read. *)
Definition lifecycle_row (l : LifecycleRow) : option LifecycleReleaseRow :=
  releaseDate ← syncDateValue (wReleaseDate l);
  ltsFrom ← syncDateValue (wLTSFrom l);
  eoasFrom ← syncDateValue (wEOASFrom l);
  eolFrom ← syncDateValue (wEOLFrom l);
  discontinuedFrom ← syncDateValue (wDiscontinuedFrom l);
  eoesFrom ← syncDateValue (wEOESFrom l);
  Some (mk_life_row (wID l) (wEcosystem l) (normalizePackageName (wEcosystem l) (wName l)) (wProductSlug l)
          (wProductLabel l) (wCycle l) (wLatest l) releaseDate (boolInt (wIsLTS l)) ltsFrom (boolInt (wIsEOAS l))
          eoasFrom (boolInt (wIsEOL l)) eolFrom (boolInt (wIsDiscontinued l)) discontinuedFrom
          (nullableBoolInt (wIsEOES l)) eoesFrom (boolInt (wIsMaintained l))).

Fixpoint applySyncLifecycle (lifecycleReleases : list LifecycleRow) (deleted : Z) (s : LocalDB)
    : option (Z * LocalDB) :=
  match lifecycleReleases with
  | [] => Some (deleted, s)
  | l :: rest =>
      if wWithdrawn l then
        let '(n, t) := delete_id (wID l) (lifecycle_releases_local s) in
        applySyncLifecycle rest (deleted + n) (set_lifecycle t s)
      else
        row ← lifecycle_row l;
        applySyncLifecycle rest deleted (set_lifecycle (<[wID l := row]> (lifecycle_releases_local s)) s)
  end.

(** *** Metadata *)

Definition setSyncMetaTx (key value : string) (s : LocalDB) : LocalDB := SetSyncMeta key value s.

(** The versions that are stored: trimmed, without blank ones. *)
Definition stored_versions (versions : gmap string string) : gmap string string :=
  foldl (fun m '(feedName, version) =>
           let feedName := TrimSpace feedName in
           let version := TrimSpace version in
           if bool_decide (feedName = "") || bool_decide (version = "") then m else <[feedName := version]> m)
    ∅ (range_map versions).

Definition storeSyncedFeedState (fs : syncFeedState) (s : LocalDB) : LocalDB :=
  let status := TrimSpace (fsStatus fs) in
  if bool_decide (status = "") && bool_decide (fsVersions fs = None) then s
  else
    let s := if bool_decide (status = "") then s else setSyncMetaTx syncMetaKeyFeedStatus status s in
    setSyncMetaTx syncMetaKeyFeedVersions (marshal_map (stored_versions (default ∅ (fsVersions fs)))) s.

Definition storeFreshSyncMetadata (m : syncApplyMetadata) (s : LocalDB) : LocalDB :=
  let s := if bool_decide (LastSyncAt m = "") then s else setSyncMetaTx syncMetaKeyLastSync (LastSyncAt m) s in
  let s := if bool_decide (LastSyncXID m = "") then s else setSyncMetaTx syncMetaKeyLastSyncXID (LastSyncXID m) s in
  let s := match FeedState m with Some fs => storeSyncedFeedState fs s | None => s end in
  if ClearReputationResync m then set_meta (delete syncMetaKeyReputationResync (sync_meta s)) s else s.

(** *** The page *)

Definition applySyncPage (resp : Response) (page : syncPageApply) (s : LocalDB) : option (SyncStats * LocalDB) :=
  let '(cleared, s) := if applyFull page then clearSyncTables s else (no_removal, s) in
  let '(rep, s) := if applyClearReputation page then clearSyncReputation (clearReputationEcosystems page) s else (0, s) in
  '(vulns, s) ← applySyncVulnerabilities (respVulnerabilities resp) 0 s;
  let '(replaced, s) := match replaceAffected page with
                        | Some r => replaceSyncAffectedPackages r s
                        | None => (0, s)
                        end in
  '(mals, s) ← applySyncMalicious (respMalicious resp) 0 s;
  let '(disabled, reps, s) :=
    if ReputationDisabled resp
    then let '(n, s) := clearSyncReputation [] s in (n, 0, setSyncMetaTx syncMetaKeyReputationResync "true" s)
    else let '(n, s) := applySyncReputation (respReputation resp) 0 s in (0, n, s) in
  '(lifes, s) ← applySyncLifecycle (respLifecycle resp) 0 s;
  let s := storeFreshSyncMetadata (metadata page) s in
  Some (mk_stats (mk_removal (remVulnerabilities cleared) (remMalicious cleared) (remReputation cleared + rep)
                    (remLifecycle cleared))
          (mk_removal vulns mals reps lifes) (mk_removal 0 0 disabled 0) (mk_removal replaced 0 0 0), s).

(** ** What a step leaves alone *)

Lemma set_vulnerabilities_id s : set_vulnerabilities (vulnerabilities_local s) s = s.
Proof. by destruct s. Qed.
Lemma set_malicious_local_id s : set_malicious_local (malicious_local s) s = s.
Proof. by destruct s. Qed.
Lemma set_reputation_id s : set_reputation (reputation_findings_local s) s = s.
Proof. by destruct s. Qed.
Lemma set_lifecycle_id s : set_lifecycle (lifecycle_releases_local s) s = s.
Proof. by destruct s. Qed.

(** Removing and storing the rows of a page, by identifier. *)
Definition apply_rows {Wire Row} (id_of : Wire -> string) (gone : Wire -> bool) (row_of : Wire -> Row)
    (table : gmap string Row) (rows : list Wire) : gmap string Row :=
  foldl (fun t w => if gone w then delete (id_of w) t else <[id_of w := row_of w]> t) table rows.

Lemma apply_rows_lookup {Wire Row} (id_of : Wire -> string) gone (row_of : Wire -> Row) table rows id :
  NoDup (id_of <$> rows) ->
  apply_rows id_of gone row_of table rows !! id =
  match List.find (fun w => bool_decide (id_of w = id)) rows with
  | Some w => if gone w then None else Some (row_of w)
  | None => table !! id
  end.
Proof.
  unfold apply_rows. revert table. induction rows as [|w rows IH]; intros table Hn; [done|]. cbn [foldl List.find].
  rewrite fmap_cons, NoDup_cons in Hn. destruct Hn as [Hw Hn]. rewrite IH by done.
  case_bool_decide as E.
  - subst id. assert (List.find (fun w' => bool_decide (id_of w' = id_of w)) rows = None) as ->.
    { clear -Hw. induction rows as [|x rows IH]; [done|].
      cbn [List.find]. rewrite fmap_cons, not_elem_of_cons in Hw. rewrite bool_decide_false by (intros E; apply (proj1 Hw); done).
      apply IH, Hw. }
    destruct (gone w); [apply lookup_delete_eq|apply lookup_insert_eq].
  - destruct (List.find _ rows); [done|]. destruct (gone w); [by apply lookup_delete_ne|by apply lookup_insert_ne].
Qed.

(** A malicious row the client accepts. *)
Definition malicious_ok (m : SyncMalicious) : bool :=
  malWithdrawn m || validateLocalVersionRanges (malVersionRanges m) true && validateLocalMaliciousVersions (Versions m).

Lemma applySyncMalicious_spec rows d s :
  if forallb malicious_ok rows
  then exists d', applySyncMalicious rows d s =
         Some (d', set_malicious_local (apply_rows malID malWithdrawn malicious_row (malicious_local s) rows) s)
  else applySyncMalicious rows d s = None.
Proof.
  revert d s. induction rows as [|m rows IH]; intros d s.
  { exists d. cbn. by rewrite set_malicious_local_id. }
  cbn [forallb applySyncMalicious]. unfold malicious_ok at 1. destruct (malWithdrawn m) eqn:Hw; cbn [orb andb].
  - unfold delete_id. cbn [fst snd]. set (s' := set_malicious_local _ s). set (d0 := d + _).
    specialize (IH d0 s'). destruct (forallb malicious_ok rows); [|exact IH]. destruct IH as [d' ->]. exists d'.
    unfold apply_rows. cbn [foldl]. by rewrite Hw.
  - destruct (validateLocalVersionRanges (malVersionRanges m) true); cbn [andb negb]; [|done].
    destruct (validateLocalMaliciousVersions (Versions m)); cbn [andb negb]; [|done].
    specialize (IH d (set_malicious_local (<[malID m := malicious_row m]> (malicious_local s)) s)).
    destruct (forallb malicious_ok rows); [|exact IH]. destruct IH as [d' ->]. exists d'.
    unfold apply_rows. cbn [foldl]. by rewrite Hw.
Qed.

Lemma applySyncReputation_spec rows d s :
  exists d', applySyncReputation rows d s =
    (d', set_reputation (apply_rows repID repWithdrawn reputation_row (reputation_findings_local s) rows) s).
Proof.
  revert d s. induction rows as [|r rows IH]; intros d s.
  { exists d. cbn. by rewrite set_reputation_id. }
  cbn [applySyncReputation]. unfold apply_rows. cbn [foldl]. destruct (repWithdrawn r).
  - unfold delete_id. destruct (IH (d + match reputation_findings_local s !! repID r with Some _ => 1 | None => 0 end)
      (set_reputation (delete (repID r) (reputation_findings_local s)) s)) as [d' ->]. by exists d'.
  - destruct (IH d (set_reputation (<[repID r := reputation_row r]> (reputation_findings_local s)) s)) as [d' ->].
    by exists d'.
Qed.

(** A lifecycle row the client accepts, and what it does. *)
Definition lifecycle_ok (l : LifecycleRow) : bool := wWithdrawn l || bool_decide (is_Some (lifecycle_row l)).

Definition life_step (t : gmap string LifecycleReleaseRow) (l : LifecycleRow) : gmap string LifecycleReleaseRow :=
  if wWithdrawn l then delete (wID l) t
  else match lifecycle_row l with Some row => <[wID l := row]> t | None => t end.

Lemma applySyncLifecycle_spec rows d s :
  if forallb lifecycle_ok rows
  then exists d', applySyncLifecycle rows d s =
         Some (d', set_lifecycle (foldl life_step (lifecycle_releases_local s) rows) s)
  else applySyncLifecycle rows d s = None.
Proof.
  revert d s. induction rows as [|l rows IH]; intros d s.
  { exists d. cbn. by rewrite set_lifecycle_id. }
  cbn [forallb applySyncLifecycle foldl]. unfold lifecycle_ok at 1, life_step at 2.
  destruct (wWithdrawn l); cbn [orb andb].
  - unfold delete_id. cbn [fst snd]. set (d0 := d + _).
    specialize (IH d0 (set_lifecycle (delete (wID l) (lifecycle_releases_local s)) s)).
    destruct (forallb lifecycle_ok rows); [|exact IH]. destruct IH as [d' ->]. by exists d'.
  - destruct (lifecycle_row l) as [row|]; cbn [mbind option_bind].
    + rewrite bool_decide_true by done. cbn [andb].
      specialize (IH d (set_lifecycle (<[wID l := row]> (lifecycle_releases_local s)) s)).
      destruct (forallb lifecycle_ok rows); [|exact IH]. destruct IH as [d' ->]. by exists d'.
    + by rewrite bool_decide_false by (by intros [? ?]).
Qed.

(** ** Replacing the rows of an advisory *)

Definition stale_row (r : syncAffectedReplacement) (id : string) (kv : string * VulnerabilityRow) : Prop :=
  lvID kv.2 = id /\ kv.1 ∉ default ∅ (received r !! id) /\ inScope r (lvEcosystem kv.2) = true.

Lemma delete_rows d s keys :
  NoDup keys -> (forall k, k ∈ keys -> is_Some (vulnerabilities_local s !! k)) ->
  foldl delete_row (d, s) keys =
  (d + Z.of_nat (length keys),
   set_vulnerabilities (filter (fun kv => kv.1 ∉ keys) (vulnerabilities_local s)) s).
Proof.
  revert d s. induction keys as [|k keys IH]; intros d s Hn Hin; cbn [foldl length].
  - f_equal; [lia|]. rewrite map_filter_id; [by rewrite set_vulnerabilities_id|]. intros k x _. apply not_elem_of_nil.
  - rewrite NoDup_cons in Hn. destruct Hn as [Hk Hn]. unfold delete_row at 2.
    destruct (Hin k ltac:(by left)) as [row Hrow]. rewrite Hrow.
    rewrite IH; [|done|]; cbn [vulnerabilities_local set_vulnerabilities].
    + f_equal; [lia|]. unfold set_vulnerabilities. cbn. f_equal. apply map_eq. intros k'. apply option_eq. intros x.
      rewrite !map_lookup_filter_Some, lookup_delete_Some. cbn [fst]. rewrite not_elem_of_cons. naive_solver.
    + intros k' Hk'. rewrite lookup_delete_ne; [|by intros <-]. apply Hin. by right.
Qed.

Lemma elem_stale id r s k :
  k ∈ staleSyncAffectedRowKeys id r s <->
  exists row, vulnerabilities_local s !! k = Some row /\ stale_row r id (k, row).
Proof.
  unfold staleSyncAffectedRowKeys. rewrite list_elem_of_fmap. split.
  - intros ([k' row] & -> & [Hp Hin]%list_elem_of_filter). exists row. by apply range_map_elem in Hin.
  - intros (row & Hrow & Hst). exists (k, row). split; [done|]. apply list_elem_of_filter.
    split; [exact Hst|]. by apply range_map_elem.
Qed.

Lemma NoDup_filter_fst {A} (P : string * A -> Prop) `{!forall x, Decision (P x)} (l : list (string * A)) :
  NoDup l.*1 -> NoDup (filter P l).*1.
Proof.
  induction l as [|x l IH]; [done|]. rewrite fmap_cons, NoDup_cons, filter_cons. intros [Hx Hl].
  destruct (decide (P x)); [|by apply IH]. rewrite fmap_cons, NoDup_cons. split; [|by apply IH].
  intros (y & Hy & [_ Hin]%list_elem_of_filter)%list_elem_of_fmap. apply Hx. rewrite Hy. by apply list_elem_of_fmap_2.
Qed.

Lemma replace_advisory_spec r d s id :
  exists d', replace_advisory r (d, s) id =
    (d', set_vulnerabilities (filter (fun kv => ~ stale_row r id kv) (vulnerabilities_local s)) s).
Proof.
  eexists. unfold replace_advisory. cbn [snd]. rewrite delete_rows.
  - f_equal. unfold set_vulnerabilities. f_equal. apply map_filter_ext. intros k row Hrow. cbn [fst].
    rewrite elem_stale. split; [naive_solver|]. intros Hns (row' & Hrow' & Hst). congruence.
  - apply NoDup_filter_fst, range_map_keys_NoDup.
  - intros k (row & Hrow & _)%elem_stale. eauto.
Qed.

(** Exactly the rows of a replaced advisory that were not received and are in
    scope go; nothing else of the database changes. *)
Lemma replaceSyncAffectedPackages_spec r s :
  exists d, replaceSyncAffectedPackages r s =
    (d, set_vulnerabilities
          (filter (fun kv => ~ (lvID kv.2 ∈ dom (received r) /\ stale_row r (lvID kv.2) kv)) (vulnerabilities_local s)) s).
Proof.
  unfold replaceSyncAffectedPackages.
  assert (forall ids d s0, exists d', foldl (replace_advisory r) (d, s0) ids =
    (d', set_vulnerabilities (filter (fun kv => ~ (lvID kv.2 ∈ ids /\ stale_row r (lvID kv.2) kv)) (vulnerabilities_local s0)) s0)) as H.
  { induction ids as [|id ids IH]; intros d s0; cbn [foldl].
    - exists d. f_equal. rewrite map_filter_id; [by rewrite set_vulnerabilities_id|].
      intros k row _ [Hin _]. by apply elem_of_nil in Hin.
    - destruct (replace_advisory_spec r d s0 id) as [d0 ->].
      destruct (IH d0 (set_vulnerabilities (filter (fun kv => ~ stale_row r id kv) (vulnerabilities_local s0)) s0)) as [d' ->].
      exists d'. unfold set_vulnerabilities. cbn. f_equal. f_equal. rewrite map_filter_filter. apply map_filter_ext.
      intros k row _. cbn [fst snd]. rewrite elem_of_cons. unfold stale_row. cbn [fst snd]. naive_solver. }
  destruct (H (sort_by str_cmp (range_map (received r)).*1) 0 s) as [d ->]. exists d. do 2 f_equal.
  apply map_filter_ext. intros k row _. cbn [snd].
  assert (lvID row ∈ sort_by str_cmp (range_map (received r)).*1 <-> lvID row ∈ dom (received r)) as ->; [|done].
  unfold sort_by. rewrite merge_sort_Permutation, list_elem_of_fmap, elem_of_dom. split.
  - intros ([id keys] & -> & Hin). apply range_map_elem in Hin. eauto.
  - intros [keys Hk]. exists (lvID row, keys). split; [done|]. by apply range_map_elem.
Qed.

(** ** The vulnerabilities of a page *)

Definition vuln_step (t : gmap string VulnerabilityRow) (v : SyncVulnerability) : gmap string VulnerabilityRow :=
  if vulnWithdrawn v then filter (fun kv => lvID kv.2 <> vulnID v) t else <[row_key v := vulnerability_row v]> t.

(** A vulnerability row the client accepts. *)
Definition vulnerability_ok (v : SyncVulnerability) : bool :=
  vulnWithdrawn v ||
  validateLocalVersionRanges (vulnVersionRanges v) false && validateLocalStringArray (VersionsAffected v) false.

Lemma applySyncVulnerabilities_spec rows d s :
  if forallb vulnerability_ok rows
  then exists d', applySyncVulnerabilities rows d s =
         Some (d', set_vulnerabilities (foldl vuln_step (vulnerabilities_local s) rows) s)
  else applySyncVulnerabilities rows d s = None.
Proof.
  revert d s. induction rows as [|v rows IH]; intros d s.
  { exists d. cbn. by rewrite set_vulnerabilities_id. }
  cbn [forallb applySyncVulnerabilities foldl]. unfold vulnerability_ok at 1, vuln_step at 2.
  destruct (vulnWithdrawn v); cbn [orb andb].
  - unfold delete_where. cbn [fst snd]. set (d0 := d + _).
    assert (filter (fun kv => bool_decide (lvID kv.2 = vulnID v) = false) (vulnerabilities_local s) =
            filter (fun kv => lvID kv.2 <> vulnID v) (vulnerabilities_local s)) as ->.
    { apply map_filter_ext. intros k row _. cbn [fst snd]. by rewrite bool_decide_eq_false. }
    set (t := filter _ _). specialize (IH d0 (set_vulnerabilities t s)).
    destruct (forallb vulnerability_ok rows); [|exact IH]. destruct IH as [d' ->]. by exists d'.
  - destruct (validateLocalVersionRanges _ _); cbn [negb andb]; [|done].
    destruct (validateLocalStringArray _ _); cbn [negb andb]; [|done].
    specialize (IH d (set_vulnerabilities (<[row_key v := vulnerability_row v]> (vulnerabilities_local s)) s)).
    destruct (forallb vulnerability_ok rows); [|exact IH]. destruct IH as [d' ->]. by exists d'.
Qed.

Lemma elem_withdrawn id rows : id ∈ withdrawn_ids rows <-> exists v, v ∈ rows /\ vulnWithdrawn v = true /\ vulnID v = id.
Proof.
  unfold withdrawn_ids. rewrite elem_of_list_to_set, list_elem_of_fmap. split.
  - intros (v & -> & [Hw Hv]%list_elem_of_filter). eauto.
  - intros (v & Hv & Hw & <-). exists v. split; [done|]. by apply list_elem_of_filter.
Qed.

(** Every row after the page was on it or was there before. *)
Lemma vuln_rows_from rows t k row :
  foldl vuln_step t rows !! k = Some row ->
  (exists v, v ∈ rows /\ vulnWithdrawn v = false /\ k = row_key v /\ row = vulnerability_row v) \/
  (t !! k = Some row /\ lvID row ∉ withdrawn_ids rows).
Proof.
  induction rows as [|v rows IH] using rev_ind.
  { intros H. right. split; [done|]. intros (v & Hv & _)%elem_withdrawn. by apply elem_of_nil in Hv. }
  rewrite foldl_app. cbn [foldl]. unfold vuln_step at 1. destruct (vulnWithdrawn v) eqn:Hw.
  - intros [Hrow Hid]%map_lookup_filter_Some. destruct (IH Hrow) as [(v' & Hv' & H)|[Ht Hnw]].
    + left. exists v'. split; [|done]. rewrite elem_of_app. by left.
    + right. split; [done|]. intros (v' & Hin & Hw' & E)%elem_withdrawn.
      rewrite elem_of_app, list_elem_of_singleton in Hin. destruct Hin as [Hin| ->]; [|by apply Hid].
      apply Hnw, elem_withdrawn. eauto.
  - intros [[<- <-]|[Hne Hrow]]%lookup_insert_Some.
    + left. exists v. split; [|done]. rewrite elem_of_app, list_elem_of_singleton. by right.
    + destruct (IH Hrow) as [(v' & Hv' & H)|[Ht Hnw]].
      * left. exists v'. split; [|done]. rewrite elem_of_app. by left.
      * right. split; [done|]. intros (v' & Hin & Hw' & E)%elem_withdrawn.
        rewrite elem_of_app, list_elem_of_singleton in Hin. destruct Hin as [Hin| ->]; [|congruence].
        apply Hnw, elem_withdrawn. eauto.
Qed.

(** A row of the page is stored, unless its advisory is withdrawn on the page;
    of rows with one key the last counts. *)
Lemma vuln_rows_stored rows t v :
  v ∈ rows -> vulnID v ∉ withdrawn_ids rows ->
  (forall w, w ∈ rows -> row_key w = row_key v -> w = v) ->
  foldl vuln_step t rows !! row_key v = Some (vulnerability_row v).
Proof.
  induction rows as [|w rows IH] using rev_ind; [by intros ?%elem_of_nil|]. intros Hv Hnw Hu.
  rewrite foldl_app. cbn [foldl]. unfold vuln_step at 1.
  assert (vulnWithdrawn v = false) as Hwv.
  { destruct (vulnWithdrawn v) eqn:E; [|done]. destruct Hnw. apply elem_withdrawn. eauto. }
  destruct (decide (w = v)) as [->|Hne]; [rewrite Hwv; apply lookup_insert_eq|].
  assert (foldl vuln_step t rows !! row_key v = Some (vulnerability_row v)) as Hrow.
  { apply IH.
    - rewrite elem_of_app, list_elem_of_singleton in Hv. destruct Hv as [?|E]; [done|]. by rewrite E in Hne.
    - intros (x & Hx & Hwx & E)%elem_withdrawn. apply Hnw, elem_withdrawn. exists x. rewrite elem_of_app. auto.
    - intros x Hx. apply Hu. rewrite elem_of_app. by left. }
  destruct (vulnWithdrawn w) eqn:Hww.
  - apply map_lookup_filter_Some. split; [done|]. cbn. intros E. apply Hnw, elem_withdrawn. exists w.
    rewrite elem_of_app, list_elem_of_singleton. auto.
  - rewrite lookup_insert_ne; [done|]. intros E. apply Hne, Hu; [|done].
    rewrite elem_of_app, list_elem_of_singleton. by right.
Qed.

(** A row of an advisory the page does not mention stays. *)
Lemma vuln_rows_kept rows t k row :
  t !! k = Some row -> lvID row ∉ withdrawn_ids rows -> (forall v, v ∈ rows -> row_key v <> k) ->
  foldl vuln_step t rows !! k = Some row.
Proof.
  induction rows as [|w rows IH] using rev_ind; [done|]. intros Ht Hnw Hk. rewrite foldl_app. cbn [foldl].
  unfold vuln_step at 1. assert (foldl vuln_step t rows !! k = Some row) as Hrow.
  { apply IH; [done| |].
    - intros (x & Hx & Hwx & E)%elem_withdrawn. apply Hnw, elem_withdrawn. exists x. rewrite elem_of_app. auto.
    - intros x Hx. apply Hk. rewrite elem_of_app. by left. }
  destruct (vulnWithdrawn w) eqn:Hww.
  - apply map_lookup_filter_Some. split; [done|]. cbn. intros E. apply Hnw, elem_withdrawn. exists w.
    rewrite elem_of_app, list_elem_of_singleton. auto.
  - rewrite lookup_insert_ne; [done|]. apply Hk. rewrite elem_of_app, list_elem_of_singleton. by right.
Qed.

(** ** What the replacement of a flagged page covers *)

Definition rows_with (id : string) (rows : list SyncVulnerability) : list SyncVulnerability :=
  filter (fun v => vulnID v = id) rows.

Lemma receive_lookup withdrawn rows m id :
  foldl (receive withdrawn) m rows !! id =
  if decide (id ∈ withdrawn) then m !! id
  else match rows_with id rows with
       | [] => m !! id
       | rs => Some (list_to_set (row_key <$> rs) ∪ default ∅ (m !! id))
       end.
Proof.
  revert m. induction rows as [|v rows IH]; intros m; [by destruct (decide _)|]. cbn [foldl]. rewrite IH.
  unfold rows_with. rewrite filter_cons. unfold receive. case_bool_decide as Hw.
  - destruct (decide (id ∈ withdrawn)); [done|]. rewrite decide_False by congruence. done.
  - destruct (decide (vulnID v = id)) as [<-|Hne].
    + rewrite !(decide_False (P := vulnID v ∈ withdrawn)) by done. rewrite lookup_insert_eq. cbn [default].
      destruct (filter _ rows) as [|v' rs]; f_equal; rewrite ?fmap_cons; cbn [fmap list_fmap list_to_set];
        apply set_eq; intros k; set_solver.
    + rewrite lookup_insert_ne by done. done.
Qed.

Lemma receive_empty_lookup withdrawn ids m id :
  foldl (receive_empty withdrawn) m ids !! id =
  match m !! id with
  | Some keys => Some keys
  | None => if decide (id ∉ withdrawn /\ id <> "" /\ id ∈ TrimSpace <$> ids) then Some ∅ else None
  end.
Proof.
  revert m. induction ids as [|x ids IH]; intros m; cbn [foldl].
  { destruct (m !! id); [done|]. rewrite decide_False; [done|]. intros (_ & _ & H). by apply elem_of_nil in H. }
  rewrite IH, fmap_cons. unfold receive_empty. case_bool_decide as Hb.
  - destruct (m !! id); [done|]. apply decide_ext. rewrite elem_of_cons. naive_solver.
  - destruct (m !! TrimSpace x) as [keys|] eqn:Hx.
    + destruct (m !! id) eqn:Hid; [done|]. apply decide_ext. rewrite elem_of_cons. naive_solver.
    + case_bool_decide as Hw.
      * destruct (m !! id); [done|]. apply decide_ext. rewrite elem_of_cons. naive_solver.
      * destruct (decide (TrimSpace x = id)) as [<-|Hne].
        -- rewrite lookup_insert_eq, Hx, decide_True; [done|]. rewrite elem_of_cons. auto.
        -- rewrite lookup_insert_ne by done. destruct (m !! id); [done|]. apply decide_ext. rewrite elem_of_cons. naive_solver.
Qed.

(** The advisories a flagged page replaces, and the keys received for them. *)
Lemma replacement_received pass resp ecos r id :
  newSyncAffectedReplacement pass resp ecos = Some r ->
  received r !! id =
  if decide (id ∈ withdrawn_ids (respVulnerabilities resp)) then None
  else match rows_with id (respVulnerabilities resp) with
       | [] => if decide (id <> "" /\ id ∈ TrimSpace <$> VulnerabilitiesWithoutAffected resp) then Some ∅ else None
       | rs => Some (list_to_set (row_key <$> rs))
       end.
Proof.
  unfold newSyncAffectedReplacement. destruct (_ || _); [done|]. case_bool_decide; [done|]. intros [= <-].
  cbn [received]. rewrite receive_empty_lookup, receive_lookup, lookup_empty.
  destruct (decide (id ∈ _)) as [Hw|Hw].
  - rewrite decide_False; [done|]. naive_solver.
  - destruct (rows_with id _) as [|v rs].
    + apply decide_ext. naive_solver.
    + f_equal. cbn [default]. set_solver.
Qed.

(** ** The effect of a page on each table *)

(** The metadata after [storeSyncedFeedState] and [storeFreshSyncMetadata]. *)
Definition feed_meta (fs : syncFeedState) (meta : gmap string string) : gmap string string :=
  let status := TrimSpace (fsStatus fs) in
  if bool_decide (status = "") && bool_decide (fsVersions fs = None) then meta
  else <[syncMetaKeyFeedVersions := marshal_map (stored_versions (default ∅ (fsVersions fs)))]>
         (if bool_decide (status = "") then meta else <[syncMetaKeyFeedStatus := status]> meta).

Definition fresh_meta (m : syncApplyMetadata) (meta : gmap string string) : gmap string string :=
  let meta := if bool_decide (LastSyncAt m = "") then meta else <[syncMetaKeyLastSync := LastSyncAt m]> meta in
  let meta := if bool_decide (LastSyncXID m = "") then meta else <[syncMetaKeyLastSyncXID := LastSyncXID m]> meta in
  let meta := match FeedState m with Some fs => feed_meta fs meta | None => meta end in
  if ClearReputationResync m then delete syncMetaKeyReputationResync meta else meta.

Lemma set_meta_id s : set_meta (sync_meta s) s = s.
Proof. by destruct s. Qed.

Lemma SetSyncMeta_set key value t s : SetSyncMeta key value (set_meta t s) = set_meta (<[key := value]> t) s.
Proof. reflexivity. Qed.

Lemma set_meta_if (b : bool) t t' s : (if b then set_meta t s else set_meta t' s) = set_meta (if b then t else t') s.
Proof. by destruct b. Qed.

Lemma storeSyncedFeedState_set fs t s : storeSyncedFeedState fs (set_meta t s) = set_meta (feed_meta fs t) s.
Proof.
  unfold storeSyncedFeedState, feed_meta, setSyncMetaTx. rewrite SetSyncMeta_set. destruct (_ && _); [reflexivity|].
  rewrite set_meta_if, SetSyncMeta_set. reflexivity.
Qed.

Lemma storeFreshSyncMetadata_meta m s : storeFreshSyncMetadata m s = set_meta (fresh_meta m (sync_meta s)) s.
Proof.
  rewrite <- (set_meta_id s) at 1. unfold storeFreshSyncMetadata, fresh_meta, setSyncMetaTx.
  rewrite SetSyncMeta_set, set_meta_if, SetSyncMeta_set, set_meta_if.
  destruct (FeedState m); rewrite ?storeSyncedFeedState_set; destruct (ClearReputationResync m); reflexivity.
Qed.

(** The reputation rows a scoped clearing leaves. *)
Definition cleared_reputation (ecosystems : list string) (t : gmap string ReputationRow) : gmap string ReputationRow :=
  filter (fun kv => ~ (ecosystems = [] \/ lrEcosystem kv.2 ∈ (fun e => ToLower (TrimSpace e)) <$> ecosystems)) t.

Lemma clearSyncReputation_spec ecosystems s :
  exists n, clearSyncReputation ecosystems s =
    (n, set_reputation (cleared_reputation ecosystems (reputation_findings_local s)) s).
Proof.
  unfold clearSyncReputation. destruct ecosystems as [|e ecosystems].
  { eexists. f_equal. f_equal. unfold cleared_reputation. symmetry. apply map_empty. intros k.
    apply map_lookup_filter_None. right. intros row _ H. apply H. by left. }
  assert (forall l n0 s0, exists n, foldl (fun '(cleared, s) ecosystem =>
      let '(n, t) := delete_where (fun _ r => bool_decide (lrEcosystem r = ToLower (TrimSpace ecosystem)))
                       (reputation_findings_local s) in
      (cleared + n, set_reputation t s)) (n0, s0) l =
    (n, set_reputation (filter (fun kv => lrEcosystem kv.2 ∉ (fun e => ToLower (TrimSpace e)) <$> l)
                          (reputation_findings_local s0)) s0)) as H.
  { induction l as [|x l IH]; intros n0 s0; cbn [foldl].
    - exists n0. f_equal. rewrite map_filter_id; [by rewrite set_reputation_id|]. intros ? ? _. apply not_elem_of_nil.
    - unfold delete_where at 2. set (t := filter _ _).
      destruct (IH (n0 + (Z.of_nat (size (reputation_findings_local s0)) - Z.of_nat (size t))) (set_reputation t s0)) as [n ->].
      exists n. unfold set_reputation. cbn. do 2 f_equal. unfold t. rewrite map_filter_filter. apply map_filter_ext.
      intros k row _. cbn [fst snd]. rewrite bool_decide_eq_false, not_elem_of_cons. naive_solver. }
  destruct (H (e :: ecosystems) 0 s) as [n ->]. exists n. do 2 f_equal. unfold cleared_reputation.
  apply map_filter_ext. intros k row _. cbn [snd]. naive_solver.
Qed.

Definition replace_rows (r : option syncAffectedReplacement) (t : gmap string VulnerabilityRow)
    : gmap string VulnerabilityRow :=
  match r with
  | None => t
  | Some r => filter (fun kv => ~ (lvID kv.2 ∈ dom (received r) /\ stale_row r (lvID kv.2) kv)) t
  end.

Record page_effect (resp : Response) (page : syncPageApply) (s s' : LocalDB) : Prop := {
  effect_vulnerabilities :
    vulnerabilities_local s' =
    replace_rows (replaceAffected page)
      (foldl vuln_step (if applyFull page then ∅ else vulnerabilities_local s) (respVulnerabilities resp));
  effect_malicious :
    malicious_local s' = apply_rows malID malWithdrawn malicious_row
                           (if applyFull page then ∅ else malicious_local s) (respMalicious resp);
  effect_reputation :
    reputation_findings_local s' =
    if ReputationDisabled resp then ∅
    else apply_rows repID repWithdrawn reputation_row
           (let t := if applyFull page then ∅ else reputation_findings_local s in
            if applyClearReputation page then cleared_reputation (clearReputationEcosystems page) t else t)
           (respReputation resp);
  effect_lifecycle :
    lifecycle_releases_local s' =
    foldl life_step (if applyFull page then ∅ else lifecycle_releases_local s) (respLifecycle resp);
  effect_meta :
    sync_meta s' = fresh_meta (metadata page)
      (if ReputationDisabled resp then <[syncMetaKeyReputationResync := "true"]> (sync_meta s) else sync_meta s)
}.

(** A page the client accepts. *)
Definition page_ok (resp : Response) : bool :=
  forallb vulnerability_ok (respVulnerabilities resp) && forallb malicious_ok (respMalicious resp) &&
  forallb lifecycle_ok (respLifecycle resp).

(** A page is applied when all its rows are accepted, and has this effect. *)
Lemma applySyncPage_spec resp page s :
  if page_ok resp
  then exists stats s', applySyncPage resp page s = Some (stats, s') /\ page_effect resp page s s'
  else applySyncPage resp page s = None.
Proof.
  unfold applySyncPage, page_ok.
  assert (exists c, (if applyFull page then clearSyncTables s else (no_removal, s)) =
    (c, if applyFull page then mk_local ∅ ∅ ∅ ∅ (sync_meta s) else s)) as [c ->].
  { destruct (applyFull page); [|by eexists]. unfold clearSyncTables. eexists. done. }
  set (s1 := if applyFull page then _ else s).
  assert (exists n, (if applyClearReputation page then clearSyncReputation (clearReputationEcosystems page) s1 else (0, s1)) =
    (n, if applyClearReputation page
        then set_reputation (cleared_reputation (clearReputationEcosystems page) (reputation_findings_local s1)) s1 else s1)) as [n ->].
  { destruct (applyClearReputation page); [|by eexists]. apply clearSyncReputation_spec. }
  set (s2 := if applyClearReputation page then _ else s1).
  pose proof (applySyncVulnerabilities_spec (respVulnerabilities resp) 0 s2) as Hv.
  destruct (forallb vulnerability_ok (respVulnerabilities resp)); [|by rewrite Hv]. destruct Hv as [nv ->].
  cbn [mbind option_bind andb]. set (s3 := set_vulnerabilities _ s2).
  assert (exists n, match replaceAffected page with Some r => replaceSyncAffectedPackages r s3 | None => (0, s3) end =
    (n, set_vulnerabilities (replace_rows (replaceAffected page) (vulnerabilities_local s3)) s3)) as [nr ->].
  { destruct (replaceAffected page) as [r|]; [apply replaceSyncAffectedPackages_spec|].
    eexists. unfold replace_rows. by rewrite set_vulnerabilities_id. }
  set (s4 := set_vulnerabilities _ s3). pose proof (applySyncMalicious_spec (respMalicious resp) 0 s4) as Hm.
  destruct (forallb malicious_ok (respMalicious resp)); [|by rewrite Hm]. destruct Hm as [nm ->].
  cbn [mbind option_bind andb]. set (s5 := set_malicious_local _ s4).
  assert (exists a b, (if ReputationDisabled resp
    then let '(n, s) := clearSyncReputation [] s5 in (n, 0, setSyncMetaTx syncMetaKeyReputationResync "true" s)
    else let '(n, s) := applySyncReputation (respReputation resp) 0 s5 in (0, n, s)) =
    (a, b, if ReputationDisabled resp then setSyncMetaTx syncMetaKeyReputationResync "true" (set_reputation ∅ s5)
           else set_reputation (apply_rows repID repWithdrawn reputation_row (reputation_findings_local s5) (respReputation resp)) s5))
    as (a & b & ->).
  { destruct (ReputationDisabled resp); [by eexists _, _|].
    destruct (applySyncReputation_spec (respReputation resp) 0 s5) as [d ->]. by eexists _, _. }
  set (s6 := if ReputationDisabled resp then _ else _).
  pose proof (applySyncLifecycle_spec (respLifecycle resp) 0 s6) as Hl.
  destruct (forallb lifecycle_ok (respLifecycle resp)); [|by rewrite Hl]. destruct Hl as [nl ->].
  cbn [mbind option_bind]. rewrite storeFreshSyncMetadata_meta. eexists _, _. split; [reflexivity|].
  split; unfold s6, s5, s4, s3, s2, s1;
    destruct (ReputationDisabled resp), (applyClearReputation page), (applyFull page); reflexivity.
Qed.

Lemma applySyncPage_effect resp page s stats s' :
  applySyncPage resp page s = Some (stats, s') -> page_effect resp page s s'.
Proof.
  pose proof (applySyncPage_spec resp page s) as H. destruct (page_ok resp); [|congruence].
  destruct H as (stats0 & s0 & -> & He). by intros [= <- <-].
Qed.
End client.

(** ** Flagged pages *)

(** The advisories a page is about: with rows, or without affected packages. *)
Definition mentioned (resp : Response) (id : string) : Prop :=
  id ∈ vulnID <$> respVulnerabilities resp \/ (id <> "" /\ id ∈ TrimSpace <$> VulnerabilitiesWithoutAffected resp).

Definition in_scope {U : UnicodeCase} (ecos : list string) (ecosystem : string) : Prop :=
  syncReplacementScope ecos = ∅ \/ ecosystem ∈ syncReplacementScope ecos.

Lemma rows_with_elem {U : UnicodeCase} id rows k :
  k ∈ row_key <$> rows_with id rows <-> exists v, v ∈ rows /\ vulnID v = id /\ k = row_key v.
Proof.
  unfold rows_with. rewrite list_elem_of_fmap. split.
  - intros (v & -> & [<- Hv]%list_elem_of_filter). eauto.
  - intros (v & Hv & <- & ->). exists v. split; [done|]. by apply list_elem_of_filter.
Qed.

Lemma replacement_scope {U : UnicodeCase} pass resp ecos r :
  newSyncAffectedReplacement pass resp ecos = Some r -> ecosystems r = syncReplacementScope ecos.
Proof. unfold newSyncAffectedReplacement. destruct (_ || _); [done|]. case_bool_decide; [done|]. by intros [= <-]. Qed.

Lemma inScope_in_scope {U : UnicodeCase} r ecos e :
  ecosystems r = syncReplacementScope ecos -> inScope r e = true <-> in_scope ecos e.
Proof.
  intros Hr. unfold inScope, in_scope. rewrite orb_true_iff, !bool_decide_eq_true, Hr. done.
Qed.

(** A flagged page that mentions an advisory has a replacement. *)
Lemma mentioned_replaced {U : UnicodeCase} pass resp ecos id :
  delta_pass pass = true -> VulnerabilityAffectedComplete resp = true -> mentioned resp id ->
  id ∉ withdrawn_ids (respVulnerabilities resp) ->
  exists r, newSyncAffectedReplacement pass resp ecos = Some r /\ id ∈ dom (received r).
Proof.
  intros Hd Hf Hm Hw. unfold newSyncAffectedReplacement. rewrite Hd, Hf. cbn [negb orb].
  set (rc := foldl (receive_empty _) _ _).
  assert (is_Some (rc !! id)) as Hid.
  { unfold rc. rewrite receive_empty_lookup, receive_lookup, lookup_empty, decide_False by done.
    destruct (rows_with id (respVulnerabilities resp)) eqn:E; [|by eexists].
    rewrite decide_True; [by eexists|]. split; [done|]. destruct Hm as [(v & -> & Hv)%list_elem_of_fmap|Hm]; [|done].
    assert (v ∈ rows_with (vulnID v) (respVulnerabilities resp)) as Hin by (by apply list_elem_of_filter).
    rewrite E in Hin. by apply elem_of_nil in Hin. }
  rewrite bool_decide_false. { eexists. split; [reflexivity|]. by apply elem_of_dom. }
  intros E. rewrite E, lookup_empty in Hid. by destruct Hid.
Qed.

(** C28: a flagged delta page replaces its advisories.  Every row the page
    delivers is stored; of an advisory the page mentions, no other row within
    the requested ecosystems is left; and the rows of advisories it does not
    mention, and those outside the requested ecosystems, stay as they are.
    (Advisories withdrawn on the page are deleted instead.) *)
Theorem flagged_page_replaces {U : UnicodeCase} {MO : MapOrder} pass resp ecos page s stats s' :
  delta_pass pass = true -> VulnerabilityAffectedComplete resp = true -> applyFull page = false ->
  replaceAffected page = newSyncAffectedReplacement pass resp ecos ->
  applySyncPage resp page s = Some (stats, s') ->
  let rows := respVulnerabilities resp in
  (forall v, v ∈ rows -> vulnID v ∉ withdrawn_ids rows -> (forall w, w ∈ rows -> row_key w = row_key v -> w = v) ->
     vulnerabilities_local s' !! row_key v = Some (vulnerability_row v)) /\
  (forall k row, vulnerabilities_local s' !! k = Some row -> lvID row ∉ withdrawn_ids rows ->
     mentioned resp (lvID row) -> in_scope ecos (lvEcosystem row) -> k ∈ row_key <$> rows_with (lvID row) rows) /\
  (forall k row, vulnerabilities_local s !! k = Some row -> lvID row ∉ withdrawn_ids rows -> k ∉ row_key <$> rows ->
     ~ mentioned resp (lvID row) \/ ~ in_scope ecos (lvEcosystem row) ->
     vulnerabilities_local s' !! k = Some row).
Proof.
  intros Hd Hf Hfull Hr Happ rows. pose proof (effect_vulnerabilities _ _ _ _ (applySyncPage_effect _ _ _ _ _ Happ)) as He.
  rewrite Hfull in He. fold rows in He. rewrite He, Hr. clear He Happ Hr. split_and!.
  - intros v Hv Hw Hu. pose proof (vuln_rows_stored rows (vulnerabilities_local s) v Hv Hw Hu) as Hrow.
    destruct (newSyncAffectedReplacement pass resp ecos) as [r|] eqn:Er; [|done].
    apply map_lookup_filter_Some. split; [done|]. intros (_ & _ & Hk & _). apply Hk. cbn [fst snd lvID vulnerability_row].
    rewrite (replacement_received _ _ _ _ _ Er), decide_False by done.
    assert (row_key v ∈ row_key <$> rows_with (vulnID v) rows) as Hin by (apply rows_with_elem; eauto). fold rows.
    destruct (rows_with (vulnID v) rows); [by apply elem_of_nil in Hin|]. by apply elem_of_list_to_set.
  - intros k row Hrow Hw Hm Hs. destruct (mentioned_replaced pass resp ecos (lvID row) Hd Hf Hm Hw) as (r & Er & Hdom).
    rewrite Er in Hrow. apply map_lookup_filter_Some in Hrow as [_ Hns]. cbn [fst snd] in Hns.
    destruct (decide (k ∈ row_key <$> rows_with (lvID row) rows)) as [|Hk]; [done|]. destruct Hns.
    split; [done|]. split_and!; [done| |by apply (inScope_in_scope r ecos), Hs; apply (replacement_scope _ _ _ _ Er)].
    cbn [fst]. rewrite (replacement_received _ _ _ _ _ Er), decide_False by done. fold rows.
    destruct (rows_with (lvID row) rows) as [|x l]; [by case_match|].
    intros Hin. apply Hk. by apply elem_of_list_to_set in Hin.
  - intros k row Hrow Hw Hk Hor. assert (forall v, v ∈ rows -> row_key v <> k) as Hk'.
    { intros v Hv <-. apply Hk. by apply list_elem_of_fmap_2. }
    pose proof (vuln_rows_kept rows (vulnerabilities_local s) k row Hrow Hw Hk') as Hrow'.
    destruct (newSyncAffectedReplacement pass resp ecos) as [r|] eqn:Er; [|done].
    apply map_lookup_filter_Some. split; [done|]. cbn [fst snd]. intros (Hdom & _ & _ & Hs). destruct Hor as [Hnm|Hns].
    + apply Hnm. apply elem_of_dom in Hdom as [keys Hkeys].
      rewrite (replacement_received _ _ _ _ _ Er), decide_False in Hkeys by done.
      destruct (rows_with (lvID row) (respVulnerabilities resp)) as [|x l] eqn:E; [right; by case_match|left].
      assert (x ∈ rows_with (lvID row) (respVulnerabilities resp)) as Hx by (rewrite E; by left).
      apply list_elem_of_filter in Hx as [<- Hx]. by apply list_elem_of_fmap_2.
    + apply Hns, (inScope_in_scope r ecos); [by apply (replacement_scope _ _ _ _ Er)|done].
Qed.

(** A delta page delivers one row of advisory A; the local rows are another one
    of A and one of B. *)
Section flagged_page.
#[local] Instance page_case : UnicodeCase := plain_case.
#[local] Instance page_order : MapOrder := listed_order.

Definition delivered : SyncVulnerability :=
  mk_vulnerability "A" "npm" "lib" "[]" "[]" "[]" "high" None None None false "" "osv" false.
Definition outdated : SyncVulnerability :=
  mk_vulnerability "A" "npm" "old" "[]" "[]" "[]" "high" None None None false "" "osv" false.
Definition unrelated : SyncVulnerability :=
  mk_vulnerability "B" "npm" "old" "[]" "[]" "[]" "high" None None None false "" "osv" false.

Definition flagged_response : Response :=
  mk_response "2024-01-01T00:00:00Z" 0 "" None [delivered] [] [] [] false false None false true [] "" false false.
Definition delta : syncPass :=
  mk_pass (mk_cursor_state "2023-01-01T00:00:00Z" "") zero_cursor false false true false.
Definition flagged_apply : syncPageApply :=
  mk_apply false false [] (newSyncAffectedReplacement delta flagged_response []) no_metadata.
Definition before_page : LocalDB :=
  set_vulnerabilities (<[row_key outdated := vulnerability_row outdated]>
                         {[row_key unrelated := vulnerability_row unrelated]}) empty_local.

Lemma none_withdrawn id : id ∉ withdrawn_ids (respVulnerabilities flagged_response).
Proof. unfold withdrawn_ids. rewrite elem_of_list_to_set. apply not_elem_of_nil. Qed.

Lemma flagged_page_replaces_witness :
  exists stats s', applySyncPage flagged_response flagged_apply before_page = Some (stats, s') /\
    vulnerabilities_local s' !! row_key delivered = Some (vulnerability_row delivered) /\
    vulnerabilities_local s' !! row_key unrelated = Some (vulnerability_row unrelated) /\
    remVulnerabilities (AffectedReplaced stats) = 1.
Proof.
  destruct (applySyncPage flagged_response flagged_apply before_page) as [[stats s']|] eqn:E;
    [|exfalso; revert E; vm_compute; discriminate].
  exists stats, s'. split; [done|].
  destruct (flagged_page_replaces delta flagged_response [] flagged_apply before_page stats s') as (Hs & _ & Hk);
    [vm_compute; reflexivity|reflexivity|reflexivity|reflexivity|exact E|]. split_and!.
  - apply (Hs delivered); [by left| |].
    + apply none_withdrawn.
    + intros w [->|Hw]%elem_of_cons _; [reflexivity|]. destruct (not_elem_of_nil _ Hw).
  - apply (Hk (row_key unrelated)); [vm_compute; reflexivity|apply none_withdrawn| |].
    + intros [Hx|Hx]%elem_of_cons; [|destruct (not_elem_of_nil _ Hx)]. revert Hx. vm_compute. discriminate.
    + left. intros [Hx|[_ Hx]]; [|destruct (not_elem_of_nil _ Hx)].
      apply elem_of_cons in Hx as [Hx|Hx]; [discriminate Hx|destruct (not_elem_of_nil _ Hx)].
  - revert E. vm_compute. intros [= <- _]. reflexivity.
Defined.
End flagged_page.
