(* ===== verification/SyncRuns.v ===== *)
(** The sync client: the sequence of pages (internal/db/sqlite/sync.go).

    The client asks for page after page with the cursor of the page before and
    applies each in its own transaction.  Freshness (the time and transaction
    of the snapshot, and the feed state) is stored only with the last page, so
    a sequence that breaks off is repeated from where the last complete one
    ended.  The server is an argument: what it answers to the n-th request. *)
From stdpp Require Import base list option strings gmap sorting.
From Stdlib Require Import Ascii ZArith Lia.
From S2P Require Import Prelude GoStrings AsciiText PackageId Json VersionCompare VersionRanges Collections.
From S2P Require Import JsonEncode Base64 Domain GoTime Lifecycle Advisories SyncCursor SyncRows Dates TimeParse.
From S2P Require Import SyncPages SyncContract LocalStore LocalSync.

#[export] Instance sync_cursor_eq_dec : EqDecision SyncCursor.
Proof. solve_decision. Defined.

Section runs.
Context {U : UnicodeCase} {MO : MapOrder}.

(** ** Requests *)

(** The query parameters of a request; values are set, not added. *)
Definition set_number (key : string) (n : Z) (q : gmap string string) : gmap string string :=
  if 0 <? n then <[key := Itoa n]> q else q.
Definition set_text (key value : string) (q : gmap string string) : gmap string string :=
  if bool_decide (value = "") then q else <[key := value]> q.
Definition set_flag (key : string) (b : bool) (q : gmap string string) : gmap string string :=
  if b then <[key := "true"]> q else q.

Definition setSyncCursorQuery (cursor : SyncCursor) (q : gmap string string) : gmap string string :=
  set_flag "lifecycle_done" (LifecycleDone cursor)
  (set_flag "reputation_done" (ReputationDone cursor)
  (set_flag "malicious_done" (MaliciousDone cursor)
  (set_flag "vulnerabilities_done" (VulnerabilitiesDone cursor)
  (set_text "lifecycle_cursor" (LifecycleCursor cursor)
  (set_text "reputation_cursor" (ReputationCursor cursor)
  (set_text "malicious_cursor" (MaliciousCursor cursor)
  (set_text "vulnerabilities_cursor" (VulnerabilitiesCursor cursor)
  (set_number "lifecycle_offset" (SyncCursor.Lifecycle cursor)
  (set_number "reputation_offset" (Reputation cursor)
  (set_number "malicious_offset" (Malicious cursor)
  (set_number "vulnerabilities_offset" (Vulnerabilities cursor) q))))))))))).

(** The query of [fetchSyncPageOnce]. *)
Definition sync_query (cfg : SyncConfig) (since sinceXID : string) (cursor : SyncCursor) (snapshot snapshotXID : string)
    : gmap string string :=
  let q := set_text "snapshot_xid" snapshotXID
           (set_text "snapshot" snapshot (set_text "since_xid" sinceXID (set_text "since" since ∅))) in
  let q := <["limit" := Itoa syncPageLimit]> q in
  let q := if cursor_IsZero cursor then q else setSyncCursorQuery cursor q in
  match cfgEcosystems cfg with [] => q | l => <["ecosystem" := Join l ","]> q end.

(** The outcome of one HTTP request: a response, or an error with the delay the
    server asked for (0: none). *)
Notation http_outcome := (Response + Duration)%type.

(** [fetchSyncPageWithCorrelationID]: up to five retries when the server asks to
    wait.  [request n] is the outcome of the [n]-th attempt, [wait] whether the
    wait ended before the context was cancelled. *)
Fixpoint fetch_attempts (left : nat) (request : nat -> http_outcome) (wait : Duration -> bool) (attempt : nat)
    : option Response :=
  match request attempt with
  | inl resp => Some resp
  | inr retryAfter =>
      match left with
      | O => None
      | S left' =>
          if retryAfter <=? 0 then None
          else if wait retryAfter then fetch_attempts left' request wait (S attempt) else None
      end
  end.

Definition fetchSyncPageWithCorrelationID (request : nat -> http_outcome) (wait : Duration -> bool) : option Response :=
  fetch_attempts syncMax429Retries request wait 0.

(** ** A sequence of pages *)

Definition mergeSyncFeedState (dst : syncFeedState) (src : Response) : syncFeedState :=
  mk_feed_state (if bool_decide (fsStatus dst = "") then FeedStatus src else fsStatus dst)
    (match FeedVersions src with
     | None => fsVersions dst
     | Some versions => Some (versions ∪ default ∅ (fsVersions dst))
     end).

Definition syncFeedStateForMetadata (fs : syncFeedState) : option syncFeedState :=
  if bool_decide (TrimSpace (fsStatus fs) = "") && bool_decide (fsVersions fs = None) then None else Some fs.

Definition syncTimestampSafeForFreshness (raw : string) (now : Time) : option bool :=
  ts ← ParseRFC3339Nano (TrimSpace raw);
  Some (negb (After ts (Add now maxSyncFutureSkew))).

Record syncPageSnapshot := mk_snapshot { snapSyncedAt : string; snapSyncedXID : string }.

Definition freshSyncApplyMetadata (snapshot : syncPageSnapshot) (fs : syncFeedState) (now : Time)
    : option syncApplyMetadata :=
  if bool_decide (snapSyncedAt snapshot = "") then Some no_metadata
  else
    safe ← syncTimestampSafeForFreshness (snapSyncedAt snapshot) now;
    Some (if (safe : bool)
          then mk_metadata (snapSyncedAt snapshot) (snapSyncedXID snapshot) (syncFeedStateForMetadata fs) false
          else no_metadata).

Definition syncResponseEmpty (resp : Response) : bool :=
  bool_decide (respVulnerabilities resp = []) && bool_decide (respMalicious resp = []) &&
  bool_decide (respReputation resp = []) && bool_decide (respLifecycle resp = []).

(** [true] is no error. *)
Definition validateSyncResponseBeforeApply (full : bool) (resp : Response) : bool :=
  let at_ := TrimSpace (SyncedAt resp) in
  negb (bool_decide (at_ = "")) && bool_decide (is_Some (ParseRFC3339Nano at_)) &&
  negb (full && syncResponseEmpty resp && bool_decide (TrimSpace (FeedStatus resp) = "") &&
        bool_decide (default ∅ (FeedVersions resp) = ∅)).

(** The variables of the loop. *)
Record sync_state := mk_sync {
  stCursor : SyncCursor;
  stSnapshot : syncPageSnapshot;
  stFeed : syncFeedState;
  stFirst : bool;
  stDisabled : bool;
  stStats : SyncStats;
  stSplit : option syncSplitAdvisory;
  stDB : LocalDB
}.

Inductive sync_verdict := Continue | Finished | Failed.

(** The snapshot is the one of the first page that names it. *)
Definition pin_snapshot (resp : Response) (snap : syncPageSnapshot) : syncPageSnapshot :=
  mk_snapshot (if bool_decide (snapSyncedAt snap = "") then SyncedAt resp else snapSyncedAt snap)
    (if (0 <? SyncedXID resp) && bool_decide (snapSyncedXID snap = "") then Itoa (SyncedXID resp)
     else snapSyncedXID snap).

(** The metadata a page stores; [None] is an error. *)
Definition page_metadata (pass : syncPass) (snap : syncPageSnapshot) (fs : syncFeedState) (disabled : bool) (now : Time)
    (resp : Response) : option syncApplyMetadata :=
  if Truncated resp then Some no_metadata
  else
    m ← (if storeFreshness pass then freshSyncApplyMetadata snap fs now else Some no_metadata);
    Some (mk_metadata (LastSyncAt m) (LastSyncXID m) (FeedState m) (completesReputation pass && negb disabled)).

(** The body of the loop of [syncPaginatedResponses], after the page arrived. *)
Definition sync_page (cfg : SyncConfig) (pass : syncPass) (now : Time) (resp : Response) (st : sync_state)
    : sync_verdict * sync_state :=
  let snap := pin_snapshot resp (stSnapshot st) in
  if Truncated resp && bool_decide (snapSyncedAt snap = "") then (Failed, st)
  else if negb (validateSyncResponseBeforeApply (stFirst st && passFull pass) resp) then (Failed, st)
  else
    let feed := mergeSyncFeedState (stFeed st) resp in
    let disabled := stDisabled st || ReputationDisabled resp in
    match page_metadata pass snap feed disabled now resp with
    | None => (Failed, st)
    | Some m =>
        let split := nextSyncSplitAdvisory (stSplit st) pass (stCursor st) resp in
        let replace := mergeSyncAffectedReplacements (newSyncAffectedReplacement pass resp (cfgEcosystems cfg))
                         (replacement split resp (cfgEcosystems cfg)) in
        let clear := stFirst st && passClearReputation pass in
        let page := mk_apply (stFirst st && passFull pass) clear (if clear then cfgEcosystems cfg else []) replace m in
        match applySyncPage resp page (stDB st) with
        | None => (Failed, st)
        | Some (stats, db) =>
            let st' cursor := mk_sync cursor snap feed false disabled (addSyncStats (stStats st) stats) split db in
            if negb (Truncated resp) then (Finished, st' (stCursor st))
            else match NextCursor resp with
                 | Some next => if bool_decide (next = stCursor st) then (Failed, st' (stCursor st))
                                else (Continue, st' next)
                 | None => (Failed, st' (stCursor st))
                 end
        end
    end.

(** ** The sequence *)

(** What the client sends besides its configuration. *)
Record sync_request := mk_request {
  rqSince : string;
  rqSinceXID : string;
  rqCursor : SyncCursor;
  rqSnapshot : string;
  rqSnapshotXID : string
}.

Definition request_of (pass : syncPass) (st : sync_state) : sync_request :=
  mk_request (csSince (cursorState pass)) (csSinceXID (cursorState pass)) (stCursor st)
    (snapSyncedAt (stSnapshot st)) (snapSyncedXID (stSnapshot st)).

(** The loop; [Continue] means that [fuel] pages did not end it. *)
Fixpoint sync_loop (fuel : nat) (server : nat -> sync_request -> option Response) (cfg : SyncConfig) (pass : syncPass)
    (now : Time) (n : nat) (st : sync_state) : sync_verdict * sync_state :=
  match fuel with
  | O => (Continue, st)
  | S fuel' =>
      match server n (request_of pass st) with
      | None => (Failed, st)
      | Some resp =>
          match sync_page cfg pass now resp st with
          | (Continue, st') => sync_loop fuel' server cfg pass now (S n) st'
          | result => result
          end
      end
  end.

Definition start_sync (pass : syncPass) (db : LocalDB) : sync_state :=
  mk_sync (initialCursor pass) (mk_snapshot "" "") (mk_feed_state "" None) true false no_stats None db.

Definition syncPaginatedResponses (fuel : nat) (server : nat -> sync_request -> option Response) (cfg : SyncConfig)
    (pass : syncPass) (now : Time) (db : LocalDB) : sync_verdict * sync_state :=
  sync_loop fuel server cfg pass now 0 (start_sync pass db).

(** ** [Sync], after the configuration was checked and the lock taken *)

Definition loadSyncCursorState (full : bool) (db : LocalDB) : syncCursorState :=
  if full then mk_cursor_state "" ""
  else mk_cursor_state (GetSyncMeta syncMetaKeyLastSync db) (GetSyncMeta syncMetaKeyLastSyncXID db).

Definition reputationRefetchPass (cfg : SyncConfig) : syncPass :=
  mk_pass (mk_cursor_state "" "") (mk_cursor 0 0 0 0 "" "" "" "" true true false true) false true false
    (bool_decide (cfgEcosystems cfg = [])).

Definition main_pass (cfg : SyncConfig) (db : LocalDB) : syncPass :=
  mk_pass (loadSyncCursorState (cfgFull cfg) db) zero_cursor (cfgFull cfg) false true (cfgFull cfg).

(** The check of the server's URL is an argument: [None] is an error. *)
Definition validateSyncConfig (urlOK : SyncConfig -> bool) (cfg : SyncConfig) : option SyncConfig :=
  if bool_decide (cfgServerURL cfg = "") then None
  else
    let cfg := if cfgTimeout cfg =? 0
               then mk_config (cfgServerURL cfg) (cfgAPIKey cfg) (cfgEcosystems cfg) (cfgFull cfg) (60 * Second)
                      (cfgCACertFile cfg) (cfgAllowInsecureHTTP cfg) else cfg in
    if cfgFull cfg && negb (bool_decide (cfgEcosystems cfg = [])) then None
    else if urlOK cfg then Some cfg else None.

(** The servers of the main sequence and of the refetch.  Statistics are only
    reported when both succeed. *)
Definition Sync (fuel : nat) (server refetch : nat -> sync_request -> option Response) (cfg : SyncConfig) (now : Time)
    (db : LocalDB) : sync_verdict * option SyncStats * LocalDB :=
  let resyncPending := GetSyncMeta syncMetaKeyReputationResync db in
  match syncPaginatedResponses fuel server cfg (main_pass cfg db) now db with
  | (Finished, st) =>
      if negb (bool_decide (resyncPending = "")) && negb (cfgFull cfg) && negb (stDisabled st) then
        match syncPaginatedResponses fuel refetch cfg (reputationRefetchPass cfg) now (stDB st) with
        | (Finished, st') => (Finished, Some (addSyncStats (stStats st) (stStats st')), stDB st')
        | (verdict, st') => (verdict, None, stDB st')
        end
      else (Finished, Some (stStats st), stDB st)
  | (verdict, st) => (verdict, None, stDB st)
  end.

(** ** The pages of a sequence *)

(** [pages_applied ps st]: the pages [ps] were received and applied in this
    order, and the loop stands before its next request with [st]. *)
Inductive pages_applied (server : nat -> sync_request -> option Response) (cfg : SyncConfig) (pass : syncPass)
    (now : Time) (db : LocalDB) : list Response -> sync_state -> Prop :=
| applied_none : pages_applied server cfg pass now db [] (start_sync pass db)
| applied_page ps st resp st' :
    pages_applied server cfg pass now db ps st ->
    server (length ps) (request_of pass st) = Some resp ->
    sync_page cfg pass now resp st = (Continue, st') ->
    pages_applied server cfg pass now db (ps ++ [resp]) st'.

(** How a sequence ends: before a page, or with one. *)
Definition sequence_ends server cfg pass now db (ps : list Response) (verdict : sync_verdict) (st' : sync_state) : Prop :=
  (verdict <> Finished /\ pages_applied server cfg pass now db ps st') \/
  (exists ps' st resp, ps = ps' ++ [resp] /\ verdict <> Continue /\ pages_applied server cfg pass now db ps' st /\
     server (length ps') (request_of pass st) = Some resp /\ sync_page cfg pass now resp st = (verdict, st')).

Lemma sync_loop_pages server cfg pass now db fuel ps st verdict st' :
  pages_applied server cfg pass now db ps st ->
  sync_loop fuel server cfg pass now (length ps) st = (verdict, st') ->
  exists ps', sequence_ends server cfg pass now db ps' verdict st'.
Proof.
  revert ps st. induction fuel as [|fuel IH]; intros ps st Hp; cbn [sync_loop].
  { intros [= <- <-]. exists ps. by left. }
  destruct (server (length ps) (request_of pass st)) as [resp|] eqn:Hs.
  2: { intros [= <- <-]. exists ps. by left. }
  destruct (sync_page cfg pass now resp st) as [v st1] eqn:Hpage. destruct v.
  - intros Hl. apply (IH (ps ++ [resp]) st1); [by eapply applied_page|]. by rewrite length_app, Nat.add_1_r.
  - intros [= <- <-]. exists (ps ++ [resp]). right. by eexists _, _, _.
  - intros [= <- <-]. exists (ps ++ [resp]). right. by eexists _, _, _.
Qed.

Lemma sync_pages server cfg pass now db fuel verdict st' :
  syncPaginatedResponses fuel server cfg pass now db = (verdict, st') ->
  exists ps, sequence_ends server cfg pass now db ps verdict st'.
Proof. apply (sync_loop_pages _ _ _ _ _ _ []). constructor. Qed.

(** What a page that was not refused did. *)
Record page_done (cfg : SyncConfig) (pass : syncPass) (now : Time) (resp : Response) (st st' : sync_state)
    (verdict : sync_verdict) : Prop := {
  done_snapshot : stSnapshot st' = pin_snapshot resp (stSnapshot st);
  done_feed : stFeed st' = mergeSyncFeedState (stFeed st) resp;
  done_disabled : stDisabled st' = stDisabled st || ReputationDisabled resp;
  done_first : stFirst st' = false;
  done_valid : validateSyncResponseBeforeApply (stFirst st && passFull pass) resp = true;
  done_verdict : verdict = Finished <-> Truncated resp = false;
  done_cursor : verdict = Continue -> NextCursor resp = Some (stCursor st');
  done_effect : exists m replace,
    replace = mergeSyncAffectedReplacements (newSyncAffectedReplacement pass resp (cfgEcosystems cfg))
                (replacement (nextSyncSplitAdvisory (stSplit st) pass (stCursor st) resp) resp (cfgEcosystems cfg)) /\
    page_metadata pass (stSnapshot st') (stFeed st') (stDisabled st') now resp = Some m /\
    page_effect resp (mk_apply (stFirst st && passFull pass) (stFirst st && passClearReputation pass)
                        (if stFirst st && passClearReputation pass then cfgEcosystems cfg else []) replace m)
      (stDB st) (stDB st')
}.

Lemma sync_page_done cfg pass now resp st verdict st' :
  sync_page cfg pass now resp st = (verdict, st') ->
  (verdict = Failed /\ st' = st) \/ page_done cfg pass now resp st st' verdict.
Proof.
  unfold sync_page. destruct (_ && _); [intros [= <- <-]; by left|].
  destruct (validateSyncResponseBeforeApply _ _) eqn:Hvalid; cbn [negb]; [|intros [= <- <-]; by left].
  destruct (page_metadata _ _ _ _ _ _) as [m|] eqn:Hm; [|intros [= <- <-]; by left].
  destruct (applySyncPage _ _ _) as [[stats db']|] eqn:Happ; [|intros [= <- <-]; by left].
  apply applySyncPage_effect in Happ. intros H. right.
  assert (verdict = Finished <-> Truncated resp = false) as Hv.
  { destruct (Truncated resp); cbn [negb] in H; [|by injection H as <- <-].
    destruct (NextCursor resp); [case_bool_decide|]; injection H as <- <-; by split. }
  assert (verdict = Continue -> NextCursor resp = Some (stCursor st')) as Hc.
  { intros ->. destruct (negb _); [done|]. destruct (NextCursor resp); [|done]. case_bool_decide; [done|].
    by injection H as <-. }
  assert (exists cursor, st' = mk_sync cursor (pin_snapshot resp (stSnapshot st)) (mergeSyncFeedState (stFeed st) resp)
    false (stDisabled st || ReputationDisabled resp) (addSyncStats (stStats st) stats)
    (nextSyncSplitAdvisory (stSplit st) pass (stCursor st) resp) db') as [cursor ->].
  { destruct (negb _); [|destruct (NextCursor resp); [case_bool_decide|]]; injection H as _ <-; by eexists. }
  by split; [..|eexists _, _].
Qed.

(** A page with acceptable rows, a readable time and, when it is truncated, a
    cursor that moves, is applied. *)
Lemma sync_page_accepted cfg pass now resp st t :
  page_ok resp = true -> SyncedAt resp <> "" ->
  validateSyncResponseBeforeApply (stFirst st && passFull pass) resp = true ->
  ParseRFC3339Nano (TrimSpace (snapSyncedAt (pin_snapshot resp (stSnapshot st)))) = Some t ->
  (Truncated resp = true -> exists next, NextCursor resp = Some next /\ next <> stCursor st) ->
  exists st', sync_page cfg pass now resp st = (if Truncated resp then Continue else Finished, st').
Proof.
  intros Hok Hat Hvalid Hparse Hnext. unfold sync_page. rewrite Hvalid.
  assert (snapSyncedAt (pin_snapshot resp (stSnapshot st)) <> "") as Hsnap.
  { cbn. case_bool_decide; done. }
  rewrite (bool_decide_false (snapSyncedAt _ = "")) by done. rewrite andb_false_r. cbn [negb].
  assert (exists m, page_metadata pass (pin_snapshot resp (stSnapshot st)) (mergeSyncFeedState (stFeed st) resp)
    (stDisabled st || ReputationDisabled resp) now resp = Some m) as [m ->].
  { unfold page_metadata. destruct (Truncated resp); [by eexists|]. destruct (storeFreshness pass); [|by eexists].
    unfold freshSyncApplyMetadata, syncTimestampSafeForFreshness. rewrite bool_decide_false, Hparse by done. by eexists. }
  set (page := mk_apply _ _ _ _ m). pose proof (applySyncPage_spec resp page (stDB st)) as Happ. rewrite Hok in Happ.
  destruct Happ as (stats & db' & -> & _). destruct (Truncated resp); cbn [negb]; [|by eexists].
  destruct Hnext as (next & -> & Hne); [done|]. rewrite bool_decide_false by done. by eexists.
Qed.

(** *** Metadata along a sequence *)

Definition freshness_keys : list string :=
  [syncMetaKeyLastSync; syncMetaKeyLastSyncXID; syncMetaKeyFeedStatus; syncMetaKeyFeedVersions].

Ltac other_key := rewrite lookup_insert_ne by discriminate.

Lemma feed_meta_lookup fs meta key :
  key <> syncMetaKeyFeedStatus -> key <> syncMetaKeyFeedVersions -> feed_meta fs meta !! key = meta !! key.
Proof.
  intros H1 H2. unfold feed_meta. destruct (_ && _); [done|]. rewrite lookup_insert_ne by done.
  case_bool_decide; [done|]. by rewrite lookup_insert_ne.
Qed.

Lemma fresh_meta_marker m meta :
  fresh_meta m meta !! syncMetaKeyReputationResync =
  if ClearReputationResync m then None else meta !! syncMetaKeyReputationResync.
Proof.
  unfold fresh_meta. destruct (ClearReputationResync m); [apply lookup_delete_eq|].
  set (x := if bool_decide (LastSyncXID m = "") then _ else _).
  assert (x !! syncMetaKeyReputationResync = meta !! syncMetaKeyReputationResync) as Hx.
  { unfold x. case_bool_decide; [|other_key]; (case_bool_decide; [done|by other_key]). }
  destruct (FeedState m); [|done]. by rewrite feed_meta_lookup by discriminate.
Qed.

Lemma fresh_meta_last m meta :
  fresh_meta m meta !! syncMetaKeyLastSync =
  if bool_decide (LastSyncAt m = "") then meta !! syncMetaKeyLastSync else Some (LastSyncAt m).
Proof.
  unfold fresh_meta. set (x := if bool_decide (LastSyncXID m = "") then _ else _).
  set (y := match FeedState m with Some fs => feed_meta fs x | None => x end).
  assert (y !! syncMetaKeyLastSync =
    if bool_decide (LastSyncAt m = "") then meta !! syncMetaKeyLastSync else Some (LastSyncAt m)) as Hy.
  { assert (y !! syncMetaKeyLastSync = x !! syncMetaKeyLastSync) as ->.
    { unfold y. destruct (FeedState m); [|done]. by rewrite feed_meta_lookup by discriminate. }
    unfold x. case_bool_decide as H1; [|other_key]; (case_bool_decide as H2; [done|apply lookup_insert_eq]). }
  destruct (ClearReputationResync m); [|done]. by rewrite lookup_delete_ne by discriminate.
Qed.

(** A page that does not end the sequence leaves freshness alone. *)
Lemma truncated_keeps_freshness cfg pass now resp st st' verdict key :
  page_done cfg pass now resp st st' verdict -> Truncated resp = true -> key ∈ freshness_keys ->
  sync_meta (stDB st') !! key = sync_meta (stDB st) !! key.
Proof.
  intros Hd Ht Hk. destruct (done_effect _ _ _ _ _ _ _ Hd) as (m & replace & _ & Hm & He).
  unfold page_metadata in Hm. rewrite Ht in Hm. injection Hm as <-. rewrite (effect_meta _ _ _ _ He).
  change (fresh_meta (metadata _) ?x) with x. destruct (ReputationDisabled resp); [|done].
  apply lookup_insert_ne. intros <-. unfold freshness_keys in Hk. rewrite !elem_of_cons in Hk.
  destruct Hk as [Hk|[Hk|[Hk|[Hk|Hk]]]]; [discriminate Hk..|by apply not_elem_of_nil in Hk].
Qed.

Section sequence.
Context (server : nat -> sync_request -> option Response) (cfg : SyncConfig) (pass : syncPass) (now : Time) (db : LocalDB).

Lemma applied_done st resp st' :
  sync_page cfg pass now resp st = (Continue, st') -> page_done cfg pass now resp st st' Continue /\ Truncated resp = true.
Proof.
  intros H. destruct (sync_page_done _ _ _ _ _ _ _ H) as [[? ?]|Hd]; [done|]. split; [done|].
  destruct (Truncated resp) eqn:E; [done|]. by apply (done_verdict _ _ _ _ _ _ _ Hd) in E.
Qed.

Lemma pages_keep_freshness ps st key :
  pages_applied server cfg pass now db ps st -> key ∈ freshness_keys ->
  sync_meta (stDB st) !! key = sync_meta db !! key.
Proof.
  intros Hp Hk. induction Hp as [|ps st resp st' _ IH _ Hpage]; [done|].
  destruct (applied_done _ _ _ Hpage) as [Hd Ht]. rewrite <- IH. by eapply truncated_keeps_freshness.
Qed.

(** The pages that were applied, the last one of a finished sequence included. *)
Inductive received_pages : list Response -> sync_state -> Prop :=
| received_none : received_pages [] (start_sync pass db)
| received_page ps st resp st' verdict :
    received_pages ps st ->
    server (length ps) (request_of pass st) = Some resp ->
    page_done cfg pass now resp st st' verdict ->
    received_pages (ps ++ [resp]) st'.

Lemma applied_received ps st : pages_applied server cfg pass now db ps st -> received_pages ps st.
Proof.
  intros Hp. induction Hp as [|ps st resp st' _ IH Hs Hpage]; [constructor|].
  eapply received_page; [done|done|]. by apply applied_done.
Qed.

(** A finished sequence ends with a page that is not truncated. *)
Lemma finished_pages fuel st' :
  syncPaginatedResponses fuel server cfg pass now db = (Finished, st') ->
  exists ps st resp, pages_applied server cfg pass now db ps st /\ received_pages (ps ++ [resp]) st' /\
    page_done cfg pass now resp st st' Finished /\ Truncated resp = false.
Proof.
  intros [ps [[? _]|(ps' & st & resp & -> & _ & Hp & Hs & Hpage)]]%sync_pages; [done|].
  destruct (sync_page_done _ _ _ _ _ _ _ Hpage) as [[? _]|Hd]; [done|]. exists ps', st, resp. split_and!; [done| |done|].
  - eapply received_page; [by apply applied_received|done|done].
  - by apply (done_verdict _ _ _ _ _ _ _ Hd).
Qed.

(** The first page is the one that pins the snapshot. *)
Lemma pages_pinned ps st :
  received_pages ps st ->
  match ps with
  | [] => st = start_sync pass db
  | first :: _ => server 0%nat (request_of pass (start_sync pass db)) = Some first /\
                  snapSyncedAt (stSnapshot st) = SyncedAt first /\ SyncedAt first <> "" /\ stFirst st = false /\
                  is_Some (ParseRFC3339Nano (TrimSpace (SyncedAt first)))
  end.
Proof.
  intros Hp. induction Hp as [|ps st resp st' verdict Hp IH Hs Hd]; [done|].
  pose proof (done_snapshot _ _ _ _ _ _ _ Hd) as Hsnap. pose proof (done_first _ _ _ _ _ _ _ Hd) as Hfirst.
  pose proof (done_valid _ _ _ _ _ _ _ Hd) as Hvalid. rewrite Hsnap.
  destruct ps as [|first ps]; cbn [app].
  - subst st. unfold validateSyncResponseBeforeApply in Hvalid.
    apply andb_true_iff in Hvalid as [[Hne Hv]%andb_true_iff _]. split_and!; [done|done| |done|by apply bool_decide_eq_true in Hv].
    intros E. by rewrite E in Hne.
  - destruct IH as (H1 & H2 & H3 & H4 & H5). split_and!; [done| |done|done|done]. cbn. rewrite H2.
    by rewrite bool_decide_false.
Qed.

Lemma pages_first ps st : received_pages ps st -> stFirst st = bool_decide (ps = []).
Proof.
  intros Hp. pose proof (pages_pinned _ _ Hp) as H. destruct ps; [by subst st|]. rewrite bool_decide_false by done. apply H.
Qed.

(** *** Tables along a sequence *)

Lemma apply_rows_app {Wire Row} (id_of : Wire -> string) gone (row_of : Wire -> Row) table rows rows' :
  apply_rows id_of gone row_of table (rows ++ rows') =
  apply_rows id_of gone row_of (apply_rows id_of gone row_of table rows) rows'.
Proof. apply foldl_app. Qed.

(** The malicious packages after the pages [ps]. *)
Lemma pages_malicious ps st :
  received_pages ps st ->
  malicious_local (stDB st) =
  apply_rows malID malWithdrawn malicious_row
    (if passFull pass && negb (bool_decide (ps = [])) then ∅ else malicious_local db) (ps ≫= respMalicious).
Proof.
  intros Hp. induction Hp as [|ps st resp st' verdict Hp IH Hs Hd]; [by rewrite andb_false_r|].
  destruct (done_effect _ _ _ _ _ _ _ Hd) as (m & replace & _ & _ & He). rewrite (effect_malicious _ _ _ _ He).
  cbn [applyFull]. rewrite (pages_first _ _ Hp), IH, bind_app, apply_rows_app. cbn [mbind list_bind]. rewrite app_nil_r.
  rewrite (bool_decide_false (ps ++ [resp] = [])) by (by destruct ps).
  destruct ps; cbn [bool_decide decide]; by destruct (passFull pass).
Qed.

(** The vulnerabilities and the lifecycle releases, likewise; outside deltas no
    page replaces rows of others. *)
Lemma pages_vulnerabilities ps st :
  delta_pass pass = false -> received_pages ps st ->
  vulnerabilities_local (stDB st) =
  foldl vuln_step (if passFull pass && negb (bool_decide (ps = [])) then ∅ else vulnerabilities_local db)
    (ps ≫= respVulnerabilities).
Proof.
  intros Hdelta Hp. induction Hp as [|ps st resp st' verdict Hp IH Hs Hd]; [by rewrite andb_false_r|].
  destruct (done_effect _ _ _ _ _ _ _ Hd) as (m & replace & Hreplace & _ & He). rewrite (effect_vulnerabilities _ _ _ _ He).
  assert (replace = None) as ->.
  { rewrite Hreplace. unfold newSyncAffectedReplacement, nextSyncSplitAdvisory. by rewrite Hdelta. }
  cbn [applyFull replaceAffected replace_rows].
  rewrite (pages_first _ _ Hp), IH, bind_app, foldl_app. cbn [mbind list_bind]. rewrite app_nil_r.
  rewrite (bool_decide_false (ps ++ [resp] = [])) by (by destruct ps).
  destruct ps; cbn [bool_decide decide]; by destruct (passFull pass).
Qed.

Lemma pages_lifecycle ps st :
  received_pages ps st ->
  lifecycle_releases_local (stDB st) =
  foldl life_step (if passFull pass && negb (bool_decide (ps = [])) then ∅ else lifecycle_releases_local db)
    (ps ≫= respLifecycle).
Proof.
  intros Hp. induction Hp as [|ps st resp st' verdict Hp IH Hs Hd]; [by rewrite andb_false_r|].
  destruct (done_effect _ _ _ _ _ _ _ Hd) as (m & replace & _ & _ & He). rewrite (effect_lifecycle _ _ _ _ He).
  cbn [applyFull]. rewrite (pages_first _ _ Hp), IH, bind_app, foldl_app. cbn [mbind list_bind]. rewrite app_nil_r.
  rewrite (bool_decide_false (ps ++ [resp] = [])) by (by destruct ps).
  destruct ps; cbn [bool_decide decide]; by destruct (passFull pass).
Qed.

(** The reputation findings, while no page says that the server has none. *)
Definition start_reputation (ps : list Response) : gmap string ReputationRow :=
  match ps with
  | [] => reputation_findings_local db
  | _ => let t := if passFull pass then ∅ else reputation_findings_local db in
         if passClearReputation pass then cleared_reputation (cfgEcosystems cfg) t else t
  end.

Lemma pages_reputation ps st :
  received_pages ps st -> stDisabled st = false ->
  reputation_findings_local (stDB st) =
  apply_rows repID repWithdrawn reputation_row (start_reputation ps) (ps ≫= respReputation).
Proof.
  intros Hp. induction Hp as [|ps st resp st' verdict Hp IH Hs Hd]; [done|].
  rewrite (done_disabled _ _ _ _ _ _ _ Hd). intros [Hst Hresp]%orb_false_iff.
  destruct (done_effect _ _ _ _ _ _ _ Hd) as (m & replace & _ & _ & He). rewrite (effect_reputation _ _ _ _ He), Hresp.
  cbn [applyFull applyClearReputation clearReputationEcosystems]. rewrite (pages_first _ _ Hp), IH by done.
  rewrite bind_app, apply_rows_app. cbn [mbind list_bind]. rewrite app_nil_r.
  destruct ps as [|first ps]; cbn [bool_decide decide start_reputation app andb]; [|done].
  cbn. destruct (passClearReputation pass), (passFull pass); done.
Qed.

Lemma pages_marker ps st :
  pages_applied server cfg pass now db ps st ->
  sync_meta (stDB st) !! syncMetaKeyReputationResync =
  if stDisabled st then Some "true" else sync_meta db !! syncMetaKeyReputationResync.
Proof.
  intros Hp. induction Hp as [|ps st resp st' _ IH _ Hpage]; [done|].
  destruct (applied_done _ _ _ Hpage) as [Hd Ht]. destruct (done_effect _ _ _ _ _ _ _ Hd) as (m & replace & _ & Hm & He).
  unfold page_metadata in Hm. rewrite Ht in Hm. injection Hm as <-.
  rewrite (effect_meta _ _ _ _ He), fresh_meta_marker, (done_disabled _ _ _ _ _ _ _ Hd).
  change (ClearReputationResync (metadata _)) with false. cbv iota.
  destruct (ReputationDisabled resp); [rewrite orb_true_r; apply lookup_insert_eq|]. by rewrite orb_false_r.
Qed.
End sequence.

(** ** Freshness *)

(** The time a finished sequence stores. *)
Lemma last_sync_stored fuel server cfg pass now db st :
  syncPaginatedResponses fuel server cfg pass now db = (Finished, st) ->
  exists first t,
    server 0%nat (request_of pass (start_sync pass db)) = Some first /\
    snapSyncedAt (stSnapshot st) = SyncedAt first /\
    ParseRFC3339Nano (TrimSpace (SyncedAt first)) = Some t /\
    sync_meta (stDB st) !! syncMetaKeyLastSync =
    if storeFreshness pass && negb (After t (Add now maxSyncFutureSkew)) then Some (SyncedAt first)
    else sync_meta db !! syncMetaKeyLastSync.
Proof.
  intros H. destruct (finished_pages _ _ _ _ _ _ _ H) as (ps & st0 & resp & Hp & Hr & Hd & Ht).
  pose proof (pages_pinned _ _ _ _ _ _ _ Hr) as Hpin.
  destruct (ps ++ [resp]) as [|first rest] eqn:E; [by destruct ps|].
  destruct Hpin as (Hserver & Hsnap & Hne & _ & [t Hparse]). exists first, t. split_and!; [done|done|done|].
  destruct (done_effect _ _ _ _ _ _ _ Hd) as (m & replace & _ & Hm & He).
  assert (sync_meta (stDB st) !! syncMetaKeyLastSync =
    if bool_decide (LastSyncAt m = "") then sync_meta db !! syncMetaKeyLastSync else Some (LastSyncAt m)) as ->.
  { rewrite (effect_meta _ _ _ _ He), fresh_meta_last. cbn [metadata].
    rewrite <- (pages_keep_freshness _ _ _ _ _ _ _ _ Hp) by (by left).
    destruct (ReputationDisabled resp); [by other_key|done]. }
  unfold page_metadata in Hm. rewrite Ht in Hm. destruct (storeFreshness pass); cbn [andb].
  2: { cbn in Hm. by injection Hm as <-. }
  unfold freshSyncApplyMetadata, syncTimestampSafeForFreshness in Hm. rewrite Hsnap, Hparse in Hm.
  rewrite bool_decide_false in Hm by done. cbn [mbind option_bind] in Hm. injection Hm as <-. cbn [LastSyncAt].
  destruct (negb _); cbn [LastSyncAt]; [by rewrite bool_decide_false|done].
Qed.

(** C26: freshness is stored with the last page only.  A sequence that does not
    finish (a request or a page failed, for any server) leaves the time and the
    transaction of the last sync and the feed state as they were, so the next
    delta starts where it would have.  A finished sequence stores the time of
    its first page, the snapshot all its pages were asked for; not a later one,
    and not one more than five minutes ahead of the local clock. *)
Theorem freshness_after_last_page fuel server cfg pass now db verdict st :
  syncPaginatedResponses fuel server cfg pass now db = (verdict, st) ->
  (verdict <> Finished -> forall key, key ∈ freshness_keys -> sync_meta (stDB st) !! key = sync_meta db !! key) /\
  (verdict = Finished -> exists first t,
     server 0%nat (request_of pass (start_sync pass db)) = Some first /\
     snapSyncedAt (stSnapshot st) = SyncedAt first /\
     ParseRFC3339Nano (TrimSpace (SyncedAt first)) = Some t /\
     sync_meta (stDB st) !! syncMetaKeyLastSync =
     if storeFreshness pass && negb (After t (Add now maxSyncFutureSkew)) then Some (SyncedAt first)
     else sync_meta db !! syncMetaKeyLastSync).
Proof.
  intros H. split.
  - intros Hv key Hk. apply sync_pages in H as [ps [[_ Hp]|(ps' & st0 & resp & -> & _ & Hp & Hs & Hpage)]].
    { by eapply pages_keep_freshness. }
    pose proof (pages_keep_freshness _ _ _ _ _ _ _ _ Hp Hk) as Hkeep.
    destruct (sync_page_done _ _ _ _ _ _ _ Hpage) as [[_ ->]|Hd]; [done|]. rewrite <- Hkeep.
    eapply truncated_keeps_freshness; [done| |done]. destruct (Truncated resp) eqn:E; [done|].
    by apply (done_verdict _ _ _ _ _ _ _ Hd) in E.
  - intros ->. exact (last_sync_stored _ _ _ _ _ _ _ H).
Qed.

(** ** Reputation resync *)

Lemma marker_after fuel server cfg pass now db verdict st :
  syncPaginatedResponses fuel server cfg pass now db = (verdict, st) ->
  sync_meta (stDB st) !! syncMetaKeyReputationResync =
  if stDisabled st then Some "true"
  else match verdict with
       | Finished => if completesReputation pass then None else sync_meta db !! syncMetaKeyReputationResync
       | _ => sync_meta db !! syncMetaKeyReputationResync
       end.
Proof.
  intros [ps [[Hv Hp]|(ps' & st0 & resp & -> & _ & Hp & Hs & Hpage)]]%sync_pages.
  { rewrite (pages_marker _ _ _ _ _ _ _ Hp). by destruct verdict. }
  pose proof (pages_marker _ _ _ _ _ _ _ Hp) as Hm0.
  destruct (sync_page_done _ _ _ _ _ _ _ Hpage) as [[-> ->]|Hd]; [done|].
  destruct (done_effect _ _ _ _ _ _ _ Hd) as (m & replace & _ & Hm & He).
  rewrite (effect_meta _ _ _ _ He), fresh_meta_marker. cbn [metadata].
  assert (ClearReputationResync m =
    match verdict with Finished => completesReputation pass && negb (stDisabled st) | _ => false end) as ->.
  { unfold page_metadata in Hm. pose proof (done_verdict _ _ _ _ _ _ _ Hd) as Hv. destruct (Truncated resp).
    - injection Hm as <-. destruct verdict; [done| |done]. by discriminate (proj1 Hv).
    - rewrite (proj2 Hv) by done. destruct (if storeFreshness pass then _ else _); [|done]. by injection Hm as <-. }
  rewrite (done_disabled _ _ _ _ _ _ _ Hd).
  assert ((if ReputationDisabled resp then <[syncMetaKeyReputationResync := "true"]> (sync_meta (stDB st0))
           else sync_meta (stDB st0)) !! syncMetaKeyReputationResync =
    if stDisabled st0 || ReputationDisabled resp then Some "true" else sync_meta db !! syncMetaKeyReputationResync) as ->.
  { destruct (ReputationDisabled resp); [rewrite orb_true_r; apply lookup_insert_eq|]. by rewrite orb_false_r. }
  destruct (stDisabled st0 || ReputationDisabled resp), verdict, (completesReputation pass); done.
Qed.

Lemma apply_rows_from {Wire Row} (id_of : Wire -> string) gone (row_of : Wire -> Row) rows id row :
  apply_rows id_of gone row_of ∅ rows !! id = Some row -> exists w, w ∈ rows /\ row = row_of w.
Proof.
  assert (forall table, apply_rows id_of gone row_of table rows !! id = Some row ->
    table !! id = Some row \/ exists w, w ∈ rows /\ row = row_of w) as H.
  { unfold apply_rows. induction rows as [|w rows IH]; intros table; [by left|]. cbn [foldl]. intros Hl.
    destruct (IH _ Hl) as [Ht|(x & Hx & ->)]; [|right; exists x; by split; [right|]].
    destruct (gone w).
    - apply lookup_delete_Some in Ht as [_ Ht]. by left.
    - apply lookup_insert_Some in Ht as [[_ <-]|[_ Ht]]; [right; exists w; by split; [left|]|by left]. }
  intros [Hl|Hl]%H; [|done]. by rewrite lookup_empty in Hl.
Qed.

(** A response of the server, to whatever request. *)
Definition answers (server : nat -> sync_request -> option Response) (resp : Response) : Prop :=
  exists n rq, server n rq = Some resp.

Lemma received_answers server cfg pass now db ps st resp :
  received_pages server cfg pass now db ps st -> resp ∈ ps -> answers server resp.
Proof.
  intros Hp. induction Hp as [|ps st page st' verdict _ IH Hs _]; [by intros ?%not_elem_of_nil|].
  intros [Hin|Hin]%elem_of_app; [by apply IH|]. apply list_elem_of_singleton in Hin as ->. by eexists _, _.
Qed.

Lemma received_disabled server cfg pass now db ps st :
  received_pages server cfg pass now db ps st -> stDisabled st = true -> exists resp, answers server resp /\ ReputationDisabled resp = true.
Proof.
  intros Hp. induction Hp as [|ps st page st' verdict _ IH Hs Hd]; [done|].
  rewrite (done_disabled _ _ _ _ _ _ _ Hd). intros [H|H]%orb_true_iff; [by apply IH|].
  exists page. split; [by eexists _, _|done].
Qed.

Lemma finished_disabled fuel server cfg pass now db st :
  syncPaginatedResponses fuel server cfg pass now db = (Finished, st) ->
  (forall resp, answers server resp -> ReputationDisabled resp = false) -> stDisabled st = false.
Proof.
  intros (ps & st0 & resp & _ & Hr & _)%finished_pages Hnone. destruct (stDisabled st) eqn:E; [|done].
  destruct (received_disabled _ _ _ _ _ _ _ Hr E) as (page & Ha & Hb). by rewrite Hnone in Hb.
Qed.

(** After a finished sequence that started from no reputation rows, every row
    was delivered by the server. *)
Lemma finished_reputation fuel server cfg pass now db st :
  syncPaginatedResponses fuel server cfg pass now db = (Finished, st) -> stDisabled st = false ->
  passFull pass = true \/ (passClearReputation pass = true /\ cfgEcosystems cfg = []) ->
  forall id row, reputation_findings_local (stDB st) !! id = Some row ->
    exists resp r, answers server resp /\ r ∈ respReputation resp /\ row = reputation_row r.
Proof.
  intros (ps & st0 & resp & _ & Hr & _)%finished_pages Hdis Hpass id row.
  rewrite (pages_reputation _ _ _ _ _ _ _ Hr Hdis).
  assert (start_reputation cfg pass db (ps ++ [resp]) = ∅) as ->.
  { assert (forall ecos, cleared_reputation ecos ∅ = ∅) as He by (intros; apply map_filter_empty).
    assert (forall t, cleared_reputation [] t = ∅) as Hall.
    { intros t. apply map_empty. intros k. apply map_lookup_filter_None. right. intros x _ H. apply H. by left. }
    unfold start_reputation. destruct (ps ++ [resp]) eqn:E; [by destruct ps|].
    destruct Hpass as [->|[-> ->]]; [|apply Hall]. destruct (passClearReputation pass); [apply He|done]. }
  intros (r & Hr' & ->)%apply_rows_from. apply list_elem_of_bind in Hr' as (page & Hin & Hpage).
  exists page, r. split_and!; [by eapply received_answers|done|done].
Qed.

(** C27: the resync marker.  While it is set, the local reputation rows may be
    incomplete.  [Sync] removes it only when it finished and every reputation
    row then in the database was delivered during this run; and a finished run
    over all ecosystems in which no page said that reputation is disabled
    leaves no marker. *)
Theorem reputation_resync_completes fuel server refetch cfg now db verdict stats db' :
  Sync fuel server refetch cfg now db = (verdict, stats, db') ->
  (GetSyncMeta syncMetaKeyReputationResync db <> "" -> GetSyncMeta syncMetaKeyReputationResync db' = "" ->
   verdict = Finished /\
   forall id row, reputation_findings_local db' !! id = Some row ->
     exists resp r, (answers server resp \/ answers refetch resp) /\ r ∈ respReputation resp /\ row = reputation_row r) /\
  (verdict = Finished -> cfgEcosystems cfg = [] ->
   (forall resp, answers server resp \/ answers refetch resp -> ReputationDisabled resp = false) ->
   GetSyncMeta syncMetaKeyReputationResync db' = "").
Proof.
  unfold Sync. destruct (syncPaginatedResponses fuel server cfg (main_pass cfg db) now db) as [v st] eqn:Hmain.
  pose proof (marker_after _ _ _ _ _ _ _ _ Hmain) as Hmark. unfold GetSyncMeta in *.
  destruct v; [|case_bool_decide as Hpend; cbn [negb andb]; [|destruct (cfgFull cfg) eqn:Hfull; cbn [negb andb]]|].
  - intros [= <- <- <-]. rewrite Hmark. split; [|done]. by destruct (stDisabled st).
  - intros [= <- <- <-]. split; [done|]. intros _ _ Hnone. rewrite Hmark.
    rewrite (finished_disabled _ _ _ _ _ _ _ Hmain) by eauto. by destruct (completesReputation _).
  - intros [= <- <- <-]. cbn [main_pass completesReputation] in Hmark. rewrite Hfull in Hmark. rewrite Hmark. split.
    + destruct (stDisabled st) eqn:Hdis; [done|]. intros _ _. split; [done|]. intros id row Hrow.
      destruct (finished_reputation _ _ _ _ _ _ _ Hmain Hdis (or_introl Hfull) id row Hrow) as (resp & r & Ha & Hr).
      exists resp, r. by split; [left|].
    + intros _ _ Hnone. rewrite (finished_disabled _ _ _ _ _ _ _ Hmain) by eauto. done.
  - cbn [main_pass completesReputation] in Hmark. rewrite Hfull in Hmark.
    destruct (stDisabled st) eqn:Hdis; cbn [negb].
    { intros [= <- <- <-]. rewrite Hmark. split; [done|]. intros _ _ Hnone.
      rewrite (finished_disabled _ _ _ _ _ _ _ Hmain) in Hdis by eauto. done. }
    destruct (syncPaginatedResponses fuel refetch _ _ _ _) as [v' st'] eqn:Hre.
    intros Hres. assert (v' = verdict /\ stDB st' = db') as [<- <-] by (destruct v'; by injection Hres). clear Hres.
    pose proof (marker_after _ _ _ _ _ _ _ _ Hre) as Hmark'. rewrite Hmark in Hmark'.
    cbn [reputationRefetchPass completesReputation] in Hmark'. rewrite Hmark'. split.
    + intros _. destruct (stDisabled st') eqn:Hdis'; [done|]. destruct v'; [done| |done].
      case_bool_decide as Hecos; [|done]. intros _. split; [done|]. intros id row Hrow.
      destruct (finished_reputation _ _ _ _ _ _ _ Hre Hdis' (or_intror (conj eq_refl Hecos)) id row Hrow)
        as (resp & r & Ha & Hr).
      exists resp, r. by split; [right|].
    + intros -> Hecos Hnone. rewrite (finished_disabled _ _ _ _ _ _ _ Hre) by eauto. by rewrite bool_decide_true.
  - intros [= <- <- <-]. rewrite Hmark. split; [|done]. by destruct (stDisabled st).
Qed.
End runs.

(** ** Witnesses *)

Section example_runs.
#[local] Instance runs_case : UnicodeCase := plain_case.
#[local] Instance runs_order : MapOrder := listed_order.

Definition example_config : SyncConfig := mk_config "https://server" "key" [] false (60 * Second) "" false.
Definition example_page (synced_at : string) (truncated : bool) (rep : list SyncReputationFinding) : Response :=
  mk_response synced_at 7 "fresh" None [] [] rep [] truncated truncated
    (if truncated then Some (mk_cursor 0 0 1 0 "" "" "x" "" true true false true) else None)
    false false [] "" false false.

(** Two pages of one snapshot; the second carries a later time. *)
Definition two_pages (n : nat) (_ : sync_request) : option Response :=
  match n with
  | O => Some (example_page "2024-01-01T00:00:00Z" true [])
  | 1%nat => Some (example_page "2024-01-02T00:00:00Z" false [])
  | _ => None
  end.

Definition after_2024 : Time := 738900 * Day.

Lemma freshness_after_last_page_witness :
  exists st, syncPaginatedResponses 3 two_pages example_config (main_pass example_config empty_local) after_2024 empty_local =
    (Finished, st) /\ sync_meta (stDB st) !! syncMetaKeyLastSync = Some "2024-01-01T00:00:00Z".
Proof.
  destruct (syncPaginatedResponses 3 two_pages example_config (main_pass example_config empty_local) after_2024 empty_local)
    as [v st] eqn:E.
  assert (v = Finished) as -> by (revert E; vm_compute; congruence). exists st. split; [reflexivity|].
  destruct (proj2 (freshness_after_last_page _ _ _ _ _ _ _ _ E) eq_refl) as (first & t & Hs & _ & Hp & ->).
  injection Hs as <-. revert Hp. vm_compute. intros [= <-]. reflexivity.
Defined.

Definition pending : LocalDB := SetSyncMeta syncMetaKeyReputationResync "true" empty_local.
Definition no_page_disabled (n : nat) (_ : sync_request) : option Response :=
  match n with O => Some (example_page "2024-01-01T00:00:00Z" false []) | _ => None end.

Lemma reputation_resync_completes_witness :
  exists stats db', Sync 2 no_page_disabled no_page_disabled example_config after_2024 pending = (Finished, stats, db') /\
    GetSyncMeta syncMetaKeyReputationResync pending <> "" /\ GetSyncMeta syncMetaKeyReputationResync db' = "".
Proof.
  destruct (Sync 2 no_page_disabled no_page_disabled example_config after_2024 pending) as [[v stats] db'] eqn:E.
  assert (v = Finished) as -> by (revert E; vm_compute; congruence). exists stats, db'.
  split; [reflexivity|]. split; [vm_compute; discriminate|].
  apply (proj2 (reputation_resync_completes _ _ _ _ _ _ _ _ _ E) eq_refl eq_refl).
  intros resp [(n & rq & H)|(n & rq & H)]; (destruct n; [injection H as <-; reflexivity|discriminate H]).
Defined.
End example_runs.
