(* ===== verification/FeedHealth.v ===== *)
(** The health of feeds (internal/feed/health.go): from a feed's status row to
    its health, and the overall status that check and sync responses carry. *)
From stdpp Require Import base list option strings.
From Stdlib Require Import Ascii ZArith Lia.
From S2P Require Import Prelude GoStrings GoTime Advisories.

Definition DefaultHealthStaleAfter : Duration := 48 * Hour.

Record HealthOptions := mk_health_options { optNow : Time; StaleAfter : Duration }.

Record HealthAssessment := mk_health { hStatus : string; hReason : string }.

Definition FeedModeExternal : string := "external".

Record RuntimeHealthConfig := mk_runtime_health {
  rhEnabled : bool;
  rhMode : string;
  RequiresAPIKey : bool;
  rhAPIKey : string;
  SupportsSyncInterval : bool
}.

Section health.
Context {U : UnicodeCase}.

(** [clock] is the current time. *)
Definition normalizedHealthOptions (clock : Time) (opts : HealthOptions) : Time * Duration :=
  (if IsZero (optNow opts) then clock else optNow opts,
   if StaleAfter opts <=? 0 then DefaultHealthStaleAfter else StaleAfter opts).

Definition FeedStatusHealth (clock : Time) (s : FeedSyncStatus) (opts : HealthOptions) : HealthAssessment :=
  let '(now, staleAfter) := normalizedHealthOptions clock opts in
  let status := ToLower (TrimSpace (LastSyncStatus s)) in
  if bool_decide (status = FeedSyncStatusError) then mk_health "error" "last sync failed"
  else if bool_decide (status = FeedSyncStatusPermanentError) then mk_health "error" "permanent feed error"
  else if bool_decide (status = FeedSyncStatusDisabled) then mk_health "disabled" "feed disabled"
  else if bool_decide (status = FeedSyncStatusExternal) then mk_health "configured" "external feed managed outside Packmon"
  else if bool_decide (status = FeedSyncStatusRunning) then mk_health "pending" "sync running"
  else if bool_decide (status = FeedSyncStatusPending) then mk_health "pending" "sync pending"
  else if bool_decide (status = FeedSyncStatusSkipped) then mk_health "warning" "last sync skipped"
  else if bool_decide (status = FeedSyncStatusRejected) then mk_health "error" "feed import rejected"
  else if negb (bool_decide (status = "") || bool_decide (status = FeedSyncStatusSuccess))
  then mk_health "error" ("unknown feed status: " +:+ status)
  else match LastSyncAt s with
       | None => mk_health "error" "never synced"
       | Some lastSyncAt =>
           if After lastSyncAt now then mk_health "warning" "last sync timestamp is in the future"
           else if staleAfter <? Sub now lastSyncAt then mk_health "warning" "stale: no sync in 48h+"
           else if (EntriesTotal s =? 0) && (EntriesSynced s =? 0) then mk_health "warning" "no entries synced yet"
           else mk_health "healthy" ""
       end.

Definition RuntimeFeedHealth (clock : Time) (cfg : RuntimeHealthConfig) (status : option FeedSyncStatus)
    (opts : HealthOptions) : HealthAssessment :=
  if negb (rhEnabled cfg) then mk_health "disabled" "feed disabled"
  else match status with
       | Some s => FeedStatusHealth clock s opts
       | None =>
           if bool_decide (rhMode cfg = FeedModeExternal)
           then mk_health "configured" "external feed managed outside Packmon"
           else if RequiresAPIKey cfg && bool_decide (TrimSpace (rhAPIKey cfg) = "")
           then mk_health "warning" "required API key not configured"
           else if negb (SupportsSyncInterval cfg) then mk_health "configured" "feed configured"
           else mk_health "pending" "never synced"
       end.

Definition HasFreshFeedEntries (clock : Time) (s : FeedSyncStatus) (opts : HealthOptions) : bool :=
  match LastSyncAt s with
  | None => false
  | Some lastSyncAt =>
      let '(now, staleAfter) := normalizedHealthOptions clock opts in
      if After lastSyncAt now then false
      else if staleAfter <? Sub now lastSyncAt then false
      else negb (EntriesTotal s =? 0) || negb (EntriesSynced s =? 0)
  end.

Definition overallStatusExcludedFeeds : list string := ["nvd"].

Definition excluded (s : FeedSyncStatus) : bool :=
  bool_decide (ToLower (TrimSpace (fsFeedName s)) ∈ overallStatusExcludedFeeds).

(** The loop of [OverallFeedStatus], with its two flags. *)
Fixpoint overall_loop (clock : Time) (opts : HealthOptions) (statuses : list FeedSyncStatus)
    (active configuredOnly : bool) : string :=
  match statuses with
  | [] => if negb active then if configuredOnly then "healthy" else "degraded" else "healthy"
  | status :: rest =>
      let continue := overall_loop clock opts rest in
      if excluded status then continue active configuredOnly
      else
        let health := hStatus (FeedStatusHealth clock status opts) in
        if bool_decide (health = "disabled") then continue active configuredOnly
        else if bool_decide (health = "configured") then continue active true
        else if bool_decide (health = "pending") && HasFreshFeedEntries clock status opts then continue true configuredOnly
        else if negb (bool_decide (health = "healthy")) then "degraded"
        else continue true configuredOnly
  end.

Definition OverallFeedStatus (clock : Time) (statuses : list FeedSyncStatus) (opts : HealthOptions) : string :=
  match statuses with
  | [] => "degraded"
  | _ => overall_loop clock opts statuses false false
  end.

(** ** What the overall status means *)

(** The feeds that count: not excluded, not disabled. *)
Definition counted (clock : Time) (opts : HealthOptions) (s : FeedSyncStatus) : bool :=
  negb (excluded s) && negb (bool_decide (hStatus (FeedStatusHealth clock s opts) = "disabled")).

(** A feed whose data can be used now. *)
Definition usable (clock : Time) (opts : HealthOptions) (s : FeedSyncStatus) : bool :=
  let health := hStatus (FeedStatusHealth clock s opts) in
  bool_decide (health = "configured") || bool_decide (health = "healthy") ||
  bool_decide (health = "pending") && HasFreshFeedEntries clock s opts.

Lemma overall_loop_eq clock opts statuses active configuredOnly :
  overall_loop clock opts statuses active configuredOnly =
  if forallb (fun s => negb (counted clock opts s) || usable clock opts s) statuses &&
     (active || configuredOnly || existsb (counted clock opts) statuses)
  then "healthy" else "degraded".
Proof.
  revert active configuredOnly. induction statuses as [|s rest IH]; intros active configuredOnly.
  { by destruct active, configuredOnly. }
  cbn [overall_loop forallb existsb]. unfold counted at 1 3, usable at 1. cbv zeta.
  destruct (excluded s); cbn [negb andb orb]; [apply IH|].
  case_bool_decide as H1; cbn [negb andb orb]; [apply IH|].
  case_bool_decide as H2; cbn [negb andb orb]; [rewrite IH; by rewrite !orb_true_r|].
  case_bool_decide as H3; cbn [negb andb orb].
  - rewrite bool_decide_false by congruence. cbn [negb andb orb].
    destruct (HasFreshFeedEntries clock s opts); cbn [andb]; [rewrite IH; by rewrite !orb_true_r|done].
  - case_bool_decide as H4; cbn [negb andb orb]; [rewrite IH; by rewrite !orb_true_r|done].
Qed.

(** The overall status is healthy exactly when some feed counts and every feed
    that counts is usable: healthy, run externally, or being synced while its
    last data is still fresh. *)
Lemma OverallFeedStatus_healthy clock statuses opts :
  OverallFeedStatus clock statuses opts = "healthy" <->
  (exists s, s ∈ statuses /\ counted clock opts s = true) /\
  (forall s, s ∈ statuses -> counted clock opts s = true -> usable clock opts s = true).
Proof.
  trans (forallb (fun s => negb (counted clock opts s) || usable clock opts s) statuses &&
         existsb (counted clock opts) statuses = true).
  - unfold OverallFeedStatus. destruct statuses as [|s rest]; [done|]. rewrite overall_loop_eq. cbn [orb].
    by destruct (_ && _).
  - rewrite andb_true_iff, forallb_forall, existsb_exists. setoid_rewrite <- list_elem_of_In.
    split; intros [H1 H2].
    + split; [done|]. intros s Hs Hc. specialize (H1 s Hs). by rewrite Hc in H1.
    + split; [|done]. intros s Hs. destruct (counted clock opts s) eqn:Hc; [by apply H2|done].
Qed.

(** A feed is healthy when its last sync succeeded within the window and
    brought entries. *)
Lemma FeedStatusHealth_healthy clock s opts :
  hStatus (FeedStatusHealth clock s opts) = "healthy" <->
  (ToLower (TrimSpace (LastSyncStatus s)) = "" \/ ToLower (TrimSpace (LastSyncStatus s)) = FeedSyncStatusSuccess) /\
  HasFreshFeedEntries clock s opts = true.
Proof.
  unfold FeedStatusHealth, HasFreshFeedEntries. destruct (normalizedHealthOptions clock opts) as [now staleAfter].
  set (status := ToLower (TrimSpace (LastSyncStatus s))).
  repeat (case_bool_decide as E; [rewrite E; split; [done|]; intros [[?|?] _]; discriminate|]; clear E).
  destruct (bool_decide (status = "") || bool_decide (status = FeedSyncStatusSuccess)) eqn:Es; cbn [negb].
  - apply orb_true_iff in Es. rewrite !bool_decide_eq_true in Es.
    destruct (LastSyncAt s); [|naive_solver]. destruct (After _ _); [naive_solver|].
    destruct (_ <? _); [naive_solver|].
    destruct (EntriesTotal s =? 0), (EntriesSynced s =? 0); cbn; naive_solver.
  - apply orb_false_iff in Es. rewrite !bool_decide_eq_false in Es. naive_solver.
Qed.
End health.
