(* ===== verification/SyncServer.v ===== *)
(** The sync endpoint: the request handler of internal/api/v1/sync.go and the
    exporters of internal/db/postgres/sync.go.

    A request is the map of its query parameters.  The database's answers are
    arguments: for every window (snapshot, since, ecosystems) the rows its WHERE
    clause selects, in the order of the ORDER BY clause; the key comparison of a
    keyset cursor, LIMIT and OFFSET are applied to them here.  [key_lt] is the
    order of keys under the collation of the database. *)
From stdpp Require Import base list option strings gmap.
From Stdlib Require Import Ascii ZArith Lia.
From S2P Require Import Prelude GoStrings GoNumbers AsciiText PackageId Json VersionCompare VersionRanges Collections.
From S2P Require Import JsonEncode Base64 Domain GoTime Lifecycle Advisories SyncCursor SyncRows Dates TimeParse.
From S2P Require Import SyncPages SyncContract LocalStore LocalBatch LocalSync SyncRuns FeedHealth.

Section parsing.
Context {U : UnicodeCase}.

(** ** Query parameters *)

Definition syncMaxOffset : Z := 10000.
Definition syncMaxXID : Z := int64_max.

(** [query.Get] *)
Definition Get (q : gmap string string) (name : string) : string := default "" (q !! name).

Definition isSyncAdvisoryCursor (raw : string) : bool :=
  bool_decide (is_Some (DecodeSyncAdvisoryCursor raw)) || bool_decide (is_Some (DecodeSyncAdvisoryRowCursor raw)).

(** [true] is no error. *)
Definition validateSyncCursorKey (raw : string) (wantParts : nat) : bool :=
  match decode_values raw with Some values => bool_decide (length values = wantParts) | None => false end.

(** The three kinds of cursor parameters; [None] is a refused parameter. *)
Definition offset_param (q : gmap string string) (name : string) : option Z :=
  let raw := TrimSpace (Get q name) in
  if bool_decide (raw = "") then Some 0
  else parsed ← Atoi raw; if (parsed <? 0) || (syncMaxOffset <? parsed) then None else Some parsed.

Definition cursor_param (q : gmap string string) (name : string) (parts : nat) (advisories : bool) : option string :=
  let raw := TrimSpace (Get q name) in
  if bool_decide (raw = "") then Some ""
  else if isSyncAdvisoryCursor raw && advisories
  then if bool_decide (TrimSpace (Get q "since") = "") then None else Some raw
  else if validateSyncCursorKey raw parts then Some raw else None.

Definition done_param (q : gmap string string) (name : string) : option bool :=
  let raw := TrimSpace (Get q name) in
  if bool_decide (raw = "") then Some false else ParseBool raw.

Definition parseSyncCursor (q : gmap string string) : option SyncCursor :=
  v ← offset_param q "vulnerabilities_offset";
  m ← offset_param q "malicious_offset";
  r ← offset_param q "reputation_offset";
  l ← offset_param q "lifecycle_offset";
  vc ← cursor_param q "vulnerabilities_cursor" 3 true;
  mc ← cursor_param q "malicious_cursor" 3 false;
  rc ← cursor_param q "reputation_cursor" 3 false;
  lc ← cursor_param q "lifecycle_cursor" 4 false;
  vd ← done_param q "vulnerabilities_done";
  md ← done_param q "malicious_done";
  rd ← done_param q "reputation_done";
  ld ← done_param q "lifecycle_done";
  Some (mk_cursor v m r l vc mc rc lc vd md rd ld).

Definition parseOptionalUintQuery (q : gmap string string) (name : string) : option Z :=
  let raw := TrimSpace (Get q name) in
  if bool_decide (raw = "") then Some 0
  else parsed ← ParseUint raw; if syncMaxXID <? parsed then None else Some parsed.

Definition parseRFC3339Timestamp (raw : string) : option Time :=
  match ParseRFC3339Nano raw with Some t => Some t | None => ParseRFC3339 raw end.

Definition splitCSV (raw : string) : list string :=
  if bool_decide (TrimSpace raw = "") then []
  else filter (fun part => part <> "") (TrimSpace <$> Split raw ",").

Definition parseSyncEcosystems (raw : string) : option (list string) :=
  let ecosystems := ToLower <$> splitCSV raw in
  if forallb Ecosystem_Valid ecosystems then Some ecosystems else None.

Definition parseSyncExportOptions (q : gmap string string) : option SyncExportOptions :=
  since ← (let raw := TrimSpace (Get q "since") in
           if bool_decide (raw = "") then Some None else Some <$> parseRFC3339Timestamp raw);
  snapshot ← (let raw := TrimSpace (Get q "snapshot") in
              if bool_decide (raw = "") then Some 0 else parseRFC3339Timestamp raw);
  sinceXID ← parseOptionalUintQuery q "since_xid";
  snapshotXID ← parseOptionalUintQuery q "snapshot_xid";
  limit ← (let raw := TrimSpace (Get q "limit") in
           if bool_decide (raw = "") then Some DefaultLimit
           else parsed ← Atoi raw; if (parsed <? 1) || (MaxLimit <? parsed) then None else Some parsed);
  offset ← offset_param q "offset";
  cursor ← parseSyncCursor q;
  ecosystems ← parseSyncEcosystems (Get q "ecosystem");
  Some (mk_options since sinceXID snapshot snapshotXID ecosystems limit offset cursor false).

(** ** Responses *)

Definition formatAPIDateTime (value : Time) : string := RFC3339Nano value.

Definition syncDateOnly (value : option Time) : option string := DateOnly <$> value.

Definition newSyncResponseEnvelope (exported : option SyncExport) (feedStatus : string)
    (feedVersions : option (gmap string string)) : Response :=
  match exported with
  | None => mk_response "" 0 feedStatus feedVersions [] [] [] [] false false None false false [] "" false false
  | Some e =>
      let '(advisory, start, complete) := SplitAdvisoryFromExport exported in
      mk_response (formatAPIDateTime (exSyncedAt e)) (exSyncedXID e) feedStatus feedVersions [] [] [] []
        (exTruncated e) (exTruncated e) (exNextCursor e) false (exVulnerabilityAffectedComplete e)
        (if exVulnerabilityAffectedComplete e then exVulnerabilitiesWithoutAffected e else [])
        advisory start complete
  end.

(** One element of [syncLifecycleResponses]; the other datasets are copied. *)
Definition syncLifecycleResponse (item : SyncLifecycleRelease) : LifecycleRow :=
  mk_wire_lifecycle (lifeID item) (lifeEcosystem item) (lifeName item) (lifeProductSlug item) (ProductLabel item)
    (lifeCycle item) (lifeLatest item) (syncDateOnly (lifeReleaseDate item)) (lifeIsLTS item)
    (syncDateOnly (lifeLTSFrom item)) (lifeIsEOAS item) (syncDateOnly (lifeEOASFrom item)) (lifeIsEOL item)
    (syncDateOnly (lifeEOLFrom item)) (lifeIsDiscontinued item) (syncDateOnly (lifeDiscontinuedFrom item))
    (lifeIsEOES item) (syncDateOnly (lifeEOESFrom item)) (lifeIsMaintained item) (lifeWithdrawn item).

Definition syncResponseFromExport (exported : option SyncExport) (feedStatus : string)
    (feedVersions : option (gmap string string)) : Response :=
  let resp := newSyncResponseEnvelope exported feedStatus feedVersions in
  match exported with
  | None => resp
  | Some e =>
      mk_response (SyncedAt resp) (SyncedXID resp) (FeedStatus resp) (FeedVersions resp) (exVulnerabilities e)
        (exMalicious e) (exReputation e) (syncLifecycleResponse <$> exLifecycle e) (Truncated resp) (HasMore resp)
        (NextCursor resp) (ReputationDisabled resp) (VulnerabilityAffectedComplete resp)
        (VulnerabilitiesWithoutAffected resp) (VulnerabilitySplitAdvisory resp) (VulnerabilitySplitStart resp)
        (VulnerabilitySplitComplete resp)
  end.

Definition withhold_cursor (c : SyncCursor) : SyncCursor :=
  mk_cursor (Vulnerabilities c) (Malicious c) (Reputation c) (SyncCursor.Lifecycle c) (VulnerabilitiesCursor c)
    (MaliciousCursor c) "" (LifecycleCursor c) (VulnerabilitiesDone c) (MaliciousDone c) true (LifecycleDone c).

Definition withholdSyncReputation (resp : Response) : Response :=
  mk_response (SyncedAt resp) (SyncedXID resp) (FeedStatus resp) (FeedVersions resp) (respVulnerabilities resp)
    (respMalicious resp) [] (respLifecycle resp) (Truncated resp) (HasMore resp) (withhold_cursor <$> NextCursor resp)
    true (VulnerabilityAffectedComplete resp) (VulnerabilitiesWithoutAffected resp) (VulnerabilitySplitAdvisory resp)
    (VulnerabilitySplitStart resp) (VulnerabilitySplitComplete resp).

(** ** The feed state of a response *)

Definition feedVersionsFromStatuses (statuses : list FeedSyncStatus) : gmap string string :=
  foldl (fun m s => match Advisories.LastSyncAt s with
                    | Some t => <[fsFeedName s := formatAPIDateTime t]> m
                    | None => m
                    end) ∅ statuses.

Definition overallFeedStatus (clock : Time) (statuses : list FeedSyncStatus) : string :=
  OverallFeedStatus clock statuses (mk_health_options 0 0).

(** [statuses] is what the store lists; [None] is an error. *)
Definition feedState (clock : Time) (statuses : option (list FeedSyncStatus)) : string * option (gmap string string) :=
  match statuses with
  | None => ("degraded", Some ∅)
  | Some l => (overallFeedStatus clock l, Some (feedVersionsFromStatuses l))
  end.

(** ** The handler *)

Inductive sync_reply :=
| MethodNotAllowed
| BadRequest
| HeadOK
| InternalServerError
| SyncOK (resp : Response).

Definition exclude_reputation (opts : SyncExportOptions) (b : bool) : SyncExportOptions :=
  mk_options (Since opts) (SinceXID opts) (SnapshotAt opts) (SnapshotXID opts) (Ecosystems opts) (Limit opts)
    (Offset opts) (Cursor opts) b.

(** [audit]: whether the audit row could be written; [export]: the store's
    answer, [None] an error. *)
Definition exportSyncData (audit : SyncExportOptions -> bool) (export : SyncExportOptions -> option SyncExport)
    (opts : SyncExportOptions) : option SyncExport :=
  if audit opts then export opts else None.

Definition HandleSync (reputationSyncEnabled : bool) (audit : SyncExportOptions -> bool)
    (export : SyncExportOptions -> option SyncExport) (clock : Time) (statuses : option (list FeedSyncStatus))
    (method : string) (q : gmap string string) : sync_reply :=
  if negb (bool_decide (method = "GET") || bool_decide (method = "HEAD")) then MethodNotAllowed
  else match parseSyncExportOptions q with
       | None => BadRequest
       | Some opts =>
           if bool_decide (method = "HEAD") then HeadOK
           else
             let opts := exclude_reputation opts (negb reputationSyncEnabled) in
             match exportSyncData audit export opts with
             | None => InternalServerError
             | Some exported =>
                 let '(status, versions) := feedState clock statuses in
                 let resp := syncResponseFromExport (Some exported) status versions in
                 SyncOK (if ExcludeReputation opts then withholdSyncReputation resp else resp)
             end
       end.
End parsing.

(** ** The PostgreSQL exporters *)

Record PackageReputation := mk_package_reputation {
  prEcosystem : string;
  prName : string;
  prVersion : string;
  prSource : string;
  prStatus : string;
  prSeverity : string;
  prSummary : string;
  prDescription : string;
  prReferenceURLs : string;
  prEvidence : string;
  prLastCheckedAt : option Time;
  prNextCheckAt : option Time;
  prLastError : string;
  prUpdatedAt : Time
}.

(** What the WHERE clauses depend on besides the cursor. *)
Record sync_window := mk_window {
  wSince : option Time;
  wSinceXID : Z;
  wEcosystems : list string;
  wSnapshot : Time;
  wSnapshotXID : Z
}.

(** The database: its clock and transaction horizon, and what its queries
    select.  [rows*] are ordered by the key of the dataset; [rowsByID] are the
    rows of the legacy offset paging; the advisory queries are given the cursor
    and the limit. *)
Record sync_database := mk_sync_db {
  dbSnapshot : Time;
  dbXID : Z;
  rowsVulnerabilities : sync_window -> list SyncVulnerability;
  rowsByID : sync_window -> list SyncVulnerability;
  advisoryRows : sync_window -> string -> Z -> list query_row;
  splitRows : sync_window -> string * string * string -> Z -> list SyncVulnerability;
  splitUnchanged : string -> Time -> Z -> bool;
  rowsMalicious : sync_window -> list SyncMalicious;
  rowsReputation : sync_window -> list PackageReputation;
  rowsLifecycle : sync_window -> list SyncLifecycleRelease
}.

Class Collation := { key_lt : list string -> list string -> bool }.

(** How an export fails: a cursor that is not of the dataset, or an index out of
    range (which panics). *)
Inductive export_failure := invalid_cursor | index_panic.

Section export.
Context {U : UnicodeCase} {K : Collation}.

Definition normalizeSeverity (severity : string) : string :=
  let normalized := ToUpper (TrimSpace severity) in
  if bool_decide (normalized = "") then "UNKNOWN" else normalized.

Definition normalizeReputationSeverity (severity : string) : string :=
  let normalized := normalizeSeverity severity in
  if bool_decide (normalized = "UNKNOWN") then "CRITICAL" else normalized.

Definition reputationFindingID (ecosystem name version : string) : string :=
  "reversinglabs:" +:+ ecosystem +:+ "/" +:+ name +:+ "@" +:+ version.

Record reversingLabsReputationMapping := mk_mapping {
  findingType : string;
  riskType : string;
  mapSeverity : Severity;
  mapTitle : string
}.

Definition reversingLabsReputationStatusMapping (status severity : string) : option reversingLabsReputationMapping :=
  '(ty, risk, title) ← (if bool_decide (status = "malicious")
                        then Some (FindingTypeMalicious, "malware", "ReversingLabs: malware detected")
                        else if bool_decide (status = "removed")
                        then Some (FindingTypeSupplyChainRisk, "removed_package",
                                   "ReversingLabs: package version was removed")
                        else if bool_decide (status = "risk")
                        then Some (FindingTypeSupplyChainRisk, RiskTypeMalwareHistory,
                                   "ReversingLabs: malware incident history")
                        else None);
  Some (mk_mapping ty risk
          (NormalizeFindingSeverity
             (mk_finding "" "" "" ty (normalizeReputationSeverity severity) "" "" "" [] "" risk "" [])) title).

Definition reputationSyncFinding (rep : PackageReputation) : SyncReputationFinding :=
  let id := reputationFindingID (prEcosystem rep) (prName rep) (prVersion rep) in
  match reversingLabsReputationStatusMapping (prStatus rep) (prSeverity rep) with
  | None => mk_reputation id (prEcosystem rep) (prName rep) (prVersion rep) "" "" "" (prSummary rep) true
  | Some m => mk_reputation id (prEcosystem rep) (prName rep) (prVersion rep) (findingType m) (riskType m)
                (mapSeverity m) (prSummary rep) false
  end.

(** Keyset comparison, OFFSET and LIMIT on the selected rows: an offset only
    counts with a limit and without a cursor. *)
Definition sql_rows {T} (key : T -> list string) (after : option (list string)) (limit offset : Z) (rows : list T)
    : list T :=
  let rows := match after with
              | Some k => filter (fun r => key_lt k (key r) = true) rows
              | None => if (0 <? limit) && (0 <? offset) then drop (Z.to_nat offset) rows else rows
              end in
  if 0 <? limit then take (Z.to_nat limit) rows else rows.

(** The cursor of a keyset query; [None] is an invalid cursor. *)
Definition sql_after (raw : string) (parts : nat) : option (option (list string)) :=
  if bool_decide (raw = "") then Some None else Some <$> decodeSyncCursorKey raw parts.

Definition window_of (opts : SyncExportOptions) (snapshot : Time) (snapshotXID : Z) : sync_window :=
  mk_window (Since opts) (SinceXID opts) (Ecosystems opts) snapshot snapshotXID.

Definition set_severity (v : SyncVulnerability) : SyncVulnerability :=
  mk_vulnerability (vulnID v) (vulnEcosystem v) (vulnName v) (vulnVersionRanges v) (VersionsAffected v) (References v)
    (normalizeSeverity (vulnSeverity v)) (CVSSScore v) (EPSSScore v) (EPSSPercentile v) (CISAKEV v) (vulnSummary v)
    (vulnSource v) (vulnWithdrawn v).

Definition set_mal_severity (m : SyncMalicious) : SyncMalicious :=
  mk_malicious (malID m) (malEcosystem m) (malName m) (malVersionRanges m) (Versions m) (ReferenceURLs m)
    (malRiskType m) (normalizeSeverity (malSeverity m)) (malSummary m) (malSource m) (malWithdrawn m).

Definition vuln_key (v : SyncVulnerability) : list string := [vulnEcosystem v; vulnName v; vulnID v].
Definition mal_key (m : SyncMalicious) : list string := [malEcosystem m; malName m; malID m].
Definition life_key (l : SyncLifecycleRelease) : list string :=
  [lifeEcosystem l; lifeName l; lifeProductSlug l; lifeCycle l].

(** The rows of the query of [buildExportSyncVulnerabilitiesQuery]. *)
Definition vulnerability_query (db : sync_database) (opts : SyncExportOptions) (snapshot : Time) (snapshotXID : Z)
    : list query_row + export_failure :=
  let w := window_of opts snapshot snapshotXID in
  let raw := VulnerabilitiesCursor (Cursor opts) in
  let plain v := mk_query_row v false false in
  match syncVulnerabilityPagingFor opts with
  | syncVulnerabilityAdvisoryPages => inl (advisoryRows db w raw (Limit opts))
  | syncVulnerabilityAdvisorySplit =>
      match DecodeSyncAdvisoryRowCursor raw with
      | None => inr invalid_cursor
      | Some position => inl (plain <$> splitRows db w position (Limit opts))
      end
  | pg =>
      match sql_after raw 3 with
      | None => inr invalid_cursor
      | Some after =>
          inl (plain <$> sql_rows vuln_key after (Limit opts) (Offset opts)
                 (match pg with syncVulnerabilityDeltaRowOffset => rowsByID db w | _ => rowsVulnerabilities db w end))
      end
  end.

Definition exportSyncVulnerabilities (db : sync_database) (opts : SyncExportOptions) (snapshot : Time) (snapshotXID : Z)
    : syncVulnerabilityPage + export_failure :=
  match vulnerability_query db opts snapshot snapshotXID with
  | inr e => inr e
  | inl rows =>
      let pg := syncVulnerabilityPagingFor opts in
      let split := match pg with
                   | syncVulnerabilityAdvisorySplit =>
                       match DecodeSyncAdvisoryRowCursor (VulnerabilitiesCursor (Cursor opts)) with
                       | Some (id, _, _) => id | None => "" end
                   | _ => "" end in
      let rows := (fun q => mk_query_row (set_severity (qItem q)) (qMarker q) (qMore q)) <$> rows in
      match vuln_page pg (Limit opts) split SyncVulnerabilityPageByteBudget rows with
      | None => inr index_panic
      | Some page =>
          inl (if vSplitLast page
               then mk_vuln_page (vRows page) (vHasMore page) (vWithoutAffected page) (vLastAdvisoryID page)
                      (vNextCursor page) (vSplit page) (vSplitAdvisoryID page) (vSplitStart page) (vSplitLast page)
                      (splitUnchanged db (vSplitAdvisoryID page) snapshot snapshotXID)
               else page)
      end
  end.

(** A dataset paged by rows; [scan] is what becomes of a row. *)
Definition export_rows {R T} (key : R -> list string) (scan : R -> T) (wireBytes : T -> Z) (budget : Z) (parts : nat)
    (raw : string) (opts : SyncExportOptions) (rows : list R) : syncRowPage T + export_failure :=
  match sql_after raw parts with
  | None => inr invalid_cursor
  | Some after =>
      inl (row_page wireBytes (Limit opts) budget (scan <$> sql_rows key after (Limit opts) (Offset opts) rows))
  end.

Definition pr_key (r : PackageReputation) : list string := [prEcosystem r; prName r; prVersion r].

Definition exportSyncMalicious (db : sync_database) (opts : SyncExportOptions) (snapshot : Time) (snapshotXID : Z)
    : syncRowPage SyncMalicious + export_failure :=
  export_rows mal_key set_mal_severity syncMaliciousWireBytes SyncMaliciousPageByteBudget 3
    (MaliciousCursor (Cursor opts)) opts (rowsMalicious db (window_of opts snapshot snapshotXID)).

Definition exportSyncReputation (db : sync_database) (opts : SyncExportOptions) (snapshot : Time) (snapshotXID : Z)
    : syncRowPage SyncReputationFinding + export_failure :=
  export_rows pr_key reputationSyncFinding syncReputationWireBytes SyncReputationPageByteBudget 3
    (ReputationCursor (Cursor opts)) opts (rowsReputation db (window_of opts snapshot snapshotXID)).

Definition exportSyncLifecycle (db : sync_database) (opts : SyncExportOptions) (snapshot : Time) (snapshotXID : Z)
    : syncRowPage SyncLifecycleRelease + export_failure :=
  export_rows life_key id syncLifecycleWireBytes SyncLifecyclePageByteBudget 4 (LifecycleCursor (Cursor opts)) opts
    (rowsLifecycle db (window_of opts snapshot snapshotXID)).

Definition resolveSyncSnapshot (db : sync_database) (opts : SyncExportOptions) : Time * Z :=
  if negb (IsZero (SnapshotAt opts))
  then (SnapshotAt opts, if SnapshotXID opts =? 0 then dbXID db else SnapshotXID opts)
  else (dbSnapshot db, dbXID db).

(** [ExportSync]; [None] is an error or a panic. *)
Definition ExportSync (db : sync_database) (opts : SyncExportOptions) : option SyncExport :=
  let '(snapshot, snapshotXID) := resolveSyncSnapshot db opts in
  let cursor := EffectiveCursor opts in
  let exporters := mk_exporters (fun o => exportSyncVulnerabilities db o snapshot snapshotXID)
                     (fun o => exportSyncMalicious db o snapshot snapshotXID)
                     (fun o => exportSyncReputation db o snapshot snapshotXID)
                     (fun o => exportSyncLifecycle db o snapshot snapshotXID) in
  match exportSyncDatasets opts cursor exporters with
  | inr _ => None
  | inl datasets => newSyncExport opts cursor snapshot snapshotXID datasets
  end.
End export.

(** ** What a response says *)

(** The handler's response is the one of the contract. *)
Lemma syncResponseFromExport_contract exported status versions :
  syncResponseFromExport exported status versions = ResponseFromExport exported status versions.
Proof.
  unfold syncResponseFromExport, newSyncResponseEnvelope, ResponseFromExport. destruct exported as [e|]; [|done].
  by destruct (SplitAdvisoryFromExport (Some e)) as [[a s] c].
Qed.

(** *** Lifecycle dates *)

Lemma DateOnly_text t : four_digit_year t -> TrimSpace (DateOnly t) = DateOnly t /\ DateOnly t <> "".
Proof.
  unfold four_digit_year, DateOnly. rewrite day_of_seconds. pose proof (civil_range (day_of t)) as Hr.
  destruct (civil (day_of t)) as [[y m] d]. intros Hy. rewrite (proj2 (Z.ltb_ge y 0)) by lia. split.
  - apply TrimSpace_visible. rewrite !all_bytes_app, !(digits_visible (padded _ _)) by (apply padded_digits; lia). done.
  - intros E. apply (f_equal String.length) in E. rewrite !str_len_app in E. cbn in E. lia.
Qed.

Lemma DateOnly_truncate t : DateOnly (truncate_day t) = DateOnly t.
Proof.
  unfold DateOnly. rewrite !day_of_seconds.
  assert (day_of (truncate_day t) = day_of t) as ->; [|done].
  unfold day_of, truncate_day. assert (0 < Day) by (unfold Day, Hour, Minute, Second; lia).
  rewrite (Z.div_mod t Day) at 1 by lia. replace (Day * (t / Day) + t mod Day - t mod Day) with (t / Day * Day) by lia.
  apply Z.div_mul. lia.
Qed.

Definition years_fit (value : option Time) : Prop := match value with Some t => four_digit_year t | None => True end.

Lemma syncDateValue_date value :
  years_fit value -> syncDateValue (syncDateOnly value) = Some (DateOnly <$> value).
Proof.
  destruct value as [t|]; [|done]. intros Hy. destruct (DateOnly_text t Hy) as [Ht Hne].
  unfold syncDateValue, syncDateOnly. cbn [fmap option_fmap option_map]. cbv zeta.
  rewrite Ht, bool_decide_false, ParseDateOnly_DateOnly by done. by rewrite DateOnly_truncate.
Qed.

Lemma parseSQLiteDate_date value : years_fit value -> parseSQLiteDate (DateOnly <$> value) = truncate_day <$> value.
Proof.
  destruct value as [t|]; [|done]. intros Hy. destruct (DateOnly_text t Hy) as [Ht Hne].
  unfold parseSQLiteDate. cbn [fmap option_fmap option_map]. cbv zeta.
  by rewrite Ht, bool_decide_false, ParseDateOnly_DateOnly.
Qed.

Lemma boolInt_read b : negb (boolInt b =? 0) = b.
Proof. by destruct b. Qed.

(** A lifecycle release survives the sync.  The dates of an exported release
    are written as days, sent, stored as text by the client and read back from
    its database: what the local scan evaluates is the exported release, with
    the normalized package name and with every date at the start of its day. *)
Theorem lifecycle_survives_sync {U : UnicodeCase} (item : SyncLifecycleRelease) :
  Forall years_fit [lifeReleaseDate item; lifeLTSFrom item; lifeEOASFrom item; lifeEOLFrom item;
                    lifeDiscontinuedFrom item; lifeEOESFrom item] ->
  exists row, lifecycle_row (syncLifecycleResponse item) = Some row /\
    release_row row =
    mk_row (lifeID item) (lifeEcosystem item) (normalizePackageName (lifeEcosystem item) (lifeName item))
      (lifeProductSlug item) (ProductLabel item)
      (mk_release (lifeCycle item) (lifeLatest item) (truncate_day <$> lifeReleaseDate item) (lifeIsLTS item)
         (truncate_day <$> lifeLTSFrom item) (lifeIsEOAS item) (truncate_day <$> lifeEOASFrom item) (lifeIsEOL item)
         (truncate_day <$> lifeEOLFrom item) (lifeIsDiscontinued item) (truncate_day <$> lifeDiscontinuedFrom item)
         (lifeIsEOES item) (truncate_day <$> lifeEOESFrom item) (lifeIsMaintained item)).
Proof.
  rewrite !Forall_cons. intros (H1 & H2 & H3 & H4 & H5 & H6 & _).
  unfold lifecycle_row, syncLifecycleResponse.
  cbn [wReleaseDate wLTSFrom wEOASFrom wEOLFrom wDiscontinuedFrom wEOESFrom].
  rewrite !syncDateValue_date by done. cbn [mbind option_bind]. eexists. split; [reflexivity|].
  unfold release_row.
  cbn [llID llEcosystem llName llProductSlug llProductLabel llCycle llLatest llReleaseDate llIsLTS llLTSFrom llIsEOAS
    llEOASFrom llIsEOL llEOLFrom llIsDiscontinued llDiscontinuedFrom llIsEOES llEOESFrom llIsMaintained
    wID wEcosystem wName wProductSlug wProductLabel wCycle wLatest wIsLTS wIsEOAS wIsEOL wIsDiscontinued wIsEOES
    wIsMaintained].
  rewrite !parseSQLiteDate_date, !boolInt_read by done.
  assert (((fun i => negb (i =? 0)) <$> nullableBoolInt (lifeIsEOES item)) = lifeIsEOES item) as ->; [|done].
  destruct (lifeIsEOES item) as [[]|]; reflexivity.
Qed.

Lemma lifecycle_survives_sync_witness :
  exists row, lifecycle_row (U := plain_case) (syncLifecycleResponse sample_life) = Some row /\
    IsEOL (rowRelease (release_row row)) = lifeIsEOL sample_life.
Proof.
  destruct (lifecycle_survives_sync (U := plain_case) sample_life) as (row & H1 & H2).
  - repeat constructor; vm_compute; discriminate.
  - exists row. split; [exact H1|]. rewrite H2. reflexivity.
Defined.

(** A release with such dates is one the client accepts. *)
Lemma lifecycle_accepted {U : UnicodeCase} (item : SyncLifecycleRelease) :
  Forall years_fit [lifeReleaseDate item; lifeLTSFrom item; lifeEOASFrom item; lifeEOLFrom item;
                    lifeDiscontinuedFrom item; lifeEOESFrom item] ->
  lifecycle_ok (syncLifecycleResponse item) = true.
Proof.
  rewrite !Forall_cons. intros (H1 & H2 & H3 & H4 & H5 & H6 & _). unfold lifecycle_ok, lifecycle_row, syncLifecycleResponse.
  cbn [wReleaseDate wLTSFrom wEOASFrom wEOLFrom wDiscontinuedFrom wEOESFrom].
  rewrite !syncDateValue_date by done. cbn [mbind option_bind]. rewrite bool_decide_true by (by eexists). apply orb_true_r.
Qed.
