(* ===== verification/FullSync.v ===== *)
(** A full sync, end to end: the client of [SyncRuns] against the endpoint of
    [SyncServer].

    The request the client sends is read by the handler, the exporters cut the
    datasets into pages, the response carries the cursor of the next page, and
    the client applies page after page.  The database does not change during
    the run. *)
From stdpp Require Import base list option strings gmap.
From Stdlib Require Import Ascii ZArith Lia.
From S2P Require Import Prelude GoStrings GoNumbers AsciiText PackageId Json VersionCompare VersionRanges Collections.
From S2P Require Import JsonEncode Base64 Domain GoTime Lifecycle Advisories SyncCursor SyncRows Dates TimeParse.
From S2P Require Import SyncPages SyncContract LocalStore LocalBatch LocalSync SyncRuns FeedHealth SyncServer.

(** ** The request *)

(** Reading a parameter. *)
Lemma Get_number key n q : 0 <= n -> Get q key = "" -> Get (set_number key n q) key = if 0 <? n then Itoa n else "".
Proof. intros Hn Hq. unfold Get, set_number. destruct (0 <? n); [by rewrite lookup_insert_eq|done]. Qed.

Lemma Get_text key value q : Get q key = "" -> Get (set_text key value q) key = value.
Proof. intros Hq. unfold Get, set_text. case_bool_decide; [by subst|by rewrite lookup_insert_eq]. Qed.

Lemma Get_flag key b q : Get q key = "" -> Get (set_flag key b q) key = if b then "true" else "".
Proof. intros Hq. unfold Get, set_flag. destruct b; [by rewrite lookup_insert_eq|done]. Qed.

Lemma Get_number_ne key key' n q : key <> key' -> Get (set_number key n q) key' = Get q key'.
Proof. intros H. unfold Get, set_number. destruct (0 <? n); [by rewrite lookup_insert_ne|done]. Qed.

Lemma Get_text_ne key key' value q : key <> key' -> Get (set_text key value q) key' = Get q key'.
Proof. intros H. unfold Get, set_text. case_bool_decide; [done|by rewrite lookup_insert_ne]. Qed.

Lemma Get_flag_ne key key' b q : key <> key' -> Get (set_flag key b q) key' = Get q key'.
Proof. intros H. unfold Get, set_flag. destruct b; [by rewrite lookup_insert_ne|done]. Qed.

Lemma Get_insert_ne key key' value q : key <> key' -> Get (<[key := value]> q) key' = Get q key'.
Proof. intros H. unfold Get. by rewrite lookup_insert_ne. Qed.

Lemma Get_empty key : Get ∅ key = "".
Proof. unfold Get. by rewrite lookup_empty. Qed.

(** Follows the setters of a query down to the one of the parameter. *)
Ltac skip_params :=
  repeat first [ rewrite Get_flag_ne by discriminate | rewrite Get_text_ne by discriminate
               | rewrite Get_number_ne by discriminate | rewrite Get_insert_ne by discriminate
               | rewrite Get_empty ].

Section request.
Context {U : UnicodeCase}.

Definition number_param (n : Z) : string := if 0 <? n then Itoa n else "".
Definition flag_param (b : bool) : string := if b then "true" else "".

(** The cursor parameters of a query. *)
Record carries_cursor (q : gmap string string) (c : SyncCursor) : Prop := {
  get_vo : Get q "vulnerabilities_offset" = number_param (Vulnerabilities c);
  get_mo : Get q "malicious_offset" = number_param (Malicious c);
  get_ro : Get q "reputation_offset" = number_param (Reputation c);
  get_lo : Get q "lifecycle_offset" = number_param (SyncCursor.Lifecycle c);
  get_vc : Get q "vulnerabilities_cursor" = VulnerabilitiesCursor c;
  get_mc : Get q "malicious_cursor" = MaliciousCursor c;
  get_rc : Get q "reputation_cursor" = ReputationCursor c;
  get_lc : Get q "lifecycle_cursor" = LifecycleCursor c;
  get_vd : Get q "vulnerabilities_done" = flag_param (VulnerabilitiesDone c);
  get_md : Get q "malicious_done" = flag_param (MaliciousDone c);
  get_rd : Get q "reputation_done" = flag_param (ReputationDone c);
  get_ld : Get q "lifecycle_done" = flag_param (LifecycleDone c)
}.

Lemma zero_cursor_eq c : cursor_IsZero c = true -> c = zero_cursor.
Proof.
  destruct c as [v m r l vc mc rc lc vd md rd ld]. unfold cursor_IsZero. cbn -[Z.eqb].
  rewrite !andb_true_iff, !bool_decide_eq_true, !Z.eqb_eq, !negb_true_iff. intros H. destruct_and!. by subst.
Qed.

Definition nonneg_cursor (c : SyncCursor) : Prop :=
  0 <= Vulnerabilities c /\ 0 <= Malicious c /\ 0 <= Reputation c /\ 0 <= SyncCursor.Lifecycle c.

Lemma cursor_query_carries c q :
  nonneg_cursor c -> carries_cursor q zero_cursor -> carries_cursor (setSyncCursorQuery c q) c.
Proof.
  intros (H1 & H2 & H3 & H4) Hq. unfold setSyncCursorQuery.
  split; skip_params; first [rewrite Get_number; [done|done|]|rewrite Get_text; [done|]|rewrite Get_flag; [done|]];
    skip_params; apply Hq.
Qed.

Lemma sync_query_cursor cfg c since sinceXID snapshot snapshotXID :
  cfgEcosystems cfg = [] -> nonneg_cursor c ->
  carries_cursor (sync_query cfg since sinceXID c snapshot snapshotXID) c.
Proof.
  intros Hecos Hc. unfold sync_query. rewrite Hecos. set (q := <["limit" := _]> _).
  assert (carries_cursor q zero_cursor) as Hq by (split; unfold q; skip_params; reflexivity).
  destruct (cursor_IsZero c) eqn:Hz; [by rewrite (zero_cursor_eq c Hz)|]. by apply cursor_query_carries.
Qed.

(** *** Reading it back *)

Lemma offset_param_read q name n :
  Get q name = number_param n -> 0 <= n ->
  offset_param q name = if n <=? syncMaxOffset then Some n else None.
Proof.
  intros Hg Hn. unfold offset_param. rewrite Hg. unfold number_param. destruct (Z.ltb_spec 0 n).
  - rewrite Itoa_trim, bool_decide_false by (done || by apply Itoa_ne).
    destruct (decide (n <= int64_max)) as [Hm|Hm].
    + rewrite Atoi_Itoa by lia. cbn [mbind option_bind]. rewrite (proj2 (Z.ltb_ge n 0)) by lia. cbn [orb].
      destruct (Z.ltb_spec syncMaxOffset n), (Z.leb_spec n syncMaxOffset); done || lia.
    + assert (Atoi (Itoa n) = None) as ->.
      { rewrite Atoi_digits; [|unfold Itoa; rewrite (proj2 (Z.ltb_ge _ _)) by lia; apply itoa_nonneg_digits; lia].
        rewrite parse_digits_Itoa by done. cbn [mbind option_bind]. rewrite (proj2 (Z.leb_gt n int64_max)) by lia.
        by rewrite andb_false_r. }
      cbn [mbind option_bind]. destruct (Z.leb_spec n syncMaxOffset); [|done].
      unfold syncMaxOffset, int64_max in *. lia.
  - assert (n = 0) as -> by lia. reflexivity.
Qed.

(** A cursor string of a keyset with so many parts. *)
Definition keyset_cursor (raw : string) (parts : nat) : Prop :=
  raw = "" \/ exists values, raw = encodeSyncCursorKey values /\ length values = parts.

Lemma encode_key_trim values : TrimSpace (encodeSyncCursorKey values) = encodeSyncCursorKey values.
Proof. apply TrimSpace_visible, EncodeToString_visible. Qed.

Lemma encode_key_valid values : validateSyncCursorKey (encodeSyncCursorKey values) (length values) = true.
Proof. unfold validateSyncCursorKey. rewrite decode_encode. apply bool_decide_eq_true. by rewrite length_fmap. Qed.

Lemma encode_key_advisory values : length values = 3%nat -> isSyncAdvisoryCursor (encodeSyncCursorKey values) = false.
Proof.
  intros Hl. destruct values as [|a [|b [|c [|]]]]; try done. unfold isSyncAdvisoryCursor.
  by rewrite decode_advisory_key, decode_row_key.
Qed.

Lemma cursor_param_read q name parts advisories raw :
  Get q name = raw -> keyset_cursor raw parts -> advisories = false \/ parts = 3%nat ->
  cursor_param q name parts advisories = Some raw.
Proof.
  intros Hg Hk Hadv. unfold cursor_param. rewrite Hg. destruct Hk as [->|(values & -> & Hl)]; [reflexivity|].
  rewrite encode_key_trim, bool_decide_false by apply encode_key_ne.
  assert (isSyncAdvisoryCursor (encodeSyncCursorKey values) && advisories = false) as ->.
  { destruct Hadv as [->| ->]; [apply andb_false_r|]. by rewrite encode_key_advisory. }
  by rewrite <- Hl, encode_key_valid.
Qed.

Lemma done_param_read q name b : Get q name = flag_param b -> done_param q name = Some b.
Proof. intros Hg. unfold done_param. rewrite Hg. by destruct b. Qed.

(** The cursors a keyset-paged sequence uses. *)
Record keyset_cursors (c : SyncCursor) : Prop := {
  kc_v : keyset_cursor (VulnerabilitiesCursor c) 3;
  kc_m : keyset_cursor (MaliciousCursor c) 3;
  kc_r : keyset_cursor (ReputationCursor c) 3;
  kc_l : keyset_cursor (LifecycleCursor c) 4
}.

(** The offsets of a cursor the handler accepts. *)
Definition offsets_accepted (c : SyncCursor) : bool :=
  (Vulnerabilities c <=? syncMaxOffset) && (Malicious c <=? syncMaxOffset) && (Reputation c <=? syncMaxOffset) &&
  (SyncCursor.Lifecycle c <=? syncMaxOffset).

Lemma parseSyncCursor_read q c :
  carries_cursor q c -> nonneg_cursor c -> keyset_cursors c ->
  parseSyncCursor q = if offsets_accepted c then Some c else None.
Proof.
  intros Hq (H1 & H2 & H3 & H4) Hk. unfold parseSyncCursor, offsets_accepted.
  rewrite (offset_param_read _ _ _ (get_vo _ _ Hq)) by done.
  destruct (_ <=? _); cbn [mbind option_bind andb]; [|done]. rewrite (offset_param_read _ _ _ (get_mo _ _ Hq)) by done.
  destruct (_ <=? _); cbn [mbind option_bind andb]; [|done]. rewrite (offset_param_read _ _ _ (get_ro _ _ Hq)) by done.
  destruct (_ <=? _); cbn [mbind option_bind andb]; [|done]. rewrite (offset_param_read _ _ _ (get_lo _ _ Hq)) by done.
  destruct (_ <=? _); cbn [mbind option_bind andb]; [|done].
  rewrite (cursor_param_read _ _ _ _ _ (get_vc _ _ Hq) (kc_v _ Hk)) by (by right). cbn [mbind option_bind].
  rewrite (cursor_param_read _ _ _ _ _ (get_mc _ _ Hq) (kc_m _ Hk)) by (by left). cbn [mbind option_bind].
  rewrite (cursor_param_read _ _ _ _ _ (get_rc _ _ Hq) (kc_r _ Hk)) by (by left). cbn [mbind option_bind].
  rewrite (cursor_param_read _ _ _ _ _ (get_lc _ _ Hq) (kc_l _ Hk)) by (by left). cbn [mbind option_bind].
  rewrite (done_param_read _ _ _ (get_vd _ _ Hq)). cbn [mbind option_bind].
  rewrite (done_param_read _ _ _ (get_md _ _ Hq)). cbn [mbind option_bind].
  rewrite (done_param_read _ _ _ (get_rd _ _ Hq)). cbn [mbind option_bind].
  rewrite (done_param_read _ _ _ (get_ld _ _ Hq)). cbn [mbind option_bind]. by destruct c.
Qed.

(** The snapshot a request names: none yet, or an instant and a transaction. *)
Definition names_snapshot (snapshot snapshotXID : string) (t : Time) (xid : Z) : Prop :=
  (snapshot = "" /\ snapshotXID = "" /\ t = 0 /\ xid = 0) \/
  (snapshot = RFC3339Nano t /\ snapshotXID = Itoa xid /\ four_digit_year t /\ 0 <= xid <= int64_max).

Lemma RFC3339Nano_ne t : RFC3339Nano t <> "".
Proof.
  unfold RFC3339Nano, format_time. destruct (civil _) as [[y m] d]. intros E. apply (f_equal String.length) in E.
  rewrite !str_len_app in E. simpl in E. lia.
Qed.

Lemma parseSyncExportOptions_read cfg c snapshot snapshotXID t xid :
  cfgEcosystems cfg = [] -> nonneg_cursor c -> keyset_cursors c -> names_snapshot snapshot snapshotXID t xid ->
  parseSyncExportOptions (sync_query cfg "" "" c snapshot snapshotXID) =
  if offsets_accepted c then Some (mk_options None 0 t xid [] syncPageLimit 0 c false) else None.
Proof.
  intros Hecos Hc Hk Hs. pose proof (sync_query_cursor cfg c "" "" snapshot snapshotXID Hecos Hc) as Hq.
  pose proof (parseSyncCursor_read _ _ Hq Hc Hk) as Hparse.
  set (q0 := set_text "snapshot_xid" snapshotXID (set_text "snapshot" snapshot (set_text "since_xid" "" (set_text "since" "" ∅)))).
  set (q := sync_query cfg "" "" c snapshot snapshotXID) in *.
  assert (q = if cursor_IsZero c then <["limit" := Itoa syncPageLimit]> q0
              else setSyncCursorQuery c (<["limit" := Itoa syncPageLimit]> q0)) as Eq
    by (unfold q, sync_query; by rewrite Hecos).
  assert (Get q "since" = "" /\ Get q "since_xid" = "" /\ Get q "offset" = "" /\ Get q "ecosystem" = "" /\
          Get q "snapshot" = snapshot /\ Get q "snapshot_xid" = snapshotXID /\ Get q "limit" = Itoa syncPageLimit)
    as (G1 & G2 & G3 & G4 & G5 & G6 & G7).
  { rewrite Eq. clear. destruct (cursor_IsZero c); unfold setSyncCursorQuery; split_and!; skip_params; unfold q0; skip_params;
      try reflexivity; try (rewrite Get_text; [done|]; skip_params; reflexivity); unfold Get; by rewrite lookup_insert_eq. }
  clearbody q. unfold parseSyncExportOptions. rewrite G1, Hparse.
  assert (offset_param q "offset" = Some 0) as -> by (unfold offset_param; by rewrite G3).
  assert (parseOptionalUintQuery q "since_xid" = Some 0) as -> by (unfold parseOptionalUintQuery; by rewrite G2).
  assert (parseOptionalUintQuery q "snapshot_xid" = Some xid) as ->.
  { unfold parseOptionalUintQuery. rewrite G6. destruct Hs as [(_ & -> & _ & ->)|(_ & -> & _ & Hx)]; [done|].
    rewrite Itoa_trim, bool_decide_false by (lia || (apply Itoa_ne; lia)).
    rewrite ParseUint_Itoa by (unfold uint64_max, int64_max in *; lia). cbn [mbind option_bind].
    by rewrite (proj2 (Z.ltb_ge _ _)) by (unfold syncMaxXID; lia). }
  rewrite G4, G5, G7. cbv zeta. change (TrimSpace "") with "". rewrite (bool_decide_true ("" = "")) by done. cbn [mbind option_bind].
  match goal with |- ?m ≫= _ = _ => assert (m = Some t) as -> end.
  { destruct Hs as [(-> & _ & -> & _)|(-> & _ & Hy & _)]; [done|].
    rewrite TrimSpace_visible by (by apply RFC3339Nano_visible). rewrite bool_decide_false by apply RFC3339Nano_ne.
    unfold parseRFC3339Timestamp. by rewrite ParseRFC3339Nano_RFC3339Nano. }
  cbn [mbind option_bind]. change (TrimSpace (Itoa syncPageLimit)) with "10000".
  change (Atoi "10000") with (Some 10000). rewrite bool_decide_false by done. cbn [mbind option_bind].
  change ((10000 <? 1) || (MaxLimit <? 10000)) with false. cbv iota. cbn [mbind option_bind].
  destruct (offsets_accepted c); [|done]. cbn [mbind option_bind].
  change (parseSyncEcosystems "") with (Some (@nil string)). reflexivity.
Qed.
End request.

(** ** The pages *)

(** *** Vulnerabilities paged by rows: the builder does what the row builder does *)

Record keyset_sim (b : syncVulnerabilityPageBuilder) (r : syncRowPageBuilder SyncVulnerability) : Prop := {
  sim_paging : paging b = syncVulnerabilityRowKeyset;
  sim_limit : vLimit b = rowLimit r;
  sim_budget : vBudget b = rowBudget r;
  sim_used : vUsed b = rowUsed r;
  sim_stopped : vStopped b = rowStopped r;
  sim_rows : vRows (vPage b) = pageRows (rowPage r);
  sim_markers : vWithoutAffected (vPage b) = [];
  sim_split : vSplitLast (vPage b) = false
}.

Definition plain_row (v : SyncVulnerability) : query_row := mk_query_row v false false.

Lemma keyset_feed items b r :
  keyset_sim b r ->
  exists b', vuln_feed (plain_row <$> items) b = Some b' /\ keyset_sim b' (row_feed syncVulnerabilityWireBytes items r).
Proof.
  revert b r. induction items as [|v items IH]; intros b r Hs; [by exists b|].
  cbn [fmap list_fmap vuln_feed row_feed]. unfold vuln_add, row_add. cbn [plain_row qItem qMarker qMore].
  rewrite (sim_stopped _ _ Hs). destruct (rowStopped r) eqn:Hstop; [by exists b|].
  rewrite (sim_paging _ _ Hs), (sim_used _ _ Hs), (sim_budget _ _ Hs), (sim_rows _ _ Hs), (sim_markers _ _ Hs).
  change (row_size v false) with (syncVulnerabilityWireBytes v).
  assert (negb ((rowUsed r + syncVulnerabilityWireBytes v <=? rowBudget r) ||
                bool_decide (pageRows (rowPage r) = []) && bool_decide (@nil string = [])) =
          (0 <? Z.of_nat (length (pageRows (rowPage r)))) && (rowBudget r <? rowUsed r + syncVulnerabilityWireBytes v)) as ->.
  { rewrite (bool_decide_true (@nil string = [])) by done. rewrite andb_true_r, negb_orb, andb_comm. f_equal.
    - destruct (pageRows (rowPage r)); [done|]. rewrite bool_decide_false by done. cbn. by destruct (length _).
    - destruct (Z.leb_spec (rowUsed r + syncVulnerabilityWireBytes v) (rowBudget r)),
        (Z.ltb_spec (rowBudget r) (rowUsed r + syncVulnerabilityWireBytes v)); done || lia. }
  destruct (_ && _).
  - eexists. split; [reflexivity|]. destruct Hs. by split.
  - apply IH. destruct Hs as [S1 S2 S3 S4 S5 S6 S7 S8]. split; try done.
    + cbn. by rewrite S4.
    + cbn. by rewrite S5.
    + cbn. by rewrite S6.
Qed.

Lemma vuln_page_keyset limit budget items :
  exists page, vuln_page syncVulnerabilityRowKeyset limit "" budget (plain_row <$> items) = Some page /\
    vRows page = pageRows (row_page syncVulnerabilityWireBytes limit budget items) /\
    vHasMore page = pageHasMore (row_page syncVulnerabilityWireBytes limit budget items) /\
    vSplitLast page = false.
Proof.
  unfold vuln_page, row_page.
  destruct (keyset_feed items (newSyncVulnerabilityPageBuilder syncVulnerabilityRowKeyset limit "" budget)
              (newSyncRowPageBuilder limit budget)) as (b & -> & Hs); [by split|].
  eexists. split; [reflexivity|]. unfold vuln_finish, row_finish. destruct Hs as [S1 S2 S3 S4 S5 S6 S7 S8]. rewrite S1.
  cbn. by rewrite S2, S5, S6.
Qed.

(** *** Positions in a dataset *)

(** Before its first row, after a row, or done. *)
Inductive dataset_at {R} (key : R -> list string) (rows : list R) : nat -> string -> bool -> Prop :=
| at_start : dataset_at key rows 0 "" false
| at_row p x : rows !! p = Some x -> dataset_at key rows (S p) (encodeSyncCursorKey (key x)) false
| at_end : dataset_at key rows (length rows) "" true.

(** The rows a query selects: in strictly increasing order of their keys, whose
    parts are texts. *)
Record keyset_rows {K : Collation} {R} (key : R -> list string) (parts : nat) (rows : list R) : Prop := {
  rows_sorted : forall i j x y, (i < j)%nat -> rows !! i = Some x -> rows !! j = Some y ->
    key_lt (key x) (key y) = true;
  rows_parts : forall r, r ∈ rows -> length (key r) = parts;
  rows_utf8 : forall r, r ∈ rows -> Forall valid_utf8 (key r)
}.

Definition asymmetric {K : Collation} : Prop := forall a b, key_lt a b = true -> key_lt b a = false.

Section dataset.
Context {K : Collation} {R T : Type} (key : R -> list string) (scan : R -> T) (key' : T -> list string)
  (wire : T -> Z) (budget : Z) (parts : nat) (rows : list R).
Hypothesis asym : asymmetric.
Hypothesis rows_ok : keyset_rows key parts rows.
Hypothesis scan_key : forall r, key' (scan r) = key r.

Lemma rows_after p x :
  rows !! p = Some x -> filter (fun r => key_lt (key x) (key r) = true) rows = drop (S p) rows.
Proof.
  intros Hx. rewrite <- (take_drop_middle rows p x Hx) at 1. rewrite filter_app, filter_none, filter_cons_False.
  - rewrite filter_all; [done|]. intros y Hy. apply list_elem_of_lookup in Hy as [j Hj]. rewrite lookup_drop in Hj.
    by apply (rows_sorted _ _ _ rows_ok p (S p + j)%nat); [lia|..].
  - intros H. by rewrite (asym _ _ H) in H.
  - intros y Hy H. apply list_elem_of_lookup in Hy as [j Hj].
    pose proof (lookup_lt_Some _ _ _ Hj) as Hlt. rewrite length_take in Hlt. rewrite lookup_take_lt in Hj by lia.
    assert (key_lt (key y) (key x) = true) as Hyx by (by apply (rows_sorted _ _ _ rows_ok j p); [lia|..]).
    by rewrite (asym _ _ Hyx) in H.
Qed.

Lemma decode_row_key_text x :
  x ∈ rows -> decodeSyncCursorKey (encodeSyncCursorKey (key x)) parts = Some (key x).
Proof.
  intros Hx. unfold decodeSyncCursorKey. rewrite decode_encode. cbn [mbind option_bind].
  assert (ToValidUTF8 <$> key x = key x) as ->.
  { pose proof (rows_utf8 _ _ _ rows_ok x Hx) as Hu. induction Hu as [|s l Hs _ IH]; [done|].
    rewrite fmap_cons, IH. by rewrite Hs. }
  rewrite bool_decide_true; [done|]. by apply (rows_parts _ _ _ rows_ok).
Qed.

(** The query at a position returns the rows that follow, up to the limit. *)
Lemma query_at p raw limit :
  0 < limit -> dataset_at key rows p raw false ->
  exists after, sql_after raw parts = Some after /\
    sql_rows key after limit (Z.of_nat p) rows = take (Z.to_nat limit) (drop p rows).
Proof.
  intros Hl Hat. unfold sql_after, sql_rows. rewrite (proj2 (Z.ltb_lt 0 limit)) by done. cbn [andb].
  inversion Hat as [|p' x Hx|]; subst.
  - exists None. split; reflexivity.
  - rewrite bool_decide_false by apply encode_key_ne.
    rewrite decode_row_key_text by (by eapply list_elem_of_lookup_2). exists (Some (key x)). split; [done|].
    by rewrite (rows_after p' x).
Qed.

(** What a request at a position gets, and the position after it. *)
Record page_step (limit : Z) (p : nat) (page : syncRowPage T) (done : bool) (k : nat) : Prop := {
  step_rows : pageRows page = scan <$> take k (drop p rows);
  step_limit : Z.of_nat k <= limit;
  step_inside : (p + k <= length rows)%nat;
  step_more : pageHasMore page = true -> (0 < k)%nat;
  step_last : pageHasMore page = false -> (p + k = length rows)%nat;
  step_next : exists raw', setNextDatasetCursor done (pageHasMore page) (pageRows page) key' =
                             Some (raw', negb (pageHasMore page)) /\
                           dataset_at key rows (p + k) raw' (negb (pageHasMore page))
}.

Lemma dataset_step opts p raw done :
  0 < Limit opts -> Offset opts = Z.of_nat p -> dataset_at key rows p raw done ->
  exists page k, unless_done done (mk_row_page [] false)
                   (export_rows key scan wire budget parts raw opts rows : syncRowPage T + export_failure) = inl page /\
    page_step (Limit opts) p page done k.
Proof.
  intros Hl Hoff Hat. destruct done.
  { assert (p = length rows) as -> by (by inversion Hat). exists (mk_row_page [] false), 0%nat. split; [done|].
    split; cbn; rewrite ?Nat.add_0_r; try done; try lia.
    exists "". split; [done|]. apply at_end. }
  destruct (query_at p raw (Limit opts) Hl Hat) as (after & Ha & Hrows).
  unfold unless_done, export_rows. rewrite Ha, Hoff, Hrows.
  set (items := scan <$> take (Z.to_nat (Limit opts)) (drop p rows)).
  destruct (row_page_spec wire (Limit opts) budget items Hl) as (k & Hk & Hpage & Hne & _ & Hmore).
  assert (length items = Nat.min (Z.to_nat (Limit opts)) (length rows - p)) as Hlen
    by (unfold items; by rewrite length_fmap, length_take, length_drop).
  assert (p <= length rows)%nat as Hp.
  { inversion Hat as [|p' x Hx|]; subst; [lia|]. apply lookup_lt_Some in Hx. lia. }
  assert (pageRows (row_page wire (Limit opts) budget items) = scan <$> take k (drop p rows)) as Hpage'.
  { rewrite Hpage. unfold items. rewrite <- fmap_take. f_equal. rewrite take_take. f_equal. lia. }
  exists (row_page wire (Limit opts) budget items), k. split; [done|].
  destruct (pageHasMore (row_page wire (Limit opts) budget items)) eqn:Hm.
  - assert (0 < k)%nat as Hpos.
    { apply Hne. intros E. rewrite E in *. cbn [length] in *. symmetry in Hmore.
      apply orb_true_iff in Hmore as [Hmore|Hmore].
      - rewrite bool_decide_true in Hmore by lia. done.
      - apply Z.eqb_eq in Hmore. lia. }
    assert (is_Some (rows !! (p + k - 1)%nat)) as [x Hx] by (apply lookup_lt_is_Some; lia).
    split; rewrite ?Hm; try done; try lia. exists (encodeSyncCursorKey (key x)). unfold setNextDatasetCursor. cbn [orb negb].
    rewrite Hpage', fmap_last, last_lookup, length_take, length_drop.
    rewrite Nat.min_l by lia. rewrite lookup_take_lt, lookup_drop by lia.
    replace (p + pred k)%nat with (p + k - 1)%nat by lia. rewrite Hx. cbn. rewrite scan_key. split; [done|].
    replace (p + k)%nat with (S (p + k - 1)) by lia. by apply at_row.
  - symmetry in Hmore. apply orb_false_iff in Hmore as [H1 H2]. apply negb_false_iff, bool_decide_eq_true in H1.
    apply Z.eqb_neq in H2. assert (p + k = length rows)%nat as E by lia.
    split; rewrite ?Hm; try done; try lia. exists "". split; [done|]. rewrite E. apply at_end.
Qed.

Lemma step_length limit p page done k : page_step limit p page done k -> length (pageRows page) = k.
Proof. intros [H _ Hi _ _ _]. rewrite H, length_fmap, length_take, length_drop. lia. Qed.
End dataset.

(** *** A page of all datasets *)

Section server.
Context {U : UnicodeCase} {K : Collation} (db : sync_database).

(** The window of a full export. *)
Definition full_window : sync_window := mk_window None 0 [] (dbSnapshot db) (dbXID db).

#[local] Notation V := (rowsVulnerabilities db full_window).
#[local] Notation M := (rowsMalicious db full_window).
#[local] Notation P := (rowsReputation db full_window).
#[local] Notation L := (rowsLifecycle db full_window).

(** What the export relies on of the database: an order of keys, every query in
    that order, and a clock and transaction horizon in range. *)
Record database_ok : Prop := {
  ok_asym : asymmetric;
  ok_vulnerabilities : keyset_rows vuln_key 3 V;
  ok_malicious : keyset_rows mal_key 3 M;
  ok_reputation : keyset_rows pr_key 3 P;
  ok_lifecycle : keyset_rows life_key 4 L;
  ok_clock : four_digit_year (dbSnapshot db) /\ dbSnapshot db <> 0;
  ok_xid : 0 < dbXID db <= int64_max
}.

(** A cursor that stands at these positions of the datasets. *)
Record cursor_at (c : SyncCursor) (pv pm pr pl : nat) : Prop := {
  at_v : dataset_at vuln_key V pv (VulnerabilitiesCursor c) (VulnerabilitiesDone c);
  at_m : dataset_at mal_key M pm (MaliciousCursor c) (MaliciousDone c);
  at_r : dataset_at pr_key P pr (ReputationCursor c) (ReputationDone c);
  at_l : dataset_at life_key L pl (LifecycleCursor c) (LifecycleDone c);
  at_offsets : Vulnerabilities c = Z.of_nat pv /\ Malicious c = Z.of_nat pm /\ Reputation c = Z.of_nat pr /\
               SyncCursor.Lifecycle c = Z.of_nat pl
}.

Hypothesis ok : database_ok.

Lemma dataset_at_keyset {R} (key : R -> list string) parts rows p raw done :
  keyset_rows key parts rows -> dataset_at key rows p raw done -> keyset_cursor raw parts.
Proof.
  intros Hr [|p' x Hx|]; [by left| |by left]. right. exists (key x). split; [done|].
  apply (rows_parts _ _ _ Hr). by eapply list_elem_of_lookup_2.
Qed.

Lemma cursor_at_request c pv pm pr pl : cursor_at c pv pm pr pl -> nonneg_cursor c /\ keyset_cursors c.
Proof.
  intros [Hv Hm Hr Hl (O1 & O2 & O3 & O4)]. split; [unfold nonneg_cursor; lia|].
  split; eapply dataset_at_keyset; eauto; apply ok.
Qed.

Lemma export_vulnerabilities_keyset opts snapshot xid page :
  Since opts = None ->
  (export_rows vuln_key set_severity syncVulnerabilityWireBytes SyncVulnerabilityPageByteBudget 3
     (VulnerabilitiesCursor (Cursor opts)) opts (rowsVulnerabilities db (window_of opts snapshot xid))
     : syncRowPage SyncVulnerability + export_failure) = inl page ->
  exists vp, exportSyncVulnerabilities db opts snapshot xid = inl vp /\ vRows vp = pageRows page /\
    vHasMore vp = pageHasMore page.
Proof.
  intros Hs. unfold export_rows, exportSyncVulnerabilities, vulnerability_query, syncVulnerabilityPagingFor. rewrite Hs.
  destruct (sql_after _ _) as [after|]; [|done]. intros [= <-]. set (rows := sql_rows _ _ _ _ _).
  assert ((fun q => mk_query_row (set_severity (qItem q)) (qMarker q) (qMore q)) <$>
            ((fun v => mk_query_row v false false) <$> rows) = plain_row <$> (set_severity <$> rows)) as ->
    by (by rewrite <- !list_fmap_compose).
  destruct (vuln_page_keyset (Limit opts) SyncVulnerabilityPageByteBudget (set_severity <$> rows))
    as (vp & -> & H1 & H2 & H3). rewrite H3. by exists vp.
Qed.

Lemma nextVulnerabilityCursor_keyset c datasets :
  nextVulnerabilityCursor c syncVulnerabilityRowKeyset datasets =
  setNextDatasetCursor (VulnerabilitiesDone c) (vulnerabilitiesHaveMore datasets) (dVulnerabilities datasets) vuln_key.
Proof.
  unfold nextVulnerabilityCursor, setNextDatasetCursor. destruct (_ || _); [done|].
  rewrite !(bool_decide_false (syncVulnerabilityRowKeyset = _)) by done. by rewrite andb_false_r.
Qed.

(** The options of a request of the full sync. *)
Definition full_options (t : Time) (xid : Z) (c : SyncCursor) : SyncExportOptions :=
  mk_options None 0 t xid [] syncPageLimit 0 c false.

(** A page [e] that advances the positions. *)
Record export_step (pv pm pr pl kv km kr kl : nat) (e : SyncExport) : Prop := {
  ex_v : exVulnerabilities e = set_severity <$> take kv (drop pv V);
  ex_m : exMalicious e = set_mal_severity <$> take km (drop pm M);
  ex_r : exReputation e = reputationSyncFinding <$> take kr (drop pr P);
  ex_l : exLifecycle e = take kl (drop pl L);
  ex_at : exSyncedAt e = dbSnapshot db;
  ex_xid : exSyncedXID e = dbXID db;
  ex_limit : Z.of_nat kv <= syncPageLimit /\ Z.of_nat km <= syncPageLimit /\ Z.of_nat kr <= syncPageLimit /\
             Z.of_nat kl <= syncPageLimit;
  ex_inside : (pv + kv <= length V /\ pm + km <= length M /\ pr + kr <= length P /\ pl + kl <= length L)%nat;
  ex_next : exTruncated e = true -> (0 < kv + km + kr + kl)%nat /\
              exists c', exNextCursor e = Some c' /\ cursor_at c' (pv + kv) (pm + km) (pr + kr) (pl + kl);
  ex_last : exTruncated e = false ->
              (pv + kv = length V /\ pm + km = length M /\ pr + kr = length P /\ pl + kl = length L)%nat
}.

Lemma ExportSync_step t xid c pv pm pr pl :
  (t = 0 /\ xid = 0) \/ (t = dbSnapshot db /\ xid = dbXID db) -> cursor_at c pv pm pr pl ->
  exists e kv km kr kl, ExportSync db (full_options t xid c) = Some e /\ export_step pv pm pr pl kv km kr kl e.
Proof.
  intros Hsnap [Hv Hm Hr Hl (O1 & O2 & O3 & O4)].
  assert (resolveSyncSnapshot db (full_options t xid c) = (dbSnapshot db, dbXID db)) as Hres.
  { destruct (ok_clock ok) as [_ Hne]. pose proof (ok_xid ok). unfold resolveSyncSnapshot. cbn.
    destruct Hsnap as [[-> ->]|[-> ->]]; [done|]. unfold IsZero. rewrite (proj2 (Z.eqb_neq _ _)) by done. cbn.
    by rewrite (proj2 (Z.eqb_neq _ _)) by lia. }
  unfold ExportSync. rewrite Hres.
  assert (EffectiveCursor (full_options t xid c) = c) as ->.
  { unfold EffectiveCursor. cbn. by rewrite andb_false_r. }
  unfold exportSyncDatasets. cbn [expVulnerabilities expMalicious expReputation expLifecycle].
  assert (0 < syncPageLimit) as Hlim by (unfold syncPageLimit, MaxLimit; lia).
  set (o := syncOptionsWithOffset (full_options t xid c)).
  destruct (dataset_step vuln_key set_severity vuln_key syncVulnerabilityWireBytes SyncVulnerabilityPageByteBudget 3 V
    (ok_asym ok) (ok_vulnerabilities ok) ltac:(done) (o (Vulnerabilities c)) pv _ _ Hlim O1 Hv) as (page & kv & Ev & Sv).
  assert (exists vp, unless_done (VulnerabilitiesDone c) newSyncAdvisoryPage
            (exportSyncVulnerabilities db (o (Vulnerabilities c)) (dbSnapshot db) (dbXID db)) = inl vp /\
          vRows vp = pageRows page /\ vHasMore vp = pageHasMore page) as (vp & -> & Hvr & Hvm).
  { destruct (VulnerabilitiesDone c); cbn [unless_done] in *.
    - injection Ev as <-. by eexists.
    - by apply (export_vulnerabilities_keyset (o (Vulnerabilities c))). }
  destruct (dataset_step mal_key set_mal_severity mal_key syncMaliciousWireBytes SyncMaliciousPageByteBudget 3 M
    (ok_asym ok) (ok_malicious ok) ltac:(done) (o (Malicious c)) pm _ _ Hlim O2 Hm) as (mp & km & Em & Sm).
  change (unless_done (MaliciousDone c) (mk_row_page [] false)
            (exportSyncMalicious db (o (Malicious c)) (dbSnapshot db) (dbXID db)) = inl mp) in Em. rewrite Em.
  destruct (dataset_step pr_key reputationSyncFinding (fun r => [repEcosystem r; repName r; repVersion r])
    syncReputationWireBytes SyncReputationPageByteBudget 3 P (ok_asym ok) (ok_reputation ok)) with (opts := o (Reputation c))
    (p := pr) (raw := ReputationCursor c) (done := ReputationDone c) as (rp & kr & Er & Sr); [|done..|].
  { intros r. unfold reputationSyncFinding. by destruct (reversingLabsReputationStatusMapping _ _). }
  change (unless_done (ReputationDone c) (mk_row_page [] false)
            (exportSyncReputation db (o (Reputation c)) (dbSnapshot db) (dbXID db)) = inl rp) in Er. rewrite Er.
  destruct (dataset_step life_key id life_key syncLifecycleWireBytes SyncLifecyclePageByteBudget 4 L
    (ok_asym ok) (ok_lifecycle ok) ltac:(done) (o (SyncCursor.Lifecycle c)) pl _ _ Hlim O4 Hl) as (lp & kl & El & Sl).
  change (unless_done (LifecycleDone c) (mk_row_page [] false)
            (exportSyncLifecycle db (o (SyncCursor.Lifecycle c)) (dbSnapshot db) (dbXID db)) = inl lp) in El. rewrite El.
  set (d := mk_datasets _ _ _ _ _ _ _ _ _ _ _ _ _ _ _). unfold newSyncExport.
  change (syncVulnerabilityPagingFor _) with syncVulnerabilityRowKeyset. unfold nextSyncExportCursor.
  change (Limit (full_options t xid c)) with syncPageLimit. rewrite (proj2 (Z.leb_gt syncPageLimit 0)) by done.
  rewrite nextVulnerabilityCursor_keyset. cbn [d dVulnerabilities vulnerabilitiesHaveMore dMalicious maliciousHaveMore
    dReputation reputationHaveMore dLifecycle lifecycleHaveMore].
  pose proof (step_length _ _ _ _ _ _ _ _ _ Sv) as Nv. pose proof (step_length _ _ _ _ _ _ _ _ _ Sm) as Nm.
  pose proof (step_length _ _ _ _ _ _ _ _ _ Sr) as Nr. pose proof (step_length _ _ _ _ _ _ _ _ _ Sl) as Nl.
  destruct Sv as [Rv Bv Iv Mv Lv (rv & Cv & Av)], Sm as [Rm Bm Im Mm Lm (rm & Cm & Am)],
    Sr as [Rr Br Ir Mr Lr (rr & Cr & Ar)], Sl as [Rl Bl Il Ml Ll (rl & Cl & Al)].
  rewrite Hvr, Hvm. destruct (negb (pageHasMore page) && _ && _ && _) eqn:Hmore; cbn [mbind option_bind].
  - rewrite !andb_true_iff, !negb_true_iff in Hmore. destruct Hmore as [[[H1 H2] H3] H4].
    eexists _, kv, km, kr, kl. split; [reflexivity|]. rewrite ?list_fmap_id in Rl.
    split; cbn; try done; try congruence. intros _. auto.
  - change (fun m => [malEcosystem m; malName m; malID m]) with mal_key.
    change (fun l => [lifeEcosystem l; lifeName l; lifeProductSlug l; lifeCycle l]) with life_key.
    rewrite Cv. cbn [mbind option_bind]. rewrite Cm. cbn [mbind option_bind]. rewrite Cr. cbn [mbind option_bind].
    rewrite Cl. cbn [mbind option_bind]. eexists _, kv, km, kr, kl. split; [reflexivity|].
    rewrite ?list_fmap_id in Rl. split; cbn; try done; try congruence. intros _. split.
    + destruct (pageHasMore page), (pageHasMore mp), (pageHasMore rp), (pageHasMore lp); try discriminate Hmore;
        repeat match goal with H : true = true -> _ |- _ => specialize (H eq_refl) end; lia.
    + eexists. split; [reflexivity|]. split; cbn; try done. rewrite Nv, Nm, Nr, Nl, O1, O2, O3, O4. lia.
Qed.

(** ** The endpoint *)

Context (clock : Time) (statuses : option (list FeedSyncStatus)) (cfg : SyncConfig).
Hypothesis all_ecosystems : cfgEcosystems cfg = [].

(** The answer to a request of the client; [None] is an error status. *)
Definition served (n : nat) (rq : sync_request) : option Response :=
  match HandleSync true (fun _ => true) (ExportSync db) clock statuses "GET"
          (sync_query cfg (rqSince rq) (rqSinceXID rq) (rqCursor rq) (rqSnapshot rq) (rqSnapshotXID rq)) with
  | SyncOK resp => Some resp
  | _ => None
  end.

Lemma feed_status_not_blank : TrimSpace (feedState clock statuses).1 <> "".
Proof.
  unfold feedState, overallFeedStatus, OverallFeedStatus. destruct statuses as [[|s l]|]; [done| |done].
  cbn [fst]. rewrite overall_loop_eq. by destruct (_ && _).
Qed.

(** The snapshot a client names: none before the first page, then this one. *)
Definition snapshot_known (snap : syncPageSnapshot) : Prop :=
  snap = mk_snapshot "" "" \/ snap = mk_snapshot (RFC3339Nano (dbSnapshot db)) (Itoa (dbXID db)).

Lemma served_step n c snap pv pm pr pl :
  cursor_at c pv pm pr pl -> snapshot_known snap ->
  if offsets_accepted c
  then exists e kv km kr kl,
    served n (mk_request "" "" c (snapSyncedAt snap) (snapSyncedXID snap)) =
      Some (syncResponseFromExport (Some e) (feedState clock statuses).1 (feedState clock statuses).2) /\
    export_step pv pm pr pl kv km kr kl e
  else served n (mk_request "" "" c (snapSyncedAt snap) (snapSyncedXID snap)) = None.
Proof.
  intros Hc Hsnap. destruct (cursor_at_request _ _ _ _ _ Hc) as [Hn Hk]. unfold served, HandleSync.
  cbn [rqSince rqSinceXID rqCursor rqSnapshot rqSnapshotXID].
  assert (exists t xid, names_snapshot (snapSyncedAt snap) (snapSyncedXID snap) t xid /\
    ((t = 0 /\ xid = 0) \/ (t = dbSnapshot db /\ xid = dbXID db))) as (t & xid & Hname & Htx).
  { pose proof (ok_clock ok) as [Hy _]. pose proof (ok_xid ok). destruct Hsnap as [-> | ->].
    - exists 0, 0. split; [by left|by left].
    - exists (dbSnapshot db), (dbXID db). split; [right; split_and!; [done..|lia|lia]|by right]. }
  rewrite (parseSyncExportOptions_read cfg c _ _ t xid all_ecosystems Hn Hk Hname).
  destruct (offsets_accepted c); [|done].
  rewrite !(bool_decide_false ("GET" = "HEAD")) by done. rewrite bool_decide_true by done. cbn [negb orb].
  destruct (ExportSync_step t xid c pv pm pr pl Htx Hc) as (e & kv & km & kr & kl & He & Hstep).
  exists e, kv, km, kr, kl. split; [|done]. unfold exportSyncData, exclude_reputation.
  cbn [negb Since SinceXID SnapshotAt SnapshotXID Ecosystems Limit Offset Cursor].
  fold (full_options t xid c). rewrite He. cbn. by destruct (feedState clock statuses).
Qed.
End server.

(** ** The run *)

Lemma response_fields e status versions :
  let resp := syncResponseFromExport (Some e) status versions in
  respVulnerabilities resp = exVulnerabilities e /\ respMalicious resp = exMalicious e /\
  respReputation resp = exReputation e /\ respLifecycle resp = syncLifecycleResponse <$> exLifecycle e /\
  SyncedAt resp = RFC3339Nano (exSyncedAt e) /\ SyncedXID resp = exSyncedXID e /\ FeedStatus resp = status /\
  Truncated resp = exTruncated e /\ NextCursor resp = exNextCursor e /\ ReputationDisabled resp = false.
Proof.
  unfold syncResponseFromExport, newSyncResponseEnvelope. destruct (SplitAdvisoryFromExport (Some e)) as [[a s] c].
  by split_and!.
Qed.

Lemma take_add_fmap {A B} (f : A -> B) (l : list A) p k :
  (f <$> take p l) ++ (f <$> take k (drop p l)) = f <$> take (p + k) l.
Proof. by rewrite <- fmap_app, take_take_drop. Qed.

Section run.
Context {U : UnicodeCase} {MO : MapOrder} {K : Collation} (db : sync_database) (clock : Time)
  (statuses : option (list FeedSyncStatus)) (cfg : SyncConfig) (now : Time) (local : LocalDB).
Hypothesis ok : database_ok db.
Hypothesis all_ecosystems : cfgEcosystems cfg = [].
Hypothesis full : cfgFull cfg = true.

#[local] Notation V := (rowsVulnerabilities db (full_window db)).
#[local] Notation M := (rowsMalicious db (full_window db)).
#[local] Notation P := (rowsReputation db (full_window db)).
#[local] Notation L := (rowsLifecycle db (full_window db)).
#[local] Notation endpoint := (served db clock statuses cfg).
#[local] Notation pass := (main_pass cfg local).

(** What the pages [ps] delivered. *)
Record delivered_rows (ps : list Response) (pv pm pr pl : nat) : Prop := {
  del_v : ps ≫= respVulnerabilities = set_severity <$> take pv V;
  del_m : ps ≫= respMalicious = set_mal_severity <$> take pm M;
  del_r : ps ≫= respReputation = reputationSyncFinding <$> take pr P;
  del_l : ps ≫= respLifecycle = syncLifecycleResponse <$> take pl L
}.

(** Where the client stands before a request. *)
Record standing (ps : list Response) (st : sync_state) (pv pm pr pl : nat) : Prop := {
  stand_pages : pages_applied endpoint cfg pass now local ps st;
  stand_cursor : cursor_at db (stCursor st) pv pm pr pl;
  stand_snapshot : snapshot_known db (stSnapshot st);
  stand_rows : delivered_rows ps pv pm pr pl;
  stand_enabled : stDisabled st = false
}.

Lemma standing_start : standing [] (start_sync pass local) 0 0 0 0.
Proof. split; [constructor| |by left|by split|done]. split; [apply at_start..|done]. Qed.

Lemma request_standing st : request_of pass st =
  mk_request "" "" (stCursor st) (snapSyncedAt (stSnapshot st)) (snapSyncedXID (stSnapshot st)).
Proof. unfold request_of, main_pass, loadSyncCursorState. by rewrite full. Qed.

Lemma pin_known resp snap :
  snapshot_known db snap -> SyncedAt resp = RFC3339Nano (dbSnapshot db) -> SyncedXID resp = dbXID db ->
  pin_snapshot resp snap = mk_snapshot (RFC3339Nano (dbSnapshot db)) (Itoa (dbXID db)).
Proof.
  intros Hs H1 H2. pose proof (ok_xid _ ok). unfold pin_snapshot. rewrite H1, H2, (proj2 (Z.ltb_lt 0 _)) by lia.
  destruct Hs as [-> | ->]; cbn; [done|]. rewrite !bool_decide_false; [done|by apply Itoa_ne; lia|apply RFC3339Nano_ne].
Qed.

Lemma delivered_snoc ps resp pv pm pr pl kv km kr kl e status versions :
  resp = syncResponseFromExport (Some e) status versions -> delivered_rows ps pv pm pr pl ->
  export_step db pv pm pr pl kv km kr kl e ->
  delivered_rows (ps ++ [resp]) (pv + kv) (pm + km) (pr + kr) (pl + kl).
Proof.
  intros -> [Dv Dm Dr Dl] He. destruct (response_fields e status versions) as (F1 & F2 & F3 & F4 & _).
  split; rewrite bind_app; cbn [mbind list_bind]; rewrite app_nil_r, ?F1, ?F2, ?F3, ?F4,
    ?(ex_v _ _ _ _ _ _ _ _ _ _ He), ?(ex_m _ _ _ _ _ _ _ _ _ _ He), ?(ex_r _ _ _ _ _ _ _ _ _ _ He),
    ?(ex_l _ _ _ _ _ _ _ _ _ _ He), ?Dv, ?Dm, ?Dr, ?Dl; apply take_add_fmap.
Qed.

(** A page the client applied moves it on, or ends the sequence with every row
    delivered. *)
Lemma standing_page ps st pv pm pr pl resp verdict st' :
  standing ps st pv pm pr pl -> endpoint (length ps) (request_of pass st) = Some resp ->
  page_done cfg pass now resp st st' verdict -> sync_page cfg pass now resp st = (verdict, st') ->
  offsets_accepted (stCursor st) = true /\ exists kv km kr kl,
    delivered_rows (ps ++ [resp]) (pv + kv) (pm + km) (pr + kr) (pl + kl) /\
    (Z.of_nat kv <= syncPageLimit /\ Z.of_nat km <= syncPageLimit /\ Z.of_nat kr <= syncPageLimit /\
     Z.of_nat kl <= syncPageLimit) /\ stDisabled st' = false /\
    (verdict = Continue -> (0 < kv + km + kr + kl)%nat /\
       standing (ps ++ [resp]) st' (pv + kv) (pm + km) (pr + kr) (pl + kl)) /\
    (verdict = Finished -> (pv + kv = length V /\ pm + km = length M /\ pr + kr = length P /\ pl + kl = length L)%nat).
Proof.
  intros [Hp Hc Hs Hr Hd] Hserved Hdone Hpage. rewrite request_standing in Hserved.
  pose proof (served_step db ok clock statuses cfg all_ecosystems (length ps) _ _ _ _ _ _ Hc Hs) as Hstep.
  destruct (offsets_accepted (stCursor st)); [|by rewrite Hstep in Hserved]. split; [done|].
  destruct Hstep as (e & kv & km & kr & kl & He & Hstep). rewrite He in Hserved.
  apply (inj Some) in Hserved as Hresp.
  destruct (response_fields e (feedState clock statuses).1 (feedState clock statuses).2)
    as (_ & _ & _ & _ & F5 & F6 & _ & F8 & F9 & F10).
  rewrite Hresp in F5, F6, F8, F9, F10.
  assert (stDisabled st' = false) as Hd' by (by rewrite (done_disabled _ _ _ _ _ _ _ Hdone), Hd, F10).
  exists kv, km, kr, kl. split; [by eapply delivered_snoc|]. split; [|split_and!].
  - apply (ex_limit _ _ _ _ _ _ _ _ _ _ Hstep).
  - done.
  - intros ->. assert (Truncated resp = true) as Ht by (by apply (applied_done _ _ _ _ _ _ Hpage)).
    rewrite F8 in Ht. destruct (ex_next _ _ _ _ _ _ _ _ _ _ Hstep Ht) as (Hpos & c' & Hnext & Hc').
    split; [done|]. split.
    + eapply applied_page; [done| |done]. by rewrite request_standing, He, Hresp.
    + pose proof (done_cursor _ _ _ _ _ _ _ Hdone eq_refl) as Hcur. rewrite F9, Hnext in Hcur. by injection Hcur as <-.
    + rewrite (done_snapshot _ _ _ _ _ _ _ Hdone). right. apply pin_known; [done|..].
      * by rewrite F5, (ex_at _ _ _ _ _ _ _ _ _ _ Hstep).
      * by rewrite F6, (ex_xid _ _ _ _ _ _ _ _ _ _ Hstep).
    + by eapply delivered_snoc.
    + done.
  - intros ->. apply (ex_last _ _ _ _ _ _ _ _ _ _ Hstep). rewrite <- F8. by apply (done_verdict _ _ _ _ _ _ _ Hdone).
Qed.

Lemma pages_standing ps st :
  pages_applied endpoint cfg pass now local ps st -> exists pv pm pr pl, standing ps st pv pm pr pl.
Proof.
  intros Hp. induction Hp as [|ps st resp st' Hp IH Hs Hpage]; [do 4 eexists; apply standing_start|].
  destruct IH as (pv & pm & pr & pl & Hst). destruct (applied_done _ _ _ _ _ _ Hpage) as [Hd _].
  destruct (standing_page _ _ _ _ _ _ _ _ _ Hst Hs Hd Hpage) as (_ & kv & km & kr & kl & _ & _ & _ & Hc & _).
  do 4 eexists. by apply Hc.
Qed.

(** A finished sequence got every row, and its last request was accepted. *)
Lemma finished_rows fuel st' :
  syncPaginatedResponses fuel endpoint cfg pass now local = (Finished, st') ->
  exists ps, received_pages endpoint cfg pass now local ps st' /\ ps <> [] /\
    delivered_rows ps (length V) (length M) (length P) (length L) /\ stDisabled st' = false /\
    Z.of_nat (length V) <= syncMaxOffset + syncPageLimit /\ Z.of_nat (length M) <= syncMaxOffset + syncPageLimit /\
    Z.of_nat (length P) <= syncMaxOffset + syncPageLimit /\ Z.of_nat (length L) <= syncMaxOffset + syncPageLimit.
Proof.
  intros [ps [[? _]|(ps' & st & resp & -> & _ & Hp & Hs & Hpage)]]%sync_pages; [done|].
  destruct (sync_page_done _ _ _ _ _ _ _ Hpage) as [[? _]|Hd]; [done|].
  destruct (pages_standing _ _ Hp) as (pv & pm & pr & pl & Hst).
  destruct (standing_page _ _ _ _ _ _ _ _ _ Hst Hs Hd Hpage)
    as (Hacc & kv & km & kr & kl & Hrows & Hlim & Hdis & _ & Hend).
  destruct (Hend eq_refl) as (E1 & E2 & E3 & E4). rewrite E1, E2, E3, E4 in Hrows.
  exists (ps' ++ [resp]). split; [|split; [by destruct ps'|split; [done|split; [done|]]]].
  { eapply received_page; [by apply applied_received|done|done]. }
  unfold offsets_accepted in Hacc. rewrite !andb_true_iff, !Z.leb_le in Hacc.
  destruct (at_offsets _ _ _ _ _ _ (stand_cursor _ _ _ _ _ _ Hst)) as (O1 & O2 & O3 & O4). lia.
Qed.
End run.

(** ** The whole run *)

(** What the client relies on of the rows: it accepts them, and no dataset is
    larger than the offset a request may carry. *)
Record client_accepts {U : UnicodeCase} (db : sync_database) : Prop := {
  acc_v : forall v, v ∈ rowsVulnerabilities db (full_window db) -> vulnerability_ok v = true;
  acc_m : forall m, m ∈ rowsMalicious db (full_window db) -> malicious_ok m = true;
  acc_l : forall l, l ∈ rowsLifecycle db (full_window db) -> lifecycle_ok (syncLifecycleResponse l) = true;
  acc_size : Z.of_nat (length (rowsVulnerabilities db (full_window db))) <= syncMaxOffset /\
             Z.of_nat (length (rowsMalicious db (full_window db))) <= syncMaxOffset /\
             Z.of_nat (length (rowsReputation db (full_window db))) <= syncMaxOffset /\
             Z.of_nat (length (rowsLifecycle db (full_window db))) <= syncMaxOffset
}.

Lemma forallb_sub {A B} (f : A -> B) (P : B -> bool) (l : list A) k p :
  (forall x, x ∈ l -> P (f x) = true) -> forallb P (f <$> take k (drop p l)) = true.
Proof.
  intros H. apply forallb_forall. intros y Hy. apply list_elem_of_In, list_elem_of_fmap in Hy as (x & -> & Hx).
  apply H. eapply subseteq_drop, subseteq_take, Hx.
Qed.

Section finishes.
Context {U : UnicodeCase} {MO : MapOrder} {K : Collation} (db : sync_database) (clock : Time)
  (statuses : option (list FeedSyncStatus)) (cfg : SyncConfig) (now : Time) (local : LocalDB).
Hypothesis ok : database_ok db.
Hypothesis accepts : client_accepts db.
Hypothesis all_ecosystems : cfgEcosystems cfg = [].
Hypothesis full : cfgFull cfg = true.

#[local] Notation V := (rowsVulnerabilities db (full_window db)).
#[local] Notation M := (rowsMalicious db (full_window db)).
#[local] Notation P := (rowsReputation db (full_window db)).
#[local] Notation L := (rowsLifecycle db (full_window db)).
#[local] Notation endpoint := (served db clock statuses cfg).
#[local] Notation pass := (main_pass cfg local).

Lemma positions_inside ps st pv pm pr pl :
  standing db clock statuses cfg now local ps st pv pm pr pl ->
  (pv <= length V /\ pm <= length M /\ pr <= length P /\ pl <= length L)%nat.
Proof.
  assert (forall R (key : R -> list string) rows p raw done, dataset_at key rows p raw done -> (p <= length rows)%nat) as H.
  { intros R key rows p raw done [|q x Hx|]; [lia| |lia]. apply lookup_lt_Some in Hx. lia. }
  intros [_ [Hv Hm Hr Hl _] _ _ _]. eauto 10.
Qed.

Lemma served_page_ok pv pm pr pl kv km kr kl e status versions :
  export_step db pv pm pr pl kv km kr kl e -> page_ok (syncResponseFromExport (Some e) status versions) = true.
Proof.
  intros He. destruct (response_fields e status versions) as (F1 & F2 & _ & F4 & _). unfold page_ok. rewrite F1, F2, F4.
  rewrite (ex_v _ _ _ _ _ _ _ _ _ _ He), (ex_m _ _ _ _ _ _ _ _ _ _ He), (ex_l _ _ _ _ _ _ _ _ _ _ He).
  rewrite !andb_true_iff. split_and!; apply forallb_sub; apply accepts.
Qed.

Lemma run_finishes fuel ps st pv pm pr pl :
  standing db clock statuses cfg now local ps st pv pm pr pl ->
  (length V - pv + (length M - pm) + (length P - pr) + (length L - pl) < fuel)%nat ->
  exists st', sync_loop fuel endpoint cfg pass now (length ps) st = (Finished, st').
Proof.
  revert ps st pv pm pr pl. induction fuel as [|fuel IH]; intros ps st pv pm pr pl Hst Hfuel; [lia|].
  pose proof (positions_inside _ _ _ _ _ _ Hst) as Hin. pose proof (acc_size _ accepts) as Hsize.
  destruct (at_offsets _ _ _ _ _ _ (stand_cursor _ _ _ _ _ _ _ _ _ _ _ _ Hst)) as (O1 & O2 & O3 & O4).
  pose proof (served_step db ok clock statuses cfg all_ecosystems (length ps) _ _ _ _ _ _
    (stand_cursor _ _ _ _ _ _ _ _ _ _ _ _ Hst) (stand_snapshot _ _ _ _ _ _ _ _ _ _ _ _ Hst)) as Hserved.
  assert (offsets_accepted (stCursor st) = true) as Hacc by (unfold offsets_accepted; rewrite !andb_true_iff, !Z.leb_le; lia).
  rewrite Hacc in Hserved. destruct Hserved as (e & kv & km & kr & kl & Hserved & He).
  rewrite <- (request_standing cfg local full) in Hserved.
  set (resp := syncResponseFromExport _ _ _) in Hserved.
  destruct (response_fields e (feedState clock statuses).1 (feedState clock statuses).2)
    as (_ & _ & _ & _ & F5 & F6 & F7 & F8 & F9 & _). fold resp in F5, F6, F7, F8, F9.
  rewrite (ex_at _ _ _ _ _ _ _ _ _ _ He) in F5. rewrite (ex_xid _ _ _ _ _ _ _ _ _ _ He) in F6.
  pose proof (ok_clock _ ok) as [Hy _].
  assert (TrimSpace (RFC3339Nano (dbSnapshot db)) = RFC3339Nano (dbSnapshot db)) as Htrim
    by (by apply TrimSpace_visible, RFC3339Nano_visible).
  destruct (sync_page_accepted cfg pass now resp st (dbSnapshot db)) as (st' & Hpage).
  { by eapply served_page_ok. }
  { rewrite F5. apply RFC3339Nano_ne. }
  { unfold validateSyncResponseBeforeApply. rewrite F5, F7, Htrim.
    rewrite (bool_decide_false (RFC3339Nano _ = "")) by apply RFC3339Nano_ne.
    rewrite bool_decide_true by (rewrite ParseRFC3339Nano_RFC3339Nano by done; by eexists).
    rewrite (bool_decide_false (TrimSpace (feedState clock statuses).1 = "")) by apply feed_status_not_blank.
    by rewrite andb_false_r. }
  { rewrite (pin_known db ok) by (apply (stand_snapshot _ _ _ _ _ _ _ _ _ _ _ _ Hst) || done).
    cbn [snapSyncedAt]. rewrite Htrim. by apply ParseRFC3339Nano_RFC3339Nano. }
  { rewrite F8, F9. intros Ht. destruct (ex_next _ _ _ _ _ _ _ _ _ _ He Ht) as (Hpos & c' & Hc & Hat).
    exists c'. split; [done|]. intros ->. destruct (at_offsets _ _ _ _ _ _ Hat) as (Q1 & Q2 & Q3 & Q4). lia. }
  cbn [sync_loop]. rewrite Hserved, Hpage. destruct (Truncated resp) eqn:Ht; [|by eexists].
  destruct (applied_done _ _ _ _ _ _ Hpage) as [Hd _].
  destruct (standing_page db clock statuses cfg now local ok all_ecosystems full _ _ _ _ _ _ _ _ _ Hst Hserved Hd Hpage)
    as (_ & kv' & km' & kr' & kl' & _ & _ & _ & Hc & _). destruct (Hc eq_refl) as [Hpos Hst'].
  pose proof (positions_inside _ _ _ _ _ _ Hst').
  destruct (IH _ _ _ _ _ _ Hst' ltac:(lia)) as (st'' & Hloop). exists st''.
  by rewrite length_app, Nat.add_1_r in Hloop.
Qed.
End finishes.


(** C25: the offset bound stops larger syncs.  Every cursor of the server counts
    the rows delivered so far, the client sends the count back as an offset
    beside the keyset cursor, and the handler refuses an offset above 10000: no
    full sync of a dataset with more than 20000 rows ever finishes. *)
Theorem oversized_sync_never_finishes {U : UnicodeCase} {MO : MapOrder} {K : Collation} db clock statuses cfg now local fuel :
  database_ok db -> cfgEcosystems cfg = [] -> cfgFull cfg = true ->
  syncMaxOffset + syncPageLimit < Z.of_nat (length (rowsVulnerabilities db (full_window db))) \/
  syncMaxOffset + syncPageLimit < Z.of_nat (length (rowsMalicious db (full_window db))) \/
  syncMaxOffset + syncPageLimit < Z.of_nat (length (rowsReputation db (full_window db))) \/
  syncMaxOffset + syncPageLimit < Z.of_nat (length (rowsLifecycle db (full_window db))) ->
  (syncPaginatedResponses fuel (served db clock statuses cfg) cfg (main_pass cfg local) now local).1 <> Finished.
Proof.
  intros ok all_ecosystems full Hsize Hrun.
  destruct (syncPaginatedResponses _ _ _ _ _ _) as [verdict st] eqn:E. cbn in Hrun. subst verdict.
  destruct (finished_rows db clock statuses cfg now local ok all_ecosystems full _ _ E) as (ps & _ & _ & _ & _ & Hle). lia.
Qed.

(** ** Witnesses *)

(** A database of [n] malicious packages; its keys are ordered by length, and
    the names are 0, 00, 000 and so on. *)
Section witnesses.
#[local] Instance full_case : UnicodeCase := plain_case.
#[local] Instance full_order : MapOrder := listed_order.
#[local] Instance by_length : Collation :=
  {| key_lt := fun a b => (String.length (String.concat "" a) <? String.length (String.concat "" b))%nat |}.

Definition zeros (n : nat) : string := String.concat "" (replicate n "0").

Definition package_row (n : nat) : SyncMalicious :=
  mk_malicious "M" "npm" (zeros n) "" "" "[]" "malware" "high" "" "osv" false.

Definition package_db (n : nat) : sync_database :=
  mk_sync_db (738000 * Day) 7 (fun _ => []) (fun _ => []) (fun _ _ _ => []) (fun _ _ _ => []) (fun _ _ _ => true)
    (fun _ => package_row <$> seq 0 n) (fun _ => []) (fun _ => []).

Lemma no_rows {R} (key : R -> list string) parts : keyset_rows key parts [].
Proof. split; [intros i j x y _ Hx; destruct i; discriminate Hx|intros r Hr; destruct (not_elem_of_nil _ Hr)..]. Qed.

Lemma package_rows n : keyset_rows mal_key 3 (package_row <$> seq 0 n).
Proof.
  split.
  - intros i j x y Hij Hx Hy. rewrite list_lookup_fmap in Hx, Hy.
    destruct (seq 0 n !! i) as [a|] eqn:Ha; [|discriminate Hx]. destruct (seq 0 n !! j) as [b|] eqn:Hb; [|discriminate Hy].
    injection Hx as <-. injection Hy as <-. apply lookup_seq in Ha as [-> _], Hb as [-> _].
    apply Nat.ltb_lt. unfold mal_key. rewrite !concat_cons, !str_len_app. unfold package_row, zeros. cbn [malName].
    rewrite !zeros_length. cbn. lia.
  - intros r Hr. by apply list_elem_of_fmap in Hr as (a & -> & _).
  - intros r Hr. apply list_elem_of_fmap in Hr as (a & -> & _). repeat constructor.
    apply ToValidUTF8_ascii. generalize (zeros_digits a).
    apply all_bytes_impl. intros c. unfold isDigit. byte_cases.
Qed.

Lemma package_db_ok n : database_ok (package_db n).
Proof.
  split; try apply no_rows.
  - intros a b H. apply Nat.ltb_lt in H. apply Nat.ltb_ge. lia.
  - apply package_rows.
  - split; [apply four_digit_year_range; cbn; unfold Day, Hour, Minute, Second; lia|discriminate].
  - split; [reflexivity|discriminate].
Qed.

Definition full_config : SyncConfig := mk_config "https://server" "key" [] true (60 * Second) "" false.


Lemma oversized_sync_never_finishes_witness :
  (syncPaginatedResponses 5 (served (package_db (Z.to_nat 20001)) 0 None full_config) full_config
     (main_pass full_config empty_local) (738000 * Day) empty_local).1 <> Finished.
Proof.
  apply (oversized_sync_never_finishes (package_db (Z.to_nat 20001)) 0 None full_config (738000 * Day) empty_local 5
    (package_db_ok (Z.to_nat 20001)) eq_refl eq_refl).
  right. left. cbn [rowsMalicious package_db]. rewrite length_fmap, length_seq, Z2Nat.id by discriminate. reflexivity.
Defined.
End witnesses.
