(* ===== verification/CheckCache.v ===== *)
(** The cache of check responses (internal/api/v1/check_response_cache.go).

    A retried check is answered from the cache.  Every method runs under the
    cache's mutex and is one function; the clock reading is an argument.  The
    copies the code makes of a body are values here. *)
From stdpp Require Import base list option strings gmap sorting.
From Stdlib Require Import ZArith Lia.
From S2P Require Import Prelude GoStrings Collections GoTime.

(** ** The cache *)

Definition defaultCheckResponseCacheTTL : Duration := 10 * Minute.
Definition defaultCheckResponseCacheMaxEntries : Z := 256.

Record cachedCheckResponse := mk_cached { statusCode : Z; cachedDurationMs : Z; cachedBody : string }.

Record checkResponseCacheEntry := mk_cache_entry {
  response : cachedCheckResponse;
  expires : Time;
  stored : Time
}.

Record checkResponseCache := mk_cache {
  ttl : Duration;
  maxEntries : Z;
  entries : gmap string checkResponseCacheEntry
}.

Definition set_entries (m : gmap string checkResponseCacheEntry) (c : checkResponseCache) : checkResponseCache :=
  mk_cache (ttl c) (maxEntries c) m.

(** [None] is the nil cache. *)
Definition newCheckResponseCache (ttl : Duration) (maxEntries : Z) : option checkResponseCache :=
  if (ttl <=? 0) || (maxEntries <=? 0) then None else Some (mk_cache ttl maxEntries ∅).

Definition live (now : Time) (entry : checkResponseCacheEntry) : bool := After (expires entry) now.

Definition cache_Get (now : Time) (key : string) (c : checkResponseCache)
    : option cachedCheckResponse * checkResponseCache :=
  if bool_decide (key = "") then (None, c)
  else match entries c !! key with
       | None => (None, c)
       | Some entry =>
           if live now entry then (Some (response entry), c)
           else (None, set_entries (delete key (entries c)) c)
       end.

Definition deleteExpiredLocked (now : Time) (c : checkResponseCache) : checkResponseCache :=
  set_entries (filter (fun kv => live now kv.2 = true) (entries c)) c.

(** The loop over the map; the empty key is "none yet". *)
Definition oldest_step (oldest : string * Time) (kv : string * checkResponseCacheEntry) : string * Time :=
  if bool_decide (oldest.1 = "") || Before (stored kv.2) oldest.2 then (kv.1, stored kv.2) else oldest.

Definition cacheable (key : string) (r : cachedCheckResponse) : bool :=
  negb (bool_decide (key = "") || (statusCode r <? 200) || (300 <=? statusCode r) || bool_decide (cachedBody r = "")).

Section cache.
Context {O : MapOrder}.

Definition deleteOldestLocked (c : checkResponseCache) : checkResponseCache :=
  let '(oldestKey, _) := foldl oldest_step ("", 0) (range_map (entries c)) in
  if bool_decide (oldestKey = "") then c else set_entries (delete oldestKey (entries c)) c.

Definition cache_Set (now : Time) (key : string) (r : cachedCheckResponse) (c : checkResponseCache) : checkResponseCache :=
  if negb (cacheable key r) then c
  else
    let c := deleteExpiredLocked now c in
    let c := if bool_decide (entries c !! key = None) && (maxEntries c <=? Z.of_nat (size (entries c)))
             then deleteOldestLocked c else c in
    set_entries (<[key := mk_cache_entry r (Add now (ttl c)) now]> (entries c)) c.
End cache.

Definition checkResponseCacheKey (storedIdempotencyKey requestDigest : string) : string :=
  if bool_decide (storedIdempotencyKey = "") || bool_decide (requestDigest = "") then ""
  else storedIdempotencyKey +:+ String (byte 0) "" +:+ requestDigest.

(** ** Runs of the cache *)

Inductive cache_op :=
| OpGet (now : Time) (key : string)
| OpSet (now : Time) (key : string) (r : cachedCheckResponse).

Definition op_time (o : cache_op) : Time := match o with OpGet t _ | OpSet t _ _ => t end.

Section runs.
Context {O : MapOrder}.

Definition cache_step (c : checkResponseCache) (o : cache_op) : checkResponseCache :=
  match o with
  | OpGet now k => (cache_Get now k c).2
  | OpSet now k r => cache_Set now k r c
  end.

(** What was last stored under each key, and when. *)
Definition history_step (h : gmap string (cachedCheckResponse * Time)) (o : cache_op)
    : gmap string (cachedCheckResponse * Time) :=
  match o with
  | OpSet now k r => if cacheable k r then <[k := (r, now)]> h else h
  | OpGet _ _ => h
  end.

Definition history (ops : list cache_op) : gmap string (cachedCheckResponse * Time) := foldl history_step ∅ ops.

(** The other keys stored at [t] or later. *)
Definition newer (h : gmap string (cachedCheckResponse * Time)) (key : string) (t : Time) : gset string :=
  dom (filter (fun kv => kv.1 <> key /\ t <= kv.2.2) h).

(** The clock does not go back, and [now] is not before the last call. *)
Definition chronological (ops : list cache_op) (now : Time) : Prop :=
  StronglySorted Z.le ((op_time <$> ops) ++ [now]).

(** What holds of the cache after the calls of a history [h], the last at [now]. *)
Record cache_ok (d : Duration) (max : Z) (h : gmap string (cachedCheckResponse * Time)) (now : Time)
    (c : checkResponseCache) : Prop := {
  ok_ttl : ttl c = d;
  ok_max : maxEntries c = max;
  ok_size : Z.of_nat (size (entries c)) <= max;
  ok_entry : forall k e, entries c !! k = Some e ->
    h !! k = Some (response e, stored e) /\ expires e = stored e + d /\ k <> "" /\ stored e <= now;
  ok_missing : forall k r (t : Time), h !! k = Some (r, t) -> entries c !! k = None ->
    t + d <= now \/ max <= Z.of_nat (size (newer h k t))
}.

Lemma newer_elem h k t k' : k' ∈ newer h k t <-> k' <> k /\ exists r (t' : Time), h !! k' = Some (r, t') /\ t <= t'.
Proof.
  unfold newer. rewrite elem_of_dom. split.
  - intros [[r t'] [Hl [Hk Ht]]%map_lookup_filter_Some]. split; [done|]. eauto.
  - intros (Hk & r & t' & Hl & Ht). exists (r, t'). by apply map_lookup_filter_Some.
Qed.

(** Storing again under another key does not make a key older. *)
Lemma newer_insert h k t k' r (t' : Time) :
  (forall r0 (t0 : Time), h !! k' = Some (r0, t0) -> t0 <= t') -> newer h k t ⊆ newer (<[k' := (r, t')]> h) k t.
Proof.
  intros Hold x. rewrite !newer_elem. intros (Hx & r0 & t0 & Hl & Ht). split; [done|].
  destruct (decide (x = k')) as [->|Hne].
  - exists r, t'. rewrite lookup_insert_eq. split; [done|]. specialize (Hold _ _ Hl). lia.
  - exists r0, t0. by rewrite lookup_insert_ne by done.
Qed.

(** The loop ends with a key of the list stored no later than any other. *)
Lemma oldest_fold l acc :
  (forall kv, kv ∈ l -> kv.1 <> "") ->
  let res := foldl oldest_step acc l in
  (res = acc \/ exists e, (res.1, e) ∈ l /\ res.2 = stored e) /\
  (acc.1 <> "" -> res.1 <> "" /\ res.2 <= acc.2) /\
  (l <> [] -> res.1 <> "") /\ (forall kv, kv ∈ l -> res.2 <= stored kv.2).
Proof.
  revert acc. induction l as [|[k e] l IH]; intros acc Hne; cbn [foldl].
  { split_and!; try done; [by left|]. by intros kv ?%not_elem_of_nil. }
  assert (k <> "") as Hk by (apply (Hne (k, e)); left).
  destruct (IH (oldest_step acc (k, e))) as (H2 & H3 & _ & H5); [intros kv Hkv; apply Hne; by right|].
  assert ((oldest_step acc (k, e)).1 <> "" /\ (oldest_step acc (k, e)).2 <= stored e /\
    (acc.1 <> "" -> (oldest_step acc (k, e)).2 <= acc.2) /\
    (oldest_step acc (k, e) = acc \/ oldest_step acc (k, e) = (k, stored e))) as (S1 & S2 & S3 & S4).
  { unfold oldest_step, Before; cbn [fst snd]. case_bool_decide; cbn [orb]; [split_and!; try done; by right|].
    destruct (Z.ltb_spec (stored e) acc.2); split_and!; try done; try lia; [cbn; lia|by right|by left]. }
  destruct (H3 S1) as [H31 H32]. split_and!.
  - destruct H2 as [->|(e' & He' & ->)]; [|right; exists e'; split; [by right|done]].
    destruct S4 as [->| ->]; [by left|right; exists e; split; [left|done]].
  - intros Ha. specialize (S3 Ha). split; [done|lia].
  - done.
  - intros kv [->|Hin]%elem_of_cons; [cbn [snd]; lia|by apply H5].
Qed.

Lemma deleteOldestLocked_spec c :
  (forall k e, entries c !! k = Some e -> k <> "") -> entries c <> ∅ ->
  exists k e, entries c !! k = Some e /\ (forall k' e', entries c !! k' = Some e' -> stored e <= stored e') /\
    deleteOldestLocked c = set_entries (delete k (entries c)) c.
Proof.
  intros Hne Hfull. unfold deleteOldestLocked.
  pose proof (oldest_fold (range_map (entries c)) ("", 0)) as Hold.
  destruct (foldl oldest_step ("", 0) (range_map (entries c))) as [k t] eqn:E.
  destruct Hold as (H1 & _ & H3 & H4); [intros [k' e'] Hin; by eapply Hne, range_map_elem|].
  assert (k <> "") as Hk. { apply H3. intros Hnil. apply Hfull. apply map_size_empty_inv.
    by rewrite <- range_map_length, Hnil. }
  rewrite bool_decide_false by done. destruct H1 as [[= -> ->]|(e & He & Ht)]; [done|]. cbn in *. subst t.
  apply range_map_elem in He. exists k, e. split_and!; [done| |done].
  intros k' e' Hl. by apply (H4 (k', e')), range_map_elem.
Qed.

Lemma cache_ok_later d max h now now' c : now <= now' -> cache_ok d max h now c -> cache_ok d max h now' c.
Proof.
  intros Hle [H1 H2 H3 H4 H5]. constructor; try done.
  - intros k e He. destruct (H4 k e He) as (? & ? & ? & ?). split_and!; try done. lia.
  - intros k r t Hh Hn. destruct (H5 k r t Hh Hn); [left; lia|by right].
Qed.

(** Removing entries that are no longer live keeps the invariant. *)
Lemma cache_ok_drop d max h now c m :
  cache_ok d max h now c -> m ⊆ entries c ->
  (forall k e, entries c !! k = Some e -> m !! k = None -> live now e = false) -> cache_ok d max h now (set_entries m c).
Proof.
  intros [H1 H2 H3 H4 H5] Hsub Hdead. constructor; cbn [set_entries ttl maxEntries entries]; try done.
  - pose proof (map_subseteq_size _ _ Hsub). lia.
  - intros k e He. apply H4. by eapply lookup_weaken.
  - intros k r t Hh Hn. destruct (entries c !! k) as [e|] eqn:He; [|by eapply H5].
    pose proof (Hdead k e He Hn) as Hd. destruct (H4 k e He) as (Hh' & Hexp & _). left.
    unfold live, After in Hd. apply Z.ltb_ge in Hd. rewrite Hh in Hh'. injection Hh' as -> ->. lia.
Qed.

(** Storing a response when there is room for its key. *)
Lemma cache_ok_insert d max h (now : Time) c key r :
  cache_ok d max h now c -> key <> "" ->
  (entries c !! key = None -> Z.of_nat (size (entries c)) < max) ->
  (forall r0 (t0 : Time), h !! key = Some (r0, t0) -> t0 <= now) ->
  cache_ok d max (<[key := (r, now)]> h) now (set_entries (<[key := mk_cache_entry r (Add now (ttl c)) now]> (entries c)) c).
Proof.
  intros [H1 H2 H3 H4 H5] Hk Hroom Hpast. constructor; cbn [set_entries ttl maxEntries entries]; try done.
  - destruct (entries c !! key) as [e|] eqn:He.
    + rewrite map_size_insert_Some by eauto. lia.
    + rewrite map_size_insert_None by done. specialize (Hroom eq_refl). lia.
  - intros k e [[<- <-]|[Hne He]]%lookup_insert_Some.
    + rewrite lookup_insert_eq. cbn. unfold Add. rewrite H1. by split_and!.
    + rewrite lookup_insert_ne by done. by apply H4.
  - intros k r0 t [[<- [= -> ->]]|[Hne Hh]]%lookup_insert_Some Hn.
    + by rewrite lookup_insert_eq in Hn.
    + rewrite lookup_insert_ne in Hn by done. destruct (H5 k r0 t Hh Hn) as [|Hnew]; [by left|right].
      pose proof (subseteq_size _ _ (newer_insert h k t key r now Hpast)). lia.
Qed.

(** Storing a response under a new key in a full cache evicts an entry that
    [max] other keys are not older than. *)
Lemma cache_ok_evict d max h now c key r k0 e0 :
  0 < max -> cache_ok d max h now c -> key <> "" -> entries c !! key = None -> max <= Z.of_nat (size (entries c)) ->
  entries c !! k0 = Some e0 -> (forall k e, entries c !! k = Some e -> stored e0 <= stored e) ->
  (forall r0 (t0 : Time), h !! key = Some (r0, t0) -> t0 <= now) ->
  cache_ok d max (<[key := (r, now)]> h) now
    (set_entries (<[key := mk_cache_entry r (Add now (ttl c)) now]> (delete k0 (entries c))) c).
Proof.
  intros Hmax [H1 H2 H3 H4 H5] Hk Hnone Hfull Hk0 Hold Hpast.
  assert (size (delete k0 (entries c)) = pred (size (entries c))) as Hdel by (rewrite map_size_delete_Some; eauto).
  assert (0 < size (entries c))%nat as Hpos by lia.
  constructor; cbn [set_entries ttl maxEntries entries]; try done.
  - rewrite map_size_insert_None by (rewrite lookup_delete_None; by right). lia.
  - intros k e [[<- <-]|[Hne [_ He]%lookup_delete_Some]]%lookup_insert_Some.
    + rewrite lookup_insert_eq. cbn. unfold Add. rewrite H1. by split_and!.
    + rewrite lookup_insert_ne by done. by apply H4.
  - intros k r0 t [[<- [= -> ->]]|[Hne Hh]]%lookup_insert_Some Hn; [by rewrite lookup_insert_eq in Hn|].
    rewrite lookup_insert_ne in Hn by done. apply lookup_delete_None in Hn as [<-|Hn].
    + right. destruct (H4 k0 e0 Hk0) as (Hh0 & _ & _ & Hnow). rewrite Hh in Hh0. injection Hh0 as -> ->.
      assert ({[key]} ∪ dom (delete k0 (entries c)) ⊆ newer (<[key := (r, now)]> h) k0 (stored e0)) as Hsub.
      { intros x. rewrite elem_of_union, elem_of_singleton, elem_of_dom, newer_elem. intros [->|[e He]].
        - split; [congruence|]. exists r, now. by rewrite lookup_insert_eq.
        - apply lookup_delete_Some in He as [Hx He]. split; [done|]. exists (response e), (stored e).
          rewrite lookup_insert_ne by congruence. split; [by apply H4|by eapply Hold]. }
      apply subseteq_size in Hsub. rewrite size_union, size_singleton, size_dom, Hdel in Hsub; [lia|].
      intros x ->%elem_of_singleton [e He]%elem_of_dom. apply lookup_delete_Some in He as [_ He]. congruence.
    + destruct (H5 k r0 t Hh Hn) as [|Hnew]; [by left|right].
      pose proof (subseteq_size _ _ (newer_insert h k t key r now Hpast)). lia.
Qed.

Lemma cache_Get_ok d max h now key c : cache_ok d max h now c -> cache_ok d max h now (cache_Get now key c).2.
Proof.
  intros Hok. unfold cache_Get. case_bool_decide; [done|]. destruct (entries c !! key) as [e|] eqn:He; [|done].
  destruct (live now e) eqn:Hl; [done|]. apply cache_ok_drop; [done|apply delete_subseteq|].
  intros k e' He' [<-|Hn]%lookup_delete_None; congruence.
Qed.

Lemma cache_Set_ok d max h now key r c :
  0 < max -> cache_ok d max h now c -> (forall k r0 (t0 : Time), h !! k = Some (r0, t0) -> t0 <= now) ->
  cache_ok d max (history_step h (OpSet now key r)) now (cache_Set now key r c).
Proof.
  intros Hmax Hok Hpast. unfold cache_Set, history_step. destruct (cacheable key r) eqn:Hc; cbn [negb]; [|done].
  assert (key <> "") as Hk. { intros ->. by unfold cacheable in Hc; rewrite bool_decide_true in Hc. }
  assert (cache_ok d max h now (deleteExpiredLocked now c)) as Hok'.
  { apply cache_ok_drop; [done|apply map_filter_subseteq|]. intros k e He Hn.
    rewrite map_lookup_filter_None in Hn. destruct Hn as [Hn|Hn]; [congruence|]. 
    specialize (Hn e He). cbn in Hn. by destruct (live now e). }
  remember (deleteExpiredLocked now c) as c'. clear Heqc' Hok c. rename c' into c.
  case_bool_decide as Hnone; cbn [andb]; [|by apply cache_ok_insert; try done; apply Hpast].
  destruct (Z.leb_spec (maxEntries c) (Z.of_nat (size (entries c)))) as [Hfull|Hroom]; rewrite (ok_max _ _ _ _ _ Hok') in *.
  - destruct (deleteOldestLocked_spec c) as (k0 & e0 & Hk0 & Hold & ->).
    + intros k e He. by apply (ok_entry _ _ _ _ _ Hok' k e).
    + intros Hemp. rewrite Hemp, map_size_empty in Hfull. lia.
    + refine (cache_ok_evict d max h now c key r k0 e0 _ _ _ _ _ _ _ _); try done. apply Hpast.
  - apply cache_ok_insert; try done. apply Hpast.
Qed.

(** What is in the cache after a call was there before or was just stored. *)
Lemma cache_Get_entries now key c r c' :
  cache_Get now key c = (r, c') ->
  entries c' ⊆ entries c /\ (forall x, r = Some x -> exists e, entries c !! key = Some e /\ response e = x).
Proof.
  unfold cache_Get. case_bool_decide; [by intros [= <- <-]|]. destruct (entries c !! key) as [e|] eqn:He; [|by intros [= <- <-]].
  destruct (live now e); intros [= <- <-]; (split; [|try done]).
  - done.
  - intros x [= <-]. eauto.
  - apply delete_subseteq.
Qed.

Lemma cache_Set_entries now key r c x e :
  entries (cache_Set now key r c) !! x = Some e -> (x = key /\ response e = r) \/ entries c !! x = Some e.
Proof.
  unfold cache_Set. destruct (negb _); [by right|]. cbv zeta. cbn [set_entries entries].
  intros [[<- <-]|[Hne Hl]]%lookup_insert_Some; [by left|right].
  assert (entries (deleteExpiredLocked now c) ⊆ entries c) as Hsub by apply map_filter_subseteq.
  apply (lookup_weaken _ _ _ _ Hl). destruct (_ && _); [|done]. unfold deleteOldestLocked.
  destruct (foldl _ _ _) as [oldest t]. case_bool_decide; [done|]. cbn [set_entries entries].
  etrans; [apply delete_subseteq|done].
Qed.

Lemma history_past ops now : Forall (fun o => op_time o <= now) ops ->
  forall k r (t : Time), history ops !! k = Some (r, t) -> t <= now.
Proof.
  unfold history. induction ops as [|o ops IH] using rev_ind; [done|]. intros [Hops Ho]%Forall_app k r t.
  rewrite foldl_app. cbn [foldl]. destruct o as [|now' k' r']; cbn [history_step]; [by apply IH|].
  destruct (cacheable k' r'); [|by apply IH]. intros [[<- [= _ ->]]|[_ Hl]]%lookup_insert_Some; [|by eapply IH].
  by inversion Ho.
Qed.

Lemma chronological_snoc ops o now :
  chronological (ops ++ [o]) now -> chronological ops (op_time o) /\ op_time o <= now /\
  Forall (fun o' => op_time o' <= op_time o) ops.
Proof.
  unfold chronological. rewrite fmap_app. cbn [fmap list_fmap]. intros Hs. apply StronglySorted_app in Hs as (H1 & H2 & _).
  split_and!; [done| |].
  - specialize (H1 (op_time o) now). apply H1; [|left]. apply elem_of_app. right. left.
  - apply Forall_forall. intros o' Ho'. apply StronglySorted_app in H2 as (H2 & _ & _). apply H2; [|left].
    apply list_elem_of_fmap. by exists o'.
Qed.

Lemma cache_run_ok d max ops now :
  0 < max -> chronological ops now -> cache_ok d max (history ops) now (foldl cache_step (mk_cache d max ∅) ops).
Proof.
  intros Hmax. revert now. induction ops as [|o ops IH] using rev_ind; intros now Hch.
  { constructor; cbn; try done. rewrite map_size_empty. lia. }
  apply chronological_snoc in Hch as (Hch & Hle & Hpast). specialize (IH _ Hch).
  unfold history. rewrite !foldl_app. cbn [foldl]. apply (cache_ok_later _ _ _ (op_time o)); [done|].
  destruct o as [now' k|now' k r]; cbn [op_time cache_step] in *.
  - by apply cache_Get_ok.
  - apply cache_Set_ok; [done|done|]. by apply history_past.
Qed.

(** After any calls with a clock that does not go back, the cache holds at
    most its maximum of entries, hands out exactly the response last stored
    under the key and only before that has expired, and still hands it out
    unless as many other keys as it may hold were stored since. *)
Theorem cache_serves_last_response d max c ops now key :
  newCheckResponseCache d max = Some c -> chronological ops now ->
  let c' := foldl cache_step c ops in
  Z.of_nat (size (entries c')) <= max /\
  (forall r, (cache_Get now key c').1 = Some r -> exists t : Time, history ops !! key = Some (r, t) /\ now < t + d) /\
  (forall r (t : Time), history ops !! key = Some (r, t) -> now < t + d -> Z.of_nat (size (newer (history ops) key t)) < max ->
   (cache_Get now key c').1 = Some r).
Proof.
  unfold newCheckResponseCache. intros Hnew Hch. destruct (Z.leb_spec max 0) as [|Hmax]; [by rewrite orb_true_r in Hnew|].
  destruct (d <=? 0); [done|]. injection Hnew as <-. cbn zeta.
  destruct (cache_run_ok d max ops now Hmax Hch) as [_ _ H3 H4 H5]. split; [done|].
  unfold cache_Get, live, After. split.
  - intros r. case_bool_decide; [done|]. destruct (entries _ !! key) as [e|] eqn:He; [|done].
    destruct (H4 key e He) as (Hh & Hexp & _). destruct (Z.ltb_spec now (expires e)); [|done].
    intros [= <-]. exists (stored e). split; [done|lia].
  - intros r t Hh Hlive Hfew. destruct (entries _ !! key) as [e|] eqn:He.
    + destruct (H4 key e He) as (Hh' & Hexp & Hk & _). rewrite Hh in Hh'. injection Hh' as -> ->.
      rewrite bool_decide_false by done. by rewrite (proj2 (Z.ltb_lt _ _)) by lia.
    + destruct (H5 key r t Hh He); lia.
Qed.
End runs.

(** ** Witness *)

Section example_cache.
#[local] Instance cache_order : MapOrder := listed_order.

Definition example_calls : list cache_op :=
  [OpSet 1 "a" (mk_cached 200 5 "A"); OpSet 2 "b" (mk_cached 200 5 "B"); OpGet 3 "a"; OpSet 4 "c" (mk_cached 200 5 "C")].

(** Two entries: storing "c" evicts "a"; "b" is still there. *)
Lemma cache_serves_last_response_witness :
  exists c, newCheckResponseCache 10 2 = Some c /\
    (cache_Get 5 "b" (foldl cache_step c example_calls)).1 = Some (mk_cached 200 5 "B") /\
    (cache_Get 5 "a" (foldl cache_step c example_calls)).1 = None.
Proof.
  exists (mk_cache 10 2 ∅). split; [reflexivity|]. split; [|vm_compute; reflexivity].
  apply (proj2 (proj2 (cache_serves_last_response 10 2 (mk_cache 10 2 ∅) example_calls 5 "b" eq_refl
    ltac:(repeat constructor; discriminate))) _ 2); vm_compute; reflexivity.
Defined.
End example_cache.
