(* ===== verification/CheckRequest.v ===== *)
(** The request of the check endpoint (internal/api/v1/handler.go): decoding and
    validation of the packages, idempotency keys and digests, and the client
    fields of the scan log.

    The error text that follows "invalid request body: " is left out;
    [MediaTypes] stands for mime.ParseMediaType, and [AuditCrypto] for SHA-256. *)
From stdpp Require Import base list option strings gmap.
From Stdlib Require Import Ascii ZArith Lia.
From S2P Require Import Prelude GoStrings AsciiText PackageId Json Collections JsonEncode Domain GoTime AuditLog.
From S2P Require Import RefreshQueue.

(** ** Limits *)

Definition MaxPackagesPerCheck : Z := 5000.
Definition MaxScanPackageNameCodePoints : Z := 512.
Definition MaxScanPackageVersionCodePoints : Z := 256.
Definition MaxPackageNameUTF8Bytes : Z := 512.
Definition MaxPackageVersionUTF8Bytes : Z := 256.

Definition maxRequestBody : Z := MaxPackagesPerCheck * (MaxPackageNameUTF8Bytes + MaxPackageVersionUTF8Bytes + 128) + 1024.

Definition maxJSONEncodedBytesPerCodePoint : Z := 12.
Definition maxCheckPackageEncodedOverhead : Z := 256.
Definition maxCheckRequestEnvelopeOverhead : Z := 1024.
Definition maxCheckRequestBody : Z :=
  MaxPackagesPerCheck *
    (maxJSONEncodedBytesPerCodePoint * (MaxScanPackageNameCodePoints + MaxScanPackageVersionCodePoints) +
     maxCheckPackageEncodedOverhead) +
  maxCheckRequestEnvelopeOverhead.

Definition maxIdempotencyKeyLength : Z := 128.
Definition maxScanLogClientVersionLength : Z := 64.

(** ** The HTTP request and its refusals *)

(** mime.ParseMediaType: the media type, or [None] when it reports an error. *)
Class MediaTypes := ParseMediaType : string -> option string.

(** What the handlers read of a request.  A header that is absent is empty;
    [identity] is what the authentication middleware put into the context. *)
Record http_request := mk_http {
  Method : string;
  ContentType : string;
  RequestBody : string;
  IdempotencyHeader : string;
  UserAgent : string;
  clientIP : string;
  identity : option (Z * string);
  correlationID : string
}.

Definition len (s : string) : Z := Z.of_nat (String.length s).

(** utf8.RuneCountInString: a byte that starts no valid encoding counts as one
    rune; [fuel] bounds the number of runes. *)
Fixpoint rune_count (fuel : nat) (s : string) : Z :=
  match fuel, s with
  | S fuel', String c s' =>
      1 + (if code c <? 128 then rune_count fuel' s'
           else match utf8_multibyte s with
                | None => rune_count fuel' s'
                | Some n => rune_count fuel' (str_drop n s)
                end)
  | _, _ => 0
  end.

Definition RuneCountInString (s : string) : Z := rune_count (String.length s) s.

(** ** The wire format *)

Record RemoteRepoInfo := mk_repo { repoName : string }.
Record checkPackage := mk_check_package { cpName : string; cpVersion : string; cpEcosystem : Ecosystem }.
Record checkRequest := mk_check_request { crPackages : slice checkPackage; crRepo : option RemoteRepoInfo }.

Record ScanRequest := mk_scan_request { srPackages : list Package; srRepo : option RemoteRepoInfo }.

Section wire.
Context {U : UnicodeCase}.

(** A struct decoded with DisallowUnknownFields. *)
Definition known_fields (names : list string) (v : json) : bool :=
  match v with
  | JObject members => forallb (fun m => bool_decide (is_Some (struct_field names m.1))) members
  | _ => true
  end.

Definition dec_strict {A} (names : list string) (set : string -> decoder A) : decoder A := fun v cur =>
  if known_fields names v then dec_struct names set v cur else None.

Definition set_package_field (name : string) : decoder checkPackage := fun v p =>
  if bool_decide (name = "name") then s ← dec_string v (cpName p); Some (mk_check_package s (cpVersion p) (cpEcosystem p))
  else if bool_decide (name = "version") then
    s ← dec_string v (cpVersion p); Some (mk_check_package (cpName p) s (cpEcosystem p))
  else s ← dec_string v (cpEcosystem p); Some (mk_check_package (cpName p) (cpVersion p) s).

Definition dec_package : decoder checkPackage := dec_strict ["name"; "version"; "ecosystem"] set_package_field.

(** A pointer: null is nil, and an object decodes into what it points to. *)
Definition dec_repo : decoder (option RemoteRepoInfo) := fun v cur =>
  match v with
  | JNull => Some None
  | _ => r ← dec_strict ["name"] (fun _ v r => s ← dec_string v (repoName r); Some (mk_repo s)) v (default (mk_repo "") cur);
         Some (Some r)
  end.

Definition set_request_field (name : string) : decoder checkRequest := fun v r =>
  if bool_decide (name = "packages")
  then ps ← dec_slice (mk_check_package "" "" "") dec_package v (crPackages r); Some (mk_check_request ps (crRepo r))
  else repo ← dec_repo v (crRepo r); Some (mk_check_request (crPackages r) repo).

Definition dec_request : decoder checkRequest := dec_strict ["packages"; "repo"] set_request_field.

(** One JSON value and nothing after it, in at most [limit] bytes. *)
Definition readJSONWithLimit {A} (dec : decoder A) (body : string) (limit : Z) (cur : A) : option A :=
  if limit <? len body then None else unmarshal dec body cur.

Definition readJSON {A} (dec : decoder A) (body : string) (cur : A) : option A :=
  readJSONWithLimit dec body maxRequestBody cur.

Definition requireJSONContentType {M : MediaTypes} (contentType : string) : bool :=
  let raw := TrimSpace contentType in
  if bool_decide (raw = "") then false
  else match ParseMediaType raw with
       | Some mediaType => EqualFold mediaType "application/json"
       | None => false
       end.

(** ** Validation *)

Definition plain_package (name version : string) (ecosystem : Ecosystem) : Package :=
  mk_package name version ecosystem false false false false false [] [] [] "".

Definition checkPackagesToDomain (packages : list checkPackage) : list Package :=
  (fun p => plain_package (cpName p) (cpVersion p) (cpEcosystem p)) <$> packages.

Definition validCheckPackageEcosystem (e : Ecosystem) : bool := ScanInput e.

Definition set_coordinates (name version : string) (ecosystem : Ecosystem) (p : Package) : Package :=
  mk_package name version ecosystem (Dev p) (Direct p) (Indirect p) (Optional p) (Peer p) (Via p) (Parents p)
    (SourceRefs p) (DeclaredVersion p).

(** The body of the loop: the error text, or the normalised package. *)
Definition validate_package (position : Z) (pkg : Package) : string + Package :=
  let at_ s := "packages[" +:+ Itoa position +:+ "]." +:+ s in
  if MaxScanPackageNameCodePoints <? RuneCountInString (pkgName pkg)
  then inl (at_ ("name exceeds " +:+ Itoa MaxScanPackageNameCodePoints +:+ " Unicode code points"))
  else if MaxScanPackageVersionCodePoints <? RuneCountInString (pkgVersion pkg)
  then inl (at_ ("version exceeds " +:+ Itoa MaxScanPackageVersionCodePoints +:+ " Unicode code points"))
  else
    let version := TrimSpace (pkgVersion pkg) in
    let ecosystem := ToLower (TrimSpace (pkgEcosystem pkg)) in
    let name := NormalizeName ecosystem (TrimSpace (pkgName pkg)) in
    if bool_decide (name = "") then inl (at_ "name is required")
    else if bool_decide (version = "") then inl (at_ "version is required")
    else if negb (bool_decide (length (Fields version) = 1%nat)) then inl (at_ "version is invalid")
    else if negb (validCheckPackageEcosystem ecosystem) then inl (at_ "ecosystem is invalid")
    else inr (set_coordinates name version ecosystem pkg).

Fixpoint validate_from (position : Z) (packages : list Package) : string + list Package :=
  match packages with
  | [] => inr []
  | pkg :: rest =>
      match validate_package position pkg with
      | inl e => inl e
      | inr p => match validate_from (position + 1) rest with inl e => inl e | inr ps => inr (p :: ps) end
      end
  end.

Definition validateCheckPackages (packages : list Package) : string + list Package := validate_from 1 packages.
End wire.

Definition checkPackageKey : Type := Ecosystem * string * string.
Definition check_key (p : Package) : checkPackageKey := (pkgEcosystem p, pkgName p, pkgVersion p).

Fixpoint dedup_loop (seen : gset checkPackageKey) (packages : list Package) : list Package :=
  match packages with
  | [] => []
  | pkg :: rest =>
      if bool_decide (check_key pkg ∈ seen) then dedup_loop seen rest
      else pkg :: dedup_loop ({[check_key pkg]} ∪ seen) rest
  end.

Definition deduplicateCheckPackages (packages : list Package) : list Package :=
  if (length packages <? 2)%nat then packages else dedup_loop ∅ packages.

(** ** Idempotency keys and digests *)

Definition key_byte (c : ascii) : bool :=
  in_range 97 122 c || in_range 65 90 c || in_range 48 57 c || existsb (Z.eqb (code c)) [95; 45; 46; 58].

(** The error text, or the key. *)
Definition checkIdempotencyKey (header : string) : string + string :=
  let key := TrimSpace header in
  if bool_decide (key = "") then inr ""
  else if maxIdempotencyKeyLength <? len key
  then inl ("idempotency key exceeds " +:+ Itoa maxIdempotencyKeyLength +:+ " characters")
  else if all_bytes key_byte key then inr key else inl "idempotency key contains unsupported characters".

Definition omit_false (name : string) (b : bool) : list (string * string) := if b then [(name, "true")] else [].

Definition marshal_parent (p : PackageParent) : string :=
  marshal_members ([("name", marshal_string (parentName p))] ++ omitempty "version" (parentVersion p) ++
    omitempty "ecosystem" (parentEcosystem p)).

Definition marshal_package (p : Package) : string :=
  marshal_members ([("name", marshal_string (pkgName p)); ("version", marshal_string (pkgVersion p));
      ("ecosystem", marshal_string (pkgEcosystem p))] ++
    omit_false "dev" (Dev p) ++ omit_false "direct" (Direct p) ++ omit_false "indirect" (Indirect p) ++
    omit_false "optional" (Optional p) ++ omit_false "peer" (Peer p) ++
    (if bool_decide (Via p = []) then [] else [("via", marshal_array (marshal_string <$> Via p))]) ++
    (if bool_decide (Parents p = []) then [] else [("parents", marshal_array (marshal_parent <$> Parents p))])).

Definition marshal_request (req : ScanRequest) : string :=
  marshal_members ([("packages", marshal_array (marshal_package <$> srPackages req))] ++
    match srRepo req with
    | Some repo => [("repo", marshal_members [("name", marshal_string (repoName repo))])]
    | None => []
    end).

Section digests.
Context {C : AuditCrypto}.

Definition scanLogIdempotencyKey (raw : string) : string :=
  let raw := TrimSpace raw in
  if bool_decide (raw = "") then ""
  else "sha256:" +:+ sha256_hex ("packmon scan-log idempotency key v1" +:+ String (byte 0) "" +:+ raw).

Definition checkRequestDigest (req : ScanRequest) : string := "sha256:" +:+ sha256_hex (marshal_request req).

(** The first eight bytes of the hash are sixteen digits. *)
Definition scanIDForIdempotencyKey (key requestDigest : string) : string :=
  str_take 16 (sha256_hex (key +:+ String (byte 0) "" +:+ requestDigest)).

Definition scanResultDigest (body : string) : string := "sha256:" +:+ sha256_hex body.
End digests.

Definition scanLogIdempotencyLookupKeys (storedKey rawKey : string) : list string :=
  let storedKey := TrimSpace storedKey in
  let rawKey := TrimSpace rawKey in
  if bool_decide (storedKey = "") then []
  else if bool_decide (rawKey = "") || bool_decide (rawKey = storedKey) then [storedKey]
  else [storedKey; rawKey].

(** ** The client in the scan log *)

Definition validSemVerNumber (value : string) : bool :=
  match value with
  | EmptyString => false
  | String c rest => all_bytes isDigit value && (bool_decide (rest = "") || negb (bool_decide (c = "0"%char)))
  end.

Definition identifier_byte (c : ascii) : bool :=
  in_range 97 122 c || in_range 65 90 c || in_range 48 57 c || (code c =? 45).

Definition validSemVerIdentifierList (value : string) : bool :=
  negb (bool_decide (value = "")) &&
  forallb (fun part => negb (bool_decide (part = "")) && all_bytes identifier_byte part) (Split value "."%char).

Definition valid_part (part : option string) : bool :=
  match part with Some p => validSemVerIdentifierList p | None => true end.

Definition validScanLogClientVersion (version : string) : bool :=
  if bool_decide (version = "") || (maxScanLogClientVersionLength <? len version) then false
  else
    let '(core, build) := cut version "+"%char in
    let '(numbers, pre) := cut core "-"%char in
    valid_part build && valid_part pre &&
    bool_decide (length (Split numbers "."%char) = 3%nat) && forallb validSemVerNumber (Split numbers "."%char).

Definition clientVersionPrefixes : list string := ["packmon-cli/"; "packmon/"].

Fixpoint client_version_in (fields : list string) : string :=
  match fields with
  | [] => ""
  | field :: rest =>
      match List.find (HasPrefix field) clientVersionPrefixes with
      | Some prefix =>
          let version := TrimSpace (TrimPrefix field prefix) in
          if validScanLogClientVersion version then version else ""
      | None => client_version_in rest
      end
  end.

Definition scanLogClientVersion (userAgent : string) : string := client_version_in (Fields userAgent).

Definition slash (c : ascii) : ascii := if bool_decide (c = "\"%char) then "/"%char else c.

Definition looksLikeScanLogPath (value : string) : bool :=
  if Contains value "\" then true
  else
    let normalized := str_map slash value in
    HasPrefix normalized "/" || HasPrefix normalized "~/" || HasPrefix normalized "./" || HasPrefix normalized "../" ||
    (2 <=? Z.of_nat (length (filter (fun c => c = "/"%char) (bytes normalized)))).

Definition scanLogPathTail (value : string) : string :=
  let normalized := str_map slash (String.rev (TrimLeft (String.rev value) "/\")) in
  match LastIndex normalized "/" with
  | Some i => str_drop (S i) normalized
  | None => normalized
  end.

Definition scanLogRepoName {L : Logsafe} (raw : string) : string :=
  let value := TrimSpace raw in
  BoundedDiagnosticValue (if looksLikeScanLogPath value then scanLogPathTail value else value) 256.

Example client_version_of_agent : scanLogClientVersion "Mozilla/5.0 packmon-cli/1.2.0-rc.1+b7" = "1.2.0-rc.1+b7".
Proof. vm_compute. reflexivity. Qed.

Example tail_of_path : scanLogPathTail "C:\work\app\" = "app".
Proof. vm_compute. reflexivity. Qed.

(** ** Accepted packages *)

(** What validation leaves of a package. *)
Definition checked_package {U : UnicodeCase} (p : Package) : Prop :=
  pkgName p <> "" /\ (exists raw, pkgName p = NormalizeName (pkgEcosystem p) raw) /\
  pkgVersion p <> "" /\ TrimSpace (pkgVersion p) = pkgVersion p /\ length (Fields (pkgVersion p)) = 1%nat /\
  ScanInput (pkgEcosystem p) = true.

(** The coordinate a package of the request stands for. *)
Definition coordinate {U : UnicodeCase} (name version : string) (ecosystem : Ecosystem) : checkPackageKey :=
  let e := ToLower (TrimSpace ecosystem) in (e, NormalizeName e (TrimSpace name), TrimSpace version).

Lemma validate_package_ok {U : UnicodeCase} i p q :
  validate_package i p = inr q ->
  checked_package q /\ check_key q = coordinate (pkgName p) (pkgVersion p) (pkgEcosystem p).
Proof.
  unfold validate_package. cbv zeta. destruct (_ <? _); [done|]. destruct (_ <? _); [done|].
  case_bool_decide as Hn; [done|]. case_bool_decide as Hv; [done|]. case_bool_decide as Hf; cbn [negb]; [|done].
  destruct (validCheckPackageEcosystem _) eqn:He; cbn [negb]; [|done]. intros [= <-].
  split; [|reflexivity]. cbn [set_coordinates pkgName pkgVersion pkgEcosystem checked_package]. unfold checked_package.
  cbn [set_coordinates pkgName pkgVersion pkgEcosystem]. split_and!; [done|eauto|done|apply TrimSpace_idem|done|done].
Qed.

Lemma validate_from_ok {U : UnicodeCase} i ps qs :
  validate_from i ps = inr qs ->
  Forall checked_package qs /\
  check_key <$> qs = (fun p => coordinate (pkgName p) (pkgVersion p) (pkgEcosystem p)) <$> ps.
Proof.
  revert i qs. induction ps as [|p ps IH]; intros i qs; cbn [validate_from]; [by intros [= <-]|].
  destruct (validate_package i p) as [|q] eqn:Hp; [done|]. destruct (validate_from _ ps) as [|qs'] eqn:Hps; [done|].
  intros [= <-]. destruct (validate_package_ok _ _ _ Hp) as [Hq Hk]. destruct (IH _ _ Hps) as [Hqs Hks].
  split; [by constructor|]. cbn [fmap list_fmap]. by f_equal.
Qed.

Lemma dedup_loop_spec seen ps :
  let qs := dedup_loop seen ps in
  sublist qs ps /\ NoDup (check_key <$> qs) /\ (forall q, q ∈ qs -> check_key q ∉ seen) /\
  (forall k, k ∈ check_key <$> ps -> k ∈ seen \/ k ∈ check_key <$> qs).
Proof.
  revert seen. induction ps as [|p ps IH]; intros seen; cbn [dedup_loop].
  { split_and!; [constructor|constructor|by intros ? ?%not_elem_of_nil|by intros ? ?%not_elem_of_nil]. }
  case_bool_decide as Hin.
  - destruct (IH seen) as (H1 & H2 & H3 & H4). split_and!; [by constructor|done|done|].
    intros k [->|Hk]%elem_of_cons; [by left|by apply H4].
  - destruct (IH ({[check_key p]} ∪ seen)) as (H1 & H2 & H3 & H4). split_and!.
    + by constructor.
    + cbn [fmap list_fmap]. constructor; [|done]. intros (q & E & Hq)%list_elem_of_fmap.
      apply (H3 q Hq). rewrite <- E. apply elem_of_union_l, elem_of_singleton_2. done.
    + intros q [->|Hq]%elem_of_cons; [done|]. intros Hs. apply (H3 q Hq), elem_of_union_r, Hs.
    + intros k [->|Hk]%elem_of_cons; [right; left|].
      destruct (H4 k Hk) as [[->%elem_of_singleton|Hs]%elem_of_union|Hq]; [right; left|by left|right; by right].
Qed.

Lemma deduplicateCheckPackages_spec ps :
  let qs := deduplicateCheckPackages ps in
  sublist qs ps /\ NoDup (check_key <$> qs) /\ (forall k, k ∈ check_key <$> qs <-> k ∈ check_key <$> ps).
Proof.
  unfold deduplicateCheckPackages. destruct (Nat.ltb_spec (length ps) 2) as [Hlen|Hlen].
  { split_and!; [done| |done]. destruct ps as [|p [|]]; cbn in *; [constructor|by apply NoDup_singleton|lia]. }
  destruct (dedup_loop_spec ∅ ps) as (H1 & H2 & _ & H4). split_and!; [done|done|].
  intros k. split; [|by intros [[]%elem_of_empty|]%H4].
  intros (q & -> & Hq)%list_elem_of_fmap. apply list_elem_of_fmap. exists q. split; [done|]. by eapply elem_of_sublist.
Qed.

Lemma dedup_loop_NoDup seen ps :
  NoDup (check_key <$> ps) -> (forall p, p ∈ ps -> check_key p ∉ seen) -> dedup_loop seen ps = ps.
Proof.
  revert seen. induction ps as [|p ps IH]; intros seen; cbn [dedup_loop fmap list_fmap]; [done|].
  intros [Hp Hnd]%NoDup_cons Hs. rewrite bool_decide_false by (apply Hs; left). f_equal. apply IH; [done|].
  intros q Hq [E%elem_of_singleton|Hin]%elem_of_union; [|by eapply Hs; [right|]].
  apply Hp. rewrite <- E. by apply list_elem_of_fmap_2.
Qed.

Lemma deduplicate_NoDup ps : NoDup (check_key <$> ps) -> deduplicateCheckPackages ps = ps.
Proof.
  intros Hnd. unfold deduplicateCheckPackages. destruct (_ <? _)%nat; [done|].
  apply dedup_loop_NoDup; [done|]. intros p _ []%elem_of_empty.
Qed.

(** ** Idempotency keys *)

Lemma key_byte_visible c : key_byte c = true -> visible c = true.
Proof. destruct c as [[] [] [] [] [] [] [] []]; vm_compute; congruence. Qed.

Lemma checkIdempotencyKey_ok header key :
  checkIdempotencyKey header = inr key -> all_bytes key_byte key = true /\ len key <= maxIdempotencyKeyLength.
Proof.
  unfold checkIdempotencyKey. case_bool_decide; [by intros [= <-]|].
  destruct (Z.ltb_spec maxIdempotencyKeyLength (len (TrimSpace header))); [done|].
  destruct (all_bytes key_byte (TrimSpace header)) eqn:E; [|done]. by intros [= <-].
Qed.

Lemma checked_key_trimmed key : all_bytes key_byte key = true -> TrimSpace key = key.
Proof. intros H. apply TrimSpace_visible. revert H. apply all_bytes_impl, key_byte_visible. Qed.
