(* ===== verification/CheckHandler.v ===== *)
(** The check endpoint: HandleCheck and what it calls (internal/api/v1/handler.go).

    The persistence the handler needs is the interface [CheckStore].  Every call
    to it can fail: [faults] says which do, with what error, and, for the write
    of the scan log, whether the row was stored all the same (a timed-out
    commit).  The four lookups of a check run concurrently and cancel each
    other on failure; since every combination of failures is allowed, this is
    covered.  Clock readings and the random identifier are in [readings].

    [HandleCheck] is one request on its own; [step_phase] is the same handler cut
    at its accesses to shared state, so that requests can be interleaved. *)
From stdpp Require Import base list option strings gmap.
From Stdlib Require Import Ascii ZArith Lia.
From S2P Require Import Prelude GoStrings AsciiText PackageId Json Collections JsonEncode Domain GoTime AuditLog.
From S2P Require Import RefreshQueue Advisories SyncServer CheckCache CheckRequest.

(** ** The store *)

Inductive store_error := DeadlineExceeded | StoreFailure.

(** What the handler asks of its store. *)
Class CheckStore (S : Type) := {
  store_vulnerabilities : list PackageQuery -> S -> list Finding;
  store_malicious : list PackageQuery -> S -> list Finding;
  store_reputation : list PackageQuery -> string -> S -> list Finding;
  store_lifecycle : list PackageQuery -> Time -> S -> list Finding;
  store_feeds : S -> list FeedSyncStatus;
  store_scan : string -> S -> option ScanLogEntry;
  store_insert : ScanLogEntry -> S -> S
}.

(** What it relies on: rows are found under their key, the first row stored
    under a key stays, and the scan log does not touch the findings. *)
Class CheckStoreLaws (S : Type) `{CheckStore S} := {
  scan_key : forall k e s, store_scan k s = Some e -> IdempotencyKey e = k;
  scan_kept : forall k e e' s, store_scan k s = Some e -> store_scan k (store_insert e' s) = Some e;
  scan_stored : forall e s, IdempotencyKey e <> "" -> store_scan (IdempotencyKey e) s = None ->
    store_scan (IdempotencyKey e) (store_insert e s) = Some e;
  scan_other : forall k e s, IdempotencyKey e <> k -> store_scan k (store_insert e s) = store_scan k s;
  insert_vulnerabilities : forall q e s, store_vulnerabilities q (store_insert e s) = store_vulnerabilities q s;
  insert_malicious : forall q e s, store_malicious q (store_insert e s) = store_malicious q s
}.

(** The failures of one request: [on_get n] of its [n]-th scan-log lookup,
    [on_insert] with whether the row was stored nevertheless, [request_done]
    when the client has gone. *)
Record faults := mk_faults {
  on_get : nat -> option store_error;
  on_vulnerabilities : option store_error;
  on_malicious : option store_error;
  on_reputation : string -> option store_error;
  on_lifecycle : option store_error;
  on_feeds : option store_error;
  on_insert : option (store_error * bool);
  request_done : bool
}.

Definition answer {A} (fault : option store_error) (a : A) : store_error + A :=
  match fault with Some e => inl e | None => inr a end.

(** ** The handler *)

Definition ScanLogIdentityMode := string.
Definition ScanLogIdentityModeFull : ScanLogIdentityMode := "full".
Definition ScanLogIdentityModeMinimal : ScanLogIdentityMode := "minimal".
Definition ScanLogIdentityModeNone : ScanLogIdentityMode := "none".

(** [runtime]: the live block threshold, when there is one;
    [reputationScheduler]: whether one is injected. *)
Record Handler := mk_handler {
  blockThreshold : Severity;
  runtime : option string;
  reversingLabsEnabled : bool;
  reputationScheduler : bool;
  scanLogIdentityMode : ScanLogIdentityMode
}.

Definition defaultBlockThreshold : Severity := SeverityCritical.
Definition ReputationSourceReversingLabs : string := "reversinglabs".
Definition ReputationReadSources : list string := [ReputationSourceReversingLabs].

Definition reputationReadSources (h : Handler) : list string :=
  if reversingLabsEnabled h then ReputationReadSources else [].

(** The clock and the random source as one request reads them. *)
Record readings := mk_readings {
  start : Time;
  lifecycleNow : Time;
  feedsNow : Time;
  built : Time;
  getNow : Time;
  setNow : Time;
  generateID : string
}.

Inductive check_reply :=
| Fail (status : Z) (message : string)
| Success (status durationMs : Z) (body : string).

Record checkRequestParts := mk_parts { cRequest : ScanRequest; cIdempotencyKey : string; cRequestDigest : string }.
Record checkIdempotencyResolution := mk_resolution { rScanID : string; replay : bool; storedKey : string }.

Record findingCollection := mk_collection {
  findings : list Finding;
  degraded : bool;
  optionalLookupFailures : list (string * store_error)
}.

(** The fields of domain.ScanResult this handler sets; the others are zero. *)
Record ScanResult := mk_scan_result {
  resScanID : string;
  resScannedAt : Time;
  resDurationMs : Z;
  resPackagesScanned : Z;
  resFindingsCount : Z;
  resFindingsBlocking : bool;
  resBlockThreshold : Severity;
  resFeedStatus : string;
  resSummary : ScanSummary;
  resFindings : list Finding;
  resFeedVersions : gmap string string;
  resManualAdvisoriesCount : Z
}.

Section threshold.
Context {U : UnicodeCase}.

Definition parseBlockThreshold (raw : string) : Severity := default defaultBlockThreshold (ParseBlockThreshold raw).
Definition validBlockThreshold (threshold : Severity) : bool := bool_decide (is_Some (ParseBlockThreshold threshold)).

Definition effectiveBlockThreshold (h : Handler) : Severity :=
  match runtime h with
  | Some raw =>
      let t := parseBlockThreshold raw in
      if validBlockThreshold t then t else blockThreshold h
  | None => blockThreshold h
  end.

Definition NewHandlerWithBlockThreshold (threshold : Severity) (mode : ScanLogIdentityMode) : Handler :=
  mk_handler (if validBlockThreshold threshold then threshold else defaultBlockThreshold) None false false mode.

Definition NewHandlerWithRuntime (runtime : option string) (mode : ScanLogIdentityMode) : Handler :=
  let threshold := match runtime with Some raw => parseBlockThreshold raw | None => defaultBlockThreshold end in
  let h := NewHandlerWithBlockThreshold threshold mode in
  mk_handler (blockThreshold h) runtime (reversingLabsEnabled h) (reputationScheduler h) (scanLogIdentityMode h).

Definition ParseScanLogIdentityMode (raw : string) : option ScanLogIdentityMode :=
  let mode := ToLower (TrimSpace raw) in
  if bool_decide (mode ∈ [ScanLogIdentityModeFull; ScanLogIdentityModeMinimal; ScanLogIdentityModeNone])
  then Some mode else None.

Definition ConfigureScanLogIdentityMode (mode : ScanLogIdentityMode) (h : Handler) : Handler :=
  let mode := match ParseScanLogIdentityMode mode with None => ScanLogIdentityModeFull | Some _ => mode end in
  mk_handler (blockThreshold h) (runtime h) (reversingLabsEnabled h) (reputationScheduler h) mode.
End threshold.

(** ** The result as JSON *)

Definition marshal_bool (b : bool) : string := if b then "true" else "false".

Definition marshal_link (l : ResourceLink) : string :=
  marshal_members [("label", marshal_string (Label l)); ("url", marshal_string (URL l))].

Definition marshal_finding (f : Finding) : string :=
  marshal_members (
    [("name", marshal_string (fName f)); ("version", marshal_string (fVersion f));
     ("ecosystem", marshal_string (fEcosystem f)); ("type", marshal_string (fType f));
     ("severity", marshal_string (fSeverity f))] ++
    omitempty "advisory_id" (fAdvisoryID f) ++ [("title", marshal_string (fTitle f))] ++ omitempty "url" (fURL f) ++
    (if bool_decide (length (fResources f) = 0%nat) then [] else [("resources", marshal_array (marshal_link <$> fResources f))]) ++
    omitempty "fixed_version" (fFixedVersion f) ++ omitempty "risk_type" (fRiskType f) ++
    [("source", marshal_string (fSource f))]).

(** [map[string]int]: keys in increasing order. *)
Definition marshal_counts (m : gmap string Z) : string :=
  marshal_members ((fun k => (k, Itoa (default 0 (m !! k)))) <$> sorted_set str_cmp (dom m)).

Definition marshal_summary (s : ScanSummary) : string :=
  marshal_members [("by_severity", marshal_counts (BySeverity s)); ("by_type", marshal_counts (ByType s));
    ("by_source", marshal_counts (BySource s))].

(** [None] is the encoder's error: a year that has not four digits. *)
Definition marshal_time (t : Time) : option string :=
  let '(year, _, _) := civil (t / (24 * Hour)) in
  if (0 <=? year) && (year <=? 9999) then Some (marshal_string (RFC3339Nano t)) else None.

(** Marshalled, followed by a newline. *)
Definition encodeJSONResponse (r : ScanResult) : option string :=
  scanned ← marshal_time (resScannedAt r);
  Some (marshal_members
    [("scan_id", marshal_string (resScanID r)); ("mode", marshal_string "remote"); ("scanned_at", scanned);
     ("duration_ms", Itoa (resDurationMs r)); ("packages_scanned", Itoa (resPackagesScanned r));
     ("findings_count", Itoa (resFindingsCount r)); ("findings_blocking", marshal_bool (resFindingsBlocking r));
     ("block_threshold", marshal_string (resBlockThreshold r)); ("feed_status", marshal_string (resFeedStatus r));
     ("db_age_days", "null"); ("db_stale", "false"); ("summary", marshal_summary (resSummary r));
     ("findings", marshal_array (marshal_finding <$> resFindings r));
     ("feed_versions", marshal_map (resFeedVersions r));
     ("manual_advisories_count", Itoa (resManualAdvisoriesCount r))]
    +:+ String (byte 10) "").

(** ** Parsing the request *)

Section parsing.
Context {U : UnicodeCase} {C : AuditCrypto} {M : MediaTypes}.

Definition parseCheckRequest (r : http_request) : check_reply + checkRequestParts :=
  if negb (requireJSONContentType (ContentType r)) then inl (Fail 415 "Content-Type must be application/json")
  else match readJSONWithLimit dec_request (RequestBody r) maxCheckRequestBody (mk_check_request nil_slice None) with
  | None => inl (Fail 400 "invalid request body")
  | Some wire =>
      let packages := checkPackagesToDomain (elems (crPackages wire)) in
      let n := Z.of_nat (length packages) in
      if n =? 0 then inl (Fail 400 "packages array is required and must not be empty")
      else if MaxPackagesPerCheck <? n
      then inl (Fail 400 ("too many packages: " +:+ Itoa n +:+ " (max " +:+ Itoa MaxPackagesPerCheck +:+ ")"))
      else match validateCheckPackages packages with
      | inl e => inl (Fail 400 e)
      | inr packages =>
          let req := mk_scan_request (deduplicateCheckPackages packages) (crRepo wire) in
          match checkIdempotencyKey (IdempotencyHeader r) with
          | inl e => inl (Fail 400 e)
          | inr key => inr (mk_parts req key (checkRequestDigest req))
          end
      end
  end.
End parsing.

(** ** Collecting findings *)

Definition package_query (p : Package) : PackageQuery := mk_query (pkgEcosystem p) (pkgName p) (pkgVersion p).

Section service.
Context {U : UnicodeCase} {C : AuditCrypto} {M : MediaTypes} {L : Logsafe} {O : MapOrder}.
Context {S : Type} `{CheckStore S}.

(** Store, cache, and the batches handed to the reputation scheduler. *)
Record service := mk_service {
  svStore : S;
  svCache : option checkResponseCache;
  svScheduled : list (list Package * list Finding)
}.

Definition set_store (s : S) (sv : service) : service := mk_service s (svCache sv) (svScheduled sv).
Definition set_cache (c : option checkResponseCache) (sv : service) : service := mk_service (svStore sv) c (svScheduled sv).

Fixpoint reputation_loop (f : faults) (queries : list PackageQuery) (sources : list string) (s : S)
    : store_error + list Finding :=
  match sources with
  | [] => inr []
  | source :: rest =>
      match answer (on_reputation f source) (store_reputation queries source s) with
      | inl e => inl e
      | inr found => match reputation_loop f queries rest s with inl e => inl e | inr more => inr (found ++ more) end
      end
  end.

(** An optional lookup: its findings, or none and the failure. *)
Definition optional (lookup : string) (r : store_error + list Finding) : list Finding * list (string * store_error) :=
  match r with inl e => ([], [(lookup, e)]) | inr found => (found, []) end.

Definition collectFindingsForCheck (h : Handler) (f : faults) (now : Time) (packages : list Package)
    (scheduleReversingLabs : bool) (sv : service) : (store_error + findingCollection) * service :=
  let packages := deduplicateCheckPackages packages in
  let queries := package_query <$> packages in
  let s := svStore sv in
  match answer (on_vulnerabilities f) (store_vulnerabilities queries s),
        answer (on_malicious f) (store_malicious queries s) with
  | inl e, _ => (inl e, sv)
  | _, inl e => (inl e, sv)
  | inr vulns, inr mal =>
      let '(reputation, failed1) := optional "reputation" (reputation_loop f queries (reputationReadSources h) s) in
      let '(lifecycle, failed2) := optional "lifecycle" (answer (on_lifecycle f) (store_lifecycle queries now s)) in
      let failed := failed1 ++ failed2 in
      let all := vulns ++ mal ++ reputation ++ lifecycle in
      let sv := if scheduleReversingLabs && reversingLabsEnabled h && reputationScheduler h
                then mk_service s (svCache sv) (svScheduled sv ++ [(packages, all)]) else sv in
      (inr (mk_collection all (negb (bool_decide (length failed = 0%nat))) failed), sv)
  end.

Definition checkStoreErrorResponse (f : faults) (e : store_error) : check_reply :=
  match e with
  | DeadlineExceeded =>
      if negb (request_done f) then Fail 503 "check service temporarily unavailable"
      else Fail 500 "internal error while checking packages"
  | StoreFailure => Fail 500 "internal error while checking packages"
  end.

Definition Milliseconds (d : Duration) : Z := Z.quot d Millisecond.

Definition buildCheckResult (h : Handler) (f : faults) (t : readings) (scanID : string) (packages : list Package)
    (scheduleReversingLabs : bool) (sv : service) : (check_reply + ScanResult * string) * service :=
  match collectFindingsForCheck h f (lifecycleNow t) packages scheduleReversingLabs sv with
  | (inl e, sv) => (inl (checkStoreErrorResponse f e), sv)
  | (inr collection, sv) =>
      let found := findings collection in
      let threshold := effectiveBlockThreshold h in
      let '(feedStatus, feedVersions) :=
        feedState (feedsNow t) (match on_feeds f with None => Some (store_feeds (svStore sv)) | Some _ => None end) in
      let feedStatus := if degraded collection then "degraded" else feedStatus in
      let result := mk_scan_result scanID (start t) (Milliseconds (Sub (built t) (start t)))
        (Z.of_nat (length packages)) (Z.of_nat (length found)) (FindingsBlock found threshold) threshold feedStatus
        (BuildScanSummary found) found (default ∅ feedVersions) (CountManualAdvisoryFindings found) in
      match encodeJSONResponse result with
      | None => (inl (Fail 500 "internal error while encoding scan result"), sv)
      | Some body => (inr (result, body), sv)
      end
  end.

(** ** The scan log *)

Definition scan_log_entry (h : Handler) (r : http_request) (req : ScanRequest) (result : ScanResult)
    (idempotencyKey requestDigest resultDigest : string) : ScanLogEntry :=
  let mode := if bool_decide (scanLogIdentityMode h = "") then ScanLogIdentityModeFull else scanLogIdentityMode h in
  let full := bool_decide (mode = ScanLogIdentityModeFull) in
  let some_ := negb (bool_decide (mode = ScanLogIdentityModeNone)) in
  let who := if full then default (0, "") (identity r) else (0, "") in
  mk_scan (resScanID result)
    (match srRepo req with Some repo => if some_ then scanLogRepoName (repoName repo) else "" | None => "" end)
    (resScannedAt result) (resPackagesScanned result) (resFindingsCount result) (resDurationMs result)
    (if full then clientIP r else "")
    (match identity r with Some _ => if some_ then scanLogClientVersion (UserAgent r) else "" | None => "" end)
    who.1 who.2 (correlationID r) idempotencyKey requestDigest resultDigest (resFindingsBlocking result)
    (resBlockThreshold result) (resFeedStatus result) (resFeedVersions result) (fAdvisoryID <$> resFindings result)
    (fSeverity <$> resFindings result) (resManualAdvisoriesCount result).

(** The error, and the store after the call. *)
Definition logScan (h : Handler) (f : faults) (r : http_request) (req : ScanRequest) (result : ScanResult)
    (idempotencyKey requestDigest resultDigest : string) (s : S) : option store_error * S :=
  let entry := scan_log_entry h r req result idempotencyKey requestDigest resultDigest in
  match on_insert f with
  | None => (None, store_insert entry s)
  | Some (e, stored) => (Some e, if stored : bool then store_insert entry s else s)
  end.

(** ** Idempotency *)

(** The loop over the lookup keys; [n] counts the lookups of the request. *)
Fixpoint lookup_loop (f : faults) (n : nat) (keys : list string) (s : S) : store_error + option ScanLogEntry :=
  match keys with
  | [] => inr None
  | k :: rest =>
      match answer (on_get f n) (store_scan k s) with
      | inl e => inl e
      | inr (Some entry) => inr (Some entry)
      | inr None => lookup_loop f (Datatypes.S n) rest s
      end
  end.

Definition existingIdempotentScan (f : faults) (n : nat) (storedKey rawKey : string) (s : S)
    : store_error + option ScanLogEntry := lookup_loop f n (scanLogIdempotencyLookupKeys storedKey rawKey) s.

Definition different_request (existing : ScanLogEntry) (requestDigest : string) : bool :=
  negb (bool_decide (RequestDigest existing = "")) && negb (bool_decide (RequestDigest existing = requestDigest)).

Definition conflict : check_reply := Fail 409 "idempotency key was already used for a different check request".

(** What the lookup before a check with a key decides. *)
Definition resolve_with (f : faults) (p : checkRequestParts) (outcome : store_error + option ScanLogEntry)
    : check_reply + checkIdempotencyResolution :=
  let storedKey := scanLogIdempotencyKey (cIdempotencyKey p) in
  let scanID := scanIDForIdempotencyKey storedKey (cRequestDigest p) in
  match outcome with
  | inl e => inl (checkStoreErrorResponse f e)
  | inr None => inr (mk_resolution scanID false storedKey)
  | inr (Some existing) =>
      if different_request existing (cRequestDigest p) then inl conflict
      else inr (mk_resolution (if bool_decide (ScanID existing = "") then scanID else ScanID existing) true storedKey)
  end.

Definition resolveCheckIdempotency (f : faults) (t : readings) (p : checkRequestParts) (s : S)
    : check_reply + checkIdempotencyResolution :=
  if bool_decide (cIdempotencyKey p = "") then inr (mk_resolution (generateID t) false "")
  else resolve_with f p (existingIdempotentScan f 0 (scanLogIdempotencyKey (cIdempotencyKey p)) (cIdempotencyKey p) s).

(** [None] goes on. *)
Definition verify_with (f : faults) (requestDigest : string) (outcome : store_error + option ScanLogEntry)
    : option check_reply :=
  match outcome with
  | inl e => Some (checkStoreErrorResponse f e)
  | inr (Some existing) => if different_request existing requestDigest then Some conflict else None
  | inr None => None
  end.

Definition verifyCheckIdempotencyAfterLog (f : faults) (storedKey rawKey requestDigest : string) (s : S)
    : option check_reply :=
  if bool_decide (storedKey = "") then None
  else verify_with f requestDigest (existingIdempotentScan f 2 storedKey rawKey s).

Definition persistCheckScanLog (h : Handler) (f : faults) (r : http_request) (p : checkRequestParts) (result : ScanResult)
    (body : string) (res : checkIdempotencyResolution) (s : S) : option check_reply * S :=
  if replay res then (None, s)
  else match logScan h f r (cRequest p) result (storedKey res) (cRequestDigest p) (scanResultDigest body) s with
  | (Some e, s) =>
      if negb (bool_decide (cIdempotencyKey p = ""))
      then (Some (Fail 500 "internal error while recording idempotency state"), s)
      else (None, s)
  | (None, s) => (verifyCheckIdempotencyAfterLog f (storedKey res) (cIdempotencyKey p) (cRequestDigest p) s, s)
  end.

(** ** The cache of responses *)

Definition cached_check_response (now : Time) (storedKey requestDigest : string) (c : option checkResponseCache)
    : option cachedCheckResponse * option checkResponseCache :=
  match c with
  | None => (None, None)
  | Some c => let '(r, c) := cache_Get now (checkResponseCacheKey storedKey requestDigest) c in (r, Some c)
  end.

Definition cacheCheckResponse (now : Time) (storedKey requestDigest : string) (statusCode durationMs : Z) (body : string)
    (c : option checkResponseCache) : option checkResponseCache :=
  cache_Set now (checkResponseCacheKey storedKey requestDigest) (mk_cached statusCode durationMs body) <$> c.

(** ** The whole handler *)

Definition finish_check (h : Handler) (f : faults) (t : readings) (r : http_request) (p : checkRequestParts)
    (res : checkIdempotencyResolution) (sv : service) : check_reply * service :=
  match buildCheckResult h f t (rScanID res) (srPackages (cRequest p)) (negb (replay res)) sv with
  | (inl reply, sv) => (reply, sv)
  | (inr (result, body), sv) =>
      match persistCheckScanLog h f r p result body res (svStore sv) with
      | (Some reply, s) => (reply, set_store s sv)
      | (None, s) =>
          (Success 200 (resDurationMs result) body,
           mk_service s (cacheCheckResponse (setNow t) (storedKey res) (cRequestDigest p) 200 (resDurationMs result) body
                           (svCache sv)) (svScheduled sv))
      end
  end.

Definition HandleCheck (h : Handler) (f : faults) (t : readings) (r : http_request) (sv : service) : check_reply * service :=
  if negb (bool_decide (Method r = "POST")) then (Fail 405 "method not allowed", sv)
  else match parseCheckRequest r with
  | inl reply => (reply, sv)
  | inr p =>
      match resolveCheckIdempotency f t p (svStore sv) with
      | inl reply => (reply, sv)
      | inr res =>
          if replay res
          then match cached_check_response (getNow t) (storedKey res) (cRequestDigest p) (svCache sv) with
               | (Some cached, c) => (Success (statusCode cached) (cachedDurationMs cached) (cachedBody cached), set_cache c sv)
               | (None, c) => finish_check h f t r p res (set_cache c sv)
               end
          else finish_check h f t r p res sv
      end
  end.
End service.
