(* ===== verification/CheckService.v ===== *)
(** What the check endpoint guarantees, over any store and over the in-memory
    store of the development server. *)
From stdpp Require Import base list option strings gmap.
From Stdlib Require Import Ascii ZArith Lia.
From S2P Require Import Prelude GoStrings AsciiText PackageId Json VersionRanges Collections JsonEncode Domain GoTime.
From S2P Require Import AuditLog RefreshQueue Advisories DevStore DevFeeds DevFindings DevScans SyncServer.
From S2P Require Import CheckCache CheckRequest CheckHandler.

(** ** Accepted requests *)

Section requests.
Context {U : UnicodeCase} {C : AuditCrypto} {M : MediaTypes}.

(** The packages a client sent. *)
Definition sent_packages (r : http_request) : list checkPackage :=
  match readJSONWithLimit dec_request (RequestBody r) maxCheckRequestBody (mk_check_request nil_slice None) with
  | Some wire => elems (crPackages wire)
  | None => []
  end.

Definition sent_coordinate (p : checkPackage) : checkPackageKey := coordinate (cpName p) (cpVersion p) (cpEcosystem p).

Lemma parseCheckRequest_ok r p :
  parseCheckRequest r = inr p ->
  let packages := srPackages (cRequest p) in
  1 <= Z.of_nat (length packages) <= MaxPackagesPerCheck /\ NoDup (check_key <$> packages) /\
  Forall checked_package packages /\
  (forall k, k ∈ check_key <$> packages <-> k ∈ sent_coordinate <$> sent_packages r) /\
  all_bytes key_byte (cIdempotencyKey p) = true /\ len (cIdempotencyKey p) <= maxIdempotencyKeyLength /\
  cRequestDigest p = checkRequestDigest (cRequest p).
Proof.
  unfold parseCheckRequest, sent_packages. destruct (requireJSONContentType _); cbn [negb]; [|done].
  destruct (readJSONWithLimit _ _ _ _) as [wire|]; [|done]. cbv zeta.
  destruct (Z.eqb_spec (Z.of_nat (length (checkPackagesToDomain (elems (crPackages wire))))) 0) as [|Hne]; [done|].
  destruct (Z.ltb_spec MaxPackagesPerCheck (Z.of_nat (length (checkPackagesToDomain (elems (crPackages wire))))))
    as [|Hmax]; [done|].
  destruct (validateCheckPackages _) as [|qs] eqn:Hv; [done|].
  destruct (checkIdempotencyKey _) as [|key] eqn:Hkey; [done|]. intros [= <-].
  cbn [cRequest srPackages cIdempotencyKey cRequestDigest]. apply validate_from_ok in Hv as [Hqs Hks].
  destruct (deduplicateCheckPackages_spec qs) as (Hsub & Hnd & Hk). apply checkIdempotencyKey_ok in Hkey as [Hb Hl].
  assert (length qs = length (checkPackagesToDomain (elems (crPackages wire)))) as Hlen.
  { apply (f_equal length) in Hks. by rewrite !length_fmap in Hks. }
  split_and!; try done.
  - destruct (deduplicateCheckPackages qs) as [|q l] eqn:E; [|cbn; lia]. exfalso.
    destruct qs as [|q qs]; [cbn in Hlen; lia|]. assert (check_key q ∈ check_key <$> q :: qs) as Hin by left.
    by apply Hk, not_elem_of_nil in Hin.
  - apply sublist_length in Hsub. lia.
  - apply Forall_forall. intros q Hq. rewrite Forall_forall in Hqs. apply Hqs. by eapply elem_of_sublist.
  - intros k. rewrite Hk, Hks. unfold checkPackagesToDomain. by rewrite <- list_fmap_compose.
Qed.
End requests.

(** ** What a response reports *)

Section responses.
Context {U : UnicodeCase} {C : AuditCrypto} {M : MediaTypes} {L : Logsafe} {O : MapOrder}.
Context {S : Type} `{CheckStore S}.

(** The findings of the optional lookups: none from one that failed. *)
Definition optional_findings (h : Handler) (f : faults) (now : Time) (queries : list PackageQuery) (s : S) : list Finding :=
  (optional "reputation" (reputation_loop f queries (reputationReadSources h) s)).1 ++
  (optional "lifecycle" (answer (on_lifecycle f) (store_lifecycle queries now s))).1.

Definition optional_failed (h : Handler) (f : faults) : Prop :=
  (exists source, source ∈ reputationReadSources h /\ on_reputation f source <> None) \/ on_lifecycle f <> None.

Lemma reputation_loop_fails f queries sources s :
  (exists e, reputation_loop f queries sources s = inl e) <-> exists source, source ∈ sources /\ on_reputation f source <> None.
Proof.
  induction sources as [|source sources IH]; cbn [reputation_loop].
  { split; [by intros []|]. by intros (? & []%not_elem_of_nil & _). }
  unfold answer. destruct (on_reputation f source) as [e|] eqn:Hs.
  { split; [intros _; exists source; split; [left|congruence]|by exists e]. }
  destruct (reputation_loop f queries sources s) as [e|more].
  - destruct (proj1 IH (ex_intro _ e eq_refl)) as (x & Hx & Hf).
    split; [intros _; exists x; split; [by right|done]|by exists e].
  - split; [by intros []|]. intros (x & [->|Hx]%elem_of_cons & Hf); [congruence|].
    destruct (proj2 IH) as [? ?]; [by exists x|done].
Qed.

Lemma optional_degraded h f now queries s :
  (optional "reputation" (reputation_loop f queries (reputationReadSources h) s)).2 ++
  (optional "lifecycle" (answer (on_lifecycle f) (store_lifecycle queries now s))).2 <> [] <-> optional_failed h f.
Proof.
  unfold optional_failed. rewrite <- (reputation_loop_fails f queries _ s). unfold optional, answer.
  destruct (reputation_loop _ _ _ _) as [e|], (on_lifecycle f) as [e'|]; cbn; naive_solver.
Qed.

(** Collecting findings: both required lookups answered, everything they found
    is there, and a failed optional lookup is marked. *)
Lemma collect_ok h f now packages sched sv c sv' :
  NoDup (check_key <$> packages) -> collectFindingsForCheck h f now packages sched sv = (inr c, sv') ->
  let q := package_query <$> packages in
  on_vulnerabilities f = None /\ on_malicious f = None /\
  findings c = store_vulnerabilities q (svStore sv) ++ store_malicious q (svStore sv) ++
               optional_findings h f now q (svStore sv) /\
  (degraded c = true <-> optional_failed h f) /\ svStore sv' = svStore sv /\ svCache sv' = svCache sv.
Proof.
  intros Hnd. unfold collectFindingsForCheck. rewrite deduplicate_NoDup by done. cbv zeta.
  set (q := package_query <$> packages). unfold answer at 1 2.
  destruct (on_vulnerabilities f); [done|]. destruct (on_malicious f); [done|].
  pose proof (optional_degraded h f now q (svStore sv)) as Hdeg. unfold optional_findings.
  destruct (optional "reputation" _) as [rep failed1]. destruct (optional "lifecycle" _) as [life failed2].
  cbn [fst snd] in *. intros [= <- <-]. cbn [findings degraded]. split_and!; try done.
  - rewrite <- Hdeg. case_bool_decide as Hl; cbn [negb].
    + split; [done|]. intros Hne. by apply nil_length_inv in Hl.
    + split; [|done]. intros _ E. by rewrite E in Hl.
  - by destruct (_ && _).
  - by destruct (_ && _).
Qed.

Lemma collect_failed h f now packages sched sv e sv' :
  collectFindingsForCheck h f now packages sched sv = (inl e, sv') ->
  (on_vulnerabilities f = Some e \/ on_malicious f = Some e) /\ sv' = sv.
Proof.
  unfold collectFindingsForCheck. cbv zeta. unfold answer at 1 2.
  destruct (on_vulnerabilities f) as [e1|]; [intros [= <- <-]; auto|].
  destruct (on_malicious f) as [e1|]; [intros [= <- <-]; auto|].
  destruct (optional "reputation" _), (optional "lifecycle" _). done.
Qed.

(** The result of a check of [packages] against [s]. *)
Record result_exact (h : Handler) (f : faults) (t : readings) (packages : list Package) (s : S) (result : ScanResult) : Prop := {
  exact_findings :
    let q := package_query <$> packages in
    resFindings result =
    store_vulnerabilities q s ++ store_malicious q s ++ optional_findings h f (lifecycleNow t) q s;
  exact_blocking : resFindingsBlocking result = FindingsBlock (resFindings result) (effectiveBlockThreshold h);
  exact_threshold : resBlockThreshold result = effectiveBlockThreshold h;
  exact_packages : resPackagesScanned result = Z.of_nat (length packages);
  exact_count : resFindingsCount result = Z.of_nat (length (resFindings result));
  exact_status : resFeedStatus result = "healthy" ->
    ~ optional_failed h f /\ on_feeds f = None /\ overallFeedStatus (feedsNow t) (store_feeds s) = "healthy"
}.

Lemma build_ok h f t scanID packages sched sv result body sv' :
  NoDup (check_key <$> packages) ->
  buildCheckResult h f t scanID packages sched sv = (inr (result, body), sv') ->
  on_vulnerabilities f = None /\ on_malicious f = None /\ encodeJSONResponse result = Some body /\
  resScanID result = scanID /\ result_exact h f t packages (svStore sv) result /\
  svStore sv' = svStore sv /\ svCache sv' = svCache sv.
Proof.
  intros Hnd. unfold buildCheckResult.
  destruct (collectFindingsForCheck _ _ _ _ _ _) as [[e|c] sv1] eqn:Hc; [done|].
  destruct (collect_ok _ _ _ _ _ _ _ _ Hnd Hc) as (Hv & Hm & Hf & Hd & Hs & Hcache). cbv zeta.
  destruct (feedState _ _) as [status versions] eqn:Hstate.
  destruct (encodeJSONResponse _) as [b|] eqn:He; [|done]. intros [= <- <- <-].
  split_and!; try done. constructor; cbn [resFindings resFindingsBlocking resBlockThreshold resPackagesScanned
    resFindingsCount resFeedStatus]; try done.
  destruct (degraded c) eqn:Hdeg; [done|]. intros ->. split_and!.
  - intros Hfail. by apply Hd in Hfail.
  - by destruct (on_feeds f); [injection Hstate|].
  - destruct (on_feeds f); [by injection Hstate|]. cbn in Hstate. injection Hstate as Hst _. by rewrite <- Hs.
Qed.

Lemma build_failed h f t scanID packages sched sv reply sv' :
  buildCheckResult h f t scanID packages sched sv = (inl reply, sv') ->
  (exists status message, reply = Fail status message) /\ svStore sv' = svStore sv.
Proof.
  unfold buildCheckResult. destruct (collectFindingsForCheck _ _ _ _ _ _) as [[e|c] sv1] eqn:Hc.
  - apply collect_failed in Hc as [_ ->]. intros [= <- <-]. split; [|done].
    unfold checkStoreErrorResponse. repeat case_match; eauto.
  - assert (svStore sv1 = svStore sv) as Hs.
    { unfold collectFindingsForCheck in Hc. cbv zeta in Hc. repeat case_match; simplify_eq; done. }
    cbv zeta. destruct (feedState _ _). destruct (encodeJSONResponse _); [done|]. intros [= <- <-]. eauto.
Qed.

Lemma build_shared h f t scanID packages sched sv out sv' :
  buildCheckResult h f t scanID packages sched sv = (out, sv') -> svCache sv' = svCache sv /\ svStore sv' = svStore sv.
Proof.
  unfold buildCheckResult, collectFindingsForCheck. cbv zeta. intros Hb. repeat case_match; simplify_eq; done.
Qed.

(** A response taken from the cache: the key was used before for the same
    request, and the cache still has what was answered. *)
Definition from_cache (t : readings) (p : checkRequestParts) (sv : service) (status dur : Z) (body : string) : Prop :=
  (exists k entry, k ∈ scanLogIdempotencyLookupKeys (scanLogIdempotencyKey (cIdempotencyKey p)) (cIdempotencyKey p) /\
     store_scan k (svStore sv) = Some entry /\ different_request entry (cRequestDigest p) = false) /\
  exists c, svCache sv = Some c /\
    (cache_Get (getNow t) (checkResponseCacheKey (scanLogIdempotencyKey (cIdempotencyKey p)) (cRequestDigest p)) c).1 =
    Some (mk_cached status dur body).

Lemma lookup_loop_found f n keys s e :
  lookup_loop f n keys s = inr (Some e) -> exists k, k ∈ keys /\ store_scan k s = Some e.
Proof.
  revert n. induction keys as [|k keys IH]; intros n; cbn [lookup_loop]; [done|].
  unfold answer. destruct (on_get f n); [done|]. destruct (store_scan k s) as [x|] eqn:Hk.
  - intros [= <-]. exists k. split; [left|done].
  - intros H1. destruct (IH _ H1) as (k' & Hin & Hs). exists k'. split; [by right|done].
Qed.

Lemma resolve_replay f t p s res :
  resolveCheckIdempotency f t p s = inr res -> replay res = true ->
  storedKey res = scanLogIdempotencyKey (cIdempotencyKey p) /\
  exists k entry, k ∈ scanLogIdempotencyLookupKeys (scanLogIdempotencyKey (cIdempotencyKey p)) (cIdempotencyKey p) /\
    store_scan k s = Some entry /\ different_request entry (cRequestDigest p) = false.
Proof.
  unfold resolveCheckIdempotency, existingIdempotentScan. case_bool_decide; [by intros [= <-]|].
  destruct (lookup_loop _ _ _ _) as [e|[entry|]] eqn:Hl; cbn [resolve_with]; [done| |by intros [= <-]].
  destruct (different_request _ _) eqn:Hd; [done|]. intros [= <-] _. split; [done|].
  apply lookup_loop_found in Hl as (k & Hk & Hs). eauto.
Qed.

Lemma persist_store h f r p result body res s reply s' :
  persistCheckScanLog h f r p result body res s = (reply, s') ->
  s' = s \/ exists entry, s' = store_insert entry s.
Proof.
  unfold persistCheckScanLog, logScan. destruct (replay res); [intros [= <- <-]; auto|].
  destruct (on_insert f) as [[e []]|]; [| |intros [= <- <-]; eauto]; destruct (negb _); intros [= <- <-]; eauto.
Qed.

Lemma persist_reply h f r p result body res s reply s' :
  persistCheckScanLog h f r p result body res s = (Some reply, s') -> exists status message, reply = Fail status message.
Proof.
  unfold persistCheckScanLog, verifyCheckIdempotencyAfterLog, verify_with, conflict, checkStoreErrorResponse.
  intros Hp. repeat case_match; simplify_eq; eauto.
Qed.

Lemma finish_ok h f t r p res sv reply sv' :
  NoDup (check_key <$> srPackages (cRequest p)) -> finish_check h f t r p res sv = (reply, sv') ->
  (on_vulnerabilities f <> None \/ on_malicious f <> None -> svStore sv' = svStore sv) /\
  match reply with
  | Success status dur body =>
      status = 200 /\ on_vulnerabilities f = None /\ on_malicious f = None /\
      exists result, encodeJSONResponse result = Some body /\ dur = resDurationMs result /\ resScanID result = rScanID res /\
        result_exact h f t (srPackages (cRequest p)) (svStore sv) result
  | Fail _ _ => True
  end.
Proof.
  intros Hnd. unfold finish_check.
  destruct (buildCheckResult _ _ _ _ _ _ _) as [[rep|[result body]] sv1] eqn:Hb.
  - apply build_failed in Hb as [(st & m & ->) Hs]. intros [= <- <-]. done.
  - destruct (build_ok _ _ _ _ _ _ _ _ _ _ Hnd Hb) as (Hv & Hm & He & Hid & Hex & Hs & Hc).
    destruct (persistCheckScanLog _ _ _ _ _ _ _ _) as [[rep|] s'] eqn:Hp.
    + destruct (persist_reply _ _ _ _ _ _ _ _ _ _ Hp) as (st & m & ->). intros [= <- <-]. split; [|done]. by intros [].
    + intros [= <- <-]. split; [by intros []|]. split_and!; try done. by exists result.
Qed.

(** A successful check comes from the cache or was made afresh. *)
Lemma handle_success h f t r sv p status dur body sv' :
  parseCheckRequest r = inr p -> HandleCheck h f t r sv = (Success status dur body, sv') ->
  from_cache t p sv status dur body \/
  exists res sv0, svStore sv0 = svStore sv /\ finish_check h f t r p res sv0 = (Success status dur body, sv').
Proof.
  intros Hparse. unfold HandleCheck. destruct (negb _); [done|]. rewrite Hparse.
  destruct (resolveCheckIdempotency _ _ _ _) as [rep|res] eqn:Hres.
  { intros [= -> _]. exfalso. revert Hres.
    unfold resolveCheckIdempotency, resolve_with, checkStoreErrorResponse, conflict. repeat case_match; congruence. }
  destruct (replay res) eqn:Hreplay; [|by right; exists res, sv].
  destruct (resolve_replay _ _ _ _ _ Hres Hreplay) as [Hstored Hentry]. unfold cached_check_response.
  destruct (svCache sv) as [c|] eqn:Hc; [|intros Hf; right; eexists res, _; split; [|exact Hf]; done].
  destruct (cache_Get _ _ c) as [[[st d b]|] c'] eqn:Hget; [|intros Hf; right; eexists res, _; split; [|exact Hf]; done].
  intros [= <- <- <-]. left. split; [done|]. exists c. split; [done|]. by rewrite <- Hstored, Hget.
Qed.

(** A check whose required lookup fails changes nothing in the store. *)
Lemma handle_store h f t r sv reply sv' :
  on_vulnerabilities f <> None \/ on_malicious f <> None -> HandleCheck h f t r sv = (reply, sv') -> svStore sv' = svStore sv.
Proof.
  intros Hfail. unfold HandleCheck. destruct (negb _); [by intros [= <- <-]|].
  destruct (parseCheckRequest r) as [rep|p] eqn:Hparse; [by intros [= <- <-]|].
  destruct (parseCheckRequest_ok _ _ Hparse) as (_ & Hnd & _).
  destruct (resolveCheckIdempotency _ _ _ _) as [rep|res]; [by intros [= <- <-]|].
  destruct (replay res); [|intros Hf; by apply (finish_ok _ _ _ _ _ _ _ _ _ Hnd Hf)].
  destruct (cached_check_response _ _ _ _) as [[c|] c']; [by intros [= <- <-]|].
  intros Hf. by apply (finish_ok _ _ _ _ _ _ _ _ _ Hnd Hf).
Qed.

End responses.

(** ** The in-memory store *)

Section devstore.
Context {U : UnicodeCase} {C : AuditCrypto} {M : MediaTypes} {L : Logsafe} {O : MapOrder}.

(** It has no reputation and no lifecycle findings (noop_findings.go). *)
#[export] Instance devstore_check : CheckStore Store := {|
  store_vulnerabilities := FindVulnerabilitiesBatch;
  store_malicious := FindMaliciousBatch;
  store_reputation := fun _ _ _ => [];
  store_lifecycle := fun _ _ _ => [];
  store_feeds := ListFeedSyncStatuses;
  store_scan := GetScanLogByIdempotencyKey;
  store_insert := InsertScanLog
|}.

Lemma find_entry k l : List.find (fun e => bool_decide (IdempotencyKey e = k)) l = None <->
  existsb (fun e => bool_decide (IdempotencyKey e = k)) l = false.
Proof. induction l as [|e l IH]; simpl; [done|]. by destruct (bool_decide _); simpl. Qed.

Lemma find_entry_snoc k l e :
  List.find (fun x => bool_decide (IdempotencyKey x = k)) (l ++ [e]) =
  match List.find (fun x => bool_decide (IdempotencyKey x = k)) l with
  | Some x => Some x
  | None => if bool_decide (IdempotencyKey e = k) then Some e else None
  end.
Proof. induction l as [|x l IH]; simpl; [done|]. by destruct (bool_decide (IdempotencyKey x = k)). Qed.

#[export] Instance devstore_check_laws : CheckStoreLaws Store.
Proof.
  constructor; cbn [store_scan store_insert store_vulnerabilities store_malicious devstore_check];
    unfold GetScanLogByIdempotencyKey, InsertScanLog.
  - intros k e s [_ Hk]%List.find_some. by apply bool_decide_eq_true in Hk.
  - intros k e e' s Hk. destruct (_ && _); [done|]. cbn [set_scanLogs scanLogs]. by rewrite find_entry_snoc, Hk.
  - intros e s Hne Hk. rewrite (proj1 (find_entry _ _) Hk), andb_false_r. cbn [set_scanLogs scanLogs].
    by rewrite find_entry_snoc, Hk, bool_decide_true.
  - intros k e s Hk. destruct (_ && _); [done|]. cbn [set_scanLogs scanLogs]. rewrite find_entry_snoc.
    rewrite bool_decide_false by done. by destruct (List.find _ _).
  - intros q e s. by destruct (_ && _).
  - intros q e s. by destruct (_ && _).
Qed.

(** From the advisory to the refused build.  When the checked packages
    include an affected package of a stored advisory, in a version its
    constraints do not rule out, a check that is answered afresh reports the
    advisory, and it blocks at every threshold the severity reaches. *)
Theorem stored_advisory_fails_check h f t r sv s vuln pkg q p status dur body sv' :
  svStore sv = UpsertVulnerability (Some vuln) s -> TrimSpace (vID vuln) <> "" -> pkg ∈ vAffectedPackages vuln ->
  parseCheckRequest r = inr p -> q ∈ srPackages (cRequest p) -> pkgEcosystem q = affEcosystem pkg ->
  NormalizeName (affEcosystem pkg) (pkgName q) = NormalizeName (affEcosystem pkg) (affName pkg) ->
  ~ ruled_out (pkgVersion q) (affEcosystem pkg) (affVersionRanges pkg) (affVersionsAffected pkg) ->
  HandleCheck h f t r sv = (Success status dur body, sv') ->
  from_cache t p sv status dur body \/
  exists result, encodeJSONResponse result = Some body /\
    (exists fd, fd ∈ resFindings result /\ fAdvisoryID fd = vID vuln) /\
    (effectiveBlockThreshold h <> SeverityNone ->
     Rank (effectiveBlockThreshold h) <= Rank (ToUpper (TrimSpace (vSeverity vuln))) ->
     resFindingsBlocking result = true).
Proof.
  intros Hsv Hid Hpkg Hparse Hq Heco Hname Hver Hcheck.
  destruct (parseCheckRequest_ok _ _ Hparse) as (_ & Hnd & _).
  destruct (handle_success _ _ _ _ _ _ _ _ _ _ Hparse Hcheck) as [Hc|(res & sv0 & Hs0 & Hfin)]; [by left|right].
  destruct (finish_ok _ _ _ _ _ _ _ _ _ Hnd Hfin) as (_ & _ & _ & _ & result & Henc & _ & _ & Hex).
  exists result. split; [done|].
  destruct (stored_vulnerability_found vuln pkg (pkgName q) (pkgVersion q) s Hid Hpkg Hname (or_intror Hver))
    as (fd & Hfd & Hfid & _ & Hblock).
  assert (fd ∈ resFindings result) as Hin.
  { rewrite (exact_findings _ _ _ _ _ _ Hex). apply elem_of_app. left. rewrite Hs0, Hsv.
    cbn [store_vulnerabilities devstore_check]. unfold FindVulnerabilitiesBatch. apply list_elem_of_bind.
    exists (package_query q). split; [|by apply list_elem_of_fmap_2]. cbn [package_query pqEcosystem pqName pqVersion].
    by rewrite Heco. }
  split; [by exists fd|]. intros Ht Hr. rewrite (exact_blocking _ _ _ _ _ _ Hex).
  apply FindingsBlock_exists. exists fd. split; [done|]. by apply Hblock.
Qed.
End devstore.

(** ** Witnesses *)

Section example_check.
#[local] Instance check_case : UnicodeCase := plain_case.
#[local] Instance check_order : MapOrder := listed_order.
#[local] Instance check_crypto : AuditCrypto := {| sha256_hex := fun s => Itoa (len s); hmac_hex := fun k s => s |}.
#[local] Instance check_media : MediaTypes := fun s => Some s.
#[local] Instance check_logsafe : Logsafe := fun s _ => s.

Definition example_request : http_request :=
  mk_http "POST" "application/json"
    (json_text "{'packages':[{'name':'my_pkg','version':' 1.0.0','ecosystem':'PyPI'},{'name':'My-Pkg','version':'1.0.0','ecosystem':'pypi'}]}")
    "retry-1" "packmon-cli/1.2.0" "10.0.0.1" (Some (7, "ci")) "id".

Definition no_faults : faults := mk_faults (fun _ => None) None None (fun _ => None) None None None false.
Definition example_readings (t : Time) : readings := mk_readings t t t t t t "0123456789abcdef".
Definition example_handler : Handler := NewHandlerWithBlockThreshold SeverityHigh ScanLogIdentityModeFull.
Definition year_2024 : Time := 738900 * (24 * Hour).

Definition example_service : service :=
  mk_service (UpsertVulnerability (Some (sample_vulnerability None)) NewStore)
    (newCheckResponseCache defaultCheckResponseCacheTTL defaultCheckResponseCacheMaxEntries) [].

(** Both spellings are one coordinate, and the advisory blocks. *)
#[local] Notation example_outcome :=
  (HandleCheck example_handler no_faults (example_readings year_2024) example_request example_service) (only parsing).

Definition answered (reply : check_reply) : bool := match reply with Success status _ _ => status =? 200 | Fail _ _ => false end.

Lemma example_answered reply sv' :
  example_outcome = (reply, sv') -> exists dur body, reply = Success 200 dur body.
Proof.
  intros E. assert (answered example_outcome.1 = true) as Hok by (vm_compute; reflexivity). rewrite E in Hok.
  destruct reply as [|status dur body]; [done|]. apply Z.eqb_eq in Hok as ->. eauto.
Qed.


Lemma stored_advisory_fails_check_witness :
  exists dur body result, example_outcome.1 = Success 200 dur body /\
    encodeJSONResponse result = Some body /\ resFindingsBlocking result = true.
Proof.
  destruct example_outcome as [reply sv'] eqn:E.
  destruct (example_answered reply sv' E) as (dur & body & ->).
  assert (exists p, parseCheckRequest example_request = inr p) as [p Hp] by (eexists; vm_compute; reflexivity).
  destruct (stored_advisory_fails_check example_handler no_faults (example_readings year_2024) example_request
    example_service NewStore (sample_vulnerability None) sample_affected
    (plain_package "my-pkg" "1.0.0" "pypi") p 200 dur body sv') as [[(k & e & _ & Hk & _) _]|(result & Henc & _ & Hblock)].
  - reflexivity.
  - vm_compute. discriminate.
  - left.
  - exact Hp.
  - revert Hp. vm_compute. intros [= <-]. left.
  - reflexivity.
  - vm_compute. reflexivity.
  - intros (ranges & versions & _ & Hv & _ & Hno & _). apply Hno. vm_compute in Hv.
    injection Hv as <-. exists "1.0.0". split; [left|vm_compute; reflexivity].
  - exact E.
  - exfalso. revert Hk. vm_compute. discriminate.
  - exists dur, body, result. split; [reflexivity|]. split; [exact Henc|]. apply Hblock; vm_compute; discriminate.
Defined.
End example_check.
