(* ===== verification/CheckRaces.v ===== *)
(** Concurrent checks: the handler of the check endpoint cut at its accesses to
    the store and the cache, and any number of requests interleaved.

    The steps of one request on its own are [HandleCheck] ([check_runs_alone]).
    Between the steps of a request, others take theirs, requests arrive, and the
    rest of the server changes the store in any way that leaves the scan log
    alone. *)
From stdpp Require Import base list option strings gmap relations.
From Stdlib Require Import Ascii ZArith Lia.
From S2P Require Import Prelude GoStrings GoNumbers AsciiText Json Collections JsonEncode Domain GoTime AuditLog RefreshQueue.
From S2P Require Import Advisories CheckCache CheckRequest CheckHandler CheckService.

(** ** The steps of a request *)

Inductive phase :=
| Resolving (p : checkRequestParts) (n : nat) (keys : list string)
| Replaying (p : checkRequestParts) (res : checkIdempotencyResolution)
| Building (p : checkRequestParts) (res : checkIdempotencyResolution)
| Logging (p : checkRequestParts) (res : checkIdempotencyResolution) (result : ScanResult) (body : string)
| Verifying (p : checkRequestParts) (res : checkIdempotencyResolution) (result : ScanResult) (body : string) (n : nat)
    (keys : list string)
| Storing (p : checkRequestParts) (res : checkIdempotencyResolution) (result : ScanResult) (body : string)
| Answered (reply : check_reply).

Section machine.
Context {U : UnicodeCase} {C : AuditCrypto} {M : MediaTypes} {L : Logsafe} {O : MapOrder}.
Context {S : Type} `{CheckStore S}.

Definition start_phase (t : readings) (r : http_request) : phase :=
  if negb (bool_decide (Method r = "POST")) then Answered (Fail 405 "method not allowed")
  else match parseCheckRequest r with
  | inl reply => Answered reply
  | inr p =>
      if bool_decide (cIdempotencyKey p = "") then Building p (mk_resolution (generateID t) false "")
      else Resolving p 0 (scanLogIdempotencyLookupKeys (scanLogIdempotencyKey (cIdempotencyKey p)) (cIdempotencyKey p))
  end.

Definition resolved (f : faults) (p : checkRequestParts) (outcome : store_error + option ScanLogEntry) : phase :=
  match resolve_with f p outcome with
  | inl reply => Answered reply
  | inr res => if replay res then Replaying p res else Building p res
  end.

Definition verified_phase (f : faults) (p : checkRequestParts) (res : checkIdempotencyResolution) (result : ScanResult)
    (body : string) (outcome : store_error + option ScanLogEntry) : phase :=
  match verify_with f (cRequestDigest p) outcome with
  | Some reply => Answered reply
  | None => Storing p res result body
  end.

Definition step_phase (h : Handler) (f : faults) (t : readings) (r : http_request) (ph : phase) (sv : service)
    : phase * service :=
  match ph with
  | Resolving p n [] => (resolved f p (inr None), sv)
  | Resolving p n (k :: keys) =>
      match answer (on_get f n) (store_scan k (svStore sv)) with
      | inr None => (Resolving p (Datatypes.S n) keys, sv)
      | outcome => (resolved f p outcome, sv)
      end
  | Replaying p res =>
      match cached_check_response (getNow t) (storedKey res) (cRequestDigest p) (svCache sv) with
      | (Some cached, c) =>
          (Answered (Success (statusCode cached) (cachedDurationMs cached) (cachedBody cached)), set_cache c sv)
      | (None, c) => (Building p res, set_cache c sv)
      end
  | Building p res =>
      match buildCheckResult h f t (rScanID res) (srPackages (cRequest p)) (negb (replay res)) sv with
      | (inl reply, sv) => (Answered reply, sv)
      | (inr (result, body), sv) => (if replay res then Storing p res result body else Logging p res result body, sv)
      end
  | Logging p res result body =>
      match logScan h f r (cRequest p) result (storedKey res) (cRequestDigest p) (scanResultDigest body) (svStore sv) with
      | (Some _, s) =>
          (if negb (bool_decide (cIdempotencyKey p = ""))
           then Answered (Fail 500 "internal error while recording idempotency state") else Storing p res result body,
           set_store s sv)
      | (None, s) =>
          (if bool_decide (storedKey res = "") then Storing p res result body
           else Verifying p res result body 2 (scanLogIdempotencyLookupKeys (storedKey res) (cIdempotencyKey p)),
           set_store s sv)
      end
  | Verifying p res result body n [] => (verified_phase f p res result body (inr None), sv)
  | Verifying p res result body n (k :: keys) =>
      match answer (on_get f n) (store_scan k (svStore sv)) with
      | inr None => (Verifying p res result body (Datatypes.S n) keys, sv)
      | outcome => (verified_phase f p res result body outcome, sv)
      end
  | Storing p res result body =>
      (Answered (Success 200 (resDurationMs result) body),
       set_cache (cacheCheckResponse (setNow t) (storedKey res) (cRequestDigest p) 200 (resDurationMs result) body
                    (svCache sv)) sv)
  | Answered reply => (Answered reply, sv)
  end.

(** ** One request on its own *)

Inductive runs (h : Handler) (f : faults) (t : readings) (r : http_request) : phase * service -> check_reply * service -> Prop :=
| runs_done reply sv : runs h f t r (Answered reply, sv) (reply, sv)
| runs_step ph sv ph' sv' out :
    step_phase h f t r ph sv = (ph', sv') -> runs h f t r (ph', sv') out -> runs h f t r (ph, sv) out.

Lemma storing_runs h f t r p res result body sv :
  runs h f t r (Storing p res result body, sv)
    (Success 200 (resDurationMs result) body,
     set_cache (cacheCheckResponse (setNow t) (storedKey res) (cRequestDigest p) 200 (resDurationMs result) body
                  (svCache sv)) sv).
Proof. eapply runs_step; [reflexivity|]. constructor. Qed.

Lemma verifying_runs h f t r p res result body n keys sv :
  runs h f t r (Verifying p res result body n keys, sv)
    match verify_with f (cRequestDigest p) (lookup_loop f n keys (svStore sv)) with
    | Some reply => (reply, sv)
    | None => (Success 200 (resDurationMs result) body,
               set_cache (cacheCheckResponse (setNow t) (storedKey res) (cRequestDigest p) 200 (resDurationMs result) body
                            (svCache sv)) sv)
    end.
Proof.
  assert (forall outcome, runs h f t r (verified_phase f p res result body outcome, sv)
    match verify_with f (cRequestDigest p) outcome with
    | Some reply => (reply, sv)
    | None => (Success 200 (resDurationMs result) body,
               set_cache (cacheCheckResponse (setNow t) (storedKey res) (cRequestDigest p) 200 (resDurationMs result) body
                            (svCache sv)) sv)
    end) as Hv.
  { intros outcome. unfold verified_phase. destruct (verify_with _ _ outcome); [constructor|apply storing_runs]. }
  revert n. induction keys as [|k keys IH]; intros n; cbn [lookup_loop].
  { eapply runs_step; [reflexivity|]. apply Hv. }
  destruct (answer (on_get f n) (store_scan k (svStore sv))) as [e|[entry|]] eqn:E;
    (eapply runs_step; [cbn [step_phase]; rewrite E; reflexivity|]); [apply Hv|apply Hv|apply IH].
Qed.

Lemma building_runs h f t r p res sv :
  storedKey res = scanLogIdempotencyKey (cIdempotencyKey p) ->
  runs h f t r (Building p res, sv) (finish_check h f t r p res sv).
Proof.
  intros Hstored. unfold finish_check, persistCheckScanLog, verifyCheckIdempotencyAfterLog.
  destruct (buildCheckResult h f t (rScanID res) (srPackages (cRequest p)) (negb (replay res)) sv)
    as [[reply|[result body]] sv1] eqn:Hb; (eapply runs_step; [cbn [step_phase]; rewrite Hb; reflexivity|]); [constructor|].
  destruct (replay res) eqn:Hr; [destruct sv1; apply storing_runs|].
  destruct (logScan h f r (cRequest p) result (storedKey res) (cRequestDigest p) (scanResultDigest body) (svStore sv1))
    as [[e|] s] eqn:Hl; (eapply runs_step; [cbn [step_phase]; rewrite Hl; reflexivity|]).
  - case_bool_decide; cbn [negb]; [apply (storing_runs _ _ _ _ _ _ _ _ (set_store s sv1))|constructor].
  - case_bool_decide; [apply (storing_runs _ _ _ _ _ _ _ _ (set_store s sv1))|].
    pose proof (verifying_runs h f t r p res result body 2
      (scanLogIdempotencyLookupKeys (storedKey res) (cIdempotencyKey p)) (set_store s sv1)) as Hv.
    unfold existingIdempotentScan. cbn [svStore set_store] in Hv. by destruct (verify_with _ _ _).
Qed.

Lemma resolving_runs h f t r p n keys sv out :
  runs h f t r (resolved f p (lookup_loop f n keys (svStore sv)), sv) out -> runs h f t r (Resolving p n keys, sv) out.
Proof.
  revert n. induction keys as [|k keys IH]; intros n Hout; cbn [lookup_loop] in Hout.
  { by eapply runs_step; [reflexivity|]. }
  destruct (answer (on_get f n) (store_scan k (svStore sv))) as [e|[entry|]] eqn:E;
    (eapply runs_step; [cbn [step_phase]; rewrite E; reflexivity|]); [done|done|by apply IH].
Qed.

Lemma trim_empty : scanLogIdempotencyKey "" = "".
Proof. reflexivity. Qed.

(** The steps of a request, with nothing in between, are the handler. *)
Theorem check_runs_alone h f t r sv :
  runs h f t r (start_phase t r, sv) (HandleCheck h f t r sv).
Proof.
  unfold start_phase, HandleCheck, resolveCheckIdempotency. destruct (negb _); [constructor|].
  destruct (parseCheckRequest r) as [reply|p]; [constructor|]. case_bool_decide as Hk.
  { apply building_runs. by rewrite Hk. }
  apply resolving_runs. unfold existingIdempotentScan.
  generalize (lookup_loop f 0 (scanLogIdempotencyLookupKeys (scanLogIdempotencyKey (cIdempotencyKey p)) (cIdempotencyKey p))
    (svStore sv)). intros outcome. unfold resolved.
  destruct (resolve_with f p outcome) as [reply|res] eqn:Hres; [constructor|].
  assert (storedKey res = scanLogIdempotencyKey (cIdempotencyKey p)) as Hstored.
  { unfold resolve_with in Hres. repeat case_match; simplify_eq; done. }
  destruct (replay res) eqn:Hr; [|by apply building_runs].
  destruct (cached_check_response (getNow t) (storedKey res) (cRequestDigest p) (svCache sv)) as [[cached|] c] eqn:Hc;
    (eapply runs_step; [cbn [step_phase]; rewrite Hc; reflexivity|]); [constructor|by apply building_runs].
Qed.
End machine.

(** ** Interleaved requests *)

(** A request in flight: the handler as it was configured then, what fails and
    what it reads, and how far it is. *)
Record job := mk_check_job {
  jHandler : Handler;
  jFaults : faults;
  jReadings : readings;
  jRequest : http_request;
  jPhase : phase
}.

Definition set_phase (ph : phase) (j : job) : job := mk_check_job (jHandler j) (jFaults j) (jReadings j) (jRequest j) ph.

(** Keys and digests are hexadecimal texts: the form of hex.EncodeToString. *)
Class HexDigests {C : AuditCrypto} := hex_visible : forall s, all_bytes visible (sha256_hex s) = true.

Lemma split_at_byte c s s' t t' :
  all_bytes (not_byte c) s = true -> all_bytes (not_byte c) s' = true ->
  s +:+ String c t = s' +:+ String c t' -> s = s' /\ t = t'.
Proof.
  revert s'. induction s as [|a s IH]; intros [|b s'] Hs Hs' E; cbn in E.
  - by injection E.
  - injection E as -> _. rewrite all_bytes_cons, andb_true_iff in Hs'. destruct Hs' as [Hb _]. unfold not_byte in Hb.
    by rewrite bool_decide_true in Hb.
  - injection E as -> _. rewrite all_bytes_cons, andb_true_iff in Hs. destruct Hs as [Hb _]. unfold not_byte in Hb.
    by rewrite bool_decide_true in Hb.
  - injection E as -> E. rewrite all_bytes_cons, andb_true_iff in Hs, Hs'. destruct Hs as [_ Hs], Hs' as [_ Hs'].
    destruct (IH s' Hs Hs' E) as [-> ->]. done.
Qed.

Section races.
Context {U : UnicodeCase} {C : AuditCrypto} {M : MediaTypes} {L : Logsafe} {O : MapOrder} {X : HexDigests}.
Context {S : Type} `{CheckStoreLaws S}.

(** [admitted]: the requests that can arrive. *)
Inductive race_step (admitted : http_request -> Prop) : list job * service -> list job * service -> Prop :=
| race_arrive js sv h f t r : admitted r -> race_step admitted (js, sv) (js ++ [mk_check_job h f t r (start_phase t r)], sv)
| race_job js sv i j ph sv' :
    js !! i = Some j -> step_phase (jHandler j) (jFaults j) (jReadings j) (jRequest j) (jPhase j) sv = (ph, sv') ->
    race_step admitted (js, sv) (<[i := set_phase ph j]> js, sv')
| race_other js sv s' :
    (forall k, store_scan k s' = store_scan k (svStore sv)) -> race_step admitted (js, sv) (js, set_store s' sv).

(** The idempotency key of a request, empty for none or a refused request. *)
Definition request_key (r : http_request) : string :=
  match parseCheckRequest r with inr p => cIdempotencyKey p | inl _ => "" end.

Definition request_digest (r : http_request) : string :=
  match parseCheckRequest r with inr p => cRequestDigest p | inl _ => "" end.

Lemma stored_visible raw : all_bytes visible (scanLogIdempotencyKey raw) = true.
Proof.
  unfold scanLogIdempotencyKey. case_bool_decide; [done|]. rewrite all_bytes_app, hex_visible. reflexivity.
Qed.

Lemma stored_ne raw : TrimSpace raw <> "" -> scanLogIdempotencyKey raw <> "".
Proof. intros Hne. unfold scanLogIdempotencyKey. by rewrite bool_decide_false. Qed.

Lemma stored_prefix raw : scanLogIdempotencyKey raw = "" \/ HasPrefix (scanLogIdempotencyKey raw) "sha256:" = true.
Proof. unfold scanLogIdempotencyKey. case_bool_decide; [by left|right]. apply HasPrefix_app. Qed.

Lemma visible_no_zero s : all_bytes visible s = true -> all_bytes (not_byte (byte 0)) s = true.
Proof.
  apply all_bytes_impl. intros c Hc. unfold not_byte. case_bool_decide as E; [|done]. subst c. by vm_compute in Hc.
Qed.

Lemma cache_key_inj a b d d' :
  d <> "" -> a <> "" -> checkResponseCacheKey (scanLogIdempotencyKey a) d = checkResponseCacheKey (scanLogIdempotencyKey b) d' ->
  scanLogIdempotencyKey a <> "" -> scanLogIdempotencyKey a = scanLogIdempotencyKey b /\ d = d'.
Proof.
  unfold checkResponseCacheKey. intros Hd Ha E Hne.
  rewrite (bool_decide_false (scanLogIdempotencyKey a = "")), (bool_decide_false (d = "")) in E by done. cbn [orb] in E.
  destruct (bool_decide (scanLogIdempotencyKey b = "") || bool_decide (d' = "")).
  - apply (f_equal String.length) in E. rewrite str_len_app in E. simpl in E. lia.
  - apply (split_at_byte (byte 0)) in E; [done|apply visible_no_zero, stored_visible..].
Qed.

Section one_key.
Context (k : string) (Hkey : all_bytes key_byte k = true) (Hne : k <> "") (Hraw : HasPrefix k "sha256:" = false).
Let K : string := scanLogIdempotencyKey k.

Definition scan_of (d : string) : string := scanIDForIdempotencyKey K d.

(** The row under the key was recorded for the digest [d]. *)
Definition claimed (d : string) (s : S) : Prop :=
  exists e, store_scan K s = Some e /\ RequestDigest e = d /\ ScanID e = scan_of d.

Definition body_ok (d body : string) : Prop :=
  exists result, encodeJSONResponse result = Some body /\ resScanID result = scan_of d.

(** How far a request with the key can be. *)
Definition phase_ok (r : http_request) (ph : phase) (s : S) : Prop :=
  let res_ok p res := parseCheckRequest r = inr p /\ storedKey res = K /\ rScanID res = scan_of (cRequestDigest p) /\
                      (replay res = true -> claimed (cRequestDigest p) s) in
  match ph with
  | Resolving p n keys => parseCheckRequest r = inr p /\ forall x, x ∈ keys -> x = K \/ x = k
  | Replaying p res => res_ok p res /\ replay res = true
  | Building p res => res_ok p res
  | Logging p res result body =>
      res_ok p res /\ replay res = false /\ encodeJSONResponse result = Some body /\ resScanID result = rScanID res
  | Verifying p res result body n keys =>
      res_ok p res /\ encodeJSONResponse result = Some body /\ resScanID result = rScanID res /\
      (exists rest, keys = K :: rest) /\ is_Some (store_scan K s)
  | Storing p res result body =>
      res_ok p res /\ encodeJSONResponse result = Some body /\ resScanID result = rScanID res /\ claimed (cRequestDigest p) s
  | Answered (Success _ _ body) => claimed (request_digest r) s /\ body_ok (request_digest r) body
  | Answered (Fail _ _) => True
  end.

(** How far a request with another key can be. *)
Definition other_ok (r : http_request) (ph : phase) : Prop :=
  match ph with
  | Resolving p _ _ => parseCheckRequest r = inr p
  | Replaying p res | Building p res | Logging p res _ _ | Verifying p res _ _ _ _ | Storing p res _ _ =>
      parseCheckRequest r = inr p /\ storedKey res = scanLogIdempotencyKey (cIdempotencyKey p)
  | Answered _ => True
  end.

(** What holds of the store and the cache. *)
Record shared_ok (sv : service) : Prop := {
  ok_raw : store_scan k (svStore sv) = None;
  ok_row : forall e, store_scan K (svStore sv) = Some e -> RequestDigest e <> "" /\ ScanID e = scan_of (RequestDigest e);
  ok_cached : forall c d e, svCache sv = Some c -> d <> "" -> entries c !! checkResponseCacheKey K d = Some e ->
    body_ok d (cachedBody (response e))
}.

(** A recorded row stays. *)
Definition kept (s s' : S) : Prop := forall e, store_scan K s = Some e -> store_scan K s' = Some e.

Lemma claimed_kept d s s' : kept s s' -> claimed d s -> claimed d s'.
Proof. intros Hk (e & He & ?). exists e. by split; [apply Hk|]. Qed.

Lemma phase_ok_kept r ph s s' : kept s s' -> phase_ok r ph s -> phase_ok r ph s'.
Proof.
  intros Hk. pose proof (fun d => claimed_kept d s s' Hk) as Hc. destruct ph as [| | | | | |[]]; cbn [phase_ok]; try tauto.
  - intros ((? & ? & ? & ?) & ?). split_and!; auto.
  - intros (? & ? & ? & ?). split_and!; auto.
  - intros ((? & ? & ? & ?) & ? & ? & ?). split_and!; auto.
  - intros ((? & ? & ? & ?) & ? & ? & ? & [e He]). split_and!; eauto.
  - intros ((? & ? & ? & ?) & ? & ? & ?). split_and!; auto.
  - intros [? ?]. split; auto.
Qed.

Lemma K_trimmed : TrimSpace K = K.
Proof. apply TrimSpace_visible, stored_visible. Qed.

Lemma K_ne : K <> "".
Proof. apply stored_ne. by rewrite checked_key_trimmed. Qed.

Lemma K_raw : k <> K.
Proof. intros E. destruct (stored_prefix k) as [?|Hp]; [by apply K_ne|]. fold K in Hp. rewrite <- E in Hp. congruence. Qed.

Lemma lookup_keys : scanLogIdempotencyLookupKeys K k = [K; k].
Proof.
  unfold scanLogIdempotencyLookupKeys. rewrite K_trimmed, checked_key_trimmed by done. cbv zeta.
  rewrite !bool_decide_false; [done|apply K_raw|done|apply K_ne].
Qed.

Lemma key_parts r p : request_key r = k -> parseCheckRequest r = inr p ->
  cIdempotencyKey p = k /\ request_digest r = cRequestDigest p /\ cRequestDigest p <> "" /\
  NoDup (check_key <$> srPackages (cRequest p)).
Proof.
  unfold request_key, request_digest. intros Hk Hp. rewrite Hp in *.
  destruct (parseCheckRequest_ok _ _ Hp) as (_ & ? & _ & _ & _ & _ & ->). done.
Qed.

Lemma start_ok t r s : request_key r = k -> phase_ok r (start_phase t r) s.
Proof.
  intros Hk. unfold start_phase. destruct (negb _); [done|]. destruct (parseCheckRequest r) as [reply|p] eqn:Hp.
  { destruct reply; [done|]. exfalso. revert Hp. unfold parseCheckRequest. repeat case_match; congruence. }
  destruct (key_parts r p Hk Hp) as (-> & _). rewrite bool_decide_false by done. split; [done|].
  fold K. rewrite lookup_keys. intros x [->|[->|[]%not_elem_of_nil]%elem_of_cons]%elem_of_cons; auto.
Qed.

Lemma start_other t r : other_ok r (start_phase t r).
Proof.
  unfold start_phase. destruct (negb _); [done|]. destruct (parseCheckRequest r) as [reply|p] eqn:Hp; [done|].
  case_bool_decide as Hk; [|done]. split; [done|]. by rewrite Hk.
Qed.

Lemma error_reply f e : exists status message, checkStoreErrorResponse f e = Fail status message.
Proof. unfold checkStoreErrorResponse. repeat case_match; eauto. Qed.

(** The row found before the check decides. *)
Lemma resolved_ok f r p s outcome :
  request_key r = k -> parseCheckRequest r = inr p ->
  (forall e, outcome = inr (Some e) -> store_scan K s = Some e /\ RequestDigest e <> "" /\ ScanID e = scan_of (RequestDigest e)) ->
  phase_ok r (resolved f p outcome) s.
Proof.
  intros Hk Hp Hout. destruct (key_parts r p Hk Hp) as (Hkp & _ & Hd & _). unfold resolved, resolve_with.
  rewrite Hkp. fold K. destruct outcome as [e|[entry|]].
  - by destruct (error_reply f e) as (st & m & ->).
  - destruct (Hout entry eq_refl) as (He & Hde & Hid). unfold different_request. rewrite (bool_decide_false _ Hde). cbn [negb andb].
    case_bool_decide as Hsame; cbn [negb]; [|done]. cbn [replay phase_ok storedKey rScanID]. rewrite Hsame in Hid.
    split_and!; try done; [by case_bool_decide|]. intros _. exists entry. by rewrite Hsame.
  - cbn [replay phase_ok storedKey rScanID]. by split_and!.
Qed.

Lemma verified_ok f r p res result body s e :
  request_key r = k -> phase_ok r (Building p res) s -> encodeJSONResponse result = Some body ->
  resScanID result = rScanID res -> store_scan K s = Some e -> RequestDigest e <> "" -> ScanID e = scan_of (RequestDigest e) ->
  phase_ok r (verified_phase f p res result body (inr (Some e))) s.
Proof.
  intros Hk Hres Henc Hid He Hde Hsc. unfold verified_phase, verify_with, different_request.
  rewrite (bool_decide_false _ Hde). cbn [negb andb]. case_bool_decide as Hsame; cbn [negb]; [|done].
  split; [exact Hres|]. split; [done|]. split; [done|]. exists e. by rewrite <- Hsame.
Qed.

Lemma shared_store s sv : shared_ok sv -> store_scan k s = None ->
  (forall e, store_scan K s = Some e -> RequestDigest e <> "" /\ ScanID e = scan_of (RequestDigest e)) ->
  shared_ok (set_store s sv).
Proof. intros [? ? ?] ? ?. by constructor. Qed.

Lemma shared_cache c sv : shared_ok sv ->
  (forall c' d e, c = Some c' -> d <> "" -> entries c' !! checkResponseCacheKey K d = Some e -> body_ok d (cachedBody (response e))) ->
  shared_ok (set_cache c sv).
Proof. intros [? ? ?] ?. by constructor. Qed.

(** Writing a scan-log row with the key of the request. *)
Lemma insert_kept e s : kept s (store_insert e s).
Proof. intros x Hx. by apply scan_kept. Qed.

Lemma insert_own e sv :
  shared_ok sv -> IdempotencyKey e = K -> RequestDigest e <> "" -> ScanID e = scan_of (RequestDigest e) ->
  shared_ok (set_store (store_insert e (svStore sv)) sv) /\ is_Some (store_scan K (store_insert e (svStore sv))).
Proof.
  intros Hok HK Hd Hid. destruct (store_scan K (svStore sv)) as [x|] eqn:Hx.
  - pose proof (scan_kept K x e _ Hx) as Hx'. split; [|by eexists]. apply shared_store; [done| |].
    + rewrite scan_other; [by apply ok_raw|]. rewrite HK. intros E. by apply K_raw.
    + intros y Hy. rewrite Hx' in Hy. injection Hy as <-. by apply (ok_row _ Hok).
  - assert (store_scan K (store_insert e (svStore sv)) = Some e) as He.
    { rewrite <- HK. apply scan_stored; rewrite HK; [apply K_ne|done]. }
    split; [|by eexists]. apply shared_store; [done| |].
    + rewrite scan_other; [by apply ok_raw|]. rewrite HK. intros E. by apply K_raw.
    + intros y Hy. rewrite He in Hy. injection Hy as <-. done.
Qed.

Lemma insert_foreign e sv :
  shared_ok sv -> IdempotencyKey e <> K -> IdempotencyKey e <> k -> shared_ok (set_store (store_insert e (svStore sv)) sv).
Proof.
  intros Hok HK Hk. apply shared_store; [done| |]; rewrite scan_other by done; [by apply ok_raw|by apply ok_row].
Qed.

(** Looking into the cache and storing into it. *)
Lemma shared_get now key sv r c :
  shared_ok sv -> cached_check_response now key r (svCache sv) = c -> shared_ok (set_cache c.2 sv).
Proof.
  intros Hok <-. apply shared_cache; [done|]. intros c' d e Hc Hd He. unfold cached_check_response in Hc.
  destruct (svCache sv) as [c|] eqn:Hsv; [|done]. destruct (cache_Get _ _ c) as [x c1] eqn:Hg. injection Hc as <-.
  apply cache_Get_entries in Hg as [Hsub _]. eapply (ok_cached _ Hok); [done|done|]. by eapply lookup_weaken.
Qed.

Lemma shared_set now raw digest status dur body sv :
  shared_ok sv -> digest <> "" -> (scanLogIdempotencyKey raw = K -> body_ok digest body) ->
  shared_ok (set_cache (cacheCheckResponse now (scanLogIdempotencyKey raw) digest status dur body (svCache sv)) sv).
Proof.
  intros Hok Hdig Hbody. apply shared_cache; [done|]. intros c' d e Hc Hd He. unfold cacheCheckResponse in Hc.
  destruct (svCache sv) as [c|] eqn:Hsv; [|done]. cbn in Hc. injection Hc as <-.
  apply cache_Set_entries in He as [[E Hr]|He]; [|by eapply (ok_cached _ Hok)]. rewrite Hr. cbn [cachedBody].
  apply cache_key_inj in E as [E1 <-]; [|done|done|apply K_ne]. by apply Hbody.
Qed.

Lemma log_entry_fields h r req result key digest rd :
  let e := scan_log_entry h r req result key digest rd in
  IdempotencyKey e = key /\ RequestDigest e = digest /\ ScanID e = resScanID result.
Proof. done. Qed.

(** A step of a request with the key. *)
Lemma step_own h f t r ph sv ph' sv' :
  request_key r = k -> shared_ok sv -> phase_ok r ph (svStore sv) -> step_phase h f t r ph sv = (ph', sv') ->
  shared_ok sv' /\ phase_ok r ph' (svStore sv') /\ kept (svStore sv) (svStore sv').
Proof.
  intros Hk Hok Hph. assert (kept (svStore sv) (svStore sv)) as Hrefl by (by intros ?).
  destruct ph as [p n keys|p res|p res|p res result body|p res result body n keys|p res result body|reply]; cbn [step_phase].
  - destruct Hph as [Hp Hkeys]. destruct keys as [|x keys].
    { intros [= <- <-]. split_and!; [done| |done]. by apply resolved_ok. }
    unfold answer. destruct (on_get f n) as [e|]; [intros [= <- <-]; split_and!; [done|by apply resolved_ok|done]|].
    destruct (store_scan x (svStore sv)) as [e|] eqn:Hx; intros [= <- <-]; split_and!; try done.
    + apply resolved_ok; [done|done|]. intros e' [= <-].
      destruct (Hkeys x ltac:(left)) as [->| ->]; [|rewrite (ok_raw _ Hok) in Hx; done].
      split; [done|]. by apply (ok_row _ Hok).
    + split; [done|]. intros y Hy. apply Hkeys. by right.
  - destruct Hph as [Hres Hr]. destruct (cached_check_response _ _ _ _) as [[cached|] c] eqn:Hc; intros [= <- <-];
      (split_and!; [by apply (shared_get _ _ _ _ _ Hok Hc)| |done]); [|exact Hres].
    destruct Hres as (Hp & HsK & _ & Hcl). destruct (key_parts r p Hk Hp) as (_ & Hdig & Hd & _).
    cbn [phase_ok]. rewrite Hdig. split; [by apply Hcl|]. rewrite HsK in Hc. unfold cached_check_response in Hc.
    destruct (svCache sv) as [cc|] eqn:Hsv; [|done]. destruct (cache_Get _ _ cc) as [x c1] eqn:Hg.
    injection Hc as -> _. apply cache_Get_entries in Hg as [_ Hg]. destruct (Hg cached eq_refl) as (e & He & <-).
    by eapply (ok_cached _ Hok).
  - destruct Hph as (Hp & HsK & Hid & Hcl). destruct (key_parts r p Hk Hp) as (_ & _ & _ & Hnd).
    destruct (buildCheckResult _ _ _ _ _ _ _) as [[reply|[result body]] sv1] eqn:Hb; intros [= <- <-].
    + assert (svCache sv1 = svCache sv /\ svStore sv1 = svStore sv) as [H1 H2] by by eapply build_shared.
      apply build_failed in Hb as [(st & m & ->) _]. rewrite H2. split_and!; [|done|done].
      destruct Hok as [? ? ?]. constructor; rewrite ?H1, ?H2; done.
    + destruct (build_ok _ _ _ _ _ _ _ _ _ _ Hnd Hb) as (_ & _ & Henc & Hrid & _ & H2 & H1). rewrite H2. split_and!; [| |done].
      { destruct Hok as [? ? ?]. constructor; rewrite ?H1, ?H2; done. }
      destruct (replay res) eqn:Hr; cbn [phase_ok]; split_and!; try done; try congruence; intros; by apply Hcl.
  - destruct Hph as ((Hp & HsK & Hid & Hcl) & Hr & Henc & Hrid).
    destruct (key_parts r p Hk Hp) as (Hkp & _ & Hd & _). unfold logScan.
    destruct (log_entry_fields h r (cRequest p) result (storedKey res) (cRequestDigest p) (scanResultDigest body))
      as (F1 & F2 & F3). set (e := scan_log_entry _ _ _ _ _ _ _) in *.
    destruct (insert_own e sv Hok) as [Hs Hsome]; [congruence|congruence|rewrite F2, F3; congruence|].
    rewrite Hkp, (bool_decide_false (k = "")) by done. cbn [negb].
    destruct (on_insert f) as [[err []]|]; intros [= <- <-]; split_and!; try done; try apply insert_kept.
    + destruct Hok. by constructor.
    + rewrite bool_decide_false by (rewrite HsK; apply K_ne). cbn [phase_ok svStore set_store]. split_and!; try done.
      * intros Hrep. congruence.
      * rewrite HsK, lookup_keys. by eexists.
  - destruct Hph as (Hres & Henc & Hrid & (rest & ->) & [e He]). rewrite He. unfold answer.
    destruct (on_get f n) as [err|]; intros [= <- <-]; split_and!; try done.
    + unfold verified_phase, verify_with. by destruct (error_reply f err) as (st & m & ->).
    + destruct (ok_row _ Hok e He) as [Hd Hsc]. by eapply verified_ok.
  - destruct Hph as ((Hp & HsK & Hid & _) & Henc & Hrid & Hcl). destruct (key_parts r p Hk Hp) as (Hkp & Hdig & Hd & _).
    intros [= <- <-]. assert (body_ok (cRequestDigest p) body) as Hbody by (exists result; split; congruence).
    split_and!; [|cbn [phase_ok]; by rewrite Hdig|done]. rewrite HsK. by apply shared_set.
  - intros [= <- <-]. done.
Qed.

Lemma foreign_key r p : parseCheckRequest r = inr p -> scanLogIdempotencyKey (request_key r) <> K ->
  scanLogIdempotencyKey (cIdempotencyKey p) <> K /\ scanLogIdempotencyKey (cIdempotencyKey p) <> k /\ cRequestDigest p <> "".
Proof.
  unfold request_key. intros Hp HK. rewrite Hp in HK. destruct (parseCheckRequest_ok _ _ Hp) as (_ & _ & _ & _ & _ & _ & ->).
  split_and!; [done| |done]. intros E. destruct (stored_prefix (cIdempotencyKey p)) as [E'|Hp']; [congruence|].
  rewrite E in Hp'. congruence.
Qed.

(** A step of any other request. *)
Lemma step_foreign h f t r ph sv ph' sv' :
  scanLogIdempotencyKey (request_key r) <> K -> shared_ok sv -> other_ok r ph ->
  step_phase h f t r ph sv = (ph', sv') ->
  shared_ok sv' /\ other_ok r ph' /\ kept (svStore sv) (svStore sv').
Proof.
  intros HK Hok Hph. assert (kept (svStore sv) (svStore sv)) as Hrefl by (by intros ?).
  assert (forall p outcome, parseCheckRequest r = inr p -> other_ok r (resolved f p outcome)) as Hresolved.
  { intros p outcome Hp. unfold resolved, resolve_with. repeat case_match; simplify_eq; try done; by split. }
  assert (forall p res result body outcome, other_ok r (Building p res) -> other_ok r (verified_phase f p res result body outcome))
    as Hverified. { intros * Hb. unfold verified_phase. by destruct (verify_with _ _ _). }
  destruct ph as [p n keys|p res|p res|p res result body|p res result body n keys|p res result body|reply]; cbn [step_phase].
  - destruct keys as [|x keys]; [|destruct (answer _ _) as [e|[e|]]]; intros [= <- <-]; auto.
  - destruct (cached_check_response _ _ _ _) as [[cached|] c] eqn:Hc; intros [= <- <-];
      (split_and!; [by apply (shared_get _ _ _ _ _ Hok Hc)|done|done]).
  - destruct (buildCheckResult _ _ _ _ _ _ _) as [[reply|[result body]] sv1] eqn:Hb; intros [= <- <-];
      apply build_shared in Hb as [H1 H2]; rewrite H2; (split_and!; [|try done|done]).
    1, 2: destruct Hok as [? ? ?]; constructor; rewrite ?H1, ?H2; done. by destruct (replay res).
  - destruct Hph as [Hp Hs]. destruct (foreign_key r p Hp HK) as (N1 & N2 & Hd). unfold logScan.
    destruct (log_entry_fields h r (cRequest p) result (storedKey res) (cRequestDigest p) (scanResultDigest body))
      as (F1 & _). set (e := scan_log_entry _ _ _ _ _ _ _) in *.
    assert (shared_ok (set_store (store_insert e (svStore sv)) sv)) as Hins by (apply insert_foreign; congruence).
    destruct (on_insert f) as [[err []]|]; intros [= <- <-]; split_and!; try done; try apply insert_kept;
      try (by destruct (negb _)); try (by destruct (bool_decide _)).
    destruct Hok. by constructor.
  - destruct keys as [|x keys]; [|destruct (answer _ _) as [e|[e|]]]; intros [= <- <-]; auto.
  - destruct Hph as [Hp Hs]. destruct (foreign_key r p Hp HK) as (N1 & _ & Hd). intros [= <- <-].
    split_and!; [|done|done]. rewrite Hs. by apply shared_set.
  - intros [= <- <-]. done.
Qed.

Context (admitted : http_request -> Prop)
  (no_collision : forall r, admitted r -> request_key r <> k -> scanLogIdempotencyKey (request_key r) <> K).

Record race_ok (st : list job * service) : Prop := {
  ok_shared : shared_ok st.2;
  ok_jobs : forall j, j ∈ st.1 -> admitted (jRequest j) /\
    if decide (request_key (jRequest j) = k) then phase_ok (jRequest j) (jPhase j) (svStore st.2)
    else other_ok (jRequest j) (jPhase j)
}.

Lemma jobs_kept (js : list job) s s' :
  kept s s' ->
  (forall j, j ∈ js -> admitted (jRequest j) /\
     if decide (request_key (jRequest j) = k) then phase_ok (jRequest j) (jPhase j) s else other_ok (jRequest j) (jPhase j)) ->
  forall j, j ∈ js -> admitted (jRequest j) /\
     if decide (request_key (jRequest j) = k) then phase_ok (jRequest j) (jPhase j) s' else other_ok (jRequest j) (jPhase j).
Proof.
  intros Hk Hjs j Hj. destruct (Hjs j Hj) as [Ha Hok]. split; [done|].
  destruct (decide _); [|done]. by eapply phase_ok_kept.
Qed.

Lemma race_step_ok st st' : race_step admitted st st' -> race_ok st -> race_ok st'.
Proof.
  intros Hstep [Hsh Hjobs]. destruct Hstep as [js sv h f t r Ha|js sv i j ph sv' Hj Hph|js sv s' Hsame]; cbn [fst snd] in *.
  - constructor; cbn [fst snd]; [done|]. intros j [Hj|Hj]%elem_of_app; [by apply Hjobs|].
    apply list_elem_of_singleton in Hj as ->. cbn [jRequest jPhase]. split; [done|].
    destruct (decide _); [by apply start_ok|apply start_other].
  - assert (j ∈ js) as Hin by (by eapply list_elem_of_lookup_2). destruct (Hjobs j Hin) as [Hadm Hok].
    assert (shared_ok sv' /\ kept (svStore sv) (svStore sv') /\
      (if decide (request_key (jRequest j) = k) then phase_ok (jRequest j) ph (svStore sv') else other_ok (jRequest j) ph))
      as (Hsh' & Hkept & Hok').
    { destruct (decide (request_key (jRequest j) = k)) as [E|E].
      - destruct (step_own _ _ _ _ _ _ _ _ E Hsh Hok Hph) as (? & ? & ?). done.
      - destruct (step_foreign _ _ _ _ _ _ _ _ (no_collision _ Hadm E) Hsh Hok Hph) as (? & ? & ?). done. }
    constructor; cbn [fst snd]; [done|]. intros j' Hj'.
    apply list_elem_of_lookup_1 in Hj' as [i' Hi']. destruct (decide (i = i')) as [<-|Hi].
    + rewrite list_lookup_insert_eq in Hi' by (by eapply lookup_lt_Some). injection Hi' as <-. done.
    + rewrite list_lookup_insert_ne in Hi' by done. eapply jobs_kept; [exact Hkept|exact Hjobs|by eapply list_elem_of_lookup_2].
  - constructor; cbn [fst snd].
    + apply shared_store; [done|rewrite Hsame; by apply ok_raw|intros e; rewrite Hsame; by apply ok_row].
    + eapply jobs_kept; [|exact Hjobs]. intros e He. cbn [svStore set_store]. by rewrite Hsame.
Qed.

Lemma races_ok st st' : rtc (race_step admitted) st st' -> race_ok st -> race_ok st'.
Proof. induction 1; [done|]. intros Hok. by eauto using race_step_ok. Qed.
End one_key.

(** C10: one key, one request.  However checks are interleaved with each other
    and with the rest of the server, whatever fails and however often a client
    retries: all requests with the same idempotency key that are answered with
    success carry the same request digest and get results with the same scan
    identifier, that of the one row recorded under the key.  (The key is not
    itself of the stored form, no row was stored under it before, and the other
    keys in use do not collide with it.) *)
Theorem idempotent_checks_agree k admitted sv0 js sv j1 j2 s1 d1 b1 s2 d2 b2 :
  all_bytes key_byte k = true -> k <> "" -> HasPrefix k "sha256:" = false ->
  (forall r, admitted r -> request_key r <> k -> scanLogIdempotencyKey (request_key r) <> scanLogIdempotencyKey k) ->
  store_scan k (svStore sv0) = None -> store_scan (scanLogIdempotencyKey k) (svStore sv0) = None ->
  (forall c, svCache sv0 = Some c -> entries c = ∅) ->
  rtc (race_step admitted) ([], sv0) (js, sv) ->
  j1 ∈ js -> j2 ∈ js -> request_key (jRequest j1) = k -> request_key (jRequest j2) = k ->
  jPhase j1 = Answered (Success s1 d1 b1) -> jPhase j2 = Answered (Success s2 d2 b2) ->
  request_digest (jRequest j1) = request_digest (jRequest j2) /\
  exists e r1 r2, store_scan (scanLogIdempotencyKey k) (svStore sv) = Some e /\
    RequestDigest e = request_digest (jRequest j1) /\
    encodeJSONResponse r1 = Some b1 /\ encodeJSONResponse r2 = Some b2 /\
    resScanID r1 = ScanID e /\ resScanID r2 = ScanID e.
Proof.
  intros Hkey Hne Hraw Hcol Hk HK Hcache Hrun H1 H2 K1 K2 P1 P2.
  assert (race_ok k admitted (js, sv)) as [_ Hjobs].
  { eapply races_ok; [done..|exact Hrun|]. constructor; cbn [fst snd]; [|by intros j []%not_elem_of_nil].
    constructor; [done|congruence|]. intros c d e Hc _ He. rewrite (Hcache c Hc), lookup_empty in He. done. }
  destruct (Hjobs j1 H1) as [_ O1], (Hjobs j2 H2) as [_ O2]. 
  rewrite decide_True in O1 by done. rewrite decide_True in O2 by done.
  rewrite P1 in O1. rewrite P2 in O2. cbn [phase_ok snd] in O1, O2.
  destruct O1 as [(e & He & Hd1 & Hi1) (r1 & En1 & R1)], O2 as [(e' & He' & Hd2 & Hi2) (r2 & En2 & R2)].
  rewrite He in He'. injection He' as <-. split; [congruence|]. exists e, r1, r2. split_and!; congruence.
Qed.
End races.

(** ** Witness *)

Section example_race.
#[local] Instance race_case : UnicodeCase := plain_case.
#[local] Instance race_order : MapOrder := listed_order.
#[local] Instance race_crypto : AuditCrypto := {| sha256_hex := fun s => Itoa (len s); hmac_hex := fun k s => s |}.
#[local] Instance race_media : MediaTypes := fun s => Some s.
#[local] Instance race_logsafe : Logsafe := fun s _ => s.

#[local] Instance race_hex : HexDigests.
Proof.
  intros s. cbn [sha256_hex race_crypto]. apply digits_visible. unfold Itoa, len. rewrite (proj2 (Z.ltb_ge _ _)) by lia.
  apply itoa_nonneg_digits. lia.
Qed.

(** A request of another client, with a key of its own. *)
Definition other_request : http_request :=
  mk_http "POST" "application/json" (json_text "{'packages':[{'name':'left','version':'2.0.0','ecosystem':'npm'}]}")
    "retry-of-another" "packmon-cli/1.2.0" "10.0.0.2" (Some (8, "dev")) "id".

Definition example_job (t : Time) (r : http_request) : job :=
  mk_check_job example_handler no_faults (example_readings t) r (start_phase (example_readings t) r).

(** The [i]th request takes its next step. *)
Definition advance (st : list job * service) (i : nat) : list job * service :=
  match st.1 !! i with
  | Some j =>
      let '(ph, sv) := step_phase (jHandler j) (jFaults j) (jReadings j) (jRequest j) (jPhase j) st.2 in
      (<[i := set_phase ph j]> st.1, sv)
  | None => st
  end.

Lemma advance_step admitted st i : rtc (race_step admitted) st (advance st i).
Proof.
  destruct st as [js sv]. unfold advance. cbn [fst snd]. destruct (js !! i) as [j|] eqn:Hj; [|done].
  destruct (step_phase _ _ _ _ _ _) as [ph sv'] eqn:Hph. apply rtc_once. by eapply race_job.
Qed.

Lemma advance_all admitted schedule st : rtc (race_step admitted) st (foldl advance st schedule).
Proof. revert st. induction schedule as [|i l IH]; intros st; cbn [foldl]; [done|]. etrans; [apply advance_step|apply IH]. Qed.

#[local] Notation arrived :=
  ([example_job year_2024 example_request; example_job (year_2024 + 5) example_request;
    example_job (year_2024 + 7) other_request], example_service) (only parsing).

(** The first two record their row between the other's lookup and its own. *)
#[local] Notation raced := (foldl advance arrived (concat (replicate 9 [0%nat; 1%nat; 2%nat]))) (only parsing).

Definition success (j : job) : bool := match jPhase j with Answered reply => answered reply | _ => false end.

Definition both_retries {S} (st : list job * service (S := S)) : bool :=
  match st.1 with
  | j1 :: j2 :: _ => success j1 && success j2 && bool_decide (request_key (jRequest j1) = "retry-1") &&
                     bool_decide (request_key (jRequest j2) = "retry-1")
  | _ => false
  end.

Lemma success_phase j : success j = true -> exists dur body, jPhase j = Answered (Success 200 dur body).
Proof.
  unfold success, answered. destruct (jPhase j) as [| | | | | |[|status dur body]]; try done. intros ->%Z.eqb_eq. eauto.
Qed.

Lemma arrive_step (admitted : http_request -> Prop) js sv t r : admitted r ->
  rtc (race_step admitted) (js, sv) (js ++ [example_job t r], sv).
Proof. intros Ha. apply rtc_once. by apply race_arrive. Qed.

Lemma arrivals (admitted : http_request -> Prop) : admitted example_request -> admitted other_request ->
  rtc (race_step admitted) ([], example_service) arrived.
Proof.
  intros H1 H2. etransitivity; [by apply (arrive_step _ [] _ year_2024 example_request)|].
  etransitivity; [by apply (arrive_step _ [example_job year_2024 example_request] _ (year_2024 + 5) example_request)|].
  by apply (arrive_step _ [example_job year_2024 example_request; example_job (year_2024 + 5) example_request]).
Qed.

Lemma idempotent_checks_agree_witness :
  exists js sv j1 j2 rest e, raced = (js, sv) /\ js = j1 :: j2 :: rest /\ success j1 = true /\ success j2 = true /\
    store_scan (scanLogIdempotencyKey "retry-1") (svStore sv) = Some e /\ RequestDigest e = request_digest (jRequest j2).
Proof.
  destruct raced as [js sv] eqn:E. assert (both_retries raced = true) as Hb by (vm_compute; reflexivity).
  rewrite E in Hb. unfold both_retries in Hb. cbn [fst] in Hb. destruct js as [|j1 [|j2 rest]]; [done..|].
  apply andb_true_iff in Hb as [Hb K2%bool_decide_eq_true]. apply andb_true_iff in Hb as [Hb K1%bool_decide_eq_true].
  apply andb_true_iff in Hb as [S1 S2]. destruct (success_phase j1 S1) as (d1 & b1 & P1), (success_phase j2 S2) as (d2 & b2 & P2).
  destruct (idempotent_checks_agree "retry-1" (fun r => r ∈ [example_request; other_request]) example_service
    (j1 :: j2 :: rest) sv j1 j2 200 d1 b1 200 d2 b2) as (Hd & e & r1 & r2 & He & Hde & _);
    [reflexivity|done|reflexivity| |reflexivity|reflexivity| | |left|right; left|done|done|done|done|].
  - intros r Hr Hk E'. apply elem_of_cons in Hr as [->|Hr]; [by apply Hk; vm_compute|].
    apply list_elem_of_singleton in Hr as ->. apply (f_equal (fun a => bool_decide (a = scanLogIdempotencyKey "retry-1"))) in E'.
    rewrite (bool_decide_true _ eq_refl) in E'. by vm_compute in E'.
  - intros c [= <-]. reflexivity.
  - rewrite <- E. etransitivity; [apply arrivals; [left|right; left]|apply advance_all].
  - exists (j1 :: j2 :: rest), sv, j1, j2, rest, e.
    split; [reflexivity|]. split; [reflexivity|]. split; [exact S1|]. split; [exact S2|]. split; [exact He|]. by rewrite Hde.
Defined.
End example_race.
