(* ===== verification/CheckWire.v ===== *)
(** The check endpoint on the wire: domain.ScanResult and domain.ScanRequest as
    JSON, both directions.

    The client decodes what encodeJSONResponse wrote and the server decodes what
    the client marshalled; strings come back as valid UTF-8. *)
From stdpp Require Import base list option strings gmap.
From Stdlib Require Import Ascii ZArith Lia.
From S2P Require Import Prelude GoStrings GoNumbers AsciiText Json Collections JsonEncode Domain JsonMaps JsonRender GoTime.
From S2P Require Import Dates TimeParse CheckRequest CheckHandler.

(** domain.ScanResult with all of its fields. *)
Record ScanOutput := mk_output {
  soScanID : string;
  soMode : string;
  soScannedAt : Time;
  soDurationMs : Z;
  soPackagesScanned : Z;
  soFindingsCount : Z;
  soFindingsBlocking : bool;
  soBlockThreshold : Severity;
  soFeedStatus : string;
  soScanError : string;
  soDBAgeDays : option Z;
  soDBStale : bool;
  soSummary : ScanSummary;
  soFindings : list Finding;
  soParseErrors : list string;
  soFindingsTruncated : bool;
  soFeedVersions : gmap string string;
  soManualAdvisoriesCount : Z
}.

(** ** Decoding a result *)

Section decoding.
Context {U : UnicodeCase}.

(** A time.Time: null changes nothing, and a string without escapes is read as
    RFC 3339. *)
Definition dec_time : decoder Time := fun v cur =>
  match v with
  | JNull => Some cur
  | JString s => ParseRFC3339Nano s
  | _ => None
  end.

(** A *int. *)
Definition dec_int_pointer : decoder (option Z) := fun v cur =>
  match v with
  | JNull => Some None
  | _ => z ← dec_int v (default 0 cur); Some (Some z)
  end.

Definition set_link_field (name : string) : decoder ResourceLink := fun v l =>
  if bool_decide (name = "label") then s ← dec_string v (Label l); Some (mk_link s (URL l))
  else s ← dec_string v (URL l); Some (mk_link (Label l) s).

Definition dec_link : decoder ResourceLink := dec_struct ["label"; "url"] set_link_field.

(** A Finding under decoding; [Locations] is never decoded. *)
Record finding_cell := mk_cell { cellFinding : Finding; cellResources : slice ResourceLink }.

Definition zero_finding : Finding := mk_finding "" "" "" "" "" "" "" "" [] "" "" "" [].
Definition zero_cell : finding_cell := mk_cell zero_finding nil_slice.

Definition cell_value (c : finding_cell) : Finding :=
  let f := cellFinding c in
  mk_finding (fName f) (fVersion f) (fEcosystem f) (fType f) (fSeverity f) (fAdvisoryID f) (fTitle f) (fURL f)
    (elems (cellResources c)) (fFixedVersion f) (fRiskType f) (fSource f) (fLocations f).

Definition finding_fields : list string :=
  ["name"; "version"; "ecosystem"; "type"; "severity"; "advisory_id"; "title"; "url"; "resources"; "fixed_version";
   "risk_type"; "source"].

Definition set_finding_field (field : string) : decoder finding_cell := fun v c =>
  let f := cellFinding c in
  let '(mk_finding name version eco type sev id title url res fixed risk source locs) := f in
  let put f' := mk_cell f' (cellResources c) in
  if bool_decide (field = "name") then
    s ← dec_string v name; Some (put (mk_finding s version eco type sev id title url res fixed risk source locs))
  else if bool_decide (field = "version") then
    s ← dec_string v version; Some (put (mk_finding name s eco type sev id title url res fixed risk source locs))
  else if bool_decide (field = "ecosystem") then
    s ← dec_string v eco; Some (put (mk_finding name version s type sev id title url res fixed risk source locs))
  else if bool_decide (field = "type") then
    s ← dec_string v type; Some (put (mk_finding name version eco s sev id title url res fixed risk source locs))
  else if bool_decide (field = "severity") then
    s ← dec_string v sev; Some (put (mk_finding name version eco type s id title url res fixed risk source locs))
  else if bool_decide (field = "advisory_id") then
    s ← dec_string v id; Some (put (mk_finding name version eco type sev s title url res fixed risk source locs))
  else if bool_decide (field = "title") then
    s ← dec_string v title; Some (put (mk_finding name version eco type sev id s url res fixed risk source locs))
  else if bool_decide (field = "url") then
    s ← dec_string v url; Some (put (mk_finding name version eco type sev id title s res fixed risk source locs))
  else if bool_decide (field = "resources") then
    rs ← dec_slice (mk_link "" "") dec_link v (cellResources c); Some (mk_cell f rs)
  else if bool_decide (field = "fixed_version") then
    s ← dec_string v fixed; Some (put (mk_finding name version eco type sev id title url res s risk source locs))
  else if bool_decide (field = "risk_type") then
    s ← dec_string v risk; Some (put (mk_finding name version eco type sev id title url res fixed s source locs))
  else
    s ← dec_string v source; Some (put (mk_finding name version eco type sev id title url res fixed risk s locs)).

Definition dec_finding : decoder finding_cell := dec_struct finding_fields set_finding_field.

Definition set_summary_field (field : string) : decoder ScanSummary := fun v s =>
  if bool_decide (field = "by_severity") then
    m ← dec_map 0 dec_int v (BySeverity s); Some (mk_summary m (ByType s) (BySource s))
  else if bool_decide (field = "by_type") then
    m ← dec_map 0 dec_int v (ByType s); Some (mk_summary (BySeverity s) m (BySource s))
  else m ← dec_map 0 dec_int v (BySource s); Some (mk_summary (BySeverity s) (ByType s) m).

Definition dec_summary : decoder ScanSummary := dec_struct ["by_severity"; "by_type"; "by_source"] set_summary_field.

(** A ScanResult under decoding: its slices with their backing arrays. *)
Record result_cell := mk_result_cell {
  rcResult : ScanOutput;
  rcFindings : slice finding_cell;
  rcParseErrors : slice string
}.

Definition zero_output : ScanOutput :=
  mk_output "" "" 0 0 0 0 false "" "" "" None false EmptyScanSummary [] [] false ∅ 0.
Definition zero_result_cell : result_cell := mk_result_cell zero_output nil_slice nil_slice.

Definition result_value (c : result_cell) : ScanOutput :=
  let '(mk_output id mode at_ dur pkgs cnt blk thr status err age stale summary _ _ trunc versions manual) := rcResult c in
  mk_output id mode at_ dur pkgs cnt blk thr status err age stale summary (cell_value <$> elems (rcFindings c))
    (elems (rcParseErrors c)) trunc versions manual.

Definition result_fields : list string :=
  ["scan_id"; "mode"; "scanned_at"; "duration_ms"; "packages_scanned"; "findings_count"; "findings_blocking";
   "block_threshold"; "feed_status"; "scan_error"; "db_age_days"; "db_stale"; "summary"; "findings"; "parse_errors";
   "findings_truncated"; "feed_versions"; "manual_advisories_count"].

Definition set_result_field (field : string) : decoder result_cell := fun v c =>
  let '(mk_output id mode at_ dur pkgs cnt blk thr status err age stale summary fs pe trunc versions manual) := rcResult c in
  let put o := mk_result_cell o (rcFindings c) (rcParseErrors c) in
  if bool_decide (field = "scan_id") then
    x ← dec_string v id; Some (put (mk_output x mode at_ dur pkgs cnt blk thr status err age stale summary fs pe trunc versions manual))
  else if bool_decide (field = "mode") then
    x ← dec_string v mode; Some (put (mk_output id x at_ dur pkgs cnt blk thr status err age stale summary fs pe trunc versions manual))
  else if bool_decide (field = "scanned_at") then
    x ← dec_time v at_; Some (put (mk_output id mode x dur pkgs cnt blk thr status err age stale summary fs pe trunc versions manual))
  else if bool_decide (field = "duration_ms") then
    x ← dec_int v dur; Some (put (mk_output id mode at_ x pkgs cnt blk thr status err age stale summary fs pe trunc versions manual))
  else if bool_decide (field = "packages_scanned") then
    x ← dec_int v pkgs; Some (put (mk_output id mode at_ dur x cnt blk thr status err age stale summary fs pe trunc versions manual))
  else if bool_decide (field = "findings_count") then
    x ← dec_int v cnt; Some (put (mk_output id mode at_ dur pkgs x blk thr status err age stale summary fs pe trunc versions manual))
  else if bool_decide (field = "findings_blocking") then
    x ← dec_bool v blk; Some (put (mk_output id mode at_ dur pkgs cnt x thr status err age stale summary fs pe trunc versions manual))
  else if bool_decide (field = "block_threshold") then
    x ← dec_string v thr; Some (put (mk_output id mode at_ dur pkgs cnt blk x status err age stale summary fs pe trunc versions manual))
  else if bool_decide (field = "feed_status") then
    x ← dec_string v status; Some (put (mk_output id mode at_ dur pkgs cnt blk thr x err age stale summary fs pe trunc versions manual))
  else if bool_decide (field = "scan_error") then
    x ← dec_string v err; Some (put (mk_output id mode at_ dur pkgs cnt blk thr status x age stale summary fs pe trunc versions manual))
  else if bool_decide (field = "db_age_days") then
    x ← dec_int_pointer v age; Some (put (mk_output id mode at_ dur pkgs cnt blk thr status err x stale summary fs pe trunc versions manual))
  else if bool_decide (field = "db_stale") then
    x ← dec_bool v stale; Some (put (mk_output id mode at_ dur pkgs cnt blk thr status err age x summary fs pe trunc versions manual))
  else if bool_decide (field = "summary") then
    x ← dec_summary v summary; Some (put (mk_output id mode at_ dur pkgs cnt blk thr status err age stale x fs pe trunc versions manual))
  else if bool_decide (field = "findings") then
    x ← dec_slice zero_cell dec_finding v (rcFindings c); Some (mk_result_cell (rcResult c) x (rcParseErrors c))
  else if bool_decide (field = "parse_errors") then
    x ← dec_slice "" dec_string v (rcParseErrors c); Some (mk_result_cell (rcResult c) (rcFindings c) x)
  else if bool_decide (field = "findings_truncated") then
    x ← dec_bool v trunc; Some (put (mk_output id mode at_ dur pkgs cnt blk thr status err age stale summary fs pe x versions manual))
  else if bool_decide (field = "feed_versions") then
    x ← dec_map "" dec_string v versions; Some (put (mk_output id mode at_ dur pkgs cnt blk thr status err age stale summary fs pe trunc x manual))
  else
    x ← dec_int v manual; Some (put (mk_output id mode at_ dur pkgs cnt blk thr status err age stale summary fs pe trunc versions x)).

Definition dec_result : decoder result_cell := dec_struct result_fields set_result_field.
End decoding.

(** ** What the encoders write *)

Definition omit_text (name value : string) : list (string * jtext) := if bool_decide (value = "") then [] else [(name, TString value)].

Definition link_text (l : ResourceLink) : jtext := TObject [("label", TString (Label l)); ("url", TString (URL l))].

Definition finding_text (f : Finding) : jtext :=
  TObject (
    [("name", TString (fName f)); ("version", TString (fVersion f)); ("ecosystem", TString (fEcosystem f));
     ("type", TString (fType f)); ("severity", TString (fSeverity f))] ++
    omit_text "advisory_id" (fAdvisoryID f) ++ [("title", TString (fTitle f))] ++ omit_text "url" (fURL f) ++
    (if bool_decide (length (fResources f) = 0%nat) then [] else [("resources", TArray (List.map link_text (fResources f)))]) ++
    omit_text "fixed_version" (fFixedVersion f) ++ omit_text "risk_type" (fRiskType f) ++
    [("source", TString (fSource f))]).

Definition counts_text (m : gmap string Z) : jtext :=
  TObject (List.map (fun k => (k, TInt (default 0 (m !! k)))) (sorted_set str_cmp (dom m))).

Definition summary_text (s : ScanSummary) : jtext :=
  TObject [("by_severity", counts_text (BySeverity s)); ("by_type", counts_text (ByType s)); ("by_source", counts_text (BySource s))].

Definition versions_text (m : gmap string string) : jtext :=
  TObject (List.map (fun k => (k, TString (default "" (m !! k)))) (sorted_set str_cmp (dom m))).

Definition result_text (r : ScanResult) : jtext :=
  TObject
    [("scan_id", TString (resScanID r)); ("mode", TString "remote"); ("scanned_at", TString (RFC3339Nano (resScannedAt r)));
     ("duration_ms", TInt (resDurationMs r)); ("packages_scanned", TInt (resPackagesScanned r));
     ("findings_count", TInt (resFindingsCount r)); ("findings_blocking", TBool (resFindingsBlocking r));
     ("block_threshold", TString (resBlockThreshold r)); ("feed_status", TString (resFeedStatus r));
     ("db_age_days", TNull); ("db_stale", TBool false); ("summary", summary_text (resSummary r));
     ("findings", TArray (List.map finding_text (resFindings r)));
     ("feed_versions", versions_text (resFeedVersions r));
     ("manual_advisories_count", TInt (resManualAdvisoriesCount r))].

Definition package_text (p : Package) : jtext :=
  TObject [("name", TString (pkgName p)); ("version", TString (pkgVersion p)); ("ecosystem", TString (pkgEcosystem p))].

Definition request_text (packages : list Package) (repo : option RemoteRepoInfo) : jtext :=
  TObject ([("packages", TArray (List.map package_text packages))] ++
    match repo with Some r => [("repo", TObject [("name", TString (repoName r))])] | None => [] end).

Lemma print_object members : print (TObject members) = marshal_members (List.map (fun m => (m.1, print m.2)) members).
Proof. done. Qed.

Lemma print_omit name value : List.map (fun m => (m.1, print m.2)) (omit_text name value) = omitempty name value.
Proof. unfold omit_text, omitempty. by case_bool_decide. Qed.

Lemma print_array {A} (f : A -> jtext) (g : A -> string) l :
  (forall x, print (f x) = g x) -> print (TArray (List.map f l)) = marshal_array (g <$> l).
Proof. intros Hf. cbn [print]. rewrite List.map_map. f_equal. induction l as [|x l IH]; [done|]. cbn. by rewrite Hf, IH. Qed.

Lemma print_keys {A} (f : A -> jtext) (g : A -> string) (keys : list string) (value : string -> A) :
  (forall x, print (f x) = g x) ->
  print (TObject (List.map (fun k => (k, f (value k))) keys)) = marshal_members ((fun k => (k, g (value k))) <$> keys).
Proof. intros Hf. rewrite print_object, List.map_map. f_equal. induction keys as [|k l IH]; [done|]. cbn. f_equal; [by rewrite Hf|exact IH]. Qed.

Lemma print_finding f : print (finding_text f) = marshal_finding f.
Proof.
  unfold finding_text, marshal_finding. rewrite print_object, !List.map_app, !print_omit. do 4 f_equal.
  case_bool_decide; [done|]. cbn [app List.map fst snd]. rewrite (print_array _ marshal_link) by done. done.
Qed.

Lemma print_counts m : print (counts_text m) = marshal_counts m.
Proof. unfold counts_text, marshal_counts. by rewrite (print_keys TInt Itoa _ (fun k => default 0 (m !! k))). Qed.

Lemma print_versions m : print (versions_text m) = marshal_map m.
Proof. unfold versions_text, marshal_map. by rewrite (print_keys TString marshal_string _ (fun k => default "" (m !! k))). Qed.

Lemma encodeJSONResponse_text r body : encodeJSONResponse r = Some body ->
  four_digit_year (resScannedAt r) /\ body = print (result_text r) +:+ String (byte 10) "".
Proof.
  unfold encodeJSONResponse, marshal_time, four_digit_year, day_of, Day.
  destruct (civil _) as [[y m] d]. destruct (Z.leb_spec 0 y); [|done]. destruct (Z.leb_spec y 9999); [|done]. cbn [andb].
  intros [= <-]. split; [lia|]. unfold result_text. rewrite print_object. do 2 f_equal.
  cbn [List.map fst snd]. rewrite (print_array _ marshal_finding) by apply print_finding.
  rewrite print_versions. unfold summary_text. rewrite print_object. cbn [List.map fst snd]. by rewrite !print_counts.
Qed.

Lemma print_package name version eco : print (package_text (plain_package name version eco)) = marshal_package (plain_package name version eco).
Proof. done. Qed.

(** Packages as the client sends them: coordinates only. *)
Definition coordinates_only (p : Package) : Prop := p = plain_package (pkgName p) (pkgVersion p) (pkgEcosystem p).

Lemma print_request packages repo : Forall coordinates_only packages ->
  print (request_text packages repo) = marshal_request (mk_scan_request packages repo).
Proof.
  intros Hp. unfold request_text, marshal_request. cbn [srPackages srRepo]. rewrite print_object, List.map_app.
  cbn [List.map fst snd]. f_equal. f_equal; [|by destruct repo]. do 2 f_equal. cbn [print]. rewrite List.map_map. f_equal.
  induction Hp as [|p l Hp _ IH]; [done|]. cbn. f_equal; [by rewrite Hp|exact IH].
Qed.

(** ** Reading it back *)

Section reading.
Context {U : UnicodeCase}.

(** A member of a known name is decoded into its field. *)
Lemma dec_members_known {A} names (set : string -> decoder A) k v rest cur :
  k ∈ names -> dec_members names set ((k, v) :: rest) cur = cur' ← set k v cur; dec_members names set rest cur'.
Proof. intros Hk. cbn [dec_members]. unfold struct_field. by rewrite bool_decide_true. Qed.

Definition valid_link (l : ResourceLink) : ResourceLink := mk_link (ToValidUTF8 (Label l)) (ToValidUTF8 (URL l)).

(** A finding after the trip. *)
Definition valid_finding (f : Finding) : Finding :=
  mk_finding (ToValidUTF8 (fName f)) (ToValidUTF8 (fVersion f)) (ToValidUTF8 (fEcosystem f)) (ToValidUTF8 (fType f))
    (ToValidUTF8 (fSeverity f)) (ToValidUTF8 (fAdvisoryID f)) (ToValidUTF8 (fTitle f)) (ToValidUTF8 (fURL f))
    (valid_link <$> fResources f) (ToValidUTF8 (fFixedVersion f)) (ToValidUTF8 (fRiskType f)) (ToValidUTF8 (fSource f)) [].

(** Elements that decode into a fresh value. *)
Lemma dec_elems_fresh {A B} (zero : A) dec (text : B -> jtext) (value : B -> A) l :
  (forall x, dec (denote (text x)) zero = Some (value x)) ->
  dec_elems zero dec (List.map denote (List.map text l)) [] = Some (value <$> l).
Proof. intros Hd. induction l as [|x l IH]; [done|]. cbn [List.map dec_elems head tail default from_option]. cbn. by rewrite Hd, IH. Qed.

Lemma dec_slice_fresh {A B} (zero : A) dec (text : B -> jtext) (value : B -> A) l :
  (forall x, dec (denote (text x)) zero = Some (value x)) ->
  exists s, dec_slice zero dec (denote (TArray (List.map text l))) nil_slice = Some s /\ elems s = value <$> l.
Proof.
  intros Hd. cbn [denote]. destruct l as [|x l]; [by exists nil_slice|].
  pose proof (dec_elems_fresh zero dec text value (x :: l) Hd) as He. cbn [dec_slice List.map backing nil_slice] in *.
  rewrite He. cbn [mbind option_bind]. eexists. split; [reflexivity|]. unfold elems. cbn [used backing].
  rewrite drop_nil, app_nil_r. cbn [length]. rewrite !List.length_map. apply take_ge. cbn. by rewrite length_fmap.
Qed.

Lemma dec_link_text l : dec_link (denote (link_text l)) (mk_link "" "") = Some (valid_link l).
Proof. done. Qed.

Lemma omitted_member {A} names (set : string -> decoder A) k s rest cur :
  k ∈ names -> set k (JString "") cur = Some cur -> ToValidUTF8 k = k ->
  dec_members names set (List.map (fun m => (ToValidUTF8 m.1, denote m.2)) (omit_text k s) ++ rest) cur =
  cur' ← set k (JString (ToValidUTF8 s)) cur; dec_members names set rest cur'.
Proof.
  intros Hk Hempty Hkey. unfold omit_text. case_bool_decide as Hs.
  - subst s. change (ToValidUTF8 "") with "". by rewrite Hempty.
  - cbn [List.map app fst snd denote]. by rewrite Hkey, dec_members_known.
Qed.

Ltac known := apply (bool_decide_unpack _); vm_compute; exact I.

(** The key of a member, and the decoded member, evaluated. *)
Ltac plain_keys := repeat match goal with |- context [ToValidUTF8 (String ?c ?k)] =>
  let key := eval vm_compute in (ToValidUTF8 (String c k)) in change (ToValidUTF8 (String c k)) with key end.

Ltac set_field set := match goal with |- context [set ?k ?v ?c ≫= ?K] =>
  let r := eval hnf in (set k v c) in change (set k v c ≫= K) with (r ≫= K); cbn [mbind option_bind] end.

Lemma set_resources v c : set_finding_field "resources" v c =
  rs ← dec_slice (mk_link "" "") dec_link v (cellResources c); Some (mk_cell (cellFinding c) rs).
Proof. by destruct c as [[] ?]. Qed.

Lemma resources_member f rest c : cellResources c = nil_slice ->
  exists s, elems s = valid_link <$> fResources f /\
    dec_members finding_fields set_finding_field
      (List.map (fun m => (ToValidUTF8 m.1, denote m.2))
         (if bool_decide (length (fResources f) = 0%nat) then [] else [("resources", TArray (List.map link_text (fResources f)))])
       ++ rest) c = dec_members finding_fields set_finding_field rest (mk_cell (cellFinding c) s).
Proof.
  intros Hc. case_bool_decide as Hl.
  - exists nil_slice. split; [by destruct (fResources f)|]. destruct c as [g r]. cbn in Hc. by subst r.
  - destruct (dec_slice_fresh _ _ link_text valid_link (fResources f) dec_link_text) as (s & Hs & He). exists s. split; [done|].
    cbn [List.map app fst snd]. plain_keys. rewrite dec_members_known by known. rewrite set_resources, Hc, Hs. done.
Qed.

Lemma dec_finding_text f : exists c, dec_finding (denote (finding_text f)) zero_cell = Some c /\ cell_value c = valid_finding f.
Proof.
  unfold finding_text. cbn [denote]. unfold dec_finding, dec_struct. rewrite !List.map_app. cbn [List.map app fst snd denote].
  plain_keys.
  do 5 (rewrite dec_members_known by known; set_field set_finding_field).
  rewrite omitted_member; [|known|reflexivity|reflexivity]. set_field set_finding_field.
  rewrite dec_members_known by known; set_field set_finding_field.
  rewrite omitted_member; [|known|reflexivity|reflexivity]. set_field set_finding_field. cbn [cellResources].
  match goal with |- context [dec_members _ _ (_ ++ ?rest) ?c] => destruct (resources_member f rest c eq_refl) as (s & He & ->) end.
  cbn [cellFinding].
  rewrite omitted_member; [|known|reflexivity|reflexivity]. set_field set_finding_field.
  rewrite omitted_member; [|known|reflexivity|reflexivity]. set_field set_finding_field.
  rewrite dec_members_known by known; set_field set_finding_field. cbn [dec_members cellResources].
  eexists. split; [reflexivity|]. unfold cell_value, valid_finding. cbn. by rewrite He.
Qed.

(** Integers, and maps of them. *)
Definition int64 (z : Z) : bool := (int64_min <=? z) && (z <=? int64_max).

Lemma Atoi_Itoa_any z : Atoi (Itoa z) = if int64 z then Some z else None.
Proof.
  destruct (Z.ltb_spec z 0) as [Hz|Hz].
  - unfold Itoa. rewrite (proj2 (Z.ltb_lt _ _)) by lia. unfold Atoi. change ("-" +:+ ?s) with (String "-" s). cbv iota beta.
    rewrite bool_decide_true by done. unfold parse_digits. rewrite bool_decide_false by apply itoa_nonneg_ne.
    rewrite itoa_nonneg_digits, itoa_nonneg_value by lia. cbn [negb orb mbind option_bind]. by rewrite Z.opp_involutive.
  - rewrite Atoi_digits; [|unfold Itoa; rewrite (proj2 (Z.ltb_ge _ _)) by lia; apply itoa_nonneg_digits; lia].
    by rewrite parse_digits_Itoa by lia.
Qed.

(** A map after the trip: keys that become the same text fall together. *)
Definition valid_map {A} (value : A -> A) (m : gmap string A) : gmap string A :=
  fold_left (fun acc k => match m !! k with Some x => <[ToValidUTF8 k := value x]> acc | None => acc end)
    (sorted_set str_cmp (dom m)) ∅.

Lemma dec_entries_keys {A} (zero : A) (dec : decoder A) (text : A -> jtext) (value : A -> A) (ok : A -> bool) (m : gmap string A)
    keys acc :
  (forall x, dec (denote (text x)) zero = if ok x then Some (value x) else None) ->
  (forall k, k ∈ keys -> is_Some (m !! k)) ->
  JsonMaps.dec_entries zero dec
    (List.map (fun e => (ToValidUTF8 e.1, denote e.2)) (List.map (fun k => (k, text (default zero (m !! k)))) keys)) acc =
  if forallb (fun k => ok (default zero (m !! k))) keys
  then Some (fold_left (fun acc k => match m !! k with Some x => <[ToValidUTF8 k := value x]> acc | None => acc end) keys acc)
  else None.
Proof.
  intros Hdec. revert acc. induction keys as [|k keys IH]; intros acc Hk; [done|]. cbn [List.map JsonMaps.dec_entries forallb fold_left fst snd].
  rewrite Hdec. destruct (Hk k) as [x Hx]; [left|]. rewrite Hx. cbn [default from_option id].
  destruct (ok x); cbn [mbind option_bind andb]; [|done]. apply IH. intros k' Hk'. apply Hk. by right.
Qed.

Definition map_ok {A} (zero : A) (ok : A -> bool) (m : gmap string A) : bool :=
  forallb (fun k => ok (default zero (m !! k))) (sorted_set str_cmp (dom m)).

Lemma dec_map_keys {A} (zero : A) (dec : decoder A) (text : A -> jtext) (value : A -> A) (ok : A -> bool) (m : gmap string A) :
  (forall x, dec (denote (text x)) zero = if ok x then Some (value x) else None) ->
  dec_map zero dec (denote (TObject (List.map (fun k => (k, text (default zero (m !! k)))) (sorted_set str_cmp (dom m))))) ∅ =
  if map_ok zero ok m then Some (valid_map value m) else None.
Proof.
  intros Hdec. cbn [denote dec_map]. rewrite (dec_entries_keys _ _ _ value ok) by (done || intros k; rewrite sorted_set_elem; apply elem_of_dom).
  done.
Qed.

Lemma dec_counts_text m : dec_map 0 dec_int (denote (counts_text m)) ∅ = if map_ok 0 int64 m then Some (valid_map id m) else None.
Proof. apply dec_map_keys. intros z. cbn [denote dec_int]. apply Atoi_Itoa_any. Qed.

Lemma dec_versions_text m : dec_map "" dec_string (denote (versions_text m)) ∅ = Some (valid_map ToValidUTF8 m).
Proof.
  unfold versions_text. rewrite (dec_map_keys "" dec_string TString ToValidUTF8 (fun _ => true)) by done.
  unfold map_ok. by rewrite (proj2 (forallb_forall _ _)).
Qed.

(** A result as the client holds it after the trip. *)
Definition valid_summary (s : ScanSummary) : ScanSummary :=
  mk_summary (valid_map id (BySeverity s)) (valid_map id (ByType s)) (valid_map id (BySource s)).

Definition read_back (r : ScanResult) : ScanOutput :=
  mk_output (ToValidUTF8 (resScanID r)) "remote" (resScannedAt r) (resDurationMs r) (resPackagesScanned r) (resFindingsCount r)
    (resFindingsBlocking r) (ToValidUTF8 (resBlockThreshold r)) (ToValidUTF8 (resFeedStatus r)) "" None false
    (valid_summary (resSummary r)) (valid_finding <$> resFindings r) [] false (valid_map ToValidUTF8 (resFeedVersions r))
    (resManualAdvisoriesCount r).

(** The numbers of a result that the client has to fit into an int. *)
Definition numbers_fit (r : ScanResult) : bool :=
  int64 (resDurationMs r) && (int64 (resPackagesScanned r) && (int64 (resFindingsCount r) &&
  (map_ok 0 int64 (BySeverity (resSummary r)) && (map_ok 0 int64 (ByType (resSummary r)) &&
  (map_ok 0 int64 (BySource (resSummary r)) && int64 (resManualAdvisoriesCount r)))))).

Lemma dec_summary_text s : dec_summary (denote (summary_text s)) EmptyScanSummary =
  if map_ok 0 int64 (BySeverity s) && (map_ok 0 int64 (ByType s) && map_ok 0 int64 (BySource s))
  then Some (valid_summary s) else None.
Proof.
  unfold dec_summary, dec_struct, summary_text. cbn [denote List.map fst snd]. plain_keys.
  rewrite dec_members_known by known.
  change (set_summary_field "by_severity" ?v ?c) with (m ← dec_map 0 dec_int v ∅; Some (mk_summary m ∅ ∅)).
  rewrite dec_counts_text. destruct (map_ok 0 int64 (BySeverity s)); cbn [mbind option_bind andb]; [|done].
  rewrite dec_members_known by known.
  change (set_summary_field "by_type" ?v (mk_summary ?a ?b ?c)) with (m ← dec_map 0 dec_int v b; Some (mk_summary a m c)).
  rewrite dec_counts_text. destruct (map_ok 0 int64 (ByType s)); cbn [mbind option_bind andb]; [|done].
  rewrite dec_members_known by known.
  change (set_summary_field "by_source" ?v (mk_summary ?a ?b ?c)) with (m ← dec_map 0 dec_int v c; Some (mk_summary a b m)).
  rewrite dec_counts_text. by destruct (map_ok 0 int64 (BySource s)).
Qed.

Lemma dec_int_text z cur : dec_int (JNumber (Itoa z)) cur = if int64 z then Some z else None.
Proof. apply Atoi_Itoa_any. Qed.

Lemma dec_time_text t cur : four_digit_year t -> dec_time (JString (ToValidUTF8 (RFC3339Nano t))) cur = Some t.
Proof.
  intros Ht. cbn [dec_time]. rewrite ToValidUTF8_ascii by (apply is_ascii_visible, RFC3339Nano_visible, Ht).
  by apply ParseRFC3339Nano_RFC3339Nano.
Qed.

Lemma dec_findings_text fs : exists s,
  dec_slice zero_cell dec_finding (denote (TArray (List.map finding_text fs))) nil_slice = Some s /\
  cell_value <$> elems s = valid_finding <$> fs.
Proof.
  destruct (dec_slice_fresh zero_cell dec_finding finding_text
    (fun f => default zero_cell (dec_finding (denote (finding_text f)) zero_cell)) fs) as (s & Hs & He).
  { intros f. destruct (dec_finding_text f) as (c & Hdec & _). by rewrite Hdec. }
  exists s. split; [done|]. rewrite He, <- list_fmap_compose. apply list_fmap_ext. intros _ f _.
  destruct (dec_finding_text f) as (c & Hdec & Hc). unfold compose. by rewrite Hdec.
Qed.

#[local] Opaque dec_int dec_map dec_slice dec_time dec_summary.

Lemma dec_result_text r : four_digit_year (resScannedAt r) ->
  exists c, dec_result (denote (result_text r)) zero_result_cell = (if numbers_fit r then Some c else None) /\
    result_value c = read_back r.
Proof.
  intros Ht. destruct (dec_findings_text (resFindings r)) as (s & Hs & He).
  unfold dec_result, dec_struct, result_text, numbers_fit. cbn [denote List.map fst snd] in *. plain_keys.
  exists (mk_result_cell
    (mk_output (ToValidUTF8 (resScanID r)) "remote" (resScannedAt r) (resDurationMs r) (resPackagesScanned r) (resFindingsCount r)
       (resFindingsBlocking r) (ToValidUTF8 (resBlockThreshold r)) (ToValidUTF8 (resFeedStatus r)) "" None false
       (valid_summary (resSummary r)) [] [] false (valid_map ToValidUTF8 (resFeedVersions r)) (resManualAdvisoriesCount r))
    s nil_slice).
  split; [|unfold result_value, read_back; cbn [rcResult rcFindings rcParseErrors]; by rewrite He].
  do 2 (rewrite dec_members_known by known; set_field set_result_field).
  rewrite dec_members_known by known; set_field set_result_field. rewrite dec_time_text by done. cbn [mbind option_bind]. cbn [rcFindings rcParseErrors].
  do 3 (rewrite dec_members_known by known; set_field set_result_field; rewrite dec_int_text;
        match goal with |- context [if int64 ?z then Some ?z else None] => destruct (int64 z); cbn [andb]; cbn [mbind option_bind]; [|done] end).
  do 5 (rewrite dec_members_known by known; set_field set_result_field). cbn [rcFindings rcParseErrors].
  rewrite dec_members_known by known; set_field set_result_field. rewrite dec_summary_text.
  destruct (map_ok 0 int64 (BySeverity (resSummary r))); cbn [andb]; [|done].
  destruct (map_ok 0 int64 (ByType (resSummary r))); cbn [andb]; [|done].
  destruct (map_ok 0 int64 (BySource (resSummary r))); cbn [andb]; cbn [mbind option_bind]; [|done].
  rewrite dec_members_known by known; set_field set_result_field. cbn [rcFindings rcParseErrors].
  change (rcFindings zero_result_cell) with (nil_slice (A := finding_cell)). rewrite Hs. cbn [mbind option_bind].
  rewrite dec_members_known by known; set_field set_result_field. rewrite dec_versions_text. cbn [mbind option_bind].
  rewrite dec_members_known by known; set_field set_result_field. rewrite dec_int_text.
  by destruct (int64 (resManualAdvisoriesCount r)).
Qed.

#[local] Transparent dec_int dec_map dec_slice dec_time dec_summary.

Lemma known_members names members :
  forallb (fun m : string * json => bool_decide (is_Some (struct_field names m.1))) members = true ->
  forall {A} (set : string -> decoder A) cur, dec_strict names set (JObject members) cur = dec_members names set members cur.
Proof. intros Hk A set cur. unfold dec_strict. cbn [known_fields]. by rewrite Hk. Qed.

Definition valid_package (p : Package) : checkPackage :=
  mk_check_package (ToValidUTF8 (pkgName p)) (ToValidUTF8 (pkgVersion p)) (ToValidUTF8 (pkgEcosystem p)).

Lemma dec_package_text p : dec_package (denote (package_text p)) (mk_check_package "" "" "") = Some (valid_package p).
Proof. done. Qed.

Lemma dec_request_text packages repo : exists c,
  dec_request (denote (request_text packages repo)) (mk_check_request nil_slice None) = Some c /\
  elems (crPackages c) = valid_package <$> packages /\ crRepo c = (fun r => mk_repo (ToValidUTF8 (repoName r))) <$> repo.
Proof.
  destruct (dec_slice_fresh _ _ package_text valid_package packages dec_package_text) as (s & Hs & He).
  exists (mk_check_request s ((fun r => mk_repo (ToValidUTF8 (repoName r))) <$> repo)). split; [|done].
  unfold dec_request, request_text. cbn [denote]. rewrite List.map_app. cbn [List.map app fst snd]. plain_keys.
  rewrite known_members by (by destruct repo). rewrite dec_members_known by known.
  change (set_request_field "packages" ?v ?c) with
    (ps ← dec_slice (mk_check_package "" "" "") dec_package v (crPackages c); Some (mk_check_request ps (crRepo c))).
  cbn [crPackages]. rewrite Hs. by destruct repo.
Qed.

(** None of these documents is deep. *)
Lemma nesting_members members n :
  (forall m, m ∈ members -> (nesting m.2 <= n)%nat) -> (nesting (TObject members) <= S n)%nat.
Proof.
  intros Hm. cbn [nesting]. apply le_n_S, list_max_le, Forall_forall. intros k Hk%list_elem_of_In.
  apply List.in_map_iff in Hk as (m & <- & Hin%list_elem_of_In). by apply Hm.
Qed.

Lemma nesting_items {A} (text : A -> jtext) l n :
  (forall x, (nesting (text x) <= n)%nat) -> (nesting (TArray (List.map text l)) <= S n)%nat.
Proof.
  intros Hm. cbn [nesting]. apply le_n_S, list_max_le, Forall_forall. intros k Hk%list_elem_of_In.
  rewrite List.map_map in Hk. apply List.in_map_iff in Hk as (x & <- & _). apply Hm.
Qed.

Lemma nesting_omit name value : Forall (fun m => (nesting m.2 <= 2)%nat) (omit_text name value).
Proof. unfold omit_text. case_bool_decide; repeat constructor; cbn; lia. Qed.

Lemma nesting_finding f : (nesting (finding_text f) <= 3)%nat.
Proof.
  unfold finding_text. apply nesting_members, Forall_forall. rewrite !Forall_app.
  split_and!; try apply nesting_omit; [repeat constructor; cbn; lia..| |repeat constructor; cbn; lia].
  case_bool_decide; [constructor|]. apply Forall_singleton. cbn [snd]. apply nesting_items. intros l. cbn. lia.
Qed.

Lemma nesting_map {A} (text : A -> jtext) (value : string -> A) keys :
  (forall x, nesting (text x) = 0%nat) -> (nesting (TObject (List.map (fun k => (k, text (value k))) keys)) <= 1)%nat.
Proof.
  intros Ht. apply nesting_members. intros m Hm%list_elem_of_In. apply List.in_map_iff in Hm as (k & <- & _). cbn [snd]. by rewrite Ht.
Qed.

Lemma nesting_result r : (nesting (result_text r) <= 5)%nat.
Proof.
  assert (forall m, (nesting (counts_text m) <= 1)%nat) as Hc by (intros m; apply (nesting_map TInt (fun k => default 0 (m !! k))); done).
  assert (nesting (versions_text (resFeedVersions r)) <= 1)%nat as Hv by (apply (nesting_map TString (fun k => default "" (resFeedVersions r !! k))); done).
  assert (nesting (summary_text (resSummary r)) <= 2)%nat as Hs.
  { unfold summary_text. apply nesting_members. intros m. rewrite !elem_of_cons.
    intros [->|[->|[->|[]%not_elem_of_nil]]]; apply Hc. }
  unfold result_text. apply nesting_members. intros m. rewrite !elem_of_cons.
  pose proof (nesting_items finding_text (resFindings r) 3 nesting_finding) as Hf.
  intros Hm. repeat (destruct Hm as [->|Hm]; [cbn [snd]; first [exact Hf|(cbn; lia)|lia]|]). by apply not_elem_of_nil in Hm.
Qed.

Lemma nesting_request packages repo : (nesting (request_text packages repo) <= 3)%nat.
Proof.
  unfold request_text. apply nesting_members. intros m. rewrite elem_of_app, list_elem_of_singleton. intros [->|Hm].
  - cbn [snd]. apply nesting_items. intros p. cbn. lia.
  - destruct repo; [|by apply not_elem_of_nil in Hm]. apply list_elem_of_singleton in Hm as ->. cbn. lia.
Qed.

(** What the client makes of a response, when it can decode it at all. *)
Lemma unmarshal_response r body : encodeJSONResponse r = Some body ->
  result_value <$> unmarshal dec_result body zero_result_cell = if numbers_fit r then Some (read_back r) else None.
Proof.
  intros (Ht & ->)%encodeJSONResponse_text. unfold unmarshal.
  rewrite (proj2 (parse_print (result_text r) ltac:(pose proof (nesting_result r); unfold max_nesting_depth; lia))).
  cbn [mbind option_bind]. destruct (dec_result_text r Ht) as (c & -> & Hc). destruct (numbers_fit r); [|done]. cbn. by rewrite Hc.
Qed.

(** What the server makes of a request. *)
Lemma unmarshal_request packages repo : Forall coordinates_only packages ->
  exists c, unmarshal dec_request (marshal_request (mk_scan_request packages repo)) (mk_check_request nil_slice None) = Some c /\
    elems (crPackages c) = valid_package <$> packages /\ crRepo c = (fun r => mk_repo (ToValidUTF8 (repoName r))) <$> repo.
Proof.
  intros Hp. rewrite <- print_request by done. unfold unmarshal.
  rewrite (proj1 (parse_print (request_text packages repo)
    ltac:(pose proof (nesting_request packages repo); unfold max_nesting_depth; lia))).
  cbn [mbind option_bind]. apply dec_request_text.
Qed.
End reading.
