(* ===== verification/FeedRules.v ===== *)
(** Rules the feed importers share: internal/feed/ecosystem.go, malicious_risk.go
    and lastknown.go.

    A json.RawMessage of a document is the value it holds, [None] when the
    member is missing; unmarshalling it again reads that value. *)
From stdpp Require Import base list option strings gmap.
From Stdlib Require Import Ascii ZArith Lia.
From S2P Require Import Prelude GoStrings AsciiText Json Collections JsonEncode Domain.

(** A value decoded once more into a fresh variable; [None] is an error. *)
Definition decode_raw {A} (dec : decoder A) (raw : json) (zero : A) : option A := dec raw zero.

(** [strings.Trim] with a cut set below 128. *)
Definition Trim (s cutset : string) : string := String.rev (TrimLeft (String.rev (TrimLeft s cutset)) cutset).

Fixpoint lookup_pairs (key : string) (l : list (string * string)) : option string :=
  match l with
  | [] => None
  | (k, v) :: l => if bool_decide (k = key) then Some v else lookup_pairs key l
  end.

(** ** Ecosystems *)

Definition osvEcosystemMap : list (string * Ecosystem) :=
  [("npm", "npm"); ("pypi", "pypi"); ("go", "go"); ("maven", "maven"); ("crates.io", "cargo"); ("nuget", "nuget");
   ("packagist", "composer"); ("rubygems", "gem"); ("pub", "pub"); ("cocoapods", "cocoapods"); ("swifturl", "swiftpm");
   ("hex", "hex"); ("cran", "cran"); ("github actions", "actions"); ("cargo", "cargo"); ("composer", "composer");
   ("gem", "gem")].

Definition ghsaEcosystemMap : list (string * Ecosystem) :=
  [("npm", "npm"); ("pip", "pypi"); ("pypi", "pypi"); ("go", "go"); ("maven", "maven"); ("nuget", "nuget");
   ("composer", "composer"); ("packagist", "composer"); ("rubygems", "gem"); ("crates.io", "cargo"); ("pub", "pub");
   ("swifturl", "swiftpm"); ("hex", "hex"); ("actions", "actions"); ("github actions", "actions"); ("rust", "cargo");
   ("cargo", "cargo")].

Definition openssfEcosystemMap : list (string * Ecosystem) :=
  [("npm", "npm"); ("pypi", "pypi"); ("pip", "pypi"); ("go", "go"); ("maven", "maven"); ("crates.io", "cargo");
   ("cargo", "cargo"); ("rust", "cargo"); ("nuget", "nuget"); ("packagist", "composer"); ("composer", "composer");
   ("rubygems", "gem"); ("gem", "gem"); ("pub", "pub"); ("hex", "hex"); ("cocoapods", "cocoapods");
   ("swifturl", "swiftpm"); ("cran", "cran"); ("actions", "actions"); ("github actions", "actions")].

Section rules.
Context {U : UnicodeCase}.

Definition MapOSVEcosystem (osv : string) : option Ecosystem := lookup_pairs (ToLower osv) osvEcosystemMap.
Definition MapGHSAEcosystem (ghsa : string) : option Ecosystem := lookup_pairs (ToLower ghsa) ghsaEcosystemMap.
Definition MapOpenSSFEcosystem (openssf : string) : option Ecosystem := lookup_pairs (ToLower openssf) openssfEcosystemMap.

(** ** Risk types of malicious packages *)

(** The empty string is an unknown label. *)
Definition NormalizeMaliciousRiskType (raw : string) : string :=
  let r := ToLower (TrimSpace raw) in
  if bool_decide (r ∈ ["malware"; "trojan"; "backdoor"; "cryptominer"; "cryptomining"; "exfiltration"; "protestware"])
  then "malware"
  else if bool_decide (r ∈ ["typosquat"; "typosquatting"; "typo-squatting"]) then "typosquatting"
  else if bool_decide (r ∈ ["supply_chain"; "supply-chain"; "supply chain"; "dependency_confusion"; "dependency confusion"])
  then "supply_chain"
  else "".

Record risk_spec := mk_risk { rsRiskType : string; rsType : string; rsClassification : string; rsCategories : slice string }.

Definition set_risk_field (field : string) : decoder risk_spec := fun v r =>
  if bool_decide (field = "risk_type") then s ← dec_string v (rsRiskType r); Some (mk_risk s (rsType r) (rsClassification r) (rsCategories r))
  else if bool_decide (field = "type") then s ← dec_string v (rsType r); Some (mk_risk (rsRiskType r) s (rsClassification r) (rsCategories r))
  else if bool_decide (field = "classification") then
    s ← dec_string v (rsClassification r); Some (mk_risk (rsRiskType r) (rsType r) s (rsCategories r))
  else c ← dec_slice "" dec_string v (rsCategories r); Some (mk_risk (rsRiskType r) (rsType r) (rsClassification r) c).

Definition dec_risk : decoder risk_spec := dec_struct ["risk_type"; "type"; "classification"; "categories"] set_risk_field.

Definition MaliciousRiskTypeFromJSON (raw : option json) : string :=
  match raw with
  | None => ""
  | Some raw =>
      match decode_raw dec_risk raw (mk_risk "" "" "" nil_slice) with
      | None => ""
      | Some spec =>
          default "" (List.find (fun n => negb (bool_decide (n = "")))
            (NormalizeMaliciousRiskType <$> [rsRiskType spec; rsType spec; rsClassification spec] ++ elems (rsCategories spec)))
      end
  end.

Definition ClassifyMaliciousRiskType (raw : option json) (summary details : string) : string :=
  let riskType := MaliciousRiskTypeFromJSON raw in
  if negb (bool_decide (riskType = "")) then riskType
  else
    let lower := ToLower (summary +:+ " " +:+ details) in
    if Contains lower "typosquat" then "typosquatting"
    else if Contains lower "supply chain" || Contains lower "supply-chain" then "supply_chain"
    else if Contains lower "dependency confusion" then "supply_chain"
    else "malware".
End rules.

(** ** Closing boundaries of GitHub advisories *)

Definition back_quotes : string := String (byte 96) (String (byte 34) (String (byte 39) "")).

Definition cleanLastKnownConstraintVersion (version : string) : string := Trim (TrimSpace version) back_quotes.

(** The fixed and the last affected version; one of them is empty. *)
Fixpoint last_known_loop (parts : list string) : option (string * string) :=
  match parts with
  | [] => None
  | part :: parts =>
      let part := TrimSpace part in
      if HasPrefix part "<=" then
        let version := cleanLastKnownConstraintVersion (TrimPrefix part "<=") in
        if bool_decide (version = "") then last_known_loop parts else Some ("", version)
      else if HasPrefix part "<" then
        let version := cleanLastKnownConstraintVersion (TrimPrefix part "<") in
        if bool_decide (version = "") then last_known_loop parts else Some (version, "")
      else last_known_loop parts
  end.

Definition ParseLastKnownAffectedClosure (rangeExpr : string) : option (string * string) :=
  last_known_loop (Split rangeExpr ","%char).

Example last_known : ParseLastKnownAffectedClosure ">= 4.0, < 4.1.3" = Some ("4.1.3", "") /\
  ParseLastKnownAffectedClosure "<= 2.0.0" = Some ("", "2.0.0") /\ ParseLastKnownAffectedClosure "> 1" = None.
Proof. split_and!; vm_compute; reflexivity. Qed.
