(* ===== verification/OsvFeed.v ===== *)
(** The OSV feed: one document of the archive to stored advisories
    (internal/feed/osv/syncer.go).

    A nil slice and an empty one are written to JSON differently; slices that
    are written again are [None] when nil.  The order of a Go map, here of the
    aliases, is any order. *)
From stdpp Require Import base list option strings gmap.
From Stdlib Require Import Ascii ZArith Lia.
From S2P Require Import Prelude GoStrings GoNumbers AsciiText Json VersionCompare VersionRanges Collections JsonEncode Domain.
From S2P Require Import JsonMaps JsonRender GoTime Float64 Cvss Advisories Dates TimeParse CheckWire FeedRules.

(** ** The document *)

Record osvSeverity := mk_osv_severity { sevType : string; sevScore : string }.

Record osvPackage := mk_osv_package { opEcosystem : string; opName : string; opPURL : string }.

(** A range of a feed, [frEvents] being nil or the events. *)
Record feedRange := mk_feed_range { frType : string; frEvents : option (list osvRangeEvent) }.

Definition range_events (r : feedRange) : list osvRangeEvent := default [] (frEvents r).

Record osvAffected := mk_osv_affected {
  oaPackage : osvPackage;
  oaRanges : option (list feedRange);
  oaVersions : option (list string);
  oaEcosystemSpecific : option json;
  oaDatabaseSpecific : option json
}.

Record osvReference := mk_osv_reference { orType : string; orURL : string }.

Record osvEntry := mk_osv_entry {
  oeID : string;
  oeSummary : string;
  oeDetails : string;
  oeAliases : list string;
  oeModified : Time;
  oePublished : Time;
  oeWithdrawn : option string;
  oeSeverity : list osvSeverity;
  oeAffected : list osvAffected;
  oeReferences : list osvReference;
  oeDatabaseSpecific : option json
}.

Section decoding.
Context {U : UnicodeCase}.

(** A slice that keeps track of being nil. *)
Definition dec_nilable {A} (zero : A) (dec : decoder A) : decoder (option (slice A)) := fun v cur =>
  match v with
  | JNull => Some None
  | _ => s ← dec_slice zero dec v (default nil_slice cur); Some (Some s)
  end.

Definition dec_raw : decoder (option json) := fun v _ => Some (Some v).

Definition set_severity_field (field : string) : decoder osvSeverity := fun v s =>
  if bool_decide (field = "type") then x ← dec_string v (sevType s); Some (mk_osv_severity x (sevScore s))
  else x ← dec_string v (sevScore s); Some (mk_osv_severity (sevType s) x).

Definition dec_severity : decoder osvSeverity := dec_struct ["type"; "score"] set_severity_field.

Definition set_package_field (field : string) : decoder osvPackage := fun v p =>
  if bool_decide (field = "ecosystem") then x ← dec_string v (opEcosystem p); Some (mk_osv_package x (opName p) (opPURL p))
  else if bool_decide (field = "name") then x ← dec_string v (opName p); Some (mk_osv_package (opEcosystem p) x (opPURL p))
  else x ← dec_string v (opPURL p); Some (mk_osv_package (opEcosystem p) (opName p) x).

Definition dec_osv_package : decoder osvPackage := dec_struct ["ecosystem"; "name"; "purl"] set_package_field.

(** A range while it is decoded. *)
Definition feed_range_cell : Type := string * option (slice osvRangeEvent).

Definition feed_range_value (c : feed_range_cell) : feedRange := mk_feed_range c.1 (elems <$> c.2).

Definition set_feed_range_field (events : decoder osvRangeEvent) (field : string) : decoder feed_range_cell := fun v c =>
  if bool_decide (field = "type") then x ← dec_string v c.1; Some (x, c.2)
  else es ← dec_nilable empty_event events v c.2; Some (c.1, es).

Definition dec_feed_range (events : decoder osvRangeEvent) : decoder feed_range_cell :=
  dec_struct ["type"; "events"] (set_feed_range_field events).

(** An affected package while it is decoded. *)
Record affected_cell := mk_affected_cell {
  acPackage : osvPackage;
  acRanges : option (slice feed_range_cell);
  acVersions : option (slice string);
  acEcosystemSpecific : option json;
  acDatabaseSpecific : option json
}.

Definition zero_affected : affected_cell := mk_affected_cell (mk_osv_package "" "" "") None None None None.

Definition affected_value (c : affected_cell) : osvAffected :=
  mk_osv_affected (acPackage c) ((fun s => feed_range_value <$> elems s) <$> acRanges c) (elems <$> acVersions c)
    (acEcosystemSpecific c) (acDatabaseSpecific c).

Definition set_affected_field (field : string) : decoder affected_cell := fun v c =>
  let '(mk_affected_cell p rs vs es ds) := c in
  if bool_decide (field = "package") then x ← dec_osv_package v p; Some (mk_affected_cell x rs vs es ds)
  else if bool_decide (field = "ranges") then
    x ← dec_nilable ("", None) (dec_feed_range dec_event) v rs; Some (mk_affected_cell p x vs es ds)
  else if bool_decide (field = "versions") then x ← dec_nilable "" dec_string v vs; Some (mk_affected_cell p rs x es ds)
  else if bool_decide (field = "ecosystem_specific") then x ← dec_raw v es; Some (mk_affected_cell p rs vs x ds)
  else x ← dec_raw v ds; Some (mk_affected_cell p rs vs es x).

Definition dec_affected : decoder affected_cell :=
  dec_struct ["package"; "ranges"; "versions"; "ecosystem_specific"; "database_specific"] set_affected_field.

Definition set_osv_reference_field (field : string) : decoder osvReference := fun v r =>
  if bool_decide (field = "type") then x ← dec_string v (orType r); Some (mk_osv_reference x (orURL r))
  else x ← dec_string v (orURL r); Some (mk_osv_reference (orType r) x).

Definition dec_reference : decoder osvReference := dec_struct ["type"; "url"] set_osv_reference_field.

Record entry_cell := mk_entry_cell {
  ecID : string;
  ecSummary : string;
  ecDetails : string;
  ecAliases : slice string;
  ecModified : Time;
  ecPublished : Time;
  ecWithdrawn : option string;
  ecSeverity : slice osvSeverity;
  ecAffected : slice affected_cell;
  ecReferences : slice osvReference;
  ecDatabaseSpecific : option json
}.

Definition zero_entry : entry_cell := mk_entry_cell "" "" "" nil_slice 0 0 None nil_slice nil_slice nil_slice None.

Definition entry_value (c : entry_cell) : osvEntry :=
  mk_osv_entry (ecID c) (ecSummary c) (ecDetails c) (elems (ecAliases c)) (ecModified c) (ecPublished c) (ecWithdrawn c)
    (elems (ecSeverity c)) (affected_value <$> elems (ecAffected c)) (elems (ecReferences c)) (ecDatabaseSpecific c).

Definition set_entry_field (field : string) : decoder entry_cell := fun v c =>
  let '(mk_entry_cell id summary details aliases modified published withdrawn severity affected references specific) := c in
  if bool_decide (field = "id") then
    x ← dec_string v id; Some (mk_entry_cell x summary details aliases modified published withdrawn severity affected references specific)
  else if bool_decide (field = "summary") then
    x ← dec_string v summary; Some (mk_entry_cell id x details aliases modified published withdrawn severity affected references specific)
  else if bool_decide (field = "details") then
    x ← dec_string v details; Some (mk_entry_cell id summary x aliases modified published withdrawn severity affected references specific)
  else if bool_decide (field = "aliases") then
    x ← dec_slice "" dec_string v aliases; Some (mk_entry_cell id summary details x modified published withdrawn severity affected references specific)
  else if bool_decide (field = "modified") then
    x ← dec_time v modified; Some (mk_entry_cell id summary details aliases x published withdrawn severity affected references specific)
  else if bool_decide (field = "published") then
    x ← dec_time v published; Some (mk_entry_cell id summary details aliases modified x withdrawn severity affected references specific)
  else if bool_decide (field = "withdrawn") then
    x ← dec_string_ptr v; Some (mk_entry_cell id summary details aliases modified published x severity affected references specific)
  else if bool_decide (field = "severity") then
    x ← dec_slice (mk_osv_severity "" "") dec_severity v severity;
    Some (mk_entry_cell id summary details aliases modified published withdrawn x affected references specific)
  else if bool_decide (field = "affected") then
    x ← dec_slice zero_affected dec_affected v affected;
    Some (mk_entry_cell id summary details aliases modified published withdrawn severity x references specific)
  else if bool_decide (field = "references") then
    x ← dec_slice (mk_osv_reference "" "") dec_reference v references;
    Some (mk_entry_cell id summary details aliases modified published withdrawn severity affected x specific)
  else x ← dec_raw v specific; Some (mk_entry_cell id summary details aliases modified published withdrawn severity affected references x).

Definition dec_entry : decoder entry_cell :=
  dec_struct ["id"; "summary"; "details"; "aliases"; "modified"; "published"; "withdrawn"; "severity"; "affected"; "references";
              "database_specific"] set_entry_field.

Definition unmarshal_entry (data : string) : option osvEntry := entry_value <$> unmarshal dec_entry data zero_entry.

(** One string member of a raw message. *)
Definition raw_string (field : string) (raw : json) : option string :=
  decode_raw (dec_struct [field] (fun _ v cur => dec_string v cur)) raw "".
End decoding.

(** ** What is written *)

Definition event_text (e : osvRangeEvent) : jtext :=
  TObject [("introduced", TString (Introduced e)); ("fixed", TString (Fixed e)); ("last_affected", TString (LastAffected e));
           ("limit", TString (Limit e))].

(** A slice, null when nil. *)
Definition slice_text {A} (f : A -> jtext) (l : option (list A)) : jtext :=
  match l with Some l => TArray (List.map f l) | None => TNull end.

Definition range_text (event : osvRangeEvent -> jtext) (r : feedRange) : jtext :=
  TObject [("type", TString (frType r)); ("events", slice_text event (frEvents r))].

Definition marshal_ranges (event : osvRangeEvent -> jtext) (ranges : option (list feedRange)) : string :=
  print (slice_text (range_text event) ranges).

Definition marshal_versions (versions : option (list string)) : string := print (slice_text TString versions).

(** ** Severity *)

Section mapping.
Context {U : UnicodeCase} {O : MapOrder}.

Fixpoint extractCVSSScore (severities : list osvSeverity) : float64 :=
  match severities with
  | [] => of_int 0
  | s :: severities =>
      if negb (bool_decide (sevType s = "CVSS_V3")) && negb (bool_decide (sevType s = "CVSS_V2")) then extractCVSSScore severities
      else
        let score := ParseCVSSVector (sevScore s) in
        if f_lt (of_int 0) score then score else extractCVSSScore severities
  end.

(** The severities a feed states in words. *)
Definition severity_word (word : string) : option string :=
  let w := ToUpper word in
  if bool_decide (w = "CRITICAL") then Some "CRITICAL"
  else if bool_decide (w = "HIGH") then Some "HIGH"
  else if bool_decide (w = "MODERATE") || bool_decide (w = "MEDIUM") then Some "MEDIUM"
  else if bool_decide (w = "LOW") then Some "LOW"
  else None.

Definition mapSeverity (entry : osvEntry) : string :=
  let score := extractCVSSScore (oeSeverity entry) in
  if f_lt (of_int 0) score then CVSSToSeverity score
  else default "UNKNOWN" (raw ← oeDatabaseSpecific entry; word ← raw_string "severity" raw;
                          if bool_decide (word = "") then None else severity_word word).

(** The score as text, in tenths. *)
Definition score_text (score : float64) : string :=
  let k := to_int (f_add (f_mul score (of_int 10)) (lit 5 10)) in Itoa (k / 10) +:+ "." +:+ Itoa (k mod 10).

(** ** Ranges *)

Definition hasRangeClosure (events : list osvRangeEvent) : bool :=
  existsb (fun e => negb (bool_decide (TrimSpace (Fixed e) = "")) || negb (bool_decide (TrimSpace (LastAffected e) = ""))) events.

Definition closureEventFromDatabaseSpecific (raw : option json) : option osvRangeEvent :=
  raw ← raw; text ← raw_string "last_known_affected_version_range" raw;
  '(fixed, lastAffected) ← ParseLastKnownAffectedClosure text;
  Some (mk_event "" fixed lastAffected "").

(** One range with the closure; copying events of length 0 gives nil. *)
Definition close_range (closure : osvRangeEvent) (r : feedRange) : feedRange :=
  match range_events r with
  | [] => mk_feed_range (frType r) None
  | events => mk_feed_range (frType r) (Some (if hasRangeClosure events then events else events ++ [closure]))
  end.

Definition normalizeAffectedRanges (aff : osvAffected) : option (list feedRange) :=
  match oaRanges aff with
  | None | Some [] => oaRanges aff
  | Some ranges =>
      match closureEventFromDatabaseSpecific (oaDatabaseSpecific aff) with
      | None => Some ranges
      | Some closure => Some (close_range closure <$> ranges)
      end
  end.

(** ** The stored advisory *)

Definition OsvFeedName : string := "osv".

(** The name before a scope suffix. *)
Definition strip_scope (ecosystem : string) : string := (cut ecosystem ":"%char).1.

Definition affected_row (aff : osvAffected) : option AffectedPackage :=
  eco ← MapOSVEcosystem (strip_scope (opEcosystem (oaPackage aff)));
  Some (mk_affected eco (opName (oaPackage aff)) (marshal_ranges event_text (normalizeAffectedRanges aff))
          (marshal_versions (oaVersions aff))).

Definition alias_set (id : string) (aliases : list string) : gmap string unit :=
  fold_left (fun m a => <[a := tt]> m) aliases {[id := tt]}.

Definition mapToVulnerability (entry : osvEntry) (rawJSON : string) : Vulnerability :=
  let score := extractCVSSScore (oeSeverity entry) in
  mk_vuln (oeID entry) (oeSummary entry) (oeDetails entry) (mapSeverity entry)
    (if f_lt (of_int 0) score then Some (score_text score) else None) None None false false
    (oePublished entry) (oeModified entry)
    (w ← oeWithdrawn entry; if bool_decide (w = "") then None else ParseRFC3339Nano w)
    (mk_alias <$> (range_map (alias_set (oeID entry) (oeAliases entry))).*1)
    [mk_source OsvFeedName (oeID entry) "" rawJSON]
    ((fun ref => mk_reference (orType ref) (orURL ref) OsvFeedName) <$> filter (fun ref => orURL ref <> "") (oeReferences entry))
    (omap affected_row (oeAffected entry)).

(** ** Malicious packages *)

Definition affectedHasMaliciousCategory (aff : osvAffected) : bool :=
  match oaDatabaseSpecific aff with
  | None => false
  | Some raw =>
      match decode_raw (dec_struct ["categories"] (fun _ v cur => dec_slice "" dec_string v cur)) raw nil_slice with
      | None => false
      | Some categories => existsb (fun category => EqualFold (TrimSpace category) "malicious") (elems categories)
      end
  end.

Definition affectedSource (aff : osvAffected) : string :=
  TrimSpace (default "" (raw ← oaDatabaseSpecific aff; raw_string "source" raw)).

Definition introduced_version (e : osvRangeEvent) : bool :=
  negb (bool_decide (Introduced e = "")) && negb (bool_decide (Introduced e = "0")) && negb (bool_decide (Introduced e = "0.0.0-0")).

(** The empty text is nil. *)
Definition maliciousVersions (aff : osvAffected) : string :=
  let versions := default [] (oaVersions aff) ++
    (default [] (oaRanges aff) ≫= fun r => Introduced <$> filter (fun e => introduced_version e = true) (range_events r)) in
  match versions with
  | [] => ""
  | _ => print (TArray (List.map TString versions))
  end.

Definition marshalReferenceURLs (refs : list osvReference) : string :=
  print (TArray (List.map TString (orURL <$> filter (fun ref => orURL ref <> "") refs))).

Definition malicious_row (entry : osvEntry) (i : nat) (aff : osvAffected) : option MaliciousFinding :=
  if negb (affectedHasMaliciousCategory aff) then None
  else
    eco ← MapOSVEcosystem (strip_scope (opEcosystem (oaPackage aff)));
    let affRiskType := MaliciousRiskTypeFromJSON (oaDatabaseSpecific aff) in
    let riskType := if bool_decide (affRiskType = "")
                    then ClassifyMaliciousRiskType (oeDatabaseSpecific entry) (oeSummary entry) (oeDetails entry) else affRiskType in
    let id := if (0 <? i)%nat then oeID entry +:+ "-" +:+ Itoa (Z.of_nat i) else oeID entry in
    Some (mk_mal id eco (opName (oaPackage aff)) "" (maliciousVersions aff) OsvFeedName riskType "CRITICAL"
            (oeSummary entry) (oeDetails entry) (marshalReferenceURLs (oeReferences entry)) (affectedSource aff)
            (if IsZero (oePublished entry) then None else Some (oePublished entry)) "feed-sync").

Definition mapToMaliciousFindings (entry : osvEntry) : list MaliciousFinding :=
  omap (fun '(i, aff) => malicious_row entry i aff) (imap pair (oeAffected entry)).
End mapping.

(** ** Importing a document *)

(** What the importers need of a store; [false] is an error. *)
Class AdvisoryStore (S : Type) := {
  store_UpsertVulnerability : Vulnerability -> S -> bool * S;
  store_DeleteVulnerabilityForSource : string -> string -> S -> bool * S
}.

Class MaliciousStore (S : Type) := { store_UpsertMaliciousFinding : MaliciousFinding -> S -> bool * S }.

Inductive osvEntryOutcome :=
| osvEntryOutcomeSkipped | osvEntryOutcomeDeleted | osvEntryOutcomeMalicious | osvEntryOutcomeVulnerability | osvEntryOutcomeError.

Record osvEntryProcessResult := mk_osv_result { osvOutcome : osvEntryOutcome; osvSynced : Z; osvErrors : Z; osvMalformed : Z }.

Definition maxEntrySize : Z := 10 * 1024 * 1024.

Section processing.
Context {U : UnicodeCase} {O : MapOrder} {S : Type} `{AdvisoryStore S} `{MaliciousStore S}.

(** feed.DeleteVulnerabilityForSource; every store of the server can delete by
    source. *)
Definition DeleteVulnerabilityForSource (id source : string) (s : S) : bool * S :=
  let source := TrimSpace source in
  if bool_decide (source = "") then (false, s) else store_DeleteVulnerabilityForSource id source s.

Fixpoint upsert_findings (findings : list MaliciousFinding) (synced errors : Z) (s : S) : Z * Z * S :=
  match findings with
  | [] => (synced, errors, s)
  | finding :: findings =>
      let '(ok, s) := store_UpsertMaliciousFinding finding s in
      if ok then upsert_findings findings (synced + 1) errors s else upsert_findings findings synced (errors + 1) s
  end.

(** A parsed document. *)
Definition import_entry (entry : osvEntry) (data : string) (s : S) : osvEntryProcessResult * S :=
  if HasPrefix (oeID entry) "MAL-" then (mk_osv_result osvEntryOutcomeSkipped 0 0 0, s)
  else if match oeWithdrawn entry with Some w => negb (bool_decide (TrimSpace w = "")) | None => false end then
    let '(ok, s) := DeleteVulnerabilityForSource (oeID entry) OsvFeedName s in
    if ok then (mk_osv_result osvEntryOutcomeDeleted 1 0 0, s) else (mk_osv_result osvEntryOutcomeError 0 1 0, s)
  else
    match mapToMaliciousFindings entry with
    | [] =>
        let '(ok, s) := store_UpsertVulnerability (mapToVulnerability entry data) s in
        if ok then (mk_osv_result osvEntryOutcomeVulnerability 1 0 0, s) else (mk_osv_result osvEntryOutcomeError 0 1 0, s)
    | findings =>
        let '(ok, s) := DeleteVulnerabilityForSource (oeID entry) OsvFeedName s in
        let '(synced, errors, s) := upsert_findings findings 0 (if ok then 0 else 1) s in
        (mk_osv_result (if 0 <? errors then osvEntryOutcomeError else osvEntryOutcomeMalicious) synced errors 0, s)
    end.

(** A file of the archive: what reading it gives, [None] when it cannot be
    read.  More than [maxEntrySize] bytes are not read. *)
Definition processOSVEntry (file : option string) (s : S) : osvEntryProcessResult * S :=
  match file with
  | None => (mk_osv_result osvEntryOutcomeError 0 1 0, s)
  | Some contents =>
      let data := if Z.of_nat (String.length contents) <=? maxEntrySize then contents else str_take (Z.to_nat maxEntrySize) contents in
      match unmarshal_entry data with
      | None => (mk_osv_result osvEntryOutcomeError 0 1 1, s)
      | Some entry => import_entry entry data s
      end
  end.

(** The loop over the files of an archive: documents imported and seen, errors
    and malformed documents. *)
Definition archive_step (acc : (Z * Z * Z * Z) * S) (file : string * option string) : (Z * Z * Z * Z) * S :=
  let '((synced, total, errors, malformed), s) := acc in
  if negb (HasSuffix file.1 ".json") then acc
  else
    let '(r, s) := processOSVEntry file.2 s in
    ((synced + osvSynced r, total + 1, errors + osvErrors r, malformed + osvMalformed r), s).

Definition import_archive (files : list (string * option string)) (s : S) : (Z * Z * Z * Z) * S :=
  fold_left archive_step files ((0, 0, 0, 0), s).
End processing.
