(* ===== verification/PgAdvisories.v ===== *)
(** Advisories in PostgreSQL: internal/db/postgres/vulnerabilities.go, with the
    normalisers of store.go and versioning.go.

    A table is a map by its primary or unique key; the sources of an advisory
    and its references are kept in the order of their row identifiers.  The
    columns updated_at are left out, with the conditions of the updates that only
    decide whether they change.  What the references and the sources of an
    advisory give a finding (the aggregated JSON and internal/findinglinks) is
    [resources_of].  A statement that fails undoes the transaction. *)
From stdpp Require Import base list option strings gmap.
From Stdlib Require Import Ascii ZArith Lia.
From S2P Require Import Prelude GoStrings AsciiText PackageId Json VersionCompare VersionRanges Collections JsonEncode Domain.
From S2P Require Import JsonMaps JsonRender GoTime Advisories LocalStore FeedRules OsvFeed.

(** ** Columns of type jsonb

    The server stores the value, not the text: what is read back has the same
    value up to the order of the members of objects and has no white space
    around it.  Duplicate keys are not kept, and some texts are refused. *)

Inductive json_same : json -> json -> Prop :=
| same_atom v : (match v with JArray _ | JObject _ => False | _ => True end) -> json_same v v
| same_array l l' : Forall2 json_same l l' -> json_same (JArray l) (JArray l')
| same_object m m1 m' : Forall2 (fun a b => a.1 = b.1 /\ json_same a.2 b.2) m m1 -> m1 ≡ₚ m' -> json_same (JObject m) (JObject m').

Inductive distinct_keys : json -> Prop :=
| distinct_atom v : (match v with JArray _ | JObject _ => False | _ => True end) -> distinct_keys v
| distinct_array l : Forall distinct_keys l -> distinct_keys (JArray l)
| distinct_object m : NoDup m.*1 -> Forall (fun a => distinct_keys a.2) m -> distinct_keys (JObject m).

Class Jsonb := {
  jsonb_store : string -> option string;
  jsonb_value : forall t t' v, jsonb_store t = Some t' -> parse_json t = Some v -> distinct_keys v ->
    TrimSpace t' = t' /\ exists v', parse_json t' = Some v' /\ json_same v v'
}.

(** Which references are kept: findinglinks.ShouldStoreVulnerabilityReference,
    which parses URLs. *)
Class ReferencePolicy := { shouldStoreVulnerabilityReference : string -> bool }.

(** ** Tables *)

Record VulnRow := mk_vuln_core {
  vrSummary : string;
  vrDetails : option string;
  vrSeverity : string;
  vrCVSS : option string;
  vrEPSS : option string;
  vrEPSSPercentile : option string;
  vrKEV : bool;
  vrExploit : bool;
  vrPublished : Time;
  vrModified : Time;
  vrWithdrawn : option Time
}.

Record SourceRow := mk_source_row { sourceName : string; sourceID : string; sourceURL : option string; sourceRaw : option string }.

(** The type of a reference may be NULL. *)
Record ReferenceRow := mk_reference_row { rowType : option string; rowURL : string; rowSource : string }.

Record PgDB := mk_pg {
  vulnerabilities : gmap string VulnRow;
  vulnerability_sources : gmap string (list SourceRow);
  vulnerability_aliases : gset (string * string);
  vulnerability_references : gmap string (list ReferenceRow);
  (** (advisory, ecosystem, name) to ranges and versions *)
  affected_packages : gmap (string * string * string) (string * string)
}.

Definition empty_pg : PgDB := mk_pg ∅ ∅ ∅ ∅ ∅.

(** ** Normalisers *)

Definition coalesceStoredJSONArray (raw : string) : string :=
  let trimmed := TrimSpace raw in
  if bool_decide (trimmed = "") || bool_decide (trimmed = "null") then "[]" else raw.

(** [true] is no error; [allowNull] is false in the code below. *)
Definition validateStoredStringArrayJSON (raw : string) (allowNull : bool) : bool :=
  let trimmed := TrimSpace raw in
  if bool_decide (trimmed = "") then true
  else if bool_decide (trimmed = "null") then allowNull
  else match parse_json raw with
       | Some (JArray values) => forallb is_json_string values
       | Some JNull => true
       | _ => false
       end.

Section pg.
Context {U : UnicodeCase} {J : Jsonb} {RP : ReferencePolicy}.

Definition validateStoredVersionRangesJSON (raw : string) (allowNull : bool) : bool :=
  let trimmed := TrimSpace raw in
  if bool_decide (trimmed = "") then true
  else if bool_decide (trimmed = "null") then allowNull
  else bool_decide (CheckRangesShape raw = None).

Definition normalizeSeverity (severity : string) : string :=
  let normalized := ToUpper (TrimSpace severity) in if bool_decide (normalized = "") then "UNKNOWN" else normalized.

Definition storedSeverityValid (severity : string) (allowUnknown : bool) : bool :=
  if bool_decide (severity ∈ ["CRITICAL"; "HIGH"; "MEDIUM"; "LOW"]) then true
  else if bool_decide (severity = "UNKNOWN") then allowUnknown else false.

Definition normalizeVulnerabilitySeverity (severity : string) : option string :=
  let normalized := normalizeSeverity severity in
  if bool_decide (normalized = "UNKNOWN") then Some "LOW"
  else if storedSeverityValid normalized false then Some normalized else None.

Definition normalizeStoredEcosystem (ecosystem : string) : option string :=
  let normalized := ToLower (TrimSpace ecosystem) in if Ecosystem_Valid normalized then Some normalized else None.

Definition nullableString (s : string) : option string := if bool_decide (TrimSpace s = "") then None else Some s.

Definition versionAffectedWithEcosystem (ver versionRangesJSON versionsJSON ecosystem : string) : bool * bool :=
  let '(versionRangesJSON, versionsJSON) := NormalizeVersionConstraintJSON versionRangesJSON versionsJSON in
  VersionAffected ver versionRangesJSON versionsJSON ecosystem.

Definition extractFixedVersion (installed versionRangesJSON ecosystem : string) : string :=
  ExtractFixedVersionConstraintFor installed versionRangesJSON ecosystem.

(** ** Upserting an advisory *)

Definition severity_rank (severity : string) : Z :=
  if bool_decide (severity = "CRITICAL") then 4 else if bool_decide (severity = "HIGH") then 3
  else if bool_decide (severity = "MEDIUM") then 2 else if bool_decide (severity = "LOW") then 1 else 0.

(** INSERT ... ON CONFLICT (id) DO UPDATE of the advisory itself: an update
    keeps the texts it would blank, the higher severity, a known score, and the
    enrichments. *)
Definition upsert_core (severity : string) (vuln : Vulnerability) (old : option VulnRow) : VulnRow :=
  let details := nullableString (vDetails vuln) in
  match old with
  | None => mk_vuln_core (vSummary vuln) details severity (vCVSSScore vuln) (vEPSSScore vuln) (vEPSSPercentile vuln)
              (vCISAKEV vuln) (vExploitExists vuln) (vPublished vuln) (vModified vuln) (vWithdrawn vuln)
  | Some old =>
      mk_vuln_core (if bool_decide (vSummary vuln = "") then vrSummary old else vSummary vuln)
        (match details with Some d => if bool_decide (d = "") then vrDetails old else Some d | None => vrDetails old end)
        (if severity_rank (vrSeverity old) <? severity_rank severity then severity else vrSeverity old)
        (match vCVSSScore vuln with Some s => Some s | None => vrCVSS old end)
        (vrEPSS old) (vrEPSSPercentile old) (vrKEV old) (vrExploit old) (vPublished vuln) (vModified vuln) (vWithdrawn vuln)
  end.

(** One source of the advisory; [None] when its raw JSON is refused. *)
Definition upsert_source (rows : list SourceRow) (source : VulnerabilitySource) : option (list SourceRow) :=
  raw ← (if bool_decide (RawJSON source = "") then Some None else t ← jsonb_store (RawJSON source); Some (Some t));
  let row := mk_source_row (srcSource source) (SourceID source) (nullableString (srcURL source)) raw in
  Some (if bool_decide (srcSource source ∈ sourceName <$> rows)
        then (fun r => if bool_decide (sourceName r = srcSource source) then row else r) <$> rows else rows ++ [row]).

Fixpoint upsert_sources (rows : list SourceRow) (sources : list VulnerabilitySource) : option (list SourceRow) :=
  match sources with
  | [] => Some rows
  | source :: sources => rows ← upsert_source rows source; upsert_sources rows sources
  end.

(** One affected package: INSERT ... ON CONFLICT (vulnerability_id, ecosystem,
    name) DO UPDATE replaces the ranges and the versions. *)
Definition upsert_affected (id : string) (rows : gmap (string * string * string) (string * string)) (pkg : AffectedPackage)
    : option (gmap (string * string * string) (string * string)) :=
  ecosystem ← normalizeStoredEcosystem (affEcosystem pkg);
  let name := normalizePackageName ecosystem (affName pkg) in
  let versionRanges := coalesceStoredJSONArray (affVersionRanges pkg) in
  let versionsAffected := coalesceStoredJSONArray (affVersionsAffected pkg) in
  if negb (validateStoredVersionRangesJSON versionRanges false) then None
  else if negb (validateStoredStringArrayJSON versionsAffected false) then None
  else
    ranges ← jsonb_store versionRanges;
    versions ← jsonb_store versionsAffected;
    Some (<[(id, ecosystem, name) := (ranges, versions)]> rows).

Fixpoint upsert_packages (id : string) (pkgs : list AffectedPackage) (rows : gmap (string * string * string) (string * string))
    : option (gmap (string * string * string) (string * string)) :=
  match pkgs with
  | [] => Some rows
  | pkg :: pkgs => rows ← upsert_affected id rows pkg; upsert_packages id pkgs rows
  end.

(** An alias of the advisory; a known one stays. *)
Definition insert_alias (id : string) (aliases : gset (string * string)) (alias : VulnerabilityAlias) : gset (string * string) :=
  if bool_decide (AliasID alias = "") then aliases else {[(id, AliasID alias)]} ∪ aliases.

Definition add_source_name (sources : list string) (source : string) : list string :=
  let name := TrimSpace source in
  if bool_decide (name = "") || bool_decide (name ∈ sources) then sources else sources ++ [name].

(** The sources whose references are replaced. *)
Definition vulnerabilityReferenceSources (vuln : Vulnerability) : list string :=
  fold_left add_source_name (refSource <$> vReferences vuln) (fold_left add_source_name (srcSource <$> vSources vuln) []).

Definition vulnerabilityReferenceSource (vuln : Vulnerability) (ref : VulnerabilityReference) : string :=
  let source := TrimSpace (refSource ref) in
  if bool_decide (source = "") then match vSources vuln with [s] => TrimSpace (srcSource s) | _ => "" end else source.

(** DELETE of the references of those sources. *)
Definition kept_references (vuln : Vulnerability) (rows : list ReferenceRow) : list ReferenceRow :=
  filter (fun row => rowSource row ∉ vulnerabilityReferenceSources vuln) rows.

(** INSERT ... ON CONFLICT (vulnerability_id, source, url) DO UPDATE SET type. *)
Definition upsert_reference (vuln : Vulnerability) (rows : list ReferenceRow) (ref : VulnerabilityReference) : list ReferenceRow :=
  if negb (shouldStoreVulnerabilityReference (refURL ref)) then rows
  else
    let row := mk_reference_row (nullableString (refType ref)) (refURL ref) (vulnerabilityReferenceSource vuln ref) in
    let same (r : ReferenceRow) := bool_decide (rowSource r = rowSource row) && bool_decide (rowURL r = rowURL row) in
    if existsb same rows then (fun r => if same r then row else r) <$> rows else rows ++ [row].

(** Operator advisories keep to their namespace. *)
Definition manual_ids_ok (vuln : Vulnerability) : bool :=
  forallb (fun source => negb (EqualFold (TrimSpace (srcSource source)) "manual") ||
    (bool_decide (is_Some (NormalizeManualAdvisoryID (vID vuln))) && bool_decide (is_Some (NormalizeManualAdvisoryID (SourceID source)))))
    (vSources vuln).

Definition upsertVulnerabilityTx (vuln : Vulnerability) (d : PgDB) : option PgDB :=
  severity ← normalizeVulnerabilitySeverity (vSeverity vuln);
  if negb (manual_ids_ok vuln) then None
  else
    let id := vID vuln in
    let core := upsert_core severity vuln (vulnerabilities d !! id) in
    sources ← upsert_sources (default [] (vulnerability_sources d !! id)) (vSources vuln);
    affected ← upsert_packages id (vAffectedPackages vuln) (affected_packages d);
    Some (mk_pg (<[id := core]> (vulnerabilities d)) (<[id := sources]> (vulnerability_sources d))
            (fold_left (insert_alias id) (vAliases vuln) (vulnerability_aliases d))
            (<[id := fold_left (upsert_reference vuln) (vReferences vuln) (kept_references vuln (default [] (vulnerability_references d !! id)))]>
               (vulnerability_references d))
            affected).

(** [false] is an error, and nothing changed. *)
Definition UpsertVulnerability (vuln : Vulnerability) (d : PgDB) : bool * PgDB :=
  match upsertVulnerabilityTx vuln d with Some d' => (true, d') | None => (false, d) end.

(** ** Deleting *)

Definition withdraw (now : Time) (row : VulnRow) : VulnRow :=
  mk_vuln_core (vrSummary row) (vrDetails row) (vrSeverity row) (vrCVSS row) (vrEPSS row) (vrEPSSPercentile row) (vrKEV row)
    (vrExploit row) (vrPublished row) (vrModified row) (match vrWithdrawn row with Some t => Some t | None => Some now end).

Definition DeleteVulnerability (now : Time) (id : string) (d : PgDB) : PgDB :=
  mk_pg (alter (withdraw now) id (vulnerabilities d)) (vulnerability_sources d) (vulnerability_aliases d)
    (vulnerability_references d) (affected_packages d).

(** The last source to leave withdraws the advisory. *)
Definition deleteVulnerabilityForSourceTx (now : Time) (id source : string) (d : PgDB) : bool * PgDB :=
  let source := TrimSpace source in
  if bool_decide (source = "") then (false, d)
  else match vulnerabilities d !! id with
       | None => (true, d)
       | Some row =>
           let kept := filter (fun r => sourceName r <> source) (default [] (vulnerability_sources d !! id)) in
           (true, mk_pg (match kept with [] => <[id := withdraw now row]> (vulnerabilities d) | _ => vulnerabilities d end)
                    (<[id := kept]> (vulnerability_sources d)) (vulnerability_aliases d)
                    (vulnerability_references d) (affected_packages d))
       end.

(** ** Lookups *)

(** What a query returns, in the order of its ORDER BY clause, and the links of
    an advisory. *)
Context (order_rows : list (string * VulnRow) -> list (string * VulnRow)) (order_perm : forall l, order_rows l ≡ₚ l).
Context (resources_of : string -> list ReferenceRow -> list SourceRow -> list ResourceLink) {O : MapOrder}.

Definition vulnerabilityRow : Type := string * VulnRow.

Definition row_affects (version ecosystem ranges versions : string) : bool :=
  if bool_decide (version = "") then true
  else let '(affected, err) := versionAffectedWithEcosystem version ranges versions ecosystem in err || affected.

Definition row_finding (ecosystem name version : string) (d : PgDB) (row : vulnerabilityRow) (ranges : string) : Finding :=
  let '(id, core) := row in
  let title := if bool_decide (vrSummary core = "") then id else vrSummary core in
  let source := match default [] (vulnerability_sources d !! id) with r :: _ => sourceName r | [] => "" end in
  let source := if bool_decide (source = "") then "unknown" else source in
  let resources := resources_of id (default [] (vulnerability_references d !! id)) (default [] (vulnerability_sources d !! id)) in
  mk_finding name version ecosystem FindingTypeVulnerability (normalizeSeverity (vrSeverity core)) id title
    (match resources with l :: _ => URL l | [] => "" end) resources
    (extractFixedVersion version ranges ecosystem) "" source [].

Definition FindVulnerabilities (ecosystem name0 version : string) (d : PgDB) : list Finding :=
  let name := normalizePackageName ecosystem name0 in
  order_rows (filter (fun row => vrWithdrawn row.2 = None /\ is_Some (affected_packages d !! (row.1, ecosystem, name)))
                (range_map (vulnerabilities d))) ≫= fun row =>
    match affected_packages d !! (row.1, ecosystem, name) with
    | Some (ranges, versions) =>
        if row_affects version ecosystem ranges versions then [row_finding ecosystem name version d row ranges] else []
    | None => []
    end.
End pg.
