(* ===== verification/GhsaFeed.v ===== *)
(** The GitHub advisory feed: one advisory file to a stored advisory
    (internal/feed/ghsa/syncer.go).

    Its documents are OSV documents; what the importer reads of them differs
    from the OSV feed.  Events have no limit here. *)
From stdpp Require Import base list option strings gmap.
From Stdlib Require Import Ascii ZArith Lia.
From S2P Require Import Prelude GoStrings GoNumbers AsciiText Json VersionCompare VersionRanges Collections JsonEncode Domain.
From S2P Require Import JsonMaps JsonRender GoTime Float64 Cvss Advisories Dates TimeParse CheckWire FeedRules OsvFeed.

(** ** The document *)

Record ghsaAffected := mk_ghsa_affected {
  gaEcosystem : string;
  gaName : string;
  gaRanges : list feedRange;
  gaVersions : list string;
  (** last_known_affected_version_range, [None] without database_specific *)
  gaDatabaseSpecific : option string
}.

Record ghsaDatabaseSpecific := mk_ghsa_specific { gdSeverity : string; gdCVEs : list string; gdReviewed : bool }.

Record ghsaAdvisory := mk_ghsa {
  gID : string;
  gSummary : string;
  gDetails : string;
  gAliases : list string;
  gModified : Time;
  gPublished : Time;
  gWithdrawn : option string;
  gSeverity : list osvSeverity;
  gAffected : list ghsaAffected;
  gReferences : list osvReference;
  gDatabaseSpecific : option ghsaDatabaseSpecific
}.

Section decoding.
Context {U : UnicodeCase}.

Definition dec_ghsa_event : decoder osvRangeEvent := dec_struct ["introduced"; "fixed"; "last_affected"] set_event_field.

(** A pointer to a struct. *)
Definition dec_pointer {A} (zero : A) (dec : decoder A) : decoder (option A) := fun v cur =>
  match v with
  | JNull => Some None
  | _ => x ← dec v (default zero cur); Some (Some x)
  end.

Record ghsa_affected_cell := mk_ghsa_cell {
  gcPackage : string * string;
  gcRanges : slice feed_range_cell;
  gcVersions : slice string;
  gcSpecific : option string
}.

Definition zero_ghsa_cell : ghsa_affected_cell := mk_ghsa_cell ("", "") nil_slice nil_slice None.

Definition ghsa_affected_value (c : ghsa_affected_cell) : ghsaAffected :=
  mk_ghsa_affected (gcPackage c).1 (gcPackage c).2 (feed_range_value <$> elems (gcRanges c)) (elems (gcVersions c)) (gcSpecific c).

Definition dec_ghsa_package : decoder (string * string) :=
  dec_struct ["ecosystem"; "name"] (fun field v p =>
    if bool_decide (field = "ecosystem") then x ← dec_string v p.1; Some (x, p.2) else x ← dec_string v p.2; Some (p.1, x)).

Definition set_ghsa_affected_field (field : string) : decoder ghsa_affected_cell := fun v c =>
  let '(mk_ghsa_cell p rs vs ds) := c in
  if bool_decide (field = "package") then x ← dec_ghsa_package v p; Some (mk_ghsa_cell x rs vs ds)
  else if bool_decide (field = "ranges") then
    x ← dec_slice ("", None) (dec_feed_range dec_ghsa_event) v rs; Some (mk_ghsa_cell p x vs ds)
  else if bool_decide (field = "versions") then x ← dec_slice "" dec_string v vs; Some (mk_ghsa_cell p rs x ds)
  else x ← dec_pointer "" (dec_struct ["last_known_affected_version_range"] (fun _ v cur => dec_string v cur)) v ds;
       Some (mk_ghsa_cell p rs vs x).

Definition dec_ghsa_affected : decoder ghsa_affected_cell :=
  dec_struct ["package"; "ranges"; "versions"; "database_specific"] set_ghsa_affected_field.

(** database_specific while it is decoded. *)
Definition ghsa_specific_cell : Type := string * slice string * bool.

Definition ghsa_specific_value (c : ghsa_specific_cell) : ghsaDatabaseSpecific := mk_ghsa_specific c.1.1 (elems c.1.2) c.2.

Definition dec_ghsa_specific : decoder ghsa_specific_cell :=
  dec_struct ["severity"; "cve_ids"; "github_reviewed"] (fun field v c =>
    if bool_decide (field = "severity") then x ← dec_string v c.1.1; Some (x, c.1.2, c.2)
    else if bool_decide (field = "cve_ids") then x ← dec_slice "" dec_string v c.1.2; Some (c.1.1, x, c.2)
    else x ← dec_bool v c.2; Some (c.1.1, c.1.2, x)).

(** The members the two document types share are decoded alike. *)
Record ghsa_entry_cell := mk_ghsa_entry {
  gceEntry : entry_cell;
  gceAffected : slice ghsa_affected_cell;
  gceSpecific : option ghsa_specific_cell
}.

Definition set_ghsa_field (field : string) : decoder ghsa_entry_cell := fun v c =>
  if bool_decide (field = "affected") then
    x ← dec_slice zero_ghsa_cell dec_ghsa_affected v (gceAffected c); Some (mk_ghsa_entry (gceEntry c) x (gceSpecific c))
  else if bool_decide (field = "database_specific") then
    x ← dec_pointer ("", nil_slice, false) dec_ghsa_specific v (gceSpecific c); Some (mk_ghsa_entry (gceEntry c) (gceAffected c) x)
  else x ← set_entry_field field v (gceEntry c); Some (mk_ghsa_entry x (gceAffected c) (gceSpecific c)).

Definition dec_advisory : decoder ghsa_entry_cell :=
  dec_struct ["id"; "summary"; "details"; "aliases"; "modified"; "published"; "withdrawn"; "severity"; "affected"; "references";
              "database_specific"] set_ghsa_field.

Definition advisory_value (c : ghsa_entry_cell) : ghsaAdvisory :=
  let e := gceEntry c in
  mk_ghsa (ecID e) (ecSummary e) (ecDetails e) (elems (ecAliases e)) (ecModified e) (ecPublished e) (ecWithdrawn e)
    (elems (ecSeverity e)) (ghsa_affected_value <$> elems (gceAffected c)) (elems (ecReferences e))
    (ghsa_specific_value <$> gceSpecific c).

Definition unmarshal_advisory (data : string) : option ghsaAdvisory :=
  advisory_value <$> unmarshal dec_advisory data (mk_ghsa_entry zero_entry nil_slice None).

(** ** Mapping *)

Context {O : MapOrder}.

Definition ghsa_event_text (e : osvRangeEvent) : jtext :=
  TObject [("introduced", TString (Introduced e)); ("fixed", TString (Fixed e)); ("last_affected", TString (LastAffected e))].

Fixpoint first_cvss_severity (severities : list osvSeverity) : string :=
  match severities with
  | [] => "UNKNOWN"
  | s :: severities =>
      let score := ParseCVSSVector (sevScore s) in
      if f_lt (of_int 0) score then CVSSToSeverity score else first_cvss_severity severities
  end.

Definition mapSeverity (advisory : ghsaAdvisory) : string :=
  default (first_cvss_severity (gSeverity advisory))
    (d ← gDatabaseSpecific advisory; if bool_decide (gdSeverity d = "") then None else severity_word (gdSeverity d)).

Definition closureEventFromLastKnownAffectedRange (specific : option string) : option osvRangeEvent :=
  text ← specific; '(fixed, lastAffected) ← ParseLastKnownAffectedClosure text; Some (mk_event "" fixed lastAffected "").

(** Copying no events gives a nil slice. *)
Definition copy_range (r : feedRange) : feedRange :=
  mk_feed_range (frType r) (match range_events r with [] => None | events => Some events end).

Definition normalizeAffectedRanges (ranges : list feedRange) (specific : option string) : list feedRange :=
  match closureEventFromLastKnownAffectedRange specific with
  | None => copy_range <$> ranges
  | Some closure => close_range closure <$> ranges
  end.

(** What is collected for one package: ranges in order, versions in order
    without repetition. *)
Record mergedAffected := mk_merged { mgRanges : list feedRange; mgVersions : list string }.

Definition add_versions (seen versions : list string) : list string :=
  fold_left (fun seen v => if bool_decide (v ∈ seen) then seen else seen ++ [v]) versions seen.

(** The packages in order of their first entry, and what is collected. *)
Definition merge_state : Type := list (string * string) * gmap (string * string) mergedAffected.

Definition merge_affected (st : merge_state) (aff : ghsaAffected) : merge_state :=
  match MapGHSAEcosystem (gaEcosystem aff) with
  | None => st
  | Some eco =>
      if bool_decide (eco = "") then st
      else
        let key : string * string := (eco, gaName aff) in
        let '(order, merged) := match st.2 !! key with
                                | Some m => (st.1, m)
                                | None => (st.1 ++ [key], mk_merged [] [])
                                end in
        let m := mk_merged (mgRanges merged ++ normalizeAffectedRanges (gaRanges aff) (gaDatabaseSpecific aff))
                   (add_versions (mgVersions merged) (gaVersions aff)) in
        (order, <[key := m]> st.2)
  end.

(** A slice that was only appended to is nil when empty. *)
Definition appended {A} (l : list A) : option (list A) := match l with [] => None | _ => Some l end.

Definition merged_row (st : merge_state) (key : string * string) : AffectedPackage :=
  let m := default (mk_merged [] []) (st.2 !! key) in
  mk_affected key.1 key.2 (marshal_ranges ghsa_event_text (appended (mgRanges m))) (marshal_versions (appended (mgVersions m))).

Definition GhsaFeedName : string := "ghsa".

(** [None] is a withdrawn date that cannot be read. *)
Definition mapToVulnerability (advisory : ghsaAdvisory) (rawJSON : string) : option Vulnerability :=
  withdrawn ← match gWithdrawn advisory with
              | None => Some None
              | Some w => if bool_decide (w = "") then Some None else t ← ParseRFC3339Nano w; Some (Some t)
              end;
  let aliases := gAliases advisory ++ default [] (gdCVEs <$> gDatabaseSpecific advisory) in
  let st := fold_left merge_affected (gAffected advisory) ([], ∅) in
  Some (mk_vuln (gID advisory) (gSummary advisory) (gDetails advisory) (mapSeverity advisory)
    None None None false false (gPublished advisory) (gModified advisory) withdrawn
    (mk_alias <$> (range_map (alias_set (gID advisory) aliases)).*1)
    [mk_source GhsaFeedName (gID advisory) "" rawJSON]
    ((fun ref => mk_reference (orType ref) (orURL ref) GhsaFeedName) <$> filter (fun ref => orURL ref <> "") (gReferences advisory))
    (merged_row st <$> st.1)).
End decoding.

(** ** Importing a file *)

Section processing.
Context {U : UnicodeCase} {O : MapOrder} {S : Type} `{AdvisoryStore S}.

(** One advisory file of the walk: whether it was imported. *)
Definition import_advisory (data : string) (s : S) : bool * S :=
  match unmarshal_advisory data with
  | None => (false, s)
  | Some advisory =>
      if bool_decide (gID advisory = "") then (false, s)
      else match mapToVulnerability advisory data with
           | None => (false, s)
           | Some vuln => store_UpsertVulnerability vuln s
           end
  end.

(** A file of the repository: its name and what reading it gives. *)
Definition walk_step (acc : (Z * Z * Z) * S) (file : string * option string) : (Z * Z * Z) * S :=
  let '((synced, total, errors), s) := acc in
  if negb (HasSuffix file.1 ".json") then acc
  else match file.2 with
       | None => ((synced, total + 1, errors + 1), s)
       | Some data =>
           let '(ok, s) := import_advisory data s in
           if ok then ((synced + 1, total + 1, errors), s) else ((synced, total + 1, errors + 1), s)
       end.

Definition walkAdvisories (files : list (string * option string)) (s : S) : (Z * Z * Z) * S :=
  fold_left walk_step files ((0, 0, 0), s).
End processing.
