(* ===== verification/FeedDetection.v ===== *)
(** From a feed document to a finding: what an importer writes to PostgreSQL is
    what the matcher reads back, and every version an advisory names is found. *)
From stdpp Require Import base list option strings gmap.
From Stdlib Require Import Ascii ZArith Lia.
From S2P Require Import Prelude GoStrings GoNumbers AsciiText PackageId Json VersionCompare VersionRanges Collections JsonEncode.
From S2P Require Import Domain JsonMaps JsonRender GoTime Float64 Cvss Advisories LocalStore FeedRules OsvFeed PgAdvisories GhsaFeed.

(** ** Arrays as text *)

Lemma trim_with_head sp2 sp3 c s : ascii_space c = false -> (forall c2, sp2 c c2 = false) ->
  (forall c2 c3, sp3 c c2 c3 = false) -> trim_with sp2 sp3 (String c s) = String c s.
Proof. intros Hc H2 H3. cbn [trim_with]. rewrite Hc. destruct s as [|c2 [|c3 s]]; [done|by rewrite H2|by rewrite H2, H3]. Qed.

(** Text in brackets has no white space around it. *)
Lemma TrimSpace_brackets x : TrimSpace ("[" +:+ x +:+ "]") = "[" +:+ x +:+ "]".
Proof.
  unfold TrimSpace, TrimLeftSpace. change ("[" +:+ x +:+ "]") with (String "[" (x +:+ "]")).
  rewrite trim_with_head by done. unfold TrimRightSpace. change (String "[" (x +:+ "]")) with ("[" +:+ (x +:+ "]")).
  rewrite !rev_app. change (String.rev "]") with "]". change ("]" +:+ String.rev x) with (String "]" (String.rev x)).
  change (String "]" (String.rev x) +:+ String.rev "[") with (String "]" (String.rev x +:+ String.rev "[")).
  rewrite trim_with_head; [| done | |].
  - change (String "]" (String.rev x +:+ String.rev "[")) with (("]" +:+ String.rev x) +:+ String.rev "[").
    rewrite !rev_app, !rev_involutive. done.
  - intros c2. unfold space2. by rewrite andb_false_r.
  - intros c2 c3. unfold space3. by rewrite !andb_false_r.
Qed.

(** ** Values up to the order of members *)

Lemma same_string s v : json_same (JString s) v -> v = JString s.
Proof. by inversion 1. Qed.

Lemma same_strings l v : json_same (JArray (JString <$> l)) v -> v = JArray (JString <$> l).
Proof.
  inversion 1 as [|? l' Hall|]; subst; [done|]. f_equal. clear H. revert l' Hall.
  induction l as [|s l IH]; intros l' Hall; inversion Hall; subst; [done|]. cbn. f_equal; [by apply same_string|by apply IH].
Qed.

(** An object of strings: its members in another order. *)
Lemma same_string_members (m : list (string * string)) v :
  json_same (JObject ((fun p => (p.1, JString p.2)) <$> m)) v ->
  exists m', v = JObject m' /\ ((fun p => (p.1, JString p.2)) <$> m) ≡ₚ m'.
Proof.
  inversion 1 as [| |? m1 m' Hall Hperm]; subst; [done|]. exists m'. split; [done|]. rewrite <- Hperm. clear H Hperm.
  replace m1 with ((fun p => (p.1, JString p.2)) <$> m); [done|]. revert m1 Hall.
  induction m as [|[k s] m IH]; intros m1 Hall; inversion Hall as [|? [k' x] ? ? [Hk Hx] Hrest]; subst; [done|].
  cbn in *. subst. apply same_string in Hx as ->. f_equal. by apply IH.
Qed.

Section perm.
Context {U : UnicodeCase} {A : Type} (names : list string) (set : string -> decoder A).

(** Members decoded into different fields can change places. *)
Lemma dec_members_perm m m' cur :
  (forall k1 v1 k2 v2 cur, k1 ∈ names -> k2 ∈ names -> k1 <> k2 ->
     (c ← set k1 v1 cur; set k2 v2 c) = (c ← set k2 v2 cur; set k1 v1 c)) ->
  m ≡ₚ m' -> NoDup m.*1 -> Forall (fun k => k ∈ names) m.*1 -> dec_members names set m cur = dec_members names set m' cur.
Proof.
  intros Hcomm Hperm. revert cur. induction Hperm as [|[k v] m m' Hperm IH|[k1 v1] [k2 v2] m|m m1 m' H1 IH1 H2 IH2]; intros cur Hnd Hin.
  - done.
  - cbn in *. apply NoDup_cons in Hnd as [_ Hnd]. apply Forall_cons in Hin as [Hk Hin]. rewrite (struct_field_in _ _ Hk).
    destruct (set k v cur); [|done]. cbn. by apply IH.
  - cbn in *. apply NoDup_cons in Hnd as [Hne _]. apply Forall_cons in Hin as [Hk2 Hin]. apply Forall_cons in Hin as [Hk1 _].
    rewrite (struct_field_in _ _ Hk1), (struct_field_in _ _ Hk2).
    assert (k2 <> k1) as Hneq by (intros ->; apply Hne; by left). specialize (Hcomm k2 v2 k1 v1 cur Hk2 Hk1 Hneq).
    destruct (set k2 v2 cur) as [c2|] eqn:E2, (set k1 v1 cur) as [c1|] eqn:E1; cbn in *; try done.
    + by rewrite Hcomm.
    + by rewrite Hcomm.
    + by rewrite <- Hcomm.
  - rewrite IH1 by done. apply IH2; rewrite <- H1; done.
Qed.
End perm.

(** ** Ranges and versions in a row *)

Section rows.
Context {U : UnicodeCase} {J : Jsonb} {RP : ReferencePolicy} {O : MapOrder}.

Definition valid_event (e : osvRangeEvent) : osvRangeEvent :=
  mk_event (ToValidUTF8 (Introduced e)) (ToValidUTF8 (Fixed e)) (ToValidUTF8 (LastAffected e)) (ToValidUTF8 (Limit e)).

(** The event as the GitHub importer writes it. *)
Definition ghsa_event (e : osvRangeEvent) : osvRangeEvent := mk_event (Introduced e) (Fixed e) (LastAffected e) "".

Definition written_range (w : osvRangeEvent -> osvRangeEvent) (r : feedRange) : osvRange :=
  mk_range (ToValidUTF8 (frType r)) (valid_event ∘ w <$> range_events r).

Lemma event_fields_commute k1 v1 k2 v2 e : k1 ∈ event_names -> k2 ∈ event_names -> k1 <> k2 ->
  (c ← set_event_field k1 v1 e; set_event_field k2 v2 c) = (c ← set_event_field k2 v2 e; set_event_field k1 v1 c).
Proof.
  unfold event_names. rewrite !elem_of_cons, !elem_of_nil. intros H1 H2 Hne.
  destruct H1 as [->|[->|[->|[->|[]]]]], H2 as [->|[->|[->|[->|[]]]]]; try done;
    unfold set_event_field; destruct v1, v2; cbn; try done.
Qed.

(** An event reads back whatever the order of its members. *)
Lemma dec_event_same (m : list (string * string)) v e :
  NoDup m.*1 -> Forall (fun k => k ∈ event_names) m.*1 ->
  dec_event (JObject ((fun p => (p.1, JString p.2)) <$> m)) empty_event = Some e ->
  json_same (JObject ((fun p => (p.1, JString p.2)) <$> m)) v -> dec_event v empty_event = Some e.
Proof.
  intros Hnd Hin He (m' & -> & Hperm)%same_string_members. rewrite <- He. unfold dec_event, dec_struct. symmetry.
  apply dec_members_perm; [apply event_fields_commute|done|..]; by rewrite <- list_fmap_compose.
Qed.

Lemma event_text_reads e v : json_same (denote (event_text e)) v -> dec_event v empty_event = Some (valid_event e).
Proof.
  apply (dec_event_same [("introduced", ToValidUTF8 (Introduced e)); ("fixed", ToValidUTF8 (Fixed e));
    ("last_affected", ToValidUTF8 (LastAffected e)); ("limit", ToValidUTF8 (Limit e))]); [|decided|done].
  repeat constructor; set_solver.
Qed.

Lemma ghsa_event_text_reads e v : json_same (denote (ghsa_event_text e)) v -> dec_event v empty_event = Some (valid_event (ghsa_event e)).
Proof.
  apply (dec_event_same [("introduced", ToValidUTF8 (Introduced e)); ("fixed", ToValidUTF8 (Fixed e));
    ("last_affected", ToValidUTF8 (LastAffected e))]); [|decided|done].
  repeat constructor; set_solver.
Qed.

(** Elements decoded one by one into fresh variables. *)
Lemma dec_slice_same {A B} (zero : A) (dec : decoder A) (f : B -> json) (g : B -> A) l l' :
  (forall b v, json_same (f b) v -> dec v zero = Some (g b)) -> Forall2 json_same (f <$> l) l' ->
  exists s, dec_slice zero dec (JArray l') nil_slice = Some s /\ elems s = g <$> l.
Proof.
  intros Hdec Hall.
  assert (dec_elems zero dec l' [] = Some (g <$> l)) as Hel.
  { revert l' Hall. induction l as [|b l IH]; intros l' Hall; inversion Hall as [|? v ? l1 Hv Hrest]; subst; [done|].
    cbn. rewrite (Hdec _ _ Hv). cbn. by rewrite (IH _ Hrest). }
  destruct l' as [|v l']; [inversion Hall as [Hnil|]; destruct l; [|done]; by exists nil_slice|].
  unfold dec_slice. cbn [backing nil_slice]. rewrite Hel. cbn [mbind option_bind]. eexists. split; [done|].
  unfold elems. cbn [used backing]. apply Forall2_length in Hall. rewrite length_fmap in Hall.
  rewrite take_app_le, take_ge by (rewrite length_fmap; lia). done.
Qed.

Section written.
Context (ev : osvRangeEvent -> jtext) (w : osvRangeEvent -> osvRangeEvent).
Context (ev_reads : forall e v, json_same (denote (ev e)) v -> dec_event v empty_event = Some (valid_event (w e))).

Lemma range_fields_commute k1 v1 k2 v2 r : k1 ∈ range_names -> k2 ∈ range_names -> k1 <> k2 ->
  (c ← set_range_field k1 v1 r; set_range_field k2 v2 c) = (c ← set_range_field k2 v2 r; set_range_field k1 v1 c).
Proof.
  unfold range_names. rewrite !elem_of_cons, !elem_of_nil. destruct r as [t es].
  intros [->|[->|[]]] [->|[->|[]]] Hne; try done; unfold set_range_field; cbn [fst snd].
  - rewrite (bool_decide_true ("type" = "type")), (bool_decide_false ("events" = "type")) by done.
    destruct (dec_string v1 t) eqn:E1, (dec_slice empty_event dec_event v2 es) eqn:E2; cbn [mbind option_bind fst snd];
      rewrite ?E1, ?E2; done.
  - rewrite (bool_decide_true ("type" = "type")), (bool_decide_false ("events" = "type")) by done.
    destruct (dec_string v2 t) eqn:E1, (dec_slice empty_event dec_event v1 es) eqn:E2; cbn [mbind option_bind fst snd];
      rewrite ?E1, ?E2; done.
Qed.

Lemma range_text_reads r v : json_same (denote (range_text ev r)) v ->
  exists c, dec_range v empty_range_var = Some c /\ range_of_var c = written_range w r.
Proof.
  destruct r as [t es]. unfold range_text. cbn [denote frType frEvents List.map fst snd].
  inversion 1 as [| |? m1 m' Hall Hperm]; subst; [done|]. clear H.
  inversion Hall as [|? [k1 t1] ? ? [Hk1 Ht1] Hall1]; subst. inversion Hall1 as [|? [k2 e1] ? ? [Hk2 He1] Hall2]; subst.
  inversion Hall2; subst. cbn [fst snd] in *. subst. apply same_string in Ht1 as ->. clear Hall Hall1 Hall2.
  unfold dec_range, dec_struct. rewrite <- (dec_members_perm range_names set_range_field _ _ _ range_fields_commute Hperm);
    [|repeat constructor; set_solver|repeat constructor; set_solver].
  assert (exists sl, dec_slice empty_event dec_event e1 nil_slice = Some sl /\ elems sl = valid_event ∘ w <$> default [] es) as (sl & Hsl & Hel).
  { destruct es as [es|]; cbn [slice_text denote] in He1.
    - inversion He1 as [|? l' Hall|]; subst; [done|]. rewrite List.map_map in Hall.
      apply (dec_slice_same empty_event dec_event (fun e => denote (ev e)) (valid_event ∘ w) es l'); [|exact Hall].
      intros b v. apply ev_reads.
    - inversion He1; subst. by exists nil_slice. }
  exists (ToValidUTF8 t, sl). split; [|unfold range_of_var, written_range; cbn [fst snd]; by rewrite Hel].
  cbn [dec_members]. change (struct_field range_names (ToValidUTF8 "type")) with (Some "type").
  change (struct_field range_names (ToValidUTF8 "events")) with (Some "events").
  unfold set_range_field. rewrite (bool_decide_true ("type" = "type")), (bool_decide_false ("events" = "type")) by done.
  cbn [dec_string mbind option_bind fst snd empty_range_var]. by rewrite Hsl.
Qed.

(** No key occurs twice in what an event is written as. *)
Context (ev_distinct : forall e, distinct_keys (denote (ev e))).
Context (ev_nesting : forall e, nesting (ev e) = 1%nat).

Lemma ranges_text_parses (l : list feedRange) :
  parse_json (print (TArray (List.map (range_text ev) l))) = Some (denote (TArray (List.map (range_text ev) l))) /\
  distinct_keys (denote (TArray (List.map (range_text ev) l))).
Proof.
  assert (forall es, (nesting (slice_text ev es) <= 2)%nat) as Hes.
  { intros [es|]; cbn [slice_text nesting]; [|lia]. apply le_n_S, list_max_le. rewrite List.map_map.
    apply List.Forall_map, Forall_true. intros e. by rewrite ev_nesting. }
  split.
  - apply parse_print. assert (nesting (TArray (List.map (range_text ev) l)) <= 4)%nat; [|unfold max_nesting_depth; lia].
    cbn [nesting]. apply le_n_S, list_max_le. rewrite List.map_map. apply List.Forall_map, Forall_true. intros r. unfold range_text. cbn [nesting List.map fst snd].
    specialize (Hes (frEvents r)). cbn [list_max foldr]. unfold list_max. cbn [foldr]. lia.
  - cbn [denote]. apply distinct_array. rewrite List.map_map. apply List.Forall_map, Forall_true. intros r. unfold range_text.
    cbn [denote List.map fst snd]. apply distinct_object; [cbn; repeat constructor; set_solver|].
    apply Forall_cons. split; [by apply distinct_atom|]. apply Forall_singleton. cbn [snd]. destruct (frEvents r) as [es|]; [|by apply distinct_atom].
    cbn [slice_text denote]. apply distinct_array. rewrite List.map_map. by apply List.Forall_map, Forall_true.
Qed.

Lemma print_array_brackets items : exists x, print (TArray items) = "[" +:+ x +:+ "]".
Proof. by eexists. Qed.

(** What is read back from the ranges an importer wrote. *)
Lemma stored_ranges_read ranges t :
  jsonb_store (coalesceStoredJSONArray (marshal_ranges ev ranges)) = Some t ->
  TrimSpace t = t /\ present t = true /\ unmarshal_ranges t = Some (written_range w <$> default [] ranges).
Proof.
  unfold marshal_ranges. intros Ht.
  assert (exists l, l = default [] ranges /\ jsonb_store (print (TArray (List.map (range_text ev) l))) = Some t) as (l & <- & Hl).
  { destruct ranges as [l|]; cbn [slice_text] in Ht.
    - exists l. split; [done|]. unfold coalesceStoredJSONArray in Ht. destruct (print_array_brackets (List.map (range_text ev) l)) as [x Hx].
      rewrite Hx, TrimSpace_brackets in Ht. rewrite Hx. by rewrite !bool_decide_false in Ht by done.
    - by exists []. }
  destruct (ranges_text_parses l) as [Hp Hd]. destruct (jsonb_value _ _ _ Hl Hp Hd) as (Htrim & v & Hv & Hsame).
  split; [done|]. cbn [denote] in Hsame. inversion Hsame as [|? l' Hall|]; subst; [done|]. split.
  - unfold present. destruct (bool_decide_reflect (t = "")) as [->|]; [vm_compute in Hv; done|].
    destruct (bool_decide_reflect (t = "null")) as [->|]; [vm_compute in Hv; done|done].
  - unfold unmarshal_ranges, unmarshal. rewrite Hv. cbn [mbind option_bind]. rewrite List.map_map in Hall.
    destruct l as [|r l]; [by inversion Hall|]. destruct l' as [|v' l']; [by inversion Hall|].
    assert (exists cs, dec_elems empty_range_var dec_range (v' :: l') [] = Some cs /\ range_of_var <$> cs = written_range w <$> (r :: l) /\
      length cs = length (v' :: l')) as (cs & Hcs & Hval & Hlen).
    { clear Hv Hsame Hp Hd Hl Ht. revert Hall. generalize (v' :: l') as vs. generalize (r :: l) as rs. induction rs as [|r' rs IH]; intros vs Hall;
        inversion Hall as [|? v1 ? vs' Hv1 Hrest]; subst; [by exists []|]. destruct (range_text_reads _ _ Hv1) as (c & Hc & Hval).
      destruct (IH _ Hrest) as (cs & Hcs & Hvals & Hlen). exists (c :: cs). cbn. rewrite Hc. cbn. rewrite Hcs. cbn. by rewrite Hval, Hvals, Hlen. }
    unfold dec_slice. cbn [backing nil_slice]. rewrite Hcs. cbn [mbind option_bind]. f_equal. unfold elems. cbn [used backing].
    rewrite take_app_le, take_ge by (cbn in *; lia). done.
Qed.
End written.

(** Versions read back as written. *)
Lemma stored_versions_read versions t :
  jsonb_store (coalesceStoredJSONArray (marshal_versions versions)) = Some t ->
  TrimSpace t = t /\ present t = true /\ unmarshal_strings t = Some (ToValidUTF8 <$> default [] versions).
Proof.
  unfold marshal_versions. intros Ht.
  assert (exists l, l = default [] versions /\ jsonb_store (print (TArray (List.map TString l))) = Some t) as (l & <- & Hl).
  { destruct versions as [l|]; cbn [slice_text] in Ht.
    - exists l. split; [done|]. unfold coalesceStoredJSONArray in Ht. destruct (print_array_brackets (List.map TString l)) as [x Hx].
      rewrite Hx, TrimSpace_brackets in Ht. rewrite Hx. by rewrite !bool_decide_false in Ht by done.
    - by exists []. }
  assert (denote (TArray (List.map TString l)) = JArray (JString <$> (ToValidUTF8 <$> l))) as Hden.
  { cbn [denote]. rewrite List.map_map. f_equal. by rewrite <- list_fmap_compose. }
  assert (parse_json (print (TArray (List.map TString l))) = Some (JArray (JString <$> (ToValidUTF8 <$> l)))) as Hp.
  { rewrite <- Hden. apply parse_print. assert (nesting (TArray (List.map TString l)) <= 1)%nat; [|unfold max_nesting_depth; lia].
    cbn [nesting]. apply le_n_S, list_max_le. rewrite List.map_map. apply List.Forall_map, Forall_true. intros s. cbn. lia. }
  destruct (jsonb_value _ _ _ Hl Hp) as (Htrim & v & Hv & Hsame).
  { apply distinct_array. apply Forall_fmap, Forall_true. intros s. by apply distinct_atom. }
  apply same_strings in Hsame as ->. split; [done|]. split.
  - unfold present. destruct (bool_decide_reflect (t = "")) as [->|]; [vm_compute in Hv; done|].
    destruct (bool_decide_reflect (t = "null")) as [->|]; [vm_compute in Hv; done|done].
  - unfold unmarshal_strings, unmarshal. rewrite Hv. cbn [mbind option_bind].
    destruct (dec_slice_same "" dec_string JString (fun s => s) (ToValidUTF8 <$> l) (JString <$> (ToValidUTF8 <$> l))) as (sl & -> & Hel).
    { intros b v' ->%same_string. done. }
    { apply Forall2_same_length_lookup_2; [done|]. intros i x y Hx Hy. assert (x = y) as -> by congruence.
      apply list_lookup_fmap_Some in Hy as (s & -> & _). by apply same_atom. }
    cbn. by rewrite Hel, list_fmap_id.
Qed.

Lemma normalize_present t : TrimSpace t = t -> present t = true -> normalizeVersionConstraintJSONField t = t.
Proof. intros Ht Hp. unfold normalizeVersionConstraintJSONField. rewrite Ht. unfold present in Hp. by destruct (_ || _). Qed.

(** A row reports every version one of its ranges covers or that it lists. *)
Lemma stored_row_affects ev w ranges versions t tv version eco :
  (forall e v, json_same (denote (ev e)) v -> dec_event v empty_event = Some (valid_event (w e))) ->
  (forall e, distinct_keys (denote (ev e))) -> (forall e, nesting (ev e) = 1%nat) ->
  jsonb_store (coalesceStoredJSONArray (marshal_ranges ev ranges)) = Some t ->
  jsonb_store (coalesceStoredJSONArray (marshal_versions versions)) = Some tv ->
  in_ranges version eco (written_range w <$> default [] ranges) \/ listed version eco (ToValidUTF8 <$> default [] versions) ->
  row_affects version eco t tv = true.
Proof.
  intros Hev Hd Hn Ht Htv Haff. unfold row_affects. case_bool_decide; [done|].
  destruct (stored_ranges_read ev w Hev Hd Hn ranges t Ht) as (Htt & Htp & Htr).
  destruct (stored_versions_read versions tv Htv) as (Hvt & Hvp & Hvr).
  unfold versionAffectedWithEcosystem, NormalizeVersionConstraintJSON. rewrite !normalize_present by done.
  pose proof (VersionAffected_ruled_out version t tv eco) as [Hout _]. destruct (VersionAffected version t tv eco) as [affected err].
  cbn [fst] in Hout. destruct affected; [by rewrite orb_true_r|exfalso].
  destruct (proj1 Hout eq_refl) as (rs & vs & Hrs & Hvs & Hnr & Hnl & _).
  unfold advisory_ranges in Hrs. rewrite Htt, Htp in Hrs. unfold advisory_versions in Hvs. rewrite Hvt, Hvp, Hvr in Hvs.
  injection Hvs as <-. destruct Haff as [Hin|Hin]; [|done]. apply Hnr. unfold parseRanges in Hrs. rewrite Htr in Hrs.
  cbn [mbind option_bind] in Hrs. destruct Hin as (r & i & Hr & Hc & Hi & Hw).
  assert (isFlatFormat (written_range w <$> default [] ranges) t = false) as Hflat.
  { unfold isFlatFormat. destruct (written_range w <$> default [] ranges) as [|r' rs'] eqn:Hl; [done|]. rewrite <- Hl.
    replace (existsb _ _) with true; [done|]. symmetry. apply existsb_exists. exists r. rewrite <- list_elem_of_In, Hl. split; [done|].
    destruct (bool_decide_reflect (Events r = [])) as [He|]; [|done]. unfold range_intervals in Hi. rewrite He in Hi. by apply elem_of_nil in Hi. }
  rewrite Hflat in Hrs. injection Hrs as <-. by exists r, i.
Qed.

(** ** Rows of an advisory *)

Definition store_key (id : string) (pkg : AffectedPackage) : option (string * string * string) :=
  eco ← normalizeStoredEcosystem (affEcosystem pkg); Some (id, eco, normalizePackageName eco (affName pkg)).

(** The row of the last package with a key is what is stored. *)
Lemma upsert_packages_last id pkgs pkg rest rows rows' k :
  upsert_packages id (pkgs ++ pkg :: rest) rows = Some rows' -> store_key id pkg = Some k ->
  (forall pkg', pkg' ∈ rest -> store_key id pkg' <> Some k) ->
  exists t tv, rows' !! k = Some (t, tv) /\ jsonb_store (coalesceStoredJSONArray (affVersionRanges pkg)) = Some t /\
    jsonb_store (coalesceStoredJSONArray (affVersionsAffected pkg)) = Some tv.
Proof.
  assert (forall pkg rows rows', upsert_affected id rows pkg = Some rows' ->
    exists k t tv, store_key id pkg = Some k /\ rows' = <[k := (t, tv)]> rows /\
      jsonb_store (coalesceStoredJSONArray (affVersionRanges pkg)) = Some t /\
      jsonb_store (coalesceStoredJSONArray (affVersionsAffected pkg)) = Some tv) as Hone.
  { intros p r r'. unfold upsert_affected, store_key. destruct (normalizeStoredEcosystem (affEcosystem p)) as [eco|]; [|done].
    cbn [mbind option_bind]. destruct (negb _); [done|]. destruct (negb _); [done|].
    destruct (jsonb_store (coalesceStoredJSONArray (affVersionRanges p))) as [t|] eqn:Et; cbn [mbind option_bind]; [|done].
    destruct (jsonb_store (coalesceStoredJSONArray (affVersionsAffected p))) as [tv|] eqn:Etv; cbn [mbind option_bind]; [|done].
    intros [= <-]. by eexists _, t, tv. }
  revert rows. induction pkgs as [|p pkgs IH]; intros rows; cbn [app upsert_packages].
  - destruct (upsert_affected id rows pkg) as [rows1|] eqn:E; [|done]. cbn [mbind option_bind]. intros Hrest Hk Hnot.
    destruct (Hone _ _ _ E) as (k' & t & tv & Hk' & -> & Ht & Htv). assert (k' = k) as -> by congruence. exists t, tv. split; [|done].
    clear E Hk Hk'. assert (forall rows, rows !! k = Some (t, tv) -> upsert_packages id rest rows = Some rows' -> rows' !! k = Some (t, tv)) as Hkeep.
    { clear rows Hrest. induction rest as [|p rest IH]; intros rows Hl; cbn [upsert_packages]; [by intros [= <-]|].
      destruct (upsert_affected id rows p) as [rows1|] eqn:E; [|done]. cbn [mbind option_bind].
      destruct (Hone _ _ _ E) as (k1 & t1 & tv1 & Hk1 & -> & _). apply IH; [intros; apply Hnot; by right|].
      rewrite lookup_insert_ne; [done|]. intros ->. by apply (Hnot p); [left|]. }
    apply Hkeep in Hrest; [done|]. by rewrite lookup_insert_eq.
  - destruct (upsert_affected id rows p) as [rows1|]; [|done]. cbn. apply IH.
Qed.

(** An advisory that is stored and not withdrawn is found for a version its row
    reports. *)
Lemma stored_advisory_found (order_rows : list (string * VulnRow) -> list (string * VulnRow)) resources_of vuln d d' eco name version t tv :
  (forall l, order_rows l ≡ₚ l) ->
  upsertVulnerabilityTx vuln d = Some d' -> vWithdrawn vuln = None ->
  affected_packages d' !! (vID vuln, eco, normalizePackageName eco name) = Some (t, tv) -> row_affects version eco t tv = true ->
  exists f, f ∈ FindVulnerabilities order_rows resources_of eco name version d' /\ fAdvisoryID f = vID vuln /\ fVersion f = version.
Proof.
  intros Hperm Hup Hw Hrow Haff. unfold upsertVulnerabilityTx in Hup. destruct (normalizeVulnerabilitySeverity _) as [sev|]; [|done].
  cbn [mbind option_bind] in Hup. destruct (manual_ids_ok vuln); cbn [negb] in Hup; [|done]. cbv zeta in Hup.
  destruct (upsert_sources _ _) as [sources|]; [|done]. cbn in Hup. destruct (upsert_packages _ _ _) as [rows|]; [|done]. cbn in Hup.
  injection Hup as <-. set (core := upsert_core _ _ _) in *.
  set (d' := mk_pg _ _ _ _ _) in *. exists (row_finding resources_of eco (normalizePackageName eco name) version d' (vID vuln, core) t).
  split; [|done]. unfold FindVulnerabilities. cbv zeta. apply list_elem_of_bind. exists (vID vuln, core). rewrite Hperm. split.
  - cbn [fst]. rewrite Hrow, Haff. by left.
  - apply list_elem_of_filter. cbn [fst snd]. split.
    + split; [|by rewrite Hrow]. unfold core, upsert_core. by destruct (vulnerabilities d !! _).
    + apply range_map_elem. cbn. by rewrite lookup_insert_eq.
Qed.
End rows.

(** ** Merging the entries of a GitHub advisory *)

Section merging.
Context {U : UnicodeCase}.

Lemma lookup_pairs_elem key l v : lookup_pairs key l = Some v -> (key, v) ∈ l.
Proof.
  induction l as [|[k x] l IH]; cbn; [done|]. case_bool_decide; [intros [= ->]; subst; left|right; auto].
Qed.

(** The ecosystems of the feeds are stored as they are. *)
Lemma ghsa_ecosystem_stored g eco : MapGHSAEcosystem g = Some eco -> eco <> "" /\ normalizeStoredEcosystem eco = Some eco.
Proof.
  intros H%lookup_pairs_elem.
  assert (Forall (fun p => p.2 <> "" /\ normalizeStoredEcosystem p.2 = Some p.2) ghsaEcosystemMap) as Hall
    by (repeat constructor; vm_compute; done).
  rewrite Forall_forall in Hall. apply (Hall _ H).
Qed.

Lemma osv_ecosystem_stored g eco : MapOSVEcosystem g = Some eco -> normalizeStoredEcosystem eco = Some eco.
Proof.
  intros H%lookup_pairs_elem.
  assert (Forall (fun p => normalizeStoredEcosystem p.2 = Some p.2) osvEcosystemMap) as Hall by (repeat constructor; vm_compute; done).
  rewrite Forall_forall in Hall. apply (Hall _ H).
Qed.

Lemma add_versions_elem seen versions v : v ∈ add_versions seen versions <-> v ∈ seen \/ v ∈ versions.
Proof.
  revert seen. induction versions as [|x versions IH]; intros seen; [unfold add_versions; cbn; set_solver|].
  change (add_versions seen (x :: versions)) with (add_versions (if bool_decide (x ∈ seen) then seen else seen ++ [x]) versions).
  rewrite IH. case_bool_decide; set_solver.
Qed.

(** What the entries read so far left: every package once, in order, and its
    ranges and versions among those collected. *)
Definition merge_ok (l : list ghsaAffected) (st : merge_state) : Prop :=
  NoDup st.1 /\ (forall key, key ∈ st.1 <-> is_Some (st.2 !! key)) /\
  (forall key, key ∈ st.1 -> exists aff, aff ∈ l /\ MapGHSAEcosystem (gaEcosystem aff) = Some key.1 /\ gaName aff = key.2) /\
  (forall aff (eco : string), aff ∈ l -> MapGHSAEcosystem (gaEcosystem aff) = Some eco ->
     exists m, st.2 !! (eco, gaName aff) = Some m /\
       normalizeAffectedRanges (gaRanges aff) (gaDatabaseSpecific aff) ⊆ mgRanges m /\ gaVersions aff ⊆ mgVersions m).

Lemma merge_affected_ok l st aff : merge_ok l st -> merge_ok (l ++ [aff]) (merge_affected st aff).
Proof.
  intros (Hnd & Hdom & Hfrom & Hall). unfold merge_affected. destruct (MapGHSAEcosystem (gaEcosystem aff)) as [eco|] eqn:He; [|].
  2: { split; [done|]. split; [done|]. split.
       - intros key Hk. destruct (Hfrom key Hk) as (a & Ha & ?). exists a. split; [set_solver|done].
       - intros a eco Ha Heco. apply elem_of_app in Ha as [Ha| ->%list_elem_of_singleton]; [by apply Hall|congruence]. }
  destruct (ghsa_ecosystem_stored _ _ He) as [Hne _]. rewrite bool_decide_false by done.
  set (key := (eco, gaName aff) : string * string). set (nr := normalizeAffectedRanges _ _).
  destruct (st.2 !! key) as [m0|] eqn:Hm.
  - set (m := mk_merged _ _). split; [done|]. cbn [fst snd]. split; [|split].
    + intros k. rewrite Hdom. destruct (decide (k = key)) as [Hk|]; [|by rewrite lookup_insert_ne].
      rewrite Hk, lookup_insert_eq. split; intros _; [by exists m|by exists m0].
    + intros k Hk. destruct (Hfrom k Hk) as (a & Ha & ?). exists a. split; [set_solver|done].
    + intros a eco' Ha Heco. destruct (decide ((eco', gaName a) = key)) as [Hk|Hk].
      * rewrite Hk, lookup_insert_eq. exists m. split; [done|]. apply elem_of_app in Ha as [Ha| ->%list_elem_of_singleton].
        -- destruct (Hall a eco' Ha Heco) as (m' & Hm' & Hr & Hv). rewrite Hk, Hm in Hm'. injection Hm' as <-. cbn. split; [intros r' Hr'; apply elem_of_app; left; by apply Hr|].
           intros v Hv'. apply add_versions_elem. left. by apply Hv.
        -- cbn. split; [intros r' Hr'; apply elem_of_app; by right|]. intros v Hv'. apply add_versions_elem. by right.
      * rewrite lookup_insert_ne by done. apply elem_of_app in Ha as [Ha| ->%list_elem_of_singleton]; [by apply Hall|].
        rewrite He in Heco. by injection Heco as <-.
  - set (m := mk_merged _ _). assert (key ∉ st.1) as Hnew. { intros [m' Hm']%Hdom. by pose proof (eq_trans (eq_sym Hm) Hm'). }
    split; [apply NoDup_app; split; [done|]; split; [set_solver|apply NoDup_singleton]|]. cbn [fst snd]. split; [|split].
    + intros k. rewrite elem_of_app, list_elem_of_singleton, Hdom. destruct (decide (k = key)) as [Hk|].
      * rewrite Hk, lookup_insert_eq. split; eauto.
      * rewrite lookup_insert_ne by done. naive_solver.
    + intros k Hk. apply elem_of_app in Hk as [Hk| ->%list_elem_of_singleton].
      * destruct (Hfrom k Hk) as (a & Ha & ?). exists a. split; [set_solver|done].
      * exists aff. split; [set_solver|done].
    + intros a eco' Ha Heco. destruct (decide ((eco', gaName a) = key)) as [Hk|Hk].
      * rewrite Hk, lookup_insert_eq. exists m. split; [done|]. apply elem_of_app in Ha as [Ha| ->%list_elem_of_singleton].
        -- destruct (Hall a eco' Ha Heco) as (m' & Hm' & _). congruence.
        -- cbn. split; [done|]. intros v Hv'. apply add_versions_elem. by right.
      * rewrite lookup_insert_ne by done. apply elem_of_app in Ha as [Ha| ->%list_elem_of_singleton]; [by apply Hall|].
        rewrite He in Heco. by injection Heco as <-.
Qed.

Lemma merged_ok l : merge_ok l (fold_left merge_affected l ([], ∅)).
Proof.
  induction l as [|aff l IH] using rev_ind.
  - split; [constructor|]. split; [|split].
    + intros key. cbn. rewrite lookup_empty. split; [by intros ?%elem_of_nil|by intros [? ?]].
    + by intros key ?%elem_of_nil.
    + by intros aff eco ?%elem_of_nil.
  - rewrite fold_left_app. cbn [fold_left]. by apply merge_affected_ok.
Qed.

Lemma in_ranges_mono v eco l l' : l ⊆ l' -> in_ranges v eco l -> in_ranges v eco l'.
Proof. intros Hsub (r & i & Hr & ?). exists r, i. split; [by apply Hsub|done]. Qed.

Lemma listed_mono v eco l l' : l ⊆ l' -> listed v eco l -> listed v eco l'.
Proof. intros Hsub (c & Hc & ?). exists c. split; [by apply Hsub|done]. Qed.
End merging.

(** ** From an import to a lookup *)

Section imports.
Context {U : UnicodeCase} {J : Jsonb} {RP : ReferencePolicy} {O : MapOrder}.

(** PostgreSQL as the importers see it, at a time. *)
Definition pg_store (now : Time) : AdvisoryStore PgDB := {|
  store_UpsertVulnerability := UpsertVulnerability;
  store_DeleteVulnerabilityForSource := deleteVulnerabilityForSourceTx now
|}.

Lemma ghsa_event_distinct e : distinct_keys (denote (ghsa_event_text e)).
Proof. apply distinct_object; [change (NoDup ["introduced"; "fixed"; "last_affected"]); decided|]. repeat constructor. Qed.

Lemma osv_event_distinct e : distinct_keys (denote (event_text e)).
Proof. apply distinct_object; [change (NoDup ["introduced"; "fixed"; "last_affected"; "limit"]); decided|]. repeat constructor. Qed.

(** A package of a list without repeated keys, and what comes after it. *)
Lemma merged_row_split (st : merge_state) key : NoDup st.1 -> key ∈ st.1 ->
  exists l1 l2, merged_row st <$> st.1 = (merged_row st <$> l1) ++ merged_row st key :: (merged_row st <$> l2) /\ key ∉ l2 /\ l2 ⊆ st.1.
Proof.
  intros Hnd (l1 & l2 & Hl)%list_elem_of_split. exists l1, l2. rewrite Hl in *. rewrite fmap_app. split; [done|].
  apply NoDup_app in Hnd as (_ & _ & Hnd). apply NoDup_cons in Hnd as [Hnot _]. split; [done|]. set_solver.
Qed.

(** The row written for a package that no other spelling of its name shares. *)
Lemma merged_row_stored id (l : list ghsaAffected) aff (eco : string) rows rows' :
  (forall a1 a2 e, a1 ∈ l -> a2 ∈ l -> MapGHSAEcosystem (gaEcosystem a1) = Some e -> MapGHSAEcosystem (gaEcosystem a2) = Some e ->
     normalizePackageName e (gaName a1) = normalizePackageName e (gaName a2) -> gaName a1 = gaName a2) ->
  aff ∈ l -> MapGHSAEcosystem (gaEcosystem aff) = Some eco ->
  let st := fold_left merge_affected l ([], ∅) in
  upsert_packages id (merged_row st <$> st.1) rows = Some rows' ->
  exists m t tv, st.2 !! (eco, gaName aff) = Some m /\
    normalizeAffectedRanges (gaRanges aff) (gaDatabaseSpecific aff) ⊆ mgRanges m /\ gaVersions aff ⊆ mgVersions m /\
    rows' !! (id, eco, normalizePackageName eco (gaName aff)) = Some (t, tv) /\
    jsonb_store (coalesceStoredJSONArray (marshal_ranges ghsa_event_text (appended (mgRanges m)))) = Some t /\
    jsonb_store (coalesceStoredJSONArray (marshal_versions (appended (mgVersions m)))) = Some tv.
Proof.
  intros Hsame Haff Heco st Hup. destruct (merged_ok l) as (Hnd & Hdom & Hfrom & Hall). fold st in Hnd, Hdom, Hfrom, Hall.
  destruct (Hall aff eco Haff Heco) as (m & Hm & Hr & Hv). assert ((eco, gaName aff) ∈ st.1) as Hin by (apply Hdom; by exists m).
  assert (forall key, key ∈ st.1 -> store_key id (merged_row st key) = Some (id, key.1, normalizePackageName key.1 key.2)) as Hkey.
  { intros [e n] (a & _ & Ha & _)%Hfrom. unfold store_key. cbn [merged_row affEcosystem affName fst snd] in *.
    by rewrite (proj2 (ghsa_ecosystem_stored _ _ Ha)). }
  destruct (merged_row_split st _ Hnd Hin) as (l1 & l2 & Hl & Hnot & Hsub). rewrite Hl in Hup.
  destruct (upsert_packages_last id _ _ _ _ _ _ Hup (Hkey _ Hin)) as (t & tv & Hrow & Ht & Htv).
  - intros pkg (key & -> & Hk)%list_elem_of_fmap. rewrite (Hkey key) by (by apply Hsub). intros [= He Hn].
    destruct (Hfrom key) as (a & Ha & Hae & Han); [by apply Hsub|]. destruct key as [e n]. cbn [fst snd] in *. subst e n.
    apply Hnot. by rewrite <- (Hsame a aff eco Ha Haff Hae Heco Hn).
  - exists m, t, tv. unfold merged_row in Ht, Htv. rewrite Hm in Ht, Htv. done.
Qed.

Lemma default_appended {A} (l : list A) : default [] (appended l) = l.
Proof. by destruct l. Qed.


(** *** The OSV importer

    Every entry is a row of its own, and the last entry of a package is the row
    that stays. *)

Context (M : MaliciousStore PgDB).

Lemma omap_split {A B} (f : A -> option B) l1 a b l2 : f a = Some b -> omap f (l1 ++ a :: l2) = omap f l1 ++ b :: omap f l2.
Proof. intros Hf. rewrite omap_app. cbn. by rewrite Hf. Qed.

(** A version is found when the last entry of its package reports it. *)
Lemma osv_import_detects order_rows resources_of now data entry l1 aff l2 eco version d d' r :
  (forall l, order_rows l ≡ₚ l) -> default "" (oeWithdrawn entry) = "" ->
  oeAffected entry = l1 ++ aff :: l2 -> MapOSVEcosystem (strip_scope (opEcosystem (oaPackage aff))) = Some eco ->
  (forall a, a ∈ l2 -> MapOSVEcosystem (strip_scope (opEcosystem (oaPackage a))) = Some eco ->
     normalizePackageName eco (opName (oaPackage a)) <> normalizePackageName eco (opName (oaPackage aff))) ->
  @import_entry U O PgDB (pg_store now) M entry data d = (r, d') -> osvOutcome r = osvEntryOutcomeVulnerability ->
  in_ranges version eco (written_range (fun e => e) <$> default [] (OsvFeed.normalizeAffectedRanges aff)) \/
  listed version eco (ToValidUTF8 <$> default [] (oaVersions aff)) ->
  exists f, f ∈ FindVulnerabilities order_rows resources_of eco (opName (oaPackage aff)) version d' /\
    fAdvisoryID f = oeID entry /\ fVersion f = version.
Proof.
  intros Hperm Hblank Hl Heco Hlast Himp Hout Haff. unfold import_entry in Himp.
  destruct (HasPrefix (oeID entry) "MAL-"); [injection Himp as <- <-; done|].
  destruct (match oeWithdrawn entry with Some w => _ | None => false end) eqn:Hw.
  { destruct (OsvFeed.DeleteVulnerabilityForSource _ _ _) as [[] ?]; injection Himp as <- <-; done. }
  destruct (mapToMaliciousFindings entry) as [|mal mals].
  2: { destruct (OsvFeed.DeleteVulnerabilityForSource _ _ _) as [ok s]. destruct (upsert_findings _ _ _ _) as [[synced errors] s'].
       injection Himp as <- <-. cbn in Hout. by destruct (0 <? errors). }
  cbn [store_UpsertVulnerability pg_store] in Himp. unfold UpsertVulnerability in Himp. set (vuln := OsvFeed.mapToVulnerability entry data) in *.
  destruct (upsertVulnerabilityTx vuln d) as [d1|] eqn:Hup; [|injection Himp as <- <-; done]. injection Himp as _ ->.
  assert (vWithdrawn vuln = None) as Hnone.
  { cbn. destruct (oeWithdrawn entry) as [w|]; [|done]. cbn in Hblank. subst w. done. }
  pose proof Hup as Htx. unfold upsertVulnerabilityTx in Htx.
  destruct (normalizeVulnerabilitySeverity _); [|done]. cbn [mbind option_bind] in Htx. destruct (negb _); [done|]. cbv zeta in Htx.
  destruct (upsert_sources _ _); [|done]. cbn [mbind option_bind] in Htx.
  destruct (upsert_packages _ _ _) as [rows|] eqn:Hrows; [|done]. cbn [mbind option_bind] in Htx. injection Htx as Hd'.
  assert (affected_row aff = Some (mk_affected eco (opName (oaPackage aff)) (marshal_ranges event_text (OsvFeed.normalizeAffectedRanges aff))
          (marshal_versions (oaVersions aff)))) as Hrow by (unfold affected_row; by rewrite Heco).
  cbn [vuln OsvFeed.mapToVulnerability vAffectedPackages vID] in Hrows. rewrite Hl, (omap_split _ _ _ _ _ Hrow) in Hrows.
  destruct (upsert_packages_last _ _ _ _ _ _ (oeID entry, eco : string, normalizePackageName eco (opName (oaPackage aff))) Hrows)
    as (t & tv & Hstored & Ht & Htv).
  - unfold store_key. cbn [affEcosystem affName]. by rewrite (osv_ecosystem_stored _ _ Heco).
  - intros pkg (a & Ha & Harow)%list_elem_of_omap. unfold affected_row in Harow.
    destruct (MapOSVEcosystem (strip_scope (opEcosystem (oaPackage a)))) as [eco'|] eqn:He; [|done]. injection Harow as <-.
    unfold store_key. cbn [affEcosystem affName]. rewrite (osv_ecosystem_stored _ _ He). cbn [mbind option_bind]. intros [= -> Hn].
    by apply (Hlast a).
  - apply (stored_advisory_found order_rows resources_of vuln d d' eco (opName (oaPackage aff)) version t tv Hperm Hup Hnone).
    + by rewrite <- Hd'.
    + by apply (stored_row_affects event_text (fun e => e) _ _ t tv version eco event_text_reads osv_event_distinct (fun _ => eq_refl) Ht Htv).
Qed.
End imports.

(** ** A database that keeps texts as they are *)

Lemma json_same_refl v : json_same v v.
Proof.
  revert v. fix IH 1. intros [|b|n|s|l|m]; try by apply same_atom.
  - apply same_array. induction l as [|x l IHl]; constructor; [apply IH|apply IHl].
  - apply (same_object m m m); [|done]. induction m as [|[k x] m IHm]; constructor; [split; [done|apply IH]|apply IHm].
Qed.

(** It refuses texts with white space around them. *)
Definition text_store (t : string) : option string := if bool_decide (TrimSpace t = t) then Some t else None.

Lemma text_store_value t t' v : text_store t = Some t' -> parse_json t = Some v -> distinct_keys v ->
  TrimSpace t' = t' /\ exists v', parse_json t' = Some v' /\ json_same v v'.
Proof. unfold text_store. case_bool_decide; [|done]. intros [= <-] Hv _. split; [done|]. exists v. split; [done|apply json_same_refl]. Qed.

#[local] Instance feeds_text : Jsonb := {| jsonb_store := text_store; jsonb_value := text_store_value |}.
#[local] Instance feeds_references : ReferencePolicy := {| shouldStoreVulnerabilityReference := fun _ => true |}.
#[local] Instance detect_case : UnicodeCase := plain_case.
#[local] Instance detect_order : MapOrder := listed_order.

(** Two ranges of a package in two entries. *)
Definition split_document : string :=
  "{'id':'GHSA-1','database_specific':{'severity':'HIGH'},'affected':[{'package':{'ecosystem':'npm','name':'left'},'ranges':[{'type':'SEMVER','events':[{'introduced':'1.0.0'},{'fixed':'1.2.0'}]}]},{'package':{'ecosystem':'npm','name':'left'},'ranges':[{'type':'SEMVER','events':[{'introduced':'2.0.0'},{'fixed':'2.1.0'}]}]}]}".

(** The document in quotation marks. *)
Fixpoint quoted (s : string) : string :=
  match s with
  | EmptyString => EmptyString
  | String c s => String (if bool_decide (c = "'"%char) then "034"%char else c) (quoted s)
  end.

Definition detect_npm (advisory version : string) (d : PgDB) : bool :=
  existsb (fun f => bool_decide (fAdvisoryID f = advisory)) (FindVulnerabilities (fun l => l) (fun _ _ _ => []) "npm" "left" version d).

Definition ghsa_split : bool * PgDB := @import_advisory _ _ PgDB (pg_store 0) (quoted split_document) empty_pg.

Definition split_advisory : ghsaAdvisory :=
  default (advisory_value (mk_ghsa_entry zero_entry nil_slice None)) (unmarshal_advisory (quoted split_document)).

Definition first_entry : ghsaAffected := default (ghsa_affected_value zero_ghsa_cell) (head (gAffected split_advisory)).

Definition no_malicious : MaliciousStore PgDB := {| store_UpsertMaliciousFinding := fun _ d => (true, d) |}.

Definition osv_split : osvEntryProcessResult * PgDB := @processOSVEntry _ _ PgDB (pg_store 0) no_malicious (Some (quoted split_document)) empty_pg.

(** The same document through both importers: the OSV importer loses the first
    range, and the version it covers is not reported. *)
Lemma osv_split_package_missed :
  ghsa_split.1 = true /\ osvOutcome osv_split.1 = osvEntryOutcomeVulnerability /\
  detect_npm "GHSA-1" "1.1.0" ghsa_split.2 = true /\ detect_npm "GHSA-1" "2.0.5" ghsa_split.2 = true /\
  detect_npm "GHSA-1" "1.1.0" osv_split.2 = false /\ detect_npm "GHSA-1" "2.0.5" osv_split.2 = true.
Proof. vm_compute. repeat split. Qed.

