(* ===== verification/Correlation.v ===== *)
(** Correlation identifiers: internal/correlation. *)
From stdpp Require Import base list option strings.
From Stdlib Require Import Ascii ZArith Lia.
From S2P Require Import Prelude GoStrings Json JsonEncode.

Definition correlation_Header : string := "X-Correlation-ID".

Definition lower_hex (c : ascii) : bool := in_range 48 57 c || in_range 97 102 c.

(** One group of the pattern: [n] digits, then [rest] matches what follows. *)
Fixpoint hex_group (n : nat) (rest : string -> bool) (s : string) : bool :=
  match n, s with
  | O, _ => rest s
  | S n', String c s' => lower_hex c && hex_group n' rest s'
  | S _, EmptyString => false
  end.

Definition hyphen (rest : string -> bool) (s : string) : bool :=
  match s with
  | String c s' => bool_decide (c = "-"%char) && rest s'
  | EmptyString => false
  end.

Definition at_end (s : string) : bool := bool_decide (s = "").

(** ^[0-9a-f]{8}-[0-9a-f]{4}-[0-9a-f]{4}-[0-9a-f]{4}-[0-9a-f]{12}$ *)
Definition correlation_Valid : string -> bool :=
  hex_group 8 (hyphen (hex_group 4 (hyphen (hex_group 4 (hyphen (hex_group 4 (hyphen (hex_group 12 at_end)))))))).

(** [%x] of bytes. *)
Definition hex_byte (b : Z) : string := String (hex_digit (b / 16)) (String (hex_digit (b mod 16)) "").
Definition hex_bytes (bs : list Z) : string := String.concat "" (hex_byte <$> bs).

(** Sixteen bytes. *)
Definition formatUUIDV4 (bs : list Z) : string :=
  let bs := alter (fun b => Z.lor (Z.land b 15) 64) 6%nat bs in
  let bs := alter (fun b => Z.lor (Z.land b 63) 128) 8%nat bs in
  hex_bytes (take 4 bs) +:+ "-" +:+ hex_bytes (take 2 (drop 4 bs)) +:+ "-" +:+ hex_bytes (take 2 (drop 6 bs)) +:+ "-" +:+
  hex_bytes (take 2 (drop 8 bs)) +:+ "-" +:+ hex_bytes (take 6 (drop 10 bs)).

(** [entropy]: the bytes the reader gives, or its error. *)
Definition NewIDFromReader (entropy : string + list Z) : string + string :=
  match entropy with
  | inl e => inl ("correlation id entropy: " +:+ e)
  | inr bs => inr (formatUUIDV4 bs)
  end.

(** binary.BigEndian.PutUint64 *)
Definition big_endian (z : Z) : list Z := (fun i => z / 2 ^ (8 * Z.of_nat i) mod 256) <$> reverse (seq 0 8).

(** The identifier and the process counter afterwards. *)
Definition FallbackID (unixNano counter : Z) : string * Z :=
  let counter := (counter + 1) mod 2 ^ 64 in
  (formatUUIDV4 (big_endian (unixNano mod 2 ^ 64) ++ big_endian counter), counter).

(** ** Lemmas *)

Definition is_byte (b : Z) : Prop := 0 <= b < 256.

Lemma hex_digit_lower n : 0 <= n < 16 -> lower_hex (hex_digit n) = true.
Proof.
  intros Hn. unfold hex_digit, lower_hex, in_range. destruct (Z.ltb_spec n 10); rewrite code_byte by lia; rewrite orb_true_iff, !andb_true_iff, !Z.leb_le; lia.
Qed.

Lemma hex_group_bytes bs n rest s : Forall is_byte bs -> n = (2 * length bs)%nat ->
  hex_group n rest (hex_bytes bs +:+ s) = rest s.
Proof.
  intros Hbs ->. unfold hex_bytes. induction Hbs as [|b bs Hb _ IH]; [done|].
  replace (2 * length (b :: bs))%nat with (S (S (2 * length bs))) by (cbn; lia).
  assert (String.concat "" (hex_byte <$> b :: bs) = hex_byte b +:+ String.concat "" (hex_byte <$> bs)) as ->.
  { cbn. by destruct (hex_byte <$> bs). }
  unfold hex_byte at 1. unfold is_byte in Hb. rewrite <- IH.
  change ((String ?x (String ?y "") +:+ ?t) +:+ s) with (String x (String y (t +:+ s))). cbn [hex_group].
  assert (0 <= b / 16 < 16) by (split; [apply Z.div_pos; lia|apply Z.div_lt_upper_bound; lia]).
  pose proof (Z.mod_pos_bound b 16 ltac:(lia)). by rewrite !hex_digit_lower by lia.
Qed.

Lemma alter_bytes f i bs : (forall b, is_byte b -> is_byte (f b)) -> Forall is_byte bs -> Forall is_byte (alter f i bs).
Proof. intros Hf Hbs. apply Forall_alter; [done|]. intros x _ Hx. by apply Hf. Qed.

Lemma masked_byte b mask bits : 0 <= mask < 256 -> 0 <= bits < 256 -> is_byte b -> is_byte (Z.lor (Z.land b mask) bits).
Proof.
  intros Hm Hbits Hb. unfold is_byte in *. split; [apply Z.lor_nonneg; split; [apply Z.land_nonneg; lia|lia]|].
  assert (0 <= Z.land b mask < 2 ^ 8) as Hl.
  { split; [apply Z.land_nonneg; lia|]. rewrite <- (Z.mod_small b (2 ^ 8)), <- Z.land_ones by lia.
    rewrite <- Z.land_assoc, (Z.land_comm (Z.ones 8)), Z.land_assoc, Z.land_ones by lia. apply Z.mod_pos_bound. lia. }
  change 256 with (2 ^ 8) in *. destruct (Z.eq_dec (Z.lor (Z.land b mask) bits) 0) as [->|Hne]; [lia|].
  apply Z.log2_lt_pow2; [assert (0 <= Z.lor (Z.land b mask) bits) by (apply Z.lor_nonneg; lia); lia|].
  rewrite Z.log2_lor by lia.
  apply Z.max_lub_lt; [destruct (Z.eq_dec (Z.land b mask) 0) as [->|]|destruct (Z.eq_dec bits 0) as [->|]]; try (cbn; lia);
    apply Z.log2_lt_pow2; lia.
Qed.

Lemma formatUUIDV4_valid bs : length bs = 16%nat -> Forall is_byte bs -> correlation_Valid (formatUUIDV4 bs) = true.
Proof.
  intros Hlen Hbs. unfold formatUUIDV4. cbv zeta.
  set (c := alter _ 8%nat _).
  assert (length c = 16%nat) as Hc by (unfold c; by rewrite !length_alter).
  assert (Forall is_byte c) as Hcb.
  { unfold c. apply alter_bytes; [intros b; apply masked_byte; lia|]. apply alter_bytes; [intros b; apply masked_byte; lia|done]. }
  unfold correlation_Valid.
  assert (forall n k, (k + n <= 16)%nat -> Forall is_byte (take n (drop k c)) /\ length (take n (drop k c)) = n) as Hpart.
  { intros n k Hk. split; [by apply Forall_take, Forall_drop|]. rewrite length_take, length_drop. lia. }
  rewrite hex_group_bytes; [|by apply Forall_take|rewrite length_take; lia]. change (hyphen ?k ("-" +:+ ?t)) with (bool_decide ("-"%char = "-"%char) && k t). rewrite bool_decide_true by done. cbn [andb].
  do 3 (rewrite hex_group_bytes; [|by apply Forall_take, Forall_drop|rewrite length_take, length_drop; lia];
    change (hyphen ?k ("-" +:+ ?t)) with (bool_decide ("-"%char = "-"%char) && k t); rewrite bool_decide_true by done; cbn [andb]).
  rewrite <- (str_app_nil (hex_bytes (take 6 (drop 10 c)))).
  rewrite hex_group_bytes; [done|by apply Forall_take, Forall_drop|rewrite length_take, length_drop; lia].
Qed.

Lemma big_endian_bytes z : Forall is_byte (big_endian z) /\ length (big_endian z) = 8%nat.
Proof.
  split; [|done]. unfold big_endian. apply Forall_fmap, Forall_forall. intros i _. apply Z.mod_pos_bound. lia.
Qed.

(** Identifiers made here are ones the validator accepts, from entropy or from
    the clock. *)
Lemma new_ids_valid entropy unixNano counter :
  (forall bs, entropy = inr bs -> length bs = 16%nat /\ Forall is_byte bs) ->
  match NewIDFromReader entropy with inr id => correlation_Valid id = true | inl _ => exists e, entropy = inl e end /\
  correlation_Valid (FallbackID unixNano counter).1 = true.
Proof.
  intros Hent. split.
  - destruct entropy as [e|bs]; cbn; [eauto|]. by apply formatUUIDV4_valid; apply Hent.
  - cbn [FallbackID fst]. destruct (big_endian_bytes (unixNano mod 2 ^ 64)), (big_endian_bytes ((counter + 1) mod 2 ^ 64)).
    apply formatUUIDV4_valid; [rewrite length_app; lia|by apply Forall_app].
Qed.
