(* ===== verification/Scanner.v ===== *)
(** The scan pipeline of the command line: internal/scanner/scanner.go,
    parse_diagnostics.go and db_adapter.go.

    Packages are collected, checked by the server or against the local database,
    and the findings decide the exit code.  The network is a step of a world:
    an exchange takes a request and gives an answer or an error.  Text that is
    only shown - redacted URLs, snippets of error bodies, messages of
    encoding/json - comes from an interface. *)
From stdpp Require Import base list option strings gmap.
From Stdlib Require Import Ascii ZArith Lia.
From S2P Require Import Prelude GoStrings GoNumbers AsciiText Json Collections JsonEncode Domain JsonMaps JsonRender GoTime.
From S2P Require Import Lockfiles ScanCollect Advisories LocalStore LocalBatch CheckRequest CheckHandler CheckWire Correlation.

(** ** Modes and exit codes *)

Definition ScanMode := string.
Definition ModeAuto : ScanMode := "auto".
Definition ModeRemote : ScanMode := "remote".
Definition ModeLocal : ScanMode := "local".

Definition ScanFeedStatusHealthy : string := "healthy".
Definition ScanFeedStatusDegraded : string := "degraded".
Definition ScanFeedStatusError : string := "error".

Definition ExitOK : Z := 0.
Definition ExitBlocking : Z := 1.
Definition ExitOperational : Z := 2.
Definition ExitUnderThreshold : Z := 3.
Definition ExitParser : Z := 4.

Definition maxRemoteCheckResponseSize : Z := 32 * 2 ^ 20.
Definition maxRemoteErrorBodySize : Z := 8 * 2 ^ 10.
Definition reversingLabsReputationSource : string := "reversinglabs".

Record RepoInfo := mk_repo_info { riName : string; riBranch : string; riCommit : string }.

(** [scPath] is the absolute, clean path of the project; the SBOM files come
    with what reading them gives. *)
Record Config := mk_scan_config {
  scPath : string;
  scMode : string;
  scServerURL : string;
  scAPIKey : string;
  scRepo : option RepoInfo;
  scOmitRepoMetadata : bool;
  scFailOn : Severity;
  scEcosystems : list string;
  scSBOMFiles : list sbom_input;
  scMaxDepth : Z;
  scIncludeDev : bool;
  scInventoryAllPackages : bool;
  scVersion : string;
  scCACertFile : string;
  scAllowInsecureHTTP : bool;
  scRequireRemote : bool
}.

(** ** Local checking *)

Record PackageLookup := mk_lookup { plEcosystem : string; plName : string; plVersion : string }.

Record BatchLocalChecker := mk_batch_checker {
  lcVulnerabilitiesBatch : list PackageLookup -> string + list Finding;
  lcMaliciousBatch : list PackageLookup -> string + list Finding
}.

(** A local checker; the batch lookups are optional. *)
Record LocalChecker := mk_checker {
  lcVulnerabilities : string -> string -> string -> string + list Finding;
  lcMalicious : string -> string -> string -> string + list Finding;
  lcReputationBatch : list PackageLookup -> string -> string + list Finding;
  lcLifecycleBatch : list PackageLookup -> Time -> string + list Finding;
  lcBatch : option BatchLocalChecker
}.

Definition packageQueries (pkgs : list Package) : list PackageLookup :=
  (fun pkg => mk_lookup (pkgEcosystem pkg) (pkgName pkg) (pkgVersion pkg)) <$> pkgs.

(** [Version] of a malicious finding is that of the package. *)
Definition set_finding_version (version : string) (f : Finding) : Finding :=
  mk_finding (fName f) version (fEcosystem f) (fType f) (fSeverity f) (fAdvisoryID f) (fTitle f) (fURL f) (fResources f)
    (fFixedVersion f) (fRiskType f) (fSource f) (fLocations f).

Fixpoint check_each (lc : LocalChecker) (pkgs : list Package) : string + list Finding :=
  match pkgs with
  | [] => inr []
  | pkg :: rest =>
      let eco := pkgEcosystem pkg in
      match lcVulnerabilities lc eco (pkgName pkg) (pkgVersion pkg) with
      | inl e => inl ("local vuln check " +:+ eco +:+ "/" +:+ pkgName pkg +:+ ": " +:+ e)
      | inr vulns =>
          match lcMalicious lc eco (pkgName pkg) (pkgVersion pkg) with
          | inl e => inl ("local malicious check " +:+ eco +:+ "/" +:+ pkgName pkg +:+ ": " +:+ e)
          | inr mals =>
              match check_each lc rest with
              | inl e => inl e
              | inr found => inr (vulns ++ (set_finding_version (pkgVersion pkg) <$> mals) ++ found)
              end
          end
      end
  end.

Definition advisories_of (lc : LocalChecker) (pkgs : list Package) : string + list Finding :=
  match lcBatch lc with
  | Some batch =>
      match lcVulnerabilitiesBatch batch (packageQueries pkgs) with
      | inl e => inl ("local vuln batch check: " +:+ e)
      | inr vulns =>
          match lcMaliciousBatch batch (packageQueries pkgs) with
          | inl e => inl ("local malicious batch check: " +:+ e)
          | inr mals => inr (vulns ++ mals)
          end
      end
  | None => check_each lc pkgs
  end.

Definition checkLocal (now : Time) (lc : LocalChecker) (pkgs : list Package) : string + list Finding :=
  match advisories_of lc pkgs with
  | inl e => inl e
  | inr found =>
      match lcReputationBatch lc (packageQueries pkgs) reversingLabsReputationSource with
      | inl e => inl ("local reputation batch check: " +:+ e)
      | inr reputation =>
          match lcLifecycleBatch lc (packageQueries pkgs) now with
          | inl e => inl ("local lifecycle check: " +:+ e)
          | inr lifecycle => inr (found ++ reputation ++ lifecycle)
          end
      end
  end.

(** ** The gate *)

Definition scanExitCode (blocking : bool) (found : list Finding) (parseErrors : list string) : Z :=
  let exitCode := if blocking then ExitBlocking else if (0 <? length found)%nat then ExitUnderThreshold else ExitOK in
  if (0 <? length parseErrors)%nat && negb (exitCode =? ExitBlocking) then ExitParser else exitCode.

Definition scanCheckPackages (packages : list Package) (includeDev : bool) : list Package :=
  if includeDev then packages else filter (fun pkg => Dev pkg = false) packages.

(** Most severe first, then by name. *)
Definition finding_order (a b : Finding) : Z :=
  zcmp (Rank (fSeverity b)) (Rank (fSeverity a)) <?> str_cmp (fName a) (fName b).

Definition sortScanFindings {SS : SliceSort} (found : list Finding) : list Finding := slice_sort finding_order found.

(** ** Where findings are *)

Definition findingLocationsContain (locations : list FindingLocation) (want : FindingLocation) : bool :=
  existsb (fun l => bool_decide (URI l = URI want)) locations.

Definition add_location (locations : list FindingLocation) (l : FindingLocation) : list FindingLocation :=
  if findingLocationsContain locations l then locations else locations ++ [l].

(** Paths use slashes already. *)
Definition entry_location (byPackage : gmap packageCollectionKey (list FindingLocation)) (entry : CollectedPackage)
    : gmap packageCollectionKey (list FindingLocation) :=
  let uri := TrimSpace (SourceFile entry) in
  if bool_decide (uri = "") then byPackage
  else
    let key := collection_key (cpPackage entry) in
    let known := default [] (byPackage !! key) in
    if findingLocationsContain known (mk_location uri) then byPackage else <[key := known ++ [mk_location uri]]> byPackage.

Definition finding_key (f : Finding) : packageCollectionKey :=
  collection_key (plain_package (fName f) (fVersion f) (fEcosystem f)).

Definition set_locations (locations : list FindingLocation) (f : Finding) : Finding :=
  mk_finding (fName f) (fVersion f) (fEcosystem f) (fType f) (fSeverity f) (fAdvisoryID f) (fTitle f) (fURL f) (fResources f)
    (fFixedVersion f) (fRiskType f) (fSource f) locations.

Definition annotateFindingLocations (found : list Finding) (entries : list CollectedPackage) : list Finding :=
  if (length found =? 0)%nat || (length entries =? 0)%nat then found
  else
    let byPackage := fold_left entry_location entries ∅ in
    (fun f => set_locations (fold_left add_location (default [] (byPackage !! finding_key f)) (fLocations f)) f) <$> found.

(** ** Feed status *)

Definition normalizeScanFeedStatus (status : string) : string :=
  let s := TrimSpace status in
  if bool_decide (s = "") || bool_decide (s = ScanFeedStatusHealthy) then ScanFeedStatusHealthy
  else if bool_decide (s = ScanFeedStatusDegraded) then ScanFeedStatusDegraded
  else if bool_decide (s = ScanFeedStatusError) then ScanFeedStatusError
  else ScanFeedStatusDegraded.

Definition mergeRemoteFeedStatus (current next : string) : string :=
  let current := normalizeScanFeedStatus current in
  let next := normalizeScanFeedStatus next in
  if bool_decide (next = ScanFeedStatusHealthy) then current
  else if bool_decide (current = ScanFeedStatusHealthy) then next
  else if bool_decide (current = ScanFeedStatusError) || bool_decide (next = ScanFeedStatusError) then ScanFeedStatusError
  else if bool_decide (current = ScanFeedStatusDegraded) || bool_decide (next = ScanFeedStatusDegraded) then ScanFeedStatusDegraded
  else current.

(** ** Diagnostics shown to users *)

Definition MaxUserFacingParseDiagnostics : Z := 20.

Definition diagnose (st : list string * Z) (parseErr : string) : list string * Z :=
  let '(visible_, omitted) := st in
  let parseErr := TrimSpace parseErr in
  if bool_decide (parseErr = "") then (visible_, omitted)
  else if Z.of_nat (length visible_) <? MaxUserFacingParseDiagnostics then (visible_ ++ [parseErr], omitted)
  else (visible_, omitted + 1).

Definition BoundedParseDiagnostics (parseErrors : list string) : list string * Z := fold_left diagnose parseErrors ([], 0).

Definition ParseDiagnosticsOmittedSummary (omitted : Z) : string :=
  if omitted <=? 0 then ""
  else Itoa omitted +:+ " additional parse diagnostics omitted; see JSON parse_errors for full detail".

(** ** The client *)

(** Text of other packages, and of net/url and net/http. *)
Class RemoteText := {
  url_scheme : string -> string + string;
  RedactURL : string -> string;
  Quote : string -> string;
  RemoteErrorSnippet : string -> Z -> string;
  new_request_error : string -> option string;
  json_error : string -> string
}.

(** What is kept of the HTTP client: the error of loading the CA bundle, and
    whether it is loaded. *)
Record http_client := mk_client { clientErr : option string; rootCAs : bool }.

Definition new_client : http_client := mk_client None false.

Record http_call := mk_call {
  callURL : string;
  callContentType : string;
  callUserAgent : string;
  callCorrelation : string;
  callAuthorization : option string;
  callBody : string
}.

(** The bytes of the body, why reading ended early if it did, and whether the
    decoder had taken all of a limited body when it was done with the value. *)
Record http_answer := mk_answer {
  ansStatus : Z;
  ansCorrelation : string;
  ansBody : string;
  ansBroken : option string;
  ansReadAhead : bool
}.

Record RemoteCheckResult := mk_remote { rrResult : ScanOutput; PreserveIdentity : bool }.

(** The clock and the identifiers of one scan. *)
Record moments := mk_moments { startedAt : Time; checkedAt : Time; finishedAt : Time; newScanID : string; newCorrelation : nat -> string }.

Section client.
Context {U : UnicodeCase} {RT : RemoteText}.

Definition ParseMode (raw : string) : option ScanMode :=
  let mode := ToLower (TrimSpace raw) in
  if bool_decide (mode = "") then Some ModeAuto
  else if bool_decide (mode ∈ [ModeAuto; ModeRemote; ModeLocal]) then Some mode else None.

Definition normalizeMode (raw : string) : ScanMode := default ModeAuto (ParseMode raw).

Definition resolveMode (cfg : Config) : ScanMode := normalizeMode (scMode cfg).

Definition remoteUserAgent (version : string) : string :=
  let version := TrimSpace version in
  "packmon-cli/" +:+ (if bool_decide (version = "") then "dev" else version).

Definition remoteScanPackages (pkgs : list Package) : list Package :=
  (fun pkg => plain_package (pkgName pkg) (pkgVersion pkg) (pkgEcosystem pkg)) <$> pkgs.

Definition remoteScanRepo (repo : option RepoInfo) : option RemoteRepoInfo :=
  repo ← repo;
  let name := TrimSpace (riName repo) in
  if bool_decide (name = "") then None else Some (mk_repo name).

Definition safeRemoteErrorSnippet (body : string) : string := RemoteErrorSnippet body 200.

Definition remoteErrorCorrelationSuffix (header fallback : string) : string :=
  let headerID := TrimSpace header in
  let id := if correlation_Valid headerID then headerID else fallback in
  if correlation_Valid id then " correlation_id=" +:+ id else "".

Definition exceeded : string := "response body exceeds " +:+ Itoa maxRemoteCheckResponseSize +:+ " bytes".

(** At most one byte more than the limit is read.  A value that ends before the
    limit, followed by space up to the limit, passes unless all of it had been
    read with the value. *)
Definition decodeRemoteCheckResponse (a : http_answer) : string + ScanOutput :=
  let body := ansBody a in
  if len body <=? maxRemoteCheckResponseSize then
    match ansBroken a with
    | Some e => inl e
    | None =>
        match unmarshal dec_result body zero_result_cell with
        | Some c => inr (result_value c)
        | None => inl (json_error body)
        end
    end
  else
    match unmarshal dec_result (str_take (Z.to_nat (maxRemoteCheckResponseSize + 1)) body) zero_result_cell with
    | Some c => if ansReadAhead a then inl exceeded else inr (result_value c)
    | None => inl (if ansReadAhead a then exceeded else json_error body)
    end.
End client.

(** ** Checking *)

Section scanning.
Context {U : UnicodeCase} {RT : RemoteText} {SS : SliceSort}.
Context {W : Type} (exchange : http_call -> W -> (string + http_answer) * W) (LoadCAPool : string -> option string).
Context (sbom_Parse : string -> string + sbom_parsed).

Definition remote_state : Type := http_client * W.

Definition ensureRemoteHTTPClient (cfg : Config) (cl : http_client) : option string * http_client :=
  match clientErr cl with
  | Some e => (Some e, cl)
  | None =>
      if rootCAs cl || bool_decide (TrimSpace (scCACertFile cfg) = "") then (None, cl)
      else match LoadCAPool (scCACertFile cfg) with
           | Some e => (Some e, mk_client (Some e) (rootCAs cl))
           | None => (None, mk_client None true)
           end
  end.

Definition refused (a : http_answer) (correlationID : string) : string :=
  if (len (ansBody a) <? maxRemoteErrorBodySize) && bool_decide (is_Some (ansBroken a))
  then "read response: " +:+ default "" (ansBroken a)
  else
    let snippet := safeRemoteErrorSnippet (str_take (Z.to_nat maxRemoteErrorBodySize) (ansBody a)) in
    "server returned " +:+ Itoa (ansStatus a) +:+ ": " +:+ snippet +:+
      remoteErrorCorrelationSuffix (ansCorrelation a) correlationID +:+
      (if ansStatus a =? 401 then " (check PACKMON_API_KEY, --api-key, or api_key_env configuration)"
       else if ansStatus a =? 403 then " (check Packmon CLI version, User-Agent policy, or server request policy)"
       else "").

Definition check_call (cfg : Config) (endpoint correlationID : string) (pkgs : list Package) : http_call :=
  let repo := if scOmitRepoMetadata cfg then None else remoteScanRepo (scRepo cfg) in
  let key := TrimSpace (scAPIKey cfg) in
  mk_call endpoint "application/json; charset=utf-8" (remoteUserAgent (scVersion cfg)) correlationID
    (if bool_decide (key = "") then None else Some ("Bearer " +:+ key)) (marshal_request (mk_scan_request pkgs repo)).

Definition postRemoteCheck (cfg : Config) (endpoint correlationID : string) (pkgs : list Package) (st : remote_state)
    : (string + ScanOutput) * remote_state :=
  match new_request_error endpoint with
  | Some e => (inl ("create request: " +:+ e), st)
  | None =>
      match ensureRemoteHTTPClient cfg st.1 with
      | (Some e, cl) => (inl e, (cl, st.2))
      | (None, cl) =>
          match exchange (check_call cfg endpoint correlationID pkgs) st.2 with
          | (inl e, w) => (inl ("server request: " +:+ e), (cl, w))
          | (inr a, w) =>
              if negb (ansStatus a =? 200) then (inl (refused a correlationID), (cl, w))
              else match decodeRemoteCheckResponse a with
                   | inl e => (inl ("decode response: " +:+ e), (cl, w))
                   | inr result => (inr result, (cl, w))
                   end
          end
      end
  end.

(** The slices [start:end] of the loop. *)
Fixpoint request_chunks (fuel : nat) (packages : list Package) : list (list Package) :=
  match fuel, packages with
  | S fuel', _ :: _ =>
      take (Z.to_nat MaxPackagesPerCheck) packages :: request_chunks fuel' (drop (Z.to_nat MaxPackagesPerCheck) packages)
  | _, _ => []
  end.

(** What the loop has gathered: findings, feed versions, status, blocking. *)
Record gathered := mk_gathered { gFindings : list Finding; gVersions : gmap string string; gStatus : string; gBlocking : bool }.

Definition gather (g : gathered) (result : ScanOutput) : gathered :=
  mk_gathered (gFindings g ++ soFindings result) (soFeedVersions result ∪ gVersions g)
    (mergeRemoteFeedStatus (gStatus g) (soFeedStatus result)) (gBlocking g || soFindingsBlocking result).

Fixpoint post_chunks (cfg : Config) (endpoint : string) (ids : nat -> string) (n : nat) (chunks : list (list Package))
    (g : gathered) (st : remote_state) : (string + gathered) * remote_state :=
  match chunks with
  | [] => (inr g, st)
  | chunk :: rest =>
      match postRemoteCheck cfg endpoint (ids n) chunk st with
      | (inl e, st) => (inl e, st)
      | (inr result, st) => post_chunks cfg endpoint ids (S n) rest (gather g result) st
      end
  end.

Definition gathered_result (g : gathered) : ScanOutput :=
  mk_output "" ModeRemote 0 0 0 (Z.of_nat (length (gFindings g))) (gBlocking g) "" (gStatus g) "" None false
    (BuildScanSummary (gFindings g)) (gFindings g) [] false (gVersions g) (CountManualAdvisoryFindings (gFindings g)).

(** [strings.TrimRight(s, "/")] *)
Fixpoint trim_slashes (s : string) : string :=
  match s with
  | EmptyString => ""
  | String c s' =>
      let r := trim_slashes s' in
      if bool_decide (r = "") && bool_decide (c = "/"%char) then "" else String c r
  end.

(** The endpoint, or why the server URL is refused. *)
Definition check_endpoint (cfg : Config) (cl : http_client) : string + string :=
  if bool_decide (scServerURL cfg = "") then inl "no server URL configured (set --server or PACKMON_SERVER)"
  else match clientErr cl with
  | Some e => inl e
  | None =>
      let serverURL := TrimSpace (scServerURL cfg) in
      match url_scheme serverURL with
      | inl e => inl ("invalid server URL " +:+ Quote (RedactURL serverURL) +:+ ": " +:+ e)
      | inr scheme =>
          if negb (EqualFold scheme "https") && negb (scAllowInsecureHTTP cfg)
          then inl ("refusing to use insecure server URL " +:+ Quote (RedactURL serverURL) +:+
                    ": scheme must be https (set --insecure-allow-http / PACKMON_INSECURE_ALLOW_HTTP to override)")
          else inr (trim_slashes serverURL +:+ "/api/v1/check")
      end
  end.

Definition checkRemoteResult (cfg : Config) (t : moments) (pkgs : list Package) (st : remote_state)
    : (string + RemoteCheckResult) * remote_state :=
  match check_endpoint cfg st.1 with
  | inl e => (inl e, st)
  | inr endpoint =>
      let requestPackages := remoteScanPackages pkgs in
      if Z.of_nat (length requestPackages) <=? MaxPackagesPerCheck then
        match postRemoteCheck cfg endpoint (newCorrelation t 0%nat) requestPackages st with
        | (inl e, st) => (inl e, st)
        | (inr result, st) => (inr (mk_remote result true), st)
        end
      else
        match post_chunks cfg endpoint (newCorrelation t) 0%nat (request_chunks (length requestPackages) requestPackages)
                (mk_gathered [] ∅ "" false) st with
        | (inl e, st) => (inl e, st)
        | (inr g, st) => (inr (mk_remote (gathered_result g) false), st)
        end
  end.

(** ** Choosing the checker *)

Record CheckModeResult := mk_check_mode {
  cmMode : ScanMode;
  cmFindings : list Finding;
  cmFeedVersions : gmap string string;
  cmFeedStatus : string;
  cmRemote : RemoteCheckResult
}.

Record CheckModeError := mk_mode_error { meMessage : string; mePackagesScanned : Z }.

Definition remote_mode_result (r : RemoteCheckResult) : CheckModeResult :=
  mk_check_mode ModeRemote (soFindings (rrResult r)) (soFeedVersions (rrResult r)) (soFeedStatus (rrResult r)) r.

Definition local_mode_result (found : list Finding) : CheckModeResult :=
  mk_check_mode ModeLocal found ∅ "" (mk_remote zero_output false).

Definition count (packages : list Package) : Z := Z.of_nat (length packages).

Definition executeLocalCheckMode (t : moments) (lc : option LocalChecker) (packages : list Package) : CheckModeError + list Finding :=
  match lc with
  | None => inl (mk_mode_error "local advisory data unavailable (run 'packmon db sync' first)" (count packages))
  | Some lc =>
      match checkLocal (checkedAt t) lc packages with
      | inl e => inl (mk_mode_error ("local check failed: " +:+ e) (count packages))
      | inr found => inr found
      end
  end.

Definition executeAutoCheckMode (cfg : Config) (t : moments) (lc : option LocalChecker) (packages : list Package) (st : remote_state)
    : (CheckModeError + CheckModeResult) * remote_state :=
  match checkRemoteResult cfg t packages st with
  | (inr r, st) => (inr (remote_mode_result r), st)
  | (inl e, st) =>
      if scRequireRemote cfg then (inl (mk_mode_error ("remote check failed and --require-remote is set: " +:+ e) 0), st)
      else match lc with
      | None => (inl (mk_mode_error ("remote check failed and no local advisory data available: " +:+ e) (count packages)), st)
      | Some lc =>
          match checkLocal (checkedAt t) lc packages with
          | inl localErr => (inl (mk_mode_error ("remote and local check failed: " +:+ localErr) (count packages)), st)
          | inr found => (inr (local_mode_result found), st)
          end
      end
  end.

Definition selectAndRunChecker (cfg : Config) (t : moments) (lc : option LocalChecker) (packages : list Package) (st : remote_state)
    : (CheckModeError + CheckModeResult) * remote_state :=
  let mode := resolveMode cfg in
  if bool_decide (mode = ModeRemote) then
    match checkRemoteResult cfg t packages st with
    | (inl e, st) => (inl (mk_mode_error ("remote check failed: " +:+ e) 0), st)
    | (inr r, st) => (inr (remote_mode_result r), st)
    end
  else if bool_decide (mode = ModeLocal) then
    match executeLocalCheckMode t lc packages with
    | inl e => (inl e, st)
    | inr found => (inr (local_mode_result found), st)
    end
  else executeAutoCheckMode cfg t lc packages st.

(** ** Results *)

Definition elapsed (t : moments) : Z := Milliseconds (Sub (finishedAt t) (startedAt t)).

Definition errorResultWithPackages (cfg : Config) (t : moments) (msg : string) (packagesScanned : Z) : ScanOutput :=
  mk_output (newScanID t) (resolveMode cfg) (startedAt t) (elapsed t) packagesScanned 0 false (scFailOn cfg) ScanFeedStatusError msg
    None false EmptyScanSummary [] [] false ∅ 0.

Definition errorResult (cfg : Config) (t : moments) (msg : string) : ScanOutput := errorResultWithPackages cfg t msg 0.

Definition set_parse_errors (errs : list string) (o : ScanOutput) : ScanOutput :=
  let '(mk_output id mode at_ dur pkgs cnt blk thr status err age stale summary fs _ trunc versions manual) := o in
  mk_output id mode at_ dur pkgs cnt blk thr status err age stale summary fs errs trunc versions manual.

Definition emptyScanResult (cfg : Config) (t : moments) (parseErrors : list string) : ScanOutput :=
  mk_output (newScanID t) (resolveMode cfg) (startedAt t) (elapsed t) 0 0 false (scFailOn cfg) ScanFeedStatusHealthy ""
    None false EmptyScanSummary [] parseErrors false ∅ 0.

Definition checkErrorResult (cfg : Config) (t : moments) (e : CheckModeError) : ScanOutput :=
  errorResultWithPackages cfg t (meMessage e) (mePackagesScanned e).

Record CollectedScanPackages := mk_collected_scan {
  csCollection : PackageCollection;
  csAllPackages : list Package;
  csCheckPackages : list Package;
  csParseErrors : list string
}.

(** The project tree: what is at the path, and whether it could be opened. *)
Definition collectScanPackages (cfg : Config) (reg : list Parser) (root : string + node) (opened : option string)
    : string + CollectedScanPackages :=
  match CollectPackages sbom_Parse
          (mk_collect_config reg (scPath cfg) (scMaxDepth cfg) (scEcosystems cfg) (scSBOMFiles cfg)
             (scIncludeDev cfg || scInventoryAllPackages cfg)) root opened with
  | inl e => inl ("collect packages: " +:+ e)
  | inr c => inr (mk_collected_scan c (Packages c) (scanCheckPackages (Packages c) (scIncludeDev cfg)) (ParseErrors c))
  end.

(** The result and exit code of a scan that ends before checking. *)
Definition applyParseErrorPolicy (cfg : Config) (t : moments) (collected : CollectedScanPackages) : option (ScanOutput * Z) :=
  let c := csCollection collected in
  let errs := csParseErrors collected in
  if (LockFiles c =? 0) && (SBOMFiles c =? 0) then Some (emptyScanResult cfg t (ParseErrors c), ExitOK)
  else if (0 <? length (FatalParseErrors c))%nat then
    Some (set_parse_errors errs
            (errorResultWithPackages cfg t (Join (FatalParseErrors c) "; ") (count (csCheckPackages collected))), ExitParser)
  else if (length (csAllPackages collected) =? 0)%nat && (0 <? length errs)%nat then
    Some (set_parse_errors errs (errorResult cfg t (Join errs "; ")), ExitParser)
  else if (length (csCheckPackages collected) =? 0)%nat then
    Some (emptyScanResult cfg t errs, if (0 <? length errs)%nat then ExitParser else ExitOK)
  else None.

Definition hasBlockingFindings (cfg : Config) (found : list Finding) : bool := FindingsBlock found (scFailOn cfg).

Definition buildSuccessfulScanResult (cfg : Config) (t : moments) (collected : CollectedScanPackages) (check : CheckModeResult)
    : ScanOutput :=
  let found := annotateFindingLocations (cmFindings check) (Entries (csCollection collected)) in
  let remote := rrResult (cmRemote check) in
  let kept := PreserveIdentity (cmRemote check) in
  mk_output
    (if kept && negb (bool_decide (soScanID remote = "")) then soScanID remote else newScanID t)
    (cmMode check)
    (if kept && negb (IsZero (soScannedAt remote)) then soScannedAt remote else startedAt t)
    (if kept then soDurationMs remote else elapsed t)
    (count (csCheckPackages collected)) (Z.of_nat (length found)) (hasBlockingFindings cfg found) (scFailOn cfg)
    (normalizeScanFeedStatus (cmFeedStatus check)) "" None false (BuildScanSummary found) (sortScanFindings found)
    (csParseErrors collected) false (cmFeedVersions check) (CountManualAdvisoryFindings found).

Definition RunWithCollection (cfg : Config) (reg : list Parser) (lc : option LocalChecker) (t : moments) (root : string + node)
    (opened : option string) (st : remote_state) : (ScanOutput * Z * option PackageCollection) * remote_state :=
  match collectScanPackages cfg reg root opened with
  | inl e => ((errorResult cfg t e, ExitOperational, None), st)
  | inr collected =>
      match applyParseErrorPolicy cfg t collected with
      | Some (result, exitCode) => ((result, exitCode, Some (csCollection collected)), st)
      | None =>
          match selectAndRunChecker cfg t lc (csCheckPackages collected) st with
          | (inl e, st) => ((checkErrorResult cfg t e, ExitOperational, Some (csCollection collected)), st)
          | (inr check, st) =>
              let result := buildSuccessfulScanResult cfg t collected check in
              ((result, scanExitCode (soFindingsBlocking result) (soFindings result) (soParseErrors result),
                Some (csCollection collected)), st)
          end
      end
  end.

Definition Run (cfg : Config) (reg : list Parser) (lc : option LocalChecker) (t : moments) (root : string + node)
    (opened : option string) (st : remote_state) : (ScanOutput * Z) * remote_state :=
  let '((result, exitCode, _), st) := RunWithCollection cfg reg lc t root opened st in ((result, exitCode), st).
End scanning.
