(* ===== verification/ScanGate.v ===== *)
(** What the exit code of a scan promises (internal/scanner/scanner.go). *)
From stdpp Require Import base list option strings gmap.
From Stdlib Require Import Ascii ZArith Lia Sorted.
From S2P Require Import Prelude GoStrings GoNumbers AsciiText Json Collections JsonEncode Domain JsonMaps JsonRender GoTime.
From S2P Require Import Lockfiles GoModules ScanCollect Advisories LocalStore LocalBatch CheckRequest CheckHandler CheckWire Correlation.
From S2P Require Import Scanner.

(** ** Findings with their locations *)

(** The same finding, wherever it is located. *)
Definition same_finding (f g : Finding) : Prop := set_locations [] f = set_locations [] g.

#[export] Instance same_finding_equivalence : Equivalence same_finding.
Proof. split; unfold same_finding; [done|congruence|congruence]. Qed.

Section findings.
Context {U : UnicodeCase}.

Lemma same_finding_blocks f g t : same_finding f g -> FindingBlocks f t = FindingBlocks g t.
Proof.
  unfold same_finding, set_locations. intros E. unfold FindingBlocks, FindingAlwaysBlocks, FindingIsInformational.
  injection E as _ _ _ -> -> _ _ _ _ _ -> _. done.
Qed.

Lemma annotate_same found entries : Forall2 same_finding (annotateFindingLocations found entries) found.
Proof.
  unfold annotateFindingLocations. destruct (_ || _); [by induction found; constructor|].
  cbv zeta. generalize (fold_left entry_location entries ∅). intros m. induction found as [|f found IH]; constructor; done.
Qed.

Lemma FindingsBlock_perm l l' t : l ≡ₚ l' -> FindingsBlock l t = FindingsBlock l' t.
Proof.
  intros Hp. apply eq_true_iff_eq. rewrite !FindingsBlock_exists. by setoid_rewrite Hp.
Qed.

Lemma FindingsBlock_same l l' t : Forall2 same_finding l l' -> FindingsBlock l t = FindingsBlock l' t.
Proof. induction 1 as [|f g l l' Hfg _ IH]; [done|]. cbn [FindingsBlock]. by rewrite (same_finding_blocks f g), IH. Qed.
End findings.

(** What a finding's locations are: the files its package was found in. *)
Definition located (entries : list CollectedPackage) (f : Finding) : list string :=
  (fun e => TrimSpace (SourceFile e)) <$>
    filter (fun e => collection_key (cpPackage e) = finding_key f /\ TrimSpace (SourceFile e) <> "") entries.

Lemma contains_spec ls l : findingLocationsContain ls l = true <-> URI l ∈ URI <$> ls.
Proof.
  unfold findingLocationsContain. rewrite existsb_exists, list_elem_of_fmap. split.
  - intros (x & Hx & E%bool_decide_eq_true). exists x. split; [done|by apply list_elem_of_In].
  - intros (x & E & Hx). exists x. split; [by apply list_elem_of_In|by apply bool_decide_eq_true].
Qed.

Lemma add_locations_spec new ls :
  (forall u, u ∈ URI <$> fold_left add_location new ls <-> u ∈ URI <$> ls \/ u ∈ URI <$> new) /\
  (NoDup (URI <$> ls) -> NoDup (URI <$> fold_left add_location new ls)).
Proof.
  revert ls. induction new as [|l new IH]; intros ls; cbn [fold_left].
  - split; [|done]. intros u. rewrite fmap_nil, elem_of_nil. tauto.
  - destruct (IH (add_location ls l)) as [Hel Hnd]. unfold add_location in *.
    destruct (findingLocationsContain ls l) eqn:Hc.
    + apply contains_spec in Hc. split; [|done]. intros u. rewrite Hel, fmap_cons, elem_of_cons.
      split; [tauto|intros [?|[->|?]]; tauto].
    + assert (URI l ∉ URI <$> ls) as Hl by (rewrite <- contains_spec; congruence). split.
      * intros u. rewrite Hel, fmap_app, elem_of_app, !fmap_cons, !elem_of_cons, fmap_nil, elem_of_nil. tauto.
      * intros Hls. apply Hnd. rewrite fmap_app. apply NoDup_app. split; [done|]. split; [|apply NoDup_singleton].
        intros u Hu ->%list_elem_of_singleton. done.
Qed.

Lemma entry_locations_spec entries m :
  (forall k, NoDup (URI <$> default [] (m !! k))) ->
  forall k, let m' := fold_left entry_location entries m in
  NoDup (URI <$> default [] (m' !! k)) /\
  (forall u, u ∈ URI <$> default [] (m' !! k) <-> u ∈ URI <$> default [] (m !! k) \/
     exists e, e ∈ entries /\ collection_key (cpPackage e) = k /\ TrimSpace (SourceFile e) = u /\ u <> "").
Proof.
  cbv zeta. revert m. induction entries as [|e entries IH]; intros m Hm k; cbn [fold_left].
  - split; [done|]. intros u. split; [tauto|]. intros [?|(e & He & _)]; [done|by apply not_elem_of_nil in He].
  - assert (forall k, NoDup (URI <$> default [] (entry_location m e !! k)) /\
      forall u, u ∈ URI <$> default [] (entry_location m e !! k) <-> u ∈ URI <$> default [] (m !! k) \/
        (collection_key (cpPackage e) = k /\ TrimSpace (SourceFile e) = u /\ u <> "")) as Hstep.
    { intros k'. unfold entry_location. cbv zeta. case_bool_decide as Hb; [split; [done|intros u; split; [tauto|intros [?|(_ & <- & ?)]; done]]|].
      destruct (findingLocationsContain _ _) eqn:Hc.
      - split; [done|]. intros u. split; [tauto|]. intros [?|(<- & <- & _)]; [done|]. by apply contains_spec in Hc.
      - assert (TrimSpace (SourceFile e) ∉ URI <$> default [] (m !! collection_key (cpPackage e))) as Hn.
        { intros Hin. assert (findingLocationsContain (default [] (m !! collection_key (cpPackage e)))
            (mk_location (TrimSpace (SourceFile e))) = true) by (by apply contains_spec). congruence. }
        destruct (decide (collection_key (cpPackage e) = k')) as [<-|Hk].
        + rewrite lookup_insert_eq. cbn [default from_option id]. rewrite fmap_app. split.
          * apply NoDup_app. split; [apply Hm|]. split; [|apply NoDup_singleton]. intros u Hu ->%list_elem_of_singleton. done.
          * intros u. rewrite elem_of_app, fmap_cons, elem_of_cons, fmap_nil, elem_of_nil. split;
            [intros [?|[->|[]]]; [by left|by right]|intros [?|(_ & <- & _)]; tauto].
        + rewrite lookup_insert_ne by done. split; [apply Hm|]. intros u. tauto. }
    destruct (IH (entry_location m e) (fun k => proj1 (Hstep k)) k) as [Hnd Hel]. split; [done|].
    intros u. rewrite Hel. destruct (Hstep k) as [_ Hs]. rewrite Hs. split.
    + intros [[?|(Hk & Hu & Hne)]|(e' & He' & ?)]; [by left|right; exists e; split; [left|done]|right; exists e'; split; [by right|done]].
    + intros [?|(e' & [->|He']%elem_of_cons & ? & ? & ?)]; [tauto|left; by right|right; by exists e'].
Qed.

(** Each finding is located in the files its package was collected from. *)
Lemma annotate_locations found entries i f : found !! i = Some f ->
  exists f', annotateFindingLocations found entries !! i = Some f' /\ same_finding f' f /\
    (forall u, u ∈ URI <$> fLocations f' <-> u ∈ URI <$> fLocations f \/ u ∈ located entries f) /\
    (NoDup (URI <$> fLocations f) -> NoDup (URI <$> fLocations f')).
Proof.
  intros Hi. unfold annotateFindingLocations. destruct (_ || _) eqn:Hempty.
  - exists f. split; [done|]. split; [done|]. split; [|done]. intros u. split; [tauto|]. intros [?|Hu]; [done|].
    apply orb_true_iff in Hempty as [E|E]; apply Nat.eqb_eq in E; [by destruct found|]. by destruct entries; [apply not_elem_of_nil in Hu|].
  - cbv zeta. rewrite list_lookup_fmap, Hi. eexists. split; [reflexivity|]. split; [done|]. cbn [set_locations fLocations].
    destruct (entry_locations_spec entries ∅ ltac:(intros k; rewrite lookup_empty; constructor) (finding_key f)) as [_ Hel].
    destruct (add_locations_spec (default [] (fold_left entry_location entries ∅ !! finding_key f)) (fLocations f)) as [Hadd Hnd].
    split; [|done]. intros u. rewrite Hadd, Hel, lookup_empty. cbn [default from_option]. unfold located.
    rewrite fmap_nil, elem_of_nil. split.
    + intros [?|[[]|(e & He & Hk & <- & Hne)]]; [by left|]. right. apply list_elem_of_fmap. exists e.
      split; [done|]. by apply list_elem_of_filter.
    + intros [?|(e & -> & [[Hk Hne] He]%list_elem_of_filter)%list_elem_of_fmap]; [by left|]. right. right. by exists e.
Qed.

(** ** Collections without inputs *)

Section inputs.
Context {U : UnicodeCase} (sbom_Parse : string -> string + sbom_parsed).

Lemma add_all_counts filter_ pkgs f t c :
  let c' := add_all filter_ pkgs f t c in
  LockFiles c' = LockFiles c /\ SBOMFiles c' = SBOMFiles c /\ ParseErrors c' = ParseErrors c /\
  FatalParseErrors c' = FatalParseErrors c.
Proof.
  cbv zeta. unfold add_all. revert c. induction pkgs as [|p pkgs IH]; intros c; [done|]. cbn [fold_left].
  destruct (IH (if allows filter_ (pkgEcosystem p) then add p f t c else c)) as (-> & -> & -> & ->).
  destruct (allows _ _); [|done]. unfold add. by destruct (index_add _ _ _ _).
Qed.

Lemma sboms_counted filter_ inputs c c' :
  collectExplicitSBOMPackages sbom_Parse filter_ c inputs = inr c' -> SBOMFiles c <= SBOMFiles c' /\ LockFiles c' = LockFiles c /\
    (SBOMFiles c' = SBOMFiles c -> c' = c).
Proof.
  revert c. induction inputs as [|i inputs IH]; intros c; cbn [collectExplicitSBOMPackages]; [intros [= <-]; done|].
  unfold collect_sbom. case_bool_decide; [apply IH|]. destruct (sbomData i); [done|].
  destruct (sbom_Parse s) as [e|parsed].
  - intros Hc. apply IH in Hc as (H1 & H2 & _). cbn in H1, H2. split; [lia|]. split; [done|]. lia.
  - intros Hc. apply IH in Hc as (H1 & H2 & _).
    match goal with H : context [add_all ?a ?b ?c ?d ?e] |- _ => destruct (add_all_counts a b c d e) as (E1 & E2 & _ & _) end.
    rewrite E1 in H2. rewrite E2 in H1. cbn in H1, H2. split; [lia|]. split; [done|]. lia.
Qed.

(** A collection that read no file is empty. *)
Lemma no_inputs cfg root opened c :
  CollectPackages sbom_Parse cfg root opened = inr c -> LockFiles c = 0 -> SBOMFiles c = 0 ->
  Packages c = [] /\ ParseErrors c = [] /\ FatalParseErrors c = [].
Proof.
  unfold CollectPackages, collectLockfilePackages. destruct (Walk _ _ _) as [e|files]; [done|]. destruct opened; [done|].
  cbv zeta. destruct (collectExplicitSBOMPackages _ _ _ _) as [e|c1] eqn:Hs; [done|]. intros [= <-].
  destruct (sboms_counted _ _ _ _ Hs) as (_ & Hlock & Hsame). intros H1 H2.
  assert (LockFiles c1 = 0 /\ SBOMFiles c1 = 0) as [Hl Hb].
  { revert H1 H2. unfold finalizePackageCollection, rebuildPackages, filterDev, filterStaleGoSumVersions. cbv zeta.
    destruct (bool_decide _), (ccIncludeDev cfg); done. }
  assert (forall fs c, LockFiles (fold_left (collect_lockfile (ecosystemFilter (ccEcosystems cfg))) fs c) = LockFiles c /\
    SBOMFiles (fold_left (collect_lockfile (ecosystemFilter (ccEcosystems cfg))) fs c) = SBOMFiles c) as Hfold.
  { clear. intros fs. induction fs as [|lf fs IH]; intros c; [done|]. cbn [fold_left]. destruct (IH (collect_lockfile (ecosystemFilter (ccEcosystems cfg)) c lf)) as [-> ->].
    unfold collect_lockfile. destruct (parseCollectedLockFile lf) as [pkgs [e|]]; [done|].
    match goal with |- context [add_all ?a ?b ?c ?d ?e] => destruct (add_all_counts a b c d e) as (-> & -> & _ & _) end. done. }
  destruct files as [|lf files].
  - cbn [fold_left length] in *. rewrite Hsame by done. unfold finalizePackageCollection, rebuildPackages, filterDev, filterStaleGoSumVersions.
    cbn. by destruct (ccIncludeDev cfg).
  - exfalso. rewrite Hlock in Hl. rewrite (proj1 (Hfold _ _)) in Hl. cbn [set_counts LockFiles length] in Hl. lia.
Qed.
End inputs.

(** ** The gate *)

#[export] Instance finding_order_ok : GoOrder finding_order.
Proof.
  apply then_order; [|apply (key_order fName str_cmp), _].
  split; intros; unfold zcmp; [zbool; lia..|]. revert H H0. unfold zcmp. zbool; lia.
Qed.

Section gate.
Context {U : UnicodeCase} {RT : RemoteText} {SS : SliceSort}.
Context {W : Type} (exchange : http_call -> W -> (string + http_answer) * W) (LoadCAPool : string -> option string).
Context (sbom_Parse : string -> string + sbom_parsed).

(** A finding as the result has it: located where the checker put it and in the
    files its package was collected from. *)
Definition annotated (entries : list CollectedPackage) (f' f : Finding) : Prop :=
  same_finding f' f /\ forall u, u ∈ URI <$> fLocations f' <-> u ∈ URI <$> fLocations f \/ u ∈ located entries f.

(** The result has the findings of the checker and nothing else. *)
Definition reported (entries : list CollectedPackage) (check found : list Finding) : Prop :=
  exists l, found ≡ₚ l /\ Forall2 (annotated entries) l check.

Lemma annotate_annotated found entries : Forall2 (annotated entries) (annotateFindingLocations found entries) found.
Proof.
  apply Forall2_same_length_lookup_2; [by apply (Forall2_length _ _ _ (annotate_same found entries))|].
  intros i f' f Hi' Hi. destruct (annotate_locations found entries i f Hi) as (f2 & Hf2 & Hs & Hl & _). simplify_eq. by split.
Qed.

Lemma build_reported cfg t collected check :
  reported (Entries (csCollection collected)) (cmFindings check) (soFindings (buildSuccessfulScanResult cfg t collected check)).
Proof. eexists. split; [apply slice_sort_perm|]. apply annotate_annotated. Qed.

Lemma reported_in entries check found f : reported entries check found -> f ∈ check -> exists f', f' ∈ found /\ same_finding f' f.
Proof.
  intros (l & Hp & Hl) Hf. apply list_elem_of_lookup in Hf as [i Hi].
  destruct (Forall2_lookup_r _ _ _ _ _ Hl Hi) as (f' & Hi' & Hs & _). exists f'. split; [|done].
  rewrite Hp. by eapply list_elem_of_lookup_2.
Qed.

Lemma scanExitCode_green blocking found errs :
  scanExitCode blocking found errs = ExitOK \/ scanExitCode blocking found errs = ExitUnderThreshold ->
  blocking = false /\ errs = [] /\ (scanExitCode blocking found errs = ExitOK <-> found = []).
Proof.
  unfold scanExitCode, ExitOK, ExitUnderThreshold, ExitBlocking, ExitParser. cbv zeta.
  destruct blocking, found, errs; cbn; intros [E|E]; try lia; done.
Qed.

Lemma collect_shape cfg reg root opened collected :
  collectScanPackages sbom_Parse cfg reg root opened = inr collected ->
  exists c, CollectPackages sbom_Parse (mk_collect_config reg (scPath cfg) (scMaxDepth cfg) (scEcosystems cfg)
    (scSBOMFiles cfg) (scIncludeDev cfg || scInventoryAllPackages cfg)) root opened = inr c /\
    collected = mk_collected_scan c (Packages c) (scanCheckPackages (Packages c) (scIncludeDev cfg)) (ParseErrors c).
Proof. unfold collectScanPackages. destruct (CollectPackages _ _ _ _); [done|]. intros [= <-]. eauto. Qed.


(** A scan of packages to check fails early, or the checker's findings decide. *)
Lemma run_outcome cfg reg lc t root opened st collected result code st' :
  collectScanPackages sbom_Parse cfg reg root opened = inr collected -> csCheckPackages collected <> [] ->
  Run exchange LoadCAPool sbom_Parse cfg reg lc t root opened st = ((result, code), st') ->
  code = ExitOperational \/ code = ExitParser \/
  exists check, selectAndRunChecker exchange LoadCAPool cfg t lc (csCheckPackages collected) st = (inr check, st') /\
    reported (Entries (csCollection collected)) (cmFindings check) (soFindings result) /\
    code = scanExitCode (FindingsBlock (cmFindings check) (scFailOn cfg)) (soFindings result) (csParseErrors collected).
Proof.
  intros Hcol Hne. unfold Run, RunWithCollection. rewrite Hcol.
  destruct (collect_shape _ _ _ _ _ Hcol) as (c & Hc & ->).
  cbn [csCheckPackages csParseErrors csCollection] in *.
  unfold applyParseErrorPolicy. cbn [csCollection csParseErrors csAllPackages csCheckPackages] in *.
  destruct ((LockFiles c =? 0) && (SBOMFiles c =? 0)) eqn:Hnone.
  { apply andb_true_iff in Hnone as [H1%Z.eqb_eq H2%Z.eqb_eq]. destruct (no_inputs _ _ _ _ _ Hc H1 H2) as (Hp & _).
    rewrite Hp in Hne. unfold scanCheckPackages in Hne. by destruct (scIncludeDev cfg). }
  destruct (0 <? length (FatalParseErrors c))%nat; [intros [= <- <- <-]; tauto|].
  destruct ((length (Packages c) =? 0)%nat && _); [intros [= <- <- <-]; tauto|].
  destruct (length (scanCheckPackages _ _) =? 0)%nat eqn:Hcheck; [by apply Nat.eqb_eq, length_zero_iff_nil in Hcheck|].
  destruct (selectAndRunChecker _ _ _ _ _ _ _) as [[e|check] st1] eqn:Hsel; [intros [= <- <- <-]; tauto|].
  cbv zeta.
  match goal with |- context [buildSuccessfulScanResult ?a ?b ?d ?e] =>
    pose proof (build_reported a b d e) as Hrep; set (built := buildSuccessfulScanResult a b d e) in * end.
  intros [= <- <- <-]. right. right. exists check. split; [done|]. split; [exact Hrep|].
  f_equal. apply FindingsBlock_same, annotate_same.
Qed.

(** A finding the checker cannot miss keeps the scan from being clean, and from
    passing when it blocks. *)
Lemma run_catches cfg reg lc t root opened st collected result code st' (found : Finding -> Prop) :
  collectScanPackages sbom_Parse cfg reg root opened = inr collected -> csCheckPackages collected <> [] ->
  (forall check st1, selectAndRunChecker exchange LoadCAPool cfg t lc (csCheckPackages collected) st = (inr check, st1) ->
     exists f, f ∈ cmFindings check /\ found f) ->
  Run exchange LoadCAPool sbom_Parse cfg reg lc t root opened st = ((result, code), st') ->
  code <> ExitOK /\
  (code = ExitBlocking \/ code = ExitUnderThreshold -> exists f f', f' ∈ soFindings result /\ same_finding f' f /\ found f) /\
  ((forall f, found f -> FindingBlocks f (scFailOn cfg) = true) -> code = ExitBlocking \/ code = ExitOperational \/ code = ExitParser).
Proof.
  intros Hcol Hne Hfound Hrun.
  destruct (run_outcome _ _ _ _ _ _ _ _ _ _ _ Hcol Hne Hrun) as [->|[->|(check & Hsel & Hrep & ->)]].
  { split; [done|]. split; [intros [E|E]; discriminate E|tauto]. }
  { split; [done|]. split; [intros [E|E]; discriminate E|tauto]. }
  destruct (Hfound _ _ Hsel) as (f & Hf & Hff). destruct (reported_in _ _ _ _ Hrep Hf) as (f' & Hf' & Hs).
  split; [|split; [by exists f, f'|]].
  - intros E. destruct (scanExitCode_green _ _ _ (or_introl E)) as (_ & _ & Hok). apply Hok in E. rewrite E in Hf'. by apply not_elem_of_nil in Hf'.
  - intros Hblock. assert (FindingsBlock (cmFindings check) (scFailOn cfg) = true) as ->.
    { apply FindingsBlock_exists. exists f. split; [done|]. by apply Hblock. }
    left. unfold scanExitCode. cbv zeta. by destruct (csParseErrors collected).
Qed.

(** A project whose own directory has a skipped name is clean, whatever is in it. *)
Lemma hidden_root_passes cfg reg lc t entries st :
  hidden (Base (scPath cfg)) = true -> scSBOMFiles cfg = [] ->
  (Run exchange LoadCAPool sbom_Parse cfg reg lc t (inr (Dir entries)) None st).1.2 = ExitOK.
Proof.
  intros Hh Hs. unfold Run, RunWithCollection, collectScanPackages, CollectPackages, collectLockfilePackages.
  cbn [ccRegistry ccRoot ccMaxDepth ccEcosystems ccSBOMFiles].
  rewrite (hidden_root_finds_nothing (NewWalker reg (scMaxDepth cfg) (scEcosystems cfg)) (scPath cfg) entries Hh), Hs. cbn [fold_left length].
  cbv zeta. cbn [collectExplicitSBOMPackages].
  unfold applyParseErrorPolicy, finalizePackageCollection, rebuildPackages, filterDev, filterStaleGoSumVersions. cbn.
  by destruct (scIncludeDev cfg || scInventoryAllPackages cfg).
Qed.
End gate.

(** ** Witness *)

Section example_scan.
#[local] Instance scan_case : UnicodeCase := plain_case.
#[local] Instance scan_sort : SliceSort := stable_sort.
#[local] Instance scan_text : RemoteText :=
  {| url_scheme := fun s => inr "https"; RedactURL := id; Quote := id; RemoteErrorSnippet := fun s _ => s;
     new_request_error := fun _ => None; json_error := fun _ => "invalid" |}.

Definition example_config (mode : string) (failOn : Severity) : Config :=
  mk_scan_config "/src/mono" mode "https://packmon.example" "" None false failOn [] [] 3 false false "1.0.0" "" false false.

Definition quiet_checker : LocalChecker :=
  mk_checker (fun _ _ _ => inr []) (fun _ _ _ => inr []) (fun _ _ => inr []) (fun _ _ => inr []) None.

Definition example_moments : moments := mk_moments 0 0 0 "id" (fun _ => "").

#[local] Notation quiet_run :=
  (Run (W := unit) (fun _ w => (inl "no network", w)) (fun _ => None) no_sbom (example_config "local" SeverityHigh)
     [NewGoSumParser; NewGoModParser] (Some quiet_checker) example_moments (inr two_modules) None (new_client, tt)) (only parsing).

End example_scan.
