(* ===== verification/RemoteScan.v ===== *)
(** Remote scans, from the project to the server's store and back.

    The client of internal/scanner/scanner.go and the check endpoint of
    internal/api/v1/handler.go meet on the wire (CheckWire.v). *)
From stdpp Require Import base list option strings gmap.
From Stdlib Require Import Ascii ZArith Lia.
From S2P Require Import Prelude GoStrings GoNumbers AsciiText PackageId Json VersionRanges Collections JsonEncode Domain JsonMaps.
From S2P Require Import JsonRender GoTime AuditLog RefreshQueue Advisories DevStore DevFeeds DevFindings DevScans SyncServer.
From S2P Require Import Lockfiles GoModules ScanCollect CheckCache CheckRequest CheckHandler CheckService CheckWire Correlation.
From S2P Require Import Scanner ScanGate.

(** ** Chunks *)

Lemma request_chunks_ok fuel packages : (length packages <= fuel)%nat ->
  concat (request_chunks fuel packages) = packages /\
  Forall (fun c => 1 <= Z.of_nat (length c) <= MaxPackagesPerCheck) (request_chunks fuel packages).
Proof.
  revert packages. induction fuel as [|fuel IH]; intros packages Hlen; [by destruct packages; [|cbn in Hlen; lia]|].
  destruct packages as [|p packages]; [done|]. cbn [request_chunks].
  assert (exists k, Z.to_nat MaxPackagesPerCheck = S k /\ Z.of_nat (S k) = MaxPackagesPerCheck) as (k & Hk & HkZ).
  { exists (Nat.pred (Z.to_nat MaxPackagesPerCheck)). unfold MaxPackagesPerCheck. lia. }
  rewrite Hk. destruct (IH (drop (S k) (p :: packages))) as [Hc Hf].
  { rewrite length_drop. cbn [length] in *. lia. }
  split; [cbn [concat]; by rewrite Hc, take_drop|]. constructor; [|done]. rewrite length_take. cbn [length]. lia.
Qed.

Section chunks.
Context {U : UnicodeCase} {RT : RemoteText}.
Context {W : Type} (exchange : http_call -> W -> (string + http_answer) * W) (LoadCAPool : string -> option string).

(** Chunks posted in order, and what each was answered. *)
Inductive posted (cfg : Config) (endpoint : string) (ids : nat -> string)
    : nat -> list (list Package) -> http_client * W -> list ScanOutput -> http_client * W -> Prop :=
| posted_nil n st : posted cfg endpoint ids n [] st [] st
| posted_cons n chunk rest st result st1 answers st2 :
    postRemoteCheck exchange LoadCAPool cfg endpoint (ids n) chunk st = (inr result, st1) ->
    posted cfg endpoint ids (S n) rest st1 answers st2 ->
    posted cfg endpoint ids n (chunk :: rest) st (result :: answers) st2.

Lemma post_chunks_ok cfg endpoint ids n chunks g st g' st' :
  post_chunks exchange LoadCAPool cfg endpoint ids n chunks g st = (inr g', st') ->
  exists answers, posted cfg endpoint ids n chunks st answers st' /\ g' = fold_left gather answers g.
Proof.
  revert n g st. induction chunks as [|chunk rest IH]; intros n g st; cbn [post_chunks].
  - intros [= <- <-]. exists []. split; [constructor|done].
  - destruct (postRemoteCheck _ _ _ _ _ _ _) as [[e|result] st1] eqn:Hp; [done|]. intros Hrest.
    destruct (IH _ _ _ Hrest) as (answers & Hposted & ->). exists (result :: answers). split; [by econstructor|done].
Qed.

End chunks.

(** How bad a feed status is. *)
Definition status_rank (status : string) : Z :=
  let s := normalizeScanFeedStatus status in
  if bool_decide (s = ScanFeedStatusError) then 2 else if bool_decide (s = ScanFeedStatusDegraded) then 1 else 0.

Lemma normalize_cases status :
  normalizeScanFeedStatus status = ScanFeedStatusHealthy \/ normalizeScanFeedStatus status = ScanFeedStatusDegraded \/
  normalizeScanFeedStatus status = ScanFeedStatusError.
Proof. unfold normalizeScanFeedStatus. cbv zeta. repeat case_match; tauto. Qed.

Lemma merge_rank a b : status_rank (mergeRemoteFeedStatus a b) = Z.max (status_rank a) (status_rank b).
Proof.
  unfold status_rank, mergeRemoteFeedStatus. cbv zeta.
  destruct (normalize_cases a) as [->|[->| ->]], (normalize_cases b) as [->|[->| ->]]; reflexivity.
Qed.

Lemma gather_all answers g :
  let g' := fold_left gather answers g in
  gFindings g' = gFindings g ++ concat (soFindings <$> answers) /\
  status_rank (gStatus g') = fold_left (fun r a => Z.max r (status_rank (soFeedStatus a))) answers (status_rank (gStatus g)) /\
  gBlocking g' = gBlocking g || existsb soFindingsBlocking answers.
Proof.
  cbv zeta. revert g. induction answers as [|a answers IH]; intros g; cbn [fold_left].
  - split; [by rewrite app_nil_r|]. split; [done|]. by rewrite orb_false_r.
  - destruct (IH (gather g a)) as (-> & -> & ->). cbn [gather gFindings gStatus gBlocking fmap list_fmap concat existsb].
    split; [by rewrite app_assoc|]. split; [by rewrite merge_rank|]. by rewrite orb_assoc.
Qed.

Section covers.
Context {U : UnicodeCase} {RT : RemoteText}.
Context {W : Type} (exchange : http_call -> W -> (string + http_answer) * W) (LoadCAPool : string -> option string).

Lemma check_endpoint_secure cfg cl endpoint : check_endpoint cfg cl = inr endpoint ->
  exists scheme, url_scheme (TrimSpace (scServerURL cfg)) = inr scheme /\
    (EqualFold scheme "https" = true \/ scAllowInsecureHTTP cfg = true).
Proof.
  unfold check_endpoint. case_bool_decide; [done|]. destruct (clientErr cl); [done|]. cbv zeta.
  destruct (url_scheme _) as [e|scheme]; [done|]. exists scheme. split; [done|].
  destruct (EqualFold scheme "https"), (scAllowInsecureHTTP cfg); auto; done.
Qed.

Lemma status_rank_nonneg status : 0 <= status_rank status.
Proof. unfold status_rank. cbv zeta. repeat case_match; lia. Qed.

(** The requests of a remote check and the result made of their answers. *)
Lemma checkRemote_answers cfg t pkgs st r st' :
  checkRemoteResult exchange LoadCAPool cfg t pkgs st = (inr r, st') ->
  exists endpoint chunks answers,
    check_endpoint cfg st.1 = inr endpoint /\ concat chunks = remoteScanPackages pkgs /\
    Forall (fun c => Z.of_nat (length c) <= MaxPackagesPerCheck) chunks /\
    posted exchange LoadCAPool cfg endpoint (newCorrelation t) 0 chunks st answers st' /\
    (answers = [rrResult r] \/ r = mk_remote (gathered_result (fold_left gather answers (mk_gathered [] ∅ "" false))) false).
Proof.
  unfold checkRemoteResult. destruct (check_endpoint cfg st.1) as [e|endpoint]; [done|]. cbv zeta.
  destruct (Z.leb_spec (Z.of_nat (length (remoteScanPackages pkgs))) MaxPackagesPerCheck) as [Hle|Hgt].
  - destruct (postRemoteCheck _ _ _ _ _ _ _) as [[e|result] st1] eqn:Hp; [done|]. intros [= <- <-].
    exists endpoint, [remoteScanPackages pkgs], [result]. cbn [concat]. rewrite app_nil_r.
    split_and!; try done; [by apply Forall_singleton|by econstructor; [exact Hp|constructor]|by left].
  - destruct (post_chunks _ _ _ _ _ _ _ _ _) as [[e|g] st1] eqn:Hp; [done|]. intros [= <- <-].
    destruct (post_chunks_ok _ _ _ _ _ _ _ _ _ _ _ Hp) as (answers & Hposted & ->).
    destruct (request_chunks_ok (length (remoteScanPackages pkgs)) (remoteScanPackages pkgs) (le_n _)) as [Hconcat Hsizes].
    exists endpoint, (request_chunks (length (remoteScanPackages pkgs)) (remoteScanPackages pkgs)), answers.
    split_and!; try done; [|by right]. eapply Forall_impl; [exact Hsizes|]. cbn. lia.
Qed.

Lemma answers_findings answers r :
  answers = [rrResult r] \/ r = mk_remote (gathered_result (fold_left gather answers (mk_gathered [] ∅ "" false))) false ->
  soFindings (rrResult r) = concat (soFindings <$> answers) /\
  soFindingsBlocking (rrResult r) = existsb soFindingsBlocking answers /\
  status_rank (soFeedStatus (rrResult r)) = fold_left (fun r a => Z.max r (status_rank (soFeedStatus a))) answers 0.
Proof.
  intros [->| ->].
  - cbn [concat fmap list_fmap existsb fold_left]. rewrite app_nil_r, orb_false_r.
    pose proof (status_rank_nonneg (soFeedStatus (rrResult r))). split_and!; [done..|lia].
  - destruct (gather_all answers (mk_gathered [] ∅ "" false)) as (Hf & Hs & Hb). by split_and!.
Qed.

Lemma checkRemote_posted cfg t pkgs st r st' :
  checkRemoteResult exchange LoadCAPool cfg t pkgs st = (inr r, st') ->
  exists endpoint chunks answers, concat chunks = remoteScanPackages pkgs /\
    posted exchange LoadCAPool cfg endpoint (newCorrelation t) 0 chunks st answers st' /\
    soFindings (rrResult r) = concat (soFindings <$> answers).
Proof.
  intros (endpoint & chunks & answers & _ & Hc & _ & Hp & Ha)%checkRemote_answers.
  exists endpoint, chunks, answers. split_and!; [done..|]. by apply answers_findings.
Qed.

End covers.

(** ** The server at the other end *)

(** The coordinate the server looks up for a package of the project. *)
Definition server_coordinate {U : UnicodeCase} (p : Package) : checkPackageKey := sent_coordinate (valid_package p).

Definition server_query {U : UnicodeCase} (p : Package) : PackageQuery :=
  let '(ecosystem, name, version) := sent_coordinate (valid_package p) in mk_query ecosystem name version.

Section server.
Context {U : UnicodeCase} {C : AuditCrypto} {M : MediaTypes} {L : Logsafe} {MO : MapOrder}.
Context {S : Type} `{CheckStoreLaws S}.

(** The client sends the body and no idempotency key. *)
Definition carries (call : http_call) (r : http_request) : Prop :=
  RequestBody r = callBody call /\ IdempotencyHeader r = "".

Lemma sent_by_client r packages repo p :
  Forall coordinates_only packages -> RequestBody r = marshal_request (mk_scan_request packages repo) ->
  parseCheckRequest r = inr p -> sent_packages r = valid_package <$> packages.
Proof.
  intros Hp Hbody Hparse. unfold parseCheckRequest in Hparse. destruct (requireJSONContentType _); [|done]. cbn [negb] in Hparse.
  unfold sent_packages. unfold readJSONWithLimit in *. rewrite Hbody in *. destruct (_ <? _); [done|].
  destruct (unmarshal_request packages repo Hp) as (c & Hc & He & _). by rewrite Hc.
Qed.

(** An answer to the client comes from the store, never from the cache. *)
Lemma answered_afresh h f t r sv status dur body sv' packages repo :
  Forall coordinates_only packages -> RequestBody r = marshal_request (mk_scan_request packages repo) ->
  IdempotencyHeader r = "" -> HandleCheck h f t r sv = (Success status dur body, sv') ->
  exists result qs, encodeJSONResponse result = Some body /\
    (forall p, p ∈ packages -> server_query p ∈ qs) /\
    (forall fd, fd ∈ store_vulnerabilities qs (svStore sv) \/ fd ∈ store_malicious qs (svStore sv) -> fd ∈ resFindings result).
Proof.
  intros Hp Hbody Hkey Hcheck. destruct (parseCheckRequest r) as [rep|p] eqn:Hparse.
  { exfalso. unfold HandleCheck in Hcheck. rewrite Hparse in Hcheck. destruct (negb _); [done|].
    injection Hcheck as -> _. revert Hparse. unfold parseCheckRequest. repeat case_match; congruence. }
  destruct (parseCheckRequest_ok _ _ Hparse) as (_ & Hnd & _ & Hk & _).
  assert (cIdempotencyKey p = "") as Hempty.
  { unfold parseCheckRequest in Hparse. rewrite Hkey in Hparse. change (checkIdempotencyKey "") with (inr "" : string + string) in Hparse.
    repeat case_match; simplify_eq; done. }
  destruct (handle_success _ _ _ _ _ _ _ _ _ _ Hparse Hcheck) as [[(k & e & Hin & _) _]|(res & sv0 & Hs0 & Hfin)].
  { exfalso. rewrite Hempty in Hin. by apply not_elem_of_nil in Hin. }
  destruct (finish_ok _ _ _ _ _ _ _ _ _ Hnd Hfin) as (_ & _ & _ & _ & result & Henc & _ & _ & Hex).
  exists result, (package_query <$> srPackages (cRequest p)). split; [done|]. split.
  - intros q Hq. assert (sent_coordinate (valid_package q) ∈ check_key <$> srPackages (cRequest p)) as Hsent.
    { apply Hk. rewrite (sent_by_client _ _ _ _ Hp Hbody Hparse), <- list_fmap_compose. by apply (list_elem_of_fmap_2 (sent_coordinate ∘ valid_package)). }
    apply list_elem_of_fmap in Hsent as (x & Hx & Hin). apply list_elem_of_fmap. exists x. split; [|done].
    unfold server_query. rewrite Hx. done.
  - intros fd Hfd. rewrite (exact_findings _ _ _ _ _ _ Hex), Hs0, !elem_of_app. tauto.
Qed.

(** A check changes the store by a scan log entry at most. *)
Lemma handle_inserts h f t r sv reply sv' : HandleCheck h f t r sv = (reply, sv') ->
  svStore sv' = svStore sv \/ exists e, svStore sv' = store_insert e (svStore sv).
Proof.
  assert (forall p res sv0 reply sv', svStore sv0 = svStore sv -> finish_check h f t r p res sv0 = (reply, sv') ->
    svStore sv' = svStore sv \/ exists e, svStore sv' = store_insert e (svStore sv)) as Hfin.
  { intros p res sv0 reply0 sv0' Hs0. unfold finish_check.
    destruct (buildCheckResult _ _ _ _ _ _ _) as [[rep|[result body]] sv1] eqn:Hb; destruct (build_shared _ _ _ _ _ _ _ _ _ Hb) as [_ Hs1].
    - intros [= <- <-]. left. congruence.
    - destruct (persistCheckScanLog _ _ _ _ _ _ _ _) as [[rep|] s'] eqn:Hpers; intros [= <- <-]; cbn [set_store svStore];
        rewrite <- Hs0, <- Hs1; eapply persist_store; exact Hpers. }
  unfold HandleCheck. destruct (negb _); [intros [= <- <-]; by left|].
  destruct (parseCheckRequest r) as [rep|p]; [intros [= <- <-]; by left|].
  destruct (resolveCheckIdempotency _ _ _ _) as [rep|res]; [intros [= <- <-]; by left|].
  destruct (replay res); [|by apply Hfin].
  destruct (cached_check_response _ _ _ _) as [[c|] c']; [intros [= <- <-]; by left|]. by apply Hfin.
Qed.

(** The store has a finding with [good] for the query, in whatever batch it is
    looked up. *)
Definition knows (q : PackageQuery) (good : Finding -> Prop) (s : S) : Prop :=
  forall qs, q ∈ qs -> exists fd, (fd ∈ store_vulnerabilities qs s \/ fd ∈ store_malicious qs s) /\ good fd.

Lemma knows_insert q good e s : knows q good s -> knows q good (store_insert e s).
Proof. intros Hk qs Hq. rewrite insert_vulnerabilities, insert_malicious. by apply Hk. Qed.

(** An exchange with a check server: whatever happens on the way, an answer
    with status 200 is the one the handler gave to the client's body.  A body
    that goes on beyond the limit is read to the limit with its value, since
    the encoder writes a single byte after it. *)
Record serves (K : S -> Prop) (exchange : http_call -> service -> (string + http_answer) * service) : Prop := {
  serves_keeps : forall call sv a sv', exchange call sv = (a, sv') -> K (svStore sv) -> K (svStore sv');
  serves_answers : forall call sv a sv', exchange call sv = (inr a, sv') -> ansStatus a = 200 ->
    (maxRemoteCheckResponseSize + 1 < len (ansBody a) -> ansReadAhead a = true) /\
    exists h f t r dur sv1, carries call r /\ HandleCheck h f t r sv = (Success 200 dur (ansBody a), sv1)
}.

(** The plain case: every request reaches the handler. *)
Definition relay (h : Handler) (f : faults) (t : readings) (client : string) (call : http_call) (sv : service)
    : (string + http_answer) * service :=
  let r := mk_http "POST" (callContentType call) (callBody call) "" (callUserAgent call) client None (callCorrelation call) in
  match HandleCheck h f t r sv with
  | (Fail status message, sv') => (inr (mk_answer status "" message None true), sv')
  | (Success status _ body, sv') => (inr (mk_answer status "" body None true), sv')
  end.

(** A refusal never has status 200. *)
Definition refusal (reply : check_reply) : Prop := match reply with Fail status _ => status <> 200 | Success _ _ _ => True end.

Lemma store_error_refusal f e : refusal (checkStoreErrorResponse f e).
Proof. unfold checkStoreErrorResponse. repeat case_match; cbn; lia. Qed.

Lemma parse_refusal r reply : parseCheckRequest r = inl reply -> refusal reply.
Proof. unfold parseCheckRequest. cbv zeta. intros Hp. repeat case_match; simplify_eq; cbn; lia. Qed.

Lemma handle_refusal h f t r sv reply sv' : HandleCheck h f t r sv = (reply, sv') -> refusal reply.
Proof.
  assert (forall p res sv0 reply sv', finish_check h f t r p res sv0 = (reply, sv') -> refusal reply) as Hfin.
  { intros p res sv0 reply0 sv0'. unfold finish_check.
    destruct (buildCheckResult _ _ _ _ _ _ _) as [[rep|[result body]] sv1] eqn:Hb.
    - intros [= <- <-]. unfold buildCheckResult in Hb. destruct (collectFindingsForCheck _ _ _ _ _ _) as [[e|c] sv2].
      + injection Hb as <- _. apply store_error_refusal.
      + cbv zeta in Hb. destruct (feedState _ _). destruct (encodeJSONResponse _); [done|]. injection Hb as <- _. cbn. lia.
    - destruct (persistCheckScanLog _ _ _ _ _ _ _ _) as [[rep|] s'] eqn:Hpers; intros [= <- <-]; [|done].
      unfold persistCheckScanLog, verifyCheckIdempotencyAfterLog, verify_with, conflict in Hpers.
      repeat case_match; simplify_eq; first [apply store_error_refusal|cbn; lia]. }
  unfold HandleCheck. destruct (negb _); [intros [= <- <-]; cbn; lia|].
  destruct (parseCheckRequest r) as [rep|p] eqn:Hp; [intros [= <- <-]; by eapply parse_refusal|].
  destruct (resolveCheckIdempotency _ _ _ _) as [rep|res] eqn:Hres.
  { intros [= <- <-]. unfold resolveCheckIdempotency, resolve_with, conflict in Hres.
    repeat case_match; simplify_eq; first [apply store_error_refusal|cbn; lia]. }
  destruct (replay res); [|by apply Hfin].
  destruct (cached_check_response _ _ _ _) as [[c|] c']; [by intros [= <- <-]|]. by apply Hfin.
Qed.

Lemma relay_serves q good h f t client : serves (knows q good) (relay h f t client).
Proof.
  constructor; intros call sv a sv'; unfold relay; destruct (HandleCheck _ _ _ _ _) as [[status m|status dur body] sv1] eqn:Hc.
  1,2: intros [= <- <-] Hk; destruct (handle_inserts _ _ _ _ _ _ _ Hc) as [->|[e ->]]; [done|by apply knows_insert].
  - intros [= <- <-]. cbn [ansStatus]. intros ->. by destruct (handle_refusal _ _ _ _ _ _ _ Hc).
  - intros [= <- <-]. cbn [ansStatus ansBody ansReadAhead]. intros ->. split; [done|].
    eexists h, f, t, _, dur, sv1. split; [|exact Hc]. done.
Qed.
End server.

(** ** End to end *)

Lemma remote_packages_plain pkgs : Forall coordinates_only (remoteScanPackages pkgs).
Proof. unfold remoteScanPackages. apply Forall_fmap, Forall_forall. by intros. Qed.


Section end_to_end.
Context {U : UnicodeCase} {C : AuditCrypto} {M : MediaTypes} {L : Logsafe} {MO : MapOrder} {RT : RemoteText} {SS : SliceSort}.
Context {S : Type} `{CheckStoreLaws S}.
Context (exchange : http_call -> service (S := S) -> (string + http_answer) * service (S := S)) (LoadCAPool : string -> option string).

Lemma str_take_all n s : (String.length s <= n)%nat -> str_take n s = s.
Proof.
  revert s. induction n as [|n IH]; intros [|c s] Hn; cbn in *; try done; try lia. by rewrite IH by lia.
Qed.

Lemma decoded_response a result out : encodeJSONResponse result = Some (ansBody a) ->
  (maxRemoteCheckResponseSize + 1 < len (ansBody a) -> ansReadAhead a = true) ->
  decodeRemoteCheckResponse a = inr out -> out = read_back result.
Proof.
  intros Henc Hahead. pose proof (unmarshal_response _ _ Henc) as Hun. unfold decodeRemoteCheckResponse. cbv zeta.
  assert (forall c, unmarshal dec_result (ansBody a) zero_result_cell = Some c -> result_value c = read_back result) as Hval.
  { intros c Hc. rewrite Hc in Hun. cbn in Hun. by destruct (numbers_fit result); simplify_eq. }
  destruct (Z.leb_spec (len (ansBody a)) maxRemoteCheckResponseSize) as [Hle|Hgt].
  - destruct (ansBroken a); [done|]. destruct (unmarshal _ _ _) as [c|] eqn:Hc; [|done]. intros [= <-]. by apply Hval.
  - destruct (Z.ltb_spec (maxRemoteCheckResponseSize + 1) (len (ansBody a))) as [Hlt|Hge].
    + specialize (Hahead Hlt). rewrite Hahead.
      match goal with |- match ?x with _ => _ end = _ -> _ => destruct x end; discriminate.
    + rewrite str_take_all by (unfold len in Hge; lia).
      destruct (unmarshal _ _ _) as [c|] eqn:Hc; [|done]. destruct (ansReadAhead a); [done|]. intros [= <-]. by apply Hval.
Qed.

(** A chunk that is answered: the findings of the store for its packages. *)
Lemma post_answered K cfg endpoint id chunk st out st' :
  serves K exchange -> Forall coordinates_only chunk ->
  postRemoteCheck exchange LoadCAPool cfg endpoint id chunk st = (inr out, st') -> K (svStore st.2) ->
  K (svStore st'.2) /\
  exists result qs, soFindings out = valid_finding <$> resFindings result /\ (forall p, p ∈ chunk -> server_query p ∈ qs) /\
    (forall fd, fd ∈ store_vulnerabilities qs (svStore st.2) \/ fd ∈ store_malicious qs (svStore st.2) -> fd ∈ resFindings result).
Proof.
  intros [Hkeep Hans] Hchunk. unfold postRemoteCheck. destruct (new_request_error endpoint); [done|].
  destruct (ensureRemoteHTTPClient _ _ _) as [[e|] cl]; [done|].
  destruct (exchange _ st.2) as [[e|a] w] eqn:Hex; [done|]. destruct (Z.eqb_spec (ansStatus a) 200) as [Hst|]; cbn [negb]; [|done].
  destruct (decodeRemoteCheckResponse a) as [e|o] eqn:Hdec; [done|]. intros [= -> <-] Hk. split; [by eapply Hkeep|].
  destruct (Hans _ _ _ _ Hex Hst) as (Hahead & h & f & t & r & dur & sv1 & [Hbody Hkey] & Hcheck).
  destruct (answered_afresh _ _ _ _ _ _ _ _ _ _ _ Hchunk Hbody Hkey Hcheck) as (result & qs & Henc & Hqs & Hfound).
  exists result, qs. split; [|done]. by rewrite (decoded_response _ _ _ Henc Hahead Hdec).
Qed.

Lemma posted_found q good cfg endpoint ids n chunks st answers st' p :
  serves (knows q good) exchange -> Forall (Forall coordinates_only) chunks ->
  posted exchange LoadCAPool cfg endpoint ids n chunks st answers st' -> knows q good (svStore st.2) ->
  p ∈ concat chunks -> server_query p = q ->
  exists fd, valid_finding fd ∈ concat (soFindings <$> answers) /\ good fd.
Proof.
  intros Hserves Hchunks Hposted. induction Hposted as [|n chunk rest st result st1 answers st2 Hpost Hrest IH]; intros Hk Hp Hq.
  - by apply not_elem_of_nil in Hp.
  - apply Forall_cons in Hchunks as [Hchunk Hchunks].
    destruct (post_answered _ _ _ _ _ _ _ _ Hserves Hchunk Hpost Hk) as (Hk1 & res & qs & Hout & Hqs & Hfound).
    cbn [concat fmap list_fmap] in *. apply elem_of_app in Hp as [Hp|Hp].
    + destruct (Hk qs) as (fd & Hfd & Hgood); [rewrite <- Hq; by apply Hqs|]. exists fd. split; [|done].
      apply elem_of_app. left. rewrite Hout. by apply list_elem_of_fmap_2, Hfound.
    + destruct (IH Hchunks Hk1 Hp Hq) as (fd & Hfd & Hgood). exists fd. split; [|done]. apply elem_of_app. by right.
Qed.

Lemma concat_Forall {A} (P : A -> Prop) (ls : list (list A)) : Forall P (concat ls) -> Forall (Forall P) ls.
Proof. induction ls as [|l ls IH]; [constructor|]. cbn [concat]. intros [? ?]%Forall_app. constructor; auto. Qed.

(** A remote check that succeeds reports what the store knows. *)
Lemma remote_check_found q good cfg t pkgs st r st' p :
  serves (knows q good) exchange -> knows q good (svStore st.2) -> p ∈ pkgs -> server_query p = q ->
  checkRemoteResult exchange LoadCAPool cfg t pkgs st = (inr r, st') ->
  exists fd, valid_finding fd ∈ soFindings (rrResult r) /\ good fd.
Proof.
  intros Hserves Hk Hp Hq Hr.
  destruct (checkRemote_posted _ _ _ _ _ _ _ _ Hr) as (endpoint & chunks & answers & Hconcat & Hposted & ->).
  eapply (posted_found q good _ _ _ _ chunks); [done| |exact Hposted|done| |].
  - apply concat_Forall. rewrite Hconcat. apply remote_packages_plain.
  - rewrite Hconcat. unfold remoteScanPackages. by apply (list_elem_of_fmap_2 (fun pkg => plain_package (pkgName pkg) (pkgVersion pkg) (pkgEcosystem pkg))).
  - done.
Qed.
End end_to_end.

(** C12: the client and the server understand each other.  The server checks
    exactly the normalised coordinates of the packages the client was given, and
    the client reads from a response that fits its limit exactly the result the
    server encoded: findings in order, verdict, counts, summary, time and feed
    state, with text that is not UTF-8 repaired. *)
Theorem check_exchange_roundtrip {U : UnicodeCase} {C : AuditCrypto} {M : MediaTypes} {RT : RemoteText}
    cfg endpoint id pkgs r p result body correlation ahead :
  RequestBody r = callBody (check_call cfg endpoint id (remoteScanPackages pkgs)) -> parseCheckRequest r = inr p ->
  encodeJSONResponse result = Some body -> numbers_fit result = true -> len body <= maxRemoteCheckResponseSize ->
  (forall k, k ∈ check_key <$> srPackages (cRequest p) <-> k ∈ server_coordinate <$> pkgs) /\
  srRepo (cRequest p) =
    (fun repo => mk_repo (ToValidUTF8 (repoName repo))) <$> (if scOmitRepoMetadata cfg then None else remoteScanRepo (scRepo cfg)) /\
  decodeRemoteCheckResponse (mk_answer 200 correlation body None ahead) = inr (read_back result).
Proof.
  intros Hbody Hparse Henc Hfit Hlen. split; [|split].
  - intros k. destruct (parseCheckRequest_ok _ _ Hparse) as (_ & _ & _ & -> & _).
    rewrite (sent_by_client _ _ _ _ (remote_packages_plain pkgs) Hbody Hparse). unfold remoteScanPackages.
    by rewrite <- !list_fmap_compose.
  - unfold parseCheckRequest, readJSONWithLimit in Hparse. destruct (requireJSONContentType _); [|done]. cbn [negb] in Hparse.
    rewrite Hbody in Hparse. unfold check_call in Hparse. cbn [callBody] in Hparse. destruct (_ <? _); [done|].
    destruct (unmarshal_request _ (if scOmitRepoMetadata cfg then None else remoteScanRepo (scRepo cfg)) (remote_packages_plain pkgs))
      as (c & Hc & _ & Hrepo). rewrite Hc in Hparse. cbv zeta in Hparse. rewrite <- Hrepo. clear Hrepo.
    repeat case_match; simplify_eq; done.
  - unfold decodeRemoteCheckResponse. cbn [ansBody ansBroken]. rewrite (proj2 (Z.leb_le _ _)) by done.
    pose proof (unmarshal_response _ _ Henc) as Hun. rewrite Hfit in Hun.
    destruct (unmarshal _ _ _) as [c|]; [|done]. cbn in Hun. by injection Hun as ->.
Qed.

(** ** The in-memory store behind the server *)

Section devstore.
Context {U : UnicodeCase} {C : AuditCrypto} {M : MediaTypes} {L : Logsafe} {MO : MapOrder} {RT : RemoteText} {SS : SliceSort}.

Definition severity_of (vuln : Vulnerability) : Severity := ToUpper (TrimSpace (vSeverity vuln)).

(** The finding of an advisory. *)
Definition about (vuln : Vulnerability) (fd : Finding) : Prop :=
  fAdvisoryID fd = vID vuln /\ fType fd = FindingTypeVulnerability /\ fSeverity fd = severity_of vuln.

Lemma vulnerability_type eco name version (s : Store) f : f ∈ FindVulnerabilities eco name version s -> fType f = FindingTypeVulnerability.
Proof. by intros (id & v & p & _ & _ & _ & _ & _ & ->)%FindVulnerabilities_elem. Qed.

Lemma stored_known vuln pkg q (s : Store) :
  TrimSpace (vID vuln) <> "" -> pkg ∈ vAffectedPackages vuln -> pqEcosystem q = affEcosystem pkg ->
  NormalizeName (affEcosystem pkg) (pqName q) = NormalizeName (affEcosystem pkg) (affName pkg) ->
  ~ ruled_out (pqVersion q) (affEcosystem pkg) (affVersionRanges pkg) (affVersionsAffected pkg) ->
  knows q (about vuln) (UpsertVulnerability (Some vuln) s).
Proof.
  intros Hid Hpkg Heco Hname Hver qs Hq.
  destruct (stored_vulnerability_found vuln pkg (pqName q) (pqVersion q) s Hid Hpkg Hname (or_intror Hver))
    as (fd & Hfd & Hfid & Hsev & _).
  exists fd. split; [|split; [done|split; [by eapply vulnerability_type|done]]]. left.
  cbn [store_vulnerabilities devstore_check]. unfold FindVulnerabilitiesBatch. apply list_elem_of_bind. exists q.
  split; [by rewrite Heco|done].
Qed.

Lemma known_severity_ascii sev : 0 < Rank sev -> ToValidUTF8 sev = sev.
Proof.
  unfold Rank. repeat (case_bool_decide; [subst; intros _; reflexivity|]). lia.
Qed.

Lemma about_blocks vuln fd t : about vuln fd -> t <> SeverityNone -> 0 < Rank (severity_of vuln) ->
  Rank t <= Rank (severity_of vuln) -> FindingBlocks (valid_finding fd) t = true.
Proof.
  intros (_ & Hty & Hsev) Ht Hpos Hrank. apply FindingBlocks_spec. unfold FindingIsInformational.
  cbn [valid_finding fType fSeverity fRiskType]. rewrite Hty, Hsev, (known_severity_ascii (severity_of vuln)) by done.
  split; [reflexivity|by right].
Qed.

End devstore.

(** ** Witnesses *)

Section example_remote.
#[local] Instance remote_case : UnicodeCase := plain_case.
#[local] Instance remote_order : MapOrder := listed_order.
#[local] Instance remote_crypto : AuditCrypto := {| sha256_hex := fun s => Itoa (len s); hmac_hex := fun k s => s |}.
#[local] Instance remote_media : MediaTypes := fun s => Some "application/json".
#[local] Instance remote_logsafe : Logsafe := fun s _ => s.
#[local] Instance remote_sort : SliceSort := stable_sort.
#[local] Instance remote_text : RemoteText :=
  {| url_scheme := fun s => inr "https"; RedactURL := id; Quote := id; RemoteErrorSnippet := fun s _ => s;
     new_request_error := fun _ => None; json_error := fun _ => "invalid" |}.

Definition library_affected : AffectedPackage := mk_affected "go" "example.com/lib" "" (json_text "['v1.1.0']").
Definition library_advisory : Vulnerability :=
  mk_vuln "CVE-2" "bad" "" "high" None None None false false 0 0 None [] [] [] [library_affected].

Definition remote_service : service (S := Store) := mk_service (UpsertVulnerability (Some library_advisory) NewStore) None [].

Definition example_relay : http_call -> service (S := Store) -> (string + http_answer) * service (S := Store) :=
  relay (NewHandlerWithBlockThreshold SeverityHigh ScanLogIdentityModeFull) no_faults (example_readings year_2024) "10.0.0.1".

#[local] Notation library := (go_package "example.com/lib" "v1.1.0" true false) (only parsing).

#[local] Notation library_check :=
  (checkRemoteResult example_relay (fun _ => None) (example_config "remote" SeverityHigh) example_moments [library]
     (new_client, remote_service)) (only parsing).


#[local] Notation library_call :=
  (check_call (example_config "remote" SeverityHigh) "https://packmon.example/api/v1/check" "" (remoteScanPackages [library]))
  (only parsing).

#[local] Notation library_request := (mk_http "POST" "application/json" (callBody library_call) "" "" "" None "") (only parsing).

Definition library_result : ScanResult :=
  mk_scan_result "s" year_2024 1 1 1 true SeverityHigh "healthy" (mk_summary {["HIGH" := 1]} ∅ ∅)
    [mk_finding "example.com/lib" "v1.1.0" "go" "vulnerability" "HIGH" "CVE-2" "bad" "" [] "" "" "osv" []] ∅ 0.

Lemma check_exchange_roundtrip_witness :
  exists p body, parseCheckRequest library_request = inr p /\ encodeJSONResponse library_result = Some body /\
    (("go", "example.com/lib", "v1.1.0") : checkPackageKey) ∈ check_key <$> srPackages (cRequest p) /\
    decodeRemoteCheckResponse (mk_answer 200 "" body None false) = inr (read_back library_result).
Proof.
  destruct (parseCheckRequest library_request) as [e|p] eqn:Hp.
  { exfalso. assert (match parseCheckRequest library_request with inr _ => true | inl _ => false end = true) as Hs by (vm_compute; reflexivity).
    by rewrite Hp in Hs. }
  destruct (encodeJSONResponse library_result) as [body|] eqn:Hb; [|exfalso; revert Hb; vm_compute; discriminate].
  exists p, body. split; [reflexivity|]. split; [reflexivity|].
  destruct (check_exchange_roundtrip (example_config "remote" SeverityHigh) "https://packmon.example/api/v1/check" "" [library]
    library_request p library_result body "" false eq_refl Hp Hb) as (Hk & _ & Hd).
  - vm_compute. reflexivity.
  - assert (match encodeJSONResponse library_result with Some b => len b <=? maxRemoteCheckResponseSize | None => false end = true) as Hl
      by (vm_compute; reflexivity). rewrite Hb in Hl. by apply Z.leb_le.
  - split; [|exact Hd]. apply Hk. left.
Defined.

#[local] Notation library_scan :=
  (Run example_relay (fun _ => None) no_sbom (example_config "remote" SeverityHigh) [NewGoSumParser; NewGoModParser] None
     example_moments (inr two_modules) None (new_client, remote_service)) (only parsing).

#[local] Notation library_packages :=
  (collectScanPackages no_sbom (example_config "remote" SeverityHigh) [NewGoSumParser; NewGoModParser] (inr two_modules) None)
  (only parsing).

End example_remote.
