(* ===== verification/LocalScan.v ===== *)
(** Offline scans: the local database behind the scanner (internal/scanner,
    db_adapter.go), and what a full sync makes of it. *)
From stdpp Require Import base list option strings gmap.
From Stdlib Require Import Ascii ZArith Lia.
From S2P Require Import Prelude GoStrings GoNumbers AsciiText PackageId Json VersionRanges Collections JsonEncode Domain JsonMaps.
From S2P Require Import GoTime Lockfiles GoModules ScanCollect Advisories SyncCursor SyncRows Dates TimeParse SyncPages SyncContract.
From S2P Require Import LocalStore LocalBatch LocalSync SyncRuns FeedHealth SyncServer FullSync CheckRequest CheckHandler CheckWire.
From S2P Require Import Scanner ScanGate.

(** ** The adapter *)

(** Errors of the database, by lookup, and the text of the error that a row with
    unreadable constraints gives. *)
Record db_errors := mk_db_errors {
  onVulnerabilities : option string;
  onMalicious : option string;
  onReputation : option string;
  onLifecycle : option string;
  badRow : string
}.

Definition packageLookupsToDB (packages : list PackageLookup) : list Advisories.PackageQuery :=
  (fun pkg => Advisories.mk_query (plEcosystem pkg) (plName pkg) (plVersion pkg)) <$> packages.

Definition or_error {A} (e : option string) (a : A) : string + A := match e with Some e => inl e | None => inr a end.

Section adapter.
Context {U : UnicodeCase} {MO : MapOrder} {LP : LinkPolicy}.

(** A row that cannot be read is the error of its lookup. *)
Definition NewDBLocalCheckerAdapter (errors : db_errors) (clock : Time) (s : LocalDB) : LocalChecker :=
  mk_checker
    (fun eco name version => or_error (onVulnerabilities errors) (LocalStore.FindVulnerabilities eco name version s))
    (fun eco name version =>
       match onMalicious errors, LocalStore.FindMalicious eco name version s with
       | Some e, _ => inl e
       | None, Some found => inr found
       | None, None => inl (badRow errors)
       end)
    (fun packages source =>
       or_error (onReputation errors) (FindReputationFindingsBatch (packageLookupsToDB packages) source s))
    (fun packages now =>
       or_error (onLifecycle errors) (FindLifecycleFindingsBatch clock (packageLookupsToDB packages) now s))
    (Some (mk_batch_checker
       (fun packages => or_error (onVulnerabilities errors) (FindVulnerabilitiesBatch (packageLookupsToDB packages) s))
       (fun packages =>
          match onMalicious errors, FindMaliciousBatch (packageLookupsToDB packages) s with
          | Some e, _ => inl e
          | None, Some found => inr found
          | None, None => inl (badRow errors)
          end))).

(** What the local database looks up for a package of the project. *)
Definition local_query (p : Package) : Advisories.PackageQuery := Advisories.mk_query (pkgEcosystem p) (pkgName p) (pkgVersion p).

Lemma lookups_of pkgs : packageLookupsToDB (packageQueries pkgs) = local_query <$> pkgs.
Proof. unfold packageLookupsToDB, packageQueries. by rewrite <- list_fmap_compose. Qed.

(** ** Malicious packages are not missed *)

Lemma checked_finding rows row version found :
  checked_findings rows = Some found -> (row, version) ∈ rows -> malicious_affects version row <> Some false ->
  malicious_row_finding version row ∈ found.
Proof.
  revert found. induction rows as [|[r v] rows IH]; intros found Hf Hin Ha; [by apply not_elem_of_nil in Hin|].
  cbn [checked_findings] in Hf. destruct (malicious_affects v r) as [b|] eqn:Hb; [|done]. cbn [mbind option_bind] in Hf.
  destruct (checked_findings rows) as [fs|]; [|done]. injection Hf as <-.
  apply elem_of_cons in Hin as [[= -> ->]|Hin].
  - rewrite Hb in Ha. destruct b; [left|done].
  - specialize (IH fs eq_refl Hin Ha). destruct b; [by right|done].
Qed.

Lemma all_findings_one {A} (f : A -> option (list Finding)) l x found :
  all_findings f l = Some found -> x ∈ l -> exists fs, f x = Some fs /\ forall g, g ∈ fs -> g ∈ found.
Proof.
  revert found. induction l as [|y l IH]; intros found Hf Hin; [by apply not_elem_of_nil in Hin|]. cbn [all_findings] in Hf.
  destruct (f y) as [fs|] eqn:Hy; [|done]. cbn [mbind option_bind] in Hf. destruct (all_findings f l) as [rest|]; [|done].
  injection Hf as <-. apply elem_of_cons in Hin as [->|Hin].
  - exists fs. split; [done|]. intros g Hg. apply elem_of_app. by left.
  - destruct (IH rest eq_refl Hin) as (fs' & Hx & Hsub). exists fs'. split; [done|]. intros g Hg. apply elem_of_app. right. by apply Hsub.
Qed.

(** A stored row that does not rule the version out is found by the batch. *)
Lemma batch_finds_malicious pkgs p q id row s found :
  p ∈ pkgs -> normalized (local_query p) = Some q -> malicious_local s !! id = Some row -> LocalBatch.mal_key row = q.1 ->
  malicious_affects q.2 row <> Some false -> FindMaliciousBatch (local_query <$> pkgs) s = Some found ->
  malicious_row_finding q.2 row ∈ found.
Proof.
  intros Hp Hq Hrow Hkey Ha Hfound. pose proof (batch_malicious (local_query <$> pkgs) s) as Hb. rewrite Hfound in Hb.
  destruct (all_findings (lookup_malicious s) _) as [fs|] eqn:Hall; [|by inversion Hb].
  assert (found ≡ₚ fs) as -> by (by inversion Hb).
  destruct (all_findings_one _ _ q _ Hall) as (gs & Hgs & Hsub).
  { apply elem_of_remove_dups, list_elem_of_omap. exists (local_query p). split; [by apply list_elem_of_fmap_2|done]. }
  apply Hsub. eapply checked_finding; [exact Hgs| |done]. unfold rows_for. destruct q as [k v]. cbn [fst snd] in *.
  apply list_elem_of_fmap. exists row. split; [done|]. apply list_elem_of_filter. split; [done|].
  apply list_elem_of_fmap. exists (id, row). split; [done|]. by apply range_map_elem.
Qed.
End adapter.

(** ** After a full sync *)

Section synced.
Context {U : UnicodeCase} {MO : MapOrder} {LP : LinkPolicy} {K : Collation} {RT : RemoteText} {SS : SliceSort}.

(** The table of malicious packages after a full sync that finished. *)
Lemma finished_malicious db clock statuses cfg now local fuel st :
  database_ok db -> cfgEcosystems cfg = [] -> cfgFull cfg = true ->
  syncPaginatedResponses fuel (served db clock statuses cfg) cfg (main_pass cfg local) now local = (Finished, st) ->
  malicious_local (stDB st) =
  apply_rows malID malWithdrawn malicious_row ∅ (set_mal_severity <$> rowsMalicious db (full_window db)).
Proof.
  intros ok eco full Hrun.
  destruct (finished_rows db clock statuses cfg now local ok eco full _ _ Hrun) as (ps & Hps & Hne & [_ Dm _ _] & _).
  rewrite firstn_all in Dm.
  assert (passFull (main_pass cfg local) && negb (bool_decide (ps = [])) = true) as Hf.
  { assert (passFull (main_pass cfg local) = true) as -> by done. by rewrite bool_decide_false. }
  by rewrite (pages_malicious _ _ _ _ _ _ _ Hps), Hf, Dm.
Qed.

Lemma stored_row rows m :
  NoDup (malID <$> rows) -> m ∈ rows -> malWithdrawn m = false ->
  apply_rows malID malWithdrawn malicious_row ∅ (set_mal_severity <$> rows) !! malID m = Some (malicious_row (set_mal_severity m)).
Proof.
  intros Hnd Hm Hw. assert (malID <$> (set_mal_severity <$> rows) = malID <$> rows) as Hid by (by rewrite <- list_fmap_compose).
  rewrite apply_rows_lookup by (by rewrite Hid).
  assert (List.find (fun w => bool_decide (malID w = malID m)) (set_mal_severity <$> rows) = Some (set_mal_severity m)) as ->.
  { clear Hw Hid. induction rows as [|x rows IH]; [by apply not_elem_of_nil in Hm|]. rewrite fmap_cons in *. apply NoDup_cons in Hnd as [Hx Hnd].
    cbn [List.find]. change (malID (set_mal_severity x)) with (malID x). apply elem_of_cons in Hm as [->|Hm]; [by rewrite bool_decide_true|].
    rewrite bool_decide_false; [by apply IH|]. intros E. apply Hx. rewrite E. by apply list_elem_of_fmap_2. }
  change (malWithdrawn (set_mal_severity m)) with (malWithdrawn m). by rewrite Hw.
Qed.

Lemma malicious_row_blocks version row t :
  EqualFold (TrimSpace (lmRiskType row)) RiskTypeMalwareHistory = false -> FindingBlocks (malicious_row_finding version row) t = true.
Proof.
  intros Hr. apply FindingBlocks_spec. unfold FindingIsInformational, malicious_row_finding, localMaliciousFinding.
  cbn [fType fRiskType]. rewrite Hr, andb_false_r. split; [done|]. left. unfold FindingTypeForMaliciousRiskType.
  repeat case_match; rewrite !elem_of_cons; tauto.
Qed.

End synced.

(** ** Witness *)

Section example_local.
#[local] Instance local_case : UnicodeCase := plain_case.
#[local] Instance local_order : MapOrder := listed_order.
#[local] Instance local_sort : SliceSort := stable_sort.
#[local] Instance local_links : LinkPolicy := no_links.
#[local] Instance local_collation : Collation :=
  {| key_lt := fun a b => (String.length (String.concat "" a) <? String.length (String.concat "" b))%nat |}.
#[local] Instance local_text : RemoteText :=
  {| url_scheme := fun s => inr "https"; RedactURL := id; Quote := id; RemoteErrorSnippet := fun s _ => s;
     new_request_error := fun _ => None; json_error := fun _ => "invalid" |}.

Definition malicious_library : SyncMalicious :=
  mk_malicious "MAL-1" "go" "example.com/lib" "" "" "[]" "malware" "low" "" "osv" false.

Definition library_db : sync_database :=
  mk_sync_db (738000 * Day) 7 (fun _ => []) (fun _ => []) (fun _ _ _ => []) (fun _ _ _ => []) (fun _ _ _ => true)
    (fun _ => [malicious_library]) (fun _ => []) (fun _ => []).

Lemma library_db_ok : database_ok library_db.
Proof.
  split; try apply no_rows.
  - intros a b H. apply Nat.ltb_lt in H. apply Nat.ltb_ge. lia.
  - split.
    + intros i j x y Hij Hx Hy. destruct j as [|j]; [lia|]. destruct j; discriminate Hy.
    + intros r Hr. by apply list_elem_of_singleton in Hr as ->.
    + intros r Hr. apply list_elem_of_singleton in Hr as ->. repeat constructor.
  - split; [apply four_digit_year_range; cbn; unfold Day, Hour, Minute, Second; lia|discriminate].
  - split; [reflexivity|discriminate].
Qed.

#[local] Notation library_sync :=
  (syncPaginatedResponses 3 (served library_db 0 None full_config) full_config (main_pass full_config empty_local)
     (738000 * Day) empty_local) (only parsing).

Definition no_errors : db_errors := mk_db_errors None None None None "".

#[local] Notation library_scan st :=
  (Run (W := unit) (fun _ w => (inl "no network", w)) (fun _ => None) no_sbom (example_config "local" SeverityNone)
     [NewGoSumParser; NewGoModParser] (Some (NewDBLocalCheckerAdapter no_errors 0 (stDB st))) example_moments (inr two_modules) None
     (new_client, tt)) (only parsing).

#[local] Notation library_packages :=
  (collectScanPackages no_sbom (example_config "local" SeverityNone) [NewGoSumParser; NewGoModParser] (inr two_modules) None)
  (only parsing).

End example_local.
