(* ===== verification/StoreMachine.v ===== *)
(** The in-memory store as a state machine.

    [op] is a call of one method, [exec] its effect, [reachable] the stores a
    sequence of calls leads to from the empty one.  The refresh queue is
    specified abstractly by [queue_step] - jobs are added, removed, or moved
    along the edges of the status diagram - and every call is proved to refine
    it; the queue's invariants are then proved on the abstract machine.  The
    audit log and the API keys have invariants of their own. *)
From stdpp Require Import base list option strings gmap sorting.
From Stdlib Require Import Ascii ZArith Lia.
From S2P Require Import Prelude GoStrings Json Collections JsonEncode GoTime SyncRows AuditLog RefreshStatus.
From S2P Require Import Advisories DevStore RefreshQueue DevFeeds DevFindings DevScans.

(** ** Calls *)

Inductive op :=
| OEnqueue (now : Time) (job : RefreshJob)
| OEnqueueAudit (now now' : Time) (job : RefreshJob) (audit : option (bool -> Z -> AdminAuditEntry))
| ODequeue (now : Time) (source : string)
| OComplete (now : Time) (jobID : Z) (jobErr : option string)
| OCompleteClaimed (now : Time) (jobID : Z) (claimedAt : option Time) (jobErr : option string)
| OResetStuck (now : Time) (source : string) (threshold : Duration)
| OUpsertCheck (status : option PackageCheckStatus)
| OPruneChecks (now : Time) (retention : Duration)
| OPurge
| OPruneQueue (now : Time) (retention : Duration)
| OPurgeAudit (now : Time) (audit : option AdminAuditEntry)
| OPriority (jobID priority : Z)
| OPriorityAudit (now : Time) (jobID priority : Z) (audit : option AdminAuditEntry)
| ORetry (now : Time) (jobID : Z)
| ORetryAudit (now now' : Time) (jobID : Z) (audit : option AdminAuditEntry)
| OPause (jobID : Z)
| OPauseAudit (now : Time) (jobID : Z) (audit : option AdminAuditEntry)
| OResume (jobID : Z)
| OResumeAudit (now : Time) (jobID : Z) (audit : option AdminAuditEntry)
| OClear (statuses : list string)
| OClearAudit (now : Time) (statuses : list string) (audit : option AdminAuditEntry)
| OAudit (now : Time) (entry : option AdminAuditEntry)
| OPruneAudit (now : Time) (retention : Duration)
| OTouchKey (now : Time) (id : Z)
| OCreateKey (now : Time) (name keyHash : string) (expiresAt : option Time)
| OCreateKeyAudit (now now' : Time) (name keyHash : string) (expiresAt : option Time)
    (audit : option AdminAuditEntry)
| ORevokeKey (now : Time) (id : Z)
| ORevokeKeyAudit (now now' : Time) (id : Z) (audit : option AdminAuditEntry)
| ODeleteKey (id : Z)
| ODeleteKeyAudit (now : Time) (id : Z) (audit : option AdminAuditEntry)
| OUpsertAuth (now : Time) (passwordHash : string) (isBootstrap : bool)
| OUpsertAuthAudit (now now' : Time) (passwordHash : string) (isBootstrap : bool)
    (audit : option AdminAuditEntry)
| OChangePassword (now now' : Time) (newHash expectedOldHash : string) (audit : option AdminAuditEntry)
| OFeed (o : feed_op)
| OFinding (o : finding_op)
| OScan (o : scan_op).

(** The clock readings of a call. *)
Definition op_times (o : op) : list Time :=
  match o with
  | OEnqueue now _ | ODequeue now _ | OComplete now _ _ | OCompleteClaimed now _ _ _ | OResetStuck now _ _
  | OPruneChecks now _ | OPruneQueue now _ | OPurgeAudit now _ | OPriorityAudit now _ _ _ | ORetry now _
  | OPauseAudit now _ _ | OResumeAudit now _ _ | OClearAudit now _ _ | OAudit now _ | OPruneAudit now _
  | OTouchKey now _ | OCreateKey now _ _ _ | ORevokeKey now _ | ODeleteKeyAudit now _ _ | OUpsertAuth now _ _ =>
      [now]
  | OEnqueueAudit now now' _ _ | ORetryAudit now now' _ _ | OCreateKeyAudit now now' _ _ _ _
  | ORevokeKeyAudit now now' _ _ | OUpsertAuthAudit now now' _ _ _ | OChangePassword now now' _ _ _ =>
      [now; now']
  | OFeed o => feed_times o
  | OFinding o => finding_times o
  | OScan o => scan_times o
  | _ => []
  end.

Section machine.
Context {U : UnicodeCase} {C : AuditCrypto} {L : Logsafe} {MO : MapOrder} (key : string).

Definition exec (o : op) (s : Store) : Store :=
  match o with
  | OEnqueue now job => (EnqueueRefresh now job s).2
  | OEnqueueAudit now now' job audit => (EnqueueRefreshWithAudit key now now' job audit s).2
  | ODequeue now source => (DequeueRefresh now source s).2
  | OComplete now jobID jobErr => CompleteRefresh now jobID jobErr s
  | OCompleteClaimed now jobID claimedAt jobErr => (CompleteClaimedRefresh now jobID claimedAt jobErr s).2
  | OResetStuck now source threshold => (ResetStuckJobs now source threshold s).2
  | OUpsertCheck status => UpsertPackageCheckStatus status s
  | OPruneChecks now retention => (PrunePackageCheckStatus now retention s).2
  | OPurge => (PurgeQueue s).2
  | OPruneQueue now retention => (PruneRefreshQueue now retention s).2
  | OPurgeAudit now audit => (PurgeQueueWithAudit key now audit s).2
  | OPriority jobID priority => (UpdateQueueJobPriority jobID priority s).2
  | OPriorityAudit now jobID priority audit =>
      (UpdateQueueJobPriorityWithAudit key now jobID priority audit s).2
  | ORetry now jobID => (RetryQueueJob now jobID s).2
  | ORetryAudit now now' jobID audit => (RetryQueueJobWithAudit key now now' jobID audit s).2
  | OPause jobID => (PauseQueueJob jobID s).2
  | OPauseAudit now jobID audit => (PauseQueueJobWithAudit key now jobID audit s).2
  | OResume jobID => (ResumeQueueJob jobID s).2
  | OResumeAudit now jobID audit => (ResumeQueueJobWithAudit key now jobID audit s).2
  | OClear statuses => (ClearQueue statuses s).2
  | OClearAudit now statuses audit => (ClearQueueWithAudit key now statuses audit s).2
  | OAudit now entry => InsertAdminAuditLog key now entry s
  | OPruneAudit now retention => (PruneAdminAuditLogs now retention s).2
  | OTouchKey now id => TouchAPIKeyLastUsed now id s
  | OCreateKey now name keyHash expiresAt => (CreateAPIKey now name keyHash expiresAt s).2
  | OCreateKeyAudit now now' name keyHash expiresAt audit =>
      (CreateAPIKeyWithAudit key now now' name keyHash expiresAt audit s).2
  | ORevokeKey now id => (RevokeAPIKey now id s).2
  | ORevokeKeyAudit now now' id audit => (RevokeAPIKeyWithAudit key now now' id audit s).2
  | ODeleteKey id => (DeleteAPIKey id s).2
  | ODeleteKeyAudit now id audit => (DeleteAPIKeyWithAudit key now id audit s).2
  | OUpsertAuth now passwordHash isBootstrap => UpsertAdminAuth now passwordHash isBootstrap s
  | OUpsertAuthAudit now now' passwordHash isBootstrap audit =>
      UpsertAdminAuthWithAudit key now now' passwordHash isBootstrap audit s
  | OChangePassword now now' newHash expectedOldHash audit =>
      (ChangeAdminPasswordWithAudit key now now' newHash expectedOldHash audit s).2
  | OFeed o => exec_feed key o s
  | OFinding o => exec_finding key o s
  | OScan o => exec_scan o s
  end.

(** A run: the clock never goes back, and every reading of a call lies between
    the clock before and after it. *)
Inductive reachable : Time -> Store -> Prop :=
| reach_new T : reachable T NewStore
| reach_step T T' s o :
    reachable T s -> T <= T' -> Forall (fun t => T <= t <= T') (op_times o) -> reachable T' (exec o s).

(** ** Frames: what a call leaves alone *)

Lemma insert_keys now e s : apiKeys (insertAdminAuditLogLocked key now e s) = apiKeys s.
Proof. destruct e as [e|]; simpl; [|done]. by case_bool_decide. Qed.

Lemma insert_jobs now e s : refreshJobs (insertAdminAuditLogLocked key now e s) = refreshJobs s.
Proof. destruct e as [e|]; simpl; [|done]. by case_bool_decide. Qed.

Lemma insert_nextJobID now e s : nextJobID (insertAdminAuditLogLocked key now e s) = nextJobID s.
Proof. destruct e as [e|]; simpl; [|done]. by case_bool_decide. Qed.

Lemma insert_nextAPIKeyID now e s : nextAPIKeyID (insertAdminAuditLogLocked key now e s) = nextAPIKeyID s.
Proof. destruct e as [e|]; simpl; [|done]. by case_bool_decide. Qed.

(** The row an audited call writes after [log], with counter [id]. *)
Definition audit_row (now : Time) (e : AdminAuditEntry) (id : Z) (log : list AdminAuditLogEntry)
    : AdminAuditLogEntry :=
  let row := mk_log_entry (id + 1) (Action e) (Details e) (auditIP e) "" (truncate_micro now)
               (last_digest log) "" "" in
  let row := set_digest (ComputeAdminAuditDigest key row) row in
  set_status (AdminAuditIntegrityStatus key row) row.

Lemma insert_log now e s :
  auditLog (insertAdminAuditLogLocked key now (Some e) s) =
  auditLog s ++ [audit_row now e (nextAuditID s) (auditLog s)].
Proof. simpl. by case_bool_decide. Qed.

(** Case analysis on the branches of a method. *)
Ltac branches :=
  repeat match goal with
  | |- context [match ?x with _ => _ end] =>
      lazymatch x with
      | context [match _ with _ => _ end] => fail
      | _ => destruct x eqn:?
      end
  end.

(** Every method of the store down to its branches. *)
Ltac methods :=
  unfold EnqueueRefresh, EnqueueRefreshWithAudit, enqueueRefreshLocked, DequeueRefresh, CompleteRefresh,
    CompleteClaimedRefresh, update_job, ResetStuckJobs, UpsertPackageCheckStatus, PrunePackageCheckStatus,
    PurgeQueueWithAudit, PurgeQueue, purgeQueueLocked, PruneRefreshQueue,
    UpdateQueueJobPriority, UpdateQueueJobPriorityWithAudit, RetryQueueJob, RetryQueueJobWithAudit,
    PauseQueueJob, PauseQueueJobWithAudit, ResumeQueueJob, ResumeQueueJobWithAudit, ClearQueueWithAudit,
    ClearQueue, clearQueueLocked, clearQueueWithAllowedLocked, remove_jobs,
    PruneAdminAuditLogs, TouchAPIKeyLastUsed, CreateAPIKey, CreateAPIKeyWithAudit, createAPIKeyLocked,
    RevokeAPIKey, RevokeAPIKeyWithAudit, DeleteAPIKey, DeleteAPIKeyWithAudit, UpsertAdminAuth,
    UpsertAdminAuthWithAudit, ChangeAdminPasswordWithAudit, upsertAdminAuthLocked, InsertAdminAuditLog,
    updateQueueJobPriorityLocked, retryQueueJobLocked, pauseQueueJobLocked, resumeQueueJobLocked,
    revokeAPIKeyLocked, deleteAPIKeyLocked, change_at, change_at_audited in *;
  cbv zeta in *; branches; simplify_eq; cbn [fst snd] in *; simplify_eq.

(** ** The audit log *)

(** A call appends one row, removes old rows, or leaves the log. *)
Inductive log_step (id : Z) (times : list Time) (log : list AdminAuditLogEntry)
    : list AdminAuditLogEntry -> Prop :=
| log_same : log_step id times log log
| log_append now e : now ∈ times -> log_step id times log (log ++ [audit_row now e id log])
| log_prune cutoff :
    log_step id times log (filter (fun e => Before (logCreatedAt e) cutoff = false) log).

Lemma log_insert s times now e :
  now ∈ times ->
  log_step (nextAuditID s) times (auditLog s) (auditLog (insertAdminAuditLogLocked key now e s)).
Proof. intros H. destruct e as [e|]; [rewrite insert_log; by constructor|]. apply log_same. Qed.

Lemma framed_log times s s' : framed key times s s' -> log_step (nextAuditID s) times (auditLog s) (auditLog s').
Proof.
  intros [(_ & _ & _ & _ & _ & -> & _)|(now & e & s1 & s2 & Hin & H1 & -> & H2)]; [apply log_same|].
  destruct H1 as (_ & _ & _ & _ & _ & E1 & E2), H2 as (_ & _ & _ & _ & _ & -> & _).
  rewrite <- E1, <- E2, insert_log. by apply log_append.
Qed.

(** The calls on feeds, findings and scan logs leave keys and jobs alone. *)
Definition on_advisories (o : op) : bool :=
  match o with OFeed _ | OFinding _ | OScan _ => true | _ => false end.

Lemma exec_framed o s : on_advisories o = true -> framed key (op_times o) s (exec o s).
Proof.
  destruct o; try done; intros _; cbn [exec op_times];
    auto using exec_feed_framed, exec_finding_framed, framed_quiet, exec_scan_quiet.
Qed.

Lemma framed_rest times s s' :
  framed key times s s' ->
  apiKeys s' = apiKeys s /\ nextAPIKeyID s' = nextAPIKeyID s /\ refreshJobs s' = refreshJobs s /\
  nextJobID s' = nextJobID s.
Proof.
  intros [(? & ? & ? & ? & _)|(now & e & s1 & s2 & _ & (? & ? & ? & ? & _) & -> & (E1 & E2 & E3 & E4 & _))]; [done|].
  rewrite E1, E2, E3, E4, insert_keys, insert_jobs, insert_nextJobID, insert_nextAPIKeyID. done.
Qed.

Lemma exec_log o s : log_step (nextAuditID s) (op_times o) (auditLog s) (auditLog (exec o s)).
Proof.
  destruct (on_advisories o) eqn:Ho; [by apply framed_log, exec_framed|].
  destruct o; try done; cbn [exec op_times]; methods; try apply log_same; try apply log_prune.
  all: match goal with |- context [insertAdminAuditLogLocked key _ _ ?s'] => apply (log_insert s') end;
    set_solver.
Qed.

(** Verified rows, linked, in the order of their times, none after [T]. *)
Definition log_ok (T : Time) (log : list AdminAuditLogEntry) : Prop :=
  Forall (verified key) log /\ linked log /\
  StronglySorted (fun a b => logCreatedAt a <= logCreatedAt b) log /\
  Forall (fun e => logCreatedAt e <= truncate_micro T) log.

Lemma StronglySorted_snoc {A} (R : A -> A -> Prop) l x :
  StronglySorted R l -> Forall (fun y => R y x) l -> StronglySorted R (l ++ [x]).
Proof.
  induction 1 as [|y l Hs IH Hall]; simpl; intros H; [repeat constructor|].
  apply Forall_cons in H as [Hy Hl]. constructor; [auto|]. apply Forall_app. split; [done|].
  by constructor.
Qed.

(** Removing what is older than a cutoff from rows in time order removes a
    prefix. *)
Lemma prune_suffix cutoff log :
  StronglySorted (fun a b => logCreatedAt a <= logCreatedAt b) log ->
  exists n, filter (fun e => Before (logCreatedAt e) cutoff = false) log = drop n log.
Proof.
  induction 1 as [|e log Hs [n IH] Hall]; [by exists O|].
  rewrite filter_cons. destruct (decide (Before (logCreatedAt e) cutoff = false)) as [H|H].
  - exists O. simpl. f_equal. rewrite IH. unfold Before in *. rewrite Z.ltb_ge in H.
    assert (filter (fun e => (logCreatedAt e <? cutoff) = false) log = log) as E.
    { clear IH. induction Hall as [|x log Hx Hall IHl]; [done|]. rewrite filter_cons.
      apply StronglySorted_inv in Hs as [Hs _].
      rewrite decide_True by (rewrite Z.ltb_ge; lia). by rewrite IHl. }
    by rewrite <- IH.
  - exists (S n). simpl. done.
Qed.

Lemma drop_ok T n log : log_ok T log -> log_ok T (drop n log).
Proof.
  intros (Hv & Hl & Hs & Ht). unfold log_ok. split_and!.
  - by apply Forall_drop.
  - rewrite <- (take_drop n log) in Hl. by apply linked_app in Hl as [_ ?].
  - rewrite <- (take_drop n log) in Hs. by apply StronglySorted_app in Hs as (_ & _ & ?).
  - by apply Forall_drop.
Qed.

Lemma row_verified now e id log : verified key (audit_row now e id log).
Proof. unfold audit_row, verified. cbv zeta. rewrite status_set_status. apply digest_verified. Qed.

Lemma append_ok T now e id log :
  log_ok T log -> T <= now -> log_ok now (log ++ [audit_row now e id log]).
Proof.
  intros (Hv & Hl & Hs & Ht) Hnow. pose proof (truncate_micro_mono T now Hnow). unfold log_ok. split_and!.
  - apply Forall_app. split; [done|]. constructor; [apply row_verified|done].
  - destruct log as [|x log _] using rev_ind; [done|]. apply linked_snoc; [done|].
    simpl. unfold last_digest. by rewrite last_snoc.
  - apply StronglySorted_snoc; [done|]. apply (Forall_impl _ _ _ Ht). simpl. lia.
  - apply Forall_app. split; [|by repeat constructor]. apply (Forall_impl _ _ _ Ht). simpl. lia.
Qed.

Lemma log_ok_later T T' log : T <= T' -> log_ok T log -> log_ok T' log.
Proof.
  intros H (Hv & Hl & Hs & Ht). pose proof (truncate_micro_mono T T' H). unfold log_ok.
  split_and!; try done. apply (Forall_impl _ _ _ Ht). simpl. lia.
Qed.

Lemma log_step_ok T T' id times log log' :
  log_step id times log log' -> T <= T' -> Forall (fun t => T <= t <= T') times -> log_ok T log -> log_ok T' log'.
Proof.
  intros Hstep HT Htimes Hok. destruct Hstep as [|now e Hnow|cutoff].
  - by apply (log_ok_later T).
  - rewrite Forall_forall in Htimes. specialize (Htimes now Hnow).
    apply (log_ok_later now); [lia|]. apply (append_ok T); [done|lia].
  - apply (log_ok_later T); [done|]. destruct (prune_suffix cutoff log) as [n ->]; [apply Hok|].
    by apply drop_ok.
Qed.

Lemma reachable_log T s : reachable T s -> log_ok T (auditLog s).
Proof.
  induction 1 as [T|T T' s o _ IH HT Htimes].
  - unfold log_ok. simpl. split_and!; constructor.
  - apply (log_step_ok T _ _ _ _ _ (exec_log o s)); done.
Qed.

(** A page: skip [offset] rows, take [limit]. *)
Lemma page_loop_take {A} (rows : list A) skipped offset limit out :
  page_loop rows skipped offset limit out =
  take (Z.to_nat (limit - out)) (drop (Z.to_nat (offset - skipped)) rows).
Proof.
  revert skipped out. induction rows as [|r rows IH]; intros skipped out; cbn [page_loop].
  { by rewrite drop_nil, take_nil. }
  destruct (Z.ltb_spec out limit) as [Hlim|Hlim]; simpl.
  2:{ by replace (Z.to_nat (limit - out)) with 0%nat by lia. }
  destruct (Z.ltb_spec skipped offset) as [Hoff|Hoff].
  - rewrite IH. replace (Z.to_nat (offset - skipped)) with (S (Z.to_nat (offset - (skipped + 1)))) by lia.
    done.
  - rewrite IH. replace (Z.to_nat (offset - skipped)) with 0%nat by lia.
    replace (Z.to_nat (limit - out)) with (S (Z.to_nat (limit - (out + 1)))) by lia. done.
Qed.

Lemma linked_reverse_part (n m : nat) (log : list AdminAuditLogEntry) :
  linked log -> linked (reverse (take n (drop m (reverse log)))).
Proof.
  intros H.
  assert (exists pre post, log = pre ++ reverse (take n (drop m (reverse log))) ++ post) as (pre & post & E).
  { exists (reverse (drop n (drop m (reverse log)))), (reverse (take m (reverse log))).
    by rewrite <- !reverse_app, <- app_assoc, take_drop, take_drop, reverse_involutive. }
  rewrite E in H. apply linked_app in H as [_ H]. by apply linked_app in H as [? _].
Qed.

(** C16: the audit log is a verifiable chain.  Whatever methods of the store
    ran, with a clock that does not go back, every page of the log lists its
    rows as verified, also after old rows were pruned; and a page is the rows
    of the log, newest first, from the offset on. *)
Theorem audit_pages_verified T s limit offset :
  reachable T s ->
  let page := ListAdminAuditLogPage key limit offset s in
  Forall (fun e => IntegrityStatus e = AdminAuditIntegrityVerified) page /\
  (0 < limit <= Z.of_nat (length (auditLog s)) -> 0 <= offset ->
   logID <$> page = take (Z.to_nat limit) (drop (Z.to_nat offset) (logID <$> reverse (auditLog s)))).
Proof.
  intros (Hv & Hl & _ & _)%reachable_log page.
  assert (forall n m, AnnotateAdminAuditIntegrity key (take n (drop m (reverse (auditLog s)))) =
    set_status AdminAuditIntegrityVerified <$> take n (drop m (reverse (auditLog s)))) as Hpage.
  { intros n m. apply Annotate_verified; [|by apply linked_reverse_part].
    by apply Forall_take, Forall_drop, Forall_reverse. }
  unfold page, ListAdminAuditLogPage. rewrite page_loop_take, Hpage. split.
  - apply Forall_fmap, Forall_true. done.
  - intros Hlimit Hoffset. rewrite <- list_fmap_compose.
    rewrite (proj2 (Z.leb_gt limit 0)), (proj2 (Z.ltb_ge _ limit)), (proj2 (Z.ltb_ge offset 0)) by lia.
    simpl. by rewrite !Z.sub_0_r, fmap_take, fmap_drop.
Qed.

(** ** The refresh queue, abstractly *)

(** The edges of the status diagram, without the ones of a retry. *)
Inductive moves : string -> string -> Prop :=
| moves_stay st : moves st st
| moves_claim : moves RefreshStatusPending RefreshStatusProcessing
| moves_finish st st' : st' ∈ TerminalRefreshStatuses -> moves st st'
| moves_reset : moves RefreshStatusProcessing RefreshStatusPending
| moves_pause : moves RefreshStatusPending RefreshStatusPaused
| moves_resume : moves RefreshStatusPaused RefreshStatusPending.

(** A retry can also revive a finished job. *)
Definition revives (st st' : string) : Prop :=
  st ∈ RetryableRefreshStatuses /\ st' = RefreshStatusPending.

Definition same_job (j j' : RefreshJob) : Prop :=
  ID j = ID j' /\ Ecosystem j = Ecosystem j' /\ Name j = Name j' /\ Source j = Source j'.

(** [edge] relates the statuses of each job before and after. *)
Definition job_step (edge : string -> string -> Prop) (j j' : RefreshJob) : Prop :=
  same_job j j' /\ edge (Status j) (Status j').

(** One step of the queue [jobs] with counter [n]: jobs move, jobs are
    removed, or a job with a fresh identifier joins when no active job is for
    the same package and source. *)
Inductive queue_step (edge : string -> string -> Prop) (jobs : list RefreshJob) (n : Z)
    : list RefreshJob -> Z -> Prop :=
| queue_move jobs' : Forall2 (job_step edge) jobs jobs' -> queue_step edge jobs n jobs' n
| queue_remove jobs' : jobs' `sublist_of` jobs -> queue_step edge jobs n jobs' n
| queue_join j :
    ID j = n + 1 -> Status j ∈ RefreshStatuses ->
    (forall j', j' ∈ jobs -> active j' = true -> same_package j' j = false) ->
    queue_step edge jobs n (jobs ++ [j]) (n + 1).

(** Strictly increasing identifiers up to the counter, and known statuses. *)
Definition queue_ok (jobs : list RefreshJob) (n : Z) : Prop :=
  StronglySorted Z.lt (ID <$> jobs) /\ Forall (fun j => 0 < ID j <= n) jobs /\
  Forall (fun j => Status j ∈ RefreshStatuses) jobs /\ 0 <= n.

(** At most one active job per package and source. *)
Definition one_active (jobs : list RefreshJob) : Prop :=
  forall j j', j ∈ jobs -> j' ∈ jobs -> active j = true -> active j' = true ->
    same_package j j' = true -> ID j = ID j'.

(** Edges that lead to known statuses, and edges that keep finished jobs
    finished. *)
Definition closed (edge : string -> string -> Prop) : Prop :=
  forall st st', edge st st' -> st ∈ RefreshStatuses -> st' ∈ RefreshStatuses.
Definition no_revival (edge : string -> string -> Prop) : Prop :=
  forall st st', edge st st' -> IsActiveRefreshStatus st' = true -> IsActiveRefreshStatus st = true.

Lemma moves_closed : closed moves.
Proof.
  intros st st' H Hst. destruct H; try done; try (decided).
  unfold TerminalRefreshStatuses, RefreshStatuses in *. set_solver.
Qed.

Lemma moves_no_revival : no_revival moves.
Proof.
  intros st st' H Hact. destruct H as [| |st st' Ht| | |]; try done.
  exfalso. unfold TerminalRefreshStatuses in Ht. rewrite !elem_of_cons, elem_of_nil in Ht.
  destruct Ht as [->|[->|[]]]; discriminate Hact.
Qed.

Lemma same_job_ids edge jobs jobs' : Forall2 (job_step edge) jobs jobs' -> ID <$> jobs = ID <$> jobs'.
Proof. induction 1 as [|j j' jobs jobs' [(H & _) _] _ IH]; [done|]. by rewrite !fmap_cons, H, IH. Qed.

Lemma Forall_sublist {A} (P : A -> Prop) l' l : l' `sublist_of` l -> Forall P l -> Forall P l'.
Proof. intros Hsub Hall. rewrite Forall_forall in *. eauto using elem_of_sublist. Qed.

Lemma sublist_fmap_mono {A B} (f : A -> B) l' l : l' `sublist_of` l -> (f <$> l') `sublist_of` (f <$> l).
Proof. induction 1; simpl; by constructor. Qed.

Lemma StronglySorted_sublist {A} (R : A -> A -> Prop) l l' :
  l' `sublist_of` l -> StronglySorted R l -> StronglySorted R l'.
Proof.
  induction 1 as [|x l1 l2 Hsub IH|x l1 l2 Hsub IH]; intros Hs; [done| |];
    apply StronglySorted_inv in Hs as [Hs Hall]; [|auto].
  constructor; [auto|]. by apply (Forall_sublist _ l1 l2).
Qed.

Lemma queue_step_ok edge jobs n jobs' n' :
  closed edge -> queue_step edge jobs n jobs' n' -> queue_ok jobs n -> queue_ok jobs' n'.
Proof.
  intros Hc Hstep (Hs & Hid & Hst & Hn). unfold queue_ok. destruct Hstep as [jobs' Hmove|jobs' Hsub|j Hj Hjs _].
  - rewrite <- (same_job_ids edge jobs jobs' Hmove). split_and!; [done| | |done].
    + clear Hs Hst. induction Hmove as [|j j' l l' [(E & _) _] _ IH]; [done|].
      apply Forall_cons in Hid as [H Hid]. constructor; [rewrite <- E; done|auto].
    + clear Hs Hid. induction Hmove as [|j j' l l' [_ Hed] _ IH]; [done|].
      apply Forall_cons in Hst as [H Hst]. constructor; [by apply (Hc (Status j))|auto].
  - split_and!; [| | |done].
    + apply (StronglySorted_sublist _ (ID <$> jobs)); [by apply sublist_fmap_mono|done].
    + by apply (Forall_sublist _ jobs' jobs).
    + by apply (Forall_sublist _ jobs' jobs).
  - rewrite fmap_app. split_and!; [| | |lia].
    + apply StronglySorted_snoc; [done|]. apply Forall_fmap. apply (Forall_impl _ _ _ Hid). simpl. lia.
    + apply Forall_app. split; [apply (Forall_impl _ _ _ Hid); simpl; lia|]. constructor; [lia|done].
    + apply Forall_app. split; [done|]. by constructor.
Qed.

Lemma same_package_job a b a' b' :
  same_job a a' -> same_job b b' -> same_package a' b' = same_package a b.
Proof.
  destruct a, b, a', b'. intros (_ & H1 & H2 & H3) (_ & H4 & H5 & H6). simpl in *. by subst.
Qed.

Lemma same_package_sym a b : same_package a b = same_package b a.
Proof. unfold same_package. f_equal; [f_equal|]; apply bool_decide_ext; naive_solver. Qed.

Lemma queue_step_one_active edge jobs n jobs' n' :
  no_revival edge -> queue_step edge jobs n jobs' n' -> one_active jobs -> one_active jobs'.
Proof.
  intros Hnr Hstep Hone. destruct Hstep as [jobs' Hmove|jobs' Hsub|j Hj _ Hfresh].
  - assert (forall a', a' ∈ jobs' -> exists a, a ∈ jobs /\ job_step edge a a') as Hback.
    { intros a' [i Hi]%list_elem_of_lookup.
      destruct (Forall2_lookup_r _ _ _ _ _ Hmove Hi) as (a & Ha & Hstep).
      exists a. split; [by apply (list_elem_of_lookup_2 _ i)|done]. }
    intros a' b' (a & Ha & Sa & Ea)%Hback (b & Hb & Sb & Eb)%Hback Aa Ab Hsame.
    rewrite (same_package_job a b a' b') in Hsame by done.
    destruct Sa as [<- _], Sb as [<- _].
    apply Hone; try done; [apply (Hnr _ _ Ea Aa)|apply (Hnr _ _ Eb Ab)].
  - intros a b Ha Hb. apply Hone; eapply elem_of_sublist; eauto.
  - assert (forall a, a ∈ jobs -> active a = true -> same_package j a = false) as Hfresh'.
    { intros a Ha Aa. rewrite same_package_sym. auto. }
    intros a b [Ha|Ha%list_elem_of_singleton]%elem_of_app [Hb|Hb%list_elem_of_singleton]%elem_of_app Aa Ab Hsame;
      subst; [auto| | |done].
    + by rewrite Hfresh in Hsame.
    + by rewrite Hfresh' in Hsame.
Qed.

(** ** Claiming *)

(** The job at [i] goes before the job at [k]. *)
Definition goes_before (i : nat) (j : RefreshJob) (k : nat) (j' : RefreshJob) : Prop :=
  better j j' = true \/ (Priority j = Priority j' /\ RequestedAt j = RequestedAt j' /\ (i < k)%nat).

Definition is_best (source : string) (jobs : list RefreshJob) (best : option (nat * RefreshJob)) : Prop :=
  match best with
  | None => forall j, j ∈ jobs -> claimable source j = false
  | Some (i, j) =>
      jobs !! i = Some j /\ claimable source j = true /\
      forall k j', jobs !! k = Some j' -> claimable source j' = true -> k <> i -> goes_before i j k j'
  end.

Lemma is_best_snoc source jobs best job :
  is_best source jobs best ->
  is_best source (jobs ++ [job])
    (if negb (claimable source job) then best
     else match best with
          | None => Some (length jobs, job)
          | Some (bi, bj) => if better job bj then Some (length jobs, job) else Some (bi, bj)
          end).
Proof.
  intros Hbest.
  assert (forall k j', (jobs ++ [job]) !! k = Some j' -> jobs !! k = Some j' \/ (k = length jobs /\ j' = job)) as Hcase.
  { intros k j' [?|(? & H)]%lookup_app_Some; [by left|right].
    apply list_lookup_singleton_Some in H as [? ->]. split; [lia|done]. }
  assert ((jobs ++ [job]) !! length jobs = Some job) as Hlast.
  { apply lookup_app_Some. right. split; [lia|]. by rewrite Nat.sub_diag. }
  destruct (claimable source job) eqn:Ec; simpl.
  - destruct best as [[bi bj]|]; simpl in Hbest.
    + destruct Hbest as (Hi & Hcl & Hall). pose proof (lookup_lt_Some _ _ _ Hi) as Hlt.
      destruct (better job bj) eqn:Eb; simpl; split_and!; try done.
      * intros k j' [Hk|[-> ->]]%Hcase Hc Hne; [|done]. left.
        destruct (decide (k = bi)) as [->|Hk']; [by simplify_eq|].
        specialize (Hall k j' Hk Hc Hk'). unfold goes_before, better, Before in *.
        zbool; simpl in *; try done; destruct Hall as [|(? & ? & ?)]; try done; lia.
      * by apply lookup_app_l_Some.
      * intros k j' [Hk|[-> ->]]%Hcase Hc Hne; [auto|].
        unfold goes_before, better, Before in *. zbool; simpl in *; try done; auto; try lia;
          right; split_and!; lia.
    + split_and!; try done. intros k j' [Hk|[-> ->]]%Hcase Hc Hne; [|done].
      rewrite Hbest in Hc; [done|]. by apply (list_elem_of_lookup_2 _ k).
  - destruct best as [[bi bj]|]; simpl in *.
    + destruct Hbest as (Hi & Hcl & Hall). split_and!; [by apply lookup_app_l_Some|done|].
      intros k j' [Hk|[-> ->]]%Hcase Hc Hne; [auto|congruence].
    + intros j [?|?%list_elem_of_singleton]%elem_of_app; [auto|by subst].
Qed.

Lemma best_loop_best source jobs pre best :
  is_best source pre best -> is_best source (pre ++ jobs) (best_loop source (length pre) jobs best).
Proof.
  revert pre best. induction jobs as [|job jobs IH]; intros pre best H; simpl; [by rewrite app_nil_r|].
  rewrite cons_middle, app_assoc.
  replace (S (length pre)) with (length (pre ++ [job])) by (rewrite length_app; simpl; lia).
  apply IH. by apply is_best_snoc.
Qed.

Lemma best_loop_spec source jobs : is_best source jobs (best_loop source 0 jobs None).
Proof. apply (best_loop_best source jobs [] None). by intros j ?%elem_of_nil. Qed.

(** ** Refinement: every call is a step of the abstract queue *)

Definition is_retry (o : op) : bool :=
  match o with ORetry _ _ | ORetryAudit _ _ _ _ => true | _ => false end.

Definition edge_of (o : op) (st st' : string) : Prop :=
  moves st st' \/ (is_retry o = true /\ revives st st').

Lemma alter_step (edge : string -> string -> Prop) f i jobs :
  (forall st, edge st st) -> (forall j, jobs !! i = Some j -> job_step edge j (f j)) ->
  Forall2 (job_step edge) jobs (alter f i jobs).
Proof.
  intros Hrefl Hf. apply Forall2_lookup. intros k.
  destruct (decide (i = k)) as [->|Hne].
  - rewrite list_lookup_alter_eq. destruct (jobs !! k) as [j|] eqn:E; simpl; constructor. auto.
  - rewrite list_lookup_alter_ne by done. destruct (jobs !! k) as [j|]; constructor.
    split; [by repeat split|auto].
Qed.

Lemma insert_step (edge : string -> string -> Prop) i j j' jobs :
  (forall st, edge st st) -> jobs !! i = Some j -> job_step edge j j' ->
  Forall2 (job_step edge) jobs (<[i := j']> jobs).
Proof.
  intros Hrefl Hi Hj. replace (<[i := j']> jobs) with (alter (fun _ => j') i jobs).
  - apply alter_step; [done|]. intros x Hx. by simplify_eq.
  - apply list_eq. intros k. destruct (decide (i = k)) as [->|Hne].
    + rewrite list_lookup_alter_eq, list_lookup_insert_eq by (by eapply lookup_lt_Some). by rewrite Hi.
    + by rewrite list_lookup_alter_ne, list_lookup_insert_ne.
Qed.

Lemma map_step (edge : string -> string -> Prop) f jobs :
  (forall j, job_step edge j (f j)) -> Forall2 (job_step edge) jobs (f <$> jobs).
Proof. intros H. induction jobs as [|j jobs IH]; simpl; by constructor. Qed.

Lemma edge_refl o st : edge_of o st st.
Proof. left. constructor. Qed.

Lemma edge_moves o st st' : moves st st' -> edge_of o st st'.
Proof. by left. Qed.

(** A job keeps its identity and its status moves along [moves]. *)
Lemma job_move o (j j' : RefreshJob) :
  same_job j j' -> moves (Status j) (Status j') -> job_step (edge_of o) j j'.
Proof. intros H1 H2. split; [done|]. by left. Qed.

Lemma checked_inv jobID check e s i :
  checkedJob jobID check e s = inr i -> exists j, refreshJobs s !! i = Some j /\ check j = true.
Proof.
  unfold checkedJob. destruct (queueJobIndex _ _) as [k|]; [|done].
  destruct (refreshJobs s !! k) as [j|] eqn:E; [|done]. destruct (check j) eqn:Ec; [|done].
  intros [= <-]. eauto.
Qed.

Lemma checked_job jobID check e s i j :
  checkedJob jobID check e s = inr i -> refreshJobs s !! i = Some j -> check j = true.
Proof. intros (j' & Hj' & Hc)%checked_inv Hj. congruence. Qed.

Lemma checked_pending jobID s i j :
  pendingQueueJobIndexLocked jobID s = inr i -> refreshJobs s !! i = Some j -> Status j = RefreshStatusPending.
Proof. intros H1 H2. exact (bool_decide_eq_true_1 _ (checked_job _ _ _ _ _ _ H1 H2)). Qed.

Lemma checked_paused jobID s i j :
  pausedQueueJobIndexLocked jobID s = inr i -> refreshJobs s !! i = Some j -> Status j = RefreshStatusPaused.
Proof. intros H1 H2. exact (bool_decide_eq_true_1 _ (checked_job _ _ _ _ _ _ H1 H2)). Qed.

Lemma complete_moves now e j : moves (Status j) (Status (completeRefreshJob now e j)).
Proof. destruct e; simpl; apply moves_finish; decided. Qed.

Lemma filter_removal o s (P : RefreshJob -> Prop) `{!forall j, Decision (P j)} :
  queue_step (edge_of o) (refreshJobs s) (nextJobID s) (filter P (refreshJobs s)) (nextJobID s).
Proof. apply queue_remove, sublist_filter. Qed.

(** A change of the job at a checked index. *)
Lemma change_refines o s f i :
  (forall j, refreshJobs s !! i = Some j -> job_step (edge_of o) j (f j)) ->
  queue_step (edge_of o) (refreshJobs s) (nextJobID s) (alter f i (refreshJobs s)) (nextJobID s).
Proof. intros H. apply queue_move, alter_step; [apply edge_refl|done]. Qed.

Lemma unchanged_refines o s :
  queue_step (edge_of o) (refreshJobs s) (nextJobID s) (refreshJobs s) (nextJobID s).
Proof. apply queue_remove. done. Qed.

Lemma enqueue_refines o now job s :
  let s' := (enqueueRefreshLocked now job s).2 in
  queue_step (edge_of o) (refreshJobs s) (nextJobID s) (refreshJobs s') (nextJobID s').
Proof.
  unfold enqueueRefreshLocked. destruct (index_of _ _) as [i|] eqn:E; simpl.
  - destruct (refreshJobs s !! i) as [j|] eqn:Ej; simpl; [|apply unchanged_refines].
    destruct (_ <? _); simpl; [|apply unchanged_refines].
    apply queue_move, (insert_step _ _ j); [apply edge_refl|done|].
    apply job_move; [by repeat split|constructor].
  - rewrite index_of_None in E. apply queue_join; simpl; [done| |].
    + unfold initial_status. case_bool_decide; [decided|].
      destruct (NormalizeRefreshStatus (Status job)) as [st|] eqn:En; simpl; [|decided].
      by apply Normalize_Some in En.
    + intros j Hj Hact. specialize (E j Hj). rewrite Hact, andb_true_r in E. done.
Qed.

Lemma dequeue_refines o now source s :
  let s' := (DequeueRefresh now source s).2 in
  queue_step (edge_of o) (refreshJobs s) (nextJobID s) (refreshJobs s') (nextJobID s').
Proof.
  unfold DequeueRefresh. pose proof (best_loop_spec source (refreshJobs s)) as H.
  destruct (best_loop _ _ _ _) as [[i j]|]; simpl; [|apply unchanged_refines].
  destruct H as (Hi & Hc & _). apply queue_move, (insert_step _ _ j); [apply edge_refl|done|].
  apply job_move; [by repeat split|]. simpl. unfold claimable in Hc.
  apply andb_true_iff in Hc as [->%bool_decide_eq_true _]. constructor.
Qed.

Lemma retried_step o now j :
  is_retry o = true -> Status j ∈ RefreshStatuses -> retryable j = true -> job_step (edge_of o) j (retried now j).
Proof.
  intros Ho Hst Hr. split; [by repeat split|]. right. split; [done|]. split; [|done].
  unfold retryable, CanRetryRefreshStatus in Hr. rewrite normalized_in_known in Hr by done.
  by apply bool_decide_eq_true in Hr.
Qed.

Lemma reset_step o now source threshold j :
  job_step (edge_of o) j (if stuck now source threshold j then unstick j else j).
Proof.
  destruct (stuck now source threshold j) eqn:E; (apply job_move; [by repeat split|]); [|constructor].
  simpl. unfold stuck in E. destruct (ProcessedAt j); [|done].
  apply andb_true_iff in E as [[->%bool_decide_eq_true _]%andb_true_iff _]. apply moves_reset.
Qed.

Lemma enqueue_audit_jobs now now' job audit s :
  let s' := (EnqueueRefreshWithAudit key now now' job audit s).2 in
  let s'' := (enqueueRefreshLocked now job s).2 in
  refreshJobs s' = refreshJobs s'' /\ nextJobID s' = nextJobID s''.
Proof.
  unfold EnqueueRefreshWithAudit. destruct (enqueueRefreshLocked now job s) as [[created position] s''].
  destruct audit; cbn [snd]; [|done]. by rewrite insert_jobs, insert_nextJobID.
Qed.

(** The fields of an updated store. *)
Ltac fields :=
  cbn [adminAuth apiKeys auditLog checkStatuses refreshJobs nextAPIKeyID nextAuditID nextJobID set_auth
    set_keys set_log set_checks set_jobs set_nextAPIKeyID set_nextAuditID set_nextJobID] in *.

Lemma exec_queue o s :
  Forall (fun j => Status j ∈ RefreshStatuses) (refreshJobs s) ->
  queue_step (edge_of o) (refreshJobs s) (nextJobID s) (refreshJobs (exec o s)) (nextJobID (exec o s)).
Proof.
  intros Hst. destruct (on_advisories o) eqn:Ho.
  { destruct (framed_rest _ _ _ (exec_framed o s Ho)) as (_ & _ & -> & ->). apply unchanged_refines. }
  destruct o; try done; cbn [exec]; try apply enqueue_refines; try apply dequeue_refines.
  1:{ destruct (enqueue_audit_jobs now now' job audit s) as [-> ->]. apply enqueue_refines. }
  all: methods; fields; rewrite ?insert_jobs, ?insert_nextJobID; fields; rewrite ?insert_jobs, ?insert_nextJobID;
    try apply unchanged_refines; try apply filter_removal;
    try (apply queue_move, map_step; intros j; apply reset_step; fail); apply change_refines; intros j Hj.
  - apply job_move; [by destruct jobErr|apply complete_moves].
  - destruct (claimed_by _ j); [|split; [by repeat split|apply edge_refl]].
    apply job_move; [by destruct jobErr|apply complete_moves].
  - apply job_move; [by repeat split|constructor].
  - apply job_move; [by repeat split|constructor].
  - apply retried_step; [done|apply (Forall_lookup_1 _ _ _ _ Hst Hj)|]. by eapply checked_job.
  - apply retried_step; [done|apply (Forall_lookup_1 _ _ _ _ Hst Hj)|]. by eapply checked_job.
  - apply job_move; [by repeat split|]. simpl. rewrite (checked_pending jobID s n j) by done. apply moves_pause.
  - apply job_move; [by repeat split|]. simpl. rewrite (checked_pending jobID s n j) by done. apply moves_pause.
  - apply job_move; [by repeat split|]. simpl. rewrite (checked_paused jobID s n j) by done. apply moves_resume.
  - apply job_move; [by repeat split|]. simpl. rewrite (checked_paused jobID s n j) by done. apply moves_resume.
Qed.

Lemma edge_closed o : closed (edge_of o).
Proof. intros st st' [H|[_ [_ ->]]] Hst; [by apply (moves_closed st)|decided]. Qed.

Lemma edge_no_revival o : is_retry o = false -> no_revival (edge_of o).
Proof. intros Ho st st' [H|[H _]]; [by apply moves_no_revival|congruence]. Qed.

Lemma reachable_queue T s : reachable T s -> queue_ok (refreshJobs s) (nextJobID s).
Proof.
  induction 1 as [T|T T' s o _ IH _ _].
  { split_and!; [constructor..|done]. }
  apply (queue_step_ok (edge_of o) (refreshJobs s) (nextJobID s)); [apply edge_closed| |done].
  apply exec_queue, IH.
Qed.

(** ** Jobs by identifier *)

Lemma sorted_lookup_lt l i k (x y : Z) :
  StronglySorted Z.lt l -> l !! i = Some x -> l !! k = Some y -> (i < k)%nat -> x < y.
Proof.
  intros Hs. revert i k. induction Hs as [|z l Hs IH Hall]; intros i k Hi Hk Hlt; [done|].
  destruct k as [|k]; [lia|]. destruct i as [|i]; simplify_eq/=.
  - rewrite Forall_forall in Hall. apply Hall. by apply (list_elem_of_lookup_2 _ k).
  - apply (IH i k); auto with lia.
Qed.

Lemma ids_lookup jobs n i k a b :
  queue_ok jobs n -> jobs !! i = Some a -> jobs !! k = Some b -> (i < k)%nat -> ID a < ID b.
Proof.
  intros (Hs & _) Hi Hk. apply (sorted_lookup_lt (ID <$> jobs)); [done|..];
    rewrite list_lookup_fmap; [by rewrite Hi|by rewrite Hk].
Qed.

Lemma ids_inj jobs n a b : queue_ok jobs n -> a ∈ jobs -> b ∈ jobs -> ID a = ID b -> a = b.
Proof.
  intros Hok [i Hi]%list_elem_of_lookup [k Hk]%list_elem_of_lookup E.
  destruct (decide (i = k)) as [->|Hne]; [congruence|].
  pose proof (ids_lookup _ _ _ _ _ _ Hok Hi Hk). pose proof (ids_lookup _ _ _ _ _ _ Hok Hk Hi). lia.
Qed.

(** The search finds the job of an identifier. *)
Lemma queueJobIndex_spec jobs jobID :
  match queueJobIndex jobID jobs with
  | Some i => exists j, jobs !! i = Some j /\ ID j = jobID
  | None => forall j, j ∈ jobs -> ID j <> jobID
  end.
Proof.
  unfold queueJobIndex. destruct (index_of _ _) as [i|] eqn:E.
  - apply index_of_Some in E as (j & Hj & H%Z.eqb_eq & _). eauto.
  - rewrite index_of_None in E. intros j Hj. specialize (E j Hj). by apply Z.eqb_neq.
Qed.

Lemma find_job jobs n j :
  queue_ok jobs n -> j ∈ jobs -> queueJobIndex (ID j) jobs ≫= (jobs !!.) = Some j.
Proof.
  intros Hok Hj. pose proof (queueJobIndex_spec jobs (ID j)) as H.
  destruct (queueJobIndex (ID j) jobs) as [i|]; simpl.
  - destruct H as (j' & Hj' & E). rewrite Hj'. f_equal.
    apply (ids_inj jobs n); try done. by apply (list_elem_of_lookup_2 _ i).
  - by apply H in Hj.
Qed.

(** ** Queue positions *)

(** The jobs counted before a target. *)
Definition ahead (target job : RefreshJob) : bool :=
  drainable job && bool_decide (Source job = Source target) && negb (ID job =? ID target) &&
  noopRefreshJobBefore job target.

Lemma position_loop_count target jobs p :
  position_loop target jobs p = p + Z.of_nat (length (filter (fun j => ahead target j = true) jobs)).
Proof.
  revert p. induction jobs as [|j jobs IH]; intros p; [simpl; lia|].
  change (position_loop target (j :: jobs) p) with
    (position_loop target jobs
       (if negb (drainable j) || negb (bool_decide (Source j = Source target)) || (ID j =? ID target)
        then p else if noopRefreshJobBefore j target then p + 1 else p)).
  rewrite IH, filter_cons. unfold ahead.
  destruct (drainable j), (bool_decide (Source j = Source target)), (ID j =? ID target),
    (noopRefreshJobBefore j target); simpl; lia.
Qed.

Lemma queuePosition_count jobs n j :
  queue_ok jobs n -> j ∈ jobs -> drainable j = true ->
  queuePositionLocked (ID j) jobs = 1 + Z.of_nat (length (filter (fun k => ahead j k = true) jobs)).
Proof.
  intros Hok Hj Hd. unfold queuePositionLocked. rewrite (find_job jobs n j Hok Hj), Hd. simpl.
  apply position_loop_count.
Qed.

Lemma filter_length_lt {A} (P Q : A -> Prop) `{!forall x, Decision (P x)} `{!forall x, Decision (Q x)} l x :
  (forall y, y ∈ l -> P y -> Q y) -> x ∈ l -> Q x -> ~ P x ->
  (length (filter P l) < length (filter Q l))%nat.
Proof.
  intros Himp Hx HQ HP.
  assert (forall l, (forall y, y ∈ l -> P y -> Q y) -> (length (filter P l) <= length (filter Q l))%nat) as Hle.
  { clear. intros l. induction l as [|y l IH]; intros Himp; [done|]. rewrite !filter_cons.
    specialize (IH ltac:(intros z ?; apply Himp; by right)).
    destruct (decide (P y)) as [Hp|Hp], (decide (Q y)) as [Hq|Hq]; simpl; try lia.
    destruct Hq. apply Himp; [by left|done]. }
  induction l as [|y l IH]; [by apply elem_of_nil in Hx|]. rewrite !filter_cons.
  specialize (Hle l ltac:(intros z ?; apply Himp; by right)).
  apply elem_of_cons in Hx as [->|Hx].
  - rewrite decide_False by done. rewrite decide_True by done. simpl. lia.
  - specialize (IH ltac:(intros z ?; apply Himp; by right) Hx).
    destruct (decide (P y)) as [Hp|Hp], (decide (Q y)) as [Hq|Hq]; simpl; try lia.
    destruct Hq. apply Himp; [by left|done].
Qed.

(** The queue order is a strict total order on jobs of different identifiers. *)
Lemma before_iff a b :
  noopRefreshJobBefore a b = true <->
  Priority a < Priority b \/
  (Priority a = Priority b /\ (RequestedAt a < RequestedAt b \/
     (RequestedAt a = RequestedAt b /\ ID a < ID b))).
Proof.
  unfold noopRefreshJobBefore, Before.
  destruct (Z.eqb_spec (Priority a) (Priority b)), (Z.eqb_spec (RequestedAt a) (RequestedAt b)); simpl;
    rewrite Z.ltb_lt; lia.
Qed.

Lemma before_trans a b c :
  noopRefreshJobBefore a b = true -> noopRefreshJobBefore b c = true -> noopRefreshJobBefore a c = true.
Proof. rewrite !before_iff. lia. Qed.

Lemma before_irrefl a : noopRefreshJobBefore a a = false.
Proof. apply not_true_is_false. rewrite before_iff. lia. Qed.

Lemma before_total a b :
  ID a <> ID b -> noopRefreshJobBefore b a = negb (noopRefreshJobBefore a b).
Proof.
  intros Hne. apply eq_true_iff_eq. rewrite negb_true_iff, <- not_true_iff_false, !before_iff. lia.
Qed.

Lemma position_lt jobs n a b :
  queue_ok jobs n -> a ∈ jobs -> b ∈ jobs -> drainable a = true -> drainable b = true ->
  Source a = Source b -> noopRefreshJobBefore a b = true ->
  queuePositionLocked (ID a) jobs < queuePositionLocked (ID b) jobs.
Proof.
  intros Hok Ha Hb Da Db Hsrc Hab.
  rewrite (queuePosition_count jobs n a), (queuePosition_count jobs n b) by done.
  assert (ID a <> ID b) as Hne.
  { intros E. rewrite (ids_inj jobs n a b Hok Ha Hb E), before_irrefl in Hab. done. }
  assert (length (filter (fun k => ahead a k = true) jobs) <
          length (filter (fun k => ahead b k = true) jobs))%nat; [|lia].
  apply (filter_length_lt _ _ _ a); [|done| |].
  - unfold ahead. intros k Hk. rewrite !andb_true_iff, !bool_decide_eq_true, !negb_true_iff, !Z.eqb_neq.
    intros [[[Hd Hs] Hid] Hka]. split_and!; try done; [congruence| |by apply (before_trans k a b)].
    intros E. rewrite (ids_inj jobs n k b Hok Hk Hb E) in Hka.
    rewrite (before_total a b Hne), Hab in Hka. done.
  - unfold ahead. rewrite !andb_true_iff, bool_decide_eq_true, negb_true_iff, Z.eqb_neq. auto.
  - unfold ahead. rewrite before_irrefl, andb_false_r. done.
Qed.

(** ** Theorems on the queue *)

(** No finished job is revived by this call. *)
Definition revives_none (o : op) (s : Store) : Prop :=
  match o with
  | ORetry _ jobID | ORetryAudit _ _ jobID _ =>
      forall j, j ∈ refreshJobs s -> ID j = jobID -> active j = true
  | _ => True
  end.

Lemma retried_active now j :
  Status j ∈ RefreshStatuses -> retryable j = true -> active j = true -> job_step moves j (retried now j).
Proof.
  intros Hst Hr Ha. split; [by repeat split|]. simpl. unfold retryable, active in *.
  revert Hr Ha. revert Hst. generalize (Status j). clear.
  apply (RefreshStatuses_cases (fun st => CanRetryRefreshStatus st = true -> IsActiveRefreshStatus st = true ->
    moves st RefreshStatusPending)); try done. intros _ _. apply moves_resume.
Qed.

Lemma checked_id jobID check e s i j :
  checkedJob jobID check e s = inr i -> refreshJobs s !! i = Some j -> ID j = jobID.
Proof.
  unfold checkedJob. pose proof (queueJobIndex_spec (refreshJobs s) jobID) as H.
  destruct (queueJobIndex _ _) as [k|]; [|done]. destruct H as (j' & Hk & E).
  rewrite Hk. destruct (check j'); [|done]. intros [= <-]. congruence.
Qed.

Lemma retry_change_moves now jobID s i :
  Forall (fun j => Status j ∈ RefreshStatuses) (refreshJobs s) ->
  (forall j, j ∈ refreshJobs s -> ID j = jobID -> active j = true) ->
  retryableQueueJobIndexLocked jobID s = inr i ->
  Forall2 (job_step moves) (refreshJobs s) (alter (retried now) i (refreshJobs s)).
Proof.
  intros Hst Hact Hi. apply alter_step; [apply moves_stay|]. intros j Hj.
  apply retried_active; [apply (Forall_lookup_1 _ _ _ _ Hst Hj) | by eapply checked_job |].
  apply Hact; [by apply (list_elem_of_lookup_2 _ i)|by eapply checked_id].
Qed.

Lemma exec_queue_moves o s :
  Forall (fun j => Status j ∈ RefreshStatuses) (refreshJobs s) -> revives_none o s ->
  queue_step moves (refreshJobs s) (nextJobID s) (refreshJobs (exec o s)) (nextJobID (exec o s)).
Proof.
  intros Hst Hnone. destruct (is_retry o) eqn:Ho.
  - destruct o; try done; cbn [exec]; unfold RetryQueueJob, RetryQueueJobWithAudit, retryQueueJobLocked, change_at, change_at_audited;
      destruct (retryableQueueJobIndexLocked jobID s) as [e|i] eqn:E; cbn [snd];
      try (apply queue_remove; done); fields; rewrite ?insert_jobs, ?insert_nextJobID;
      by apply queue_move, (retry_change_moves _ jobID).
  - pose proof (exec_queue o s Hst) as H.
    assert (forall st st', edge_of o st st' -> moves st st') as Hsub by (intros ?? [?|[? _]]; congruence).
    destruct H as [jobs' H|jobs' H|j H1 H2 H3]; [|by apply queue_remove|by apply queue_join].
    apply queue_move. apply (Forall2_impl _ _ _ _ H). intros j j' [? ?]. split; auto.
Qed.

(** C15: the queue refines its specification.  Every method call on a
    reachable store is one step of the abstract queue: jobs move along the
    edges of the status diagram keeping their identity, jobs are removed, or
    one job with the next identifier joins, and only when no active job is for
    the same package and source.  Identifiers therefore stay unique and
    increasing, and statuses known. *)
Theorem queue_refines_specification T s o :
  reachable T s ->
  queue_step (edge_of o) (refreshJobs s) (nextJobID s) (refreshJobs (exec o s)) (nextJobID (exec o s)) /\
  NoDup (ID <$> refreshJobs s) /\
  Forall (fun j => 0 < ID j <= nextJobID s /\ Status j ∈ RefreshStatuses) (refreshJobs s).
Proof.
  intros H. pose proof (reachable_queue T s H) as (Hs & Hid & Hst & _). split_and!.
  - by apply exec_queue.
  - clear -Hs. induction Hs as [|x l Hs IH Hall]; constructor; [|done].
    intros Hx. rewrite Forall_forall in Hall. specialize (Hall x Hx). lia.
  - apply Forall_and. split; done.
Qed.

(** At most one active job per package and source.  Every call that does
    not revive a finished job keeps it so. *)
Theorem one_active_job_per_package T s o :
  reachable T s -> revives_none o s -> one_active (refreshJobs s) -> one_active (refreshJobs (exec o s)).
Proof.
  intros Hr Hnone. apply (queue_step_one_active moves _ (nextJobID s) _ (nextJobID (exec o s)));
    [apply moves_no_revival|]. apply exec_queue_moves; [apply (reachable_queue T s Hr)|done].
Qed.

(** One claimed job fewer. *)
Lemma length_filter_insert {A} (P : A -> Prop) `{!forall x, Decision (P x)} i x y l :
  l !! i = Some x -> P x -> ~ P y -> length (filter P l) = S (length (filter P (<[i := y]> l))).
Proof.
  intros Hi HP HN. rewrite <- (take_drop_middle l i x Hi) at 1.
  rewrite insert_take_drop by (by eapply lookup_lt_Some).
  rewrite !filter_app, !length_app, !filter_cons, decide_True, decide_False by done. simpl. lia.
Qed.

(** [DequeueRefresh] claims the first job of the queue.  It returns
    nothing, and changes nothing, exactly when no pending job is for the
    source; otherwise it marks as processing the pending job of the source
    that goes before every other one (best priority, then oldest request, then
    lowest identifier), stamps the claim with the time, and leaves every other
    job alone, so that one claimable job fewer remains. *)
Theorem DequeueRefresh_claims_first T s now source :
  reachable T s ->
  match DequeueRefresh now source s with
  | (None, s') => s' = s /\ forall j, j ∈ refreshJobs s -> claimable source j = false
  | (Some job, s') =>
      exists i j, refreshJobs s !! i = Some j /\ claimable source j = true /\
        job = set_ProcessedAt (Some now) (set_Status RefreshStatusProcessing j) /\
        refreshJobs s' = <[i := job]> (refreshJobs s) /\
        (forall k, k ∈ refreshJobs s -> claimable source k = true -> ID k <> ID j ->
           noopRefreshJobBefore j k = true) /\
        length (filter (fun k => claimable source k = true) (refreshJobs s)) =
          S (length (filter (fun k => claimable source k = true) (refreshJobs s')))
  end.
Proof.
  intros Hr. pose proof (reachable_queue T s Hr) as Hok. unfold DequeueRefresh.
  pose proof (best_loop_spec source (refreshJobs s)) as H.
  destruct (best_loop source 0 (refreshJobs s) None) as [[i j]|]; [|done].
  destruct H as (Hi & Hc & Hall). exists i, j. split_and!; try done.
  - intros k [n Hk]%list_elem_of_lookup Hck Hne.
    assert (n <> i) as Hni by (intros ->; congruence). specialize (Hall n k Hk Hck Hni).
    rewrite before_iff. unfold goes_before, better, Before in Hall.
    destruct Hall as [Hb|(Hp & Hq & Hlt)].
    + rewrite orb_true_iff, andb_true_iff, !Z.ltb_lt, Z.eqb_eq in Hb. lia.
    + pose proof (ids_lookup _ _ _ _ _ _ Hok Hi Hk Hlt). lia.
  - apply (length_filter_insert _ _ j); [done..|]. done.
Qed.

(** Queue positions rank the jobs that are waiting or being worked on.
    Among those of one source the position is one more than the number of jobs
    that go before, and one job goes before another exactly when its position
    is lower. *)
Theorem queue_positions_rank T s a b :
  reachable T s -> a ∈ refreshJobs s -> b ∈ refreshJobs s -> drainable a = true -> drainable b = true ->
  Source a = Source b -> ID a <> ID b ->
  queuePositionLocked (ID a) (refreshJobs s) =
    1 + Z.of_nat (length (filter (fun k => ahead a k = true) (refreshJobs s))) /\
  (noopRefreshJobBefore a b = true <->
   queuePositionLocked (ID a) (refreshJobs s) < queuePositionLocked (ID b) (refreshJobs s)).
Proof.
  intros Hr Ha Hb Da Db Hsrc Hne. pose proof (reachable_queue T s Hr) as Hok.
  pose proof (position_lt _ _ a b Hok Ha Hb Da Db Hsrc) as Hab.
  pose proof (position_lt _ _ b a Hok Hb Ha Db Da (eq_sym Hsrc)) as Hba.
  rewrite (before_total a b Hne) in Hba. split; [by apply (queuePosition_count _ (nextJobID s))|].
  split; [done|]. intros Hlt. destruct (noopRefreshJobBefore a b); [done|]. specialize (Hba eq_refl). lia.
Qed.

(** Work is completed only under its claim.  Completing a job with a
    claim marks it done or errored when the job is still processing under
    exactly that claim; when it was reset, claimed again at another time,
    finished or removed, nothing changes.  A missing claim is an error. *)
Theorem CompleteClaimedRefresh_only_under_claim T s now jobID claimedAt jobErr :
  reachable T s ->
  match CompleteClaimedRefresh now jobID claimedAt jobErr s with
  | (inl e, s') => claimedAt = None /\ e = MissingClaim jobID /\ s' = s
  | (inr _, s') =>
      exists c, claimedAt = Some c /\
        ((exists i j, refreshJobs s !! i = Some j /\ ID j = jobID /\ claimed_by c j = true /\
            refreshJobs s' = <[i := completeRefreshJob now jobErr j]> (refreshJobs s)) \/
         ((forall j, j ∈ refreshJobs s -> ID j = jobID -> claimed_by c j = false) /\
            refreshJobs s' = refreshJobs s))
  end.
Proof.
  intros Hr. pose proof (reachable_queue T s Hr) as Hok. unfold CompleteClaimedRefresh, update_job.
  destruct claimedAt as [c|]; [|done]. exists c. split; [done|].
  pose proof (queueJobIndex_spec (refreshJobs s) jobID) as H.
  destruct (queueJobIndex jobID (refreshJobs s)) as [i|].
  2:{ right. split; [|done]. intros j Hj E. by apply H in Hj. }
  destruct H as (j & Hj & E). fields. destruct (claimed_by c j) eqn:Ec.
  - left. exists i, j. split_and!; try done. apply list_eq. intros k. destruct (decide (i = k)) as [->|Hne].
    + rewrite list_lookup_alter_eq, list_lookup_insert_eq by (by eapply lookup_lt_Some). rewrite Hj. simpl. by rewrite Ec.
    + by rewrite list_lookup_alter_ne, list_lookup_insert_ne.
  - right. split.
    + intros j' Hj' E'. rewrite (ids_inj _ _ j' j Hok Hj'); [done|by apply (list_elem_of_lookup_2 _ i)|congruence].
    + apply list_eq. intros k. destruct (decide (i = k)) as [->|Hne]; [|by rewrite list_lookup_alter_ne].
      rewrite list_lookup_alter_eq, Hj. simpl. by rewrite Ec.
Qed.

(** Enqueueing deduplicates.  When an active job (pending, processing or
    paused) is for the same package and source, no job is added and that job's
    priority becomes the better of the two; otherwise exactly one job is added
    at the end, with the next identifier and the time of the request. *)
Theorem EnqueueRefresh_deduplicates T s now job :
  reachable T s ->
  let '(created, position, s') := EnqueueRefresh now job s in
  if created
  then (forall j, j ∈ refreshJobs s -> active j = true -> same_package j job = false) /\
       exists j, refreshJobs s' = refreshJobs s ++ [j] /\ ID j = nextJobID s + 1 /\
         same_package j job = true /\ Priority j = Priority job /\ RequestedAt j = now /\
         Status j = initial_status (Status job) /\ position = queuePositionLocked (ID j) (refreshJobs s')
  else exists i j, refreshJobs s !! i = Some j /\ active j = true /\ same_package j job = true /\
         refreshJobs s' = <[i := set_Priority (Z.min (Priority j) (Priority job)) j]> (refreshJobs s) /\
         position = queuePositionLocked (ID j) (refreshJobs s').
Proof.
  intros Hr. unfold EnqueueRefresh, enqueueRefreshLocked.
  destruct (index_of _ (refreshJobs s)) as [i|] eqn:E.
  - apply index_of_Some in E as (j & Hj & [Hsame Hact]%andb_true_iff & _). rewrite Hj.
    exists i, j. split_and!; try done.
    destruct (Z.ltb_spec (Priority job) (Priority j)); fields.
    + by rewrite Z.min_r by lia.
    + rewrite Z.min_l by lia. rewrite list_insert_id; [done|]. rewrite Hj. by destruct j.
  - rewrite index_of_None in E. split.
    + intros j Hj Hact. specialize (E j Hj). by rewrite Hact, andb_true_r in E.
    + eexists. split; [done|]. split_and!; try done. unfold same_package. simpl.
      by rewrite !bool_decide_true.
Qed.

(** Filtering by a predicate that agrees on the list. *)
Lemma filter_ext_elem {A} (P Q : A -> Prop) `{!forall x, Decision (P x)} `{!forall x, Decision (Q x)} (l : list A) :
  (forall x, x ∈ l -> P x <-> Q x) -> filter P l = filter Q l.
Proof.
  induction l as [|x l IH]; intros Hx; [done|]. rewrite !filter_cons.
  rewrite (IH ltac:(intros y ?; apply Hx; by right)).
  destruct (decide (P x)) as [Hp|Hp], (decide (Q x)) as [Hq|Hq]; try done; exfalso;
    apply Hq || apply Hp; apply (Hx x); try done; by left.
Qed.

Lemma filter_partition {A} (P Q : A -> Prop) `{!forall x, Decision (P x)} `{!forall x, Decision (Q x)} (l : list A) :
  (forall x, x ∈ l -> P x <-> ~ Q x) ->
  Z.of_nat (length l) - Z.of_nat (length (filter P l)) = Z.of_nat (length (filter Q l)).
Proof.
  induction l as [|x l IH]; intros Hx; [done|]. rewrite !filter_cons.
  specialize (IH ltac:(intros y ?; apply Hx; by right)). specialize (Hx x ltac:(by left)).
  destruct (decide (P x)), (decide (Q x)); cbn [length]; try tauto; lia.
Qed.

Lemma terminal_known j : Status j ∈ RefreshStatuses -> terminal j = bool_decide (Status j ∈ TerminalRefreshStatuses).
Proof. intros H. unfold terminal, IsTerminalRefreshStatus. by rewrite normalized_in_known. Qed.


(** ** API keys *)

(** A call changes keys in place, never un-revoking one; removes keys; or adds
    one with the next identifier. *)
Inductive key_step (keys : list APIKey) (n : Z) : list APIKey -> Z -> Prop :=
| key_change keys' :
    Forall2 (fun k k' => keyID k = keyID k' /\ (RevokedAt k <> None -> RevokedAt k' <> None)) keys keys' ->
    key_step keys n keys' n
| key_remove keys' : keys' `sublist_of` keys -> key_step keys n keys' n
| key_add k : keyID k = n + 1 -> key_step keys n (keys ++ [k]) (n + 1).

Lemma key_insert i k k' keys n :
  keys !! i = Some k -> keyID k = keyID k' -> (RevokedAt k <> None -> RevokedAt k' <> None) ->
  key_step keys n (<[i := k']> keys) n.
Proof.
  intros Hi Hid Hrev. apply key_change. apply Forall2_lookup. intros j.
  destruct (decide (i = j)) as [<-|Hne].
  - rewrite list_lookup_insert_eq by (by eapply lookup_lt_Some). rewrite Hi. by constructor.
  - rewrite list_lookup_insert_ne by done. destruct (keys !! j); by constructor.
Qed.

Lemma sublist_delete_one {A} i (l : list A) : delete i l `sublist_of` l.
Proof. apply sublist_delete. Qed.

Lemma revocable_inv id s i k :
  revocable id s = inr (i, k) -> apiKeys s !! i = Some k /\ keyID k = id /\ RevokedAt k = None.
Proof.
  unfold revocable, key_index. destruct (index_of _ _) as [j|] eqn:E; [|done].
  apply index_of_Some in E as (k' & Hk' & Hid%Z.eqb_eq & _). rewrite Hk'.
  destruct (bool_decide_reflect (RevokedAt k' = None)); simpl; [|done].
  destruct (bool_decide (DeletedAt k' = None)); simpl; [|done]. intros [= <- <-]. done.
Qed.

Lemma exec_keys o s :
  key_step (apiKeys s) (nextAPIKeyID s) (apiKeys (exec o s)) (nextAPIKeyID (exec o s)).
Proof.
  assert (forall keys n, key_step keys n keys n) as Hsame by (intros; by apply key_remove).
  destruct (on_advisories o) eqn:Ho.
  { destruct (framed_rest _ _ _ (exec_framed o s Ho)) as (-> & -> & _). apply Hsame. }
  destruct o; try done; cbn [exec]; methods; fields; rewrite ?insert_keys, ?insert_nextAPIKeyID; fields;
    rewrite ?insert_keys, ?insert_nextAPIKeyID; try apply Hsame;
    try (apply key_remove, sublist_delete_one; fail); try (by apply key_add).
  all: try (match goal with H : revocable _ _ = inr (?i, ?k) |- _ => apply revocable_inv in H as (H & _ & _) end;
    by eapply key_insert; [done|done|]).
  all: by eapply key_insert.
Qed.

Definition keys_ok (keys : list APIKey) (n : Z) : Prop :=
  StronglySorted Z.lt (keyID <$> keys) /\ Forall (fun k => keyID k <= n) keys.

Lemma key_step_ok keys n keys' n' : key_step keys n keys' n' -> keys_ok keys n -> keys_ok keys' n'.
Proof.
  intros Hstep [Hs Hid]. destruct Hstep as [keys' H|keys' H|k Hk].
  - assert (keyID <$> keys' = keyID <$> keys) as E.
    { clear -H. induction H as [|k k' l l' [E _] _ IH]; [done|]. by rewrite !fmap_cons, E, IH. }
    split; [by rewrite E|].
    assert (Forall (fun i => i <= n) (keyID <$> keys')) as Hle by (rewrite E; by apply Forall_fmap).
    rewrite Forall_fmap in Hle. exact Hle.
  - split; [|by apply (Forall_sublist _ keys' keys)].
    apply (StronglySorted_sublist _ (keyID <$> keys)); [by apply sublist_fmap_mono|done].
  - split.
    + rewrite fmap_app. apply StronglySorted_snoc; [done|]. apply Forall_fmap.
      apply (Forall_impl _ _ _ Hid). simpl. lia.
    + apply Forall_app. split; [apply (Forall_impl _ _ _ Hid); simpl; lia|]. constructor; [lia|done].
Qed.

Lemma reachable_keys T s : reachable T s -> keys_ok (apiKeys s) (nextAPIKeyID s).
Proof.
  induction 1 as [T|T T' s o _ IH _ _]; [split; constructor|].
  by apply (key_step_ok (apiKeys s) (nextAPIKeyID s)); [apply exec_keys|].
Qed.

(** The identifier was given out, and no key that still has it is usable. *)
Definition retired (id : Z) (s : Store) : Prop :=
  id <= nextAPIKeyID s /\ forall k, k ∈ apiKeys s -> keyID k = id -> RevokedAt k <> None.

Lemma key_step_retired id keys n keys' n' :
  key_step keys n keys' n' -> id <= n -> (forall k, k ∈ keys -> keyID k = id -> RevokedAt k <> None) ->
  id <= n' /\ (forall k, k ∈ keys' -> keyID k = id -> RevokedAt k <> None).
Proof.
  intros Hstep Hn Hrev. destruct Hstep as [keys' H|keys' H|k Hk]; (split; [lia|]).
  - intros k' [i Hi]%list_elem_of_lookup E. destruct (Forall2_lookup_r _ _ _ _ _ H Hi) as (k & Hk & Hid & Hr).
    apply Hr, Hrev; [by apply (list_elem_of_lookup_2 _ i)|congruence].
  - intros k Hk. apply Hrev. by apply (elem_of_sublist keys').
  - intros k' [?|?%list_elem_of_singleton]%elem_of_app E; [auto|subst; lia].
Qed.

(** ** Advisories, feeds and scan logs *)

(** The maps and the scan log the calls on keys, jobs and credentials leave
    alone. *)
Definition same_advisories (s s' : Store) : Prop :=
  vulnerable s' = vulnerable s /\ malicious s' = malicious s /\ maliciousDel s' = maliciousDel s /\
  feedConfigs s' = feedConfigs s /\ feedStatuses s' = feedStatuses s /\ scanLogs s' = scanLogs s.

Lemma insert_advisories now e s : same_advisories s (insertAdminAuditLogLocked key now e s).
Proof. unfold same_advisories. destruct e as [e|]; simpl; [|done]. by case_bool_decide. Qed.

Lemma exec_same_advisories o s : on_advisories o = false -> same_advisories s (exec o s).
Proof.
  assert (same_advisories s s) as Hrefl by done.
  destruct o; try done; intros _; cbn [exec]; methods; try done;
    match goal with |- context [insertAdminAuditLogLocked key ?now ?e ?s'] => apply (insert_advisories now e s') end.
Qed.

Lemma exec_advisory_steps o s : advisory_steps s (exec o s).
Proof.
  destruct (on_advisories o) eqn:Ho.
  - destruct o; try done; cbn [exec].
    + destruct (exec_feed_keeps key o s) as (E1 & E2 & E3 & _). by apply map_same.
    + apply exec_finding_maps.
    + apply map_same; destruct o; cbn [exec_scan]; unfold InsertScanLog, PruneScanLogs; cbv zeta; by case_match.
  - destruct (exec_same_advisories o s Ho) as (? & ? & ? & _). by apply map_same.
Qed.

(** Everything the store promises about the shape of its data. *)
Definition store_ok (T : Time) (s : Store) : Prop :=
  log_ok T (auditLog s) /\ queue_ok (refreshJobs s) (nextJobID s) /\ keys_ok (apiKeys s) (nextAPIKeyID s) /\
  findings_ok s /\ feeds_ok s /\ NoDup (recorded_keys (scanLogs s)).

Lemma exec_advisories_ok o s :
  findings_ok s /\ feeds_ok s /\ NoDup (recorded_keys (scanLogs s)) ->
  findings_ok (exec o s) /\ feeds_ok (exec o s) /\ NoDup (recorded_keys (scanLogs (exec o s))).
Proof.
  intros (Hf & Hd & Hk). split; [by apply (advisory_steps_ok s); [apply exec_advisory_steps|]|].
  destruct (on_advisories o) eqn:Ho.
  - destruct o; try done; cbn [exec].
    + split; [by apply exec_feed_ok|]. destruct (exec_feed_keeps key o s) as (_ & _ & _ & ->). done.
    + destruct (exec_finding_keeps_feeds key o s) as [-> H]. auto.
    + split; [|by apply exec_scan_keys].
      destruct o; cbn [exec_scan]; unfold InsertScanLog, PruneScanLogs; cbv zeta; by case_match.
  - destruct (exec_same_advisories o s Ho) as (_ & _ & _ & E1 & E2 & ->). unfold feeds_ok. by rewrite E1, E2.
Qed.

Lemma reachable_advisories T s :
  reachable T s -> findings_ok s /\ feeds_ok s /\ NoDup (recorded_keys (scanLogs s)).
Proof.
  induction 1 as [T|T T' s o _ IH _ _]; [|by apply exec_advisories_ok].
  unfold findings_ok, feeds_ok. split_and!; try (intros ?? H; simpl in H; by rewrite lookup_empty in H). constructor.
Qed.


(** C17: a revoked API key stays out.  Revoking a key retires it, every later
    call keeps it retired (revocation is never undone, and a deleted key's
    identifier is never given out again), and authentication never returns a
    retired, deleted or expired key. *)
Theorem revoked_key_never_authenticates T s now id s' os :
  reachable T s -> RevokeAPIKey now id s = (inr tt, s') ->
  let later := fold_left (fun s o => exec o s) os s' in
  retired id later /\
  (forall t hash k, FindAPIKeyByHash t hash later = Some k ->
     keyID k <> id /\ KeyHash k = hash /\ RevokedAt k = None /\ DeletedAt k = None /\ IsExpired k t = false).
Proof.
  intros Hr Hrev later.
  assert (retired id s') as Hret.
  { unfold RevokeAPIKey, revokeAPIKeyLocked in Hrev. destruct (revocable id s) as [|[i k]] eqn:E; simplify_eq.
    apply revocable_inv in E as (Hi & Hid & _). destruct (reachable_keys T s Hr) as [Hs Hle].
    split; fields; [rewrite Forall_forall in Hle; rewrite <- Hid; apply Hle; by apply (list_elem_of_lookup_2 _ i)|].
    intros k' [j Hj]%list_elem_of_lookup E. destruct (decide (i = j)) as [->|Hne].
    - rewrite list_lookup_insert_eq in Hj by (by eapply lookup_lt_Some). by simplify_eq.
    - rewrite list_lookup_insert_ne in Hj by done.
      assert ((keyID <$> apiKeys s) !! i = Some id) as H1 by (rewrite list_lookup_fmap, Hi; simpl; by rewrite Hid).
      assert ((keyID <$> apiKeys s) !! j = Some id) as H2 by (rewrite list_lookup_fmap, Hj; simpl; by rewrite E).
      destruct (Nat.lt_total i j) as [Hlt|[->|Hlt]]; [|done|].
      + pose proof (sorted_lookup_lt _ _ _ _ _ Hs H1 H2 Hlt). lia.
      + pose proof (sorted_lookup_lt _ _ _ _ _ Hs H2 H1 Hlt). lia. }
  assert (retired id later) as Hlater.
  { unfold later. clear -Hret. revert s' Hret. induction os as [|o os IH]; intros s' Hret; simpl; [done|].
    apply IH. destruct Hret. by apply (key_step_retired id _ _ _ _ (exec_keys o s')). }
  split; [done|]. intros t hash k Hfind. unfold FindAPIKeyByHash in Hfind.
  apply find_some in Hfind as [Hin Hk]. unfold usable in Hk.
  rewrite !andb_true_iff, !bool_decide_eq_true, negb_true_iff in Hk. destruct Hk as [[[? ?] ?] ?].
  split_and!; try done. intros E. apply (proj2 Hlater k); [by apply list_elem_of_In|done|done].
Qed.
End machine.

(** ** Witnesses and examples *)

Section examples.
#[local] Instance machine_case : UnicodeCase := plain_case.
#[local] Instance toy_crypto : AuditCrypto :=
  {| sha256_hex := fun d => d; hmac_hex := fun k d => k +:+ d |}.
#[local] Instance toy_logsafe : Logsafe := fun s n => str_take (Z.to_nat n) s.
#[local] Instance machine_order : MapOrder := listed_order.

Definition run (os : list op) : Store := fold_left (fun s o => exec "" o s) os NewStore.

(** Runs in which every clock reading is [T]. *)
Lemma run_reachable T os :
  forallb (fun o => forallb (Z.eqb T) (op_times o)) os = true -> reachable "" T (run os).
Proof.
  unfold run. intros H. induction os as [|o os IH] using rev_ind; [constructor|].
  rewrite forallb_app, andb_true_iff in H. destruct H as [H1 H2]. simpl in H2. rewrite andb_true_r in H2.
  rewrite fold_left_app. simpl. apply (reach_step "" T T); [by apply IH|lia|].
  apply Forall_forall. intros t Ht. rewrite forallb_forall in H2. apply list_elem_of_In, H2 in Ht. lia.
Qed.

Definition sample_job (name : string) (priority : Z) : RefreshJob :=
  mk_job 0 "npm" name "socket" priority "" 0 None "".

Definition sample_audit : option AdminAuditEntry := Some (mk_audit "queue_purge" "" "127.0.0.1" "").

Definition two_jobs : list op :=
  [OEnqueue 5000 (sample_job "left-pad" 3); OEnqueue 5000 (sample_job "lodash" 1);
   OAudit 5000 sample_audit; OAudit 5000 sample_audit].

Lemma audit_pages_verified_witness :
  Forall (fun e => IntegrityStatus e = AdminAuditIntegrityVerified)
    (ListAdminAuditLogPage "" 10 0 (run two_jobs)) /\
  length (ListAdminAuditLogPage "" 10 0 (run two_jobs)) = 2%nat.
Proof.
  split; [|vm_compute; reflexivity].
  apply (audit_pages_verified "" 5000 (run two_jobs) 10 0). apply run_reachable. vm_compute. reflexivity.
Defined.


Lemma queue_refines_specification_witness : NoDup (ID <$> refreshJobs (run two_jobs)).
Proof.
  apply (queue_refines_specification "" 5000 (run two_jobs) OPurge). apply run_reachable.
  vm_compute. reflexivity.
Defined.

Lemma one_active_job_per_package_witness :
  one_active (refreshJobs (exec "" (OEnqueue 5000 (sample_job "left-pad" 0)) (run []))).
Proof.
  apply (one_active_job_per_package "" 5000 (run [])); [apply run_reachable; vm_compute; reflexivity|exact I|].
  intros j j' Hj. by apply elem_of_nil in Hj.
Defined.

Lemma DequeueRefresh_claims_first_witness :
  match DequeueRefresh 5000 "socket" (run two_jobs) with
  | (None, s') => False
  | (Some job, _) => Name job = "lodash" /\ Status job = RefreshStatusProcessing
  end.
Proof.
  pose proof (DequeueRefresh_claims_first "" 5000 (run two_jobs) 5000 "socket"
    ltac:(apply run_reachable; vm_compute; reflexivity)) as H.
  destruct (DequeueRefresh 5000 "socket" (run two_jobs)) as [[job|] s'] eqn:E.
  - destruct H as (i & j & _ & _ & _ & _). vm_compute in E. injection E as <- <-. split; reflexivity.
  - destruct H as [_ H]. vm_compute in E. discriminate.
Defined.

Lemma queue_positions_rank_witness :
  queuePositionLocked 2 (refreshJobs (run two_jobs)) < queuePositionLocked 1 (refreshJobs (run two_jobs)).
Proof.
  pose (a := mk_job 2 "npm" "lodash" "socket" 1 "pending" 5000 None "").
  pose (b := mk_job 1 "npm" "left-pad" "socket" 3 "pending" 5000 None "").
  apply (queue_positions_rank "" 5000 (run two_jobs) a b);
    [apply run_reachable; vm_compute; reflexivity
    | vm_compute; right; left | vm_compute; left
    | vm_compute; reflexivity.. | discriminate | vm_compute; reflexivity].
Defined.

(** A job claimed, reset as stuck and claimed again: the first claim no longer
    completes it. *)
Definition claimed_twice : Store :=
  exec "" (ODequeue 9000 "socket") (exec "" (OResetStuck 9000 "socket" 1000)
    (exec "" (ODequeue 5000 "socket") (run two_jobs))).

Lemma claimed_twice_reachable : reachable "" 9000 claimed_twice.
Proof.
  assert (reachable "" 5000 (run two_jobs)) as H by (apply run_reachable; vm_compute; reflexivity).
  unfold claimed_twice.
  apply (reach_step "" 9000); [|lia|repeat constructor; lia].
  apply (reach_step "" 5000); [|lia|repeat constructor; lia].
  apply (reach_step "" 5000); [done|lia|repeat constructor; lia].
Qed.

Lemma CompleteClaimedRefresh_only_under_claim_witness :
  (CompleteClaimedRefresh 9500 2 (Some 5000) None claimed_twice).1 = inr tt /\
  refreshJobs (CompleteClaimedRefresh 9500 2 (Some 5000) None claimed_twice).2 = refreshJobs claimed_twice.
Proof.
  pose proof (CompleteClaimedRefresh_only_under_claim "" 9000 claimed_twice 9500 2 (Some 5000) None
    claimed_twice_reachable) as H.
  split; [vm_compute; reflexivity|].
  destruct (CompleteClaimedRefresh 9500 2 (Some 5000) None claimed_twice) as [[e|r] s'] eqn:E.
  - destruct H as [H _]. discriminate.
  - destruct H as (c & Hc & [(i & j & Hi & _ & Hcl & _)|[_ H]]); [|exact H]. injection Hc as <-.
    exfalso. vm_compute in Hi. do 2 (destruct i as [|i]; [injection Hi as <-; vm_compute in Hcl; discriminate|]).
    discriminate.
Defined.

Lemma EnqueueRefresh_deduplicates_witness :
  match EnqueueRefresh 5000 (sample_job "left-pad" 0) (run two_jobs) with
  | (created, _, s') => created = false /\ length (refreshJobs s') = 2%nat
  end.
Proof.
  pose proof (EnqueueRefresh_deduplicates "" 5000 (run two_jobs) 5000 (sample_job "left-pad" 0)
    ltac:(apply run_reachable; vm_compute; reflexivity)) as H.
  destruct (EnqueueRefresh 5000 (sample_job "left-pad" 0) (run two_jobs)) as [[[] position] s'] eqn:E.
  - vm_compute in E. discriminate.
  - split; [reflexivity|]. destruct H as (i & j & _ & _ & _ & -> & _). rewrite length_insert.
    vm_compute. reflexivity.
Defined.


Definition one_key : Store := run [OCreateKey 5000 "ci" "hash" None].

Lemma revoked_key_never_authenticates_witness :
  FindAPIKeyByHash 5000 "hash" one_key <> None /\
  retired 1 (fold_left (fun s o => exec "" o s) [OTouchKey 6000 1; ODeleteKey 1; OCreateKey 7000 "ci" "hash" None]
    (RevokeAPIKey 5000 1 one_key).2).
Proof.
  split; [vm_compute; discriminate|].
  refine (proj1 (revoked_key_never_authenticates "" 5000 one_key 5000 1 (RevokeAPIKey 5000 1 one_key).2
    [OTouchKey 6000 1; ODeleteKey 1; OCreateKey 7000 "ci" "hash" None] _ _)).
  - apply run_reachable. vm_compute. reflexivity.
  - vm_compute. reflexivity.
Defined.

(** A retry can revive a finished job although a newer job for the same
    package is active; both are then handed out for processing. *)
Definition retried_twice : Store :=
  run [OEnqueue 5000 (sample_job "left-pad" 3); ODequeue 5000 "socket"; OComplete 5000 1 None;
       OEnqueue 5000 (sample_job "left-pad" 3); ORetry 5000 1].

Lemma retry_duplicates_active_job :
  ~ one_active (refreshJobs retried_twice) /\
  match DequeueRefresh 5000 "socket" retried_twice with
  | (Some j1, s1) =>
      match DequeueRefresh 5000 "socket" s1 with
      | (Some j2, _) => same_package j1 j2 = true /\ ID j1 <> ID j2
      | _ => False
      end
  | _ => False
  end.
Proof.
  split; [|vm_compute; split; [reflexivity|discriminate]].
  intros H.
  discriminate (H (mk_job 1 "npm" "left-pad" "socket" 3 "pending" 5000 None "")
                  (mk_job 2 "npm" "left-pad" "socket" 3 "pending" 5000 None "")
                  ltac:(vm_compute; left) ltac:(vm_compute; right; left)
                  eq_refl eq_refl ltac:(vm_compute; reflexivity)).
Qed.

(** The rows of the audit log drop the correlation identifier of the entry. *)
Lemma audit_row_drops_correlation :
  logCorrelationID <$> auditLog (run [OAudit 5000 (Some (mk_audit "login" "" "" "request-7"))]) = [""].
Proof. vm_compute. reflexivity. Qed.

(** Why the clock must not go back: a row stamped earlier than the one before
    it is pruned from the middle, and its successor no longer verifies. *)
Lemma clock_going_back_breaks_chain :
  (IntegrityStatus <$> ListAdminAuditLog "" 10 (run
     [OAudit 9000000 sample_audit; OAudit 5000000 sample_audit; OAudit 9000000 sample_audit;
      OPruneAudit 9000000 2000000])) = [AdminAuditIntegrityBroken; AdminAuditIntegrityVerified].
Proof. vm_compute. reflexivity. Qed.
End examples.
