(* ===== verification/Session.v ===== *)
(** Admin sessions and CSRF tokens: internal/auth/{session,csrf}.go.

    The manager's mutex makes each method one atomic step.  A session holds a
    pointer to its CSRF state; the copies that methods hand out share it, so
    the model has a heap of CSRF states and sessions hold references into it.
    Random identifiers and tokens are arguments ([None] when crypto/rand
    fails), as are the clock reading, the value of the request's session cookie
    ([None] when there is none) and the submitted form token. *)
From stdpp Require Import base list option strings gmap.
From Stdlib Require Import Ascii ZArith Lia.
From S2P Require Import Prelude GoStrings GoTime.

Definition SessionCookieName : string := "packmon_session".
Definition SessionCookiePath : string := "/admin".
Definition preAuthSessionTTL : Duration := 15 * Minute.
Definition DefaultAdminIdleTimeout : Duration := 15 * Minute.

Record Session := mk_session {
  ID : string;
  Admin : bool;
  AuthenticatedWithBootstrap : bool;
  CreatedAt : Time;
  LastAccessed : Time;
  expiresAt : Time;
  csrf : option nat;
  flash : option (gmap string string)
}.

(** [heap] holds the tokens of the CSRF states, [next] the next reference. *)
Record SessionManager := mk_manager {
  sessions : gmap string Session;
  maxAge : Duration;
  idleTimeout : Duration;
  secure : bool;
  heap : gmap nat string;
  next : nat
}.

(** A cookie written to the response; a MaxAge of 0 is not sent. *)
Record Cookie := mk_cookie { cookieValue : string; cookiePath : string; MaxAge : Z; cookieSecure : bool }.

Definition set_sessions (m : gmap string Session) (sm : SessionManager) : SessionManager :=
  mk_manager m (maxAge sm) (idleTimeout sm) (secure sm) (heap sm) (next sm).
Definition set_heap (h : gmap nat string) (sm : SessionManager) : SessionManager :=
  mk_manager (sessions sm) (maxAge sm) (idleTimeout sm) (secure sm) h (next sm).

(** [&sessionCSRFState{}]: a fresh, empty state. *)
Definition new_csrf (sm : SessionManager) : nat * SessionManager :=
  (next sm, mk_manager (sessions sm) (maxAge sm) (idleTimeout sm) (secure sm)
              (<[next sm := ""]> (heap sm)) (S (next sm))).

Definition set_LastAccessed (t : Time) (x : Session) : Session :=
  mk_session (ID x) (Admin x) (AuthenticatedWithBootstrap x) (CreatedAt x) t (expiresAt x) (csrf x) (flash x).
Definition set_csrf (r : option nat) (x : Session) : Session :=
  mk_session (ID x) (Admin x) (AuthenticatedWithBootstrap x) (CreatedAt x) (LastAccessed x) (expiresAt x) r
    (flash x).
Definition set_flash (f : option (gmap string string)) (x : Session) : Session :=
  mk_session (ID x) (Admin x) (AuthenticatedWithBootstrap x) (CreatedAt x) (LastAccessed x) (expiresAt x)
    (csrf x) f.

Definition NewSessionManagerWithIdleTimeout (maxAge idleTimeout : Duration) (secure : bool) : SessionManager :=
  mk_manager ∅ (if maxAge <=? 0 then 8 * Hour else maxAge)
    (if idleTimeout <=? 0 then DefaultAdminIdleTimeout else idleTimeout) secure ∅ 0.

(** The copy shares the CSRF state; a nil one is replaced by a fresh one. *)
Definition cloneSession (x : Session) (sm : SessionManager) : Session * SessionManager :=
  match csrf x with
  | Some _ => (x, sm)
  | None => let '(r, sm) := new_csrf sm in (set_csrf (Some r) x, sm)
  end.

(** ** Cookies *)

Definition setAdminCookie (sm : SessionManager) (id : string) : Cookie :=
  mk_cookie id SessionCookiePath 0 (secure sm).
Definition setPreAuthCookie (sm : SessionManager) (id : string) (ttl : Duration) : Cookie :=
  mk_cookie id SessionCookiePath (ttl / Second) (secure sm).
Definition clearCookie (sm : SessionManager) (path : string) : Cookie := mk_cookie "" path (-1) (secure sm).

(** ** Creating sessions *)

Definition deleteAdminSessionsLocked (sm : SessionManager) : SessionManager :=
  set_sessions (filter (fun kv => Admin kv.2 = false) (sessions sm)) sm.

(** [None] is the error of crypto/rand. *)
Definition createAdmin (now : Time) (rand : option string) (bootstrap exclusive : bool) (sm : SessionManager)
    : option (Session * Cookie) * SessionManager :=
  match rand with
  | None => (None, sm)
  | Some id =>
      let '(r, sm) := new_csrf sm in
      let x := mk_session id true bootstrap now now (Add now (maxAge sm)) (Some r) None in
      let sm := if exclusive then deleteAdminSessionsLocked sm else sm in
      let sm := set_sessions (<[id := x]> (sessions sm)) sm in
      let '(clone, sm) := cloneSession x sm in
      (Some (clone, setAdminCookie sm id), sm)
  end.

Definition CreateAdmin (now : Time) (rand : option string) (bootstrap : bool) (sm : SessionManager) :=
  createAdmin now rand bootstrap false sm.

Definition CreateExclusiveAdmin (now : Time) (rand : option string) (sm : SessionManager) :=
  createAdmin now rand false true sm.

Definition CreatePreAuth (now : Time) (rand : option string) (sm : SessionManager)
    : option (Session * Cookie) * SessionManager :=
  match rand with
  | None => (None, sm)
  | Some id =>
      let ttl := Z.min (maxAge sm) preAuthSessionTTL in
      let '(r, sm) := new_csrf sm in
      let x := mk_session id false false now now (Add now ttl) (Some r) None in
      let sm := set_sessions (<[id := x]> (sessions sm)) sm in
      let '(clone, sm) := cloneSession x sm in
      (Some (clone, setPreAuthCookie sm id ttl), sm)
  end.

(** The request itself is not nil. *)
Definition reusablePreAuthSession (now : Time) (cookie : option string) (sm : SessionManager)
    : option (Session * Duration) * SessionManager :=
  match cookie with
  | None => (None, sm)
  | Some value =>
      if bool_decide (value = "") then (None, sm)
      else match sessions sm !! value with
           | None => (None, sm)
           | Some x =>
               if Admin x then (None, sm)
               else if IsZero (expiresAt x) || negb (Before now (expiresAt x))
               then (None, set_sessions (delete value (sessions sm)) sm)
               else
                 let ttl := Sub (expiresAt x) now in
                 if ttl <? Second then (None, set_sessions (delete value (sessions sm)) sm)
                 else
                   let x := set_LastAccessed now x in
                   let sm := set_sessions (<[value := x]> (sessions sm)) sm in
                   let '(clone, sm) := cloneSession x sm in
                   (Some (clone, ttl), sm)
           end
  end.

(** [now'] and [rand] are used when a new session is created. *)
Definition CreateOrReusePreAuth (now now' : Time) (rand : option string) (cookie : option string)
    (sm : SessionManager) : option (Session * Cookie) * SessionManager :=
  match reusablePreAuthSession now cookie sm with
  | (Some (x, ttl), sm) => (Some (x, setPreAuthCookie sm (ID x) ttl), sm)
  | (None, sm) => CreatePreAuth now' rand sm
  end.

(** ** Using and ending sessions *)

(** The two expiry rules, shared by [Get] and the cleanup. *)
Definition expired (now : Time) (sm : SessionManager) (x : Session) : bool :=
  (negb (IsZero (expiresAt x)) && After now (expiresAt x)) ||
  (Admin x && (0 <? idleTimeout sm) && (idleTimeout sm <? Sub now (LastAccessed x))).

Definition Get (now : Time) (cookie : option string) (sm : SessionManager) : option Session * SessionManager :=
  match cookie with
  | None => (None, sm)
  | Some value =>
      match sessions sm !! value with
      | None => (None, sm)
      | Some x =>
          if expired now sm x then (None, set_sessions (delete value (sessions sm)) sm)
          else
            let x := set_LastAccessed now x in
            let sm := set_sessions (<[value := x]> (sessions sm)) sm in
            let '(clone, sm) := cloneSession x sm in (Some clone, sm)
      end
  end.

Definition DeleteByID (id : string) (sm : SessionManager) : list Cookie * SessionManager :=
  ([clearCookie sm SessionCookiePath; clearCookie sm "/"], set_sessions (delete id (sessions sm)) sm).

Definition Delete (cookie : option string) (sm : SessionManager) : list Cookie * SessionManager :=
  match cookie with
  | None => ([], sm)
  | Some value => DeleteByID value sm
  end.

Definition DeleteAllAdminSessions (sm : SessionManager) : list Cookie * SessionManager :=
  let sm := deleteAdminSessionsLocked sm in
  ([clearCookie sm SessionCookiePath; clearCookie sm "/"], sm).

Definition cleanupExpiredSessions (now : Time) (sm : SessionManager) : SessionManager :=
  set_sessions (filter (fun kv => expired now sm kv.2 = false) (sessions sm)) sm.

(** ** Flash values *)

Definition SetFlash (id key value : string) (sm : SessionManager) : SessionManager :=
  match sessions sm !! id with
  | None => sm
  | Some x =>
      set_sessions (<[id := set_flash (Some (<[key := value]> (default ∅ (flash x)))) x]> (sessions sm)) sm
  end.

Definition GetFlash (id key : string) (sm : SessionManager) : string * SessionManager :=
  match sessions sm !! id with
  | None => ("", sm)
  | Some x =>
      match flash x with
      | None => ("", sm)
      | Some f =>
          match f !! key with
          | None => ("", sm)
          | Some v => (v, set_sessions (<[id := set_flash (Some (delete key f)) x]> (sessions sm)) sm)
          end
      end
  end.

Definition PeekFlash (id key : string) (sm : SessionManager) : string :=
  match sessions sm !! id with
  | None => ""
  | Some x => default "" (flash x ≫= (.!! key))
  end.

(** ** CSRF tokens

    A session here is a copy a method returned; [csrfState] gives a nil state
    a fresh one, stored in the copy. *)

Definition csrfState (x : Session) (sm : SessionManager) : nat * Session * SessionManager :=
  match csrf x with
  | Some r => (r, x, sm)
  | None => let '(r, sm) := new_csrf sm in (r, set_csrf (Some r) x, sm)
  end.

(** The token ([None] when crypto/rand fails), the copy, the manager. *)
Definition CSRFToken (rand : option string) (x : Session) (sm : SessionManager)
    : option string * Session * SessionManager :=
  let '(r, x, sm) := csrfState x sm in
  let token := default "" (heap sm !! r) in
  if negb (bool_decide (token = "")) then (Some token, x, sm)
  else match rand with
       | None => (None, x, sm)
       | Some t => (Some t, x, set_heap (<[r := t]> (heap sm)) sm)
       end.

Definition ValidateCSRF (formToken : string) (x : Session) (sm : SessionManager) : bool :=
  let '(r, x, sm) := csrfState x sm in
  let token := default "" (heap sm !! r) in
  if bool_decide (token = "") then false
  else if bool_decide (formToken = "") then false
  else bool_decide (formToken = token).

(** ** The manager as a state machine *)

Inductive sop :=
| SCreateAdmin (now : Time) (rand : option string) (bootstrap exclusive : bool)
| SCreatePreAuth (now : Time) (rand : option string)
| SCreateOrReuse (now now' : Time) (rand cookie : option string)
| SGet (now : Time) (cookie : option string)
| SDelete (cookie : option string)
| SDeleteByID (id : string)
| SDeleteAllAdmin
| SCleanup (now : Time)
| SSetFlash (id key value : string)
| SGetFlash (id key : string)
| SCSRFToken (rand : option string) (x : Session).

Definition sexec (o : sop) (sm : SessionManager) : SessionManager :=
  match o with
  | SCreateAdmin now rand bootstrap exclusive => (createAdmin now rand bootstrap exclusive sm).2
  | SCreatePreAuth now rand => (CreatePreAuth now rand sm).2
  | SCreateOrReuse now now' rand cookie => (CreateOrReusePreAuth now now' rand cookie sm).2
  | SGet now cookie => (Get now cookie sm).2
  | SDelete cookie => (Delete cookie sm).2
  | SDeleteByID id => (DeleteByID id sm).2
  | SDeleteAllAdmin => (DeleteAllAdminSessions sm).2
  | SCleanup now => cleanupExpiredSessions now sm
  | SSetFlash id key value => SetFlash id key value sm
  | SGetFlash id key => (GetFlash id key sm).2
  | SCSRFToken rand x => (CSRFToken rand x sm).2
  end.

(** A copy the manager handed out: its CSRF state exists. *)
Definition handed_out (x : Session) (sm : SessionManager) : Prop :=
  exists r, csrf x = Some r /\ (r < next sm)%nat.

(** The clock is past the zero time, generated tokens are not empty, and
    tokens are asked for with copies the manager handed out. *)
Definition sop_ok (o : sop) (sm : SessionManager) : Prop :=
  match o with
  | SCreateAdmin now _ _ _ | SCreatePreAuth now _ | SGet now _ | SCleanup now => 0 < now
  | SCreateOrReuse now now' _ _ => 0 < now /\ 0 < now'
  | SCSRFToken rand x => handed_out x sm /\ rand <> Some ""
  | _ => True
  end.

Inductive sreachable : SessionManager -> Prop :=
| sreach_new maxAge idleTimeout secure : sreachable (NewSessionManagerWithIdleTimeout maxAge idleTimeout secure)
| sreach_step o sm : sreachable sm -> sop_ok o sm -> sreachable (sexec o sm).

Definition ttl_of (sm : SessionManager) (x : Session) : Duration :=
  if Admin x then maxAge sm else Z.min (maxAge sm) preAuthSessionTTL.

Definition session_ok (sm : SessionManager) (id : string) (x : Session) : Prop :=
  ID x = id /\ handed_out x sm /\ 0 < CreatedAt x /\ expiresAt x = CreatedAt x + ttl_of sm x.

Definition manager_ok (sm : SessionManager) : Prop :=
  0 < maxAge sm /\ 0 < idleTimeout sm /\
  (forall id x, sessions sm !! id = Some x -> session_ok sm id x) /\
  (forall id id' x x', sessions sm !! id = Some x -> sessions sm !! id' = Some x' -> csrf x = csrf x' -> id = id').

(** What every step does to the sessions: each one there afterwards was there
    before with the same rights and life time, or was just created. *)
Definition same_rights (x x' : Session) : Prop :=
  ID x = ID x' /\ Admin x = Admin x' /\ AuthenticatedWithBootstrap x = AuthenticatedWithBootstrap x' /\
  CreatedAt x = CreatedAt x' /\ expiresAt x = expiresAt x' /\ csrf x = csrf x'.

(** [fresh] holds of the session a step creates, if it creates one. *)
Definition session_step (sm sm' : SessionManager) (fresh : string -> Session -> Prop) : Prop :=
  maxAge sm' = maxAge sm /\ idleTimeout sm' = idleTimeout sm /\ (next sm <= next sm')%nat /\
  (forall r t, (r < next sm)%nat -> heap sm !! r = Some t -> t <> "" -> heap sm' !! r = Some t) /\
  (exists id0 : option string,
     forall id x', sessions sm' !! id = Some x' ->
       (id0 = Some id /\ fresh id x' /\ csrf x' = Some (next sm) /\ (next sm < next sm')%nat) \/
       (id0 <> Some id /\ exists x, sessions sm !! id = Some x /\ same_rights x x')).

Lemma same_rights_refl x : same_rights x x.
Proof. by repeat split. Qed.

(** Sessions only removed or touched. *)
Lemma step_subset sm m fresh :
  (forall id x', m !! id = Some x' -> exists x, sessions sm !! id = Some x /\ same_rights x x') ->
  session_step sm (set_sessions m sm) fresh.
Proof.
  intros H. repeat split; try done. exists None. intros id x' Hx'. right. split; [done|]. by apply H.
Qed.

Lemma step_refl sm fresh : session_step sm sm fresh.
Proof.
  repeat split; try done. exists None. intros id x Hx. right. split; [done|]. eauto using same_rights_refl.
Qed.

Lemma step_delete sm id fresh : session_step sm (set_sessions (delete id (sessions sm)) sm) fresh.
Proof.
  apply step_subset. intros id' x' H%lookup_delete_Some. destruct H as [_ H]. eauto using same_rights_refl.
Qed.

Lemma step_filter sm (P : string * Session -> Prop) `{!forall kv, Decision (P kv)} fresh :
  session_step sm (set_sessions (filter P (sessions sm)) sm) fresh.
Proof.
  apply step_subset. intros id' x' [Hx _]%map_lookup_filter_Some. eauto using same_rights_refl.
Qed.

Lemma step_update sm id x x' fresh :
  sessions sm !! id = Some x -> same_rights x x' ->
  session_step sm (set_sessions (<[id := x']> (sessions sm)) sm) fresh.
Proof.
  intros Hx Hs. apply step_subset. intros id' y H%lookup_insert_Some.
  destruct H as [[<- <-]|[_ H]]; eauto using same_rights_refl.
Qed.

(** A new session with a fresh CSRF state, over some of the old ones. *)
Lemma step_create sm id x m (fresh : string -> Session -> Prop) :
  m ⊆ sessions sm -> csrf x = Some (next sm) -> fresh id x ->
  session_step sm (set_sessions (<[id := x]> m) (new_csrf sm).2) fresh.
Proof.
  intros Hm Hc Hf. repeat split; simpl; try done; [lia| |].
  - intros r t Hr Ht _. rewrite lookup_insert_ne by lia. done.
  - exists (Some id). intros id' x' H%lookup_insert_Some. destruct H as [[<- <-]|[Hne H]].
    + left. split_and!; try done. lia.
    + right. split; [congruence|]. exists x'. split; [|apply same_rights_refl].
      by apply (lookup_weaken m).
Qed.

(** What a freshly created session is. *)
Definition created_by (o : sop) (sm : SessionManager) (id : string) (x : Session) : Prop :=
  ID x = id /\ flash x = None /\
  match o with
  | SCreateAdmin now rand bootstrap _ =>
      rand = Some id /\ Admin x = true /\ AuthenticatedWithBootstrap x = bootstrap /\ CreatedAt x = now /\
      expiresAt x = now + maxAge sm
  | SCreatePreAuth now rand | SCreateOrReuse _ now rand _ =>
      rand = Some id /\ Admin x = false /\ CreatedAt x = now /\
      expiresAt x = now + Z.min (maxAge sm) preAuthSessionTTL
  | _ => False
  end.

(** Two steps, the second of which creates. *)
Lemma step_trans sm sm1 sm2 fresh :
  session_step sm sm1 (fun _ _ => False) -> next sm1 = next sm -> session_step sm1 sm2 fresh ->
  session_step sm sm2 fresh.
Proof.
  intros (Hm & Hi & Hn & Hh & id1 & Hs1) En (Hm' & Hi' & Hn' & Hh' & id2 & Hs2).
  repeat split; try congruence; try lia.
  - intros r t Hr Ht Hne. apply Hh'; [lia| |done]. by apply Hh.
  - exists id2. intros id x' Hx'. destruct (Hs2 id x' Hx') as [(E & Hf & Hc & Hlt)|(Hne & x1 & Hx1 & Hr1)].
    + left. rewrite En in Hc, Hlt. auto.
    + right. split; [done|]. destruct (Hs1 id x1 Hx1) as [(_ & [] & _)|(_ & x & Hx & Hr)].
      exists x. split; [done|]. unfold same_rights in *. intuition congruence.
Qed.

Lemma CreatePreAuth_step now rand sm fresh :
  (forall id x, created_by (SCreatePreAuth now rand) sm id x -> fresh id x) ->
  session_step sm (CreatePreAuth now rand sm).2 fresh.
Proof.
  intros Hf. destruct rand as [id|]; simpl; [|apply step_refl].
  apply (step_create sm id _ (sessions sm)); [done|done|]. apply Hf. by repeat split.
Qed.

Lemma clone_csrf x sm r : csrf x = Some r -> cloneSession x sm = (x, sm).
Proof. intros E. unfold cloneSession. by rewrite E. Qed.

Lemma handed_csrf x sm : handed_out x sm -> exists r, csrf x = Some r.
Proof. intros (r & H & _). eauto. Qed.

Lemma reusable_step now cookie sm :
  manager_ok sm ->
  session_step sm (reusablePreAuthSession now cookie sm).2 (fun _ _ => False) /\
  next (reusablePreAuthSession now cookie sm).2 = next sm.
Proof.
  intros (_ & _ & Hok & _). unfold reusablePreAuthSession.
  destruct cookie as [value|]; [|split; [apply step_refl|done]].
  destruct (bool_decide (value = "")); [split; [apply step_refl|done]|].
  destruct (sessions sm !! value) as [x|] eqn:E; [|split; [apply step_refl|done]].
  destruct (Admin x); [split; [apply step_refl|done]|].
  destruct (_ || _); [split; [apply step_delete|done]|].
  destruct (_ <? _); [split; [apply step_delete|done]|].
  destruct (handed_csrf x sm) as [r Hr]; [apply (Hok value x E)|].
  rewrite (clone_csrf _ _ r) by done. simpl. split; [|done].
  by apply (step_update sm value x).
Qed.

Lemma sexec_step o sm :
  manager_ok sm -> sop_ok o sm -> session_step sm (sexec o sm) (created_by o sm).
Proof.
  intros Hm Hop. pose proof Hm as (_ & _ & Hok & _). destruct o; cbn [sexec].
  - destruct rand as [id|]; simpl; [|apply step_refl].
    destruct exclusive; apply step_create; try done; try (by repeat split); apply map_filter_subseteq.
  - apply CreatePreAuth_step. done.
  - unfold CreateOrReusePreAuth. pose proof (reusable_step now cookie sm Hm) as [Hs Hn].
    pose proof Hs as (Hmax & _).
    destruct (reusablePreAuthSession now cookie sm) as [[[x ttl]|] sm1]; simpl in *.
    + destruct Hs as (? & ? & ? & ? & id0 & Hs). repeat split; try done. exists id0. intros id x' Hx'.
      destruct (Hs id x' Hx') as [(_ & [] & _)|?]; [by right].
    + apply (step_trans sm sm1); [done|done|]. apply CreatePreAuth_step.
      unfold created_by. rewrite Hmax. done.
  - unfold Get. destruct cookie as [value|]; [|apply step_refl].
    destruct (sessions sm !! value) as [x|] eqn:E; [|apply step_refl].
    destruct (expired now sm x); [apply step_delete|].
    destruct (handed_csrf x sm) as [r Hr]; [apply (Hok value x E)|].
    rewrite (clone_csrf _ _ r) by done. by apply (step_update sm value x).
  - destruct cookie as [value|]; [apply step_delete|apply step_refl].
  - apply step_delete.
  - apply step_filter.
  - apply step_filter.
  - unfold SetFlash. destruct (sessions sm !! id) as [x|] eqn:E; [|apply step_refl].
    by apply (step_update sm id x).
  - unfold GetFlash. destruct (sessions sm !! id) as [x|] eqn:E; [|apply step_refl].
    destruct (flash x) as [f|]; [|apply step_refl]. destruct (f !! key); [|apply step_refl].
    by apply (step_update sm id x).
  - destruct Hop as [(r & Hr & Hlt) _]. unfold CSRFToken, csrfState. rewrite Hr.
    case_bool_decide as Ht; simpl; [|apply step_refl]. destruct rand as [t|]; simpl; [|apply step_refl].
    repeat split; simpl; try done.
    + intros r' t' Hr' Ht' Hne. destruct (decide (r' = r)) as [->|]; [by rewrite Ht' in Ht|].
      by rewrite lookup_insert_ne.
    + exists None. intros id x' Hx'. right. split; [done|]. eauto using same_rights_refl.
Qed.

Lemma created_ok o sm id x :
  sop_ok o sm -> created_by o sm id x -> ID x = id /\ 0 < CreatedAt x /\ expiresAt x = CreatedAt x + ttl_of sm x.
Proof.
  unfold ttl_of. destruct o; simpl; intros Hop (Hid & _ & Hx); try done;
    destruct_and? Hx; (split; [done|]); repeat match goal with H : Admin x = _ |- _ => rewrite H end; lia.
Qed.

Lemma sexec_ok o sm : manager_ok sm -> sop_ok o sm -> manager_ok (sexec o sm).
Proof.
  intros Hm Hop. pose proof (sexec_step o sm Hm Hop) as (Emax & Eidle & Hn & _ & id0 & Hs).
  destruct Hm as (Hmax & Hidle & Hok & Hinj). unfold manager_ok. rewrite Emax, Eidle. split_and!; [done|done| |].
  - intros id x' Hx'. destruct (Hs id x' Hx') as [(_ & Hc & Hr & Hlt)|(_ & x & Hx & Hsame)].
    + destruct (created_ok o sm id x' Hop Hc) as (H1 & H2 & H3). split_and!; try done.
      * by exists (next sm).
      * unfold ttl_of in *. by rewrite Emax.
    + destruct (Hok id x Hx) as (H1 & (r & H2 & H2') & H3 & H4). destruct Hsame as (E0 & E1 & _ & E4 & E2 & E3).
      split_and!; [congruence|exists r; split; [congruence|lia]|lia|]. rewrite <- E2, H4, E4.
      unfold ttl_of. by rewrite E1, Emax.
  - intros id id' x x' Hx Hx' Hc.
    destruct (Hs id x Hx) as [(E1 & _ & Hr & _)|(_ & y & Hy & Hsame)],
      (Hs id' x' Hx') as [(E2 & _ & Hr' & _)|(_ & y' & Hy' & Hsame')].
    + congruence.
    + exfalso. destruct (Hok id' y' Hy') as (_ & (r & H & Hlt) & _). destruct Hsame' as (_ & _ & _ & _ & _ & E).
      assert (r = next sm) by congruence. lia.
    + exfalso. destruct (Hok id y Hy) as (_ & (r & H & Hlt) & _). destruct Hsame as (_ & _ & _ & _ & _ & E).
      assert (r = next sm) by congruence. lia.
    + apply (Hinj id id' y y'); try done. destruct Hsame as (_ & _ & _ & _ & _ & ->), Hsame' as (_ & _ & _ & _ & _ & ->).
      done.
Qed.

Lemma sreachable_ok sm : sreachable sm -> manager_ok sm.
Proof.
  induction 1 as [a b c|o sm _ IH Hop]; [|by apply sexec_ok].
  unfold manager_ok, NewSessionManagerWithIdleTimeout. simpl. split_and!; try done.
  - destruct (Z.leb_spec a 0); [|lia]. done.
  - destruct (Z.leb_spec b 0); [|lia]. done.
Qed.

(** ** Theorems *)

(** C32: the life of a session.  [Get] hands out the session named by the
    cookie only while it lives: never later than the absolute maximum age after
    its creation, fifteen minutes for the sessions of the login form, and, for
    an admin session, never after an idle time longer than the limit; it then
    records the access.  When it hands out nothing, no session of that name
    remains. *)
Theorem Get_within_lifetime sm now cookie :
  sreachable sm -> 0 < now ->
  match Get now cookie sm with
  | (Some x, sm') =>
      exists id y, cookie = Some id /\ sessions sm !! id = Some y /\ x = set_LastAccessed now y /\
        sessions sm' = <[id := x]> (sessions sm) /\
        now <= CreatedAt x + maxAge sm /\
        (Admin x = false -> now <= CreatedAt x + preAuthSessionTTL) /\
        (Admin x = true -> Sub now (LastAccessed y) <= idleTimeout sm)
  | (None, sm') => forall id, cookie = Some id -> sessions sm' !! id = None
  end.
Proof.
  intros Hr Hnow. destruct (sreachable_ok sm Hr) as (Hmax & Hidle & Hok & _). unfold Get.
  destruct cookie as [value|]; [|done]. destruct (sessions sm !! value) as [y|] eqn:E.
  2:{ intros ? [= <-]. done. }
  destruct (expired now sm y) eqn:Ex.
  { intros ? [= <-]. simpl. apply lookup_delete_eq. }
  destruct (Hok value y E) as (_ & Hh & Hc & Hexp). destruct (handed_csrf y sm Hh) as [r Hcsrf].
  rewrite (clone_csrf _ _ r) by done. exists value, y. unfold expired, IsZero, After, ttl_of in *.
  apply orb_false_iff in Ex as [Ex1 Ex2].
  assert (0 < preAuthSessionTTL) by done.
  assert (now <= expiresAt y) as Hlive.
  { destruct (Z.eqb_spec (expiresAt y) 0) as [Ez|Ez]; simpl in Ex1; [|lia].
    exfalso. destruct (Admin y); lia. }
  split_and!; try done; simpl.
  - destruct (Admin y); lia.
  - intros Ha. rewrite Ha in Hexp. lia.
  - intros Ha. rewrite Ha in Ex2. zbool; simpl in Ex2; try done; lia.
Qed.

(** Rights are only granted at login.  After any step, an admin session
    is one that was an admin session before, with the same bootstrap
    restriction, creation and expiry times, or the one that this step's login
    created; and an exclusive login leaves itself as the only admin session
    while the sessions of login forms stay. *)
Theorem admin_rights_only_from_login sm o :
  sreachable sm -> sop_ok o sm ->
  (forall id x', sessions (sexec o sm) !! id = Some x' -> Admin x' = true ->
     (exists x, sessions sm !! id = Some x /\ same_rights x x') \/
     (exists now bootstrap exclusive, o = SCreateAdmin now (Some id) bootstrap exclusive /\
        AuthenticatedWithBootstrap x' = bootstrap /\ CreatedAt x' = now /\ expiresAt x' = now + maxAge sm)) /\
  (forall now id, o = SCreateAdmin now (Some id) false true ->
     (exists x, sessions (sexec o sm) !! id = Some x /\ Admin x = true) /\
     (forall id' x, id' <> id ->
        sessions (sexec o sm) !! id' = Some x <-> sessions sm !! id' = Some x /\ Admin x = false)).
Proof.
  intros Hr Hop. pose proof (sreachable_ok sm Hr) as Hm. split.
  - intros id x' Hx' Ha. destruct (sexec_step o sm Hm Hop) as (_ & _ & _ & _ & id0 & Hs).
    destruct (Hs id x' Hx') as [(_ & (_ & _ & Hc) & _)|(_ & x & Hx & Hsame)]; [right|left; eauto].
    destruct o; try done; destruct_and! Hc; try congruence. subst. by eexists _, _, _.
  - intros now id ->. cbn [sexec createAdmin]. unfold deleteAdminSessionsLocked. simpl. split.
    + eexists. rewrite lookup_insert_eq. done.
    + intros id' x Hne. rewrite lookup_insert_ne by done. apply map_lookup_filter_Some.
Qed.

(** Flash values are read once.  A value set is seen by peeking any number
    of times, returned by the first [GetFlash] of its key and by none after it,
    and reading it touches neither other keys nor other sessions. *)
Theorem flash_read_once sm id key value x :
  sessions sm !! id = Some x ->
  let sm1 := SetFlash id key value sm in
  let '(got, sm2) := GetFlash id key sm1 in
  PeekFlash id key sm1 = value /\ got = value /\
  PeekFlash id key sm2 = "" /\ GetFlash id key sm2 = ("", sm2) /\
  (forall id' key', id' <> id \/ key' <> key -> PeekFlash id' key' sm2 = PeekFlash id' key' sm) /\
  (forall id' key', PeekFlash id' key' sm = (GetFlash id' key' sm).1).
Proof.
  intros Hx. unfold SetFlash, GetFlash. rewrite Hx. simpl. rewrite lookup_insert_eq. simpl.
  rewrite lookup_insert_eq. unfold PeekFlash. simpl. rewrite !lookup_insert_eq. simpl.
  rewrite lookup_insert_eq, lookup_delete_eq. simpl. split_and!; try done.
  - intros id' key' Hne. rewrite insert_insert_eq. destruct (decide (id' = id)) as [->|Hid].
    + destruct Hne as [|Hk]; [done|]. rewrite lookup_insert_eq. simpl.
      rewrite lookup_delete_ne, lookup_insert_ne by done. rewrite Hx. simpl.
      destruct (flash x); simpl; [done|]. by rewrite lookup_empty.
    + by rewrite lookup_insert_ne.
  - intros id' key'. destruct (sessions sm !! id') as [y|]; [|done].
    destruct (flash y) as [f|]; [|done]. simpl. by destruct (f !! key').
Qed.

Lemma sexec_all_step os sm :
  sreachable sm -> (forall pre o post, os = pre ++ o :: post -> sop_ok o (fold_left (fun s o => sexec o s) pre sm)) ->
  let later := fold_left (fun s o => sexec o s) os sm in
  sreachable later /\ (next sm <= next later)%nat /\
  (forall r t, (r < next sm)%nat -> heap sm !! r = Some t -> t <> "" -> heap later !! r = Some t).
Proof.
  revert sm. induction os as [|o os IH]; intros sm Hr Hok; simpl; [done|].
  pose proof (Hok [] o os eq_refl) as Ho. simpl in Ho.
  destruct (sexec_step o sm (sreachable_ok sm Hr) Ho) as (_ & _ & Hn & Hh & _).
  destruct (IH (sexec o sm)) as (H1 & H2 & H3).
  - by apply sreach_step.
  - intros pre o' post ->. apply (Hok (o :: pre) o' post). done.
  - split_and!; [done|lia|]. intros r t Hlt Ht Hne. apply H3; [lia| |done]. by apply Hh.
Qed.

(** CSRF tokens.  Once a token was generated through any copy of a
    session, every copy of it gets that same token whatever happens in between,
    and validation accepts exactly that text for the session; the tokens of two
    different sessions are kept apart. *)
Theorem csrf_token_stable sm id x t os :
  sreachable sm -> sessions sm !! id = Some x -> t <> "" ->
  (exists r, csrf x = Some r /\ heap sm !! r = Some t) ->
  (forall pre o post, os = pre ++ o :: post -> sop_ok o (fold_left (fun s o => sexec o s) pre sm)) ->
  let later := fold_left (fun s o => sexec o s) os sm in
  (forall copy rand, csrf copy = csrf x -> (CSRFToken rand copy later).1.1 = Some t) /\
  (forall copy form, csrf copy = csrf x -> ValidateCSRF form copy later = bool_decide (form = t)) /\
  (forall id' x', sessions later !! id' = Some x' -> csrf x' = csrf x -> 
     forall y, sessions later !! id = Some y -> csrf y = csrf x -> id' = id).
Proof.
  intros Hr Hx Ht (r & Hcsrf & Hheap) Hok later.
  destruct (sreachable_ok sm Hr) as (_ & _ & Hsess & _). destruct (Hsess id x Hx) as (_ & (r' & E & Hlt) & _).
  assert (r' = r) as -> by congruence.
  destruct (sexec_all_step os sm Hr Hok) as (Hr' & _ & Hkeep). fold later in Hr', Hkeep.
  specialize (Hkeep r t Hlt Hheap Ht). split_and!.
  - intros copy rand Ec. unfold CSRFToken, csrfState. rewrite Ec, Hcsrf, Hkeep. simpl.
    by rewrite bool_decide_false.
  - intros copy form Ec. unfold ValidateCSRF, csrfState. rewrite Ec, Hcsrf, Hkeep. simpl.
    rewrite (bool_decide_false (t = "")) by done. destruct (bool_decide_reflect (form = "")) as [->|]; [|done].
    by rewrite bool_decide_false.
  - intros id' x' Hx' E' y Hy Ey. destruct (sreachable_ok later Hr') as (_ & _ & _ & Hinj).
    apply (Hinj id' id x' y); congruence.
Qed.

(** ** Witnesses *)

Definition fresh_manager : SessionManager := NewSessionManagerWithIdleTimeout 0 0 true.

Definition logged_in : SessionManager := sexec (SCreateAdmin 1000 (Some "aa") true false) fresh_manager.

Lemma logged_in_reachable : sreachable logged_in.
Proof. apply sreach_step; [constructor|]. simpl. lia. Qed.

Lemma Get_within_lifetime_witness :
  (Get (1000 + 16 * Minute) (Some "aa") logged_in).1 = None /\
  sessions (Get (1000 + 16 * Minute) (Some "aa") logged_in).2 !! "aa" = None.
Proof.
  split; [vm_compute; reflexivity|].
  pose proof (Get_within_lifetime logged_in (1000 + 16 * Minute) (Some "aa") logged_in_reachable
    ltac:(vm_compute; reflexivity)) as H.
  destruct (Get (1000 + 16 * Minute) (Some "aa") logged_in) as [[x|] sm'] eqn:E.
  - vm_compute in E. discriminate.
  - by apply H.
Defined.

Lemma admin_rights_only_from_login_witness :
  sessions (sexec (SCreateAdmin 2000 (Some "bb") false true) logged_in) !! "aa" = None.
Proof.
  pose proof (proj2 (proj2 (admin_rights_only_from_login logged_in (SCreateAdmin 2000 (Some "bb") false true)
    logged_in_reachable ltac:(simpl; lia)) 2000 "bb" eq_refl)) as H.
  destruct (sessions (sexec (SCreateAdmin 2000 (Some "bb") false true) logged_in) !! "aa") as [x|] eqn:E;
    [|reflexivity].
  destruct (proj1 (H "aa" x ltac:(discriminate)) E) as [Hx Ha].
  vm_compute in Hx. injection Hx as <-. discriminate Ha.
Defined.

Definition sample_session : Session :=
  mk_session "aa" true true 1000 1000 (1000 + 8 * Hour) (Some 0%nat) None.

Lemma flash_read_once_witness :
  PeekFlash "aa" "key" (GetFlash "aa" "key" (SetFlash "aa" "key" "secret" logged_in)).2 = "".
Proof.
  pose proof (flash_read_once logged_in "aa" "key" "secret" sample_session ltac:(vm_compute; reflexivity)) as H.
  cbv zeta in H. destruct (GetFlash "aa" "key" (SetFlash "aa" "key" "secret" logged_in)) as [got sm2].
  destruct H as (_ & _ & H & _). exact H.
Defined.

Lemma csrf_token_stable_witness :
  let tokened := sexec (SCSRFToken (Some "tok") sample_session) logged_in in
  ValidateCSRF "tok" sample_session (sexec (SGet 2000 (Some "aa")) tokened) = true.
Proof.
  intros tokened.
  assert (sreachable tokened) as Hr.
  { apply sreach_step; [apply logged_in_reachable|]. split; [|discriminate]. exists 0%nat. split; [reflexivity|].
    vm_compute. lia. }
  change (ValidateCSRF "tok" sample_session
    (fold_left (fun s o => sexec o s) [SGet 2000 (Some "aa")] tokened) = true).
  rewrite (proj1 (proj2 (csrf_token_stable tokened "aa" sample_session "tok" [SGet 2000 (Some "aa")] Hr
    ltac:(vm_compute; reflexivity) ltac:(discriminate)
    ltac:(exists 0%nat; split; vm_compute; reflexivity)
    ltac:(intros [|? [|]] ? ? [=]; subst; simpl; lia))) sample_session "tok" eq_refl).
  vm_compute. reflexivity.
Defined.
