(* ===== verification/LastUsed.v ===== *)
(** The updater of the last use of API keys: APIKeyLastUsedUpdater of
    internal/server/middleware/auth.go.

    A request enqueues the key it used; a worker takes keys from a bounded channel
    and writes them to the store; a failed write is retried by a timer.  The
    methods run under the mutex, so a step is a method, a receive of the worker or
    a timer that fires.  Maps are iterated in any order.  The context is not
    cancelled: at a shutdown, what is pending is dropped. *)
From stdpp Require Import base list option gmap.
From Stdlib Require Import ZArith Lia.
From S2P Require Import Prelude GoTime.
Open Scope Z_scope.

Definition apiKeyLastUsedQueueSize : nat := 128.
Definition apiKeyLastUsedInterval : Z := 5 * Minute.
Definition apiKeyLastUsedBackoff : Z := Second.
Definition apiKeyLastUsedPendingLimit : nat := 1024.

(** [None] is the zero time. *)
Record apiKeyLastUsedPending := mk_pending { queued : bool; inFlight : bool; retryAfter : option Time; retryScheduled : bool }.

(** The worker has received a key, then it writes it. *)
Inductive worker := Idle | Received (keyID : Z) | Working (keyID : Z).

#[export] Instance worker_eq_dec : EqDecision worker.
Proof. solve_decision. Defined.

(** The timers that have not fired, by key. *)
Record Updater := mk_updater {
  queue : list Z;
  lastQueued : gmap Z Time;
  pending : gmap Z apiKeyLastUsedPending;
  timers : list Z;
  atWork : worker
}.

Definition new_updater : Updater := mk_updater [] ∅ ∅ [] Idle.

Definition set_queue (x : list Z) (u : Updater) : Updater := mk_updater x (lastQueued u) (pending u) (timers u) (atWork u).
Definition set_lastQueued (x : gmap Z Time) (u : Updater) : Updater := mk_updater (queue u) x (pending u) (timers u) (atWork u).
Definition set_pending (x : gmap Z apiKeyLastUsedPending) (u : Updater) : Updater := mk_updater (queue u) (lastQueued u) x (timers u) (atWork u).
Definition set_timers (x : list Z) (u : Updater) : Updater := mk_updater (queue u) (lastQueued u) (pending u) x (atWork u).
Definition set_worker (x : worker) (u : Updater) : Updater := mk_updater (queue u) (lastQueued u) (pending u) (timers u) x.

(** The pending state of the key is replaced. *)
Definition put (keyID : Z) (p : apiKeyLastUsedPending) (u : Updater) : Updater := set_pending (<[keyID := p]> (pending u)) u.

(** [false]: the key is not in the queue, and must wait. *)
Definition schedulePendingLocked (keyID : Z) (p : apiKeyLastUsedPending) (now : Time) (u : Updater) : bool * Updater :=
  if queued p || inFlight p then (true, u)
  else match retryAfter p with
       | Some t =>
           if now <? t then (false, u)
           else if (length (queue u) <? apiKeyLastUsedQueueSize)%nat
           then (true, set_queue (queue u ++ [keyID]) (put keyID (mk_pending true (inFlight p) None false) u))
           else (false, put keyID (mk_pending (queued p) (inFlight p) None (retryScheduled p)) u)
       | None =>
           if (length (queue u) <? apiKeyLastUsedQueueSize)%nat
           then (true, set_queue (queue u ++ [keyID]) (put keyID (mk_pending true (inFlight p) None false) u))
           else (false, u)
       end.

Definition Enqueue (keyID : Z) (now : Time) (u : Updater) : bool * Updater :=
  if keyID <=? 0 then (false, u)
  else
    let u := set_lastQueued (filter (fun kv => now - kv.2 < apiKeyLastUsedInterval) (lastQueued u)) u in
    if match lastQueued u !! keyID with Some last => now - last <? apiKeyLastUsedInterval | None => false end then (false, u)
    else
      match pending u !! keyID with
      | Some p => (true, (schedulePendingLocked keyID p now (set_lastQueued (<[keyID := now]> (lastQueued u)) u)).2)
      | None =>
          if (apiKeyLastUsedPendingLimit <=? size (pending u))%nat then (false, u)
          else
            let p := mk_pending false false None false in
            (true, (schedulePendingLocked keyID p now (set_lastQueued (<[keyID := now]> (lastQueued u)) (put keyID p u))).2)
      end.

Definition scheduleRetryLocked (keyID : Z) (p : apiKeyLastUsedPending) (u : Updater) : Updater :=
  if retryScheduled p then u
  else set_timers (keyID :: timers u) (put keyID (mk_pending (queued p) (inFlight p) (retryAfter p) true) u).

(** [order]: the keys as the map yields them. *)
Fixpoint scheduleReadyPendingLocked (order : list Z) (now : Time) (u : Updater) : Updater :=
  match order with
  | [] => u
  | keyID :: order =>
      match pending u !! keyID with
      | None => scheduleReadyPendingLocked order now u
      | Some p =>
          if queued p then scheduleReadyPendingLocked order now u
          else if match retryAfter p with Some t => now <? t | None => false end
          then scheduleReadyPendingLocked order now (scheduleRetryLocked keyID p u)
          else let '(ok, u) := schedulePendingLocked keyID p now u in
               if (ok : bool) then scheduleReadyPendingLocked order now u else u
      end
  end.

Definition markDequeued (keyID : Z) (u : Updater) : bool * Updater :=
  match pending u !! keyID with
  | None => (false, u)
  | Some p => (true, put keyID (mk_pending false true (retryAfter p) (retryScheduled p)) u)
  end.

Definition markSucceeded (keyID : Z) (order : list Z) (now : Time) (u : Updater) : Updater :=
  scheduleReadyPendingLocked order now (set_pending (delete keyID (pending u)) u).

Definition markFailed (keyID : Z) (order : list Z) (now : Time) (u : Updater) : Updater :=
  match pending u !! keyID with
  | None =>
      if (apiKeyLastUsedPendingLimit <=? size (pending u))%nat then u
      else
        let p := mk_pending false false (Some (now + apiKeyLastUsedBackoff)) false in
        scheduleReadyPendingLocked order now (scheduleRetryLocked keyID p (put keyID p u))
  | Some p =>
      let p := mk_pending (queued p) false (Some (now + apiKeyLastUsedBackoff)) (retryScheduled p) in
      scheduleReadyPendingLocked order now (scheduleRetryLocked keyID p (put keyID p u))
  end.

(** The function of a timer. *)
Definition fire (keyID : Z) (now : Time) (u : Updater) : Updater :=
  match pending u !! keyID with
  | None => u
  | Some p =>
      let p := mk_pending (queued p) (inFlight p) (retryAfter p) false in
      let u := put keyID p u in
      if match retryAfter p with Some t => now <? t | None => false end then scheduleRetryLocked keyID p u
      else (schedulePendingLocked keyID p now u).2
  end.

(** ** Steps *)

Inductive event :=
| EEnqueue (keyID : Z) (now : Time)
| EReceive
| EDequeue
| EWrite (ok : bool) (order : list Z) (now : Time)
| EFire (i : nat) (now : Time).

(** The worker: receive, markDequeued, the write and what follows it. *)
Definition step (e : event) (u : Updater) : Updater :=
  match e with
  | EEnqueue keyID now => (Enqueue keyID now u).2
  | EReceive =>
      match atWork u, queue u with
      | Idle, keyID :: rest => set_worker (Received keyID) (set_queue rest u)
      | _, _ => u
      end
  | EDequeue =>
      match atWork u with
      | Received keyID => let '(ok, u) := markDequeued keyID u in set_worker (if (ok : bool) then Working keyID else Idle) u
      | _ => u
      end
  | EWrite ok order now =>
      match atWork u with
      | Working keyID => (if ok then markSucceeded else markFailed) keyID order now (set_worker Idle u)
      | _ => u
      end
  | EFire i now =>
      match timers u !! i with
      | Some keyID => fire keyID now (set_timers (delete i (timers u)) u)
      | None => u
      end
  end.

(** The order is one of the keys that are pending when the loop starts. *)
Definition order_ok (e : event) (u : Updater) : Prop :=
  match e, atWork u with
  | EWrite ok order _, Working keyID =>
      forall k, k ∈ order <-> if ok then k <> keyID /\ k ∈ dom (pending u) else k = keyID \/ k ∈ dom (pending u)
  | _, _ => True
  end.

Inductive steps : Updater -> list event -> Updater -> Prop :=
| steps_nil u : steps u [] u
| steps_snoc u es u' e : steps u es u' -> order_ok e u' -> steps u (es ++ [e]) (step e u').

(** ** Invariant *)

(** The flags of a pending key say where it is. *)
Record entry_ok (u : Updater) (k : Z) (p : apiKeyLastUsedPending) : Prop := {
  ok_queued : queued p = true <-> k ∈ queue u \/ atWork u = Received k;
  ok_flight : inFlight p = true <-> atWork u = Working k;
  ok_one : queued p = true -> inFlight p = false;
  ok_timer : retryScheduled p = true -> k ∈ timers u;
  ok_after : queued p = true \/ inFlight p = true -> retryAfter p = None
}.

(** A key that has to wait has a timer, except [x], which is being handled. *)
Record wf_but (x : option Z) (u : Updater) : Prop := {
  wf_entry : forall k p, pending u !! k = Some p -> entry_ok u k p;
  wf_retry : forall k p, pending u !! k = Some p -> is_Some (retryAfter p) -> x <> Some k -> k ∈ timers u;
  wf_nodup : NoDup (queue u);
  wf_dom : forall k, k ∈ queue u \/ atWork u = Received k \/ atWork u = Working k -> is_Some (pending u !! k);
  wf_received : forall k, atWork u = Received k -> k ∉ queue u;
  wf_queue : (length (queue u) <= apiKeyLastUsedQueueSize)%nat;
  wf_size : (size (pending u) <= apiKeyLastUsedPendingLimit)%nat
}.

Notation wf := (wf_but None).

(** The key is not forgotten: it is queued, written, has a timer, or the worker
    will look at it. *)
Definition awake (u : Updater) (k : Z) : Prop :=
  forall p, pending u !! k = Some p -> queued p = false -> inFlight p = false ->
  k ∈ timers u \/ queue u <> [] \/ atWork u <> Idle.

(** What the methods leave alone. *)
Record grows (u u' : Updater) (k : Z) : Prop := {
  gr_dom : forall j, is_Some (pending u' !! j) <-> is_Some (pending u !! j);
  gr_other : forall j, j <> k -> pending u' !! j = pending u !! j;
  gr_timers : forall j, j ∈ timers u -> j ∈ timers u';
  gr_queue : queue u <> [] -> queue u' <> [];
  gr_worker : atWork u' = atWork u
}.

Lemma grows_refl u k : grows u u k.
Proof. by split. Qed.

Lemma grows_awake u u' k j : grows u u' k -> j <> k -> awake u j -> awake u' j.
Proof.
  intros [_ Ho Ht Hq Hw] Hne Ha p Hp Hq' Hf. rewrite Ho in Hp by done. rewrite Hw. destruct (Ha p Hp Hq' Hf) as [?|[?|?]]; auto.
Qed.

Lemma size_put k p (u : Updater) : is_Some (pending u !! k) -> size (pending (put k p u)) = size (pending u).
Proof. intros Hk. cbn. by apply map_size_insert_Some. Qed.

Lemma put_dom k p u j : is_Some (pending u !! k) -> is_Some (pending (put k p u) !! j) <-> is_Some (pending u !! j).
Proof. intros Hk. cbn. destruct (decide (j = k)) as [->|]; [rewrite lookup_insert_eq; split; eauto|by rewrite lookup_insert_ne]. Qed.

(** Only the bookkeeping of a key changes. *)
Lemma put_wf x y u k p p' : wf_but x u -> pending u !! k = Some p ->
  queued p' = queued p -> inFlight p' = inFlight p -> (retryScheduled p' = true -> k ∈ timers u) ->
  (queued p = true \/ inFlight p = true -> retryAfter p' = None) ->
  (y <> Some k -> is_Some (retryAfter p') -> k ∈ timers u) -> (forall j, j <> k -> y <> Some j -> x <> Some j) ->
  wf_but y (put k p' u).
Proof.
  intros [We Wr Wn Wd Wrec Wq Ws] Hp H1 H2 H3 H4 H5 H6. split; cbn [queue atWork timers put set_pending].
  - intros j q. cbn. destruct (decide (j = k)) as [->|Hne].
    + rewrite lookup_insert_eq. intros [= <-]. destruct (We k p Hp). split; cbn; rewrite ?H1, ?H2; auto.
    + rewrite lookup_insert_ne by done. intros Hq. destruct (We j q Hq). split; auto.
  - intros j q. cbn. destruct (decide (j = k)) as [->|Hne].
    + rewrite lookup_insert_eq. intros [= <-] Hs Hx. auto.
    + rewrite lookup_insert_ne by done. intros Hq Hs Hx. apply (Wr j q); auto.
  - done.
  - intros j Hj. apply put_dom; eauto.
  - done.
  - done.
  - rewrite size_put by eauto. done.
Qed.

(** The key goes to the end of the queue. *)
Lemma push_wf x u k p : wf_but x u -> pending u !! k = Some p -> queued p = false -> inFlight p = false ->
  (length (queue u) < apiKeyLastUsedQueueSize)%nat -> x = None \/ x = Some k ->
  wf (set_queue (queue u ++ [k]) (put k (mk_pending true false None false) u)).
Proof.
  intros [We Wr Wn Wd Wrec Wq Ws] Hp Hq Hf Hlen Hx. destruct (We k p Hp) as [Eq Ef _ _ _].
  assert (k ∉ queue u) as Hk by (intros Hin; assert (queued p = true) by (apply Eq; auto); congruence).
  assert (atWork u <> Received k) as Hr by (intros Hin; assert (queued p = true) by (apply Eq; auto); congruence).
  assert (atWork u <> Working k) as Hw by (intros Hin; assert (inFlight p = true) by (apply Ef; auto); congruence).
  split; cbn [queue atWork timers put set_pending set_queue pending].
  - intros j q. destruct (decide (j = k)) as [->|Hne].
    + rewrite lookup_insert_eq. intros [= <-]. split; cbn; try done; rewrite ?elem_of_app, ?list_elem_of_singleton; tauto.
    + rewrite lookup_insert_ne by done. intros Hj. destruct (We j q Hj). split; cbn; try done.
      rewrite elem_of_app, list_elem_of_singleton. tauto.
  - intros j q. destruct (decide (j = k)) as [->|Hne].
    + rewrite lookup_insert_eq. intros [= <-] [? ?]. done.
    + rewrite lookup_insert_ne by done. intros Hj Hs _. apply (Wr j q); [done..|]. destruct Hx as [-> | ->]; congruence.
  - apply NoDup_app. split; [done|]. split; [|apply NoDup_singleton]. intros j Hj. rewrite list_elem_of_singleton. by intros ->.
  - intros j Hj. change (is_Some (pending (put k (mk_pending true false None false) u) !! j)). apply put_dom; [eauto|].
    rewrite elem_of_app, list_elem_of_singleton in Hj. destruct Hj as [[Hj| ->]|Hj]; eauto.
  - intros j Hj. rewrite elem_of_app, list_elem_of_singleton. intros [Hin| ->]; [by apply (Wrec j)|done].
  - rewrite length_app. cbn. lia.
  - change (size (pending (put k (mk_pending true false None false) u)) <= apiKeyLastUsedPendingLimit)%nat. rewrite size_put by eauto. done.
Qed.

Lemma schedule_wf x u k p now : wf_but x u -> pending u !! k = Some p -> x = None \/ x = Some k ->
  (x = Some k -> forall t, retryAfter p = Some t -> t <= now) ->
  let '(ok, u') := schedulePendingLocked k p now u in
  wf u' /\ grows u u' k /\ awake u' k /\ (ok = false -> (forall t, retryAfter p = Some t -> t <= now) -> queue u' <> []).
Proof.
  intros Hwf Hp Hx Hnow. pose proof Hwf as [We Wr Wn Wd Wrec Wq Ws]. destruct (We k p Hp) as [Eq Ef Eo Et Ea]. unfold schedulePendingLocked.
  assert (retryAfter p = None -> wf u) as Hdone.
  { intros Hn. split; try done. intros j q Hq Hs _. apply (Wr j q Hq Hs). destruct Hx as [->|Hx]; [done|]. rewrite Hx. intros [= ->]. rewrite Hq in Hp.
    injection Hp as ->. rewrite Hn in Hs. by destruct Hs. }
  destruct (queued p || inFlight p) eqn:Eb.
  { apply orb_true_iff in Eb. split; [by apply Hdone, Ea|]. split; [apply grows_refl|]. split; [|done].
    intros q Hq H1 H2. rewrite Hp in Hq. injection Hq as <-. destruct Eb; congruence. }
  apply orb_false_iff in Eb as [Hq Hf]. rewrite Hf.
  assert (forall u', u' = set_queue (queue u ++ [k]) (put k (mk_pending true false None false) u) -> (length (queue u) < apiKeyLastUsedQueueSize)%nat ->
    wf u' /\ grows u u' k /\ awake u' k /\ (true = false -> (forall t, retryAfter p = Some t -> t <= now) -> queue u' <> [])) as Hpush.
  { intros u' -> Hl. split; [by apply (push_wf x u k p)|]. split; [|split; [|done]].
    - split; try done.
      + intros j. cbn [pending set_queue]. apply put_dom; eauto.
      + intros j Hne. cbn. by rewrite lookup_insert_ne.
      + intros _. cbn. by destruct (queue u).
    - intros q Hk. cbn in Hk. rewrite lookup_insert_eq in Hk. by injection Hk as <-. }
  assert (forall u', (apiKeyLastUsedQueueSize <= length (queue u))%nat -> queue u' = queue u -> queue u' <> []) as Hfull.
  { intros u' Hl ->. unfold apiKeyLastUsedQueueSize in Hl. destruct (queue u); cbn in Hl; [lia|done]. }
  destruct (retryAfter p) as [t|] eqn:Er.
  - destruct (Z.ltb_spec now t) as [Hlt|Hge].
    + destruct Hx as [->|Hx]; [|specialize (Hnow Hx t eq_refl); lia]. split; [done|]. split; [apply grows_refl|]. split.
      * intros q _ _ _. left. by apply (Wr k p).
      * intros _ Ht. specialize (Ht t eq_refl). lia.
    + destruct (Nat.ltb_spec (length (queue u)) apiKeyLastUsedQueueSize) as [Hl|Hl]; [by apply Hpush|].
      split; [|split; [|split]].
      * apply (put_wf x None u k p); try done; [by intros _ [? ?]|]. intros j Hne _. destruct Hx as [-> | ->]; congruence.
      * split; try done; [intros j; apply put_dom; eauto|]. intros j Hne. cbn. by rewrite lookup_insert_ne.
      * intros q _ _ _. right. left. by apply Hfull.
      * intros _ _. by apply Hfull.
  - destruct (Nat.ltb_spec (length (queue u)) apiKeyLastUsedQueueSize) as [Hl|Hl]; [by apply Hpush|].
    split; [by apply Hdone|]. split; [apply grows_refl|]. split; [|by intros _ _; apply Hfull].
    intros q _ _ _. right. left. by apply Hfull.
Qed.

Lemma retry_wf x u k p : wf_but x u -> pending u !! k = Some p -> x = None \/ x = Some k ->
  queued p = false -> inFlight p = false ->
  let u' := scheduleRetryLocked k p u in wf u' /\ grows u u' k /\ awake u' k.
Proof.
  intros Hwf Hp Hx Hq Hf. pose proof Hwf as [We Wr Wn Wd Wrec Wq Ws]. destruct (We k p Hp) as [Eq Ef Eo Et Ea]. unfold scheduleRetryLocked.
  destruct (retryScheduled p) eqn:Er; cbv zeta.
  - split; [|split; [apply grows_refl|intros q _ _ _; left; by apply Et]]. split; try done.
    intros j q Hj Hs _. destruct (decide (j = k)) as [->|Hne]; [by apply Et|]. apply (Wr j q Hj Hs). destruct Hx as [-> | ->]; congruence.
  - set (p' := mk_pending (queued p) (inFlight p) (retryAfter p) true). set (u1 := set_timers (k :: timers u) u).
    assert (wf_but x u1) as Hwf1.
    { split; try done; cbn.
      - intros j q Hj. destruct (We j q Hj). split; try done. intros Hs. right. auto.
      - intros j q Hj Hs Hne. right. by apply (Wr j q). }
    change (set_timers (k :: timers u) (put k p' u)) with (put k p' u1). split; [|split].
    + apply (put_wf x None u1 k p); try done; cbn; [intros _; by left|intros _ _; by left|].
      intros j Hne _. destruct Hx as [-> | ->]; congruence.
    + split; try done.
      * intros j. apply (put_dom k p' u1); eauto.
      * intros j Hne. cbn. by rewrite lookup_insert_ne.
      * intros j Hj. by right.
    + intros q _ _ _. left. by left.
Qed.

(** The loop: every key of the order is looked after. *)
Lemma ready_wf order now u : wf u -> (forall k, atWork u <> Working k) ->
  let u' := scheduleReadyPendingLocked order now u in
  wf u' /\ (forall j, is_Some (pending u' !! j) <-> is_Some (pending u !! j)) /\ atWork u' = atWork u /\
  (forall j, j ∈ timers u -> j ∈ timers u') /\
  (forall k, k ∈ order \/ awake u k -> awake u' k).
Proof.
  revert u. induction order as [|k order IH]; intros u Hwf Hw; cbn [scheduleReadyPendingLocked].
  { split; [done|]. split; [done|]. split; [done|]. split; [done|]. intros k [Hk|Hk]; [by apply elem_of_nil in Hk|done]. }
  assert (forall u1, wf u1 -> grows u u1 k -> awake u1 k ->
    let u' := scheduleReadyPendingLocked order now u1 in
    wf u' /\ (forall j, is_Some (pending u' !! j) <-> is_Some (pending u !! j)) /\ atWork u' = atWork u /\
    (forall j, j ∈ timers u -> j ∈ timers u') /\ (forall j, j ∈ k :: order \/ awake u j -> awake u' j)) as Hgo.
  { intros u1 Hwf1 Hg Ha. pose proof Hg as [Gd Go Gt Gq Gw]. destruct (IH u1 Hwf1) as (H1 & H2 & H3 & H4 & H5); [by rewrite Gw|].
    cbv zeta. split; [done|]. split; [intros j; by rewrite H2, Gd|]. split; [by rewrite H3, Gw|]. split; [auto|].
    intros j Hj. apply H5. destruct (decide (j = k)) as [->|Hne]; [by right|].
    destruct Hj as [Hj|Hj]; [|right; by apply (grows_awake u u1 k)]. apply elem_of_cons in Hj as [->|Hj]; [done|by left]. }
  destruct (pending u !! k) as [p|] eqn:Hp; [|apply Hgo; [done|apply grows_refl|intros q Hq; congruence]].
  destruct (queued p) eqn:Hq; [apply Hgo; [done|apply grows_refl|intros q Hk; congruence]|].
  assert (inFlight p = false) as Hf.
  { destruct (inFlight p) eqn:E; [|done]. apply (wf_entry None u Hwf k p Hp) in E. by apply Hw in E. }
  destruct (match retryAfter p with Some t => now <? t | None => false end) eqn:Et.
  - destruct (retry_wf None u k p Hwf Hp) as (H1 & H2 & H3); [by left|done..|]. by apply Hgo.
  - pose proof (schedule_wf None u k p now Hwf Hp (or_introl eq_refl)) as H.
    destruct (schedulePendingLocked k p now u) as [[] u1]; destruct H as (H1 & H2 & H3 & H4); try done; [by apply Hgo|].
    assert (queue u1 <> []) as Hne.
    { apply H4; [done|]. intros t Ht. rewrite Ht in Et. by apply Z.ltb_ge in Et. }
    pose proof H2 as [Gd Go Gt Gq Gw]. split; [done|]. split; [done|]. split; [done|]. split; [done|]. intros j _ q _ _ _. auto.
Qed.

Definition good (u : Updater) : Prop := wf u /\ forall k, awake u k.

Lemma lastQueued_good x l u : (wf_but x (set_lastQueued l u) <-> wf_but x u) /\ forall k, awake (set_lastQueued l u) k <-> awake u k.
Proof. split; [split; intros [? ? ? ? ? ? ?]; split; try done; intros j q Hj; by destruct (wf_entry0 j q Hj)|done]. Qed.

Lemma good_scheduled u u' k : grows u u' k -> wf u' -> awake u' k -> (forall j, awake u j) -> good u'.
Proof.
  intros Hg Hwf Hk Ha. split; [done|]. intros j. destruct (decide (j = k)) as [->|Hne]; [done|]. by apply (grows_awake u u' k).
Qed.

Lemma fresh_wf u k : wf u -> pending u !! k = None -> (size (pending u) < apiKeyLastUsedPendingLimit)%nat ->
  wf (put k (mk_pending false false None false) u).
Proof.
  intros [We Wr Wn Wd Wrec Wq Ws] Hk Hs.
  assert (forall j, j ∈ queue u \/ atWork u = Received j \/ atWork u = Working j -> j <> k) as Hne.
  { intros j Hj ->. destruct (Wd k Hj). congruence. }
  split; cbn; try done.
  - intros j q. destruct (decide (j = k)) as [->|Hj]; [|rewrite lookup_insert_ne by done; intros Hq; by destruct (We j q Hq)].
    rewrite lookup_insert_eq. intros [= <-]. split; cbn; try done.
    all: split; [done|]; intros Hin; exfalso; apply (Hne k); tauto.
  - intros j q. destruct (decide (j = k)) as [->|Hj]; [|rewrite lookup_insert_ne by done; by apply Wr].
    rewrite lookup_insert_eq. by intros [= <-] [? ?].
  - intros j Hj. rewrite lookup_insert_ne by (apply not_eq_sym; by apply Hne). by apply Wd.
  - rewrite map_size_insert_None by done. lia.
Qed.

Lemma enqueue_good k now u : good u -> good (Enqueue k now u).2.
Proof.
  intros [Hwf Ha]. unfold Enqueue. destruct (k <=? 0); [done|]. set (u1 := set_lastQueued _ u).
  assert (good u1) as [Hwf1 Ha1] by (split; [by apply lastQueued_good|done]).
  match goal with |- good (if ?b then _ else _).2 => destruct b end; [by split|]. set (l := <[k := now]> (lastQueued u1)).
  destruct (pending u1 !! k) as [p|] eqn:Hp.
  - assert (wf (set_lastQueued l u1)) as Hwf2 by (by apply lastQueued_good).
    pose proof (schedule_wf None (set_lastQueued l u1) k p now Hwf2 Hp (or_introl eq_refl)) as H. cbn [snd].
    destruct (schedulePendingLocked k p now (set_lastQueued l u1)) as [ok u2]. destruct H as (H1 & H2 & H3 & _); [done|].
    by apply (good_scheduled (set_lastQueued l u1) u2 k).
  - destruct (Nat.leb_spec apiKeyLastUsedPendingLimit (size (pending u1))) as [|Hs]; [by split|]. cbn [snd].
    set (p := mk_pending false false None false). set (u2 := set_lastQueued l (put k p u1)).
    assert (wf u2) as Hwf2 by (apply lastQueued_good; by apply fresh_wf).
    pose proof (schedule_wf None u2 k p now Hwf2) as H. cbn [pending u2 set_lastQueued put set_pending] in H.
    rewrite lookup_insert_eq in H. specialize (H eq_refl (or_introl eq_refl)).
    destruct (schedulePendingLocked k p now u2) as [ok u3]. destruct H as (H1 & H2 & H3 & _); [done|]. cbn [snd].
    split; [done|]. intros j. destruct (decide (j = k)) as [->|Hne]; [done|]. apply (grows_awake u2 u3 k); [done|done|].
    intros q Hq. apply (Ha1 j). cbn in Hq. by rewrite lookup_insert_ne in Hq.
Qed.

Lemma receive_good u : good u -> good (step EReceive u).
Proof.
  intros [Hwf Ha]. cbn. destruct (atWork u) eqn:Ew; try done. destruct (queue u) as [|k rest] eqn:Eq; [done|].
  destruct Hwf as [We Wr Wn Wd Wrec Wq Ws]. rewrite Eq in *. apply NoDup_cons in Wn as [Hk Hn].
  split; [|intros j q _ _ _; right; right; done]. split; cbn; try done.
  - intros j q Hj. destruct (We j q Hj) as [Eq1 Ef Eo Et Ea]. split; cbn; try done.
    + rewrite Eq1, Eq, Ew, elem_of_cons. split; [|intros [?|[= ->]]; auto]. intros [[->|?]|?]; auto; done.
    + rewrite Ef, Ew. done.
  - intros j [Hj|[Hj|Hj]]; [apply Wd; rewrite elem_of_cons; auto| |done]. injection Hj as <-. apply Wd. rewrite elem_of_cons. auto.
  - intros j [= <-]. done.
  - cbn in Wq. lia.
Qed.

Lemma dequeue_good u : good u -> good (step EDequeue u).
Proof.
  intros [Hwf Ha]. cbn. destruct (atWork u) as [|k|] eqn:Ew; try done. unfold markDequeued. destruct Hwf as [We Wr Wn Wd Wrec Wq Ws].
  destruct (Wd k) as [p Hp]; [auto|]. rewrite Hp. pose proof (Wrec k Ew) as Hk. destruct (We k p Hp) as [Eq Ef Eo Et Ea].
  assert (queued p = true) as Hq by (apply Eq; auto).
  split; [|intros j q _ _ _; right; right; done]. split; cbn; try done.
  - intros j q. destruct (decide (j = k)) as [->|Hne].
    + rewrite lookup_insert_eq. intros [= <-]. split; cbn; try done; [|intros _; by apply Ea; auto].
      split; [done|]. intros [?|?]; done.
    + rewrite lookup_insert_ne by done. intros Hj. destruct (We j q Hj) as [Eq' Ef' Eo' Et' Ea']. split; cbn; try done.
      * rewrite Eq', Ew. split; [intros [?|[= ->]]; auto; done|intros [?|?]; auto; done].
      * rewrite Ef', Ew. split; [done|]. intros [= ->]. done.
  - intros j q. destruct (decide (j = k)) as [->|Hne]; [|rewrite lookup_insert_ne by done; by apply Wr].
    rewrite lookup_insert_eq. intros [= <-]. cbn. by apply Wr.
  - intros j Hj. destruct (decide (j = k)) as [->|Hne]; [rewrite lookup_insert_eq; eauto|]. rewrite lookup_insert_ne by done.
    apply Wd. destruct Hj as [Hj|[Hj|Hj]]; auto; [done|]. injection Hj as ->. done.
  - rewrite map_size_insert_Some by eauto. done.
Qed.

(** The worker lays the key down. *)
Lemma released_wf u k p p' : wf u -> atWork u = Working k -> pending u !! k = Some p ->
  queued p' = false -> inFlight p' = false -> retryScheduled p' = retryScheduled p ->
  wf_but (Some k) (put k p' (set_worker Idle u)).
Proof.
  intros [We Wr Wn Wd Wrec Wq Ws] Ew Hp H1 H2 H3. destruct (We k p Hp) as [Eq Ef Eo Et Ea].
  assert (inFlight p = true) as Hf by (by apply Ef). assert (queued p = false) as Hq by (destruct (queued p); [by rewrite Eo in Hf|done]).
  assert (k ∉ queue u) as Hk by (intros Hin; assert (queued p = true) by (apply Eq; auto); congruence).
  split; cbn; try done.
  - intros j q. destruct (decide (j = k)) as [->|Hne].
    + rewrite lookup_insert_eq. intros [= <-]. split; cbn; rewrite ?H1, ?H2, ?H3; try done.
      * split; [done|]. intros [?|?]; done.
      * intros [?|?]; done.
    + rewrite lookup_insert_ne by done. intros Hj. destruct (We j q Hj) as [Eq' Ef' Eo' Et' Ea']. split; cbn; try done.
      * rewrite Eq', Ew. split; (intros [?|?]; [auto|done]).
      * rewrite Ef', Ew. split; [intros [= ->]; done|done].
  - intros j q. destruct (decide (j = k)) as [->|Hne]; [by intros _ _ []|]. rewrite lookup_insert_ne by done. intros Hj Hs _. by apply (Wr j q).
  - intros j Hj. destruct (decide (j = k)) as [->|Hne]; [rewrite lookup_insert_eq; eauto|]. rewrite lookup_insert_ne by done.
    destruct Hj as [Hj|[Hj|Hj]]; [auto|done|done].
  - rewrite map_size_insert_Some by eauto. done.
Qed.

Lemma dropped_wf u k p : wf u -> atWork u = Working k -> pending u !! k = Some p -> wf (set_pending (delete k (pending u)) (set_worker Idle u)).
Proof.
  intros [We Wr Wn Wd Wrec Wq Ws] Ew Hp. destruct (We k p Hp) as [Eq Ef Eo Et Ea].
  assert (inFlight p = true) as Hf by (by apply Ef). assert (queued p = false) as Hq by (destruct (queued p); [by rewrite Eo in Hf|done]).
  assert (k ∉ queue u) as Hk by (intros Hin; assert (queued p = true) by (apply Eq; auto); congruence).
  split; cbn; try done.
  - intros j q [Hne Hj]%lookup_delete_Some. destruct (We j q Hj) as [Eq' Ef' Eo' Et' Ea']. split; cbn; try done.
    + rewrite Eq', Ew. split; (intros [?|?]; [auto|done]).
    + rewrite Ef', Ew. split; [intros [= ->]; done|done].
  - intros j q [Hne Hj]%lookup_delete_Some Hs _. by apply (Wr j q).
  - intros j Hj. destruct Hj as [Hj|[Hj|Hj]]; [|done|done]. rewrite lookup_delete_ne by (by intros ->). auto.
  - rewrite map_size_delete_Some by eauto. lia.
Qed.

Lemma write_good ok order now u : good u -> order_ok (EWrite ok order now) u ->
  let u' := step (EWrite ok order now) u in
  good u' /\ forall j, is_Some (pending u' !! j) <-> is_Some (pending u !! j) /\ (ok = true -> atWork u <> Working j).
Proof.
  intros [Hwf Ha] Hord. cbn in Hord |- *. destruct (atWork u) as [|k|k] eqn:Ew; [split; [by split|]; intros j; split; [done|by intros []]..|].
  destruct (wf_dom None u Hwf k) as [p Hp]; [auto|]. destruct ok.
  - unfold markSucceeded. pose proof (dropped_wf u k p Hwf Ew Hp) as Hwf1. set (u1 := set_pending _ _) in *.
    destruct (ready_wf order now u1 Hwf1) as (H1 & H2 & H3 & H4 & H5); [done|].
    assert (forall j, is_Some (pending u1 !! j) <-> is_Some (pending u !! j) /\ k <> j) as Hd.
    { intros j. cbn. destruct (decide (k = j)) as [->|Hne]; [rewrite lookup_delete_eq|rewrite lookup_delete_ne by done]; [|tauto].
      split; [by intros [? ?]|by intros []]. }
    split; [split; [done|]|].
    + intros j. apply H5. destruct (decide (is_Some (pending u1 !! j))) as [Hj|Hj].
      * left. apply Hord. apply Hd in Hj as [Hj Hne]. split; [done|by apply elem_of_dom].
      * right. intros q Hq. destruct Hj. eauto.
    + intros j. rewrite H2, Hd. split; [intros [? ?]; split; [done|congruence]|]. intros [? Hne]. split; [done|]. intros ->. by apply Hne.
  - unfold markFailed. cbn [pending set_worker]. rewrite Hp. set (p1 := mk_pending (queued p) false _ (retryScheduled p)).
    assert (queued p = false) as Hq.
    { destruct (wf_entry None u Hwf k p Hp) as [_ Ef Eo _ _]. destruct (queued p) eqn:E; [|done]. apply Ef in Ew. by rewrite Eo in Ew. }
    pose proof (released_wf u k p p1 Hwf Ew Hp Hq eq_refl eq_refl) as Hwf1. set (u1 := put k p1 _) in *.
    assert (pending u1 !! k = Some p1) as Hp1 by (cbn; by rewrite lookup_insert_eq).
    destruct (retry_wf (Some k) u1 k p1 Hwf1 Hp1) as (H1 & [Gd Go Gt Gq Gw] & H3); [by right|done..|].
    destruct (ready_wf order now _ H1) as (R1 & R2 & R3 & R4 & R5); [intros j; by rewrite Gw|].
    assert (forall j, is_Some (pending u1 !! j) <-> is_Some (pending u !! j)) as Hd.
    { intros j. apply (put_dom k p1 (set_worker Idle u)). cbn. eauto. }
    split; [split; [done|]|].
    + intros j. apply R5. destruct (decide (is_Some (pending u1 !! j))) as [Hj|Hj].
      * left. apply Hord. right. apply elem_of_dom. by apply Hd.
      * right. intros q Hq'. destruct Hj. apply Gd. eauto.
    + intros j. rewrite R2, Gd, Hd. split; [intros ?; by split|by intros []].
Qed.

Lemma delete_elem (l : list Z) i k j : l !! i = Some k -> j ∈ l -> j <> k -> j ∈ delete i l.
Proof.
  intros Hi [m Hm]%list_elem_of_lookup Hne. apply list_elem_of_lookup. destruct (decide (m < i)%nat).
  - exists m. by rewrite list_lookup_delete_lt.
  - exists (m - 1)%nat. assert (m <> i) by congruence. rewrite list_lookup_delete_ge by lia. by replace (S (m - 1)) with m by lia.
Qed.

(** A timer is gone, and the flag of its key with it. *)
Lemma fired_wf u i k p : wf u -> timers u !! i = Some k -> pending u !! k = Some p ->
  wf_but (Some k) (put k (mk_pending (queued p) (inFlight p) (retryAfter p) false) (set_timers (delete i (timers u)) u)).
Proof.
  intros [We Wr Wn Wd Wrec Wq Ws] Hi Hp. destruct (We k p Hp) as [Eq Ef Eo Et Ea]. split; cbn; try done.
  - intros j q. destruct (decide (j = k)) as [->|Hne]; [rewrite lookup_insert_eq; intros [= <-]; by split|].
    rewrite lookup_insert_ne by done. intros Hj. destruct (We j q Hj). split; cbn; try done. intros Hs. apply (delete_elem _ i k); auto.
  - intros j q. destruct (decide (j = k)) as [->|Hne]; [by intros _ _ []|]. rewrite lookup_insert_ne by done. intros Hj Hs _.
    apply (delete_elem _ i k); [done| |done]. by apply (Wr j q).
  - intros j Hj. apply (put_dom k _ u); eauto.
  - rewrite map_size_insert_Some by eauto. done.
Qed.

Lemma unused_timer u i k : good u -> timers u !! i = Some k -> pending u !! k = None -> good (set_timers (delete i (timers u)) u).
Proof.
  intros [[We Wr Wn Wd Wrec Wq Ws] Ha] Hi Hk. assert (forall j, is_Some (pending u !! j) -> j <> k) as Hne by (intros j [q Hq] ->; congruence).
  split; [split; cbn; try done|].
  - intros j q Hj. destruct (We j q Hj). split; cbn; try done. intros Hs. apply (delete_elem _ i k); eauto.
  - intros j q Hj Hs _. apply (delete_elem _ i k); [done|by apply (Wr j q)|eauto].
  - intros j q Hj H1 H2. cbn in *. destruct (Ha j q Hj H1 H2) as [Ht|?]; [|auto]. left. apply (delete_elem _ i k); eauto.
Qed.

Lemma fire_good i now u : good u ->
  let u' := step (EFire i now) u in good u' /\ forall j, is_Some (pending u' !! j) <-> is_Some (pending u !! j).
Proof.
  intros Hg. cbn. destruct (timers u !! i) as [k|] eqn:Ei; [|done]. unfold fire. cbn [pending set_timers].
  destruct (pending u !! k) as [p|] eqn:Hp; [|split; [by apply (unused_timer u i k)|done]].
  destruct Hg as [Hwf Ha]. pose proof (fired_wf u i k p Hwf Ei Hp) as Hwf1. set (p1 := mk_pending (queued p) (inFlight p) (retryAfter p) false) in *.
  set (u1 := put k p1 _) in *. assert (pending u1 !! k = Some p1) as Hp1 by (cbn; by rewrite lookup_insert_eq).
  assert (forall j, is_Some (pending u1 !! j) <-> is_Some (pending u !! j)) as Hd by (intros j; apply (put_dom k p1 (set_timers _ u)); cbn; eauto).
  assert (forall j, j <> k -> awake u1 j) as Ha1.
  { intros j Hne q Hj H1 H2. cbn in *. rewrite lookup_insert_ne in Hj by done. destruct (Ha j q Hj H1 H2) as [Ht|?]; [|auto].
    left. by apply (delete_elem _ i k). }
  assert (forall u2, wf u2 -> grows u1 u2 k -> awake u2 k -> good u2 /\ forall j, is_Some (pending u2 !! j) <-> is_Some (pending u !! j)) as Hend.
  { intros u2 H1 H2 H3. split; [split; [done|]|].
    - intros j. destruct (decide (j = k)) as [->|Hne]; [done|]. apply (grows_awake u1 u2 k); auto.
    - intros j. by rewrite (gr_dom u1 u2 k H2), Hd. }
  cbn [retryAfter p1]. destruct (match retryAfter p with Some t => now <? t | None => false end) eqn:Et.
  - destruct (retryAfter p) as [t|] eqn:Er; [|done]. destruct (wf_entry (Some k) u1 Hwf1 k p1 Hp1) as [_ _ _ _ Ea]. cbn in Ea.
    destruct (retry_wf (Some k) u1 k p1 Hwf1 Hp1) as (H1 & H2 & H3); [by right|..].
    + destruct (queued p1) eqn:E; [|done]. specialize (Ea (or_introl E)). congruence.
    + destruct (inFlight p1) eqn:E; [|done]. specialize (Ea (or_intror E)). congruence.
    + by apply Hend.
  - pose proof (schedule_wf (Some k) u1 k p1 now Hwf1 Hp1 (or_intror eq_refl)) as H.
    destruct (schedulePendingLocked k p1 now u1) as [ok u2]. destruct H as (H1 & H2 & H3 & _).
    { intros _ t Ht. cbn in Ht. rewrite Ht in Et. by apply Z.ltb_ge in Et. }
    by apply Hend.
Qed.

Lemma step_good e u : good u -> order_ok e u -> good (step e u).
Proof.
  intros Hg Ho. destruct e as [k now| | |ok order now|i now];
    [by apply enqueue_good|by apply receive_good|by apply dequeue_good|by apply write_good|by apply fire_good].
Qed.

Lemma new_good : good new_updater.
Proof.
  split; [|intros k p Hp; cbn in Hp; by rewrite lookup_empty in Hp]. split; cbn.
  - intros k p Hp. by rewrite lookup_empty in Hp.
  - intros k p Hp. by rewrite lookup_empty in Hp.
  - constructor.
  - intros k [Hk|[Hk|Hk]]; [by apply elem_of_nil in Hk|done..].
  - done.
  - lia.
  - rewrite map_size_empty. lia.
Qed.

Lemma steps_good u es u' : steps u es u' -> good u -> good u'.
Proof. induction 1; [done|]. intros Hg. apply step_good; auto. Qed.

Lemma steps_app u es1 u1 es2 u2 : steps u es1 u1 -> steps u1 es2 u2 -> steps u (es1 ++ es2) u2.
Proof. intros H1 H2. induction H2; [by rewrite app_nil_r|]. rewrite app_assoc. by constructor; auto. Qed.

(** ** Nothing is lost *)

(** A key leaves the pending ones by a write that succeeds, only. *)
Lemma leaves e u k : good u -> order_ok e u -> is_Some (pending u !! k) ->
  is_Some (pending (step e u) !! k) \/ (exists order now, e = EWrite true order now) /\ atWork u = Working k.
Proof.
  intros Hg Ho Hk. destruct e as [j now| | |ok order now|i now].
  - left. cbn. unfold Enqueue. destruct (j <=? 0); [done|]. set (u1 := set_lastQueued _ u).
    assert (forall p u2, pending u2 !! j = Some p -> is_Some (pending u2 !! k) -> is_Some (pending (schedulePendingLocked j p now u2).2 !! k)) as Hs.
    { intros p u2 Hp H2. unfold schedulePendingLocked. repeat case_match; cbn; try done; by apply lookup_insert_is_Some'; auto. }
    match goal with |- is_Some (pending (if ?b then _ else _).2 !! k) => destruct b end; [done|].
    destruct (pending u1 !! j) as [p|] eqn:Hp; [by apply Hs|]. destruct (_ <=? _)%nat; [done|]. cbn [snd]. apply Hs; cbn; [by rewrite lookup_insert_eq|].
    apply lookup_insert_is_Some'. by right.
  - left. cbn. destruct (atWork u), (queue u); done.
  - left. cbn. destruct (atWork u) as [|j|]; try done. unfold markDequeued. destruct (pending u !! j); cbn; [|done].
    apply lookup_insert_is_Some'. by right.
  - destruct (write_good ok order now u Hg Ho) as [_ Hd]. destruct ok; [|left; apply Hd; by split].
    destruct (atWork u) as [|j|j] eqn:Ew; [left; apply Hd; by split..|]. destruct (decide (j = k)) as [->|Hne]; [right; eauto|].
    left. apply Hd. split; [done|]. congruence.
  - left. by apply fire_good.
Qed.

(** A write of the key succeeded. *)
Definition written (k : Z) (es : list event) (u : Updater) : Prop :=
  exists es1 u1 order now es2, es = es1 ++ EWrite true order now :: es2 /\ steps u es1 u1 /\ atWork u1 = Working k.

Lemma kept k es u u' : steps u es u' -> good u -> is_Some (pending u !! k) -> is_Some (pending u' !! k) \/ written k es u.
Proof.
  induction 1 as [u|u es u' e Hs IH Ho]; intros Hg Hk; [by left|].
  destruct (IH Hg Hk) as [Hk'|(es1 & u1 & order & now & es2 & -> & H1 & H2)].
  - destruct (leaves e u' k (steps_good _ _ _ Hs Hg) Ho Hk') as [?|[(order & now & ->) Hw]]; [by left|]. right. by exists es, u', order, now, [].
  - right. exists es1, u1, order, now, (es2 ++ [e]). by rewrite <- app_assoc.
Qed.

(** Steps of the worker and of timers, and no write fails. *)
Definition quiet (e : event) : Prop := match e with EEnqueue _ _ => False | EWrite ok _ _ => ok = true | _ => True end.

Lemma one_step u e : order_ok e u -> steps u [e] (step e u).
Proof. intros Ho. apply (steps_snoc u [] u e); [constructor|done]. Qed.

Definition shrinks (u : Updater) : Prop := exists es u', steps u es u' /\ Forall quiet es /\ (size (pending u') < size (pending u))%nat.

Lemma shrinks_after u e : quiet e -> order_ok e u -> (forall j, is_Some (pending (step e u) !! j) <-> is_Some (pending u !! j)) ->
  shrinks (step e u) -> shrinks u.
Proof.
  intros Hq Ho Hd (es & u' & Hs & Hes & Hlt). exists ([e] ++ es), u'. split; [eapply steps_app; [by apply one_step|done]|].
  split; [by constructor|]. assert (dom (pending (step e u)) = dom (pending u)) as Hdom by (apply set_eq; intros j; by rewrite !elem_of_dom).
  by rewrite <- (size_dom (pending u)), <- Hdom, size_dom.
Qed.

Lemma work_shrinks u : good u -> atWork u <> Idle \/ queue u <> [] -> shrinks u.
Proof.
  assert (forall u k, good u -> atWork u = Working k -> shrinks u) as Hwork.
  { clear u. intros u k Hg Hw. set (e := EWrite true (elements (dom (delete k (pending u)))) 0).
    assert (order_ok e u) as Ho.
    { cbn. rewrite Hw. intros j. rewrite elem_of_elements, dom_delete, elem_of_difference, elem_of_singleton. tauto. }
    destruct (write_good true _ 0 u Hg Ho) as [_ Hd]. exists [e], (step e u). split; [by apply one_step|]. split; [by repeat constructor|].
    destruct (proj1 Hg) as [_ _ _ Wd _ _ _]. rewrite <- !size_dom. apply subset_size. split.
    - intros j. rewrite !elem_of_dom. intros Hj. by apply Hd in Hj as [Hj _].
    - intros Hsub. specialize (Hsub k). rewrite !elem_of_dom in Hsub. apply Hd in Hsub as [_ Hne]; [by apply Hne|]. auto. }
  assert (forall u k, good u -> atWork u = Received k -> shrinks u) as Hreceived.
  { clear u. intros u k Hg Hw. pose proof (step_good EDequeue u Hg I) as Hg1. destruct (wf_dom _ _ (proj1 Hg) k) as [p Hp]; [auto|].
    assert (step EDequeue u = set_worker (Working k) (put k (mk_pending false true (retryAfter p) (retryScheduled p)) u)) as Es.
    { cbn. by rewrite Hw; unfold markDequeued; rewrite Hp. }
    apply (shrinks_after u EDequeue); [done|done| |]; rewrite ?Es; [intros j; apply put_dom; eauto|]. rewrite Es in Hg1. by apply (Hwork _ k). }
  intros Hg Hb. destruct (atWork u) as [|k|k] eqn:Hw; [|by apply (Hreceived u k)|by apply (Hwork u k)].
  destruct (queue u) as [|k rest] eqn:Eq; [by destruct Hb|]. pose proof (step_good EReceive u Hg I) as Hg1.
  assert (step EReceive u = set_worker (Received k) (set_queue rest u)) as Es by (cbn; by rewrite Hw, Eq).
  apply (shrinks_after u EReceive); [done|done| |]; rewrite ?Es; [done|]. rewrite Es in Hg1. by apply (Hreceived _ k).
Qed.

Lemma pending_shrinks u : good u -> pending u <> ∅ -> shrinks u.
Proof.
  intros Hg Hne. destruct (decide (atWork u = Idle)) as [Hw|Hw]; [|apply work_shrinks; auto].
  destruct (decide (queue u = [])) as [Hq|Hq]; [|apply work_shrinks; auto].
  apply map_choose in Hne as (k & p & Hp). pose proof Hg as [Hwf Ha]. destruct (wf_entry _ _ Hwf k p Hp) as [Eq Ef _ _ _]. rewrite Hw in Eq, Ef. rewrite Hq in Eq.
  assert (queued p = false) as H1 by (destruct (queued p); [destruct (proj1 Eq eq_refl) as [H%elem_of_nil|]; done|done]).
  assert (inFlight p = false) as H2 by (destruct (inFlight p); [by discriminate (proj1 Ef eq_refl)|done]).
  destruct (Ha k p Hp H1 H2) as [Ht|[?|?]]; [|done..]. apply list_elem_of_lookup in Ht as [i Hi].
  set (now := default 0 (retryAfter p)). destruct (fire_good i now u Hg) as [Hg1 Hd].
  apply (shrinks_after u (EFire i now)); [done|done|done|]. apply work_shrinks; [done|]. right.
  cbn. rewrite Hi. unfold fire. cbn [pending set_timers]. rewrite Hp. unfold now. rewrite H1, H2. cbn [retryAfter].
  unfold schedulePendingLocked. cbn. rewrite Hq. cbn. destruct (retryAfter p) as [t|]; cbn; [|done]. by rewrite Z.ltb_irrefl.
Qed.

Lemma drains u : good u -> exists es u', steps u es u' /\ Forall quiet es /\ pending u' = ∅.
Proof.
  remember (size (pending u)) as n eqn:Hn. revert u Hn. induction (lt_wf n) as [n _ IH]. intros u -> Hg.
  destruct (decide (pending u = ∅)) as [He|He]; [exists [], u; repeat split; [constructor|constructor|done]|].
  destruct (pending_shrinks u Hg He) as (es1 & u1 & Hs1 & Hq1 & Hlt). destruct (IH _ Hlt u1 eq_refl (steps_good _ _ _ Hs1 Hg)) as (es2 & u2 & Hs2 & Hq2 & He2).
  exists (es1 ++ es2), u2. split; [by eapply steps_app|]. split; [by apply Forall_app|done].
Qed.

Lemma accepted k now u : (Enqueue k now u).1 = true -> is_Some (pending (Enqueue k now u).2 !! k).
Proof.
  unfold Enqueue. destruct (k <=? 0); [done|]. set (u1 := set_lastQueued _ u).
  assert (forall p u2, pending u2 !! k = Some p -> is_Some (pending (schedulePendingLocked k p now u2).2 !! k)) as Hs.
  { intros p u2 Hp. unfold schedulePendingLocked. repeat case_match; cbn; eauto; apply lookup_insert_is_Some'; auto. }
  match goal with |- (if ?b then _ else _).1 = true -> _ => destruct b end; [done|].
  destruct (pending u1 !! k) as [p|] eqn:Hp; [intros _; by apply Hs|]. destruct (_ <=? _)%nat; [done|]. intros _. apply Hs. cbn. by rewrite lookup_insert_eq.
Qed.

(** C34: no accepted use of a key is lost, within bounded memory.  Whatever ran
    before and after, with whatever failures of the store: when a use is accepted,
    a write of the key succeeds after it, as soon as the store takes writes again;
    the worker and the timers get there without a further request.  At most 128
    keys are in the channel and 1024 are pending. *)
Theorem last_used_written es u k now es' u' :
  steps new_updater es u -> (Enqueue k now u).1 = true -> steps (Enqueue k now u).2 es' u' ->
  (length (queue u') <= 128 /\ size (pending u') <= 1024)%nat /\
  exists es'' u'', steps u' es'' u'' /\ Forall quiet es'' /\ pending u'' = ∅ /\ written k (es' ++ es'') (Enqueue k now u).2.
Proof.
  intros Hs Hacc Hs'. assert (good u) as Hg by (eapply steps_good; [done|apply new_good]).
  pose proof (enqueue_good k now u Hg) as Hg1. pose proof (steps_good _ _ _ Hs' Hg1) as Hg2. split.
  - destruct Hg2 as [[_ _ _ _ _ Wq Ws] _]. done.
  - destruct (drains u' Hg2) as (es'' & u'' & Hs2 & Hq & He). exists es'', u''. split; [done|]. split; [done|]. split; [done|].
    destruct (kept k (es' ++ es'') (Enqueue k now u).2 u'') as [[p Hp]|]; [by eapply steps_app|done|by apply accepted| |done].
    by rewrite He, lookup_empty in Hp.
Qed.

(** A use is accepted, and its first write fails. *)
Definition one_use : Updater := (Enqueue 7 1000 new_updater).2.

Definition failed_write : list event := [EReceive; EDequeue; EWrite false [7] 2000].

Definition after_failure : Updater := fold_left (fun u e => step e u) failed_write one_use.

(** [last_used_written] after the failure. *)
Lemma last_used_written_witness :
  timers after_failure = [7] /\
  exists es'' u'', steps after_failure es'' u'' /\ Forall quiet es'' /\ pending u'' = ∅ /\ written 7 (failed_write ++ es'') one_use.
Proof.
  split; [by vm_compute|].
  apply (last_used_written [] new_updater 7 1000 failed_write after_failure); [constructor|by vm_compute|].
  apply (steps_snoc _ [EReceive; EDequeue]); [apply (steps_snoc _ [EReceive]); [apply (steps_snoc _ []); [constructor|done]|done]|].
  unfold order_ok. assert (atWork (step EDequeue (step EReceive one_use)) = Working 7) as -> by (by vm_compute).
  intros k. change (k ∈ [7] <-> k = 7 \/ k ∈ dom (pending (step EDequeue (step EReceive one_use)))).
  assert (dom (pending (step EDequeue (step EReceive one_use))) = {[7]}) as -> by (by vm_compute).
  rewrite list_elem_of_singleton, elem_of_singleton. tauto.
Defined.
