(* ===== verification/KeyForm.v ===== *)
(** The form that creates an API key, and the pages of the key list:
    internal/api/admin/pages.go.  Messages are named by their keys. *)
From stdpp Require Import base list option strings gmap.
From Stdlib Require Import ZArith Lia.
From S2P Require Import Prelude GoStrings GoNumbers GoTime Collections CheckRequest Urls DevStore.
Open Scope Z_scope.

Definition maxAPIKeyLifetimeDays : Z := 365.
Definition defaultAPIKeyExpiryDays : Z := 30.
Definition apiKeyExpiresCustomValue : string := "custom".
Definition maxAPIKeyNameLength : Z := 128.
Definition apiKeyCreateNonceFlashKey : string := "api_key_create_nonce".
Definition adminAPIKeyPageSize : Z := 100.

(** The days of apiKeyExpiryPresets; the labels are left out. *)
Definition apiKeyExpiryPresets : list Z := [1; 7; 14; 30; 90; 180; 365].

(** The fields of the forms that create, revoke and delete keys. *)
Record key_form := mk_key_form {
  fName : string; fExpiresInDays : string; fCustomDays : string; fNonce : string; fKeyID : string; fReturnOffset : string
}.

Definition safeAPIKeyCreateNameValue (raw : string) : string :=
  let name := TrimSpace raw in
  if bool_decide (name = "") || (maxAPIKeyNameLength <? RuneCountInString name) then "" else name.

Definition safeAPIKeyExpiresSelection (raw : string) : string :=
  let raw := TrimSpace raw in
  if bool_decide (raw = apiKeyExpiresCustomValue) then raw
  else if existsb (fun days => bool_decide (raw = Itoa days)) apiKeyExpiryPresets then raw else "".

Definition safeAPIKeyExpiresCustomDays (raw : string) : string :=
  let raw := TrimSpace raw in
  match Atoi raw with
  | None => ""
  | Some days => if (days <? 1) || (maxAPIKeyLifetimeDays <? days) then "" else raw
  end.

(** [0] is "custom". *)
Definition apiKeySelectedExpiryDays (raw : string) : Z :=
  let raw := TrimSpace raw in
  if bool_decide (raw = apiKeyExpiresCustomValue) then 0
  else default defaultAPIKeyExpiryDays (List.find (fun days => bool_decide (raw = Itoa days)) apiKeyExpiryPresets).

Definition set_nonempty (k v : string) (values : query_values) : query_values :=
  if bool_decide (v = "") then values else <[k := [v]]> values.

(** The target of the redirect. *)
Definition redirectAPIKeyCreateError (form : key_form) (message name : string) : string :=
  "/admin/keys?" +:+ query_encode
    (set_nonempty "expires_custom_days" (safeAPIKeyExpiresCustomDays (fCustomDays form))
      (set_nonempty "expires_in_days" (safeAPIKeyExpiresSelection (fExpiresInDays form))
        (set_nonempty "name" (safeAPIKeyCreateNameValue name) {[ "err" := [message] ]}))).

Definition adminKeysURL (offset : Z) (param value : string) : string :=
  let values : query_values :=
    (if negb (bool_decide (TrimSpace param = "")) && negb (bool_decide (value = "")) then {[ param := [value] ]} else ∅) in
  let values := if 0 <? offset then <["offset" := [Itoa offset]]> values else values in
  if bool_decide (values = ∅) then "/admin/keys" else "/admin/keys?" +:+ query_encode values.

Definition parseNonNegativeOffset (raw : string) : Z :=
  match Atoi raw with None => 0 | Some offset => if offset <? 0 then 0 else offset end.

(** The error is the key of its message. *)
Definition normalizeAPIKeyName (raw : string) : string + string :=
  let name := TrimSpace raw in
  if bool_decide (name = "") then inl "admin.keys.error.name_required"
  else if maxAPIKeyNameLength <? RuneCountInString name then inl "admin.keys.error.name_too_long"
  else inr name.

Definition Day : Z := 86400 * Second.

Definition truncate_second (t : Time) : Time := t - t mod Second.

Definition parseAPIKeyExpiresInDays (selected custom : string) (now : Time) : string + Time :=
  let raw := TrimSpace selected in
  let raw := if bool_decide (raw = apiKeyExpiresCustomValue) then TrimSpace custom else raw in
  if bool_decide (raw = "") then inl "admin.keys.error.expiration_required"
  else match Atoi raw with
       | None => inl "admin.keys.error.expiration_invalid"
       | Some days =>
           if days <? 1 then inl "admin.keys.error.expiration_future"
           else if maxAPIKeyLifetimeDays <? days then inl "admin.keys.error.expiration_max_lifetime"
           else inr (truncate_second (now + days * Day))
       end.

(** listAPIKeyPage of a store that does not page: the keys and whether more follow. *)
Definition listAPIKeyPage (keys : list APIKey) (offset : Z) : list APIKey * bool :=
  let limit := adminAPIKeyPageSize + 1 in
  let keys := if Z.of_nat (length keys) <=? offset then []
              else take (Z.to_nat (Z.min (offset + limit) (Z.of_nat (length keys)) - offset)) (drop (Z.to_nat offset) keys) in
  if adminAPIKeyPageSize <? Z.of_nat (length keys) then (take (Z.to_nat adminAPIKeyPageSize) keys, true) else (keys, false).

(** ** Facts *)

Lemma expiry_bounds selected custom now e : parseAPIKeyExpiresInDays selected custom now = inr e ->
  now < e <= now + maxAPIKeyLifetimeDays * Day /\ e mod Second = 0.
Proof.
  unfold parseAPIKeyExpiresInDays. repeat case_bool_decide; try done; (destruct (Atoi _) as [days|]; [|done]);
    (destruct (Z.ltb_spec days 1); [done|]); (destruct (Z.ltb_spec maxAPIKeyLifetimeDays days); [done|]); intros [= <-];
    unfold truncate_second, Day, maxAPIKeyLifetimeDays, Second in *; pose proof (Z.mod_pos_bound (now + days * (86400 * 1000000000)) 1000000000);
    (split; [lia|]); rewrite Zminus_mod_idemp_r, Z.sub_diag; done.
Qed.

Lemma rune_count_nonneg fuel s : 0 <= rune_count fuel s.
Proof. revert s. induction fuel as [|fuel IH]; intros [|c s]; cbn; try lia. repeat case_match; try apply Z.add_nonneg_nonneg; try lia; apply IH. Qed.

Lemma rune_count_pos s : s <> "" -> 1 <= RuneCountInString s.
Proof.
  destruct s as [|c s]; [done|]. intros _. unfold RuneCountInString. cbn [String.length rune_count].
  match goal with |- 1 <= 1 + ?x => enough (0 <= x) by lia end. repeat case_match; apply rune_count_nonneg.
Qed.

Lemma normalized_name raw name : normalizeAPIKeyName raw = inr name -> name = TrimSpace raw /\ name <> "" /\ RuneCountInString name <= 128.
Proof.
  unfold normalizeAPIKeyName. case_bool_decide; [done|]. destruct (Z.ltb_spec maxAPIKeyNameLength (RuneCountInString (TrimSpace raw))); [done|].
  intros [= <-]. unfold maxAPIKeyNameLength in *. split; [done|]. split; [done|lia].
Qed.

(** Successive pages list every key once, in order. *)
Lemma key_page keys offset : 0 <= offset -> 
  (listAPIKeyPage keys offset).1 = take 100 (drop (Z.to_nat offset) keys) /\
  ((listAPIKeyPage keys offset).2 = true <-> offset + 100 < Z.of_nat (length keys)).
Proof.
  intros Ho. unfold listAPIKeyPage, adminAPIKeyPageSize. change (100 + 1) with 101. destruct (Z.leb_spec (Z.of_nat (length keys)) offset).
  - rewrite drop_ge by lia. cbn. split; [done|]. split; [done|lia].
  - destruct (Z.ltb_spec 100 (Z.of_nat (length (take (Z.to_nat (Z.min (offset + 101) (Z.of_nat (length keys)) - offset)) (drop (Z.to_nat offset) keys)))))
      as [Hl|Hl]; rewrite length_take, length_drop in Hl; cbn [fst snd].
    + split; [|split; [lia|done]]. rewrite take_take. f_equal. lia.
    + split; [|split; [done|lia]]. rewrite !take_ge; [done|rewrite length_drop; lia..].
Qed.
