(* ===== verification/LoginLimits.v ===== *)
(** Failed admin logins and the lockout: the rate limiting of
    internal/api/admin/handler.go.  Every operation holds loginMu, so it is one
    step. *)
From stdpp Require Import base list option strings gmap.
From Stdlib Require Import ZArith Lia.
From S2P Require Import Prelude GoTime.
Open Scope Z_scope.

Definition loginMaxAttempts : Z := 5.
Definition loginLockoutDuration : Duration := 15 * Minute.
Definition adminLoginAccountKey : string := "account:admin".

Record loginAttempt := mk_attempt {
  count : Z;
  lockedAt : Time;
  lastFailedAt : Time;
  lockoutAuditedAt : Time
}.

Definition zero_attempt : loginAttempt := mk_attempt 0 0 0 0.

(** The map holds pointers: a record has an identity that survives updates. *)
Record AttemptTable := mk_table { loginAttempts : gmap string (nat * loginAttempt); nextAttempt : nat }.

Definition no_attempts : AttemptTable := mk_table ∅ 0.

Definition set_attempt (key : string) (p : nat) (a : loginAttempt) (t : AttemptTable) : AttemptTable :=
  mk_table (<[key := (p, a)]> (loginAttempts t)) (nextAttempt t).

Definition drop_attempt (key : string) (t : AttemptTable) : AttemptTable :=
  mk_table (delete key (loginAttempts t)) (nextAttempt t).

(** ** Recording *)

Definition stale (now : Time) (a : loginAttempt) : bool :=
  IsZero (lockedAt a) && negb (IsZero (lastFailedAt a)) && (loginLockoutDuration <=? Sub now (lastFailedAt a)).

Definition count_failure (now : Time) (a : loginAttempt) : loginAttempt :=
  let n := count a + 1 in
  mk_attempt n (if (loginMaxAttempts <=? n) && IsZero (lockedAt a) then now else lockedAt a) now (lockoutAuditedAt a).

Definition recordFailedAttemptLocked (key : string) (now : Time) (t : AttemptTable) : AttemptTable :=
  match loginAttempts t !! key with
  | None =>
      let p := nextAttempt t in
      set_attempt key p (count_failure now zero_attempt) (mk_table (loginAttempts t) (S p))
  | Some (p, a) => set_attempt key p (count_failure now (if stale now a then zero_attempt else a)) t
  end.

Definition recordFailedAttemptFor (ip : string) (includeAccount : bool) (now : Time) (t : AttemptTable) : AttemptTable :=
  let t := recordFailedAttemptLocked ip now t in
  if includeAccount then recordFailedAttemptLocked adminLoginAccountKey now t else t.

Definition recordFailedAttempt (ip : string) (now : Time) (t : AttemptTable) : AttemptTable := recordFailedAttemptFor ip true now t.

(** ** Lockout *)

(** A lockout that is over is forgotten. *)
Definition isAttemptLocked (key : string) (now : Time) (t : AttemptTable) : bool * AttemptTable :=
  match loginAttempts t !! key with
  | None => (false, t)
  | Some (_, a) =>
      if (count a <? loginMaxAttempts) || IsZero (lockedAt a) then (false, t)
      else if Sub now (lockedAt a) <? loginLockoutDuration then (true, t)
      else (false, drop_attempt key t)
  end.

Definition isLockedOut (ip : string) (now : Time) (t : AttemptTable) : bool * AttemptTable :=
  match isAttemptLocked ip now t with
  | (true, t) => (true, t)
  | (false, t) => isAttemptLocked adminLoginAccountKey now t
  end.

Definition resetAttempts (ip : string) (t : AttemptTable) : AttemptTable := drop_attempt adminLoginAccountKey (drop_attempt ip t).

Definition kept_attempt (cutoff : Time) (a : loginAttempt) : bool :=
  if loginMaxAttempts <=? count a then negb (negb (IsZero (lockedAt a)) && Before (lockedAt a) cutoff)
  else negb (IsZero (lastFailedAt a) || Before (lastFailedAt a) cutoff).

Definition cleanupExpiredLoginAttempts (now : Time) (t : AttemptTable) : AttemptTable :=
  let cutoff := Add now (- loginLockoutDuration) in
  mk_table (filter (fun kv => kept_attempt cutoff kv.2.2 = true) (loginAttempts t)) (nextAttempt t).

(** ** The audit row of a lockout *)

Record lockoutAuditMark := mk_mark { markKey : string; markAttempt : nat; markPrevious : Time; markClaimedAt : Time }.

Definition set_audited (now : Time) (a : loginAttempt) : loginAttempt := mk_attempt (count a) (lockedAt a) (lastFailedAt a) now.

Definition claim_key (now : Time) (acc : list lockoutAuditMark * AttemptTable) (key : string) : list lockoutAuditMark * AttemptTable :=
  let '(marks, t) := acc in
  match loginAttempts t !! key with
  | None => (marks, t)
  | Some (p, a) =>
      match isAttemptLocked key now t with
      | (false, t) => (marks, t)
      | (true, t) =>
          if IsZero (lockoutAuditedAt a) || Before (lockoutAuditedAt a) (lockedAt a)
          then (marks ++ [mk_mark key p (lockoutAuditedAt a) now], set_attempt key p (set_audited now a) t)
          else (marks, t)
      end
  end.

(** No marks: another request writes the row. *)
Definition claimLockoutAudit (ip : string) (now : Time) (t : AttemptTable) : list lockoutAuditMark * AttemptTable :=
  fold_left (claim_key now) [ip; adminLoginAccountKey] ([], t).

Definition release_mark (t : AttemptTable) (mark : lockoutAuditMark) : AttemptTable :=
  match loginAttempts t !! markKey mark with
  | None => t
  | Some (p, a) =>
      if negb (bool_decide (p = markAttempt mark)) || negb (lockoutAuditedAt a =? markClaimedAt mark) then t
      else set_attempt (markKey mark) p (set_audited (markPrevious mark) a) t
  end.

Definition releaseLockoutAudit (claim : list lockoutAuditMark) (t : AttemptTable) : AttemptTable := fold_left release_mark claim t.

(** ** Invariant *)

(** Locked exactly from the fifth failure on, at most. *)
Definition attempt_ok (a : loginAttempt) : Prop := 1 <= count a /\ 0 < lastFailedAt a /\ (lockedAt a <> 0 <-> loginMaxAttempts <= count a) /\ 0 <= lockedAt a.

Definition table_ok (t : AttemptTable) : Prop := map_Forall (fun _ pa => attempt_ok pa.2) (loginAttempts t).

Lemma table_ok_drop key t : table_ok t -> table_ok (drop_attempt key t).
Proof. intros H. by apply map_Forall_delete. Qed.

Lemma table_ok_set key p a t : table_ok t -> attempt_ok a -> table_ok (set_attempt key p a t).
Proof. intros H Ha. by apply map_Forall_insert_2. Qed.

Lemma count_failure_ok now a : 0 < now -> attempt_ok a \/ a = zero_attempt -> attempt_ok (count_failure now a).
Proof.
  unfold attempt_ok, count_failure, loginMaxAttempts, IsZero. intros Hnow [(Hc & Hl & Hlock & Hpos)| ->]; cbn [count lockedAt lastFailedAt].
  - destruct (Z.leb_spec 5 (count a + 1)), (Z.eqb_spec (lockedAt a) 0); cbn; lia.
  - change (count zero_attempt + 1) with 1. change (5 <=? 1) with false. cbn. lia.
Qed.

Lemma record_locked_ok key now t : 0 < now -> table_ok t -> table_ok (recordFailedAttemptLocked key now t).
Proof.
  intros Hnow Ht. unfold recordFailedAttemptLocked. destruct (loginAttempts t !! key) as [[p a]|] eqn:E.
  - apply table_ok_set; [done|]. apply count_failure_ok; [done|]. destruct (stale now a); [by right|left]. apply (Ht _ _ E).
  - apply table_ok_set; [done|]. apply count_failure_ok; [done|by right].
Qed.

Lemma record_ok ip b now t : 0 < now -> table_ok t -> table_ok (recordFailedAttemptFor ip b now t).
Proof. intros Hnow Ht. unfold recordFailedAttemptFor. destruct b; [apply record_locked_ok; [done|]|]; by apply record_locked_ok. Qed.

Lemma isAttemptLocked_ok key now t : table_ok t -> table_ok (isAttemptLocked key now t).2.
Proof.
  intros Ht. unfold isAttemptLocked. destruct (loginAttempts t !! key) as [[p a]|]; [|done].
  destruct (_ || _); [done|]. destruct (_ <? _); [done|by apply table_ok_drop].
Qed.

Lemma isLockedOut_ok ip now t : table_ok t -> table_ok (isLockedOut ip now t).2.
Proof.
  intros Ht. unfold isLockedOut. pose proof (isAttemptLocked_ok ip now t Ht) as H. destruct (isAttemptLocked ip now t) as [[] t1]; [done|].
  by apply isAttemptLocked_ok.
Qed.

Lemma cleanup_ok now t : table_ok t -> table_ok (cleanupExpiredLoginAttempts now t).
Proof. intros Ht key pa [Hk _]%map_lookup_filter_Some. by apply (Ht key). Qed.

Lemma set_audited_ok now a : attempt_ok a -> attempt_ok (set_audited now a).
Proof. done. Qed.

Lemma claim_ok ip now t : table_ok t -> table_ok (claimLockoutAudit ip now t).2.
Proof.
  unfold claimLockoutAudit. generalize (@nil lockoutAuditMark) as marks. revert t.
  induction [ip; adminLoginAccountKey] as [|key keys IH]; intros t marks Ht; [done|].
  cbn [fold_left]. destruct (claim_key now (marks, t) key) as [marks' t'] eqn:E. apply IH.
  revert E. unfold claim_key. destruct (loginAttempts t !! key) as [[p a]|] eqn:Ek.
  - pose proof (isAttemptLocked_ok key now t Ht) as Hl. destruct (isAttemptLocked key now t) as [[] t1]; [destruct (_ || _)|];
      intros [= <- <-]; try done. apply table_ok_set; [done|]. apply set_audited_ok, (Ht _ _ Ek).
  - by intros [= <- <-].
Qed.

Lemma release_ok claim t : table_ok t -> table_ok (releaseLockoutAudit claim t).
Proof.
  unfold releaseLockoutAudit. revert t. induction claim as [|m claim IH]; intros t Ht; [done|]. cbn [fold_left]. apply IH.
  unfold release_mark. destruct (loginAttempts t !! markKey m) as [[p a]|] eqn:E; [|done]. destruct (_ || _); [done|].
  apply table_ok_set; [done|]. apply set_audited_ok, (Ht _ _ E).
Qed.

(** ** Within one lockout period

    The account seen from a period of [loginLockoutDuration] that starts at
    [t0]: either an older lockout still stands, or at least [r] failures of the
    period are counted. *)

Section period.
Context (t0 : Time).

Definition in_period (t : Time) : Prop := t0 <= t < t0 + loginLockoutDuration.

Definition account (t : AttemptTable) : option loginAttempt := snd <$> loginAttempts t !! adminLoginAccountKey.

Definition older_lockout (a : loginAttempt) : Prop := lockedAt a <> 0 /\ lockedAt a < t0.

Definition old_stage (t : AttemptTable) : Prop := exists a, account t = Some a /\ older_lockout a.

Definition counted (r : Z) (t : AttemptTable) : Prop :=
  match account t with
  | None => r <= 0
  | Some a => ~ older_lockout a /\ (0 < r -> r <= count a /\ (lockedAt a = 0 -> t0 <= lastFailedAt a))
  end.

(** A change that neither counts a failure nor forgets one of the period. *)
Definition preserves (t t' : AttemptTable) : Prop :=
  (old_stage t -> old_stage t' \/ counted 0 t') /\ (forall r, counted r t -> counted r t').

Lemma preserves_refl t : preserves t t.
Proof. split; [by left|done]. Qed.

Lemma preserves_trans t1 t2 t3 : preserves t1 t2 -> preserves t2 t3 -> preserves t1 t3.
Proof. intros [Ha Hb] [Hc Hd]. split; [intros [H|H]%Ha; [by apply Hc|right; by apply Hd]|]. intros r H. by apply Hd, Hb. Qed.

Lemma stage_cases t : old_stage t \/ counted 0 t.
Proof.
  unfold old_stage, counted. destruct (account t) as [a|]; [|by right]. destruct (decide (lockedAt a <> 0 /\ lockedAt a < t0)) as [H|H].
  - left. by exists a.
  - right. split; [done|lia].
Qed.

Lemma account_same t t' : account t' = account t -> preserves t t'.
Proof. intros H. unfold preserves, old_stage, counted. rewrite H. split; [by left|done]. Qed.

Lemma record_account now t : 0 < t0 -> table_ok t -> in_period now ->
  let t' := recordFailedAttemptLocked adminLoginAccountKey now t in
  (old_stage t -> old_stage t') /\ (forall r, 0 <= r -> counted r t -> counted (r + 1) t').
Proof.
  intros Hpos Hok [Hlo Hhi] t'. unfold t', recordFailedAttemptLocked, old_stage, counted, account, older_lockout.
  destruct (loginAttempts t !! adminLoginAccountKey) as [[p a]|] eqn:E; cbn [fmap option_fmap option_map snd set_attempt loginAttempts];
    rewrite lookup_insert_eq; cbn [fmap option_fmap option_map snd].
  - pose proof (Hok _ _ E) as (Hc & Hl & Hlock & Hlp). cbn [snd] in *. unfold stale, count_failure, IsZero, Sub, loginMaxAttempts in *.
    split.
    + intros (a' & [= <-] & Hne & Hold). assert (lockedAt a =? 0 = false) as Ez by lia.
      rewrite !Ez. cbn [andb]. rewrite !Ez, andb_false_r. eexists. split; [done|]. done.
    + intros r Hr [Hn Hcount]. unfold loginLockoutDuration, Minute, Second in *. unfold int64_min, int64_max.
      destruct (lockedAt a =? 0) eqn:Ez; cbn [andb]; [apply Z.eqb_eq in Ez as Hz|apply Z.eqb_neq in Ez as Hz].
      * destruct (Z.eqb_spec (lastFailedAt a) 0) as [|Hlz]; [lia|]. cbn [negb andb].
        destruct (Z.leb_spec (15 * (60 * 1000000000)) (Z.max (- 2 ^ 63) (Z.min (2 ^ 63 - 1) (now - lastFailedAt a)))).
        -- destruct (decide (0 < r)) as [Hr0|Hr0]; [destruct (Hcount Hr0); lia|].
           change (5 <=? count zero_attempt + 1) with false. cbn. split; [intros [? ?]; lia|]. intros _. split; [lia|intros; lia].
        -- rewrite Ez, andb_true_r. destruct (Z.leb_spec 5 (count a + 1)); cbn; (split; [intros [? ?]; lia|]); intros _; (split; [|intros; lia]);
             destruct (decide (0 < r)) as [Hr0|Hr0]; try (destruct (Hcount Hr0); lia); lia.
      * rewrite Ez, andb_false_r. cbn. split; [done|]. intros _. destruct (decide (0 < r)) as [Hr0|Hr0]; [destruct (Hcount Hr0); lia|]. lia.
  - split; [by intros (a & ? & _)|]. intros r Hr0 Hr. change (count_failure now zero_attempt) with (mk_attempt 1 0 now 0).
    cbn. split; [intros [? ?]; lia|]. lia.
Qed.

(** A check of the account: over five failures of the period it is locked, and
    only an older lockout is forgotten. *)
Lemma locked_account now t : 0 < t0 -> table_ok t -> in_period now ->
  let '(b, t') := isAttemptLocked adminLoginAccountKey now t in
  preserves t t' /\ (b = false -> counted 0 t') /\ (forall r, counted r t -> b = false -> r < 5).
Proof.
  intros Hpos Hok [Hlo Hhi]. unfold isAttemptLocked. destruct (loginAttempts t !! adminLoginAccountKey) as [[p a]|] eqn:E.
  - pose proof (Hok _ _ E) as (Hc & Hl & Hlock & Hlp). cbn [snd] in *. unfold loginMaxAttempts, IsZero in *.
    assert (account t = Some a) as Ha by (unfold account; by rewrite E).
    destruct ((count a <? 5) || (lockedAt a =? 0)) eqn:Eu.
    + split; [apply preserves_refl|]. assert (lockedAt a = 0 /\ count a < 5) as [Hz Hlt].
      { apply orb_true_iff in Eu as [H%Z.ltb_lt|H%Z.eqb_eq]; lia. }
      unfold counted. rewrite Ha. split; [intros _; split; [intros [? ?]; lia|lia]|]. intros r [_ Hr] _. destruct (decide (0 < r)); lia.
    + apply orb_false_iff in Eu as [Hge%Z.ltb_ge Hnz%Z.eqb_neq].
      unfold Sub, loginLockoutDuration, Minute, Second, int64_min, int64_max in *.
      destruct (Z.ltb_spec (Z.max (- 2 ^ 63) (Z.min (2 ^ 63 - 1) (now - lockedAt a))) (15 * (60 * 1000000000))).
      * split; [apply preserves_refl|]. done.
      * assert (account (drop_attempt adminLoginAccountKey t) = None) as Hd.
        { unfold account, drop_attempt. cbn. by rewrite lookup_delete_eq. }
        assert (older_lockout a) as Hold by (unfold older_lockout; lia).
        unfold preserves, counted, old_stage. rewrite Ha, Hd. split; [split; [intros; right; lia|]|].
        -- intros r [Hn _]. done.
        -- split; [lia|]. by intros r [Hn _].
  - split; [apply preserves_refl|]. assert (account t = None) as Ha by (unfold account; by rewrite E).
    unfold counted. rewrite Ha. split; [lia|]. intros; lia.
Qed.

Context (t0_pos : 0 < t0).

Lemma counted_mono r r' t : r' <= r -> counted r t -> counted r' t.
Proof. unfold counted. destruct (account t); [|lia]. intros Hle [Hn H]. split; [done|]. intros Hr. destruct H; [lia|]. split; [lia|done]. Qed.

(** A failure at any key. *)
Lemma record_key key now t : table_ok t -> in_period now ->
  let t' := recordFailedAttemptLocked key now t in (old_stage t -> old_stage t') /\ (forall r, 0 <= r -> counted r t -> counted r t').
Proof.
  intros Hok Hnow. destruct (decide (key = adminLoginAccountKey)) as [->|Hne].
  - destruct (record_account now t t0_pos Hok Hnow) as [H1 H2]. split; [done|]. intros r Hr H. apply (counted_mono (r + 1)); [lia|]. by apply H2.
  - assert (account (recordFailedAttemptLocked key now t) = account t) as Ha.
    { unfold recordFailedAttemptLocked, account. destruct (loginAttempts t !! key) as [[p a]|]; cbn; by rewrite lookup_insert_ne. }
    unfold old_stage, counted. rewrite Ha. by split.
Qed.

Lemma record_csrf ip now t : table_ok t -> in_period now -> preserves t (recordFailedAttemptFor ip false now t).
Proof.
  intros Hok Hnow. destruct (record_key ip now t Hok Hnow) as [H1 H2]. split; [left; by apply H1|].
  intros r H. destruct (decide (0 <= r)); [by apply H2|]. apply (counted_mono 0); [lia|]. apply H2; [lia|].
  unfold counted in *. destruct (account t); [|lia]. destruct H as [? _]. split; [done|lia].
Qed.

Lemma record_failure ip now t : table_ok t -> in_period now ->
  let t' := recordFailedAttempt ip now t in (old_stage t -> old_stage t') /\ (forall r, 0 <= r -> counted r t -> counted (r + 1) t').
Proof.
  intros Hok Hnow. unfold recordFailedAttempt, recordFailedAttemptFor. destruct (record_key ip now t Hok Hnow) as [H1 H2].
  assert (0 < now) by (destruct Hnow; lia). pose proof (record_locked_ok ip now t ltac:(lia) Hok) as Hok1.
  destruct (record_account now _ t0_pos Hok1 Hnow) as [H3 H4]. split; [intros H'; by apply H3, H1|]. intros r Hr Hc. apply H4; [done|]. by apply H2.
Qed.

Lemma locked_key key now t : table_ok t -> in_period now -> preserves t (isAttemptLocked key now t).2.
Proof.
  intros Hok Hnow. destruct (decide (key = adminLoginAccountKey)) as [->|Hne].
  - pose proof (locked_account now t t0_pos Hok Hnow) as H. destruct (isAttemptLocked _ now t). by destruct H as [H _].
  - apply account_same. unfold isAttemptLocked. destruct (loginAttempts t !! key) as [[p a]|]; [|done].
    destruct (_ || _); [done|]. destruct (_ <? _); [done|]. unfold account, drop_attempt. cbn. by rewrite lookup_delete_ne.
Qed.

(** A request is let in only below five failures of the period. *)
Lemma lockout_period ip now t : table_ok t -> in_period now ->
  let '(b, t') := isLockedOut ip now t in
  preserves t t' /\ (b = false -> counted 0 t' /\ forall r, counted r t -> r < 5).
Proof.
  intros Hok Hnow. unfold isLockedOut. pose proof (locked_key ip now t Hok Hnow) as H1. pose proof (isAttemptLocked_ok ip now t Hok) as Hok1.
  destruct (isAttemptLocked ip now t) as [[] t1]; [by split|]. cbn [snd] in *.
  pose proof (locked_account now t1 t0_pos Hok1 Hnow) as H2. destruct (isAttemptLocked adminLoginAccountKey now t1) as [b t2].
  destruct H2 as (H2 & Hc & Hr). split; [by eapply preserves_trans|]. intros Hb. split; [by apply Hc|]. intros r Hcr. apply Hr; [|done]. by apply H1.
Qed.

Lemma set_audited_preserves key p a b t : loginAttempts t !! key = Some (p, a) -> preserves t (set_attempt key p (set_audited b a) t).
Proof.
  intros E. destruct (decide (key = adminLoginAccountKey)) as [->|Hne].
  - assert (account t = Some a) as Ha by (unfold account; by rewrite E).
    assert (account (set_attempt adminLoginAccountKey p (set_audited b a) t) = Some (set_audited b a)) as Ha'
      by (unfold account; cbn; by rewrite lookup_insert_eq).
    unfold preserves, old_stage, counted. rewrite Ha, Ha'. split; [|done]. intros (a' & [= <-] & H). left. by eexists.
  - apply account_same. unfold account. cbn. by rewrite lookup_insert_ne.
Qed.

Lemma claim_period ip now t : table_ok t -> in_period now -> preserves t (claimLockoutAudit ip now t).2.
Proof.
  intros Hok Hnow. unfold claimLockoutAudit. generalize (@nil lockoutAuditMark) as marks. revert t Hok.
  induction [ip; adminLoginAccountKey] as [|key keys IH]; intros t Hok marks; [apply preserves_refl|].
  cbn [fold_left]. destruct (claim_key now (marks, t) key) as [marks' t'] eqn:E.
  assert (preserves t t' /\ table_ok t') as [Hp Hok']; [|eapply preserves_trans; [done|by apply IH]].
  revert E. unfold claim_key. destruct (loginAttempts t !! key) as [[p a]|] eqn:Ek.
  - pose proof (isAttemptLocked_ok key now t Hok) as Hl. pose proof (locked_key key now t Hok Hnow) as Hk.
    assert ((isAttemptLocked key now t).1 = true -> (isAttemptLocked key now t).2 = t) as Hsame.
    { unfold isAttemptLocked. rewrite Ek. destruct (_ || _); [done|]. by destruct (_ <? _). }
    destruct (isAttemptLocked key now t) as [[] t1]; [destruct (_ || _)|]; intros [= <- <-]; try done.
    cbn in Hsame. rewrite Hsame by done. split; [by apply set_audited_preserves|]. apply table_ok_set; [done|]. apply set_audited_ok, (Hok _ _ Ek).
  - intros [= <- <-]. split; [apply preserves_refl|done].
Qed.

Lemma release_period claim t : preserves t (releaseLockoutAudit claim t).
Proof.
  unfold releaseLockoutAudit. revert t. induction claim as [|m claim IH]; intros t; [apply preserves_refl|]. cbn [fold_left].
  eapply preserves_trans; [|apply IH]. unfold release_mark. destruct (loginAttempts t !! markKey m) as [[p a]|] eqn:E; [|apply preserves_refl].
  destruct (_ || _); [apply preserves_refl|]. by apply set_audited_preserves.
Qed.

Lemma cleanup_period now t : table_ok t -> in_period now -> preserves t (cleanupExpiredLoginAttempts now t).
Proof.
  intros Hok [Hlo Hhi]. set (t' := cleanupExpiredLoginAttempts now t).
  destruct (loginAttempts t !! adminLoginAccountKey) as [[p a]|] eqn:E.
  - pose proof (Hok _ _ E) as (Hc & Hl & Hlock & Hlp). cbn [snd] in *. assert (account t = Some a) as Ha by (unfold account; by rewrite E).
    destruct (kept_attempt (Add now (- loginLockoutDuration)) a) eqn:Ek.
    + apply account_same. unfold account, t', cleanupExpiredLoginAttempts. cbn.
      rewrite (map_lookup_filter_Some_2 _ _ _ (p, a)); [by rewrite E|done|done].
    + assert (account t' = None) as Ha'.
      { unfold account, t', cleanupExpiredLoginAttempts. cbn. rewrite map_lookup_filter_None_2; [done|]. right. intros pa Hpa. rewrite E in Hpa.
        injection Hpa as <-. cbn. by rewrite Ek. }
      unfold preserves, old_stage, counted. rewrite Ha, Ha'. split; [intros; right; lia|]. intros r [Hn Hr].
      destruct (decide (0 < r)) as [Hr0|]; [|lia]. exfalso. destruct (Hr Hr0) as [_ Hlast]. revert Ek.
      unfold kept_attempt, Before, Add, IsZero, loginMaxAttempts, older_lockout in *.
      destruct (Z.leb_spec 5 (count a)).
      * destruct (Z.eqb_spec (lockedAt a) 0); [lia|]. destruct (Z.ltb_spec (lockedAt a) (now + - loginLockoutDuration)); cbn; [|done]. intros _. lia.
      * destruct (Z.eqb_spec (lastFailedAt a) 0); [lia|]. destruct (Z.ltb_spec (lastFailedAt a) (now + - loginLockoutDuration)); cbn; [|done].
        intros _. assert (lockedAt a = 0) by lia. lia.
  - apply account_same. unfold account, t', cleanupExpiredLoginAttempts. cbn. rewrite map_lookup_filter_None_2; [by rewrite E|by left].
Qed.
End period.
