(* ===== verification/AdminLogin.v ===== *)
(** Login, logout, password change and API keys of the admin pages:
    internal/api/admin/handler.go, the handlers of pages.go for the password and
    for API keys, requireAdminPost of feed_forms.go, the password policy of
    internal/auth/auth.go.

    A request runs through phases; between two phases other requests may run.  A
    phase makes one access to the shared state: the session manager, the attempt
    table or the store.  The store is the in-memory store; a call of it may fail.
    Logging and telemetry are left out, and so are panics; a redirect of an HTMX
    request, which goes into another header, is a redirect. *)
From stdpp Require Import base list option strings gmap.
From Stdlib Require Import ZArith Lia.
From S2P Require Import Prelude GoStrings GoNumbers GoTime Urls Collections JsonRender JsonEncode CheckRequest AuditLog DevStore Session AdminReturn KeyForm LoginLimits.
Open Scope Z_scope.

(** bcrypt. *)
Class Passwords := {
  CheckPassword : string -> string -> bool;
  (** with random salt; [None] is an error *)
  HashPassword : string -> string -> option string
}.

Definition MinAdminPasswordLength : Z := 12.
Definition MaxAdminPasswordBytes : Z := 72.

Inductive password_error := ErrAdminPasswordTooShort | ErrAdminPasswordTooLong.

Definition ValidateAdminPassword (password : string) : option password_error :=
  if RuneCountInString password <? MinAdminPasswordLength then Some ErrAdminPasswordTooShort
  else if MaxAdminPasswordBytes <? Z.of_nat (String.length password) then Some ErrAdminPasswordTooLong
  else None.

(** ** Requests and responses *)

Record admin_form := mk_form {
  fCSRF : string; fUsername : string; fPassword : string; fNext : string;
  fCurrent : string; fNew : string; fConfirm : string; fKey : key_form
}.

(** [PageGet] is a page that needs an admin session, [KeysGet] the page of the API
    keys. *)
Inductive admin_kind := LoginGet | LoginPost | LogoutPost | PasswordPost | PageGet | KeysGet | KeyCreate | KeyRevoke | KeyDelete.

(** The form, or the status of a form that cannot be read; the parameters next and
    offset of the URL, and the request URI. *)
Record admin_request := mk_request {
  rqKind : admin_kind;
  rqIP : string;
  rqCorrelation : string;
  rqCookie : option string;
  rqForm : Z + admin_form;
  rqNextQuery : string;
  rqOffsetQuery : string;
  rqURI : string
}.

(** Messages of the settings page are named by their keys. *)
Inductive admin_response :=
| RError (status : Z) (text : string)
| RForm (error csrfToken next : string) (cookie : Cookie)
| RRedirect (target : string) (cookies : list Cookie)
| RLoggedIn (target : string) (id : string)
| RSettingsError (key : string)
| RPasswordChanged (id : string)
| RPage (csrfToken : string)
| RKeysPage (csrfToken : string) (keys : option (list APIKey * bool)) (newKey nonce : string)
| RKeys (target : string)
| RKeyCreated (id : Z).

Definition adminUnconfiguredLoginError : string := "Admin account has not been configured.".

Definition adminInvalidFormMessage : string := "admin.form.error.invalid_payload".
Definition adminInvalidRequestMessage : string := "admin.form.error.invalid_request".

Definition adminLoginSuccessRedirect (nextPath : string) : string := if bool_decide (nextPath = "") then "/admin/" else nextPath.

Definition adminPasswordPolicyMessage (err : password_error) : string :=
  match err with
  | ErrAdminPasswordTooLong => "admin.settings.error.password.too_long"
  | ErrAdminPasswordTooShort => "admin.settings.error.password.too_short"
  end.

(** What is still to be done. *)
Inductive phase :=
| PStart
| PLocked | PLockedAudit (claim : list lockoutAuditMark) | PLockedRelease (claim : list lockoutAuditMark)
| PForm (msg : string) | PFormCreate (msg : string) | PFormToken (msg : string) (x : Session) (cookie : Cookie)
(** login *)
| PSession | PValidate (x : Session) | PCsrfFailed | PDrop
| PAuth | PCheck (a : AdminAuth) | PFailed (reason msg : string) | PFailedAudit (reason msg : string)
| PCreate (a : AdminAuth) | PSuccessAudit (a : AdminAuth) (id : string) | PRollback (id : string) | PReset (id : string)
(** password change *)
| PAdmin | PAdminRedirect | PAdminCsrf (x : Session) | PRejectAudit | PGate
| PChangeAuth | PChangeCheck (a : AdminAuth) | PChangeFailed | PChangeAudit (reason key : string)
| PChange (a : AdminAuth) | PChangeReset | PRotate | PInvalidate
(** logout *)
| PLogoutAudit | PLogoutDrop
(** pages *)
| PPageToken (x : Session) | PKeysList (x : Session) (token : string)
| PKeysFlash (x : Session) (token : string) (keys : option (list APIKey * bool))
| PKeysNonce (x : Session) (token : string) (keys : option (list APIKey * bool)) (newKey : string)
(** API keys *)
| PBootstrap (x : Session) | PBootstrapAuth (x : Session) (withBootstrap : bool) | PBootstrapAudit
| PNonce (x : Session) | PNonceUsed (x : Session) | PKeyForm (x : Session)
| PKeyGate (x : Session) (name : string) (expiresAt : Time) | PKeyAuth (x : Session) (name : string) (expiresAt : Time)
| PKeyCheck (x : Session) (name : string) (expiresAt : Time) (a : AdminAuth) | PKeyFailed (name : string) | PKeyFailedAudit (name : string)
| PKeyReset (x : Session) (name : string) (expiresAt : Time) | PKeyStore (x : Session) (name : string) (expiresAt : Time)
| PKeyFlash (x : Session) (id : Z) (plaintext : string)
| PMutate (keyID : Z) | PMutateStore (keyID : Z) (details : list (string * string))
| PDone (r : admin_response).

(** Whether a call of the store fails, and with the error of the audit log. *)
Inductive store_fault := NoFault | StoreFault | AuditFault.

(** What the environment contributes to a phase: clock readings, random
    values, a failure of the store. *)
Record tick := mk_tick { tkNow : Time; tkNow' : Time; tkRand : option string; tkSalt : string; tkStore : store_fault }.

Definition tkFault (tk : tick) : bool := match tkStore tk with NoFault => false | _ => true end.

Record AdminHandler := mk_handler { sm : SessionManager; attempts : AttemptTable; store : Store }.

Definition set_sm (x : SessionManager) (h : AdminHandler) : AdminHandler := mk_handler x (attempts h) (store h).
Definition set_attempts (x : AttemptTable) (h : AdminHandler) : AdminHandler := mk_handler (sm h) x (store h).
Definition set_store (x : Store) (h : AdminHandler) : AdminHandler := mk_handler (sm h) (attempts h) x.

Section handler.
Context {C : AuditCrypto} (key : string) {PW : Passwords}.

(** json.Marshal of a map, its entries listed by key. *)
Definition details_text (details : list (string * string)) : string :=
  print (TObject ((fun kv => (kv.1, TString kv.2)) <$> details)).

Definition adminAuditEntry (rq : admin_request) (action : string) (details : list (string * string)) : AdminAuditEntry :=
  mk_audit action (details_text details) (rqIP rq) (rqCorrelation rq).

(** [false] is an error. *)
Definition auditLog_ (rq : admin_request) (action : string) (details : list (string * string)) (tk : tick) (h : AdminHandler)
    : bool * AdminHandler :=
  if tkFault tk then (false, h)
  else (true, set_store (InsertAdminAuditLog key (tkNow tk) (Some (adminAuditEntry rq action details)) (store h)) h).

Definition audit_failure : admin_response := RError 500 "failed to record audit log".
Definition internal_error : admin_response := RError 500 "internal server error".

Definition form_of (rq : admin_request) : admin_form :=
  match rqForm rq with inr f => f | inl _ => mk_form "" "" "" "" "" "" "" (mk_key_form "" "" "" "" "" "") end.

Definition keys_url (param message : string) : string := "/admin/keys?" +:+ param +:+ "=" +:+ escape encodeQueryComponent message.

(** redirectAdminError to the page of the form. *)
Definition gate_error (rq : admin_request) (message : string) : admin_response :=
  match rqKind rq with
  | PasswordPost => RSettingsError message
  | _ => RKeys (keys_url "err" message)
  end.

Definition key_error (rq : admin_request) (message name : string) : admin_response :=
  RKeys (redirectAPIKeyCreateError (fKey (form_of rq)) message name).

(** The path of the form and the action a rejected one names. *)
Definition gate_labels (kind : admin_kind) : string * string :=
  match kind with
  | KeyCreate => ("/admin/keys/create", "api_key_create")
  | KeyRevoke => ("/admin/keys/revoke", "api_key_revoke")
  | KeyDelete => ("/admin/keys/delete", "api_key_delete")
  | _ => ("/admin/settings/password", "password_change")
  end.

(** ** Phases *)

(** The requests that compare passwords look whether the address or the account is locked out. *)
Definition lock_check (rq : admin_request) (tk : tick) (h : AdminHandler) (go : phase) : phase * AdminHandler :=
  let '(locked, t) := isLockedOut (rqIP rq) (tkNow tk) (attempts h) in
  (if locked then PLocked else go, set_attempts t h).

Definition locked_response (rq : admin_request) : phase :=
  match rqKind rq with
  | PasswordPost => PDone (RSettingsError "admin.settings.error.password.too_many_attempts")
  | KeyCreate => PDone (key_error rq "admin.keys.error.too_many_attempts" (TrimSpace (fName (fKey (form_of rq)))))
  | _ => PForm "Too many failed login attempts. Please try again later."
  end.

(** showLoginForm and CreateOrReusePreAuth, CSRFToken. *)
Definition step_form (rq : admin_request) (p : phase) (tk : tick) (h : AdminHandler) : phase * AdminHandler :=
  match p with
  | PForm msg =>
      let '(x, m) := Get (tkNow tk) (rqCookie rq) (sm h) in
      (match x with
       | Some x => if Admin x then PDone (RRedirect "/admin/" []) else PFormCreate msg
       | None => PFormCreate msg
       end, set_sm m h)
  | PFormCreate msg =>
      let '(x, m) := CreateOrReusePreAuth (tkNow tk) (tkNow' tk) (tkRand tk) (rqCookie rq) (sm h) in
      (match x with Some (x, cookie) => PFormToken msg x cookie | None => PDone internal_error end, set_sm m h)
  | PFormToken msg x cookie =>
      let '(token, _, m) := CSRFToken (tkRand tk) x (sm h) in
      (match token with
       | Some token => PDone (RForm msg token (SafeAdminReturnTarget (rqNextQuery rq)) cookie)
       | None => PDone internal_error
       end, set_sm m h)
  | _ => (p, h)
  end.

(** The audit row of a lockout. *)
Definition step_locked (rq : admin_request) (p : phase) (tk : tick) (h : AdminHandler) : phase * AdminHandler :=
  match p with
  | PLocked =>
      let '(claim, t) := claimLockoutAudit (rqIP rq) (tkNow tk) (attempts h) in
      (match claim with [] => locked_response rq | _ => PLockedAudit claim end, set_attempts t h)
  | PLockedAudit claim =>
      let '(ok, h) := auditLog_ rq "login_lockout" [("reason", "too many failed attempts")] tk h in
      (if ok then locked_response rq else PLockedRelease claim, h)
  | PLockedRelease claim =>
      (PDone (match rqKind rq with
              | PasswordPost => RSettingsError "admin.settings.error.audit_log"
              | KeyCreate => key_error rq "admin.keys.error.audit_log" (TrimSpace (fName (fKey (form_of rq))))
              | _ => audit_failure
              end),
       set_attempts (releaseLockoutAudit claim (attempts h)) h)
  | _ => (p, h)
  end.

(** processLogin *)
Definition step_login (rq : admin_request) (p : phase) (tk : tick) (h : AdminHandler) : phase * AdminHandler :=
  let form := form_of rq in
  match p with
  | PStart => match rqForm rq with inl status => (PDone (RError status "invalid form payload"), h) | inr _ => lock_check rq tk h PSession end
  | PSession =>
      let '(x, m) := Get (tkNow tk) (rqCookie rq) (sm h) in
      (match x with None => PCsrfFailed | Some x => PValidate x end, set_sm m h)
  | PValidate x => (if ValidateCSRF (fCSRF form) x (sm h) then PDrop else PCsrfFailed, h)
  | PCsrfFailed =>
      (PForm "Invalid request. Please try again.", set_attempts (recordFailedAttemptFor (rqIP rq) false (tkNow tk) (attempts h)) h)
  | PDrop =>
      (if negb (bool_decide (fUsername form = "admin")) then PFailed "invalid username" "Invalid username or password." else PAuth,
       set_sm (Delete (rqCookie rq) (sm h)).2 h)
  | PAuth =>
      if tkFault tk then (PDone internal_error, h)
      else (match GetAdminAuth (store h) with
            | None => PFailed "admin account not configured" adminUnconfiguredLoginError
            | Some a => PCheck a
            end, h)
  | PCheck a =>
      (if CheckPassword (PasswordHash a) (fPassword form) then PCreate a else PFailed "invalid password" "Invalid username or password.", h)
  | PFailed reason msg => (PFailedAudit reason msg, set_attempts (recordFailedAttempt (rqIP rq) (tkNow tk) (attempts h)) h)
  | PFailedAudit reason msg =>
      let '(ok, h) := auditLog_ rq "login_failed" [("reason", reason)] tk h in
      (if ok then PForm msg else PDone audit_failure, h)
  | PCreate a =>
      let '(x, m) := CreateAdmin (tkNow tk) (tkRand tk) (PasswordIsBootstrap a) (sm h) in
      (match x with Some (x, _) => PSuccessAudit a (ID x) | None => PDone internal_error end, set_sm m h)
  | PSuccessAudit a id =>
      let '(ok, h) := auditLog_ rq "login_success" [] tk h in (if ok then PReset id else PRollback id, h)
  | PRollback id => (PDone audit_failure, set_sm (DeleteByID id (sm h)).2 h)
  | PReset id =>
      (PDone (RLoggedIn (RedirectSameOrigin (adminLoginSuccessRedirect (SafeAdminReturnTarget (fNext form)))) id),
       set_attempts (resetAttempts (rqIP rq) (attempts h)) h)
  | _ => (p, h)
  end.

(** requireBootstrapPasswordRotated; what the handler does next. *)
Definition step_bootstrap (rq : admin_request) (p : phase) (tk : tick) (h : AdminHandler) : phase * AdminHandler :=
  let form := form_of rq in
  match p with
  | PBootstrap x =>
      let '(y, m) := Get (tkNow tk) (rqCookie rq) (sm h) in
      (PBootstrapAuth x (match y with Some y => AuthenticatedWithBootstrap y | None => false end), set_sm m h)
  | PBootstrapAuth x withBootstrap =>
      if tkFault tk then (PDone (gate_error rq "admin.bootstrap.error.verify_password_state"), h)
      else (if negb withBootstrap && negb (match GetAdminAuth (store h) with Some a => PasswordIsBootstrap a | None => false end)
            then match rqKind rq with
                 | KeyCreate => if bool_decide (TrimSpace (fNonce (fKey form)) = "") then PKeyForm x else PNonce x
                 | _ => match Atoi (fKeyID (fKey form)) with
                        | None => PDone (RKeys (adminKeysURL (parseNonNegativeOffset (fReturnOffset (fKey form))) "err" "admin.keys.error.invalid_id"))
                        | Some keyID => PMutate keyID
                        end
                 end
            else PBootstrapAudit, h)
  | PBootstrapAudit =>
      (PDone (gate_error rq "admin.bootstrap.error.rotation_required"),
       (auditLog_ rq "bootstrap_rotation_required" [("path", (gate_labels (rqKind rq)).1)] tk h).2)
  | _ => (p, h)
  end.

(** requireAdminPost; [go] is what the handler does next. *)
Definition step_gate (rq : admin_request) (go : Session -> phase) (p : phase) (tk : tick) (h : AdminHandler) : phase * AdminHandler :=
  let form := form_of rq in
  match p with
  | PStart =>
      let '(x, m) := Get (tkNow tk) (rqCookie rq) (sm h) in
      (match x with
       | Some x => if Admin x then
           match rqForm rq with inl _ => PDone (gate_error rq adminInvalidFormMessage) | inr _ => PAdminCsrf x end
           else PAdminRedirect
       | None => PAdminRedirect
       end, set_sm m h)
  | PAdminRedirect => let '(cookies, m) := Delete (rqCookie rq) (sm h) in (PDone (RRedirect AdminLoginPath cookies), set_sm m h)
  | PAdminCsrf x => (if ValidateCSRF (fCSRF form) x (sm h) then go x else PRejectAudit, h)
  | PRejectAudit =>
      let '(path, action) := gate_labels (rqKind rq) in
      (PDone (gate_error rq adminInvalidRequestMessage),
       (auditLog_ rq "admin_csrf_rejected" [("path", path); ("target_action", action)] tk h).2)
  | _ => step_bootstrap rq p tk h
  end.

(** HandlePasswordChange *)
Definition step_change (rq : admin_request) (p : phase) (tk : tick) (h : AdminHandler) : phase * AdminHandler :=
  let form := form_of rq in
  match p with
  | PGate =>
      lock_check rq tk h
        (if negb (bool_decide (fNew form = fConfirm form)) then PDone (RSettingsError "admin.settings.error.password.mismatch")
         else match ValidateAdminPassword (fNew form) with
              | Some err => PDone (RSettingsError (adminPasswordPolicyMessage err))
              | None => PChangeAuth
              end)
  | PChangeAuth =>
      (match (if tkFault tk then None else GetAdminAuth (store h)) with
       | None => PDone (RSettingsError "admin.settings.error.password.verify_current")
       | Some a => PChangeCheck a
       end, h)
  | PChangeCheck a =>
      (if negb (CheckPassword (PasswordHash a) (fCurrent form)) then PChangeFailed
       else if CheckPassword (PasswordHash a) (fNew form)
       then PChangeAudit "new password reused current password" "admin.settings.error.password.reused"
       else PChange a, h)
  | PChangeFailed =>
      (PChangeAudit "invalid current password" "admin.settings.error.password.current_incorrect",
       set_attempts (recordFailedAttempt (rqIP rq) (tkNow tk) (attempts h)) h)
  | PChangeAudit reason key =>
      let '(ok, h) := auditLog_ rq "password_change_failed" [("reason", reason)] tk h in
      (PDone (RSettingsError (if ok then key else "admin.settings.error.audit_log")), h)
  | PChange a =>
      match HashPassword (tkSalt tk) (fNew form) with
      | None => (PDone (RSettingsError "admin.settings.error.password.update"), h)
      | Some newHash =>
          match tkStore tk with
          | StoreFault => (PDone (RSettingsError "admin.settings.error.password.update"), h)
          | AuditFault => (PDone (RSettingsError "admin.settings.error.audit_log"), h)
          | NoFault =>
              match ChangeAdminPasswordWithAudit key (tkNow tk) (tkNow' tk) newHash (PasswordHash a)
                      (Some (adminAuditEntry rq "password_change" [])) (store h) with
              | (inl _, s) => (PDone (RSettingsError "admin.settings.error.password.current_incorrect"), set_store s h)
              | (inr _, s) => (PChangeReset, set_store s h)
              end
          end
      end
  | PChangeReset => (PRotate, set_attempts (resetAttempts (rqIP rq) (attempts h)) h)
  | PRotate =>
      let '(x, m) := CreateExclusiveAdmin (tkNow tk) (tkRand tk) (sm h) in
      (match x with Some (x, _) => PDone (RPasswordChanged (ID x)) | None => PInvalidate end, set_sm m h)
  | PInvalidate => (PDone internal_error, set_sm (DeleteAllAdminSessions (sm h)).2 h)
  | _ => step_gate rq (fun _ => PGate) p tk h
  end.

(** consumeAPIKeyCreateNonce *)
Definition step_nonce (rq : admin_request) (p : phase) (tk : tick) (h : AdminHandler) : phase * AdminHandler :=
  let form := fKey (form_of rq) in
  match p with
  | PNonce x =>
      let '(expected, m) := GetFlash (ID x) apiKeyCreateNonceFlashKey (sm h) in
      (if negb (bool_decide (expected = "")) && bool_decide (TrimSpace (fNonce form) = expected) then PKeyForm x else PNonceUsed x, set_sm m h)
  | PNonceUsed x =>
      (PDone (RKeys (if negb (bool_decide (PeekFlash (ID x) "newkey" (sm h) = "")) then keys_url "msg" "admin.keys.flash.created"
                     else keys_url "err" "admin.keys.error.create_expired")), h)
  | _ => (p, h)
  end.

(** requireAPIKeyCreateStepUp *)
Definition step_up (rq : admin_request) (p : phase) (tk : tick) (h : AdminHandler) : phase * AdminHandler :=
  match p with
  | PKeyGate x name expiresAt => lock_check rq tk h (PKeyAuth x name expiresAt)
  | PKeyAuth x name expiresAt =>
      (match (if tkFault tk then None else GetAdminAuth (store h)) with
       | None => PDone (key_error rq "admin.keys.error.verify_current_password" name)
       | Some a => PKeyCheck x name expiresAt a
       end, h)
  | PKeyCheck x name expiresAt a =>
      (if CheckPassword (PasswordHash a) (fCurrent (form_of rq)) then PKeyReset x name expiresAt else PKeyFailed name, h)
  | PKeyFailed name => (PKeyFailedAudit name, set_attempts (recordFailedAttempt (rqIP rq) (tkNow tk) (attempts h)) h)
  | PKeyFailedAudit name =>
      let '(ok, h) := auditLog_ rq "api_key_create_failed" [("reason", "invalid current password")] tk h in
      (PDone (key_error rq (if ok then "admin.keys.error.current_password_incorrect" else "admin.keys.error.audit_log") name), h)
  | PKeyReset x name expiresAt => (PKeyStore x name expiresAt, set_attempts (resetAttempts (rqIP rq) (attempts h)) h)
  | _ => (p, h)
  end.

(** HandleKeyCreate *)
Definition step_key (rq : admin_request) (p : phase) (tk : tick) (h : AdminHandler) : phase * AdminHandler :=
  let form := fKey (form_of rq) in
  match p with
  | PNonce _ | PNonceUsed _ => step_nonce rq p tk h
  | PKeyGate _ _ _ | PKeyAuth _ _ _ | PKeyCheck _ _ _ _ | PKeyFailed _ | PKeyFailedAudit _ | PKeyReset _ _ _ => step_up rq p tk h
  | PKeyForm x =>
      (match normalizeAPIKeyName (fName form) with
       | inl message => PDone (key_error rq message (fName form))
       | inr name =>
           match parseAPIKeyExpiresInDays (fExpiresInDays form) (fCustomDays form) (tkNow tk) with
           | inl message => PDone (key_error rq message name)
           | inr expiresAt => PKeyGate x name expiresAt
           end
       end, h)
  | PKeyStore x name expiresAt =>
      match tkRand tk, tkStore tk with
      | None, _ => (PDone (key_error rq "admin.keys.error.generate" name), h)
      | _, StoreFault => (PDone (key_error rq "admin.keys.error.create" name), h)
      | _, AuditFault => (PDone (key_error rq "admin.keys.error.audit_log" name), h)
      | Some plaintext, NoFault =>
          match CreateAPIKeyWithAudit key (tkNow tk) (tkNow' tk) name (sha256_hex plaintext) (Some expiresAt)
                  (Some (adminAuditEntry rq "api_key_create" [("expires_at", format_time 0 expiresAt); ("name", name)])) (store h) with
          | (inl _, s) => (PDone (key_error rq "admin.keys.error.create" name), set_store s h)
          | (inr id, s) => (PKeyFlash x id plaintext, set_store s h)
          end
      end
  | PKeyFlash x id plaintext => (PDone (RKeyCreated id), set_sm (SetFlash (ID x) "newkey" plaintext (sm h)) h)
  | _ => step_gate rq PBootstrap p tk h
  end.

(** apiKeyAuditDetails of the keys listed; [None] is an error. *)
Definition apiKeyAuditDetails (keyID' : Z) (keys : list APIKey) : option (list (string * string)) :=
  k ← List.find (fun k => keyID k =? keyID') keys;
  let optional name t := match t with Some t => [(name, format_time 0 t)] | None => [] end in
  Some ([("created_at", format_time 0 (keyCreatedAt k))] ++ optional "deleted_at" (DeletedAt k) ++ optional "expires_at" (ExpiresAt k) ++
        [("key_id", Itoa (keyID k))] ++ optional "last_used_at" (LastUsedAt k) ++ [("name", keyName k)] ++ optional "revoked_at" (RevokedAt k)).

(** handleAPIKeyMutation of HandleKeyRevoke and HandleKeyDelete. *)
Definition step_mutation (rq : admin_request) (p : phase) (tk : tick) (h : AdminHandler) : phase * AdminHandler :=
  let target param message := PDone (RKeys (adminKeysURL (parseNonNegativeOffset (fReturnOffset (fKey (form_of rq)))) param message)) in
  let failure := match rqKind rq with KeyRevoke => "admin.keys.error.revoke" | _ => "admin.keys.error.delete" end in
  match p with
  | PMutate keyID =>
      (match (if tkFault tk then None else apiKeyAuditDetails keyID (ListAPIKeys (store h))) with
       | None => target "err" failure
       | Some details => PMutateStore keyID details
       end, h)
  | PMutateStore keyID details =>
      match tkStore tk with
      | StoreFault => (target "err" failure, h)
      | AuditFault => (target "err" "admin.keys.error.audit_log", h)
      | NoFault =>
          match (match rqKind rq with
                 | KeyRevoke => RevokeAPIKeyWithAudit key (tkNow tk) (tkNow' tk) keyID (Some (adminAuditEntry rq "api_key_revoke" details)) (store h)
                 | _ => DeleteAPIKeyWithAudit key (tkNow tk) keyID (Some (adminAuditEntry rq "api_key_delete" details)) (store h)
                 end) with
          | (inl _, s) => (target "err" failure, set_store s h)
          | (inr _, s) =>
              (target "msg" (match rqKind rq with KeyRevoke => "admin.keys.flash.revoked" | _ => "admin.keys.flash.deleted" end), set_store s h)
          end
      end
  | _ => step_gate rq PBootstrap p tk h
  end.

(** HandleLogout *)
Definition step_logout (rq : admin_request) (p : phase) (tk : tick) (h : AdminHandler) : phase * AdminHandler :=
  match p with
  | PStart =>
      match rqForm rq with
      | inl status => (PDone (RError status "invalid form payload"), h)
      | inr _ =>
          let '(x, m) := Get (tkNow tk) (rqCookie rq) (sm h) in
          (match x with Some x => PAdminCsrf x | None => PRejectAudit end, set_sm m h)
      end
  | PAdminCsrf x => (if ValidateCSRF (fCSRF (form_of rq)) x (sm h) then PLogoutAudit else PRejectAudit, h)
  | PRejectAudit =>
      (PDone (RRedirect AdminLoginPath []),
       (auditLog_ rq "admin_csrf_rejected" [("path", "/admin/logout"); ("target_action", "logout")] tk h).2)
  | PLogoutAudit =>
      let '(ok, h) := auditLog_ rq "logout" [] tk h in (if ok then PLogoutDrop else PDone audit_failure, h)
  | PLogoutDrop => let '(cookies, m) := Delete (rqCookie rq) (sm h) in (PDone (RRedirect AdminLoginPath cookies), set_sm m h)
  | _ => (p, h)
  end.

(** HandleAdminKeys, after requireAdmin and adminCSRFToken. *)
Definition step_keys_page (rq : admin_request) (p : phase) (tk : tick) (h : AdminHandler) : phase * AdminHandler :=
  match p with
  | PKeysList x token =>
      (PKeysFlash x token (if tkFault tk then None else Some (listAPIKeyPage (ListAPIKeys (store h)) (parseNonNegativeOffset (rqOffsetQuery rq)))), h)
  | PKeysFlash x token keys => let '(newKey, m) := GetFlash (ID x) "newkey" (sm h) in (PKeysNonce x token keys newKey, set_sm m h)
  | PKeysNonce x token keys newKey =>
      match tkRand tk with
      | None => (PDone (RError 500 "admin.keys.error.render_form"), h)
      | Some nonce => (PDone (RKeysPage token keys newKey nonce), set_sm (SetFlash (ID x) apiKeyCreateNonceFlashKey nonce (sm h)) h)
      end
  | _ => (p, h)
  end.

(** requireAdmin and adminCSRFToken of a page. *)
Definition step_page (rq : admin_request) (p : phase) (tk : tick) (h : AdminHandler) : phase * AdminHandler :=
  match p with
  | PStart =>
      let '(x, m) := Get (tkNow tk) (rqCookie rq) (sm h) in
      (match x with Some x => if Admin x then PPageToken x else PAdminRedirect | None => PAdminRedirect end, set_sm m h)
  | PAdminRedirect =>
      let '(cookies, m) := Delete (rqCookie rq) (sm h) in
      (PDone (RRedirect (RedirectSameOrigin (AdminLoginRedirectTarget (Some ("GET", rqURI rq)))) cookies), set_sm m h)
  | PPageToken x =>
      let '(token, _, m) := CSRFToken (tkRand tk) x (sm h) in
      (match token with
       | Some token => match rqKind rq with KeysGet => PKeysList x token | _ => PDone (RPage token) end
       | None => PDone internal_error
       end, set_sm m h)
  | _ => step_keys_page rq p tk h
  end.

Definition step_phase (rq : admin_request) (p : phase) (tk : tick) (h : AdminHandler) : phase * AdminHandler :=
  match p with
  | PForm _ | PFormCreate _ | PFormToken _ _ _ => step_form rq p tk h
  | PLocked | PLockedAudit _ | PLockedRelease _ => step_locked rq p tk h
  | _ =>
      match rqKind rq with
      | LoginGet => match p with PStart => (PForm "", h) | _ => (p, h) end
      | LoginPost => step_login rq p tk h
      | LogoutPost => step_logout rq p tk h
      | PasswordPost => step_change rq p tk h
      | PageGet | KeysGet => step_page rq p tk h
      | KeyCreate => step_key rq p tk h
      | KeyRevoke | KeyDelete => step_mutation rq p tk h
      end
  end.
End handler.

Ltac unfold_steps :=
  unfold step_phase, step_form, step_locked, step_login, step_change, step_key, step_nonce, step_up, step_mutation, step_gate,
    step_bootstrap, step_logout, step_page, step_keys_page.

(** ** All requests *)

Record AdminSystem := mk_system { handler : AdminHandler; requests : list (admin_request * phase) }.

Inductive event :=
| Arrive (rq : admin_request)
| Run (i : nat) (tk : tick)
| CleanupAttempts (now : Time)
| CleanupSessions (now : Time).

Section system.
Context {C : AuditCrypto} (key : string) {PW : Passwords}.

Definition exec (e : event) (s : AdminSystem) : AdminSystem :=
  let h := handler s in
  match e with
  | Arrive rq => mk_system h (requests s ++ [(rq, PStart)])
  | Run i tk =>
      match requests s !! i with
      | None => s
      | Some (rq, p) => let '(p, h) := step_phase key rq p tk h in mk_system h (<[i := (rq, p)]> (requests s))
      end
  | CleanupAttempts now => mk_system (set_attempts (cleanupExpiredLoginAttempts now (attempts h)) h) (requests s)
  | CleanupSessions now => mk_system (set_sm (cleanupExpiredSessions now (sm h)) h) (requests s)
  end.

Definition run (es : list event) (s : AdminSystem) : AdminSystem := fold_left (fun s e => exec e s) es s.

(** The phase a step starts from, and the request. *)
Definition acting (e : event) (s : AdminSystem) : option (admin_request * phase) :=
  match e with Run i _ => requests s !! i | _ => None end.

(** A phase that compares a password with the stored one, and they differ. *)
Definition guess_phase (rq : admin_request) (p : phase) : bool :=
  match p, rqKind rq with
  | PCheck a, LoginPost => negb (CheckPassword (PasswordHash a) (fPassword (form_of rq)))
  | PChangeCheck a, PasswordPost => negb (CheckPassword (PasswordHash a) (fCurrent (form_of rq)))
  | PKeyCheck _ _ _ a, KeyCreate => negb (CheckPassword (PasswordHash a) (fCurrent (form_of rq)))
  | _, _ => false
  end.

Definition wrong_guess (e : event) (s : AdminSystem) : bool :=
  match acting e s with Some (rq, p) => guess_phase rq p | None => false end.

(** A phase that clears the failures: the password was right. *)
Definition clear_phase (rq : admin_request) (p : phase) : bool :=
  match p, rqKind rq with PReset _, LoginPost | PChangeReset, PasswordPost | PKeyReset _ _ _, KeyCreate => true | _, _ => false end.

Definition clears (e : event) (s : AdminSystem) : bool :=
  match acting e s with Some (rq, p) => clear_phase rq p | None => false end.

Definition guesses (es : list event) (s : AdminSystem) : nat :=
  (fix go es s := match es with [] => 0 | e :: es => (if wrong_guess e s then 1 else 0) + go es (exec e s) end)%nat es s.

(** Let in, and not yet counted. *)
Definition pending (rp : admin_request * phase) : bool :=
  match rp.2 with
  | PSession | PValidate _ | PDrop | PAuth | PCheck _ | PFailed _ _ | PChangeAuth | PChangeCheck _ | PChangeFailed
  | PKeyAuth _ _ _ | PKeyCheck _ _ _ _ | PKeyFailed _ => true
  | _ => false
  end.

Definition in_flight (s : AdminSystem) : nat := length (filter (fun rp => pending rp = true) (requests s)).

Definition event_times (P : Time -> Prop) (e : event) : Prop :=
  match e with
  | Run _ tk => P (tkNow tk) /\ P (tkNow' tk)
  | CleanupAttempts now | CleanupSessions now => P now
  | Arrive _ => True
  end.

(** Nothing is cleared, and at most [n] requests are in flight at any time. *)
Fixpoint quiet (n : nat) (es : list event) (s : AdminSystem) : Prop :=
  (in_flight s <= n)%nat /\
  match es with [] => True | e :: es => clears e s = false /\ quiet n es (exec e s) end.
End system.

(** ** Guesses within a lockout period *)

(** Let in, the password not yet compared; known to fail, not yet counted. *)
Definition before_check (p : phase) : bool :=
  match p with
  | PSession | PValidate _ | PDrop | PAuth | PCheck _ | PChangeAuth | PChangeCheck _ | PKeyAuth _ _ _ | PKeyCheck _ _ _ _ => true
  | _ => false
  end.

Definition before_count (p : phase) : bool := match p with PFailed _ _ | PChangeFailed | PKeyFailed _ => true | _ => false end.

Definition tally_of (P : phase -> bool) (l : list (admin_request * phase)) : Z := Z.of_nat (length (filter (fun rp => P rp.2 = true) l)).

Definition weigh (b : bool) : Z := if b then 1 else 0.

Lemma tally_insert P l i rq p rq' p' : l !! i = Some (rq, p) ->
  tally_of P (<[i := (rq', p')]> l) = tally_of P l - weigh (P p) + weigh (P p').
Proof.
  intros Hi. unfold tally_of. rewrite insert_take_drop by (by eapply lookup_lt_Some).
  rewrite <- (take_drop_middle l i (rq, p) Hi) at 3. rewrite !filter_app, !filter_cons, !length_app. cbn [snd].
  unfold weigh. destruct (P p'), (P p); cbn [decide]; repeat case_decide; cbn [length]; try done; lia.
Qed.

Lemma tally_app P l rq p : tally_of P (l ++ [(rq, p)]) = tally_of P l + weigh (P p).
Proof.
  unfold tally_of. rewrite filter_app, length_app, filter_cons. cbn [snd]. unfold weigh. destruct (P p); case_decide; try done; cbn; lia.
Qed.

Lemma in_flight_tally s : Z.of_nat (in_flight s) = tally_of before_check (requests s) + tally_of before_count (requests s).
Proof.
  unfold in_flight, tally_of. induction (requests s) as [|[rq p] l IH]; [done|]. rewrite !filter_cons. unfold pending at 1. cbn [snd].
  destruct p; cbn [before_check before_count]; repeat case_decide; try done; cbn [length]; lia.
Qed.

Section guessing.
Context {C : AuditCrypto} (key : string) {PW : Passwords}.
Context (t0 : Time) (t0_pos : 0 < t0).

(** The step of one request: what becomes of its phase and of the table. *)
Inductive step_effect (rq : admin_request) (p : phase) (t : AttemptTable) (p' : phase) (t' : AttemptTable) (guess : bool) : Prop :=
| effect_admit : guess = false -> before_check p = false -> before_count p = false -> before_check p' = true -> before_count p' = false ->
    preserves t0 t t' -> counted t0 0 t' -> (forall r, counted t0 r t -> r < 5) -> step_effect rq p t p' t' guess
| effect_count : guess = false -> before_count p = true -> before_check p = false -> before_check p' = false -> before_count p' = false ->
    (old_stage t0 t -> old_stage t0 t') -> (forall r, 0 <= r -> counted t0 r t -> counted t0 (r + 1) t') -> step_effect rq p t p' t' guess
| effect_other : preserves t0 t t' -> weigh (before_check p') + weigh guess <= weigh (before_check p) ->
    weigh (before_check p') + weigh (before_count p') <= weigh (before_check p) + weigh (before_count p) ->
    weigh (before_count p) + weigh guess <= weigh (before_count p') -> step_effect rq p t p' t' guess.

Lemma lock_check_effect rq tk h go p : table_ok (attempts h) -> in_period t0 (tkNow tk) ->
  before_check p = false -> before_count p = false -> before_count go = false ->
  step_effect rq p (attempts h) (lock_check rq tk h go).1 (attempts (lock_check rq tk h go).2) false.
Proof.
  intros Hok Hnow Hp Hp' Hgo. unfold lock_check. pose proof (lockout_period t0 t0_pos (rqIP rq) (tkNow tk) (attempts h) Hok Hnow) as H.
  destruct (isLockedOut _ _ _) as [b t']. destruct H as [Hpres Hin]. cbn [fst snd attempts set_attempts].
  destruct b; [by apply effect_other; rewrite ?Hp, ?Hp'|]. destruct (Hin eq_refl) as [H0 Hr].
  destruct (before_check go) eqn:Eg; [by apply effect_admit|]. apply effect_other; rewrite ?Hp, ?Hp', ?Eg, ?Hgo; done.
Qed.

Lemma lock_check_ok rq tk h go : table_ok (attempts h) -> table_ok (attempts (lock_check rq tk h go).2).
Proof.
  intros Hok. unfold lock_check. pose proof (isLockedOut_ok (rqIP rq) (tkNow tk) _ Hok) as H. by destruct (isLockedOut _ _ _).
Qed.

Lemma auditLog_attempts rq action details tk h : attempts (auditLog_ key rq action details tk h).2 = attempts h.
Proof. unfold auditLog_. by destruct (tkFault tk). Qed.

Lemma step_phase_effect rq p tk h : table_ok (attempts h) -> in_period t0 (tkNow tk) -> clear_phase rq p = false ->
  let '(p', h') := step_phase key rq p tk h in
  table_ok (attempts h') /\ step_effect rq p (attempts h) p' (attempts h') (guess_phase rq p).
Proof.
  intros Hok Hnow Hclear. assert (0 < tkNow tk) as Hpos by (destruct Hnow; lia).
  assert (forall p' h', attempts h' = attempts h -> weigh (before_check p') + weigh (guess_phase rq p) <= weigh (before_check p) ->
    weigh (before_check p') + weigh (before_count p') <= weigh (before_check p) + weigh (before_count p) ->
    weigh (before_count p) + weigh (guess_phase rq p) <= weigh (before_count p') ->
    table_ok (attempts h') /\ step_effect rq p (attempts h) p' (attempts h') (guess_phase rq p)) as Hsame.
  { intros p' h' Ha H1 H2 H3. rewrite Ha. split; [done|]. apply effect_other; [apply preserves_refl|done..]. }
  assert (forall p' t', preserves t0 (attempts h) t' -> table_ok t' -> before_check p = false -> before_check p' = false ->
    before_count p = false -> before_count p' = false -> guess_phase rq p = false ->
    table_ok t' /\ step_effect rq p (attempts h) p' t' (guess_phase rq p)) as Htable.
  { intros p' t' Hp Ht H1 H2 H3 H4 H5. split; [done|]. rewrite H5. apply effect_other; [done|..]; by rewrite ?H1, ?H2, ?H3, ?H4. }
  destruct p; unfold_steps;
    destruct (rqKind rq) eqn:Hk; try (apply Hsame; [done|unfold guess_phase; rewrite ?Hk; done..]);
    try (unfold clear_phase in Hclear; rewrite Hk in Hclear; discriminate);
    repeat match goal with
    | |- context [lock_check rq tk h ?go] =>
        let He := fresh in let Ho := fresh in
        assert (before_count go = false) as Hgo by (clear; repeat (case_match; try done); try done);
        match goal with |- context [step_effect rq ?q] => pose proof (lock_check_effect rq tk h go q Hok Hnow eq_refl eq_refl Hgo) as He end;
        pose proof (lock_check_ok rq tk h go Hok) as Ho; destruct (lock_check rq tk h go) as [? ?]; cbn [fst snd] in He, Ho; split; [exact Ho|];
        unfold guess_phase; rewrite ?Hk; exact He
    | |- context [auditLog_ key rq ?a ?d tk h] =>
        let Ha := fresh in pose proof (auditLog_attempts rq a d tk h) as Ha; destruct (auditLog_ key rq a d tk h) as [[] ?]; cbn [snd] in Ha |- *
    | |- context [claimLockoutAudit (rqIP rq) (tkNow tk) (attempts h)] =>
        let Hc := fresh in let Ho := fresh in pose proof (claim_period t0 t0_pos (rqIP rq) _ _ Hok Hnow) as Hc;
        pose proof (claim_ok (rqIP rq) (tkNow tk) _ Hok) as Ho; destruct (claimLockoutAudit _ _ _) as [claim t'];
        cbn [snd] in Hc, Ho; apply (Htable _ t'); try done; unfold locked_response; rewrite ?Hk; by destruct claim
    | |- context [match ?x with _ => _ end] => lazymatch x with context [match _ with _ => _ end] => fail | _ => destruct x eqn:? end
    end;
    try (apply Hsame; [done|unfold guess_phase, locked_response; rewrite ?Hk;
      repeat match goal with H : negb _ = _ |- _ => apply (f_equal negb) in H; rewrite negb_involutive in H end;
      repeat match goal with H : CheckPassword _ _ = _ |- _ => rewrite H end; done..]);
    try (apply (Htable _ (releaseLockoutAudit claim (attempts h))); try done; [apply release_period|by apply release_ok]).
  - apply (Htable _ (recordFailedAttemptFor (rqIP rq) false (tkNow tk) (attempts h))); try done; [by apply record_csrf|by apply record_ok].
  - destruct (record_failure t0 t0_pos (rqIP rq) (tkNow tk) (attempts h) Hok Hnow). split; [by apply record_ok|by apply effect_count].
  - destruct (record_failure t0 t0_pos (rqIP rq) (tkNow tk) (attempts h) Hok Hnow). split; [by apply record_ok|by apply effect_count].
  - destruct (record_failure t0 t0_pos (rqIP rq) (tkNow tk) (attempts h) Hok Hnow). split; [by apply record_ok|by apply effect_count].
Qed.

(** [g] wrong guesses so far: those not yet counted are in flight, the others
    were counted at an older lockout ([q]) or in the period ([r]). *)
Definition progress (p0 n g : Z) (s : AdminSystem) : Prop :=
  let t := attempts (handler s) in
  let open := tally_of before_check (requests s) in
  let failed := tally_of before_count (requests s) in
  exists q r, 0 <= q /\ 0 <= r /\
    ((old_stage t0 t /\ g <= q + failed /\ q + open + failed <= p0) \/
     (counted t0 r t /\ g <= q + r + failed /\ q <= p0 /\ g + open <= 4 + n + p0)).

Lemma tally_nonneg P l : 0 <= tally_of P l.
Proof. unfold tally_of. lia. Qed.

(** A change of the table that counts nothing. *)
Lemma progress_preserves p0 n g s t' requests' :
  0 <= n -> progress p0 n g s -> preserves t0 (attempts (handler s)) t' -> 
  tally_of before_check requests' = tally_of before_check (requests s) -> tally_of before_count requests' = tally_of before_count (requests s) ->
  forall h', attempts h' = t' -> progress p0 n g (mk_system h' requests').
Proof.
  intros Hn (q & r & Hq & Hr & H) [Hold Hcount] E1 E2 h' <-. unfold progress. cbn [handler requests]. rewrite E1, E2.
  pose proof (tally_nonneg before_check (requests s)). pose proof (tally_nonneg before_count (requests s)).
  destruct H as [(Hs & P1 & P2)|(Hc & P1 & P2 & P3)].
  - destruct (Hold Hs) as [Hs'|Hs']; [exists q, r; split; [done|]; split; [done|]; by left|].
    exists q, 0. split; [done|]. split; [lia|]. right. split; [done|]. lia.
  - exists q, r. split; [done|]. split; [done|]. right. split; [by apply Hcount|]. lia.
Qed.

Lemma progress_step p0 n g e s :
  0 <= n -> table_ok (attempts (handler s)) -> event_times (in_period t0) e -> clears e s = false ->
  progress p0 n g s -> Z.of_nat (in_flight (exec key e s)) <= n ->
  table_ok (attempts (handler (exec key e s))) /\ progress p0 n (g + weigh (wrong_guess e s)) (exec key e s).
Proof.
  intros Hn Hok Ht Hclear Hp Hfl. rewrite in_flight_tally in Hfl. destruct e as [rq|i tk|now|now]; cbn [exec] in *.
  - split; [done|]. rewrite Z.add_0_r. apply (progress_preserves _ _ _ s (attempts (handler s))); try done; [apply preserves_refl|..];
      rewrite tally_app; cbn; lia.
  - unfold wrong_guess, clears in *. cbn [acting] in *. destruct (requests s !! i) as [[rq p]|] eqn:Ei.
    2: { split; [done|]. by rewrite Z.add_0_r. }
    destruct Ht as [Ht _]. pose proof (step_phase_effect rq p tk (handler s) Hok Ht Hclear) as Hstep.
    destruct (step_phase key rq p tk (handler s)) as [p' h']. destruct Hstep as [Hok' Heff]. split; [done|].
    unfold progress in *. cbn [handler requests] in *. rewrite !(tally_insert _ _ _ _ _ _ _ Ei) in *.
    pose proof (tally_nonneg before_check (requests s)). pose proof (tally_nonneg before_count (requests s)).
    destruct Hp as (q & r & Hq & Hr & Hp).
    destruct Heff as [Hg B1 B2 B3 B4 [Hold Hcount] Hz H5|Hg B1 B2 B3 B4 Hold Hcount|[Hold Hcount] B1 B2 B3].
    + rewrite Hg, B1, B2, B3, B4 in *. cbn [weigh] in *. destruct Hp as [(Hs & P1 & P2)|(Hc & P1 & P2 & P3)].
      * exists q, 0. split; [done|]. split; [lia|]. right. split; [done|]. lia.
      * pose proof (H5 r Hc). exists q, r. split; [done|]. split; [done|]. right. split; [by apply Hcount|]. lia.
    + rewrite Hg, B1, B2, B3, B4 in *. cbn [weigh] in *. destruct Hp as [(Hs & P1 & P2)|(Hc & P1 & P2 & P3)].
      * exists (q + 1), 0. split; [lia|]. split; [lia|]. left. split; [by apply Hold|]. lia.
      * exists q, (r + 1). split; [done|]. split; [lia|]. right. split; [by apply Hcount|]. lia.
    + assert (forall b, 0 <= weigh b <= 1) as Hw by (intros []; cbn; lia).
      pose proof (Hw (guess_phase rq p)). pose proof (Hw (before_check p')). pose proof (Hw (before_count p')).
      destruct Hp as [(Hs & P1 & P2)|(Hc & P1 & P2 & P3)].
      * destruct (Hold Hs) as [Hs'|Hs']; [exists q, 0; split; [done|]; split; [lia|]; left; split; [done|]; lia|].
        exists q, 0. split; [done|]. split; [lia|]. right. split; [done|]. lia.
      * exists q, r. split; [done|]. split; [done|]. right. split; [by apply Hcount|]. lia.
  - split; [by apply cleanup_ok|]. rewrite Z.add_0_r. by apply (progress_preserves _ _ _ s _ _ Hn Hp (cleanup_period t0 now _ Hok Ht)).
  - split; [done|]. rewrite Z.add_0_r. by apply (progress_preserves _ _ _ s _ _ Hn Hp (preserves_refl t0 _)).
Qed.

Lemma guesses_bound p0 n es s g :
  table_ok (attempts (handler s)) -> Forall (event_times (in_period t0)) es -> quiet key n es s ->
  progress p0 (Z.of_nat n) g s -> g + Z.of_nat (guesses key es s) <= 4 + Z.of_nat n + p0.
Proof.
  revert s g. induction es as [|e es IH]; intros s g Hok Ht Hq Hp.
  - cbn. destruct Hp as (q & r & Hq0 & Hr0 & Hp). pose proof (tally_nonneg before_check (requests s)). pose proof (tally_nonneg before_count (requests s)).
    destruct Hp as [(_ & P1 & P2)|(_ & P1 & P2 & P3)]; lia.
  - destruct Hq as (_ & Hclear & Hq). inversion Ht as [|? ? He Hes]; subst.
    assert (Z.of_nat (in_flight (exec key e s)) <= Z.of_nat n) as Hfl by (destruct es; destruct Hq; lia).
    destruct (progress_step p0 (Z.of_nat n) g e s ltac:(lia) Hok He Hclear Hp Hfl) as [Hok' Hp'].
    specialize (IH _ _ Hok' Hes Hq Hp'). change (guesses key (e :: es) s) with ((if wrong_guess e s then 1 else 0) + guesses key es (exec key e s))%nat.
    unfold weigh in IH. destruct (wrong_guess e s); lia.
Qed.
End guessing.

Section reached.
Context {C : AuditCrypto} (key : string) {PW : Passwords}.

Lemma exec_table_ok e s : event_times (fun t => 0 < t) e -> table_ok (attempts (handler s)) -> table_ok (attempts (handler (exec key e s))).
Proof.
  intros Ht Hok. destruct e as [rq|i tk|now|now]; cbn [exec]; try done; [|by apply cleanup_ok].
  destruct (requests s !! i) as [[rq p]|]; [|done]. destruct Ht as [Ht _].
  destruct (clear_phase rq p) eqn:Hc.
  - unfold clear_phase in Hc. destruct p; try (by destruct (rqKind rq)); destruct (rqKind rq) eqn:Hk; try done;
      unfold step_phase; rewrite Hk; cbn; by apply table_ok_drop, table_ok_drop.
  - assert (in_period (tkNow tk) (tkNow tk)) as Hin by (unfold in_period, loginLockoutDuration, Minute, Second; lia).
    pose proof (step_phase_effect key (tkNow tk) Ht rq p tk (handler s) Hok Hin Hc) as H. destruct (step_phase key rq p tk (handler s)). apply H.
Qed.

Lemma run_table_ok es s : Forall (event_times (fun t => 0 < t)) es -> table_ok (attempts (handler s)) -> table_ok (attempts (handler (run key es s))).
Proof.
  intros Ht. revert s. induction Ht as [|e es He Hes IH]; intros s Hok; [done|]. cbn. apply IH. by apply exec_table_ok.
Qed.

(** C19: guessing the admin password is rate limited, whatever requests run
    interleaved, from whatever addresses and with whatever failures of the
    store.  The requests that compare a password are logins, password changes and
    the creation of API keys.  While none of them gets the password right, the
    passwords found wrong in a period of 15 minutes are at most four, plus the
    number of requests in flight at its start and the largest number of requests
    in flight at the same time. *)
Theorem login_guesses_bounded (m : SessionManager) (st : Store) (before es : list event) (t0 : Time) (n : nat) :
  0 < t0 -> Forall (event_times (fun t => 0 < t)) before -> Forall (event_times (in_period t0)) es ->
  let s := run key before (mk_system (mk_handler m no_attempts st) []) in
  quiet key n es s -> (guesses key es s <= 4 + n + in_flight s)%nat.
Proof.
  intros Hpos Hbefore Hes s Hquiet. assert (table_ok (attempts (handler s))) as Hok by (by apply run_table_ok).
  assert (in_flight s <= n)%nat as Hn by (destruct es; destruct Hquiet; lia).
  enough (0 + Z.of_nat (guesses key es s) <= 4 + Z.of_nat n + Z.of_nat (in_flight s)) by lia.
  apply (guesses_bound key t0 Hpos); try done. pose proof (in_flight_tally s) as Hf.
  pose proof (tally_nonneg before_check (requests s)). pose proof (tally_nonneg before_count (requests s)).
  unfold progress. exists 0, 0. split; [done|]. split; [done|].
  destruct (stage_cases t0 (attempts (handler s))) as [Hs|Hs]; [left|right]; (split; [done|]); lia.
Qed.
End reached.

(** ** Where admin sessions come from *)

Definition admin_id (m : SessionManager) (id : string) : Prop := exists x, sessions m !! id = Some x /\ Admin x = true.

Lemma clone_sessions x m : sessions (cloneSession x m).2 = sessions m.
Proof. unfold cloneSession. by destruct (csrf x). Qed.

Lemma admin_id_delete id id' m : admin_id (set_sessions (delete id' (sessions m)) m) id -> admin_id m id /\ id <> id'.
Proof. intros (x & Hx & Ha). cbn in Hx. apply lookup_delete_Some in Hx as [Hne Hx]. split; [by exists x|done]. Qed.

Lemma admin_id_touch id id' x x' m : sessions m !! id' = Some x -> Admin x' = Admin x ->
  admin_id (cloneSession x' (set_sessions (<[id' := x']> (sessions m)) m)).2 id -> admin_id m id.
Proof.
  intros Hx Hsame (y & Hy & Ha). rewrite clone_sessions in Hy. cbn in Hy. apply lookup_insert_Some in Hy as [[<- <-]|[_ Hy]].
  - exists x. by rewrite <- Hsame.
  - by exists y.
Qed.

Lemma Get_admin now cookie m id : admin_id (Get now cookie m).2 id -> admin_id m id.
Proof.
  unfold Get. destruct cookie as [value|]; [|done]. destruct (sessions m !! value) as [x|] eqn:E; [|done].
  destruct (expired now m x); [by intros [? _]%admin_id_delete|].
  pose proof (admin_id_touch id value x (set_LastAccessed now x) m E eq_refl) as H. by destruct (cloneSession _ _).
Qed.

Lemma CreatePreAuth_admin now rand m id : admin_id (CreatePreAuth now rand m).2 id -> admin_id m id.
Proof.
  unfold CreatePreAuth. destruct rand as [value|]; [|done]. cbn. intros (x & Hx & Ha). cbn in Hx.
  apply lookup_insert_Some in Hx as [[<- <-]|[_ Hx]]; [done|by exists x].
Qed.

Lemma CreateOrReuse_admin now now' rand cookie m id : admin_id (CreateOrReusePreAuth now now' rand cookie m).2 id -> admin_id m id.
Proof.
  unfold CreateOrReusePreAuth, reusablePreAuthSession. destruct cookie as [value|]; [|apply CreatePreAuth_admin].
  destruct (bool_decide (value = "")); [apply CreatePreAuth_admin|].
  destruct (sessions m !! value) as [x|] eqn:E; [|apply CreatePreAuth_admin]. destruct (Admin x) eqn:Ea; [apply CreatePreAuth_admin|].
  destruct (_ || _); [by intros [? _]%CreatePreAuth_admin%admin_id_delete|].
  destruct (_ <? _); [by intros [? _]%CreatePreAuth_admin%admin_id_delete|].
  pose proof (admin_id_touch id value x (set_LastAccessed now x) m E eq_refl) as H. by destruct (cloneSession _ _).
Qed.

Lemma CSRFToken_admin rand x m id : admin_id (CSRFToken rand x m).2 id -> admin_id m id.
Proof.
  unfold CSRFToken, csrfState. destruct (csrf x) as [r|]; cbn; (destruct (negb _); [done|]); by destruct rand.
Qed.

Lemma Delete_admin cookie m id : admin_id (Delete cookie m).2 id -> admin_id m id.
Proof. unfold Delete. destruct cookie; [|done]. by intros [? _]%admin_id_delete. Qed.

Lemma createAdmin_admin now rand bootstrap exclusive m id :
  admin_id (createAdmin now rand bootstrap exclusive m).2 id ->
  (rand = Some id /\ exists x cookie, (createAdmin now rand bootstrap exclusive m).1 = Some (x, cookie) /\ ID x = id) \/ admin_id m id.
Proof.
  unfold createAdmin. destruct rand as [value|]; [|by right]. cbn. intros (x & Hx & Ha). cbn in Hx.
  apply lookup_insert_Some in Hx as [[<- <-]|[_ Hx]]; [left; by eauto 6|]. right. exists x. split; [|done].
  destruct exclusive; [|done]. by apply map_lookup_filter_Some in Hx as [Hx _].
Qed.

Lemma exclusive_admin now rand m id x : (CreateExclusiveAdmin now rand m).1 = Some x -> admin_id (CreateExclusiveAdmin now rand m).2 id -> rand = Some id.
Proof.
  unfold CreateExclusiveAdmin, createAdmin. destruct rand as [value|]; [|done]. cbn. intros _ (y & Hy & Ha). cbn in Hy.
  apply lookup_insert_Some in Hy as [[<- <-]|[_ Hy]]; [done|]. apply map_lookup_filter_Some in Hy as [_ Hy]. cbn in Hy. congruence.
Qed.

Lemma SetFlash_admin id' k v m id : admin_id (SetFlash id' k v m) id -> admin_id m id.
Proof.
  unfold SetFlash. destruct (sessions m !! id') as [x|] eqn:E; [|done]. intros (y & Hy & Ha). cbn in Hy.
  apply lookup_insert_Some in Hy as [[<- <-]|[_ Hy]]; [by exists x|by exists y].
Qed.

Lemma GetFlash_admin id' k m id : admin_id (GetFlash id' k m).2 id -> admin_id m id.
Proof.
  unfold GetFlash. destruct (sessions m !! id') as [x|] eqn:E; [|done]. destruct (flash x) as [f|]; [|done]. destruct (f !! k); [|done].
  intros (y & Hy & Ha). cbn in Hy. apply lookup_insert_Some in Hy as [[<- <-]|[_ Hy]]; [by exists x|by exists y].
Qed.

Lemma no_admins m id : ~ admin_id (DeleteAllAdminSessions m).2 id.
Proof. intros (x & Hx & Ha). cbn in Hx. apply map_lookup_filter_Some in Hx as [_ Hx]. cbn in Hx. congruence. Qed.

Lemma cleanup_admin now m id : admin_id (cleanupExpiredSessions now m) id -> admin_id m id.
Proof. intros (x & Hx & Ha). cbn in Hx. apply map_lookup_filter_Some in Hx as [Hx _]. by exists x. Qed.

(** The request answers for the session. *)
Definition holds (p : phase) (id : string) : Prop :=
  match p with
  | PSuccessAudit _ id' | PRollback id' | PReset id' | PDone (RLoggedIn _ id') | PDone (RPasswordChanged id') => id' = id
  | _ => False
  end.

Section origins.
Context {C : AuditCrypto} (key : string) {PW : Passwords}.

Lemma auditLog_sm rq action details tk h : sm (auditLog_ key rq action details tk h).2 = sm h.
Proof. unfold auditLog_. by destruct (tkFault tk). Qed.

Lemma lock_check_sm rq tk h go : sm (lock_check rq tk h go).2 = sm h.
Proof. unfold lock_check. by destruct (isLockedOut _ _ _). Qed.

Lemma step_sessions rq p tk h :
  let '(p', h') := step_phase key rq p tk h in
  forall id, admin_id (sm h') id -> holds p' id \/ (admin_id (sm h) id /\ (holds p id -> holds p' id)).
Proof.
  destruct p; unfold_steps; destruct (rqKind rq) eqn:Hk;
    try (intros ? ?; right; split; [done|done]);
    repeat match goal with
    | |- context [lock_check rq tk h ?go] =>
        let Hs := fresh in pose proof (lock_check_sm rq tk h go) as Hs; destruct (lock_check rq tk h go) as [? ?]; cbn [snd] in Hs
    | |- context [auditLog_ key rq ?a ?d tk h] =>
        let Hs := fresh in pose proof (auditLog_sm rq a d tk h) as Hs; destruct (auditLog_ key rq a d tk h) as [[] ?]; cbn [snd] in Hs |- *
    | |- context [claimLockoutAudit ?a ?b ?c] => destruct (claimLockoutAudit a b c)
    | |- context [Get ?a ?b ?c] =>
        let Hs := fresh in pose proof (fun id => Get_admin a b c id) as Hs; destruct (Get a b c) as [[?|] ?]; cbn [snd] in Hs
    | |- context [CreateOrReusePreAuth ?a ?b ?c ?d ?e] =>
        let Hs := fresh in pose proof (fun id => CreateOrReuse_admin a b c d e id) as Hs;
        destruct (CreateOrReusePreAuth a b c d e) as [[[? ?]|] ?]; cbn [snd] in Hs
    | |- context [CSRFToken ?a ?b ?c] =>
        let Hs := fresh in pose proof (fun id => CSRFToken_admin a b c id) as Hs; destruct (CSRFToken a b c) as [[[?|] ?] ?]; cbn [snd] in Hs
    | |- context [CreateAdmin ?a ?b ?c ?d] =>
        let Hs := fresh in pose proof (fun id => createAdmin_admin a b c false d id) as Hs; unfold CreateAdmin;
        destruct (createAdmin a b c false d) as [[[? ?]|] ?]; cbn [fst snd] in Hs
    | |- context [CreateExclusiveAdmin ?a ?b ?c] =>
        let Hs := fresh in pose proof (fun id => createAdmin_admin a b false true c id) as Hs; unfold CreateExclusiveAdmin;
        destruct (createAdmin a b false true c) as [[[? ?]|] ?]; cbn [fst snd] in Hs
    | |- context [Delete ?a ?b] =>
        let Hs := fresh in pose proof (fun id => Delete_admin a b id) as Hs; destruct (Delete a b) as [? ?]; cbn [snd] in Hs |- *
    | |- context [GetFlash ?a ?b ?c] =>
        let Hs := fresh in pose proof (fun id => GetFlash_admin a b c id) as Hs; destruct (GetFlash a b c) as [? ?]; cbn [snd] in Hs |- *
    | |- context [SetFlash ?a ?b ?c ?d] =>
        let Hs := fresh in pose proof (fun id => SetFlash_admin a b c d id) as Hs; let m := fresh in set (m := SetFlash a b c d) in *; clearbody m
    | |- context [match ?x with _ => _ end] => lazymatch x with context [match _ with _ => _ end] => fail | _ => destruct x eqn:? end
    end;
    intros sid Hsid; cbn [sm set_sm set_attempts set_store] in Hsid;
    try (right; split; [by auto|done]);
    try match goal with H : sm _ = sm h |- _ => rewrite H in Hsid; right; split; [done|by cbn] end.
  - destruct (H sid Hsid) as [(_ & x & cookie & [= -> _] & <-)|]; [by left|by right].
  - destruct (H sid Hsid) as [(_ & x & cookie & ? & _)|]; [done|by right].
  - apply admin_id_delete in Hsid as [Hsid Hne]. right. split; [done|]. intros E. by rewrite E in Hne.
  - destruct (H sid Hsid) as [(_ & x & cookie & [= -> _] & <-)|]; [by left|by right].
  - destruct (H sid Hsid) as [(_ & x & cookie & ? & _)|]; [done|by right].
  - by apply no_admins in Hsid.
Qed.

Context (s0 : AdminSystem).

(** A credential the store had at some time. *)
Definition seen (es : list event) (a : AdminAuth) : Prop :=
  exists es1 es2, es = es1 ++ es2 /\ GetAdminAuth (store (handler (run key es1 s0))) = Some a.

Definition logged_in (es : list event) (rq : admin_request) : Prop :=
  fUsername (form_of rq) = "admin" /\ exists a, seen es a /\ CheckPassword (PasswordHash a) (fPassword (form_of rq)) = true.

Definition confirmed (es : list event) (rq : admin_request) : Prop :=
  exists a, seen es a /\ CheckPassword (PasswordHash a) (fCurrent (form_of rq)) = true.

Definition audited (action : string) (rq : admin_request) (st : Store) : Prop :=
  exists row, row ∈ auditLog st /\ logAction row = action /\ logIP row = rqIP rq.

(** The name and the expiry are those the request asks for, at a clock reading of
    the run. *)
Definition asked_key (es : list event) (rq : admin_request) (name : string) (expiresAt : Time) : Prop :=
  let form := fKey (form_of rq) in
  rqKind rq = KeyCreate /\ normalizeAPIKeyName (fName form) = inr name /\
  exists i tk, Run i tk ∈ es /\ parseAPIKeyExpiresInDays (fExpiresInDays form) (fCustomDays form) (tkNow tk) = inr expiresAt.

(** What is known of a request in a phase. *)
Definition known (es : list event) (st : Store) (rq : admin_request) (p : phase) : Prop :=
  match p with
  | PAuth => fUsername (form_of rq) = "admin"
  | PCheck a => fUsername (form_of rq) = "admin" /\ seen es a
  | PCreate _ | PSuccessAudit _ _ | PRollback _ => logged_in es rq
  | PReset _ | PDone (RLoggedIn _ _) => logged_in es rq /\ audited "login_success" rq st
  | PChangeCheck a => seen es a
  | PChange a => confirmed es rq
  | PChangeReset | PRotate | PDone (RPasswordChanged _) => confirmed es rq /\ audited "password_change" rq st
  | PKeyGate _ name e | PKeyAuth _ name e => asked_key es rq name e
  | PKeyCheck _ name e a => asked_key es rq name e /\ seen es a
  | PKeyReset _ name e | PKeyStore _ name e => asked_key es rq name e /\ confirmed es rq
  | PKeyFlash _ _ _ | PDone (RKeyCreated _) => confirmed es rq /\ audited "api_key_create" rq st
  | _ => True
  end.

Lemma seen_more es e a : seen es a -> seen (es ++ [e]) a.
Proof. intros (es1 & es2 & -> & H). exists es1, (es2 ++ [e]). by rewrite app_assoc. Qed.

Lemma asked_more es e rq name e' : asked_key es rq name e' -> asked_key (es ++ [e]) rq name e'.
Proof. intros (? & ? & i & tk & Hi & ?). split; [done|]. split; [done|]. exists i, tk. rewrite elem_of_app. auto. Qed.

Lemma known_more es e st st' rq p : auditLog st ⊆ auditLog st' -> known es st rq p -> known (es ++ [e]) st' rq p.
Proof.
  intros Hsub. assert (logged_in es rq -> logged_in (es ++ [e]) rq) as H1.
  { intros (Hu & a & Ha & Hc). split; [done|]. exists a. split; [by apply seen_more|done]. }
  assert (confirmed es rq -> confirmed (es ++ [e]) rq) as H2.
  { intros (a & Ha & Hc). exists a. split; [by apply seen_more|done]. }
  assert (forall name e', asked_key es rq name e' -> asked_key (es ++ [e]) rq name e') as H4 by (intros; by apply asked_more).
  assert (forall action, audited action rq st -> audited action rq st') as H3.
  { intros action (row & Hrow & ?). exists row. split; [by apply Hsub|done]. }
  destruct p; try (match goal with r : admin_response |- _ => destruct r end); cbn; try done; try (by intros []; eauto using seen_more); eauto using seen_more.
Qed.

Lemma insert_audit_log now entry st :
  exists row, auditLog (insertAdminAuditLogLocked key now (Some entry) st) = auditLog st ++ [row] /\
    logAction row = Action entry /\ logIP row = auditIP entry.
Proof. unfold insertAdminAuditLogLocked. case_bool_decide; eexists; (split; [done|]); done. Qed.

Lemma audited_now action rq now details st :
  let st' := insertAdminAuditLogLocked key now (Some (adminAuditEntry rq action details)) st in
  auditLog st ⊆ auditLog st' /\ audited action rq st'.
Proof.
  destruct (insert_audit_log now (adminAuditEntry rq action details) st) as (row & Hlog & Ha & Hi). split.
  - rewrite Hlog. set_solver.
  - exists row. rewrite Hlog. split; [set_solver|]. by rewrite Ha, Hi.
Qed.

Lemma auditLog_known rq action details tk h :
  auditLog (store h) ⊆ auditLog (store (auditLog_ key rq action details tk h).2) /\
  ((auditLog_ key rq action details tk h).1 = true -> audited action rq (store (auditLog_ key rq action details tk h).2)).
Proof.
  unfold auditLog_. destruct (tkFault tk); [done|]. cbn. destruct (audited_now action rq (tkNow tk) details (store h)) as [H1 H2].
  split; [exact H1|intros _; exact H2].
Qed.

Lemma lock_check_store rq tk h go : store (lock_check rq tk h go).2 = store h /\
  ((lock_check rq tk h go).1 = go \/ (lock_check rq tk h go).1 = PLocked).
Proof. unfold lock_check. destruct (isLockedOut _ _ _) as [[] ?]; auto. Qed.

Lemma change_known now now' newHash oldHash rq details st :
  let '(r, st') := ChangeAdminPasswordWithAudit key now now' newHash oldHash (Some (adminAuditEntry rq "password_change" details)) st in
  auditLog st ⊆ auditLog st' /\ (forall u, r = inr u -> audited "password_change" rq st').
Proof.
  unfold ChangeAdminPasswordWithAudit. destruct (adminAuth st) as [a|]; [|done]. case_bool_decide; [|done].
  destruct (audited_now "password_change" rq now details st) as [H1 (row & Hrow & H2)].
  assert (forall s, auditLog (upsertAdminAuthLocked now' newHash false s) = auditLog s) as Hup.
  { intros s. unfold upsertAdminAuthLocked. by destruct (adminAuth s). }
  rewrite Hup. split; [done|]. intros u _. exists row. rewrite Hup. done.
Qed.

Lemma create_known now now' name hash e rq details st :
  let '(r, st') := CreateAPIKeyWithAudit key now now' name hash e (Some (adminAuditEntry rq "api_key_create" details)) st in
  auditLog st ⊆ auditLog st' /\ (forall id, r = inr id -> audited "api_key_create" rq st').
Proof.
  unfold CreateAPIKeyWithAudit, SetAdminAuditDetail. destruct (if bool_decide _ then _ else _) as [details'|]; [|done]. cbn [mbind option_bind].
  set (entry := mk_audit _ _ _ _). destruct (insert_audit_log now entry st) as (row & Hlog & Ha & Hi).
  set (st1 := insertAdminAuditLogLocked _ _ _ _) in *. clearbody st1. unfold audited. cbn.
  rewrite Hlog. split; [set_solver|]. intros _ _. exists row. rewrite Ha, Hi. split; [set_solver|done].
Qed.

Lemma revoke_known now now' id entry st : auditLog st ⊆ auditLog (RevokeAPIKeyWithAudit key now now' id (Some entry) st).2.
Proof.
  unfold RevokeAPIKeyWithAudit. destruct (revocable id st) as [|[i k]]; [done|].
  destruct (insert_audit_log now entry st) as (row & Hlog & _). set (st1 := insertAdminAuditLogLocked _ _ _ _) in *. clearbody st1.
  cbn. rewrite Hlog. set_solver.
Qed.

Lemma delete_known now id entry st : auditLog st ⊆ auditLog (DeleteAPIKeyWithAudit key now id (Some entry) st).2.
Proof.
  unfold DeleteAPIKeyWithAudit. destruct (deletable id st) as [|i]; [done|].
  destruct (insert_audit_log now entry st) as (row & Hlog & _). set (st1 := insertAdminAuditLogLocked _ _ _ _) in *. clearbody st1.
  cbn. rewrite Hlog. set_solver.
Qed.

Lemma step_known es i rq p tk :
  let h := handler (run key es s0) in known es (store h) rq p ->
  let '(p', h') := step_phase key rq p tk h in
  auditLog (store h) ⊆ auditLog (store h') /\ known (es ++ [Run i tk]) (store h') rq p'.
Proof.
  intros h Hk. assert (forall a, seen es a -> seen (es ++ [Run i tk]) a) as Hseen by (intros; by apply seen_more).
  assert (forall a, GetAdminAuth (store h) = Some a -> seen (es ++ [Run i tk]) a) as Hnow by (intros a Ha; exists es, [Run i tk]; done).
  assert (forall st, auditLog (store h) ⊆ auditLog st -> known (es ++ [Run i tk]) st rq p) as Hmore by (intros; by eapply known_more).
  destruct p; unfold_steps; destruct (rqKind rq) eqn:Hkind;
    try (split; [done|by apply Hmore]);
    repeat match goal with
    | |- context [lock_check rq tk h ?go] =>
        let Hs := fresh in let Hg := fresh in pose proof (lock_check_store rq tk h go) as [Hs Hg]; destruct (lock_check rq tk h go) as [? ?];
        cbn [fst snd] in Hs, Hg; rewrite Hs; split; [done|]; destruct Hg as [-> | ->]; try (apply (Hmore (store h)); done); repeat case_match; done
    | |- context [auditLog_ key rq ?a ?d tk h] =>
        let Hs := fresh in let Ha := fresh in pose proof (auditLog_known rq a d tk h) as [Hs Ha]; destruct (auditLog_ key rq a d tk h) as [[] ?]; cbn [fst snd] in Hs, Ha |- *
    | |- context [ChangeAdminPasswordWithAudit key ?a ?b ?c ?d (Some (adminAuditEntry rq "password_change" ?e)) ?f] =>
        let Hs := fresh in let Ha := fresh in pose proof (change_known a b c d rq e f) as Hs; destruct (ChangeAdminPasswordWithAudit _ _ _ _ _ _ _) as [[?|?] ?]; destruct Hs as [Hs Ha]
    | |- context [CreateAPIKeyWithAudit key ?a ?b ?c ?d ?e (Some (adminAuditEntry rq "api_key_create" ?f)) ?g] =>
        let Hs := fresh in let Ha := fresh in pose proof (create_known a b c d e rq f g) as Hs; destruct (CreateAPIKeyWithAudit _ _ _ _ _ _ _ _) as [[?|?] ?]; destruct Hs as [Hs Ha]
    | |- context [RevokeAPIKeyWithAudit key ?a ?b ?c (Some ?d) ?e] =>
        let Hs := fresh in pose proof (revoke_known a b c d e) as Hs; destruct (RevokeAPIKeyWithAudit _ _ _ _ _ _) as [[?|?] ?]; cbn [snd] in Hs
    | |- context [DeleteAPIKeyWithAudit key ?a ?b (Some ?c) ?d] =>
        let Hs := fresh in pose proof (delete_known a b c d) as Hs; destruct (DeleteAPIKeyWithAudit _ _ _ _ _) as [[?|?] ?]; cbn [snd] in Hs
    | |- context [match ?x with _ => _ end] => lazymatch x with context [match _ with _ => _ end] => fail | _ => destruct x eqn:? end
    end;
    try (split; [done|]; unfold locked_response, gate_error; rewrite ?Hkind; exact I);
    try (split; [done|]; apply Hmore; done).
  - split; [done|]. cbn. match goal with H : negb _ = false |- _ => by apply negb_false_iff, bool_decide_eq_true in H end.
  - split; [done|]. cbn. split; [exact Hk|by apply Hnow].
  - split; [done|]. cbn. destruct Hk as [Hu Ha]. split; [done|]. exists a. split; [by apply Hseen|done].
  - split; [done|]. apply (Hmore (store h)). done.
  - split; [done|]. split; [apply (Hmore (store h)); done|by auto].
  - split; [done|]. apply (Hmore (store h)). done.
  - split; [done|]. cbn. apply Hnow. by destruct (tkFault tk).
  - split; [done|]. cbn. exists a. split; [by apply Hseen|]. match goal with H : negb _ = false |- _ => by apply negb_false_iff in H end.
  - split; [done|]. split; [apply (Hmore (store h)); done|]. cbn. eauto.
  - split; [done|]. split; [done|]. split; [done|]. exists i, tk. split; [apply elem_of_app; right; by left|done].
  - split; [done|]. split; [apply (Hmore (store h)); done|]. apply Hnow. by destruct (tkFault tk).
  - split; [done|]. destruct (Hmore (store h)) as [Hask Ha]; [done|]. split; [done|]. by exists a.
  - split; [done|]. apply (Hmore (store h)). done.
  - split; [done|]. split; [apply (Hmore (store h)); done|]. cbn. eauto.
Qed.

(** ** Where API keys come from *)

Definition holds_key (p : phase) (id : Z) : Prop :=
  match p with PKeyFlash _ id' _ | PDone (RKeyCreated id') => id' = id | _ => False end.

(** A key and the same key after a revocation. *)
Definition same_key (k k' : APIKey) : Prop :=
  keyID k' = keyID k /\ keyName k' = keyName k /\ KeyHash k' = KeyHash k /\ ExpiresAt k' = ExpiresAt k.

Lemma same_key_refl k : same_key k k.
Proof. done. Qed.

Lemma insert_audit_keys now audit st : apiKeys (insertAdminAuditLogLocked key now audit st) = apiKeys st.
Proof. unfold insertAdminAuditLogLocked. destruct audit as [e|]; [|done]. by case_bool_decide. Qed.

Lemma auditLog_keys rq action details tk h : apiKeys (store (auditLog_ key rq action details tk h).2) = apiKeys (store h).
Proof. unfold auditLog_. destruct (tkFault tk); [done|]. apply insert_audit_keys. Qed.

Lemma change_keys now now' newHash oldHash audit st :
  apiKeys (ChangeAdminPasswordWithAudit key now now' newHash oldHash audit st).2 = apiKeys st.
Proof.
  unfold ChangeAdminPasswordWithAudit. destruct (adminAuth st) as [a|]; [|done]. case_bool_decide; [|done]. cbn.
  unfold upsertAdminAuthLocked. destruct (adminAuth _); apply insert_audit_keys.
Qed.

Lemma create_keys now now' name hash e audit st :
  let '(r, st') := CreateAPIKeyWithAudit key now now' name hash e audit st in
  match r with
  | inl _ => apiKeys st' = apiKeys st
  | inr id => exists k, apiKeys st' = apiKeys st ++ [k] /\ keyID k = id /\ keyName k = name /\ KeyHash k = hash /\ ExpiresAt k = e
  end.
Proof.
  unfold CreateAPIKeyWithAudit. destruct (SetAdminAuditDetail _ _ _) as [audit'|]; [|done].
  pose proof (insert_audit_keys now audit' st) as H. set (st1 := insertAdminAuditLogLocked _ _ _ _) in *. clearbody st1.
  cbn. rewrite H. by eexists.
Qed.

Lemma revoke_keys now now' id entry st k' :
  k' ∈ apiKeys (RevokeAPIKeyWithAudit key now now' id (Some entry) st).2 -> exists k, k ∈ apiKeys st /\ same_key k k'.
Proof.
  unfold RevokeAPIKeyWithAudit. destruct (revocable id st) as [|[i k]] eqn:E; [intros H; exists k'; by split|].
  unfold revocable in E. destruct (key_index id st) as [j|]; [|done]. destruct (apiKeys st !! j) as [k0|] eqn:Ej; [|done].
  destruct (negb (bool_decide (RevokedAt k0 = None))); [done|]. destruct (negb (bool_decide (DeletedAt k0 = None))); [done|]. injection E as -> ->.
  pose proof (insert_audit_keys now (Some entry) st) as H. set (st1 := insertAdminAuditLogLocked _ _ _ _) in *. clearbody st1. cbn. rewrite H.
  intros [m Hm]%list_elem_of_lookup. apply list_lookup_insert_Some in Hm as [(<- & <- & _)|[_ Hm]].
  - exists k. split; [by eapply list_elem_of_lookup_2|done].
  - exists k'. split; [by eapply list_elem_of_lookup_2|done].
Qed.

Lemma delete_keys now id entry st k' :
  k' ∈ apiKeys (DeleteAPIKeyWithAudit key now id (Some entry) st).2 -> k' ∈ apiKeys st.
Proof.
  unfold DeleteAPIKeyWithAudit. destruct (deletable id st) as [|i] eqn:E; [done|].
  pose proof (insert_audit_keys now (Some entry) st) as H. set (st1 := insertAdminAuditLogLocked _ _ _ _) in *. clearbody st1. cbn. rewrite H.
  apply list_elem_of_delete_inv.
Qed.

(** A step keeps the keys, up to revocation, or stores the key of the request. *)
Definition key_step (rq : admin_request) (p : phase) (st : Store) (p' : phase) (st' : Store) : Prop :=
  (forall id, holds_key p id -> holds_key p' id) /\
  forall k', k' ∈ apiKeys st' ->
    (exists k, k ∈ apiKeys st /\ same_key k k') \/
    (holds_key p' (keyID k') /\ exists x name e, p = PKeyStore x name e /\ keyName k' = name /\ ExpiresAt k' = Some e).

Lemma key_step_same rq p st p' st' : (forall id, holds_key p id -> holds_key p' id) -> apiKeys st' = apiKeys st -> key_step rq p st p' st'.
Proof. intros H1 H2. split; [done|]. intros k' Hk'. left. exists k'. rewrite <- H2. by split. Qed.

Lemma lock_check_keys rq tk h go : apiKeys (store (lock_check rq tk h go).2) = apiKeys (store h).
Proof. by rewrite (proj1 (lock_check_store rq tk h go)). Qed.

Lemma step_keys rq p tk h :
  let '(p', h') := step_phase key rq p tk h in key_step rq p (store h) p' (store h').
Proof.
  destruct p; unfold_steps;
    destruct (rqKind rq) eqn:Hkind; try (apply key_step_same; done);
    repeat match goal with
    | |- context [lock_check rq tk h ?go] =>
        let Hs := fresh in pose proof (lock_check_keys rq tk h go) as Hs; destruct (lock_check rq tk h go) as [? ?]; cbn [snd] in Hs
    | |- context [auditLog_ key rq ?a ?d tk h] =>
        let Hs := fresh in pose proof (auditLog_keys rq a d tk h) as Hs; destruct (auditLog_ key rq a d tk h) as [[] ?]; cbn [snd] in Hs |- *
    | |- context [ChangeAdminPasswordWithAudit key ?a ?b ?c ?d ?e ?f] =>
        let Hs := fresh in pose proof (change_keys a b c d e f) as Hs; destruct (ChangeAdminPasswordWithAudit _ _ _ _ _ _ _) as [[?|?] ?]; cbn [snd] in Hs
    | |- context [match ?x with _ => _ end] =>
        lazymatch x with
        | context [match _ with _ => _ end] => fail
        | CreateAPIKeyWithAudit _ _ _ _ _ _ _ _ => fail
        | RevokeAPIKeyWithAudit _ _ _ _ _ _ => fail
        | DeleteAPIKeyWithAudit _ _ _ _ _ => fail
        | _ => destruct x eqn:?
        end
    end;
    try (apply key_step_same; [done|done]).
  - match goal with |- context [CreateAPIKeyWithAudit key ?a ?b ?c ?d ?e ?f ?g] =>
      pose proof (create_keys a b c d e f g) as Hc; destruct (CreateAPIKeyWithAudit _ _ _ _ _ _ _ _) as [[err|id] st'] end.
    { by apply key_step_same. }
    destruct Hc as (k & Hkeys & Hid & Hname & _ & Hexp). split; [done|]. intros k' Hk'. cbn in Hk'. rewrite Hkeys in Hk'.
    apply elem_of_app in Hk' as [Hk'|Hk']; [left; exists k'; by split|]. apply list_elem_of_singleton in Hk' as ->.
    right. split; [done|]. by exists x, name, expiresAt.
  - match goal with |- context [RevokeAPIKeyWithAudit key ?a ?b ?c (Some ?d) ?e] =>
      pose proof (fun k' => revoke_keys a b c d e k') as Hc; destruct (RevokeAPIKeyWithAudit _ _ _ _ _ _) as [[err|u] st'] end;
      (split; [done|]; intros k' Hk'; left; by apply Hc).
  - match goal with |- context [DeleteAPIKeyWithAudit key ?a ?b (Some ?c) ?d] =>
      pose proof (fun k' => delete_keys a b c d k') as Hc; destruct (DeleteAPIKeyWithAudit _ _ _ _ _) as [[err|u] st'] end;
      (split; [done|]; intros k' Hk'; left; exists k'; split; [by apply Hc|done]).
Qed.

(** The key was there at the start, or a request answers for it. *)
Definition key_accounted (es : list event) (s : AdminSystem) (k : APIKey) : Prop :=
  (exists k0, k0 ∈ apiKeys (store (handler s0)) /\ same_key k0 k) \/
  exists i rq p, requests s !! i = Some (rq, p) /\ holds_key p (keyID k) /\
    exists e, asked_key es rq (keyName k) e /\ ExpiresAt k = Some e.

Lemma key_accounted_more es e s s' k k' :
  same_key k k' -> (forall i rq p, requests s !! i = Some (rq, p) -> exists p', requests s' !! i = Some (rq, p') /\ (forall id, holds_key p id -> holds_key p' id)) ->
  key_accounted es s k -> key_accounted (es ++ [e]) s' k'.
Proof.
  intros (E1 & E2 & E3 & E4) Hreq [(k0 & Hk0 & F1 & F2 & F3 & F4)|(i & rq & p & Hi & Hp & e' & Ha & He)].
  - left. exists k0. split; [done|]. unfold same_key. by rewrite E1, E2, E3, E4.
  - right. destruct (Hreq i rq p Hi) as (p' & Hi' & Hp'). exists i, rq, p'. split; [done|]. rewrite E1, E2, E4.
    split; [by apply Hp'|]. exists e'. split; [by apply asked_more|done].
Qed.

Lemma keys_step es ev : 
  (forall i rq p, requests (run key es s0) !! i = Some (rq, p) -> known es (store (handler (run key es s0))) rq p) ->
  (forall k, k ∈ apiKeys (store (handler (run key es s0))) -> key_accounted es (run key es s0) k) ->
  forall k, k ∈ apiKeys (store (handler (exec key ev (run key es s0)))) -> key_accounted (es ++ [ev]) (exec key ev (run key es s0)) k.
Proof.
  intros Hknown Hkeys. set (s := run key es s0) in *.
  assert (forall s' k, (forall i rq p, requests s !! i = Some (rq, p) -> requests s' !! i = Some (rq, p)) ->
    k ∈ apiKeys (store (handler s)) -> key_accounted (es ++ [ev]) s' k) as Hsame.
  { intros s' k Hreq Hk. apply (key_accounted_more _ _ s _ k); [done| |by apply Hkeys]. intros i rq p Hi. exists p. auto. }
  destruct ev as [rq0|j tk|now|now]; cbn [exec].
  - intros k Hk. apply Hsame; [|done]. intros i rq p Hi. by apply lookup_app_l_Some.
  - destruct (requests s !! j) as [[rq p]|] eqn:Ej; [|intros k Hk; by apply Hsame].
    pose proof (step_keys rq p tk (handler s)) as Hstep. destruct (step_phase key rq p tk (handler s)) as [p' h']. destruct Hstep as [Hp Hk'].
    intros k Hk. set (s' := mk_system h' _). assert (requests s' !! j = Some (rq, p')) as Hj by (apply list_lookup_insert_eq; by eapply lookup_lt_Some).
    destruct (Hk' k Hk) as [(k0 & Hk0 & Hsk)|(Hh & x & name & e & -> & Hn & He)].
    + apply (key_accounted_more _ _ s _ k0); [done| |by apply Hkeys]. intros i rq1 p1 Hi. destruct (decide (j = i)) as [<-|Hne].
      * rewrite Ej in Hi. injection Hi as <- <-. by exists p'.
      * exists p1. split; [|done]. unfold s'. cbn [requests]. by rewrite list_lookup_insert_ne.
    + right. exists j, rq, p'. split; [done|]. split; [done|]. exists e. split; [|done]. rewrite Hn. apply asked_more.
      by destruct (Hknown j rq _ Ej).
  - intros k Hk. by apply Hsame.
  - intros k Hk. by apply Hsame.
Qed.

(** Every request is as far as its phase says, and every admin session has a
    request that answers for it. *)
Definition accounted (es : list event) : Prop :=
  let s := run key es s0 in
  (forall i rq p, requests s !! i = Some (rq, p) -> known es (store (handler s)) rq p) /\
  (forall id, admin_id (sm (handler s)) id -> exists i rq p, requests s !! i = Some (rq, p) /\ holds p id).

Lemma run_snoc es e : run key (es ++ [e]) s0 = exec key e (run key es s0).
Proof. unfold run. by rewrite fold_left_app. Qed.

Lemma known_step es e :
  (forall i rq p, requests (run key es s0) !! i = Some (rq, p) -> known es (store (handler (run key es s0))) rq p) ->
  forall i rq p, requests (exec key e (run key es s0)) !! i = Some (rq, p) ->
    known (es ++ [e]) (store (handler (exec key e (run key es s0)))) rq p.
Proof.
  intros Hknown. set (s := run key es s0) in *.
  assert (forall st i rq p, auditLog (store (handler s)) ⊆ auditLog st -> requests s !! i = Some (rq, p) -> known (es ++ [e]) st rq p) as Hmore.
  { intros st i rq p Hsub Hi. apply (known_more _ _ (store (handler s))); [done|by apply (Hknown i)]. }
  destruct e as [rq0|j tk|now|now]; cbn [exec requests handler]; intros i rq p Hi; try (by apply (Hmore _ i)).
  - apply lookup_app_Some in Hi as [Hi|[_ Hi]]; [by apply (Hmore _ i)|]. by apply list_lookup_singleton_Some in Hi as [_ [= <- <-]].
  - destruct (requests s !! j) as [[rq' p1]|] eqn:Ej; [|by apply (Hmore _ i)].
    pose proof (step_known es j rq' p1 tk (Hknown j rq' p1 Ej)) as Hstep. fold s in Hstep.
    destruct (step_phase key rq' p1 tk (handler s)) as [p' h']. destruct Hstep as [Hlog Hk']. cbn [requests handler] in Hi |- *.
    destruct (decide (j = i)) as [<-|Hne].
    + rewrite list_lookup_insert_eq in Hi by (by eapply lookup_lt_Some). by injection Hi as <- <-.
    + rewrite list_lookup_insert_ne in Hi by done. by apply (Hmore _ i).
Qed.

Lemma held_step es e :
  (forall id, admin_id (sm (handler (run key es s0))) id -> exists i rq p, requests (run key es s0) !! i = Some (rq, p) /\ holds p id) ->
  forall id, admin_id (sm (handler (exec key e (run key es s0)))) id ->
    exists i rq p, requests (exec key e (run key es s0)) !! i = Some (rq, p) /\ holds p id.
Proof.
  intros Hheld. set (s := run key es s0) in *. destruct e as [rq0|j tk|now|now]; cbn [exec requests handler]; intros id Hid; try (by apply Hheld).
  - destruct (Hheld id Hid) as (i & rq & p & Hi & Hp). exists i, rq, p. split; [|done]. by apply lookup_app_l_Some.
  - destruct (requests s !! j) as [[rq p]|] eqn:Ej; [|by apply Hheld].
    pose proof (step_sessions rq p tk (handler s)) as Hsess. destruct (step_phase key rq p tk (handler s)) as [p' h']. cbn [requests handler] in Hid |- *.
    assert (<[j := (rq, p')]> (requests s) !! j = Some (rq, p')) as Hj by (apply list_lookup_insert_eq; by eapply lookup_lt_Some).
    destruct (Hsess id Hid) as [Hh|[Hid0 Hh]]; [by exists j, rq, p'|].
    destruct (Hheld id Hid0) as (i & rq1 & p1 & Hi & Hp1). destruct (decide (j = i)) as [<-|Hne].
    + exists j, rq, p'. split; [done|]. apply Hh. rewrite Ej in Hi. by injection Hi as <- <-.
    + exists i, rq1, p1. by rewrite list_lookup_insert_ne.
  - apply Hheld. apply (cleanup_admin now). exact Hid.
Qed.

Lemma accounted_step es e : accounted es -> accounted (es ++ [e]).
Proof. intros [Hknown Hheld]. unfold accounted. rewrite run_snoc. split; [by apply known_step|by apply held_step]. Qed.
End origins.

(** C20: however requests are interleaved and whatever fails, an admin session
    comes from a request of its own: a login with the username admin and a
    password that matched a credential the store had, or a password change with
    the current password.  Once the request is over, the success is in the audit
    log; a session whose login could not be recorded belongs to a request that
    is about to revoke it. *)
Theorem admin_sessions_accounted {C : AuditCrypto} (key : string) {PW : Passwords} (m : SessionManager) (st : Store) (es : list event) :
  (forall id, ~ admin_id m id) ->
  let s0 := mk_system (mk_handler m no_attempts st) [] in
  let s := run key es s0 in
  forall id, admin_id (sm (handler s)) id ->
  exists i rq p, requests s !! i = Some (rq, p) /\
    (logged_in key s0 es rq /\
       ((exists a, p = PSuccessAudit a id) \/ p = PRollback id \/
        ((p = PReset id \/ exists target, p = PDone (RLoggedIn target id)) /\ audited "login_success" rq (store (handler s)))) \/
     confirmed key s0 es rq /\ p = PDone (RPasswordChanged id) /\ audited "password_change" rq (store (handler s))).
Proof.
  intros Hm s0 s id Hid. assert (accounted key s0 es) as [Hknown Hheld].
  { unfold s in *. clear s id Hid. induction es as [|e es IH] using rev_ind; [|by apply accounted_step].
    split; [by intros i rq p ?|]. intros id Hid. by destruct (Hm id). }
  destruct (Hheld id Hid) as (i & rq & p & Hi & Hp). specialize (Hknown i rq p Hi). exists i, rq, p. split; [done|].
  destruct p; try (match goal with r : admin_response |- _ => destruct r end); try done; cbn in Hp, Hknown; subst;
    [left|left|left|left|right]; naive_solver.
Qed.

(** C21: however requests are interleaved and whatever fails, an API key that was
    not there at the start was created by a request whose password matched a
    credential the store had: it has the name the request asked for, 1 to 128
    characters without surrounding space, it expires at a whole second within 365
    days of a clock reading of the run, and the audit log has its creation from
    that address.  The keys of the start keep their names, hashes and expiries. *)
Theorem api_keys_accounted {C : AuditCrypto} (key : string) {PW : Passwords} (h0 : AdminHandler) (es : list event) :
  let s0 := mk_system h0 [] in
  let s := run key es s0 in
  forall k, k ∈ apiKeys (store (handler s)) ->
  (exists k0, k0 ∈ apiKeys (store h0) /\ same_key k0 k) \/
  exists i rq p, requests s !! i = Some (rq, p) /\ holds_key p (keyID k) /\ rqKind rq = KeyCreate /\
    confirmed key s0 es rq /\ audited "api_key_create" rq (store (handler s)) /\
    keyName k = TrimSpace (fName (fKey (form_of rq))) /\ 1 <= RuneCountInString (keyName k) <= 128 /\
    exists e j tk, ExpiresAt k = Some e /\ Run j tk ∈ es /\ tkNow tk < e <= tkNow tk + 365 * Day /\ e mod Second = 0.
Proof.
  intros s0 s k Hk.
  assert ((forall i rq p, requests s !! i = Some (rq, p) -> known key s0 es (store (handler s)) rq p) /\
    forall k, k ∈ apiKeys (store (handler s)) -> key_accounted s0 es s k) as [Hknown Hkeys].
  { unfold s. clear s k Hk. induction es as [|e es [IH1 IH2]] using rev_ind.
    - split; [by intros i rq p ?|]. intros k Hk. left. exists k. by split.
    - rewrite run_snoc. split; [by apply known_step|]. by apply keys_step. }
  destruct (Hkeys k Hk) as [H|(i & rq & p & Hi & Hp & e & (Hkind & Hname & j & tk & Hj & He) & Hexp)]; [by left|right].
  apply normalized_name in Hname as (-> & Hne & Hlen). apply expiry_bounds in He as [He Hmod].
  exists i, rq, p. split; [done|]. split; [done|]. split; [done|]. specialize (Hknown i rq p Hi).
  assert (confirmed key s0 es rq /\ audited "api_key_create" rq (store (handler s))) as [Hc Ha].
  { destruct p; try (match goal with r : admin_response |- _ => destruct r end); done. }
  split; [done|]. split; [done|]. split; [done|]. split; [|by exists e, j, tk]. split; [|done]. by apply rune_count_pos.
Qed.

(** ** Runs *)

#[local] Instance login_crypto : AuditCrypto := {| sha256_hex := fun s => s; hmac_hex := fun k s => s |}.

#[local] Instance text_passwords : Passwords :=
  {| CheckPassword := fun hash password => bool_decide (hash = "#" +:+ password); HashPassword := fun _ password => Some ("#" +:+ password) |}.

Definition first_store : Store := UpsertAdminAuth 1 "#old password 1" false NewStore.

Definition first_manager : SessionManager := NewSessionManagerWithIdleTimeout 0 0 true.

Definition first_system : AdminSystem := mk_system (mk_handler first_manager no_attempts first_store) [].

Definition no_key : key_form := mk_key_form "" "" "" "" "" "".

Definition login (cookie : option string) (token username password : string) : admin_request :=
  mk_request LoginPost "10.0.0.1" "c" cookie (inr (mk_form token username password "" "" "" "" no_key)) "" "" "/admin/login".

Definition change (cookie : option string) (token current new : string) : admin_request :=
  mk_request PasswordPost "10.0.0.2" "c" cookie (inr (mk_form token "" "" "" current new new no_key)) "" "" "/admin/settings/password".

(** [k] steps of a request at a time. *)
Definition steps (i k : nat) (t : Time) (rand : string) : list event :=
  replicate k (Run i (mk_tick t t (Some rand) "" NoFault)).

(** The login page, opened by request [i]: session and token [rand]. *)
Definition open_page (i : nat) (t : Time) (rand : string) : list event :=
  Arrive (mk_request LoginGet "10.0.0.1" "c" None (inr (mk_form "" "" "" "" "" "" "" no_key)) "" "" "/admin/login") :: steps i 4 t rand.

(** A complete attempt: the page and the form. *)
Definition attempt (i : nat) (t : Time) (rand password : string) : list event :=
  open_page i t rand ++ Arrive (login (Some rand) rand "admin" password) :: steps (S i) 12 t rand.

(** Six wrong attempts, one after the other. *)
Definition six_attempts : list event :=
  attempt 0 1000 "a" "x" ++ attempt 2 2000 "b" "x" ++ attempt 4 3000 "c" "x" ++ attempt 6 4000 "d" "x" ++ attempt 8 5000 "e" "x" ++
  attempt 10 6000 "f" "x".

Definition quiet_b (key : string) (n : nat) : list event -> AdminSystem -> bool :=
  fix go es s := (in_flight s <=? n)%nat && match es with [] => true | e :: es => negb (clears e s) && go es (exec key e s) end.

Lemma quiet_b_ok key n es s : quiet_b key n es s = true -> quiet key n es s.
Proof.
  revert s. induction es as [|e es IH]; intros s; cbn; rewrite andb_true_iff, Nat.leb_le; [by intros [? _]|].
  rewrite andb_true_iff, negb_true_iff. intros (? & ? & ?). auto.
Qed.

(** [login_guesses_bounded] on six attempts: the sixth is not compared. *)
Lemma login_guesses_bounded_witness :
  guesses "" six_attempts first_system = 5%nat /\ (guesses "" six_attempts first_system <= 4 + 1 + in_flight (run "" [] first_system))%nat.
Proof.
  split; [by vm_compute|].
  apply (login_guesses_bounded "" first_manager first_store [] six_attempts 1000 1); [done|by constructor| |].
  - repeat (constructor; [vm_compute; done|]). constructor.
  - apply quiet_b_ok. by vm_compute.
Defined.

(** A login, and a password change under it. *)
Definition login_run : list event := attempt 0 1000 "a" "old password 1".

(** [admin_sessions_accounted] after a login. *)
Lemma admin_sessions_accounted_witness :
  exists i rq p, requests (run "" login_run first_system) !! i = Some (rq, p) /\
    (logged_in "" first_system login_run rq /\
       ((exists a, p = PSuccessAudit a "a") \/ p = PRollback "a" \/
        ((p = PReset "a" \/ exists target, p = PDone (RLoggedIn target "a")) /\
         audited "login_success" rq (store (handler (run "" login_run first_system))))) \/
     confirmed "" first_system login_run rq /\ p = PDone (RPasswordChanged "a") /\
       audited "password_change" rq (store (handler (run "" login_run first_system)))).
Proof.
  apply (admin_sessions_accounted "" first_manager first_store login_run).
  - intros id (x & Hx & _). change (sessions first_manager) with (∅ : gmap string Session) in Hx. by rewrite lookup_empty in Hx.
  - vm_compute. by eexists.
Defined.

(** A login, the page of the keys, a key created. *)
Definition create_key (cookie : option string) (token current name days nonce : string) : admin_request :=
  mk_request KeyCreate "10.0.0.3" "c" cookie (inr (mk_form token "" "" "" current "" "" (mk_key_form name days "" nonce "" ""))) "" ""
    "/admin/keys/create".

Definition key_run : list event :=
  login_run ++
  Arrive (mk_request KeysGet "10.0.0.3" "c" (Some "a") (inr (mk_form "" "" "" "" "" "" "" no_key)) "" "" "/admin/keys") :: steps 2 5 1500 "token" ++
  Arrive (create_key (Some "a") "token" "old password 1" " ci " "30" "token") :: steps 3 13 2000 "secret".

Definition first_key : APIKey := mk_key 1 "ci" "secret" 2000 None None (Some (30 * Day)) None.

(** [api_keys_accounted] for the key a request created. *)
Lemma api_keys_accounted_witness :
  let s := run "" key_run first_system in
  apiKeys (store (handler s)) = [first_key] /\
  ((exists k0, k0 ∈ apiKeys first_store /\ same_key k0 first_key) \/
   exists i rq p, requests s !! i = Some (rq, p) /\ holds_key p 1 /\ rqKind rq = KeyCreate /\
     confirmed "" first_system key_run rq /\ audited "api_key_create" rq (store (handler s)) /\
     "ci" = TrimSpace (fName (fKey (form_of rq))) /\ 1 <= RuneCountInString "ci" <= 128 /\
     exists e j tk, Some (30 * Day) = Some e /\ Run j tk ∈ key_run /\ tkNow tk < e <= tkNow tk + 365 * Day /\ e mod Second = 0).
Proof.
  assert (apiKeys (store (handler (run "" key_run first_system))) = [first_key]) as Hkeys by (by vm_compute).
  split; [exact Hkeys|]. apply (api_keys_accounted "" (mk_handler first_manager no_attempts first_store) key_run first_key).
  change (first_key ∈ apiKeys (store (handler (run "" key_run first_system)))). rewrite Hkeys. by left.
Defined.

(** A login compares the old password; the password is changed and the admin
    sessions are rotated; then the login creates its session. *)
Definition racing_run : list event :=
  login_run ++
  Arrive (mk_request PageGet "10.0.0.2" "c" (Some "a") (inr (mk_form "" "" "" "" "" "" "" no_key)) "" "" "/admin/settings") :: steps 2 2 1500 "token a" ++
  open_page 3 2000 "b" ++ Arrive (login (Some "b") "b" "admin" "old password 1") :: steps 4 6 2000 "b" ++
  Arrive (change (Some "a") "token a" "old password 1" "new password 2") :: steps 5 8 3000 "c" ++ steps 4 4 4000 "b2".

(** The session that the old password opened outlives the change. *)
Lemma old_password_survives_change :
  let s := run "" racing_run first_system in
  snd <$> requests s !! 5%nat = Some (PDone (RPasswordChanged "c")) /\
  PasswordHash <$> GetAdminAuth (store (handler s)) = Some "#new password 2" /\
  snd <$> requests s !! 4%nat = Some (PDone (RLoggedIn "/admin/" "b2")) /\
  Admin <$> sessions (sm (handler s)) !! "b2" = Some true.
Proof. vm_compute. repeat split. Qed.
