(* ===== verification/ApiAuth.v ===== *)
(** Authentication of API requests: AuthWithLastUsedUpdater of
    internal/server/middleware/auth.go, internal/server/api_key_auth.go and
    internal/auth/api_key.go, on the in-memory store.  Logging is left out. *)
From stdpp Require Import base list option strings gmap.
From Stdlib Require Import ZArith Lia.
From S2P Require Import Prelude GoStrings GoTime AuditLog DevStore ClientAddr LastUsed.
Open Scope Z_scope.

Definition skipAuth : list string := [].

(** An empty method or suffix is any. *)
Record devAuthRule := mk_rule { ruleMethod : string; rulePrefix : string; ruleSuffix : string }.

Definition requireAuthEvenInDev : list devAuthRule :=
  [mk_rule "" "/api/v1/feeds/" ""; mk_rule "POST" "/api/v1/packages/" "/refresh"].

Definition requiresAuthInDev (method path : string) : bool :=
  existsb (fun rule =>
    (bool_decide (ruleMethod rule = "") || bool_decide (method = ruleMethod rule)) && HasPrefix path (rulePrefix rule) &&
    (bool_decide (ruleSuffix rule = "") || HasSuffix path (ruleSuffix rule)) && negb (bool_decide (rulePrefix rule = "")))
    requireAuthEvenInDev.

(** The lines of the Authorization header. *)
Record api_request := mk_api_request { rMethod : string; rPath : string; rAuthorization : list string; rPeer : peer_request }.

Definition extractBearerToken (r : api_request) : string :=
  let h := header_get (rAuthorization r) in
  if bool_decide (h = "") then "" else if negb (HasPrefix h "Bearer ") then "" else TrimSpace (str_drop 7 h).

Record APIKeyCredential := mk_credential { credID : Z; credName : string; credExpiresAt : option Time }.

Definition credential_expired (k : APIKeyCredential) (now : Time) : bool :=
  match credExpiresAt k with Some t => negb (After t now) | None => false end.

Record APIKeyIdentity := mk_identity { identityID : Z; identityName : string }.

(** [Next]: the handler runs, with the identity in its context. *)
Inductive auth_result := Next (identity : option APIKeyIdentity) | Reject (status : Z) (message : string).

Section auth.
Context {U : UnicodeCase} {C : AuditCrypto}.

Definition hashToken (token : string) : string := sha256_hex token.

Definition FindAPIKeyCredentialByHash (now : Time) (keyHash : string) (s : Store) : option APIKeyCredential :=
  (fun k => mk_credential (keyID k) (keyName k) (ExpiresAt k)) <$> FindAPIKeyByHash now keyHash s.

(** [fault]: the store fails.  The clock is read by the store, for the expiry and
    by the updater. *)
Definition Auth (trusted : list string) (devMode fault : bool) (now now' now'' : Time) (r : api_request) (s : Store) (u : Updater)
    : auth_result * Updater :=
  if negb (HasPrefix (rPath r) "/api/v1/") then (Next None, u)
  else if existsb (HasPrefix (rPath r)) skipAuth then (Next None, u)
  else if devMode && (negb (requiresAuthInDev (rMethod r) (rPath r)) || IsLoopbackHost (ClientIP trusted (rPeer r))) then (Next None, u)
  else
    let token := extractBearerToken r in
    if bool_decide (token = "") then (Reject 401 "missing or invalid Authorization header", u)
    else if fault then (Reject 500 "internal server error", u)
    else match FindAPIKeyCredentialByHash now (hashToken token) s with
         | None => (Reject 401 "invalid api key", u)
         | Some k =>
             if credential_expired k now' then (Reject 401 "invalid api key", u)
             else (Next (Some (mk_identity (credID k) (credName k))), (Enqueue (credID k) now'' u).2)
         end.

(** The request is let through without a key: it is not for the API, or the
    server runs in development mode and the request does not write or comes from
    the machine itself. *)
Definition open_request (trusted : list string) (devMode : bool) (r : api_request) : Prop :=
  HasPrefix (rPath r) "/api/v1/" = false \/
  devMode = true /\ (requiresAuthInDev (rMethod r) (rPath r) = false \/ IsLoopbackHost (ClientIP trusted (rPeer r)) = true).

(** The key is the one of the token, and alive at both readings of the clock. *)
Definition live_key (now now' : Time) (token : string) (k : APIKey) : Prop :=
  KeyHash k = hashToken token /\ RevokedAt k = None /\ DeletedAt k = None /\ IsExpired k now = false /\ IsExpired k now' = false.

Lemma found_key now hash s k : FindAPIKeyByHash now hash s = Some k ->
  k ∈ apiKeys s /\ KeyHash k = hash /\ RevokedAt k = None /\ DeletedAt k = None /\ IsExpired k now = false.
Proof.
  intros [Hin Hk]%find_some. unfold usable in Hk. rewrite !andb_true_iff, !bool_decide_eq_true, negb_true_iff in Hk.
  split; [by apply list_elem_of_In|]. tauto.
Qed.

Lemma found_none now hash s k : FindAPIKeyByHash now hash s = None -> k ∈ apiKeys s -> KeyHash k = hash -> usable now k = false.
Proof.
  intros Hn Hin Hk. pose proof (find_none _ _ Hn k) as H. cbn in H. rewrite bool_decide_true, andb_true_r in H by done.
  apply H. by apply list_elem_of_In.
Qed.

Lemma same_image {A B} (f : A -> B) (l : list A) x y : NoDup (f <$> l) -> x ∈ l -> y ∈ l -> f x = f y -> x = y.
Proof.
  intros Hn [i Hi]%list_elem_of_lookup [j Hj]%list_elem_of_lookup E.
  assert (i = j) as ->; [|congruence]. apply (NoDup_lookup (f <$> l) i j (f x)); [done|by rewrite list_lookup_fmap, Hi|by rewrite list_lookup_fmap, Hj, E].
Qed.

(** C18: the API is closed.  A request reaches its handler without an identity
    exactly when it is open, and otherwise exactly with a bearer token that hashes
    to a key of the store that is neither revoked, deleted nor expired; the
    handler then gets the number and the name of that key, and its use is
    enqueued.  Everything else is refused with 401, or with 500 when the store
    fails, and leaves the updater as it was.  The hashes of the store are those of
    different keys. *)
Theorem api_requests_authenticated (trusted : list string) (devMode fault : bool) (now now' now'' : Time) (r : api_request) (s : Store)
    (u : Updater) :
  NoDup (KeyHash <$> apiKeys s) ->
  let '(result, u') := Auth trusted devMode fault now now' now'' r s u in
  let token := extractBearerToken r in
  (result = Next None <-> open_request trusted devMode r) /\
  (forall identity, result = Next (Some identity) <->
     ~ open_request trusted devMode r /\ token <> "" /\ fault = false /\
     exists k, k ∈ apiKeys s /\ live_key now now' token k /\ identity = mk_identity (keyID k) (keyName k)) /\
  (forall identity, result = Next (Some identity) -> u' = (Enqueue (identityID identity) now'' u).2) /\
  (forall status message, result = Reject status message ->
     u' = u /\ (status = 401 \/ status = 500 /\ fault = true)).
Proof.
  intros Hnodup. unfold Auth. destruct (HasPrefix (rPath r) "/api/v1/") eqn:Hapi; cbn [negb].
  2: { assert (open_request trusted devMode r) as Ho by (by left). split; [done|]. split; [|done]. intros identity. split; [done|tauto]. }
  cbn [existsb skipAuth]. destruct (devMode && _) eqn:Hdev.
  { assert (open_request trusted devMode r) as Ho.
    { right. apply andb_true_iff in Hdev as [-> Hdev]. split; [done|]. apply orb_true_iff in Hdev as [Hd|Hd]; [left; by apply negb_true_iff|by right]. }
    split; [done|]. split; [|done]. intros identity. split; [done|tauto]. }
  assert (~ open_request trusted devMode r) as Ho.
  { intros [Ho|[-> Ho]]; [congruence|]. rewrite andb_true_l in Hdev. apply orb_false_iff in Hdev as [H1 H2]. apply negb_false_iff in H1. destruct Ho; congruence. }
  case_bool_decide as Htoken; [split; [done|]; split; [intros identity; split; [done|tauto]|]; split; [done|]; intros ? ? [= <- _]; auto|].
  destruct fault; [split; [done|]; split; [intros identity; split; [done|naive_solver]|]; split; [done|]; intros ? ? [= <- _]; auto|].
  unfold FindAPIKeyCredentialByHash. destruct (FindAPIKeyByHash now (hashToken (extractBearerToken r)) s) as [k|] eqn:Hfind; cbn [fmap option_fmap option_map].
  - apply found_key in Hfind as (Hin & Hhash & Hrev & Hdel & Hexp).
    assert (forall k', k' ∈ apiKeys s -> KeyHash k' = KeyHash k -> k' = k) as Hsame by (intros; by apply (same_image KeyHash (apiKeys s))).
    change (credential_expired _ now') with (IsExpired k now'). cbn [credID credName].
    destruct (IsExpired k now') eqn:Hexp'; (split; [done|]).
    + split; [|split; [done|]; intros ? ? [= <- _]; auto]. intros identity. split; [done|].
      intros (_ & _ & _ & k' & Hin' & (Hh' & _ & _ & _ & He') & _). rewrite (Hsame k' Hin' ltac:(congruence)) in He'. congruence.
    + split; [|split; [by intros identity [= <-]|done]]. intros identity. split.
      * intros [= <-]. split; [done|]. split; [done|]. split; [done|]. by exists k.
      * intros (_ & _ & _ & k' & Hin' & (Hh' & _) & ->). by rewrite (Hsame k' Hin' ltac:(congruence)).
  - split; [done|]. split; [|split; [done|]; intros ? ? [= <- _]; auto]. intros identity. split; [done|].
    intros (_ & _ & _ & k' & Hin' & (Hh' & Hr' & Hd' & He' & _) & _). pose proof (found_none _ _ _ k' Hfind Hin' Hh') as Hu. unfold usable in Hu.
    by rewrite !bool_decide_true, He' in Hu.
Qed.
End auth.

(** ** Examples *)

#[local] Instance auth_case : UnicodeCase := plain_case.
#[local] Instance auth_crypto : AuditCrypto := {| sha256_hex := fun s => "#" +:+ s; hmac_hex := fun k s => s |}.

(** A store with a key that expires at [100]. *)
Definition one_key : Store := (CreateAPIKey 1 "ci" "#secret" (Some 100) NewStore).2.

Definition check_request (method path : string) (authorization : list string) : api_request :=
  mk_api_request method path authorization (mk_peer "203.0.113.7:5000" [] []).

(** [api_requests_authenticated] for a request with the key. *)
Lemma api_requests_authenticated_witness :
  let r := check_request "POST" "/api/v1/check" ["Bearer secret"] in
  let '(result, u') := Auth [] false false 50 51 52 r one_key new_updater in
  result = Next (Some (mk_identity 1 "ci")) /\
  (~ open_request [] false r /\ extractBearerToken r <> "" /\ false = false /\
   exists k, k ∈ apiKeys one_key /\ live_key 50 51 (extractBearerToken r) k /\ mk_identity 1 "ci" = mk_identity (keyID k) (keyName k)).
Proof.
  cbv zeta. pose proof (api_requests_authenticated [] false false 50 51 52 (check_request "POST" "/api/v1/check" ["Bearer secret"]) one_key new_updater) as H.
  assert ((Auth [] false false 50 51 52 (check_request "POST" "/api/v1/check" ["Bearer secret"]) one_key new_updater).1 = Next (Some (mk_identity 1 "ci")))
    as Hr by (by vm_compute).
  destruct (Auth _ _ _ _ _ _ _ _ _) as [result u']. cbn [fst] in Hr. subst result.
  destruct H as (_ & H & _); [by apply NoDup_singleton|]. split; [done|]. by apply H.
Defined.

(** Expired, without a key, and in development mode. *)
Example refusals :
  (Auth [] false false 100 100 100 (check_request "POST" "/api/v1/check" ["Bearer secret"]) one_key new_updater).1 = Reject 401 "invalid api key" /\
  (Auth [] false false 50 100 100 (check_request "POST" "/api/v1/check" ["Bearer secret"]) one_key new_updater).1 = Reject 401 "invalid api key" /\
  (Auth [] false false 50 51 52 (check_request "POST" "/api/v1/check" ["bearer secret"]) one_key new_updater).1 =
    Reject 401 "missing or invalid Authorization header" /\
  (Auth [] true false 50 51 52 (check_request "POST" "/api/v1/check" []) one_key new_updater).1 = Next None /\
  (Auth [] true false 50 51 52 (check_request "POST" "/api/v1/packages/npm/x/refresh" []) one_key new_updater).1 =
    Reject 401 "missing or invalid Authorization header" /\
  (Auth [] true false 50 51 52 (check_request "GET" "/api/v1/packages/npm/x/refresh" []) one_key new_updater).1 = Next None.
Proof. vm_compute. repeat split. Qed.
