(* ===== verification/Supervisor.v ===== *)
(** The queue processor: internal/feed/queue.go.

    The processor runs every worker in a goroutine of its own; a goroutine ends
    by sending one result on the channel [done], whose buffer holds as many
    results as there are workers.  The processor's loop receives results,
    restarts workers after a back-off, resets stuck jobs on every tick, and on
    cancellation drains the channel.

    The store behind the processor is the interface [QueueMaintenanceStore]
    with the laws [MaintenanceLaws]; the development store is an instance.
    [sys] is the state of the processor's loop, of the goroutines and of the
    channel; [sys_step] has one constructor for each thing that can happen
    next, so that every interleaving is a sequence of steps.  A worker's own
    work is outside (it is an interface): when and how its Run returns, and
    what it and the other components do to the store meanwhile, is left open.
    A processor without workers only waits for its context and is left out. *)
From stdpp Require Import base list option strings gmap.
From Stdlib Require Import Ascii ZArith Lia.
From S2P Require Import Prelude GoStrings GoTime RefreshStatus DevStore RefreshQueue.

(** ** Restarts *)

Definition maxWorkerRestarts : Z := 3.
Definition defaultPollInterval : Duration := 10 * Second.
Definition defaultStuckThreshold : Duration := 5 * Minute.
Definition workerBackoffs : list Duration := [5 * Second; 30 * Second; 5 * Minute].

Record workerLifecycleState := mk_lifecycle {
  restartCounts : gmap string Z;
  exited : Z;
  total : Z
}.

Record workerRestart := mk_restart { attempts : Z; backoff : Duration }.

Definition newWorkerLifecycleState (workerCount : nat) : workerLifecycleState :=
  mk_lifecycle ∅ 0 (Z.of_nat workerCount).

Definition markExited (s : workerLifecycleState) : workerLifecycleState :=
  mk_lifecycle (restartCounts s) (exited s + 1) (total s).

Definition allWorkersExited (s : workerLifecycleState) : bool := total s <=? exited s.

(** [workerBackoffs] is read at an index below its length. *)
Definition claimRestart (workerName : string) (s : workerLifecycleState)
    : workerRestart * bool * workerLifecycleState :=
  let n := default 0 (restartCounts s !! workerName) in
  if maxWorkerRestarts <=? n then (mk_restart n 0, false, s)
  else (mk_restart (n + 1) (default 0 (workerBackoffs !! Z.to_nat n)), true,
        mk_lifecycle (<[workerName := n + 1]> (restartCounts s)) (exited s) (total s)).

(** ** Results *)

(** The error a worker returned, as far as the processor looks at it. *)
Inductive worker_error := Canceled | OtherError.

Record workerResult := mk_result { resName : string; resErr : option worker_error }.

(** [ctxDone] is [ctx.Err() != nil]. *)
Definition isCanceled (ctxDone : bool) (r : workerResult) : bool :=
  match resErr r with Some Canceled => true | _ => ctxDone end.

(** The registered names; a name not registered is nil. *)
Definition findWorker (workers : list string) (name : string) : option string :=
  List.find (fun w => bool_decide (w = name)) workers.

(** Whether the worker is restarted, after which wait. *)
Definition restartWorker (workers : list string) (r : workerResult) (s : workerLifecycleState)
    : option (string * workerRestart) * workerLifecycleState :=
  let '(restart, ok, s) := claimRestart (resName r) s in
  if negb ok then (None, s)
  else match findWorker workers (resName r) with
       | None => (None, s)
       | Some w => (Some (w, restart), s)
       end.

Definition handleWorkerResult (workers : list string) (ctxDone : bool) (r : workerResult)
    (s : workerLifecycleState) : option (string * workerRestart) * workerLifecycleState :=
  if isCanceled ctxDone r then (None, markExited s)
  else match restartWorker workers r s with
       | (Some wr, s) => (Some wr, s)
       | (None, s) => (None, markExited s)
       end.

(** ** Stuck jobs *)

(** What [ResetStuckJobs] came back with: a count, an error, or a panic (which
    the processor recovers from). *)
Inductive reset_outcome := ResetCount (n : Z) | ResetFailed | ResetPanicked.

Class QueueMaintenanceStore (S : Type) :=
  reset_stuck : Time -> string -> Duration -> S -> reset_outcome * S.

(** [IncQueueError] by source, latest last, and the sum of
    [AddQueueStuckRecovered]. *)
Record queue_metrics := mk_metrics { queueErrors : list string; stuckRecovered : Z }.

Record QueueProcessor := mk_processor {
  workers : list string;
  pollInterval : Duration;
  stuckThreshold : Duration
}.

Definition WithQueuePollInterval (d : Duration) (q : QueueProcessor) : QueueProcessor :=
  mk_processor (workers q) d (stuckThreshold q).
Definition WithQueueStuckThreshold (d : Duration) (q : QueueProcessor) : QueueProcessor :=
  mk_processor (workers q) (pollInterval q) d.

(** A nil option is skipped. *)
Definition NewQueueProcessor (ws : list string) (opts : list (option (QueueProcessor -> QueueProcessor)))
    : QueueProcessor :=
  fold_left (fun q opt => match opt with Some f => f q | None => q end) opts
    (mk_processor ws defaultPollInterval defaultStuckThreshold).

Section maintenance.
Context {S : Type} `{QueueMaintenanceStore S}.

(** [now] is the store's clock when it is called. *)
Definition resetStuckJobsForSource (threshold : Duration) (now : Time) (source : string)
    (s : S * queue_metrics) : S * queue_metrics :=
  let (st, m) := s in
  match reset_stuck now source threshold st with
  | (ResetFailed, st) => (st, m)
  | (ResetPanicked, st) => (st, mk_metrics (queueErrors m ++ [source]) (stuckRecovered m))
  | (ResetCount count, st) =>
      (st, if 0 <? count then mk_metrics (queueErrors m) (stuckRecovered m + count) else m)
  end.

(** [clock i] is the clock at the reset of the i-th worker's source. *)
Fixpoint resetAllStuckJobs (threshold : Duration) (clock : nat -> Time) (ws : list string)
    (s : S * queue_metrics) : S * queue_metrics :=
  match ws with
  | [] => s
  | w :: ws => resetAllStuckJobs threshold (fun i => clock (1 + i)%nat) ws
                 (resetStuckJobsForSource threshold (clock 0%nat) w s)
  end.
End maintenance.

(** What the processor relies on: [clean t source st] (no job of that source is
    stuck at [t]) holds after a reset that did not fail, and no reset makes a
    job stuck. *)
Class MaintenanceLaws (S : Type) `{QueueMaintenanceStore S} (threshold : Duration)
    (clean : Time -> string -> S -> Prop) : Prop := {
  reset_cleans : forall now source st n st',
    reset_stuck now source threshold st = (ResetCount n, st') -> clean now source st';
  reset_keeps_clean : forall now source t source' st,
    clean t source' st -> clean t source' (reset_stuck now source threshold st).2
}.

(** The development store's method has no error path. *)
#[export] Instance devstore_maintenance : QueueMaintenanceStore Store := fun now source threshold st =>
  let (n, st') := ResetStuckJobs now source threshold st in (ResetCount n, st').

(** No job of that source is stuck at [t]. *)
Definition no_stuck (threshold : Duration) (t : Time) (source : string) (st : Store) : Prop :=
  Forall (fun j => stuck t source threshold j = false) (refreshJobs st).

Lemma unstick_not_stuck t source threshold j : stuck t source threshold (unstick j) = false.
Proof. reflexivity. Qed.

#[export] Instance devstore_maintenance_laws threshold :
  MaintenanceLaws Store threshold (no_stuck threshold).
Proof.
  unfold no_stuck. split.
  - intros now source st n st' [= _ <-]. simpl. apply Forall_fmap, Forall_true. intros j. simpl.
    destruct (stuck now source threshold j) eqn:E; [apply unstick_not_stuck|done].
  - intros now source t source' st Hc. simpl. apply Forall_fmap. eapply Forall_impl; [exact Hc|].
    intros j Hj. simpl. destruct (stuck now source threshold j); [apply unstick_not_stuck|done].
Qed.

Section maintenance_client.
Context {S : Type} {Hst : QueueMaintenanceStore S} (threshold : Duration) (clean : Time -> string -> S -> Prop).
Context {Hlaws : MaintenanceLaws S threshold clean}.

Lemma resetForSource_store now source (s : S * queue_metrics) :
  (resetStuckJobsForSource threshold now source s).1 = (reset_stuck now source threshold s.1).2.
Proof.
  destruct s as [st m]. unfold resetStuckJobsForSource. simpl.
  by destruct (reset_stuck now source threshold st) as [[] ?].
Qed.

Lemma resetAll_keeps_clean clock ws s t source :
  clean t source s.1 -> clean t source (resetAllStuckJobs threshold clock ws s).1.
Proof.
  revert clock s. induction ws as [|w ws IH]; intros clock s Hc; [done|]. simpl. apply IH.
  rewrite resetForSource_store. by apply (reset_keeps_clean (MaintenanceLaws := Hlaws)).
Qed.

(** A pass over the registered sources leaves no stuck job behind.  For
    every worker, unless the store failed or panicked on its own source, no job
    of the source is stuck any more as of the time of its reset, whatever the
    resets of the other sources returned: one failing source does not stop the
    others. *)
Theorem resetAllStuckJobs_releases clock ws s i w n :
  ws !! i = Some w ->
  (reset_stuck (clock i) w threshold (resetAllStuckJobs threshold clock (take i ws) s).1).1 = ResetCount n ->
  clean (clock i) w (resetAllStuckJobs threshold clock ws s).1.
Proof.
  revert clock s i. induction ws as [|w' ws IH]; intros clock s i Hi Hn; [done|].
  destruct i as [|i]; simplify_eq/=; [|by apply (IH (fun i => clock (1 + i)%nat))].
  apply resetAll_keeps_clean. rewrite resetForSource_store.
  destruct (reset_stuck (clock 0%nat) w threshold s.1) as [o st'] eqn:E. simplify_eq/=.
  exact (reset_cleans (MaintenanceLaws := Hlaws) _ _ _ _ _ E).
Qed.
End maintenance_client.

(** ** The system *)

(** Where the processor's [Run] is: in its loop, draining with the count of
    exited workers, waiting for cancellation after all workers exited, or
    returned. *)
Inductive mode := Looping | Draining (n : Z) | Idle | Returned.

(** [running]: goroutines inside a worker's Run.  [waiting]: goroutines in a
    back-off.  [done_ch]: the results in the channel, oldest first.
    [scheduled]: the restarts logged by [restartWorker], latest last.
    [maint]: the store and the metrics. *)
Record sys {S : Type} := mk_sys {
  ctx_done : bool;
  lifecycle : workerLifecycleState;
  running : list string;
  waiting : list (string * workerRestart);
  done_ch : list workerResult;
  proc : mode;
  scheduled : list (string * workerRestart);
  maint : S * queue_metrics
}.
Arguments sys : clear implicits.

Section system.
Context {S : Type} {Hst : QueueMaintenanceStore S} (q : QueueProcessor).

(** [Run] up to its loop: stuck jobs of an earlier run are reset, then every
    worker is started ([startWorkers]). *)
Definition startWorkers (ctxDone : bool) (clock : nat -> Time) (st : S * queue_metrics) : sys S :=
  mk_sys S ctxDone (newWorkerLifecycleState (length (workers q))) (workers q) [] [] Looping []
    (resetAllStuckJobs (stuckThreshold q) clock (workers q) st).

(** The buffer of [done]. *)
Definition capacity : nat := length (workers q).

(** The loop after a result was handled. *)
Definition after_result (s : sys S) (rest : list workerResult)
    (h : option (string * workerRestart) * workerLifecycleState) : sys S :=
  let started := match h.1 with Some wr => [wr] | None => [] end in
  mk_sys S (ctx_done s) h.2 (running s) (waiting s ++ started) rest
    (if allWorkersExited h.2 then Idle else Looping) (scheduled s ++ started) (maint s).

Inductive sys_step (s : sys S) : sys S -> Prop :=
| step_cancel :
    ctx_done s = false ->
    sys_step s (mk_sys S true (lifecycle s) (running s) (waiting s) (done_ch s) (proc s) (scheduled s) (maint s))
| step_exit pre w post err :
    running s = pre ++ w :: post -> (length (done_ch s) < capacity)%nat ->
    sys_step s (mk_sys S (ctx_done s) (lifecycle s) (pre ++ post) (waiting s)
                  (done_ch s ++ [mk_result w err]) (proc s) (scheduled s) (maint s))
| step_backoff pre w r post :
    waiting s = pre ++ (w, r) :: post ->
    sys_step s (mk_sys S (ctx_done s) (lifecycle s) (w :: running s) (pre ++ post) (done_ch s) (proc s)
                  (scheduled s) (maint s))
| step_backoff_canceled pre w r post e :
    waiting s = pre ++ (w, r) :: post -> ctx_done s = true -> (length (done_ch s) < capacity)%nat ->
    sys_step s (mk_sys S (ctx_done s) (lifecycle s) (running s) (pre ++ post)
                  (done_ch s ++ [mk_result w (Some e)]) (proc s) (scheduled s) (maint s))
| step_result r rest :
    proc s = Looping -> done_ch s = r :: rest ->
    sys_step s (after_result s rest (handleWorkerResult (workers q) (ctx_done s) r (lifecycle s)))
| step_tick clock :
    proc s = Looping ->
    sys_step s (mk_sys S (ctx_done s) (lifecycle s) (running s) (waiting s) (done_ch s) (proc s) (scheduled s)
                  (resetAllStuckJobs (stuckThreshold q) clock (workers q) (maint s)))
| step_others st :
    sys_step s (mk_sys S (ctx_done s) (lifecycle s) (running s) (waiting s) (done_ch s) (proc s) (scheduled s)
                  (st, (maint s).2))
| step_shutdown :
    proc s = Looping -> ctx_done s = true ->
    sys_step s (mk_sys S (ctx_done s) (lifecycle s) (running s) (waiting s) (done_ch s)
                  (Draining (exited (lifecycle s))) (scheduled s) (maint s))
| step_drain n r rest :
    proc s = Draining n -> n < Z.of_nat (length (workers q)) -> done_ch s = r :: rest ->
    sys_step s (mk_sys S (ctx_done s) (lifecycle s) (running s) (waiting s) rest (Draining (n + 1))
                  (scheduled s) (maint s))
| step_drained n :
    proc s = Draining n -> Z.of_nat (length (workers q)) <= n ->
    sys_step s (mk_sys S (ctx_done s) (lifecycle s) (running s) (waiting s) (done_ch s) Returned
                  (scheduled s) (maint s))
| step_idle_done :
    proc s = Idle -> ctx_done s = true ->
    sys_step s (mk_sys S (ctx_done s) (lifecycle s) (running s) (waiting s) (done_ch s) Returned
                  (scheduled s) (maint s)).

Inductive sys_reachable : sys S -> Prop :=
| sys_start ctxDone clock st : workers q <> [] -> sys_reachable (startWorkers ctxDone clock st)
| sys_next s s' : sys_reachable s -> sys_step s s' -> sys_reachable s'.

(** ** Lemmas *)

(** The workers that still owe the processor a result. *)
Definition live (s : sys S) : Z :=
  Z.of_nat (length (running s) + length (waiting s) + length (done_ch s)).

(** The results the processor has accounted for. *)
Definition accounted (s : sys S) : Z :=
  match proc s with
  | Looping | Idle => exited (lifecycle s)
  | Draining n => n
  | Returned => Z.of_nat (length (workers q))
  end.

(** A scheduled restart carries its number and the back-off of that number. *)
Definition restart_ok (wr : string * workerRestart) : Prop :=
  1 <= attempts wr.2 <= maxWorkerRestarts /\
  workerBackoffs !! Z.to_nat (attempts wr.2 - 1) = Some (backoff wr.2).

Definition sys_ok (s : sys S) : Prop :=
  total (lifecycle s) = Z.of_nat (length (workers q)) /\
  accounted s + live s = Z.of_nat (length (workers q)) /\
  0 <= exited (lifecycle s) /\ 0 <= accounted s /\
  (forall w, 0 <= default 0 (restartCounts (lifecycle s) !! w) <= maxWorkerRestarts) /\
  (proc s = Looping -> 0 < live s) /\
  (proc s = Idle \/ proc s = Returned -> live s = 0) /\
  (forall n, proc s = Draining n -> ctx_done s = true) /\
  Forall restart_ok (waiting s).

Lemma claimRestart_ok name s restart ok s' :
  claimRestart name s = (restart, ok, s') ->
  (forall w, 0 <= default 0 (restartCounts s !! w) <= maxWorkerRestarts) ->
  exited s' = exited s /\ total s' = total s /\
  (forall w, 0 <= default 0 (restartCounts s' !! w) <= maxWorkerRestarts) /\
  (ok = true -> 1 <= attempts restart <= maxWorkerRestarts /\
     workerBackoffs !! Z.to_nat (attempts restart - 1) = Some (backoff restart)).
Proof.
  unfold claimRestart. intros H Hc. pose proof (Hc name) as Hn.
  destruct (Z.leb_spec maxWorkerRestarts (default 0 (restartCounts s !! name))); simplify_eq/=.
  { by split_and!. }
  split_and!; try done.
  - intros w. destruct (decide (w = name)) as [->|Hne].
    + rewrite lookup_insert_eq. simpl. lia.
    + rewrite lookup_insert_ne by done. apply Hc.
  - intros _. split; [lia|]. unfold maxWorkerRestarts in *.
    set (n := default 0 (restartCounts s !! name)) in *.
    assert (n = 0 \/ n = 1 \/ n = 2) as [-> | [-> | ->]] by lia; reflexivity.
Qed.

(** A handled result is accounted for, or starts one back-off. *)
Lemma handle_ok ctxDone r s :
  (forall w, 0 <= default 0 (restartCounts s !! w) <= maxWorkerRestarts) ->
  let h := handleWorkerResult (workers q) ctxDone r s in
  total h.2 = total s /\
  (forall w, 0 <= default 0 (restartCounts h.2 !! w) <= maxWorkerRestarts) /\
  match h.1 with
  | None => exited h.2 = exited s + 1
  | Some wr => exited h.2 = exited s /\ ctxDone = false /\
      1 <= attempts wr.2 <= maxWorkerRestarts /\
      workerBackoffs !! Z.to_nat (attempts wr.2 - 1) = Some (backoff wr.2)
  end.
Proof.
  intros Hc h. unfold h, handleWorkerResult, restartWorker.
  destruct (isCanceled ctxDone r) eqn:Ec; [by split_and!|].
  assert (ctxDone = false) as Hctx by (unfold isCanceled in Ec; by destruct (resErr r) as [[]|]).
  destruct (claimRestart (resName r) s) as [[restart ok] s'] eqn:E.
  destruct (claimRestart_ok _ _ _ _ _ E Hc) as (H1 & H2 & H3 & H4).
  destruct ok; simpl; [destruct (findWorker (workers q) (resName r)); simpl|]; split_and!; try done; try congruence;
    try (by apply H4).
Qed.

Lemma live_exit (s : sys S) pre w post :
  running s = pre ++ w :: post -> Z.of_nat (length (running s)) = Z.of_nat (length (pre ++ post)) + 1.
Proof. intros ->. rewrite !length_app. simpl. lia. Qed.

Lemma live_wait (s : sys S) pre wr post :
  waiting s = pre ++ wr :: post -> Z.of_nat (length (waiting s)) = Z.of_nat (length (pre ++ post)) + 1.
Proof. intros ->. rewrite !length_app. simpl. lia. Qed.

Lemma Forall_drop_middle {A} (P : A -> Prop) pre x post : Forall P (pre ++ x :: post) -> Forall P (pre ++ post).
Proof. rewrite !Forall_app, Forall_cons. tauto. Qed.

(** The parts of the invariant that follow by counting. *)
Ltac conserve Hloop Hidle :=
  split_and!; try done; try lia;
  try (match goal with |- match ?p with _ => _ end + _ = _ => destruct p; lia end);
  try (let H := fresh in intros H; first [specialize (Hloop H) | specialize (Hidle H)]; lia).

Ltac counted := split_and!; try done; try lia; try (intros [?|?]; (done || lia)).

Lemma sys_step_ok s s' : sys_ok s -> sys_step s s' -> sys_ok s'.
Proof.
  intros (Htot & Hacc & Hex & Hpos0 & Hcnt & Hloop & Hidle & Hdr & Hwait) Hstep.
  unfold sys_ok, live, accounted in *.
  destruct Hstep as [Hc|pre w post err Hrun Hcap|pre w r post Hw|pre w r post e Hw Hc Hcap|r rest Hp Hd
    |clock Hp|st|Hp Hc|n r rest Hp Hn Hd|n Hp Hn|Hp Hc]; cbn [ctx_done lifecycle running waiting done_ch proc] in *.
  - by split_and!.
  - pose proof (live_exit _ _ _ _ Hrun) as Hl. rewrite !length_app in *. cbn [length] in *. conserve Hloop Hidle.
  - pose proof (live_wait _ _ _ _ Hw) as Hl. rewrite !length_app in *. cbn [length] in *. conserve Hloop Hidle.
    rewrite Hw in Hwait. by apply Forall_drop_middle in Hwait.
  - pose proof (live_wait _ _ _ _ Hw) as Hl. rewrite !length_app in *. cbn [length] in *. conserve Hloop Hidle.
    rewrite Hw in Hwait. by apply Forall_drop_middle in Hwait.
  - destruct (handle_ok (ctx_done s) r (lifecycle s) Hcnt) as (H1 & H2 & H3).
    unfold after_result. set (h := handleWorkerResult (workers q) (ctx_done s) r (lifecycle s)) in *.
    rewrite Hp, Hd in Hacc. cbn [length] in Hacc. cbn [ctx_done lifecycle running waiting done_ch proc].
    set (started := match h.1 with Some wr => [wr] | None => [] end).
    assert (exited h.2 + Z.of_nat (length started) = exited (lifecycle s) + 1 /\ 0 <= exited h.2) as [Hsum Hpos].
    { subst started. destruct h.1 as [wr|]; cbn [length]; lia. }
    assert (Forall restart_ok (waiting s ++ started)) as Hwait'.
    { apply Forall_app. split; [done|]. subst started. destruct h.1 as [wr|]; [|done]. by constructor; [apply H3|]. }
    rewrite length_app in *. clearbody started. clear H3.
    unfold allWorkersExited. destruct (Z.leb_spec (total h.2) (exited h.2)); counted.
  - by split_and!.
  - by split_and!.
  - rewrite Hp in *. counted.
  - rewrite Hp, Hd in *. cbn [length] in *. counted. intros ? _. by apply (Hdr n).
  - rewrite Hp in *. counted.
  - rewrite Hp in *. specialize (Hidle (or_introl eq_refl)). counted.
Qed.

Lemma sys_reachable_ok s : sys_reachable s -> sys_ok s.
Proof.
  induction 1 as [c Hne|s s' _ IH Hstep]; [|by eapply sys_step_ok].
  unfold sys_ok, live, accounted, startWorkers. cbn. destruct (workers q) as [|w ws]; [done|]. cbn [length].
  split_and!; try done; try lia; try (intros [|]; done).
Qed.

(** Steps still possible once the context is cancelled: bounded by what every
    goroutine and the loop have left to do. *)
Definition mode_work (m : mode) : nat :=
  match m with Looping => 2 | Draining _ | Idle => 1 | Returned => 0 end.

Definition work_left (s : sys S) : nat :=
  (3 * length (waiting s) + 2 * length (running s) + length (done_ch s) + mode_work (proc s))%nat.

(** The step only touched the store and the metrics: a tick, or another
    component's doing. *)
Definition store_only (s s' : sys S) : Prop :=
  s' = mk_sys S (ctx_done s) (lifecycle s) (running s) (waiting s) (done_ch s) (proc s) (scheduled s) (maint s').

Lemma canceled_step_decreases s s' :
  sys_ok s -> ctx_done s = true -> sys_step s s' ->
  store_only s s' \/ (ctx_done s' = true /\ (work_left s' < work_left s)%nat).
Proof.
  intros (_ & _ & _ & _ & Hcnt & _) Hctx Hstep. unfold work_left, store_only.
  destruct Hstep as [Hc|pre w post err Hrun Hcap|pre w r post Hw|pre w r post e Hw Hc Hcap|r rest Hp Hd
    |clock Hp|st|Hp Hc|n r rest Hp Hn Hd|n Hp Hn|Hp Hc];
    cbn [ctx_done lifecycle running waiting done_ch proc scheduled maint]; try (by left); right.
  - congruence.
  - rewrite Hrun, !length_app. cbn [length]. split; [done|lia].
  - rewrite Hw, !length_app. cbn [length]. split; [done|lia].
  - rewrite Hw, !length_app. cbn [length]. split; [done|lia].
  - destruct (handle_ok (ctx_done s) r (lifecycle s) Hcnt) as (_ & _ & H3).
    unfold after_result. cbn [ctx_done lifecycle running waiting done_ch proc].
    destruct (handleWorkerResult (workers q) (ctx_done s) r (lifecycle s)) as [[wr|] l]; cbn [fst snd] in *.
    { destruct H3 as (_ & H3 & _). congruence. }
    rewrite Hd, Hp, app_nil_r. cbn [length]. split; [done|]. destruct (allWorkersExited l); simpl; lia.
  - rewrite Hp. split; [done|]. simpl. lia.
  - rewrite Hp, Hd. cbn [length]. split; [done|]. simpl. lia.
  - rewrite Hp. split; [done|]. simpl. lia.
  - rewrite Hp. split; [done|]. simpl. lia.
Qed.

(** A goroutine that is running or in a back-off can always send its result. *)
Lemma channel_has_room s :
  sys_ok s -> running s <> [] \/ waiting s <> [] -> (length (done_ch s) < capacity)%nat.
Proof.
  intros (_ & Hacc & _ & Hpos & _) Hlive. unfold live, capacity in *.
  assert (0 < length (running s) + length (waiting s))%nat; [|lia].
  destruct Hlive; [destruct (running s)|destruct (waiting s)]; simpl; try done; lia.
Qed.

(** Once cancelled, the processor and its goroutines can go on until [Run] has
    returned. *)
Lemma canceled_progress s :
  sys_ok s -> ctx_done s = true -> proc s <> Returned ->
  exists s', sys_step s s' /\ ctx_done s' = true /\ (work_left s' < work_left s)%nat.
Proof.
  intros Hok Hctx Hret.
  enough (exists s', sys_step s s' /\ ~ store_only s s') as (s' & Hs & Hn).
  { exists s'. split; [done|]. by destruct (canceled_step_decreases s s' Hok Hctx Hs). }
  destruct (proc s) as [|n| |] eqn:Hp; [..|done].
  - eexists. split; [by apply step_shutdown|]. intros [=]. congruence.
  - destruct (Z.ltb_spec n (Z.of_nat (length (workers q)))) as [Hn|Hn].
    2: { eexists. split; [by eapply step_drained|]. intros [=]. congruence. }
    destruct (done_ch s) as [|r rest] eqn:Hd.
    2: { eexists. split; [by eapply step_drain|]. intros [=]. rewrite Hp in *. simplify_eq. lia. }
    pose proof (channel_has_room s Hok) as Hroom. destruct Hok as (_ & Hacc & _).
    unfold accounted, live in Hacc. rewrite Hp, Hd in Hacc.
    destruct (running s) as [|w ws] eqn:Hr.
    + destruct (waiting s) as [|[w r] ws] eqn:Hw; [simpl in Hacc; lia|].
      eexists. split; [apply (step_backoff s [] w r ws); by rewrite Hw|].
      intros [= Hx]. rewrite Hr in Hx. done.
    + eexists. split; [apply (step_exit s [] w ws None); [by rewrite Hr|apply Hroom; by left]|].
      intros [= Hx]. rewrite Hr in Hx. by apply (f_equal length) in Hx; simpl in Hx; lia.
  - eexists. split; [by apply step_idle_done|]. intros [=]. congruence.
Qed.

(** A step of the processor or of one of its goroutines. *)
Definition own_step (s s' : sys S) : Prop := sys_step s s' /\ ~ store_only s s'.

Lemma decreasing_own_step s s' : sys_step s s' -> (work_left s' < work_left s)%nat -> own_step s s'.
Proof. intros Hs Hlt. split; [done|]. intros Hso. rewrite Hso in Hlt. unfold work_left in Hlt. simpl in Hlt. lia. Qed.

Lemma own_step_ok s s' :
  sys_ok s -> ctx_done s = true -> own_step s s' ->
  sys_ok s' /\ ctx_done s' = true /\ (work_left s' < work_left s)%nat.
Proof.
  intros Hok Hctx [Hs Hn]. split; [by eapply sys_step_ok|].
  by destruct (canceled_step_decreases s s' Hok Hctx Hs).
Qed.

Lemma own_steps_decrease n s s' :
  sys_ok s -> ctx_done s = true -> nsteps own_step n s s' -> (n + work_left s' <= work_left s)%nat.
Proof.
  intros Hok Hctx Hn. revert Hok Hctx.
  induction Hn as [s|n s1 s2 s3 Hs _ IH]; intros Hok Hctx; [lia|].
  destruct (own_step_ok _ _ Hok Hctx Hs) as (Hok' & Hctx' & Hlt). specialize (IH Hok' Hctx'). lia.
Qed.

Lemma own_rtc_ok s s' :
  sys_ok s -> ctx_done s = true -> rtc own_step s s' -> sys_ok s' /\ ctx_done s' = true.
Proof.
  intros Hok Hctx Hs. revert Hok Hctx. induction Hs as [|s1 s2 s3 Hs _ IH]; intros Hok Hctx; [done|].
  destruct (own_step_ok _ _ Hok Hctx Hs) as (? & ? & _). by apply IH.
Qed.

#[local] Instance mode_eq_dec : EqDecision mode.
Proof. solve_decision. Defined.

Lemma own_run_returns s :
  sys_ok s -> ctx_done s = true -> exists s', rtc own_step s s' /\ proc s' = Returned.
Proof.
  remember (work_left s) as n eqn:Hn. revert s Hn.
  induction n as [n IH] using lt_wf_ind; intros s -> Hok Hctx.
  destruct (decide (proc s = Returned)) as [|Hne]; [by exists s|].
  destruct (canceled_progress s Hok Hctx Hne) as (s1 & Hs & Hctx1 & Hlt).
  destruct (IH _ Hlt s1 eq_refl (sys_step_ok _ _ Hok Hs) Hctx1) as (s' & Hrun & Hret).
  exists s'. split; [|done]. eapply rtc_l; [|done]. by apply decreasing_own_step.
Qed.

Lemma returned_empty s : sys_ok s -> proc s = Returned -> running s = [] /\ waiting s = [] /\ done_ch s = [].
Proof.
  intros (_ & _ & _ & _ & _ & _ & Hidle & _) Hp. specialize (Hidle (or_intror Hp)). unfold live in Hidle.
  destruct (running s), (waiting s), (done_ch s); simpl in Hidle; try done; lia.
Qed.

(** The restarts that may be scheduled for one worker name, in order. *)
Definition restart_schedule : list workerRestart :=
  zip_with mk_restart [1; 2; 3] workerBackoffs.

Definition restarts_of (name : string) (s : sys S) : list workerRestart :=
  snd <$> filter (fun wr => wr.1 = name) (scheduled s).

Definition restart_count (name : string) (l : workerLifecycleState) : nat :=
  Z.to_nat (default 0 (restartCounts l !! name)).

(** What was scheduled for a name is the prefix of the schedule its counter
    says; the counter also runs for a name that is not registered. *)
Definition history_ok (s : sys S) : Prop := forall name,
  (name ∈ workers q -> restarts_of name s = take (restart_count name (lifecycle s)) restart_schedule) /\
  (name ∉ workers q -> restarts_of name s = []).

Lemma findWorker_spec name :
  findWorker (workers q) name = if bool_decide (name ∈ workers q) then Some name else None.
Proof.
  unfold findWorker. case_bool_decide as Hin.
  - apply list_elem_of_lookup in Hin as [i Hi]. revert i Hi. induction (workers q) as [|w ws IH]; intros i Hi; [done|].
    simpl. case_bool_decide; [by subst|]. destruct i as [|i]; simplify_eq/=. by eapply IH.
  - revert Hin. induction (workers q) as [|w ws IH]; intros Hin; [done|]. simpl.
    apply not_elem_of_cons in Hin as [Hne Hin]. case_bool_decide; [congruence|]. by apply IH.
Qed.

Lemma schedule_next n :
  0 <= n < maxWorkerRestarts ->
  take (Z.to_nat (n + 1)) restart_schedule =
  take (Z.to_nat n) restart_schedule ++ [mk_restart (n + 1) (default 0 (workerBackoffs !! Z.to_nat n))].
Proof.
  unfold maxWorkerRestarts. intros H. assert (n = 0 \/ n = 1 \/ n = 2) as [-> | [-> | ->]] by lia; reflexivity.
Qed.

(** The restart [handleWorkerResult] schedules extends the prefix by one. *)
Lemma handle_history ctxDone r l name :
  (forall w, 0 <= default 0 (restartCounts l !! w) <= maxWorkerRestarts) ->
  let h := handleWorkerResult (workers q) ctxDone r l in
  let new := snd <$> filter (fun wr => wr.1 = name) (match h.1 with Some wr => [wr] | None => [] end) in
  (name ∈ workers q ->
    take (restart_count name h.2) restart_schedule = take (restart_count name l) restart_schedule ++ new) /\
  (name ∉ workers q -> new = []).
Proof.
  intros Hc h new. subst new h. unfold handleWorkerResult, restartWorker, claimRestart.
  destruct (isCanceled ctxDone r); simpl; [by rewrite app_nil_r|].
  destruct (Z.leb_spec maxWorkerRestarts (default 0 (restartCounts l !! resName r))); simpl.
  { by rewrite app_nil_r. }
  rewrite findWorker_spec. case_bool_decide as Hin; unfold restart_count; simpl.
  - destruct (decide (resName r = name)) as [<-|Hne].
    + rewrite filter_cons_True, lookup_insert_eq by done. simpl. specialize (Hc (resName r)).
      split; [|done]. intros _. apply schedule_next. lia.
    + rewrite filter_cons_False, lookup_insert_ne, app_nil_r by done. done.
  - split; [|done]. intros Hn. rewrite lookup_insert_ne, app_nil_r by congruence. done.
Qed.

Lemma restart_history_ok s : sys_reachable s -> history_ok s.
Proof.
  induction 1 as [c clock st Hne|s s' Hr IH Hstep]; [by split|].
  destruct (sys_reachable_ok s Hr) as (_ & _ & _ & _ & Hcnt & _).
  destruct Hstep; try done. intros name. unfold restarts_of, after_result. simpl.
  rewrite filter_app, fmap_app.
  destruct (handle_history (ctx_done s) r (lifecycle s) name Hcnt) as [H1 H2].
  destruct (IH name) as [IH1 IH2]. split; intros Hn.
  - rewrite H1 by done. f_equal. by apply IH1.
  - rewrite H2, app_nil_r by done. by apply IH2.
Qed.

(** ** Theorems *)

(** C30: no result is lost and no goroutine blocks.  In every state of every
    interleaving, the exited workers the processor has counted and the workers
    that still owe a result (running, in a back-off, or with a result in the
    channel) add up to the number of workers; so the channel never holds more
    results than fit and a goroutine can always send; draining waits for
    exactly the results still owed; and once the processor has returned, no
    goroutine is left. *)
Theorem results_conserved s :
  sys_reachable s ->
  accounted s + live s = Z.of_nat (length (workers q)) /\
  (running s <> [] \/ waiting s <> [] -> (length (done_ch s) < capacity)%nat) /\
  (proc s = Returned -> running s = [] /\ waiting s = [] /\ done_ch s = []).
Proof.
  intros Hr%sys_reachable_ok. split_and!; [apply Hr|by apply channel_has_room|by apply returned_empty].
Qed.

(** C31: shutdown terminates and cannot deadlock.  From any state whose context
    is cancelled, every run of the processor and its goroutines is bounded by
    the work left in that state (ticks and other components' changes to the
    store aside); a run that cannot go on has ended with [Run] returned; and
    there is such a run. *)
Theorem shutdown_terminates s :
  sys_reachable s -> ctx_done s = true ->
  (forall n s', nsteps own_step n s s' -> (n <= work_left s)%nat) /\
  (forall s', rtc own_step s s' -> (forall s'', ~ own_step s' s'') -> proc s' = Returned) /\
  exists s', rtc own_step s s' /\ proc s' = Returned.
Proof.
  intros Hr%sys_reachable_ok Hctx. split_and!.
  - intros n s' Hn. pose proof (own_steps_decrease _ _ _ Hr Hctx Hn). lia.
  - intros s' Hs Hend. destruct (own_rtc_ok _ _ Hr Hctx Hs) as [Hr' Hctx'].
    destruct (decide (proc s' = Returned)) as [|Hne]; [done|].
    destruct (canceled_progress s' Hr' Hctx' Hne) as (s'' & Hstep & _ & Hlt). destruct (Hend s'').
    by apply decreasing_own_step.
  - by apply own_run_returns.
Qed.

(** The restarts of a worker are the first ones of the schedule (the first
    after 5 seconds, the second after 30 seconds, the third after 5 minutes), in
    this order and never a fourth, and only registered workers are restarted. *)
Theorem restarts_follow_schedule s name :
  sys_reachable s ->
  (exists k, restarts_of name s = take k restart_schedule) /\
  (restarts_of name s <> [] -> name ∈ workers q).
Proof.
  intros Hr. destruct (restart_history_ok s Hr name) as [Hin Hout].
  destruct (decide (name ∈ workers q)) as [Hn|Hn].
  - split; [|done]. eexists. by apply Hin.
  - rewrite Hout by done. split; [by exists 0%nat|done].
Qed.
End system.

(** ** Witnesses *)

Definition two_workers : QueueProcessor := NewQueueProcessor ["socket"; "osv"] [None].

Definition stuck_store : Store :=
  set_jobs [mk_job 1 "npm" "a" "socket" 3 RefreshStatusProcessing 0 (Some 0) "";
            mk_job 2 "npm" "b" "osv" 3 RefreshStatusProcessing 0 (Some (9 * Minute)) ""] NewStore.

(** The job claimed ten minutes ago is released, the one claimed a minute ago
    is not. *)
Lemma resetAllStuckJobs_releases_witness :
  let s := resetAllStuckJobs (stuckThreshold two_workers) (fun _ => 10 * Minute) (workers two_workers)
             (stuck_store, mk_metrics [] 0) in
  no_stuck defaultStuckThreshold (10 * Minute) "osv" s.1 /\
  Status <$> refreshJobs s.1 = [RefreshStatusPending; RefreshStatusProcessing] /\ stuckRecovered s.2 = 1.
Proof.
  intros s. split; [|vm_compute; split; reflexivity].
  apply (resetAllStuckJobs_releases defaultStuckThreshold (no_stuck defaultStuckThreshold)
    (fun _ => 10 * Minute) (workers two_workers) (stuck_store, mk_metrics [] 0) 1 "osv" 0); vm_compute; reflexivity.
Defined.

Definition started : sys Store := startWorkers two_workers false (fun _ => 10 * Minute) (stuck_store, mk_metrics [] 0).

Lemma started_reachable : sys_reachable two_workers started.
Proof. apply sys_start. discriminate. Qed.

(** Socket's worker crashes and its restart is scheduled; then the context is
    cancelled. *)
Definition reported : sys Store :=
  mk_sys Store false (lifecycle started) ["osv"] [] [mk_result "socket" (Some OtherError)] Looping [] (maint started).

Definition crashed : sys Store :=
  after_result reported []
    (handleWorkerResult (workers two_workers) false (mk_result "socket" (Some OtherError)) (lifecycle started)).

Definition canceled : sys Store :=
  mk_sys Store true (lifecycle crashed) (running crashed) (waiting crashed) (done_ch crashed) (proc crashed)
    (scheduled crashed) (maint crashed).

Lemma crashed_reachable : sys_reachable two_workers crashed.
Proof.
  apply (sys_next _ reported); [apply (sys_next _ started); [apply started_reachable|]|].
  - apply (step_exit two_workers started [] "socket" ["osv"] (Some OtherError)); [reflexivity|]. vm_compute. lia.
  - apply (step_result two_workers reported); reflexivity.
Qed.

Lemma canceled_reachable : sys_reachable two_workers canceled.
Proof. eapply sys_next; [apply crashed_reachable|]. apply step_cancel. reflexivity. Qed.

Lemma results_conserved_witness :
  accounted two_workers crashed = 0 /\ live crashed = 2 /\
  accounted two_workers crashed + live crashed = Z.of_nat (length (workers two_workers)).
Proof.
  split; [reflexivity|]. split; [reflexivity|].
  exact (proj1 (results_conserved two_workers crashed crashed_reachable)).
Defined.

Lemma shutdown_terminates_witness :
  work_left canceled = 7%nat /\ exists s', rtc (own_step two_workers) canceled s' /\ proc s' = Returned.
Proof.
  split; [reflexivity|].
  exact (proj2 (proj2 (shutdown_terminates two_workers canceled canceled_reachable eq_refl))).
Defined.

Lemma restarts_follow_schedule_witness :
  restarts_of "socket" crashed = [mk_restart 1 (5 * Second)] /\
  exists k, restarts_of "socket" crashed = take k restart_schedule.
Proof.
  split; [reflexivity|].
  exact (proj1 (restarts_follow_schedule two_workers crashed "socket" crashed_reachable)).
Defined.
